(* ===== verification/_CoqProject ===== *)
-Q . S2P
Prelude.v
Text.v
Wp.v
Errors.v
DeviceEvents.v
SegmentMap.v
IoLog.v
RebuildState.v
RebuildCopy.v
Rebuilders.v
RebuildJob.v
RebuildJobFacts.v
RebuildSpecs.v
RebuildProps.v
Wiper.v
NexusChild.v
NexusIo.v
NexusIoFacts.v
NexusIoProps.v
IoSubsystem.v
NexusErrors.v
LvsErrors.v
LvsLvol.v
LvsLvolProps.v
LvsMoves.v
LvsStore.v
LvsStoreProps.v
LvsStall.v
LvsReplica.v
PoolService.v
PoolServiceProps.v
LvsSample.v
NexusPersist.v
NvmfTarget.v
NvmfSubsystem.v
NvmfProps.v
NexusShare.v
NexusShareProps.v
NvmfSample.v
NexusReservations.v
NexusControl.v
NexusSnapshot.v
BdevUri.v
BdevDevice.v
BdevUriProps.v
BdevUriSample.v
LvsUri.v
Crypto.v
BlockDevice.v
Lvm.v
LvmVolumes.v
LvmProps.v
LvmSample.v
Nic.v
NicProps.v
Inject.v
InjectProps.v
InjectSample.v
Locks.v
Reactor.v
SnapshotRebuild.v
SnapshotRebuildProps.v
Codec.v
Gpt.v
GptFacts.v
GptMaya.v
GptTool.v
GptProps.v
LabelProps.v
NexusLifecycle.v
LifecycleProps.v
Nvmx.v
NvmxController.v
NvmxFacts.v
NvmxProps.v
NvmxHandle.v
NvmxQpair.v
