(* ===== verification/Prelude.v ===== *)
(** * Mayastor I/O engine: verification library

    The I/O engine ([src/io-engine/src]) is the data plane of a replicated block
    store.  A _nexus_ is a bdev that mirrors writes to its children, which are
    local or remote replicas; a child that failed is brought back in sync by a
    _rebuild_.  Replicas are logical volumes on _pools_, and are reached over
    NVMe-oF by the engine's own initiator.  This library translates these parts
    into functions and transition systems, and proves what they promise to each
    other and to their clients.

    ** Conventions

    - A fallible operation is an [outcome]: a value, an error of the source's
      error type, or a panic, which is kept apart from errors.  An operation with
      state is [ST S E A], a function of the state; [Wp] has the rules to reason
      about it.
    - Machine integers are [Z] with [wrap64], [wrap32] and [wrap8] wherever the
      code can leave the width; release builds wrap, and what wraps is written so.
    - Code outside of the repository (SPDK, etcd, the crates [bincode], [bit_vec],
      [uuid], [url]) is an interface: a class of operations, and where something
      is relied on a class of laws.  Each property that has such laws is applied
      to a concrete instance.  The answers of calls that leave the engine are
      events or arguments, so the theorems hold for every answer.
    - Asynchronous code is cut at its await points.  An operation between two of
      them is one step, and the theorems quantify over all interleavings.
    - Loops that are not structural have fuel only where the source has a bound:
      retries ([save_loop]), polls ([crypto_vbdev_resized]), rounds of [share_all]
      (2 seconds), ancestors of a snapshot (the number of lvols).  [wiper] and
      [gpt] recurse on the work that is left.

    ** The parts and their files

    Shared: [Prelude] (outcomes, the state monad, integers, lists), [Text]
    (strings, C strings, UTF-8), [Wp], [Errors] ([core/mod.rs], [bdev_api.rs]),
    [DeviceEvents] ([core/device_events.rs]).

    Rebuilds ([rebuild/], [core/segment_map.rs]): [SegmentMap] and [IoLog] are
    the maps of dirty segments, [RebuildState] the states of a job, [RebuildCopy]
    the copy of one segment, [Rebuilders] the iteration over a device,
    [RebuildJob] the manager with its tasks and frontend.  [RebuildJobFacts] has
    its invariants against the interface [RebuilderSpec], which [RebuildSpecs]
    discharges for full and partial rebuilds.  [RebuildProps]: a completed rebuild
    leaves its destination in sync with the source, comes to rest, never panics.
    [Wiper] ([core/wiper.rs]): a wipe that succeeds has zeroed the device.

    The nexus ([bdev/nexus/]): [NexusChild] is one child; [NexusIo] a channel and
    its I/Os, with the invariants in [NexusIoFacts] and the theorems in
    [NexusIoProps]: I/Os complete once, an acknowledged write is on every child
    that counts, and a child that missed one has it in its log.  [IoSubsystem]:
    pausing and resuming, with waiters.  [NexusErrors], [NexusPersist] (the record
    in etcd: what was reported as stored is stored, the last healthy child is not
    retired, a foreign record is not overwritten), [NexusReservations] (an
    acquired reservation is held), [NexusControl] (removing, faulting and onlining
    children, starting and finishing rebuilds), [NexusLifecycle] with
    [LifecycleProps] (geometry, creation, resize, retirement, shutdown).

    Labels ([core/gpt/], [bin/gpt.rs]): [Codec], [Gpt], [GptMaya], [GptTool] with
    [GptFacts], [GptProps], [LabelProps]: a label that is written is found again,
    from either copy, and the data partition is where the reference puts it.

    NVMe-oF initiator ([bdev/nvmx/]): [Nvmx] and [NvmxController] are controllers
    with their channels, resets and shutdowns; [NvmxFacts] splits each event into
    moves, of which [NvmxProps] proves the invariants.  [NvmxHandle] submits and
    completes I/O, [NvmxQpair] connects queue pairs.

    Pools ([lvs/], [pool_information.rs]): [LvsErrors]; [LvsLvol] are replicas,
    snapshots and clones over the interface [Spdk], [LvsLvolProps] the round trips
    of what is stored in them, [LvsMoves] the calls they make.  [LvsStore] creates,
    imports, exports, destroys and grows pools over the interface [Pools];
    [LvsStoreProps] shows what success leaves and that failure leaves nothing,
    [LvsReplica] the same of replicas, [LvsStall] that stall detection recovers in
    every interleaving.  [PoolService] are the gRPC services on top of them
    ([grpc/v1/pool.rs], [replica.rs], [snapshot.rs]) and [PoolServiceProps] shows
    that no sequence of requests takes a snapshot away from its clones.
    [LvsSample] is the concrete SPDK for which the laws hold.

    NVMe-oF target ([subsys/nvmf/], [core/bdev.rs], [core/share.rs],
    [bdev/nexus/nexus_share.rs]): [NvmfTarget] is the state machine that brings
    the target up and down; it reports each once, in every order of messages.
    [NvmfSubsystem] are subsystems and the sharing of bdevs over the interface
    [Nvmf]; [NvmfProps] shows what a shared bdev is served by and what a failure
    leaves.  [NexusShare] shares a nexus; [NexusShareProps] shows that a nexus
    that clients can reach is recorded as shared, at every point at which the
    engine may crash.  [NvmfSample] is the concrete target.  [NexusSnapshot]
    ([bdev/nexus/nexus_bdev_snapshot.rs]) takes a snapshot of all replicas under
    one pause and accounts for each of them.


    Devices ([bdev/], [bdev_api.rs]): [BdevUri] parses the URIs of devices and
    [BdevDevice] creates, destroys, resizes and probes them over interfaces to
    SPDK and the crates; [BdevUriProps] shows that a URI names the bdev that is
    made from it, and [BdevUriSample] is the concrete instance.  [LvsUri] has the
    schemes for pools, on [LvsStore].  [Crypto] ([bdev/crypto.rs]) keeps the keys
    of encrypting bdevs, [BlockDevice] ([bdev/device.rs], [core/handle.rs]) is
    I/O on local bdevs.

    LVM ([lvm/]): [Lvm] has tags, queries, errors and the running of the tools,
    [LvmVolumes] volume groups and logical volumes.  [LvmProps] states what the
    tools are documented to do as laws, and shows that properties that are set
    are read back and that volumes of others survive the destruction of a pool.
    [LvmSample] is an LVM for which the laws hold.

    Runtime and services ([core/]): [Nic] ([core/nic.rs], [core/env.rs]) chooses
    the address the target listens on, with the address parsers of the standard
    library; [NicProps] shows that the best interface that matches is taken.
    [Inject] ([core/fault_injection/]) injects faults into I/O; [InjectProps]
    compares the I/Os it hits with a definition by counting, and has the round
    trip of its URIs; [InjectSample] is a reader of such URIs.  [Locks]
    ([core/lock.rs], [serialized] of the gRPC services) runs requests side by
    side: those for one resource exclude each other, and all of them end and
    leave no lock behind.  [Reactor] ([core/reactor.rs]) is the loop of a
    reactor with what other cores do in between; it does not sleep while it has
    work.  It also has the monitor that reports frozen reactors.

    Snapshot rebuilds: [SnapshotRebuild] has rebuilds between bdevs
    ([rebuild/bdev_rebuild.rs]) and from a snapshot to a replica
    ([rebuild/snapshot_rebuild.rs]) with the devices they make, and the service
    for them ([grpc/v1/snapshot_rebuild.rs]); requests stop at every future they
    await, and events choose which goes on.  [SnapshotRebuildProps] shows that
    devices of others stay, that devices made for a rebuild have one owner and
    go when all jobs are gone, and that every request is answered.

    ** Not modelled

    - Texts: log output, the messages of errors, [Display] and [Debug].
    - Events and statistics that are only reported, and the generated message
      types of the gRPC interface, which are not in the repository.
    - Calls into SPDK without a decision of the engine's own: registration of the
      bdev module, poll groups, memory pools, NBD devices, start-up.
    - Memory: lifetimes of C objects and raw pointers are modelled only where a
      component's correctness hangs on them (the reference counts of controllers,
      the pool of I/O contexts, the contexts of resets).
    - Several channels of one nexus: [NexusIo] has one; other cores interact with
      it through reconfiguration and the logs, which [IoLog] has per core.
    - Floating point: the ratio of metadata pages of a pool is a parameter.
    - [bdev/gpt_labels.rs] is not part of the build.
    - The command line programs other than [gpt], the JSON-RPC client, and the
      bindings to libnvme and sysfs: argument parsing and I/O.
    *)

From stdpp Require Import base tactics list gmap strings relations.
From stdpp Require Export base tactics list gmap strings relations.
From Stdlib Require Import ZArith Lia.

#[global] Open Scope Z_scope.

(** ** Outcomes

    A Rust computation returns a value, returns an error, or panics
    ([assert!], [unwrap], [expect], an index out of range, a division by
    zero).  The io-engine is built with [panic = "abort"], so a panic is a
    distinct outcome and never an error that a caller can handle. *)

Inductive outcome (E A : Type) : Type :=
| Ok (a : A)
| Err (e : E)
| Panicked.
Arguments Ok {E A} _.
Arguments Err {E A} _.
Arguments Panicked {E A}.

#[global] Instance outcome_ret {E} : MRet (outcome E) := λ A a, Ok a.
#[global] Instance outcome_bind {E} : MBind (outcome E) := λ A B f o,
  match o with
  | Ok a => f a
  | Err e => Err e
  | Panicked => Panicked
  end.

Definition of_option {E A} (o : option A) : outcome E A :=
  match o with Some a => Ok a | None => Panicked end.

(** [assert!(b)] *)
Definition assert {E} (b : bool) : outcome E unit :=
  if b then Ok tt else Panicked.

Definition is_ok {E A} (o : outcome E A) : bool :=
  match o with Ok _ => true | _ => false end.

(** [Result::map_err] *)
Definition map_err {E E' A} (f : E → E') (o : outcome E A) : outcome E' A :=
  match o with
  | Ok a => Ok a
  | Err e => Err (f e)
  | Panicked => Panicked
  end.

(** ** State and outcome

    Code that takes [&mut self] and returns a [Result] keeps the changes it
    made before an error: the state is threaded through the error path. *)

Definition ST (S E A : Type) : Type := S → S * outcome E A.

#[global] Instance ST_ret {S E} : MRet (ST S E) := λ A a s, (s, Ok a).
#[global] Instance ST_bind {S E} : MBind (ST S E) := λ A B f m s,
  match m s with
  | (s', Ok a) => f a s'
  | (s', Err e) => (s', Err e)
  | (s', Panicked) => (s', Panicked)
  end.

Module ST.

Definition get {S E} : ST S E S := λ s, (s, Ok s).
Definition gets {S E A} (f : S → A) : ST S E A := λ s, (s, Ok (f s)).
Definition modify {S E} (f : S → S) : ST S E unit := λ s, (f s, Ok tt).
Definition lift {S E A} (o : outcome E A) : ST S E A := λ s, (s, o).
Definition fail {S E A} (e : E) : ST S E A := λ s, (s, Err e).
Definition panic {S E A} : ST S E A := λ s, (s, Panicked).
(** [if let Err(e) = m { .. }]: run [m] and hand its result over as a value. *)
Definition try {S E E' A} (m : ST S E A) : ST S E' (outcome E A) := λ s,
  match m s with
  | (s', Panicked) => (s', Panicked)
  | (s', r) => (s', Ok r)
  end.
Definition with_err {S E E' A} (f : E → E') (m : ST S E A) : ST S E' A := λ s,
  let '(s', r) := m s in (s', map_err f r).

End ST.

(** ** Machine integers

    A [w]-bit unsigned integer is a [Z] in [0, 2^w).  Arithmetic wraps, as in
    a release build. *)

Definition u8_max : Z := 2^8 - 1.
Definition u32_max : Z := 2^32 - 1.
Definition u64_max : Z := 2^64 - 1.
Definition wrap8 (x : Z) : Z := x mod 2^8.
Definition wrap32 (x : Z) : Z := x mod 2^32.
Definition wrap64 (x : Z) : Z := x mod 2^64.
Definition is_u64 (x : Z) : Prop := 0 ≤ x < 2^64.

(** [a / b] and [a.div_ceil(b)] on [u64]: a zero divisor panics. *)
Definition u64_div {E} (a b : Z) : outcome E Z :=
  if b =? 0 then Panicked else Ok (a / b).
Definition u64_div_ceil {E} (a b : Z) : outcome E Z :=
  if b =? 0 then Panicked
  else let d := a / b in
       if 0 <? a mod b then Ok (wrap64 (d + 1)) else Ok d.

Lemma wrap64_small x : is_u64 x → wrap64 x = x.
Proof. apply Z.mod_small. Qed.

Lemma wrap64_bound x : is_u64 (wrap64 x).
Proof. apply Z.mod_pos_bound. lia. Qed.

Lemma wrap32_small x : 0 ≤ x < 2^32 → wrap32 x = x.
Proof. apply Z.mod_small. Qed.

Lemma wrap8_small x : 0 ≤ x < 2^8 → wrap8 x = x.
Proof. apply Z.mod_small. Qed.

Lemma div_ceil_spec {E} a b :
  is_u64 a → 0 < b → is_u64 b →
  ∃ q, @u64_div_ceil E a b = Ok q ∧ 0 ≤ q ∧ (q - 1) * b < a ≤ q * b.
Proof.
  unfold is_u64. intros Ha Hb Hb64. unfold u64_div_ceil.
  destruct (Z.eqb_spec b 0); [lia|].
  pose proof (Z.div_mod a b ltac:(lia)) as Hdm.
  pose proof (Z.mod_pos_bound a b ltac:(lia)) as Hm.
  pose proof (Z.div_pos a b ltac:(lia) ltac:(lia)) as Hq.
  destruct (Z.ltb_spec 0 (a mod b)).
  - assert (b ≠ 1) by (intros ->; rewrite Z.mod_1_r in *; lia).
    rewrite wrap64_small.
    2:{ unfold is_u64. assert (a / b ≤ a / 2) by (apply Z.div_le_compat_l; lia).
        assert (a / 2 < 2^63) by (apply Z.div_lt_upper_bound; lia). lia. }
    eexists. split; [done|]. nia.
  - eexists. split; [done|]. nia.
Qed.

(** ** Reachability *)

(** Rule induction for invariants of a step relation. *)
Lemma rtc_invariant {A} (R : relation A) (I : A → Prop) x y :
  (∀ a b, R a b → I a → I b) → rtc R x y → I x → I y.
Proof. intros Hstep. induction 1; eauto. Qed.

(** ** Lists *)

(** ** Automation *)

(** Case analysis on the scrutinee of every match in the hypotheses. *)
Ltac case_all :=
  repeat match goal with
  | H : context [match ?x with _ => _ end] |- _ =>
      lazymatch x with
      | context [match _ with _ => _ end] => fail
      | _ => destruct x eqn:?
      end; simplify_eq/=
  end.

Create HintDb mayastor.
#[export] Hint Resolve wrap64_bound : mayastor.
