(* ===== verification/Text.v ===== *)
(** * Strings

    The operations on [str], [String] and C strings that the code uses.  A
    string is its list of bytes; that the bytes of a Rust string are valid UTF-8
    is [utf8_valid]. *)

From Stdlib Require Import Ascii String.
From stdpp Require Import sorting.
From S2P Require Import Prelude.

#[local] Open Scope Z_scope.

Definition NUL : ascii := "000"%char.

Definition byte (a : ascii) : Z := Z.of_N (N_of_ascii a).

(** A continuation byte. *)
Definition cont (a : ascii) : bool := (0x80 <=? byte a) && (byte a <=? 0xBF).

(** [std::str::from_utf8] succeeds: no overlong forms, no surrogates, nothing
    beyond U+10FFFF. *)
Fixpoint utf8_valid (s : string) : bool :=
  match s with
  | EmptyString => true
  | String a s1 =>
      if byte a <? 0x80 then utf8_valid s1
      else match s1 with
      | EmptyString => false
      | String b s2 =>
          if (0xC2 <=? byte a) && (byte a <=? 0xDF) then cont b && utf8_valid s2
          else match s2 with
          | EmptyString => false
          | String c s3 =>
              if (0xE0 <=? byte a) && (byte a <=? 0xEF)
              then (if byte a =? 0xE0 then (0xA0 <=? byte b) && (byte b <=? 0xBF)
                    else if byte a =? 0xED then (0x80 <=? byte b) && (byte b <=? 0x9F)
                    else cont b) && cont c && utf8_valid s3
              else match s3 with
              | EmptyString => false
              | String d s4 =>
                  if (0xF0 <=? byte a) && (byte a <=? 0xF4)
                  then (if byte a =? 0xF0 then (0x90 <=? byte b) && (byte b <=? 0xBF)
                        else if byte a =? 0xF4 then (0x80 <=? byte b) && (byte b <=? 0x8F)
                        else cont b) && cont c && cont d && utf8_valid s4
                  else false
              end
          end
      end
  end.

(** [s.contains(c)] *)
Fixpoint has (c : ascii) (s : string) : bool :=
  match s with
  | EmptyString => false
  | String a s => bool_decide (a = c) || has c s
  end.

(** [CString::new(s).unwrap()] panics on an interior NUL. *)
Definition into_cstring {E} (s : string) : outcome E string :=
  if has NUL s then Panicked else Ok s.

(** [CStr::from_ptr]: the bytes before the first NUL. *)
Fixpoint c_str (s : string) : string :=
  match s with
  | EmptyString => EmptyString
  | String a s => if bool_decide (a = NUL) then EmptyString else String a (c_str s)
  end.

Definition nul : string := String NUL EmptyString.

(** The first [n] bytes. *)
Fixpoint prefix (n : nat) (s : string) : string :=
  match n, s with
  | S n, String a s => String a (prefix n s)
  | _, _ => EmptyString
  end.

Definition strlen (s : string) : Z := Z.of_nat (String.length s).

(** Strip the NULs at the end. *)
Fixpoint strip_nuls (s : string) : string :=
  match s with
  | EmptyString => EmptyString
  | String a s =>
      let r := strip_nuls s in
      if bool_decide (a = NUL) then match r with EmptyString => EmptyString | _ => String a r end
      else String a r
  end.

(** [s.split(c)]: at least one piece. *)
Fixpoint split (c : ascii) (s : string) : list string :=
  match s with
  | EmptyString => [EmptyString]
  | String a s =>
      if bool_decide (a = c) then EmptyString :: split c s
      else match split c s with
           | x :: l => String a x :: l
           | [] => [String a EmptyString]
           end
  end.

(** [l.join(c)] *)
Fixpoint join (c : ascii) (l : list string) : string :=
  match l with
  | [] => EmptyString
  | [x] => x
  | x :: l => (x +:+ String c (join c l))%string
  end.

(** [str::parse::<bool>] *)
Definition parse_bool (s : string) : option bool :=
  if bool_decide (s = "true"%string) then Some true
  else if bool_decide (s = "false"%string) then Some false
  else None.

Definition show_bool (b : bool) : string := if b then "true" else "false".

(** The order of [String]: by bytes. *)
Definition str_le (a b : string) : Prop := String.leb a b = true.

#[global] Instance str_le_dec : RelDecision str_le.
Proof. intros a b. unfold str_le. apply _. Defined.

(** [Vec<String>::sort] *)
Definition sort (l : list string) : list string := merge_sort str_le l.

(** ** Facts *)

Lemma app_cons_str x a b : (String x a +:+ b)%string = String x (a +:+ b)%string.
Proof. done. Qed.

Lemma app_empty_str b : ("" +:+ b)%string = b.
Proof. done. Qed.

Create HintDb text.
#[global] Hint Rewrite app_cons_str app_empty_str : text.

Lemma app_assoc_str a b c : ((a +:+ b) +:+ c)%string = (a +:+ (b +:+ c))%string.
Proof. induction a as [|x a IH]; [done|]. autorewrite with text; simpl. by rewrite IH. Qed.

Lemma app_nil_str a : (a +:+ "")%string = a.
Proof. induction a as [|x a IH]; [done|]. autorewrite with text; simpl. by rewrite IH. Qed.

Lemma strlen_app a b : strlen (a +:+ b)%string = strlen a + strlen b.
Proof. unfold strlen. induction a as [|x a IH]; [done|]. simpl in *. lia. Qed.

Lemma has_app c a b : has c (a +:+ b)%string = has c a || has c b.
Proof. induction a as [|x a IH]; [done|]. autorewrite with text; simpl. rewrite IH. by destruct (bool_decide _). Qed.

Lemma c_str_app a b : has NUL a = false → c_str (a +:+ b)%string = (a +:+ c_str b)%string.
Proof.
  induction a as [|x a IH]; [done|]. autorewrite with text; simpl. intros [Hx Ha]%orb_false_iff. rewrite Hx. by rewrite IH.
Qed.

Lemma c_str_terminated a b : has NUL a = false → c_str (a +:+ String NUL b)%string = a.
Proof. intros Ha. rewrite c_str_app by done. simpl. apply app_nil_str. Qed.

Lemma prefix_all n s : (String.length s ≤ n)%nat → prefix n s = s.
Proof. revert s. induction n as [|n IH]; intros [|a s] Hl; simpl in *; [done|lia|done|]. by rewrite IH by lia. Qed.

Lemma strip_nuls_id s : has NUL s = false → strip_nuls s = s.
Proof.
  induction s as [|a s IH]; [done|]. simpl. intros [Ha Hs]%orb_false_iff. rewrite Ha, IH by done. done.
Qed.

Lemma parse_show_bool b : parse_bool (show_bool b) = Some b.
Proof. by destruct b. Qed.

Lemma split_nonempty c s : split c s ≠ [].
Proof. destruct s as [|a s]; simpl; [done|]. destruct (bool_decide _); [done|]. by destruct (split c s). Qed.

Lemma split_none c s : has c s = false → split c s = [s].
Proof.
  induction s as [|a s IH]; [done|]. simpl. intros [Ha Hs]%orb_false_iff. by rewrite Ha, IH.
Qed.

Lemma split_app c a b : has c a = false → split c (a +:+ String c b)%string = a :: split c b.
Proof.
  induction a as [|x a IH]; simpl; [by rewrite bool_decide_eq_true_2|].
  intros [Hx Ha]%orb_false_iff. by rewrite Hx, IH.
Qed.

Lemma split_join c l : l ≠ [] → Forall (λ x, has c x = false) l → split c (join c l) = l.
Proof.
  intros Hl Hc. induction Hc as [|x l Hx Hc IH]; [done|]. destruct l as [|y l]; [by apply split_none|].
  change (join c (x :: y :: l)) with (x +:+ String c (join c (y :: l)))%string.
  rewrite split_app by done. by rewrite IH.
Qed.

Lemma has_join c d l : c ≠ d → Forall (λ x, has c x = false) l → has c (join d l) = false.
Proof.
  intros Hcd Hc. induction Hc as [|x l Hx Hc IH]; [done|]. destruct l as [|y l]; [done|].
  change (join d (x :: y :: l)) with (x +:+ String d (join d (y :: l)))%string.
  rewrite has_app, Hx. cbn [has orb]. rewrite IH. by rewrite bool_decide_eq_false_2.
Qed.

(** Valid text in front does not matter. *)
Lemma utf8_valid_app a b : utf8_valid a = true → utf8_valid (a +:+ b)%string = utf8_valid b.
Proof.
  remember (String.length a) as n eqn:Hn. assert (Hle : (String.length a ≤ n)%nat) by lia. clear Hn.
  revert a Hle. induction n as [|n IH]; intros a Hle; [by destruct a; simpl in *; [|lia]|].
  destruct a as [|x a]; [done|]. simpl in Hle |- *. destruct (byte x <? 0x80); [apply IH; lia|].
  destruct a as [|y a]; [done|]. simpl in Hle |- *. destruct ((0xC2 <=? byte x) && (byte x <=? 0xDF)).
  { intros [Hy Ha]%andb_true_iff. rewrite Hy. apply IH; [lia|done]. }
  destruct a as [|z a]; [done|]. simpl in Hle |- *. destruct ((0xE0 <=? byte x) && (byte x <=? 0xEF)).
  { intros [Hy Ha]%andb_true_iff. rewrite Hy. apply IH; [lia|done]. }
  destruct a as [|u a]; [done|]. simpl in Hle |- *. destruct ((0xF0 <=? byte x) && (byte x <=? 0xF4)); [|done].
  intros [Hy Ha]%andb_true_iff. rewrite Hy. apply IH; [lia|done].
Qed.

Lemma utf8_valid_join c l :
  byte c < 0x80 → Forall (λ x, utf8_valid x = true) l → utf8_valid (join c l) = true.
Proof.
  intros Hc Hl. induction Hl as [|x l Hx Hl IH]; [done|]. destruct l as [|y l]; [done|].
  change (join c (x :: y :: l)) with (x +:+ String c (join c (y :: l)))%string.
  rewrite utf8_valid_app by done. cbn [utf8_valid]. destruct (Z.ltb_spec (byte c) 0x80); [done|lia].
Qed.

Lemma sort_permutation l : sort l ≡ₚ l.
Proof. apply merge_sort_Permutation. Qed.
