(* ===== verification/Wp.v ===== *)
(** * Reasoning about computations

    [wp m Q s]: run in [s], the computation [m] ends with an outcome and a state
    that satisfy [Q].  There is one rule for each way to build a computation, and
    [wp_step] applies them.  [keeps R m] says that [m] only moves along the
    preorder [R]. *)

From S2P Require Import Prelude.

Section Wp.
Context {S E : Type}.

Definition wp {A} (m : ST S E A) (Q : outcome E A → S → Prop) (s : S) : Prop :=
  let '(s', r) := m s in Q r s'.

Lemma wp_intro {A} (m : ST S E A) Q s : (∀ s' r, m s = (s', r) → Q r s') → wp m Q s.
Proof. unfold wp. destruct (m s). auto. Qed.

Lemma wp_elim {A} (m : ST S E A) Q s s' r : wp m Q s → m s = (s', r) → Q r s'.
Proof. unfold wp. intros H Hm. by rewrite Hm in H. Qed.

Lemma wp_mono {A} (m : ST S E A) (P Q : outcome E A → S → Prop) s :
  wp m P s → (∀ r s', P r s' → Q r s') → wp m Q s.
Proof. unfold wp. destruct (m s). auto. Qed.

Lemma wp_bind {A B} (m : ST S E A) (k : A → ST S E B) Q s :
  wp m (λ r s', match r with Ok a => wp (k a) Q s' | Err e => Q (Err e) s' | Panicked => Q Panicked s' end) s →
  wp (m ≫= k) Q s.
Proof. unfold wp, mbind, ST_bind. by destruct (m s) as [s' [a|e|]]. Qed.

Lemma wp_ret {A} (a : A) Q s : Q (Ok a) s → wp (mret a) Q s.
Proof. done. Qed.

Lemma wp_get Q s : Q (Ok s) s → wp ST.get Q s.
Proof. done. Qed.

Lemma wp_gets {A} (f : S → A) Q s : Q (Ok (f s)) s → wp (ST.gets f) Q s.
Proof. done. Qed.

Lemma wp_modify (f : S → S) Q s : Q (Ok tt) (f s) → wp (ST.modify f) Q s.
Proof. done. Qed.

Lemma wp_lift {A} (o : outcome E A) Q s : Q o s → wp (ST.lift o) Q s.
Proof. done. Qed.

Lemma wp_fail {A} (e : E) (Q : outcome E A → S → Prop) s : Q (Err e) s → wp (ST.fail e) Q s.
Proof. done. Qed.

Lemma wp_panic {A} (Q : outcome E A → S → Prop) s : Q Panicked s → wp ST.panic Q s.
Proof. done. Qed.

Lemma wp_try {E' A} (m : ST S E' A) Q s :
  (let '(s', r) := m s in match r with Panicked => Q Panicked s' | r => Q (Ok r) s' end) → wp (ST.try m) Q s.
Proof. unfold wp, ST.try. by destruct (m s) as [s' [a|e|]]. Qed.

End Wp.

Ltac wp_step :=
  lazymatch goal with
  | |- wp (mbind _ _) _ _ => apply wp_bind
  | |- wp (mret _) _ _ => apply wp_ret
  | |- wp ST.get _ _ => apply wp_get
  | |- wp (ST.gets _) _ _ => apply wp_gets
  | |- wp (ST.modify _) _ _ => apply wp_modify
  | |- wp (ST.lift _) _ _ => apply wp_lift
  | |- wp (ST.fail _) _ _ => apply wp_fail
  | |- wp ST.panic _ _ => apply wp_panic
  end; cbv beta iota.

Ltac wp_steps := repeat wp_step.

(** ** Moving along a preorder *)

Section Keeps.
Context {S E : Type} (R : relation S) `{!PreOrder R}.

Definition keeps {A} (m : ST S E A) : Prop := ∀ s, R s (fst (m s)).

Lemma keeps_wp {A} (m : ST S E A) s Q : keeps m → (∀ s' r, R s s' → Q r s') → wp m Q s.
Proof. intros Hm HQ. unfold wp. specialize (Hm s). destruct (m s). auto. Qed.

Lemma keeps_bind {A B} (m : ST S E A) (k : A → ST S E B) : keeps m → (∀ a, keeps (k a)) → keeps (m ≫= k).
Proof.
  intros Hm Hk s. specialize (Hm s). unfold mbind, ST_bind. destruct (m s) as [s' [a|e|]]; simpl in *; [|done..].
  etrans; [exact Hm|apply Hk].
Qed.

Lemma keeps_same {A} (m : ST S E A) : (∀ s, fst (m s) = s) → keeps m.
Proof. intros Hm s. by rewrite Hm. Qed.

Lemma keeps_ret {A} (a : A) : keeps (mret a).
Proof. by apply keeps_same. Qed.
Lemma keeps_get {A} (f : S → A) : keeps (ST.gets f).
Proof. by apply keeps_same. Qed.
Lemma keeps_get_all : keeps ST.get.
Proof. by apply keeps_same. Qed.
Lemma keeps_lift {A} (o : outcome E A) : keeps (ST.lift o).
Proof. by apply keeps_same. Qed.
Lemma keeps_fail {A} (e : E) : keeps (ST.fail (A := A) e).
Proof. by apply keeps_same. Qed.
Lemma keeps_panic {A} : keeps (ST.panic (A := A)).
Proof. by apply keeps_same. Qed.
Lemma keeps_if {A} (b : bool) (m1 m2 : ST S E A) : keeps m1 → keeps m2 → keeps (if b then m1 else m2).
Proof. by destruct b. Qed.

End Keeps.

Lemma keeps_try {S E E' A} (R : relation S) (m : ST S E A) : keeps R m → keeps R (ST.try (E' := E') m).
Proof. intros Hm s. specialize (Hm s). unfold ST.try. by destruct (m s) as [s' [a|e|]]. Qed.

Lemma keeps_with_err {S E E' A} (R : relation S) (f : E → E') (m : ST S E A) : keeps R m → keeps R (ST.with_err f m).
Proof. intros Hm s. specialize (Hm s). unfold ST.with_err. by destruct (m s). Qed.

Create HintDb keeps.
#[export] Hint Resolve keeps_ret keeps_get keeps_get_all keeps_lift keeps_fail keeps_panic keeps_try : keeps.
#[export] Hint Extern 0 (PreOrder _) => typeclasses eauto : keeps.

(** Follow the structure of a computation. *)
Ltac keeps_tac :=
  repeat first
    [ lazymatch goal with
      | |- ∀ _, _ => intro
      | |- keeps _ (mbind _ _) => apply keeps_bind; [typeclasses eauto| |]
      | |- keeps _ (if ?b then _ else _) => first [apply keeps_if | destruct b]
      | |- keeps _ (match ?x with _ => _ end) => destruct x
      end
    | solve [auto with keeps] ].

(** ** Computations without an error *)

Section Infallible.
Context {S E : Type}.

Definition infallible {A} (m : ST S E A) : Prop := ∀ s e, snd (m s) ≠ Err e.

Lemma infallible_bind {A B} (m : ST S E A) (k : A → ST S E B) :
  infallible m → (∀ a, infallible (k a)) → infallible (m ≫= k).
Proof.
  intros Hm Hk s e. specialize (Hm s). unfold mbind, ST_bind. destruct (m s) as [s' [a|e'|]]; simpl in *; [apply Hk| |done].
  by destruct (Hm e').
Qed.

Lemma infallible_ret {A} (a : A) : infallible (mret a).
Proof. done. Qed.
Lemma infallible_gets {A} (f : S → A) : infallible (ST.gets f).
Proof. done. Qed.
Lemma infallible_get : infallible ST.get.
Proof. done. Qed.
Lemma infallible_modify (f : S → S) : infallible (ST.modify f).
Proof. done. Qed.
Lemma infallible_try {E' A} (m : ST S E' A) : infallible (ST.try m).
Proof. intros s e. unfold ST.try. by destruct (m s) as [s' [a|e'|]]. Qed.

End Infallible.

Create HintDb infallible.
#[export] Hint Resolve infallible_ret infallible_gets infallible_get infallible_modify infallible_try : infallible.

Ltac infallible_tac :=
  repeat first
    [ lazymatch goal with
      | |- ∀ _, _ => intro
      | |- infallible (mbind _ _) => apply infallible_bind
      | |- infallible (match ?x with _ => _ end) => destruct x
      end
    | solve [auto with infallible] ].
