(* ===== verification/Errors.v ===== *)
(** * Error types

    The error enumerations shared by the components: [core/mod.rs]
    ([CoreError], [IoCompletionStatus]), [bdev_api.rs] ([BdevError]),
    [subsys/nvmf/mod.rs] ([NvmfError]), [core/wiper.rs] and
    [rebuild/rebuild_error.rs], with their mapping to [Errno]. *)

From S2P Require Import Prelude.

(** The [nix::errno::Errno] values the code names; the others are [EOTHER]. *)
Inductive Errno :=
| EPERM | ENOENT | EIO | ENXIO | ENOMEM | EFAULT | EBUSY | ENODEV | EINVAL | EPIPE
| ENOTSUP | EOPNOTSUPP | ECANCELED | ERFKILL | EXFULL | ENOSPC | EEXIST | EMEDIUMTYPE
| EILSEQ | ENAVAIL | EAGAIN | EMLINK | ENODATA | EKEYREJECTED | ENOMEDIUM | EMFILE | EOVERFLOW
| ENOTUNIQ | EINPROGRESS | UnknownErrno | EOTHER (n : Z).

#[global] Instance Errno_eq_dec : EqDecision Errno.
Proof. solve_decision. Defined.

(** [Errno::from_raw] on Linux; numbers that are not assigned are unknown. *)
Definition errno_from_raw (n : Z) : Errno :=
  match n with
  | 1 => EPERM | 2 => ENOENT | 5 => EIO | 6 => ENXIO | 11 => EAGAIN | 12 => ENOMEM | 14 => EFAULT | 16 => EBUSY
  | 17 => EEXIST | 19 => ENODEV | 22 => EINVAL | 24 => EMFILE | 28 => ENOSPC | 31 => EMLINK | 32 => EPIPE
  | 54 => EXFULL | 61 => ENODATA | 75 => EOVERFLOW | 76 => ENOTUNIQ | 84 => EILSEQ | 95 => EOPNOTSUPP
  | 115 => EINPROGRESS | 119 => ENAVAIL | 123 => ENOMEDIUM | 124 => EMEDIUMTYPE | 125 => ECANCELED
  | 129 => EKEYREJECTED | 132 => ERFKILL
  | 41 | 58 => UnknownErrno
  | _ => if (0 <? n) && (n <=? 133) then EOTHER n else UnknownErrno
  end.

(** The [spdk_rs::NvmeStatus] values the code distinguishes; the others are
    kept by status code type and status code. *)
Inductive NvmeStatus :=
| UNWRITTEN_BLOCK
| NO_SPACE
| Generic_CAPACITY_EXCEEDED
| Generic_INVALID_OPCODE
| Generic_RESERVATION_CONFLICT
| Generic_ABORTED_SQ_DELETION
| Media_COMPARE_FAILURE
| NvmeStatusOther (sct sc : Z).

#[global] Instance NvmeStatus_eq_dec : EqDecision NvmeStatus.
Proof. solve_decision. Defined.

Inductive LvolFailure := NoSpace.

Inductive IoSubmissionFailure := SubmitRead | SubmitWrite.

#[global] Instance LvolFailure_eq_dec : EqDecision LvolFailure.
Proof. solve_decision. Defined.

#[global] Instance IoSubmissionFailure_eq_dec : EqDecision IoSubmissionFailure.
Proof. solve_decision. Defined.

Inductive IoCompletionStatus :=
| Success
| NvmeError (s : NvmeStatus)
| LvolError (f : LvolFailure)
| IoSubmissionError (f : IoSubmissionFailure)
| AdminCommandError.

#[global] Instance IoCompletionStatus_eq_dec : EqDecision IoCompletionStatus.
Proof. solve_decision. Defined.

(** [impl From<NvmeStatus> for IoCompletionStatus] *)
Definition io_completion_from (s : NvmeStatus) : IoCompletionStatus :=
  match s with
  | NO_SPACE | Generic_CAPACITY_EXCEEDED => LvolError NoSpace
  | _ => NvmeError s
  end.

Module Nvmf.
Inductive Error :=
| CreateTarget (msg : string)
| DestroyTarget (source : Errno) (endpoint : string)
| PgError (msg : string)
| Transport (source : Errno) (msg : string)
| SubsystemBusy (nqn op : string)
| SubsystemExt (source : Errno) (nqn : string)
| Subsystem (source : Errno) (nqn msg : string)
| Share (bdev msg : string)
| Namespace (bdev msg : string)
| Listener (nqn trid : string)
| HostCstrNul (host : string).

Definition errno (e : Error) : Errno :=
  match e with
  | CreateTarget _ => EXFULL
  | DestroyTarget source _ => source
  | PgError _ => EXFULL
  | Transport source _ => source
  | SubsystemBusy _ _ => EBUSY
  | SubsystemExt source _ => source
  | Subsystem source _ _ => source
  | Share _ _ => EXFULL
  | Namespace _ _ => EXFULL
  | Listener _ _ => EXFULL
  | HostCstrNul _ => EXFULL
  end.
End Nvmf.

(** [core/wiper.rs] *)
Inductive CkSumMethod := Crc32 (crc32c : Z).

Inductive WipeMethod :=
| WipeNone
| WriteZeroes
| Unmap
| WritePattern (pattern : Z)
| CkSum (m : CkSumMethod).

(** The wiper's [Error] boxes a [CoreError], which contains an [Error] in turn: it is
    declared over the error that it boxes. *)
Inductive WiperErrorOf (E : Type) :=
| TooManyChunks
| ChunkTooLarge
| ChunkBlockSizeInvalid
| ZeroBdev
| WipeAborted
| WipeIoFailed (source : E)
| MethodUnimplemented (method : WipeMethod)
| ChunkNotifyFailed (error : string).
Arguments TooManyChunks {E}.
Arguments ChunkTooLarge {E}.
Arguments ChunkBlockSizeInvalid {E}.
Arguments ZeroBdev {E}.
Arguments WipeAborted {E}.
Arguments WipeIoFailed {E} source.
Arguments MethodUnimplemented {E} method.
Arguments ChunkNotifyFailed {E} error.

Inductive CoreError :=
| BdevNotFound (name : string)
| OpenBdev (source : Errno)
| InvalidDescriptor (name : string)
| GetIoChannel (name : string)
| InvalidOffset (offset : Z)
| WriteDispatch (source : Errno) (offset len : Z)
| CompareDispatch (source : Errno) (offset len : Z)
| ReadDispatch (source : Errno) (offset len : Z)
| ResetDispatch (source : Errno)
| FlushDispatch (source : Errno)
| NvmeAdminDispatch (source : Errno) (opcode : Z)
| UnmapDispatch (source : Errno) (offset len : Z)
| WriteZeroesDispatch (source : Errno) (offset len : Z)
| NvmeIoPassthruDispatch (source : Errno) (opcode : Z)
| WriteFailed (status : IoCompletionStatus) (offset len : Z)
| ReadFailed (status : IoCompletionStatus) (offset len : Z)
| CompareFailed (status : IoCompletionStatus) (offset len : Z)
| ReadingUnallocatedBlock (offset len : Z)
| ResetFailed
| WriteZeroesFailed (offset len : Z)
| NvmeAdminFailed (source : Errno) (opcode : Z)
| NvmeIoPassthruFailed (opcode : Z)
| ShareNvmf (source : Nvmf.Error)
| UnshareNvmf (source : Nvmf.Error)
| NotSupported (source : Errno)
| ReactorConfigureFailed (source : Errno)
| DmaAllocationFailed (size : Z)
| DeviceStatisticsFailed (source : Errno)
| NoDevicesAvailable
| InvalidNvmeDeviceHandle (msg : string)
| DeviceFlush (source : Errno) (name : string)
| Ptpl (reason : string)
| SnapshotCreate (reason : string) (source : Errno)
| WipeFailed (source : WiperErrorOf CoreError)
| InitCryptoModule (reason : string).

Abbreviation WiperError := (WiperErrorOf CoreError).

Definition core_to_errno (e : CoreError) : Errno :=
  match e with
  | BdevNotFound _ => ENODEV
  | OpenBdev source => source
  | InvalidDescriptor _ => ENODEV
  | GetIoChannel _ => ENXIO
  | InvalidOffset _ => EINVAL
  | WriteDispatch source _ _ => source
  | ReadDispatch source _ _ => source
  | CompareDispatch source _ _ => source
  | ResetDispatch source => source
  | FlushDispatch source => source
  | NvmeAdminDispatch source _ => source
  | UnmapDispatch source _ _ => source
  | WriteZeroesDispatch source _ _ => source
  | NvmeIoPassthruDispatch source _ => source
  | WriteFailed _ _ _
  | ReadFailed _ _ _
  | CompareFailed _ _ _
  | ReadingUnallocatedBlock _ _
  | ResetFailed
  | WriteZeroesFailed _ _
  | NvmeIoPassthruFailed _
  | UnshareNvmf _ => EIO
  | ShareNvmf source => Nvmf.errno source
  | NvmeAdminFailed source _ => source
  | NotSupported source => source
  | ReactorConfigureFailed source => source
  | DmaAllocationFailed _ => ENOMEM
  | DeviceStatisticsFailed source => source
  | NoDevicesAvailable => ENODEV
  | InvalidNvmeDeviceHandle _ => EINVAL
  | DeviceFlush source _ => source
  | Ptpl _ => EIO
  | SnapshotCreate _ source => source
  | WipeFailed _ => EIO
  | InitCryptoModule _ => EINVAL
  end.

(** [bdev_api.rs]; a parse error of another crate is kept as its text. *)
Module Bdev.
Inductive Error :=
| UriParseFailed (source uri : string)
| BdevNoMatchingUri (name : string) (aliases : list string)
| UriSchemeUnsupported (scheme : string)
| InvalidUri (uri message : string)
| BoolParamParseFailed (source uri parameter value : string)
| IntParamParseFailed (source uri parameter value : string)
| UuidParamParseFailed (source uri : string)
| BdevExists (name : string)
| BdevWrongUuid (name uuid : string)
| NotFound (name : string)
| CreateBdevInvalidParams (source : Errno) (name : string)
| CreateBdevFailed (source : Errno) (name : string)
| DestroyBdevFailed (source : Errno) (name : string)
| ResizeBdevFailed (source : Errno) (name : string)
| CreateBdevFailedStr (name error : string)
| DestroyBdevFailedStr (name error : string)
| BdevCommandCanceled (source name : string)
| BdevWipeFailed.

Definition to_errno (e : Error) : Errno :=
  match e with
  | UriParseFailed _ _ => EINVAL
  | BdevNoMatchingUri _ _ => EPIPE
  | UriSchemeUnsupported _ => ENOTSUP
  | InvalidUri _ _ => EINVAL
  | BoolParamParseFailed _ _ _ _ => EINVAL
  | IntParamParseFailed _ _ _ _ => EINVAL
  | UuidParamParseFailed _ _ => EINVAL
  | BdevExists _ => ENOENT
  | BdevWrongUuid _ _ => EINVAL
  | NotFound _ => ENOENT
  | CreateBdevInvalidParams source _ => source
  | CreateBdevFailed source _ => source
  | DestroyBdevFailed source _ => source
  | ResizeBdevFailed source _ => source
  | CreateBdevFailedStr _ _ => EPERM
  | DestroyBdevFailedStr _ _ => EPERM
  | BdevCommandCanceled _ _ => EPIPE
  | BdevWipeFailed => EPERM
  end.
End Bdev.

(** [rebuild/rebuild_error.rs] *)
Inductive SnapshotRebuildError :=
| LocalBdevNotFound
| RemoteNoUri
| NotAReplica
| UriBdevOpen (uri : string) (source : Bdev.Error).

(** The errors of [spdk_rs] ([DmaError], [BdevDescError]) are kept as text. *)
Module Rebuild.
Inductive RebuildError :=
| JobAlreadyExists (job : string)
| NoCopyBuffer (source : string)
| InvalidSrcDstRange
| InvalidMapRange
| SameBdev (bdev : string)
| NoBdevHandle (source : CoreError) (bdev : string)
| BdevNotFound (source : CoreError) (bdev : string)
| IoFailed (source : CoreError) (bdev : string)
| ReadIoFailed (source : CoreError) (bdev : string)
| WriteIoFailed (source : CoreError) (bdev : string)
| VerifyIoFailed (source : CoreError) (bdev : string)
| VerifyCompareFailed (bdev verify_message : string)
| JobNotFound (job : string)
| MissingDestination (job : string)
| OpError (operation state : string)
| StatePending (state : string)
| RangeLockFailed (blk len : Z) (source : string)
| RangeUnlockFailed (blk len : Z) (source : string)
| BdevInvalidUri (source : Bdev.Error) (uri : string)
| FrontendGone
| BackendGone
| RebuildTasksChannel (active : Z)
| SnapshotRebuild (source : SnapshotRebuildError).
End Rebuild.
