(* ===== verification/DeviceEvents.v ===== *)
(** * Device events

    The events of a block device and the dispatcher that hands them to the
    listeners of the device ([core/device_events.rs]). *)

From S2P Require Import Prelude.

Inductive DeviceEventType :=
| DeviceRemoved | LoopbackRemoved | DeviceResized | MediaManagement
| AdminCommandCompletionFailed | AdminQNoticeCtrlFailed | AdminQBroken.

#[global] Instance DeviceEventType_eq_dec : EqDecision DeviceEventType.
Proof. solve_decision. Defined.

(** A dispatcher holds weak references; [alive] tells the sinks to which a
    strong reference exists. *)
Module Dispatcher.

Definition sink : Type := nat.
Definition t : Type := list sink.

Definition purge (alive : sink → bool) (d : t) : t := List.filter alive d.

Definition add_listener (alive : sink → bool) (s : sink) (d : t) : t := purge alive (d ++ [s]).

(** The listeners that are called, in order, and the dispatcher left. *)
Definition dispatch_event (alive : sink → bool) (d : t) : list sink * t :=
  (List.filter alive d, purge alive d).

Definition count (alive : sink → bool) (d : t) : nat :=
  fold_left (λ acc s, if alive s then S acc else acc) d 0%nat.

Section Facts.
Context (alive : sink → bool).

(** [count] is the number of listeners an event reaches. *)
Lemma count_dispatched d : count alive d = length (fst (dispatch_event alive d)).
Proof.
  unfold count, dispatch_event. simpl.
  assert (H : ∀ n, fold_left (λ acc s, if alive s then S acc else acc) d n
                   = (n + length (List.filter alive d))%nat).
  { induction d as [|s d IH]; intros n; simpl; [lia|].
    rewrite IH. destruct (alive s); simpl; lia. }
  by rewrite H.
Qed.

(** A sink that is alive is called for every event after it was added. *)
Lemma added_is_called d s :
  alive s = true → In s (fst (dispatch_event alive (add_listener alive s d))).
Proof.
  intros Hs. simpl. apply List.filter_In. split; [|done].
  apply List.filter_In. split; [|done]. apply in_app_iff. right. by left.
Qed.

End Facts.
End Dispatcher.
