(* ===== verification/SegmentMap.v ===== *)
(** * Segment maps

    The dirty-segment bitmap of a device ([core/segment_map.rs]).  The rebuild map
    and the I/O logs that are built from it are in [IoLog]. *)

From S2P Require Import Prelude.

(** ** The bit vector

    [BitVec] comes from the [bit-vec] crate.  It is an interface here: its
    operations, and the laws its documentation states.  [None] is a panic. *)

Class BitVec (B : Type) := {
  bv_default : B;
  bv_grow : B → nat → bool → B;
  bv_set : B → nat → bool → option B;
  bv_get : B → nat → option bool;
  bv_or : B → B → option B;
  bv_iter : B → list bool;
}.

Class BitVecLaws (B : Type) `{!BitVec B} : Prop := {
  bv_iter_default : bv_iter bv_default = [];
  bv_iter_grow b n v : bv_iter (bv_grow b n v) = bv_iter b ++ replicate n v;
  bv_get_iter b i : bv_get b i = bv_iter b !! i;
  bv_set_some b i v : (i < length (bv_iter b))%nat →
    ∃ b', bv_set b i v = Some b' ∧ bv_iter b' = <[i := v]> (bv_iter b);
  bv_set_none b i v : (length (bv_iter b) ≤ i)%nat → bv_set b i v = None;
  bv_or_some b1 b2 : length (bv_iter b1) = length (bv_iter b2) →
    ∃ b, bv_or b1 b2 = Some b ∧ bv_iter b = zip_with orb (bv_iter b1) (bv_iter b2);
}.

(** Lists of booleans satisfy the interface. *)
#[global] Instance list_BitVec : BitVec (list bool) := {
  bv_default := [];
  bv_grow b n v := b ++ replicate n v;
  bv_set b i v := if bool_decide (i < length b)%nat then Some (<[i := v]> b) else None;
  bv_get b i := b !! i;
  bv_or b1 b2 := if bool_decide (length b1 = length b2) then Some (zip_with orb b1 b2) else None;
  bv_iter b := b;
}.

#[global] Instance list_BitVecLaws : BitVecLaws (list bool).
Proof.
  split; simpl; intros; try done.
  - rewrite bool_decide_true by lia. eauto.
  - by rewrite bool_decide_false by lia.
  - rewrite bool_decide_true by done. eauto.
Qed.

(** ** Segment map *)

Module SegMap.

Record SegmentMap (B : Type) := mkSegmentMap {
  segments : B;
  num_segments : Z;
  num_blocks : Z;
  block_len : Z;
  segment_size : Z;
}.
Arguments mkSegmentMap {B} _ _ _ _ _.
Arguments segments {B} _.
Arguments num_segments {B} _.
Arguments num_blocks {B} _.
Arguments block_len {B} _.
Arguments segment_size {B} _.

Section Operations.
Context {B : Type} `{!BitVec B} {E : Type}.

Definition new (num_blocks block_len segment_size : Z) : outcome E (SegmentMap B) :=
  num_segments ← u64_div_ceil (wrap64 (num_blocks * block_len)) segment_size;
  Ok (mkSegmentMap (bv_grow bv_default (Z.to_nat num_segments) false)
        num_segments num_blocks block_len segment_size).

Definition with_segments (m : SegmentMap B) (b : B) : SegmentMap B :=
  mkSegmentMap b (num_segments m) (num_blocks m) (block_len m) (segment_size m).

Definition merge (m other : SegmentMap B) : outcome E (SegmentMap B) :=
  b ← of_option (bv_or (segments m) (segments other));
  Ok (with_segments m b).

Definition lbn_to_seg (m : SegmentMap B) (lbn : Z) : outcome E Z :=
  u64_div (wrap64 (lbn * block_len m)) (segment_size m).

(** [for i in start..=end { segments.set(i, value) }], [n] iterations. *)
Fixpoint set_range (b : B) (start n : nat) (value : bool) : outcome E B :=
  match n with
  | O => Ok b
  | S n => b' ← of_option (bv_set b start value); set_range b' (S start) n value
  end.

Definition set (m : SegmentMap B) (lbn lbn_cnt : Z) (value : bool) : outcome E (SegmentMap B) :=
  _ ← assert (negb (num_blocks m =? 0));
  start_seg ← lbn_to_seg m lbn;
  end_seg ← lbn_to_seg m (wrap64 (wrap64 (lbn + lbn_cnt) - 1));
  b ← set_range (segments m) (Z.to_nat start_seg)
        (Z.to_nat (end_seg + 1 - start_seg)) value;
  Ok (with_segments m b).

Definition get (m : SegmentMap B) (lbn : Z) : outcome E (option bool) :=
  seg ← lbn_to_seg m lbn;
  Ok (bv_get (segments m) (Z.to_nat seg)).

Definition count_ones (m : SegmentMap B) : Z :=
  Z.of_nat (length (List.filter id (bv_iter (segments m)))).

Definition count_dirty_blks (m : SegmentMap B) : outcome E Z :=
  u64_div (wrap64 (count_ones m * segment_size m)) (block_len m).

Definition segment_size_blks (m : SegmentMap B) : outcome E Z :=
  u64_div (segment_size m) (block_len m).

Definition size_blks (m : SegmentMap B) : Z := num_blocks m.

End Operations.

(** *** Well-formedness

    A map made for a device whose size in bytes fits [u64] keeps one bit per
    segment, and the segments cover the device exactly. *)

Section Facts.
Context {B : Type} `{!BitVec B, !BitVecLaws B} {E : Type}.

Record wf (m : SegmentMap B) : Prop := {
  wf_num_blocks : 0 < num_blocks m;
  wf_block_len : 0 < block_len m;
  wf_segment_size : 0 < segment_size m < 2^64;
  wf_size : num_blocks m * block_len m < 2^64;
  wf_num_segments : 0 ≤ num_segments m;
  wf_cover : (num_segments m - 1) * segment_size m < num_blocks m * block_len m
             ≤ num_segments m * segment_size m;
  wf_bits : length (bv_iter (segments m)) = Z.to_nat (num_segments m);
}.

(** The segment of a block, computed without wrap-around. *)
Definition seg_of (m : SegmentMap B) (lbn : Z) : Z := lbn * block_len m / segment_size m.

Definition bit (m : SegmentMap B) (seg : Z) : option bool :=
  bv_iter (segments m) !! Z.to_nat seg.

Definition same_geometry (m m' : SegmentMap B) : Prop :=
  num_segments m' = num_segments m ∧ num_blocks m' = num_blocks m ∧
  block_len m' = block_len m ∧ segment_size m' = segment_size m.

Lemma seg_of_range m lbn :
  wf m → 0 ≤ lbn < num_blocks m → 0 ≤ seg_of m lbn < num_segments m.
Proof.
  intros [] ?. unfold seg_of. split.
  - apply Z.div_pos; nia.
  - apply Z.div_lt_upper_bound; nia.
Qed.

Lemma seg_of_mono m a b : wf m → a ≤ b → seg_of m a ≤ seg_of m b.
Proof. intros [] ?. unfold seg_of. apply Z.div_le_mono; nia. Qed.

Lemma lbn_to_seg_ok m lbn :
  wf m → 0 ≤ lbn < num_blocks m → @lbn_to_seg B E m lbn = Ok (seg_of m lbn).
Proof.
  intros [] ?. unfold lbn_to_seg, u64_div.
  destruct (Z.eqb_spec (segment_size m) 0); [lia|].
  rewrite wrap64_small; [done|]. unfold is_u64. nia.
Qed.

Lemma set_range_spec b start n v :
  (start + n ≤ length (bv_iter b))%nat →
  ∃ b', @set_range B _ E b start n v = Ok b' ∧
    length (bv_iter b') = length (bv_iter b) ∧
    ∀ i, bv_iter b' !! i =
      if decide (start ≤ i < start + n)%nat then Some v else bv_iter b !! i.
Proof.
  revert b start. induction n as [|n IH]; intros b start Hlen; simpl.
  - exists b. split_and!; try done. intros i. rewrite decide_False by lia. done.
  - destruct (bv_set_some b start v ltac:(lia)) as (b1 & -> & Hb1). simpl.
    destruct (IH b1 (S start)) as (b' & -> & Hl & Hi).
    { rewrite Hb1, length_insert. lia. }
    exists b'. split_and!; [done|by rewrite Hl, Hb1, length_insert|].
    intros i. rewrite Hi, Hb1. destruct (decide (i = start)) as [->|].
    + rewrite decide_False by lia. rewrite decide_True by lia.
      apply list_lookup_insert_eq. lia.
    + rewrite list_lookup_insert_ne by done.
      destruct (decide (S start ≤ i < S start + n)%nat);
        [rewrite decide_True by lia|rewrite decide_False by lia]; done.
Qed.

(** A new map is well formed and clean. *)
Lemma new_ok nb bl ss :
  0 < nb → 0 < bl → nb * bl < 2^64 → 0 < ss < 2^64 →
  ∃ m, @new B _ E nb bl ss = Ok m ∧ wf m ∧
    num_blocks m = nb ∧ block_len m = bl ∧ segment_size m = ss ∧
    ∀ i, 0 ≤ i < num_segments m → bit m i = Some false.
Proof.
  intros Hnb Hbl Hsz Hss. unfold new. rewrite wrap64_small by (unfold is_u64; nia).
  destruct (@div_ceil_spec E (nb * bl) ss) as (q & -> & Hq & Hcov);
    [unfold is_u64; nia|lia|unfold is_u64; lia|].
  eexists. split; [done|].
  assert (Hit : bv_iter (bv_grow bv_default (Z.to_nat q) false) =
                replicate (Z.to_nat q) false) by by rewrite bv_iter_grow, bv_iter_default.
  split_and!; try done.
  - split; simpl; try lia. by rewrite Hit, length_replicate.
  - intros i Hi. unfold bit. simpl. rewrite Hit. simpl in Hi.
    apply lookup_replicate_2. lia.
Qed.

(** [set] on a range inside the device does not panic and changes the bits
    of the segments the range touches, and no other bit. *)
Lemma set_ok m lbn cnt v :
  wf m → 0 ≤ lbn → 1 ≤ cnt → lbn + cnt ≤ num_blocks m →
  ∃ m', @set B _ E m lbn cnt v = Ok m' ∧ wf m' ∧ same_geometry m m' ∧
    ∀ i, 0 ≤ i < num_segments m →
      bit m' i = if decide (seg_of m lbn ≤ i ≤ seg_of m (lbn + cnt - 1))
                 then Some v else bit m i.
Proof.
  intros Hwf Hl Hc Hr. pose proof Hwf as [].
  assert (num_blocks m < 2^64) by nia.
  unfold set. destruct (Z.eqb_spec (num_blocks m) 0); [lia|]. simpl.
  rewrite (lbn_to_seg_ok m lbn) by (done || lia). simpl.
  rewrite (wrap64_small (lbn + cnt)) by (unfold is_u64; lia).
  rewrite (wrap64_small (lbn + cnt - 1)) by (unfold is_u64; lia).
  rewrite lbn_to_seg_ok by (done || lia). simpl.
  pose proof (seg_of_range m lbn Hwf ltac:(lia)).
  pose proof (seg_of_range m (lbn + cnt - 1) Hwf ltac:(lia)).
  pose proof (seg_of_mono m lbn (lbn + cnt - 1) Hwf ltac:(lia)).
  destruct (set_range_spec (segments m) (Z.to_nat (seg_of m lbn))
    (Z.to_nat (seg_of m (lbn + cnt - 1) + 1 - seg_of m lbn)) v)
    as (b' & -> & Hlen & Hbits); [lia|].
  eexists. split; [done|]. split_and!.
  - split; simpl; try done; try lia.
  - done.
  - intros i Hi. unfold bit. simpl. rewrite Hbits.
    destruct (decide (seg_of m lbn ≤ i ≤ seg_of m (lbn + cnt - 1)));
      [rewrite decide_True by lia|rewrite decide_False by lia]; done.
Qed.

Lemma get_ok m lbn :
  wf m → 0 ≤ lbn < num_blocks m → @get B _ E m lbn = Ok (bit m (seg_of m lbn)).
Proof.
  intros Hwf Hl. unfold get. rewrite lbn_to_seg_ok by done. simpl.
  by rewrite bv_get_iter.
Qed.

Lemma bit_some m i : wf m → 0 ≤ i < num_segments m → ∃ v, bit m i = Some v.
Proof.
  intros [] Hi. unfold bit. destruct (bv_iter (segments m) !! Z.to_nat i) eqn:Hn; eauto.
  apply lookup_ge_None in Hn. lia.
Qed.

(** [merge] of maps of one device is the bitwise disjunction. *)
Lemma merge_ok m1 m2 :
  wf m1 → wf m2 → same_geometry m1 m2 →
  ∃ m, @merge B _ E m1 m2 = Ok m ∧ wf m ∧ same_geometry m1 m ∧
    ∀ i v1 v2, bit m1 i = Some v1 → bit m2 i = Some v2 → bit m i = Some (v1 || v2).
Proof.
  intros [] [] (Hn & _). unfold merge.
  destruct (bv_or_some (segments m1) (segments m2)) as (b & -> & Hb); [congruence|].
  eexists. split; [done|]. split_and!.
  - split; simpl; try done. rewrite Hb, length_zip_with. lia.
  - done.
  - intros i v1 v2 H1 H2. unfold bit in *. simpl.
    rewrite Hb, lookup_zip_with, H1. simpl. by rewrite H2.
Qed.

End Facts.
End SegMap.

(** ** Properties *)

Module SegMapProps.

(** Setting a range of blocks inside the device never panics and keeps
    the map well formed.  Afterwards a block reads as the value written when
    its segment is one the range touches, and as before otherwise. *)
Theorem set_then_get {B} `{!BitVec B, !BitVecLaws B} {E} (m : SegMap.SegmentMap B)
    (lbn cnt blk : Z) (v : bool) :
  SegMap.wf m → 0 ≤ lbn → 1 ≤ cnt → lbn + cnt ≤ SegMap.num_blocks m →
  0 ≤ blk < SegMap.num_blocks m →
  ∃ m', @SegMap.set B _ E m lbn cnt v = Ok m' ∧ SegMap.wf m' ∧
    @SegMap.get B _ E m' blk =
      if decide (SegMap.seg_of m lbn ≤ SegMap.seg_of m blk ≤ SegMap.seg_of m (lbn + cnt - 1))
      then Ok (Some v) else SegMap.get m blk.
Proof.
  intros Hwf Hl Hc Hr Hb.
  destruct (@SegMap.set_ok B _ _ E m lbn cnt v Hwf Hl Hc Hr) as (m' & -> & Hwf' & Hg & Hbit).
  exists m'. split_and!; [done..|].
  destruct Hg as (Hn & Hnb & Hbl & Hss).
  assert (Hseg : SegMap.seg_of m' blk = SegMap.seg_of m blk)
    by (unfold SegMap.seg_of; by rewrite Hbl, Hss).
  rewrite !SegMap.get_ok by (done || congruence).
  rewrite Hseg, Hbit by by apply SegMap.seg_of_range.
  by case_decide.
Qed.

Definition sample_map : SegMap.SegmentMap (list bool) :=
  SegMap.mkSegmentMap (replicate 13 false) 13 100 512 4096.

Lemma sample_map_wf : SegMap.wf sample_map.
Proof. split; vm_compute; split || done; done. Qed.

Lemma set_then_get_witness :
  ∃ m', @SegMap.set (list bool) _ unit sample_map 10 9 true = Ok m' ∧ SegMap.wf m' ∧
    @SegMap.get (list bool) _ unit m' 17 = Ok (Some true) ∧ @SegMap.get (list bool) _ unit m' 7 = Ok (Some false).
Proof.
  destruct (@set_then_get (list bool) _ _ unit sample_map 10 9 17 true) as (m & Hm & ? & H17);
    [apply sample_map_wf|vm_compute; done..|vm_compute; split; done|].
  destruct (@set_then_get (list bool) _ _ unit sample_map 10 9 7 true) as (m' & Hm' & ? & H7);
    [apply sample_map_wf|vm_compute; done..|vm_compute; split; done|].
  rewrite Hm in Hm'. injection Hm' as <-. exists m. split_and!; done.
Defined.

End SegMapProps.
