(* ===== verification/IoLog.v ===== *)
(** * Rebuild maps and I/O logs

    [RebuildMap] wraps a segment map for the rebuild
    ([rebuild/rebuild_map.rs]).  [IOLog] keeps one segment map per core and
    turns them into a rebuild map when the log is stopped
    ([bdev/nexus/nexus_io_log.rs]).  The abstract specification of a log is
    the list of operations logged: [finalize] marks a segment dirty exactly
    when some write-like operation touched it on some core. *)

From S2P Require Import Prelude SegmentMap.

Module RMap.

Record RebuildMap (B : Type) := mkRebuildMap {
  device_name : string;
  segments : SegMap.SegmentMap B;
}.
Arguments mkRebuildMap {B} _ _.
Arguments device_name {B} _.
Arguments segments {B} _.

Section Operations.
Context {B : Type} `{!BitVec B} {E : Type}.

(** An access beyond the map is logged and reported as dirty. *)
Definition is_blk_clean (m : RebuildMap B) (lbn : Z) : outcome E bool :=
  r ← SegMap.get (segments m) lbn;
  match r with
  | Some v => Ok (negb v)
  | None => Ok false
  end.

Definition blk_clean (m : RebuildMap B) (lbn : Z) : outcome E (RebuildMap B) :=
  s ← SegMap.set (segments m) lbn 1 false;
  Ok (mkRebuildMap (device_name m) s).

Definition count_dirty_blks (m : RebuildMap B) : outcome E Z :=
  SegMap.count_dirty_blks (segments m).

End Operations.

Section Facts.
Context {B : Type} `{!BitVec B, !BitVecLaws B} {E : Type}.

Lemma is_blk_clean_ok (m : RebuildMap B) lbn v :
  SegMap.wf (segments m) → 0 ≤ lbn < SegMap.num_blocks (segments m) →
  SegMap.bit (segments m) (SegMap.seg_of (segments m) lbn) = Some v →
  @is_blk_clean B _ E m lbn = Ok (negb v).
Proof. intros Hwf Hl Hb. unfold is_blk_clean. by rewrite SegMap.get_ok, Hb by done. Qed.

(** Marking a block clean clears the bit of its segment and no other. *)
Lemma blk_clean_ok (m : RebuildMap B) lbn :
  SegMap.wf (segments m) → 0 ≤ lbn < SegMap.num_blocks (segments m) →
  ∃ m', @blk_clean B _ E m lbn = Ok m' ∧ SegMap.wf (segments m') ∧
    device_name m' = device_name m ∧
    SegMap.same_geometry (segments m) (segments m') ∧
    ∀ i, 0 ≤ i < SegMap.num_segments (segments m) →
      SegMap.bit (segments m') i =
        if decide (i = SegMap.seg_of (segments m) lbn) then Some false
        else SegMap.bit (segments m) i.
Proof.
  intros Hwf Hl. unfold blk_clean.
  destruct (@SegMap.set_ok B _ _ E (segments m) lbn 1 false Hwf) as (s & -> & Hwf' & Hg & Hb);
    try lia.
  eexists. split; [done|]. split_and!; try done.
  intros i Hi. simpl. rewrite Hb by done. replace (lbn + 1 - 1) with lbn by lia.
  destruct (decide (i = _)); [rewrite decide_True by lia|rewrite decide_False by lia]; done.
Qed.

End Facts.
End RMap.

(** I/O types, from [spdk_rs::IoType]; [IoOther] stands for the types that are
    not distinguished. *)
Inductive IoType :=
| IoRead | IoWrite | IoWriteZeros | IoUnmap | IoReset | IoFlush | IoNvmeAdmin
| IoCompare | IoCompareAndWrite | IoNvmeIo | IoNvmeIoMd | IoAbort | IoOther (code : Z).

#[global] Instance IoType_eq_dec : EqDecision IoType.
Proof. solve_decision. Defined.

(** [matches!(io_type, IoType::Write | IoType::WriteZeros | IoType::Unmap)] *)
Definition is_write_like (t : IoType) : bool :=
  match t with IoWrite | IoWriteZeros | IoUnmap => true | _ => false end.

Module IOLog.

Record IOLogChannel (B : Type) := mkChannel {
  core : Z;
  ch_device_name : string;
  ch_segments : option (SegMap.SegmentMap B);
}.
Arguments mkChannel {B} _ _ _.
Arguments core {B} _.
Arguments ch_device_name {B} _.
Arguments ch_segments {B} _.

Record IOLog (B : Type) := mkIOLog {
  device_name : string;
  channels : gmap Z (IOLogChannel B);
}.
Arguments mkIOLog {B} _ _.
Arguments device_name {B} _.
Arguments channels {B} _.

Section Operations.
Context {B : Type} `{!BitVec B} {E : Type}.
(** [SPDK_BDEV_LARGE_BUF_MAX_SIZE] *)
Variable SEGMENT_SIZE : Z.

Definition channel_new (core : Z) (name : string) (nb bl : Z) : outcome E (IOLogChannel B) :=
  m ← SegMap.new nb bl SEGMENT_SIZE;
  Ok (mkChannel core name (Some m)).

Definition log_io (current_core : Z) (ch : IOLogChannel B) (t : IoType) (lbn lbn_cnt : Z)
    : outcome E (IOLogChannel B) :=
  _ ← assert (core ch =? current_core);
  if is_write_like t then
    m ← of_option (ch_segments ch);
    m' ← SegMap.set m lbn lbn_cnt true;
    Ok (mkChannel (core ch) (ch_device_name ch) (Some m'))
  else Ok ch.

Definition take_segments (ch : IOLogChannel B) : outcome E (SegMap.SegmentMap B) :=
  of_option (ch_segments ch).

Fixpoint new_channels (cores : list Z) (name : string) (nb bl : Z)
    : outcome E (gmap Z (IOLogChannel B)) :=
  match cores with
  | [] => Ok ∅
  | i :: cores =>
      ch ← channel_new i name nb bl;
      rest ← new_channels cores name nb bl;
      Ok (<[i := ch]> rest)
  end.

Definition new (list_cores : list Z) (name : string) (nb bl : Z) : outcome E (IOLog B) :=
  _ ← assert (negb (bool_decide (name = ""%string)) && (0 <? nb) && (0 <? bl));
  chs ← new_channels list_cores name nb bl;
  Ok (mkIOLog name chs).

Definition current_channel (log : IOLog B) (current_core : Z) : outcome E (IOLogChannel B) :=
  of_option (channels log !! current_core).

(** The channel handle is reference counted: logging through a handle
    changes the channel the log keeps. *)
Definition log_io_current (log : IOLog B) (current_core : Z) (t : IoType) (lbn cnt : Z)
    : outcome E (IOLog B) :=
  ch ← current_channel log current_core;
  ch' ← log_io current_core ch t lbn cnt;
  Ok (mkIOLog (device_name log) (<[current_core := ch']> (channels log))).

(** [values_mut().map(take_segments).reduce(merge)] *)
Fixpoint reduce_merge (acc : SegMap.SegmentMap B) (chs : list (IOLogChannel B))
    : outcome E (SegMap.SegmentMap B) :=
  match chs with
  | [] => Ok acc
  | ch :: chs =>
      e ← take_segments ch;
      acc' ← SegMap.merge acc e;
      reduce_merge acc' chs
  end.

Definition finalize (log : IOLog B) : outcome E (RMap.RebuildMap B) :=
  match (map_to_list (channels log)).*2 with
  | [] => Panicked
  | ch :: chs =>
      acc ← take_segments ch;
      m ← reduce_merge acc chs;
      Ok (RMap.mkRebuildMap (device_name log) m)
  end.

End Operations.

(** *** Specification

    The history of a log: core, type, first block and number of blocks of
    every operation, in order. *)

Definition event : Type := Z * IoType * Z * Z.

Section Spec.
Context {B : Type} `{!BitVec B, !BitVecLaws B} {E : Type}.
Variables (SEGMENT_SIZE : Z) (name : string) (nb bl : Z).

Definition seg (lbn : Z) : Z := lbn * bl / SEGMENT_SIZE.

(** Whether an event marks segment [i]. *)
Definition marks (i : Z) (e : event) : bool :=
  let '(_, t, lbn, cnt) := e in
  is_write_like t && (seg lbn <=? i) && (i <=? seg (lbn + cnt - 1)).

Definition on_core (c : Z) (e : event) : bool := let '(c', _, _, _) := e in c' =? c.

(** An event the nexus can log: from a known core, inside the device. *)
Definition valid_event (cores : list Z) (e : event) : Prop :=
  let '(c, t, lbn, cnt) := e in c ∈ cores ∧ 0 ≤ lbn ∧ 1 ≤ cnt ∧ lbn + cnt ≤ nb.

Fixpoint replay (log : IOLog B) (evs : list event) : outcome E (IOLog B) :=
  match evs with
  | [] => Ok log
  | (c, t, lbn, cnt) :: evs => log' ← log_io_current log c t lbn cnt; replay log' evs
  end.

Definition geometry (m : SegMap.SegmentMap B) : Prop :=
  SegMap.wf m ∧ SegMap.num_blocks m = nb ∧ SegMap.block_len m = bl ∧
  SegMap.segment_size m = SEGMENT_SIZE.

(** The channel of core [c] has recorded the events [evs]. *)
Definition recorded (evs : list event) (c : Z) (ch : IOLogChannel B) : Prop :=
  core ch = c ∧ ∃ m, ch_segments ch = Some m ∧ geometry m ∧
    ∀ i, 0 ≤ i < SegMap.num_segments m →
      SegMap.bit m i = Some (existsb (λ e, on_core c e && marks i e) evs).

Definition log_inv (cores : list Z) (evs : list event) (log : IOLog B) : Prop :=
  device_name log = name ∧ (∀ c, c ∈ cores ↔ is_Some (channels log !! c)) ∧
  ∀ c ch, channels log !! c = Some ch → recorded evs c ch.

Hypothesis HSEG : 0 < SEGMENT_SIZE < 2^64.
Hypothesis Hname : name ≠ ""%string.
Hypothesis Hnb : 0 < nb.
Hypothesis Hbl : 0 < bl.
Hypothesis Hsize : nb * bl < 2^64.

Lemma geometry_same m1 m2 : geometry m1 → geometry m2 → SegMap.same_geometry m1 m2.
Proof.
  intros ([] & H1 & H2 & H3) ([] & H4 & H5 & H6).
  rewrite H1, H2, H3, H4, H5, H6 in *. unfold SegMap.same_geometry. split_and!; try congruence.
  nia.
Qed.

Lemma new_channels_inv cores :
  ∃ chs, @new_channels B _ E SEGMENT_SIZE cores name nb bl = Ok chs ∧
    (∀ c, c ∈ cores ↔ is_Some (chs !! c)) ∧
    ∀ c ch, chs !! c = Some ch → recorded [] c ch.
Proof.
  induction cores as [|c cores (chs & IHe & IHd & IHr)]; simpl.
  - exists ∅. split_and!; try done. intros c. rewrite lookup_empty.
    split; [by intros ?%not_elem_of_nil|by intros []].
  - unfold channel_new.
    destruct (@SegMap.new_ok B _ _ E nb bl SEGMENT_SIZE) as (m & -> & Hwf & ? & ? & ? & Hb);
      try done.
    simpl. rewrite IHe. simpl. eexists. split_and!; [done|..].
    + intros c'. rewrite elem_of_cons, lookup_insert. destruct (decide (c = c')).
      * subst. split; eauto.
      * rewrite <- IHd. intuition congruence.
    + intros c' ch [[<- <-]|[? ?]]%lookup_insert_Some; [|eauto].
      split; [done|]. exists m. unfold geometry. by split_and!.
Qed.

Lemma new_inv cores :
  ∃ log, @new B _ E SEGMENT_SIZE cores name nb bl = Ok log ∧ log_inv cores [] log.
Proof.
  unfold new. rewrite bool_decide_false by done.
  destruct (Z.ltb_spec 0 nb); [|lia]. destruct (Z.ltb_spec 0 bl); [|lia]. simpl.
  destruct (new_channels_inv cores) as (chs & -> & Hd & Hr). simpl.
  eexists. split; [done|]. split_and!; done.
Qed.

Lemma log_io_recorded evs c ch t lbn cnt :
  recorded evs c ch → 0 ≤ lbn → 1 ≤ cnt → lbn + cnt ≤ nb →
  ∃ ch', @log_io B _ E c ch t lbn cnt = Ok ch' ∧ recorded (evs ++ [(c, t, lbn, cnt)]) c ch'.
Proof.
  intros (Hcore & m & Hm & Hgeo & Hbits) ? ? ?. pose proof Hgeo as (Hwf & Hn & Hb & Hs).
  unfold log_io. rewrite Hcore, Z.eqb_refl. simpl.
  destruct (is_write_like t) eqn:Ht.
  - rewrite Hm. simpl.
    destruct (@SegMap.set_ok B _ _ E m lbn cnt true Hwf) as (m' & -> & Hwf' & Hg & Hset);
      try lia.
    simpl. eexists. split; [done|]. split; [done|].
    destruct Hg as (Hg1 & Hg2 & Hg3 & Hg4).
    exists m'. split_and!; [done|unfold geometry; split_and!; congruence|].
    intros i Hi. rewrite Hset by congruence. unfold SegMap.seg_of. rewrite Hb, Hs.
    rewrite existsb_app. simpl. rewrite Z.eqb_refl, Ht. fold (seg lbn) (seg (lbn + cnt - 1)).
    simpl. rewrite orb_false_r.
    case_decide as Hd.
    + destruct (Z.leb_spec (seg lbn) i), (Z.leb_spec i (seg (lbn + cnt - 1))); try lia.
      by rewrite orb_true_r.
    + rewrite Hbits by congruence.
      destruct (Z.leb_spec (seg lbn) i), (Z.leb_spec i (seg (lbn + cnt - 1))); try lia;
        simpl; by rewrite orb_false_r.
  - exists ch. split; [done|]. split; [done|]. exists m. split_and!; [done..|].
    intros i Hi. rewrite Hbits by done. rewrite existsb_app. simpl. rewrite Ht.
    simpl. by rewrite andb_false_r, !orb_false_r.
Qed.

Lemma recorded_other evs c ch e :
  recorded evs c ch → on_core c e = false → recorded (evs ++ [e]) c ch.
Proof.
  intros (? & m & ? & ? & Hb) He. split; [done|]. exists m. split_and!; try done.
  intros i Hi. rewrite Hb by done. rewrite existsb_app. simpl. rewrite He.
  by rewrite orb_false_r.
Qed.

Lemma replay_inv cores evs0 log evs :
  log_inv cores evs0 log → Forall (valid_event cores) evs →
  ∃ log', replay log evs = Ok log' ∧ log_inv cores (evs0 ++ evs) log'.
Proof.
  intros Hinv Hv. revert evs0 log Hinv.
  induction Hv as [|[[[c t] lbn] cnt] evs (Hc & ? & ? & ?) Hv IH]; intros evs0 log Hinv; simpl.
  { rewrite app_nil_r. eauto. }
  destruct Hinv as (Hname' & Hd & Hr).
  destruct (proj1 (Hd c) Hc) as [ch Hch].
  destruct (log_io_recorded evs0 c ch t lbn cnt) as (ch' & Hlog & Hrec); eauto.
  unfold log_io_current, current_channel. rewrite Hch. simpl. rewrite Hlog. simpl.
  rewrite (cons_middle _ evs0 evs), app_assoc. apply IH. split_and!; [done|..]; simpl.
  - intros c'. rewrite Hd, lookup_insert. destruct (decide (c = c')) as [<-|]; [|done].
    rewrite Hch. split; eauto.
  - intros c' ch'' [[<- <-]|[? ?]]%lookup_insert_Some; [done|].
    apply recorded_other; [eauto|]. simpl. by apply Z.eqb_neq.
Qed.

(** The merge of the channels of a list of cores. *)
Lemma reduce_merge_spec evs cs chs acc done_cores :
  geometry acc →
  (∀ i, 0 ≤ i < SegMap.num_segments acc →
     SegMap.bit acc i = Some (existsb (λ c, existsb (λ e, on_core c e && marks i e) evs) done_cores)) →
  Forall2 (recorded evs) cs chs →
  ∃ m, @reduce_merge B _ E acc chs = Ok m ∧ geometry m ∧
    ∀ i, 0 ≤ i < SegMap.num_segments m →
      SegMap.bit m i =
        Some (existsb (λ c, existsb (λ e, on_core c e && marks i e) evs) (done_cores ++ cs)).
Proof.
  intros Hgeo Hbits Hall. revert acc done_cores Hgeo Hbits.
  induction Hall as [|c ch cs chs (Hc & m & Hm & Hgm & Hbm) Hall IH];
    intros acc done_cores Hgeo Hbits; simpl.
  { rewrite app_nil_r. eauto. }
  unfold take_segments. rewrite Hm. simpl.
  pose proof (geometry_same _ _ Hgeo Hgm) as Hsame.
  destruct (@SegMap.merge_ok B _ _ E acc m) as (acc' & -> & Hwf' & Hg' & Hor);
    [by destruct Hgeo|by destruct Hgm|done|].
  simpl. rewrite (cons_middle _ done_cores cs), app_assoc.
  destruct Hg' as (Hn' & Hnb' & Hbl' & Hss').
  destruct Hgeo as (? & ? & ? & ?). destruct Hsame as (Hn & ?).
  apply IH.
  - unfold geometry. split_and!; congruence.
  - intros i Hi. rewrite existsb_app. simpl. rewrite orb_false_r.
    apply Hor; [apply Hbits|apply Hbm]; lia.
Qed.

Lemma existsb_cores cores evs (P : event → bool) :
  Forall (valid_event cores) evs →
  ∀ cs, (∀ c, c ∈ cores ↔ c ∈ cs) →
  existsb (λ c, existsb (λ e, on_core c e && P e) evs) cs = existsb P evs.
Proof.
  intros Hv cs Hcs. apply eq_iff_eq_true. rewrite !existsb_exists. split.
  - intros (c & _ & (e & He & [_ ?]%andb_prop)%existsb_exists). eauto.
  - intros (e & He & HP). rewrite Forall_forall in Hv.
    specialize (Hv e ltac:(by apply list_elem_of_In)).
    destruct e as [[[c t] lbn] cnt]. destruct Hv as (Hc & _).
    exists c. split; [by apply list_elem_of_In, Hcs|].
    apply existsb_exists. eexists. split; [done|]. simpl. by rewrite Z.eqb_refl.
Qed.

(** Stopping the log of a device on a non-empty set of cores yields the map
    whose dirty segments are those the logged writes touched. *)
Lemma finalize_inv cores evs log :
  cores ≠ [] → log_inv cores evs log → Forall (valid_event cores) evs →
  ∃ m, @finalize B _ E log = Ok m ∧ RMap.device_name m = name ∧ geometry (RMap.segments m) ∧
    ∀ i, 0 ≤ i < SegMap.num_segments (RMap.segments m) →
      SegMap.bit (RMap.segments m) i = Some (existsb (marks i) evs).
Proof.
  intros Hne (Hnm & Hd & Hr) Hv. unfold finalize.
  assert (Hall : Forall2 (recorded evs) (map_to_list (channels log)).*1
                   (map_to_list (channels log)).*2).
  { apply Forall2_fmap_2, Forall_Forall2_diag, Forall_forall. intros [c ch] Hin.
    apply Hr. by apply elem_of_map_to_list in Hin. }
  assert (Hcs : ∀ c, c ∈ cores ↔ c ∈ (map_to_list (channels log)).*1).
  { intros c. rewrite Hd, list_elem_of_fmap. split.
    - intros [ch ?]. exists (c, ch). split; [done|]. by apply elem_of_map_to_list.
    - intros ([c' ch] & -> & ?%elem_of_map_to_list). simpl. eauto. }
  destruct Hall as [|c ch cs chs (Hc & m & Hm & Hgm & Hbm) Hall].
  { destruct cores as [|c0 ?]; [done|]. exfalso. apply (not_elem_of_nil c0), Hcs. left. }
  unfold take_segments. rewrite Hm. simpl.
  destruct (reduce_merge_spec evs cs chs m [c]) as (m' & -> & Hg' & Hb'); try done.
  { intros i Hi. rewrite Hbm by done. simpl. by rewrite orb_false_r. }
  eexists. split; [done|]. split_and!; [done..|].
  intros i Hi. simpl in Hi |- *. rewrite Hb' by done. f_equal.
  by apply (existsb_cores cores evs (marks i) Hv (c :: cs)).
Qed.

End Spec.
End IOLog.

(** ** Properties *)

Module IOLogProps.

(** C34. Refinement of the I/O log to its history: start a log for a device,
    log any sequence of operations inside the device from any of the cores,
    then stop the log.  No step panics, and the rebuild map reports a block
    clean exactly when no logged write, write-zeroes or unmap, on any core,
    touched the segment of that block. *)
Theorem finalize_marks_logged_writes {B} `{!BitVec B, !BitVecLaws B} {E}
    (SEGMENT_SIZE : Z) (cores : list Z) (name : string) (nb bl : Z)
    (evs : list IOLog.event) (blk : Z) :
  0 < SEGMENT_SIZE < 2^64 → name ≠ ""%string → 0 < nb → 0 < bl → nb * bl < 2^64 →
  cores ≠ [] → Forall (IOLog.valid_event nb cores) evs → 0 ≤ blk < nb →
  ∃ (log log' : IOLog.IOLog B) m,
    IOLog.new (E := E) SEGMENT_SIZE cores name nb bl = Ok log ∧
    @IOLog.replay B _ E log evs = Ok log' ∧
    IOLog.finalize (E := E) log' = Ok m ∧
    @RMap.is_blk_clean B _ E m blk =
      Ok (negb (existsb (IOLog.marks SEGMENT_SIZE bl (IOLog.seg SEGMENT_SIZE bl blk)) evs)).
Proof.
  intros HS Hname Hnb Hbl Hsz Hne Hv Hblk.
  destruct (@IOLog.new_inv B _ _ E SEGMENT_SIZE name nb bl HS Hname Hnb Hbl Hsz cores)
    as (log & -> & Hinv).
  destruct (@IOLog.replay_inv B _ _ E SEGMENT_SIZE name nb bl cores [] log evs Hinv Hv)
    as (log' & Hrep & Hinv').
  simpl in Hinv'.
  edestruct (@IOLog.finalize_inv B _ _ E SEGMENT_SIZE name nb bl) with (log := log')
    as (m & Hfin & _ & (Hwf & Hn & Hb & Hs) & Hbits); [done..|].
  exists log, log', m. split_and!; try done.
  assert (Hseg : SegMap.seg_of (RMap.segments m) blk = IOLog.seg SEGMENT_SIZE bl blk)
    by (unfold SegMap.seg_of, IOLog.seg; by rewrite Hb, Hs).
  apply RMap.is_blk_clean_ok; [done|lia|]. rewrite Hseg. apply Hbits.
  rewrite <- Hseg. apply SegMap.seg_of_range; [done|lia].
Qed.

Lemma finalize_marks_logged_writes_witness :
  ∃ (log log' : IOLog.IOLog (list bool)) m,
    IOLog.new (E := unit) 4096 [0; 1] "dev" 100 512 = Ok log ∧
    @IOLog.replay _ _ unit log [(1, IoWrite, 10, 3); (0, IoRead, 50, 1)] = Ok log' ∧
    IOLog.finalize (E := unit) log' = Ok m ∧
    @RMap.is_blk_clean _ _ unit m 8 = Ok false.
Proof.
  apply (@finalize_marks_logged_writes (list bool) _ _ unit 4096 [0; 1] "dev" 100 512
           [(1, IoWrite, 10, 3); (0, IoRead, 50, 1)] 8); try done.
  repeat constructor; simpl; try lia; set_solver.
Defined.

(** Once a block has been marked as transferred, its segment is clean,
    and every other segment keeps its dirty bit. *)
Theorem blk_clean_then_query {B} `{!BitVec B, !BitVecLaws B} {E} (m : RMap.RebuildMap B)
    (lbn blk : Z) :
  SegMap.wf (RMap.segments m) →
  0 ≤ lbn < SegMap.num_blocks (RMap.segments m) →
  0 ≤ blk < SegMap.num_blocks (RMap.segments m) →
  ∃ m', @RMap.blk_clean B _ E m lbn = Ok m' ∧ SegMap.wf (RMap.segments m') ∧
    @RMap.is_blk_clean B _ E m' blk =
      if decide (SegMap.seg_of (RMap.segments m) blk = SegMap.seg_of (RMap.segments m) lbn)
      then Ok true else RMap.is_blk_clean m blk.
Proof.
  intros Hwf Hl Hb.
  destruct (@RMap.blk_clean_ok B _ _ E m lbn Hwf Hl) as (m' & -> & Hwf' & _ & Hg & Hbit).
  exists m'. split_and!; try done.
  destruct Hg as (Hn & Hnb & Hbl & Hss).
  assert (Hseg : SegMap.seg_of (RMap.segments m') blk = SegMap.seg_of (RMap.segments m) blk)
    by (unfold SegMap.seg_of; by rewrite Hbl, Hss).
  pose proof (SegMap.seg_of_range _ _ Hwf Hb) as Hrange.
  destruct (SegMap.bit_some (RMap.segments m) _ Hwf Hrange) as [v Hv].
  specialize (Hbit _ Hrange).
  rewrite (@RMap.is_blk_clean_ok B _ _ E m blk v) by done.
  case_decide.
  - apply (@RMap.is_blk_clean_ok B _ _ E m' blk false); [done|congruence|congruence].
  - apply (@RMap.is_blk_clean_ok B _ _ E m' blk v); [done|congruence|congruence].
Qed.

Lemma blk_clean_then_query_witness :
  ∃ m', @RMap.blk_clean (list bool) _ unit
          (RMap.mkRebuildMap "dev"
             (SegMap.mkSegmentMap (replicate 13 true) 13 100 512 4096)) 16 = Ok m' ∧
    SegMap.wf (RMap.segments m') ∧ @RMap.is_blk_clean _ _ unit m' 18 = Ok true.
Proof.
  apply (@blk_clean_then_query (list bool) _ _ unit
          (RMap.mkRebuildMap "dev" (SegMap.mkSegmentMap (replicate 13 true) 13 100 512 4096))
          16 18).
  - split; vm_compute; split || done; done.
  - vm_compute; split; done.
  - vm_compute; split; done.
Defined.

End IOLogProps.
