(* ===== verification/RebuildState.v ===== *)
(** * Rebuild job states

    The state machine of a rebuild job ([rebuild/rebuild_state.rs]): a
    current state and a pending one, operations that request a pending state,
    and [reconcile], which makes the pending state current. *)

From S2P Require Import Prelude Errors.
Import Rebuild.

Module RS.

Inductive RebuildState := Init | Running | Stopped | Paused | Failed | Completed.

#[global] Instance RebuildState_eq_dec : EqDecision RebuildState.
Proof. solve_decision. Defined.

Inductive RebuildOperation := Start | Stop | Pause | Resume | Fail | Complete.

#[global] Instance RebuildOperation_eq_dec : EqDecision RebuildOperation.
Proof. solve_decision. Defined.

Definition state_display (s : RebuildState) : string :=
  match s with
  | Init => "init"
  | Running => "running"
  | Stopped => "stopped"
  | Paused => "paused"
  | Failed => "failed"
  | Completed => "completed"
  end.

(** [Display] prints the [Debug] name of the operation. *)
Definition op_display (op : RebuildOperation) : string :=
  match op with
  | Start => "Start"
  | Stop => "Stop"
  | Pause => "Pause"
  | Resume => "Resume"
  | Fail => "Fail"
  | Complete => "Complete"
  end.

Definition done (s : RebuildState) : bool :=
  match s with Stopped | Failed | Completed => true | _ => false end.

Definition running (s : RebuildState) : bool :=
  match s with Running => true | _ => false end.

(** [rebuild/rebuild_stats.rs]; times are instants in nanoseconds. *)
Record RebuildStats := mkStats {
  blocks_total : Z;
  blocks_recovered : Z;
  blocks_transferred : Z;
  blocks_remaining : Z;
  progress : Z;
  blocks_per_task : Z;
  block_size : Z;
  tasks_total : Z;
  tasks_active : Z;
  start_time : Z;
  is_partial : bool;
  end_time : option Z;
}.

Definition stats_default (now : Z) : RebuildStats :=
  mkStats 0 0 0 0 0 0 0 0 0 now false None.

Record RebuildStates := mkStates {
  current : RebuildState;
  pending : option RebuildState;
  error : option RebuildError;
  final_stats : option RebuildStats;
}.

Definition states_default : RebuildStates := mkStates Init None None None.

(** The derived [Debug] rendering of the states, used in error messages. *)
Class DebugFmt := fmt_states : RebuildStates → string.

Definition set_error (s : RebuildStates) (e : option RebuildError) : RebuildStates :=
  mkStates (current s) (pending s) e (final_stats s).

Definition set_final_stats (s : RebuildStates) (now : Z) (st : RebuildStats) : RebuildStates :=
  mkStates (current s) (pending s) (error s)
    (Some (mkStats (blocks_total st) (blocks_recovered st) (blocks_transferred st)
       (blocks_remaining st) (progress st) (blocks_per_task st) (block_size st)
       (tasks_total st) (tasks_active st) (start_time st) (is_partial st) (Some now))).

Definition with_pending (s : RebuildStates) (p : option RebuildState) : RebuildStates :=
  mkStates (current s) p (error s) (final_stats s).

Definition set_pending (state : RebuildState) (override_pending : bool)
    : ST RebuildStates RebuildError unit := λ s,
  let accept :=
    if bool_decide (current s ≠ state)
    then (with_pending s (Some state), Ok tt)
    else (with_pending s None, Ok tt) in
  match pending s with
  | Some p =>
      if negb override_pending && bool_decide (p ≠ state)
      then (s, Err (StatePending (state_display p)))
      else accept
  | None => accept
  end.

Definition reconcile (s : RebuildStates) : RebuildStates * RebuildState :=
  match pending s with
  | Some p => (mkStates p None (error s) (final_stats s), p)
  | None => (s, current s)
  end.

(** Returns whether the backend has to be woken up. *)
Definition exec_op `{!DebugFmt} (op : RebuildOperation) (override_pending : bool)
    : ST RebuildStates RebuildError bool := λ s,
  let e := OpError (op_display op) (fmt_states s) in
  match op with
  | Start =>
      match current s with
      | Stopped | Paused | Failed | Completed => (s, Err e)
      | Running => (s, Ok false)
      | Init => (_ ← set_pending Running false; mret true) s
      end
  | Stop =>
      match current s with
      | Failed | Completed => (s, Err e)
      | Stopped => (s, Ok false)
      | Running => (_ ← set_pending Stopped override_pending; mret false) s
      | Init | Paused => (_ ← set_pending Stopped override_pending; mret true) s
      end
  | Pause =>
      match current s with
      | Stopped | Failed | Completed => (s, Err e)
      | Init | Running | Paused => (_ ← set_pending Paused false; mret false) s
      end
  | Resume =>
      match current s with
      | Init | Stopped | Failed | Completed => (s, Err e)
      | Running | Paused => (_ ← set_pending Running false; mret true) s
      end
  | Fail =>
      match current s with
      | Init | Stopped | Paused | Completed => (s, Err e)
      | Failed => (s, Ok false)
      | Running => (_ ← set_pending Failed override_pending; mret false) s
      end
  | Complete =>
      match current s with
      | Init | Paused | Stopped | Failed | Completed => (s, Err e)
      | Running => (_ ← set_pending Completed override_pending; mret false) s
      end
  end.

(** *** Facts *)

Section Facts.
Context `{!DebugFmt}.
Implicit Types s : RebuildStates.

(** An operation only ever requests a pending state. *)
Lemma exec_op_current op ov s :
  current (exec_op op ov s).1 = current s ∧ error (exec_op op ov s).1 = error s ∧
  final_stats (exec_op op ov s).1 = final_stats s.
Proof.
  unfold exec_op. destruct op, (current s) eqn:?; simpl; try done;
  unfold mbind, ST_bind, set_pending, with_pending; simpl;
  destruct (pending s); simpl; repeat (case_match; simplify_eq/=; try done).
Qed.

(** The states an operation may leave pending. *)
Definition requests (op : RebuildOperation) : RebuildState :=
  match op with
  | Start | Resume => Running
  | Stop => Stopped
  | Pause => Paused
  | Fail => Failed
  | Complete => Completed
  end.

Lemma exec_op_pending op ov s :
  pending (exec_op op ov s).1 = pending s ∨
  pending (exec_op op ov s).1 = None ∧ current s = requests op ∨
  pending (exec_op op ov s).1 = Some (requests op) ∧ current s ≠ requests op ∧
    done (current s) = false.
Proof.
  unfold exec_op. destruct op, (current s) eqn:Hc; simpl; try (by left);
  unfold mbind, ST_bind, set_pending, with_pending; simpl; rewrite Hc; simpl;
  destruct (pending s) eqn:Hp; simpl;
  repeat case_bool_decide; destruct ov; simpl; rewrite ?Hp; naive_solver.
Qed.

(** Without the override a different pending state is never replaced. *)
Lemma exec_op_no_override op s p :
  pending s = Some p → p ≠ requests op → pending (exec_op op false s).1 = Some p.
Proof.
  intros Hp Hne. unfold exec_op.
  destruct op, (current s) eqn:Hc; simpl in *; try done;
  unfold mbind, ST_bind, set_pending; simpl; rewrite Hp; simpl;
  rewrite bool_decide_true by done; done.
Qed.

End Facts.

End RS.

Module RSProps.
Import RS.

(** The client-facing contract of the state machine.  A final state is
    absorbing: no operation, forced or not, changes anything, and [reconcile]
    stays.  An operation never changes the current state by itself, and one
    without the override never replaces a different pending state. *)
Theorem operations_respect_state `{!DebugFmt} op ov s :
  (done (current s) = true → pending s = None →
     (exec_op op ov s).1 = s ∧ reconcile s = (s, current s)) ∧
  current (exec_op op ov s).1 = current s ∧
  (∀ p, ov = false → pending s = Some p → p ≠ requests op →
     pending (exec_op op ov s).1 = Some p).
Proof.
  split_and!.
  - intros Hd Hp. split; [|unfold reconcile; by rewrite Hp].
    unfold exec_op. destruct op, (current s); simpl in *; done.
  - apply exec_op_current.
  - intros p -> Hp Hne. by apply exec_op_no_override.
Qed.

Lemma operations_respect_state_witness :
  pending (exec_op (H := λ _, "") Pause false (mkStates Running (Some Stopped) None None)).1
  = Some Stopped.
Proof.
  by apply (operations_respect_state (H := λ _, "") Pause false
    (mkStates Running (Some Stopped) None None)).
Defined.

End RSProps.
