(* ===== verification/RebuildCopy.v ===== *)
(** * Copying rebuild segments

    The rebuild descriptor and its segment arithmetic
    ([rebuild/rebuild_descriptor.rs], [rebuild/mod.rs]), the copy of one
    segment ([rebuild/rebuild_task.rs]) and the copiers layered on it: the
    plain one, the nexus one that locks the range
    ([rebuild/nexus_rebuild.rs]) and the partial sequential one that skips
    clean segments ([rebuild/rebuilders.rs]). *)

From S2P Require Import Prelude Errors SegmentMap IoLog.
Import Rebuild.

Inductive ReadOptions := ReadNone | UnwrittenFail | CurrentUnwrittenFail.

Inductive RebuildVerifyMode := VerifyNone | VerifyFail | VerifyPanic.

Record RebuildJobOptions := mkOptions {
  verify_mode : RebuildVerifyMode;
  read_opts : ReadOptions;
}.

(** [rebuild/mod.rs]: [self.within(right)] on ranges of [u64]. *)
Definition within (self_start self_end right_start right_end : Z) : bool :=
  (self_start <? self_end) && (right_start <? right_end) &&
  (right_start <=? self_start) && (self_end <=? right_end).

(** What the descriptor reads of an open block device. *)
Record Device := mkDevice {
  device_name : string;
  dev_block_len : Z;
  dev_num_blocks : Z;
  size_in_bytes : Z;
}.

Module Desc.

Record RebuildDescriptor := mkDescriptor {
  block_size : Z;
  range_start : Z;
  range_end : Z;
  options : RebuildJobOptions;
  segment_size_blks : Z;
  src_uri : string;
  dst_uri : string;
  src_device : string;
  dst_device : string;
  start_time : Z;
}.

(** Check if the source and destination block devices are compatible. *)
Definition validate (source destination : Device) (range_start range_end : Z) : bool :=
  within range_start range_end 0 (dev_num_blocks source) &&
  within range_start range_end 0 (dev_num_blocks destination) &&
  (dev_block_len source =? dev_block_len destination).

Section New.
Variable SEGMENT_SIZE : Z.
(** URI parsing, [device_open] and [get_io_handle_nonblock]: the devices
    behind them live in SPDK. *)
Variable bdev_get_name : string → outcome Bdev.Error string.
Variable device_open : string → bool → outcome CoreError Device.
Variable io_handle : string → outcome CoreError unit.

Definition open_uri (uri : string) (rw : bool) : outcome RebuildError Device :=
  name ← map_err (λ e, BdevInvalidUri e uri) (bdev_get_name uri);
  map_err (λ e, BdevNotFound e uri) (device_open name rw).

Definition new (src_uri dst_uri : string) (range : option (Z * Z))
    (options : RebuildJobOptions) (now : Z) : outcome RebuildError RebuildDescriptor :=
  src ← open_uri src_uri false;
  dst ← open_uri dst_uri true;
  if bool_decide (device_name src = device_name dst) then Err (SameBdev (device_name src))
  else
    _ ← map_err (λ e, NoBdevHandle e (device_name src)) (io_handle (device_name src));
    _ ← map_err (λ e, NoBdevHandle e (device_name dst)) (io_handle (device_name dst));
    range ← match range with
            | None => n ← u64_div (size_in_bytes dst) (dev_block_len dst); Ok (0, n)
            | Some r => Ok r
            end;
    if negb (validate src dst range.1 range.2) then Err InvalidSrcDstRange
    else
      let block_size := dev_block_len dst in
      segment_size_blks ← u64_div SEGMENT_SIZE block_size;
      Ok (mkDescriptor block_size range.1 range.2 options segment_size_blks
            src_uri dst_uri (device_name src) (device_name dst) now).

End New.

(** Check if the rebuild range is compatible with the rebuild segment map. *)
Definition validate_map {B} (d : RebuildDescriptor) (map : SegMap.SegmentMap B)
    : outcome RebuildError unit :=
  if range_end d <? SegMap.size_blks map then Err InvalidMapRange else Ok tt.

(** The last segment may be shorter than the others. *)
Definition get_segment_size_blks (d : RebuildDescriptor) (blk : Z) : Z :=
  if range_end d <? wrap64 (blk + segment_size_blks d)
  then wrap64 (range_end d - blk)
  else segment_size_blks d.

(** The [u64] arithmetic of a descriptor for devices of less than [2^55]
    blocks (2^64 bytes in blocks of 512 bytes) does not wrap. *)
Record wf (d : RebuildDescriptor) : Prop := {
  wf_range : 0 ≤ range_start d < range_end d;
  wf_end : range_end d ≤ 2^55;
  wf_seg : 0 < segment_size_blks d ≤ 2^32;
  wf_devices : src_device d ≠ dst_device d;
}.

Lemma get_segment_size_ok d blk :
  wf d → 0 ≤ blk < range_end d →
  get_segment_size_blks d blk = Z.min (segment_size_blks d) (range_end d - blk).
Proof.
  intros [] ?. unfold get_segment_size_blks. rewrite wrap64_small by (unfold is_u64; lia).
  destruct (Z.ltb_spec (range_end d) (blk + segment_size_blks d)).
  - rewrite wrap64_small by (unfold is_u64; lia). lia.
  - lia.
Qed.

End Desc.

(** ** Block devices

    The handles of SPDK devices are an interface.  [content] and
    [unwritten] are what a device holds; the laws say what a completed
    request guarantees and that a request touches no other block. *)

Class BlockDevices (W Blk : Type) := {
  readv : W → string → Z → Z → ReadOptions → W * outcome CoreError (list Blk);
  writev : W → string → Z → list Blk → W * outcome CoreError unit;
  comparev : W → string → Z → list Blk → W * outcome CoreError unit;
  lock_lba_range : W → Z → Z → W * outcome string unit;
  unlock_lba_range : W → Z → Z → W * outcome string unit;
  content : W → string → Z → Blk;
  unwritten : W → string → Z → Z → Prop;
}.

(** Two worlds hold the same data. *)
Definition same_data {W Blk} `{!BlockDevices W Blk} (w w' : W) : Prop :=
  (∀ d b, content w' d b = content w d b) ∧
  (∀ d o n, unwritten w d o n → unwritten w' d o n).

Class BlockDevicesLaws (W Blk : Type) `{!BlockDevices W Blk} : Prop := {
  readv_same w d o n opts : same_data w (readv w d o n opts).1;
  readv_ok w d o n opts w' data :
    readv w d o n opts = (w', Ok data) →
    length data = Z.to_nat n ∧ ∀ i, 0 ≤ i < n → data !! Z.to_nat i = Some (content w d (o + i));
  readv_unwritten w d o n opts w' off len :
    readv w d o n opts = (w', Err (ReadFailed (NvmeError UNWRITTEN_BLOCK) off len)) →
    unwritten w d o n;
  readv_no_panic w d o n opts : (readv w d o n opts).2 ≠ Panicked;
  writev_ok w d o data w' :
    writev w d o data = (w', Ok tt) →
    ∀ i, 0 ≤ i < Z.of_nat (length data) →
      data !! Z.to_nat i = Some (content w' d (o + i));
  writev_frame w d o data d' b :
    d' ≠ d ∨ b < o ∨ o + Z.of_nat (length data) ≤ b →
    content (writev w d o data).1 d' b = content w d' b;
  writev_unwritten w d o data d' o' n :
    d' ≠ d → unwritten w d' o' n → unwritten (writev w d o data).1 d' o' n;
  writev_no_panic w d o data : (writev w d o data).2 ≠ Panicked;
  comparev_same w d o data : same_data w (comparev w d o data).1;
  comparev_no_panic w d o data : (comparev w d o data).2 ≠ Panicked;
  lock_same w o n : same_data w (lock_lba_range w o n).1;
  lock_no_panic w o n : (lock_lba_range w o n).2 ≠ Panicked;
  unlock_same w o n : same_data w (unlock_lba_range w o n).1;
  unlock_no_panic w o n : (unlock_lba_range w o n).2 ≠ Panicked;
}.

Module Copy.
Section Copy.
Context {W Blk : Type} `{!BlockDevices W Blk}.
Variable SEGMENT_SIZE : Z.
Variable d : Desc.RebuildDescriptor.

(** [adjusted_iov]: the copy must fit the task's buffer. *)
Definition adjusted_iov (offset_blk : Z) : outcome RebuildError unit :=
  let iov_len := wrap64 (Desc.get_segment_size_blks d offset_blk * Desc.block_size d) in
  assert (iov_len <=? SEGMENT_SIZE).

(** [None]: the segment is not allocated in the source. *)
Definition read_src_segment (offset_blk : Z) (opts : ReadOptions)
    : ST W RebuildError (option (list Blk)) := λ w,
  match readv w (Desc.src_device d) offset_blk (Desc.get_segment_size_blks d offset_blk) opts with
  | (w', Ok data) => (w', Ok (Some data))
  | (w', Err (ReadFailed (NvmeError UNWRITTEN_BLOCK) _ _)) => (w', Ok None)
  | (w', Err err) => (w', Err (ReadIoFailed err (Desc.src_uri d)))
  | (w', Panicked) => (w', Panicked)
  end.

Definition write_dst_segment (offset_blk : Z) (iovs : list Blk) : ST W RebuildError unit := λ w,
  let '(w', r) := writev w (Desc.dst_device d) offset_blk iovs in
  (w', map_err (λ err, WriteIoFailed err (Desc.dst_uri d)) r).

Definition verify_failure (offset_blk : Z) : outcome RebuildError unit :=
  match verify_mode (Desc.options d) with
  | VerifyNone => Ok tt
  | VerifyFail =>
      Err (VerifyCompareFailed (Desc.dst_uri d)
             ("Rebuild job '" +:+ Desc.src_uri d +:+ "' -> '" +:+ Desc.dst_uri d +:+
              "': verification failed at segment " +:+ pretty.pretty offset_blk))
  | VerifyPanic => Panicked
  end.

(** Read the source again and compare the destination with it. *)
Definition verify_segment (offset_blk : Z) : ST W RebuildError unit := λ w,
  match readv w (Desc.src_device d) offset_blk (Desc.get_segment_size_blks d offset_blk) ReadNone with
  | (w', Ok data) =>
      match comparev w' (Desc.dst_device d) offset_blk data with
      | (w'', Ok _) => (w'', Ok tt)
      | (w'', Err (CompareFailed (NvmeError Media_COMPARE_FAILURE) _ _)) =>
          (w'', verify_failure offset_blk)
      | (w'', Err err) => (w'', Err (VerifyIoFailed err (Desc.dst_uri d)))
      | (w'', Panicked) => (w'', Panicked)
      end
  | (w', Err err) => (w', Err (VerifyIoFailed err (Desc.dst_uri d)))
  | (w', Panicked) => (w', Panicked)
  end.

(** Returns true if a write transfer took place. *)
Definition copy_one (offset_blk : Z) : ST W RebuildError bool :=
  _ ← ST.lift (adjusted_iov offset_blk);
  r ← read_src_segment offset_blk (read_opts (Desc.options d));
  match r with
  | None => mret false
  | Some iovs =>
      _ ← write_dst_segment offset_blk iovs;
      _ ← match verify_mode (Desc.options d) with
          | VerifyNone => mret tt
          | _ => verify_segment offset_blk
          end;
      mret true
  end.

(** The nexus copier locks the range on the nexus, whose data partition
    starts at the range. *)
Definition nexus_copy_segment (blk : Z) : ST W RebuildError bool := λ w,
  let len := Desc.get_segment_size_blks d blk in
  let off := wrap64 (blk - Desc.range_start d) in
  match lock_lba_range w off len with
  | (w1, Ok _) =>
      match copy_one blk w1 with
      | (w2, Panicked) => (w2, Panicked)
      | (w2, result) =>
          match unlock_lba_range w2 off len with
          | (w3, Ok _) => (w3, result)
          | (w3, Err e) => (w3, Err (RangeUnlockFailed blk len e))
          | (w3, Panicked) => (w3, Panicked)
          end
      end
  | (w1, Err e) => (w1, Err (RangeLockFailed blk len e))
  | (w1, Panicked) => (w1, Panicked)
  end.

(** The partial sequential copier, over any copier, keeps the rebuild map. *)
Definition partial_copy_segment {B} `{!BitVec B} (copier : Z → ST W RebuildError bool)
    (blk : Z) : ST (W * RMap.RebuildMap B) RebuildError bool := λ '(w, map),
  match RMap.is_blk_clean map blk with
  | Ok true => ((w, map), Ok false)
  | Ok false =>
      match copier blk w with
      | (w', Ok b) =>
          match RMap.blk_clean map blk with
          | Ok map' => ((w', map'), Ok b)
          | Err e => ((w', map), Err e)
          | Panicked => ((w', map), Panicked)
          end
      | (w', r) => ((w', map), r)
      end
  | Err e => ((w, map), Err e)
  | Panicked => ((w, map), Panicked)
  end.

End Copy.
End Copy.

(** ** What a copy guarantees *)

Module CopyFacts.
Section CopyFacts.
Context {W Blk : Type} `{!BlockDevices W Blk, !BlockDevicesLaws W Blk}.
Variable SEGMENT_SIZE : Z.
Variable d : Desc.RebuildDescriptor.
Hypothesis Hwf : Desc.wf d.
Hypothesis Hblock : 0 < Desc.block_size d.
Hypothesis Hbuf : Desc.segment_size_blks d * Desc.block_size d ≤ SEGMENT_SIZE < 2^64.
Hypothesis Hverify : verify_mode (Desc.options d) ≠ VerifyPanic.

Definition seg_len (blk : Z) : Z := Z.min (Desc.segment_size_blks d) (Desc.range_end d - blk).

(** The destination holds the source's data on the segment at [blk], or the
    source has never been written there. *)
Definition synced (w : W) (blk : Z) : Prop :=
  unwritten w (Desc.src_device d) blk (seg_len blk) ∨
  ∀ b, blk ≤ b < blk + seg_len blk →
    content w (Desc.dst_device d) b = content w (Desc.src_device d) b.

(** [w'] differs from [w] at most on the destination's segment at [blk]. *)
Definition frame (blk : Z) (w w' : W) : Prop :=
  (∀ dev b, dev ≠ Desc.dst_device d ∨ b < blk ∨ blk + seg_len blk ≤ b →
     content w' dev b = content w dev b) ∧
  (∀ o n, unwritten w (Desc.src_device d) o n → unwritten w' (Desc.src_device d) o n).

Lemma frame_trans blk w1 w2 w3 : frame blk w1 w2 → frame blk w2 w3 → frame blk w1 w3.
Proof.
  intros [H1 H2] [H3 H4]. split; [|eauto].
  intros dev b Hb. rewrite H3, H1 by done. done.
Qed.

Lemma same_frame blk w w' : same_data w w' → frame blk w w'.
Proof. intros [H1 H2]. split; eauto. Qed.

Lemma frame_synced blk blk' w w' :
  frame blk w w' → blk' + seg_len blk' ≤ blk ∨ blk + seg_len blk ≤ blk' →
  synced w blk' → synced w' blk'.
Proof.
  intros [Hc Hu] Hdisj [H|H]; [left; eauto|right].
  intros b Hb. rewrite !Hc; [by apply H|left; apply Hwf|right; lia].
Qed.

Lemma same_synced w w' blk : same_data w w' → synced w blk → synced w' blk.
Proof.
  intros [Hc Hu] [H|H]; [left; eauto|right]. intros b Hb. rewrite !Hc. by apply H.
Qed.

Lemma adjusted_iov_ok blk :
  0 ≤ blk < Desc.range_end d → Copy.adjusted_iov SEGMENT_SIZE d blk = Ok tt.
Proof using Hwf Hblock Hbuf.
  clear Hverify. intros Hb. pose proof Hwf as []. unfold Copy.adjusted_iov.
  rewrite Desc.get_segment_size_ok by done.
  rewrite wrap64_small by (unfold is_u64; nia).
  unfold assert. destruct (Z.leb_spec (Z.min (Desc.segment_size_blks d)
    (Desc.range_end d - blk) * Desc.block_size d) SEGMENT_SIZE); [done|nia].
Qed.

Lemma read_src_spec blk opts w w' r :
  0 ≤ blk < Desc.range_end d →
  Copy.read_src_segment d blk opts w = (w', r) →
  same_data w w' ∧ r ≠ Panicked ∧
  (r = Ok None → unwritten w (Desc.src_device d) blk (seg_len blk)) ∧
  (∀ data, r = Ok (Some data) →
     length data = Z.to_nat (seg_len blk) ∧
     ∀ i, 0 ≤ i < seg_len blk → data !! Z.to_nat i = Some (content w (Desc.src_device d) (blk + i))).
Proof.
  intros Hb. unfold Copy.read_src_segment. rewrite Desc.get_segment_size_ok by done.
  fold (seg_len blk).
  pose proof (readv_same w (Desc.src_device d) blk (seg_len blk) opts) as Hsame.
  pose proof (readv_no_panic w (Desc.src_device d) blk (seg_len blk) opts) as Hnp.
  destruct (readv w (Desc.src_device d) blk (seg_len blk) opts) as [w1 [data|e|]] eqn:Hr;
    simpl in *; [..|done].
  - intros [= <- <-]. split_and!; try done.
    intros data' [= <-]. by eapply readv_ok.
  - intros Heq.
    assert (w' = w1) by (repeat case_match; by simplify_eq). subst w'.
    split; [done|].
    repeat case_match; simplify_eq; split_and!; try done.
    intros _. by eapply readv_unwritten.
Qed.

Lemma write_dst_spec blk data w w' r :
  length data = Z.to_nat (seg_len blk) → 0 ≤ seg_len blk →
  Copy.write_dst_segment d blk data w = (w', r) →
  frame blk w w' ∧ r ≠ Panicked ∧
  (r = Ok tt → ∀ i, 0 ≤ i < seg_len blk →
     data !! Z.to_nat i = Some (content w' (Desc.dst_device d) (blk + i))).
Proof.
  intros Hlen Hpos. unfold Copy.write_dst_segment.
  pose proof (writev_no_panic w (Desc.dst_device d) blk data) as Hnp.
  pose proof (writev_frame w (Desc.dst_device d) blk data) as Hf.
  pose proof (writev_unwritten w (Desc.dst_device d) blk data) as Hu.
  destruct (writev w (Desc.dst_device d) blk data) as [w1 [[]|e|]] eqn:Hw; simpl in *; [..|done];
    intros [= <- <-]; (split; [split|split; [done|]]).
  - intros dev b Hb. apply Hf. rewrite Hlen. destruct Hb as [?|?]; [by left|right; lia].
  - intros o n. apply Hu. apply Hwf.
  - intros _ i Hi. eapply writev_ok; [done|]. lia.
  - intros dev b Hb. apply Hf. rewrite Hlen. destruct Hb as [?|?]; [by left|right; lia].
  - intros o n. apply Hu. apply Hwf.
  - done.
Qed.

Lemma verify_spec blk w w' r :
  Copy.verify_segment d blk w = (w', r) → same_data w w' ∧ r ≠ Panicked.
Proof.
  assert (Hvf : Copy.verify_failure d blk ≠ Panicked).
  { unfold Copy.verify_failure. by destruct (verify_mode (Desc.options d)). }
  unfold Copy.verify_segment.
  pose proof (readv_same w (Desc.src_device d) blk (Desc.get_segment_size_blks d blk) ReadNone) as Hs.
  pose proof (readv_no_panic w (Desc.src_device d) blk (Desc.get_segment_size_blks d blk) ReadNone) as Hnp.
  destruct (readv w _ blk _ ReadNone) as [w1 [data|e|]]; simpl in *; [|by intros [= <- <-]|done].
  pose proof (comparev_same w1 (Desc.dst_device d) blk data) as Hs'.
  pose proof (comparev_no_panic w1 (Desc.dst_device d) blk data) as Hnp'.
  assert (Htr : ∀ w2, same_data w1 w2 → same_data w w2).
  { intros w2 [H1 H2]. destruct Hs as [H3 H4]. split; intros; [by rewrite H1|auto]. }
  destruct (comparev w1 _ blk data) as [w2 [[]|e|]]; simpl in *; [by intros [= <- <-]; auto| |done].
  intros Heq. repeat case_match; simplify_eq; eauto.
Qed.

(** Copying a segment changes only that segment of the destination, never
    panics, and on success leaves the segment synced. *)
Lemma copy_one_spec blk w w' r :
  Desc.range_start d ≤ blk < Desc.range_end d →
  Copy.copy_one SEGMENT_SIZE d blk w = (w', r) →
  frame blk w w' ∧ r ≠ Panicked ∧ (∀ t, r = Ok t → synced w' blk).
Proof.
  intros Hb. pose proof Hwf as []. unfold Copy.copy_one, mbind, ST_bind, ST.lift.
  rewrite adjusted_iov_ok by lia.
  destruct (Copy.read_src_segment d blk _ w) as [w1 r1] eqn:Hr.
  destruct (read_src_spec blk _ w w1 r1 ltac:(lia) Hr) as (Hs1 & Hnp & Hnone & Hsome).
  destruct r1 as [[data|]|e|]; [|..|done].
  - destruct (Hsome data eq_refl) as [Hlen Hdata].
    destruct (Copy.write_dst_segment d blk data w1) as [w2 r2] eqn:Hw.
    destruct (write_dst_spec blk data w1 w2 r2 Hlen ltac:(unfold seg_len; lia) Hw)
      as (Hf & Hnp2 & Hwrote).
    assert (Hfr : frame blk w w2) by (eapply frame_trans; [by apply same_frame|done]).
    destruct r2 as [[]|e|]; [|by intros [= <- <-]|done].
    assert (Hsync : synced w2 blk).
    { right. intros b Hbb. specialize (Hwrote eq_refl (b - blk) ltac:(lia)).
      rewrite Hdata in Hwrote by lia. destruct Hfr as [Hc _].
      rewrite (Hc (Desc.src_device d) b) by (left; done).
      replace (blk + (b - blk)) with b in Hwrote by lia. by simplify_eq. }
    pose proof (verify_spec blk w2) as Hvs.
    destruct (verify_mode (Desc.options d)) eqn:Hvm;
      [by intros [= <- <-]| |done].
    destruct (Copy.verify_segment d blk w2) as [w3 r3] eqn:Hv.
    destruct (Hvs w3 r3 eq_refl) as [Hs3 Hnp3].
    assert (frame blk w w3) by (eapply frame_trans; [done|by apply same_frame]).
    destruct r3 as [[]|e|]; [| |done]; intros [= <- <-]; split_and!; try done.
    intros _ _. by eapply same_synced.
  - intros [= <- <-]. split_and!; [by apply same_frame|done|].
    intros _ _. eapply same_synced; [done|]. left. by apply Hnone.
  - intros [= <- <-]. split_and!; [by apply same_frame|done..].
Qed.

(** The same holds of the nexus copier. *)
Lemma nexus_copy_spec blk w w' r :
  Desc.range_start d ≤ blk < Desc.range_end d →
  Copy.nexus_copy_segment SEGMENT_SIZE d blk w = (w', r) →
  frame blk w w' ∧ r ≠ Panicked ∧ (∀ t, r = Ok t → synced w' blk).
Proof.
  intros Hb. unfold Copy.nexus_copy_segment.
  set (len := Desc.get_segment_size_blks d blk). set (off := wrap64 (blk - Desc.range_start d)).
  pose proof (lock_same w off len) as Hl. pose proof (lock_no_panic w off len) as Hlp.
  destruct (lock_lba_range w off len) as [w1 [[]|e|]]; simpl in *; [| |done].
  2:{ intros [= <- <-]. split_and!; [by apply same_frame|done..]. }
  destruct (Copy.copy_one SEGMENT_SIZE d blk w1) as [w2 r2] eqn:Hc.
  destruct (copy_one_spec blk w1 w2 r2 Hb Hc) as (Hf & Hnp & Hsync).
  assert (Hf2 : frame blk w w2) by (eapply frame_trans; [by apply same_frame|done]).
  pose proof (unlock_same w2 off len) as Hu. pose proof (unlock_no_panic w2 off len) as Hup.
  destruct (unlock_lba_range w2 off len) as [w3 [[]|e|]]; simpl in *; [| |by destruct r2].
  - destruct r2 as [t|e|]; [| |done]; intros [= <- <-]; split_and!; try done;
      try (by eapply frame_trans; [done|by apply same_frame]).
    intros t' [= <-]. eapply same_synced; [done|]. by eapply Hsync.
  - destruct r2 as [t|e'|]; [| |done]; intros [= <- <-]; split_and!; try done;
      by (eapply frame_trans; [done|by apply same_frame]).
Qed.

End CopyFacts.
End CopyFacts.
