(* ===== verification/Rebuilders.v ===== *)
(** * Range rebuilders

    How a rebuild walks its device ([rebuild/rebuilders.rs]): the peekable
    iterator, the full rebuild, the partial rebuild over a segment map and
    the partial sequential rebuild over a rebuild map. *)

From S2P Require Import Prelude Errors SegmentMap IoLog RebuildCopy.
Import Rebuild.

(** ** Iterators *)

Class Iterator (I A : Type) := inext : I → I * option A.

(** [Range<u64>::step_by]: the standard library's iterator. *)
Record StepBy := mkStepBy { sb_next : Z; sb_end : Z; sb_step : Z }.

#[global] Instance StepBy_Iterator : Iterator StepBy Z := λ s,
  if sb_next s <? sb_end s
  then (mkStepBy (sb_next s + sb_step s) (sb_end s) (sb_step s), Some (sb_next s))
  else (s, None).

(** [(start..end).step_by(step)] panics on a zero step. *)
Definition step_by (start end_ step : Z) : outcome RebuildError StepBy :=
  _ ← assert (negb (step =? 0)); Ok (mkStepBy start end_ step).

(** [bit_vec.into_iter().enumerate()] *)
Record Enumerate := mkEnumerate { en_index : nat; en_rest : list bool }.

#[global] Instance Enumerate_Iterator : Iterator Enumerate (nat * bool) := λ e,
  match en_rest e with
  | [] => (e, None)
  | b :: bs => (mkEnumerate (S (en_index e)) bs, Some (en_index e, b))
  end.

Module Peek.
Section Peek.
Context {I A : Type} `{!Iterator I A}.

Record PeekableIterator := mkPeek { iter : I; peek : option A }.

Definition new (it : I) : PeekableIterator :=
  let '(it', x) := inext it in mkPeek it' x.

(** [std::mem::replace(&mut self.peek, self.iter.next())] *)
Definition next (p : PeekableIterator) : PeekableIterator * option A :=
  let '(it', x) := inext (iter p) in (mkPeek it' x, peek p).

End Peek.
Arguments PeekableIterator : clear implicits.
End Peek.

(** ** Rebuilders *)

(** What the job uses of a rebuilder; [S] is what its copier works on. *)
Class RangeRebuilder (R S : Type) := {
  rr_next : R → R * option Z;
  rr_peek_next : R → option Z;
  rr_blocks_remaining : R → S → outcome RebuildError Z;
  rr_is_partial : bool;
}.

Module Full.

Record FullRebuild := mkFull {
  range : Peek.PeekableIterator StepBy Z;
  desc : Desc.RebuildDescriptor;
}.

Definition new (d : Desc.RebuildDescriptor) : outcome RebuildError FullRebuild :=
  it ← step_by (Desc.range_start d) (Desc.range_end d) (Desc.segment_size_blks d);
  Ok (mkFull (Peek.new it) d).

Definition next (r : FullRebuild) : FullRebuild * option Z :=
  let '(p, x) := Peek.next (range r) in (mkFull p (desc r), x).

Definition peek_next (r : FullRebuild) : option Z := Peek.peek (range r).

Definition blocks_remaining (r : FullRebuild) : Z :=
  match peek_next r with
  | Some b => wrap64 (Z.max (Desc.range_end (desc r)) b - b)
  | None => 0
  end.

#[global] Instance full_RangeRebuilder {S} : RangeRebuilder FullRebuild S := {
  rr_next := next;
  rr_peek_next := peek_next;
  rr_blocks_remaining r _ := Ok (blocks_remaining r);
  rr_is_partial := false;
}.

End Full.

Module Partial.

Record PartialRebuild := mkPartial {
  range : Peek.PeekableIterator Enumerate (nat * bool);
  segment_size_blks : Z;
  total_blks : Z;
  rebuilt_blks : Z;
}.

Section Partial.
Context {B : Type} `{!BitVec B}.

Definition new (map : SegMap.SegmentMap B) : outcome RebuildError PartialRebuild :=
  total ← SegMap.count_dirty_blks map;
  ssb ← SegMap.segment_size_blks map;
  Ok (mkPartial (Peek.new (mkEnumerate 0 (bv_iter (SegMap.segments map)))) ssb total 0).

End Partial.

(** [for (blk, is_set) in self.range.by_ref()]: advances until a set bit,
    which takes at most one step per item left. *)
Fixpoint next_loop (fuel : nat) (r : PartialRebuild) : PartialRebuild * option Z :=
  match fuel with
  | O => (r, None)
  | S fuel =>
      let '(p, x) := Peek.next (range r) in
      let r' := mkPartial p (segment_size_blks r) (total_blks r) (rebuilt_blks r) in
      match x with
      | None => (r', None)
      | Some (blk, true) =>
          (mkPartial p (segment_size_blks r) (total_blks r)
             (wrap64 (rebuilt_blks r + segment_size_blks r)), Some (Z.of_nat blk))
      | Some (_, false) => next_loop fuel r'
      end
  end.

Definition next (r : PartialRebuild) : PartialRebuild * option Z :=
  next_loop (2 + length (en_rest (Peek.iter (range r)))) r.

Definition peek_next (r : PartialRebuild) : option Z :=
  (λ p, Z.of_nat p.1) <$> Peek.peek (range r).

Definition blocks_remaining (r : PartialRebuild) : Z :=
  wrap64 (total_blks r - rebuilt_blks r).

#[global] Instance partial_RangeRebuilder {S} : RangeRebuilder PartialRebuild S := {
  rr_next := next;
  rr_peek_next := peek_next;
  rr_blocks_remaining r _ := Ok (blocks_remaining r);
  rr_is_partial := false;
}.

End Partial.

Module PartialSeq.

Record PartialSeqRebuild := mkPartialSeq {
  range : Peek.PeekableIterator StepBy Z;
}.

Definition new (d : Desc.RebuildDescriptor) : outcome RebuildError PartialSeqRebuild :=
  it ← step_by (Desc.range_start d) (Desc.range_end d) (Desc.segment_size_blks d);
  Ok (mkPartialSeq (Peek.new it)).

Definition next (r : PartialSeqRebuild) : PartialSeqRebuild * option Z :=
  let '(p, x) := Peek.next (range r) in (mkPartialSeq p, x).

Definition peek_next (r : PartialSeqRebuild) : option Z := Peek.peek (range r).

(** The map is shared with the copier. *)
#[global] Instance partial_seq_RangeRebuilder {W B} `{!BitVec B} :
    RangeRebuilder PartialSeqRebuild (W * RMap.RebuildMap B) := {
  rr_next := next;
  rr_peek_next := peek_next;
  rr_blocks_remaining _ s := RMap.count_dirty_blks s.2;
  rr_is_partial := true;
}.

End PartialSeq.

(** ** The segments of a range *)

Module Segs.
Section Segs.

Definition count (start end_ step : Z) : nat := Z.to_nat ((end_ - start + step - 1) / step).

(** The first blocks of the segments from [start] on. *)
Definition seq_from (start end_ step : Z) : list Z :=
  (λ k, start + Z.of_nat k * step) <$> seq 0 (count start end_ step).

Lemma count_done start end_ step : 0 < step → end_ ≤ start → count start end_ step = O.
Proof.
  intros. unfold count. assert ((end_ - start + step - 1) / step < 1)
    by (apply Z.div_lt_upper_bound; lia). lia.
Qed.

Lemma count_step start end_ step :
  0 < step → start < end_ → count start end_ step = S (count (start + step) end_ step).
Proof.
  intros. unfold count.
  replace (end_ - start + step - 1) with (1 * step + (end_ - (start + step) + step - 1)) by lia.
  rewrite Z.div_add_l by lia.
  assert (0 ≤ (end_ - (start + step) + step - 1) / step) by (apply Z.div_pos; lia).
  lia.
Qed.

Lemma seq_from_done start end_ step : 0 < step → end_ ≤ start → seq_from start end_ step = [].
Proof. intros. unfold seq_from. by rewrite count_done. Qed.

Lemma seq_from_step start end_ step :
  0 < step → start < end_ →
  seq_from start end_ step = start :: seq_from (start + step) end_ step.
Proof.
  intros. unfold seq_from. rewrite count_step by done. simpl. f_equal; [lia|].
  rewrite <- fmap_S_seq, <- list_fmap_compose. apply list_fmap_ext. intros; simpl; lia.
Qed.

Lemma count_bounds start end_ step :
  0 < step → start < end_ →
  (Z.of_nat (count start end_ step) - 1) * step < end_ - start
    ≤ Z.of_nat (count start end_ step) * step.
Proof.
  intros. unfold count.
  pose proof (Z.div_mod (end_ - start + step - 1) step ltac:(lia)).
  pose proof (Z.mod_pos_bound (end_ - start + step - 1) step ltac:(lia)).
  assert (0 ≤ (end_ - start + step - 1) / step) by (apply Z.div_pos; lia).
  rewrite Z2Nat.id by done. nia.
Qed.

Lemma elem_of_seq_from start end_ step x :
  0 < step →
  x ∈ seq_from start end_ step ↔ ∃ k, 0 ≤ k ∧ x = start + k * step ∧ x < end_.
Proof.
  intros Hs. destruct (Z.le_gt_cases end_ start).
  { rewrite seq_from_done by done. split; [by intros ?%not_elem_of_nil|].
    intros (k & ? & -> & ?). nia. }
  pose proof (count_bounds start end_ step Hs ltac:(lia)).
  unfold seq_from. rewrite list_elem_of_fmap. split.
  - intros (k & -> & Hk%elem_of_seq). exists (Z.of_nat k). split_and!; try lia. nia.
  - intros (k & ? & -> & ?). exists (Z.to_nat k). split; [lia|]. apply elem_of_seq. nia.
Qed.

Lemma seq_from_NoDup start end_ step : 0 < step → NoDup (seq_from start end_ step).
Proof.
  intros. unfold seq_from. apply NoDup_fmap_2; [|apply NoDup_seq].
  intros a b ?. nia.
Qed.

Lemma length_seq_from start end_ step : length (seq_from start end_ step) = count start end_ step.
Proof. unfold seq_from. by rewrite length_fmap, length_seq. Qed.

(** *** The segments of a descriptor *)

Variable d : Desc.RebuildDescriptor.
Hypothesis Hwf : Desc.wf d.

Definition all : list Z :=
  seq_from (Desc.range_start d) (Desc.range_end d) (Desc.segment_size_blks d).

Lemma all_in_range blk : blk ∈ all → Desc.range_start d ≤ blk < Desc.range_end d.
Proof using Hwf.
  destruct Hwf. unfold all. rewrite elem_of_seq_from by lia. intros (k & ? & ? & ?). nia.
Qed.

(** Every block of the range lies in the segment of some element of [all]. *)
Lemma all_cover b :
  Desc.range_start d ≤ b < Desc.range_end d →
  ∃ s, s ∈ all ∧ s ≤ b < s + CopyFacts.seg_len d s.
Proof using Hwf.
  intros Hb. destruct Hwf as [? ? [? ?] ?]. unfold CopyFacts.seg_len.
  set (st := Desc.segment_size_blks d) in *.
  pose proof (Z.div_mod (b - Desc.range_start d) st ltac:(lia)).
  pose proof (Z.mod_pos_bound (b - Desc.range_start d) st ltac:(lia)).
  exists (Desc.range_start d + (b - Desc.range_start d) / st * st). split.
  - unfold all. rewrite elem_of_seq_from by lia. eexists. split; [|split; [done|nia]].
    apply Z.div_pos; lia.
  - nia.
Qed.

(** Segments do not overlap. *)
Lemma all_disjoint a b :
  a ∈ all → b ∈ all → a ≠ b →
  a + CopyFacts.seg_len d a ≤ b ∨ b + CopyFacts.seg_len d b ≤ a.
Proof using Hwf.
  destruct Hwf as [? ? [? ?] ?]. unfold all, CopyFacts.seg_len.
  rewrite !elem_of_seq_from by lia.
  intros (k & ? & -> & ?) (k' & ? & -> & ?) Hne.
  destruct (Z.lt_trichotomy k k') as [|[->|]]; [left; nia|done|right; nia].
Qed.

End Segs.
End Segs.
