(* ===== verification/RebuildJob.v ===== *)
(** * The rebuild job

    The backend manager of a rebuild ([rebuild/rebuild_job_backend.rs]), its
    task pool ([rebuild/rebuild_task.rs]) and the frontend that controls it
    ([rebuild/rebuild_job.rs]), as a transition system.  The manager is an
    asynchronous loop: [Pc] says at which await point it is, and every
    transition runs it from one await point to the next.  Copy tasks complete
    in any order, and frontend operations happen at any time. *)

From S2P Require Import Prelude Errors SegmentMap IoLog RebuildState RebuildCopy Rebuilders.
Import Rebuild.

Module Job.

Record TaskResult := mkResult {
  tr_id : nat;
  tr_blk : Z;
  tr_error : option RebuildError;
  is_transferred : bool;
}.

(** The task pool.  [futures] are the scheduled copies that have not
    finished, [channel] the results sent and not yet received. *)
Record RebuildTasks := mkTasks {
  active : Z;
  total : nat;
  segments_done : Z;
  segments_transferred : Z;
  futures : list (nat * Z);
  channel : list TaskResult;
}.

Inductive RebuildJobRequest := WakeUp | GetStats.

(** The await points of [run]: the head of the outer loop, [info_chan.recv],
    and, in the inner loop, [await_one_task] inside [manage_tasks] or inside
    [await_all_tasks].  The flag says that the frontend is gone, in which
    case messages are no longer polled. *)
Inductive Pc :=
| AtTop
| WaitMsg
| Managing (gone : bool)
| AwaitingAll (gone : bool)
| Exited.

Record Job (R S : Type) := mkJob {
  states : RS.RebuildStates;
  tasks : RebuildTasks;
  range : R;
  store : S;
  msgs : list RebuildJobRequest;
  notified : list RS.RebuildState;
  replies : list RS.RebuildStats;
  pc : Pc;
}.
Arguments mkJob {R S}.
Arguments states {R S}.
Arguments tasks {R S}.
Arguments range {R S}.
Arguments store {R S}.
Arguments msgs {R S}.
Arguments notified {R S}.
Arguments replies {R S}.
Arguments pc {R S}.

Section Job.
Context {R S : Type} `{!RangeRebuilder R S} `{!RS.DebugFmt}.
(** The copier of the backend, its descriptor and the clock. *)
Variable copy_segment : Z → ST S RebuildError bool.
Variable d : Desc.RebuildDescriptor.
Variable now : Z.

Local Abbreviation Job := (Job R S).
Implicit Types j : Job.

Definition with_states (j : Job) (s : RS.RebuildStates) : Job :=
  mkJob s (tasks j) (range j) (store j) (msgs j) (notified j) (replies j) (pc j).
Definition with_tasks (j : Job) (t : RebuildTasks) : Job :=
  mkJob (states j) t (range j) (store j) (msgs j) (notified j) (replies j) (pc j).
Definition with_range (j : Job) (r : R) : Job :=
  mkJob (states j) (tasks j) r (store j) (msgs j) (notified j) (replies j) (pc j).
Definition with_store (j : Job) (s : S) : Job :=
  mkJob (states j) (tasks j) (range j) s (msgs j) (notified j) (replies j) (pc j).
Definition with_msgs (j : Job) (m : list RebuildJobRequest) : Job :=
  mkJob (states j) (tasks j) (range j) (store j) m (notified j) (replies j) (pc j).
Definition with_pc (j : Job) (p : Pc) : Job :=
  mkJob (states j) (tasks j) (range j) (store j) (msgs j) (notified j) (replies j) p.
Definition notify (j : Job) : Job :=
  mkJob (states j) (tasks j) (range j) (store j) (msgs j)
    (notified j ++ [RS.current (states j)]) (replies j) (pc j).
Definition reply (j : Job) (s : RS.RebuildStats) : Job :=
  mkJob (states j) (tasks j) (range j) (store j) (msgs j) (notified j) (replies j ++ [s]) (pc j).

(** *** Task pool *)

Definition tasks_new (task_count : nat) : RebuildTasks := mkTasks 0 task_count 0 0 [] [].

(** [await_one_task] on a received result. *)
Definition receive (t : RebuildTasks) (r : TaskResult) (rest : list TaskResult) : RebuildTasks :=
  let ok := match tr_error r with None => true | Some _ => false end in
  mkTasks (active t - 1) (total t)
    (if ok then segments_done t + 1 else segments_done t)
    (if ok && is_transferred r then segments_transferred t + 1 else segments_transferred t)
    (futures t) rest.

(** [schedule_segment_rebuild]; [self.tasks[id]] panics out of range. *)
Definition schedule_segment_rebuild (t : RebuildTasks) (id : nat) (blk : Z)
    : outcome RebuildError RebuildTasks :=
  _ ← assert (bool_decide (id < total t)%nat);
  Ok (mkTasks (active t) (total t) (segments_done t) (segments_transferred t)
        (futures t ++ [(id, blk)]) (channel t)).

Definition inc_active (t : RebuildTasks) : RebuildTasks :=
  mkTasks (active t + 1) (total t) (segments_done t) (segments_transferred t)
    (futures t) (channel t).

(** The result a copy sends when it ends. *)
Definition task_result (id : nat) (blk : Z) (r : outcome RebuildError bool) : option TaskResult :=
  match r with
  | Ok b => Some (mkResult id blk None b)
  | Err e => Some (mkResult id blk (Some e) false)
  | Panicked => None
  end.

(** *** Backend manager *)

Definition exec_internal_op (j : Job) (op : RS.RebuildOperation) : Job :=
  with_states j (RS.exec_op op true (states j)).1.

Definition complete (j : Job) : Job := exec_internal_op j RS.Complete.

Definition fail_with (j : Job) (e : RebuildError) : Job :=
  let j := exec_internal_op j RS.Fail in
  with_states j (RS.set_error (states j) (Some e)).

Definition stats (j : Job) : outcome RebuildError RS.RebuildStats :=
  let blocks_total := wrap64 (Desc.range_end d - Desc.range_start d) in
  let blocks_recovered :=
    Z.min (wrap64 (segments_done (tasks j) * Desc.segment_size_blks d)) blocks_total in
  let blocks_transferred :=
    Z.min (wrap64 (segments_transferred (tasks j) * Desc.segment_size_blks d)) blocks_total in
  blocks_remaining ← rr_blocks_remaining (range j) (store j);
  progress ← u64_div (wrap64 (blocks_recovered * 100)) blocks_total;
  _ ← assert ((progress <? 100) || (blocks_remaining =? 0));
  Ok (RS.mkStats blocks_total blocks_recovered blocks_transferred blocks_remaining progress
        (Desc.segment_size_blks d) (Desc.block_size d) (Z.of_nat (total (tasks j)))
        (active (tasks j)) (Desc.start_time d) (rr_is_partial (R := R) (S := S)) None).

(** [schedule_task_by_id] of the backend and [start_task_by_id]. *)
Definition start_task_by_id (j : Job) (id : nat) : outcome RebuildError (Job * bool) :=
  match rr_next (range j) with
  | (r', Some blk) =>
      t ← schedule_segment_rebuild (tasks j) id blk;
      Ok (with_range (with_tasks j (inc_active t)) r', true)
  | (r', None) =>
      let j := with_range j r' in
      Ok (if active (tasks j) =? 0 then complete j else j, false)
  end.

(** [for n in from..total { if !start_task_by_id(n) { break } }] *)
Fixpoint start_tasks (j : Job) (ids : list nat) : outcome RebuildError Job :=
  match ids with
  | [] => Ok j
  | n :: ids =>
      x ← start_task_by_id j n;
      if (x.2 : bool) then start_tasks x.1 ids else Ok x.1
  end.

Definition start_all_tasks (j : Job) : outcome RebuildError Job :=
  _ ← assert (active (tasks j) =? 0);
  j ← start_tasks j (seq 0 (total (tasks j)));
  let j := if active (tasks j) =? 0 then complete j else j in
  _ ← stats j;
  Ok j.

Definition reconcile (j : Job) : outcome RebuildError (Job * RS.RebuildState) :=
  let old := RS.current (states j) in
  let '(s, new) := RS.reconcile (states j) in
  let j := with_states j s in
  if bool_decide (old ≠ new) then
    _ ← stats j;
    Ok (notify j, new)
  else Ok (j, new).

(** [Drop for RebuildJobBackendManager] *)
Definition drop (j : Job) : outcome RebuildError Job :=
  s ← stats j;
  let j := with_states j (RS.set_final_stats (states j) now s) in
  Ok (with_pc (with_msgs
        (foldl (λ j m, match m with GetStats => reply j s | WakeUp => j end) j (msgs j)) []) Exited).

(** Where the inner loop is after a step of [manage_tasks]. *)
Definition continue_at (j : Job) (p : Pc) : Job :=
  with_pc j (if 0 <? active (tasks j) then p else AtTop).

(** One iteration of the outer loop of [run], from its head. *)
Definition run_top (j : Job) : outcome RebuildError Job :=
  x ← reconcile j;
  let '(j, state) := (x : Job * RS.RebuildState) in
  if RS.done state then drop j
  else if negb (RS.running state) then Ok (with_pc j WaitMsg)
  else
    j ← start_all_tasks j;
    Ok (continue_at j (Managing false)).

(** A result received in the loop of [manage_tasks]. *)
Definition manage_result (j : Job) (gone : bool) (r : TaskResult) (rest : list TaskResult)
    : outcome RebuildError Job :=
  let j := with_tasks j (receive (tasks j) r rest) in
  match tr_error r with
  | None =>
      match RS.pending (states j) with
      | None | Some RS.Running =>
          x ← start_task_by_id j (tr_id r);
          Ok (continue_at (x : Job * bool).1 (Managing gone))
      | _ => Ok (continue_at j (AwaitingAll gone))
      end
  | Some e => Ok (continue_at (fail_with j e) (AwaitingAll gone))
  end.

(** A result received in [await_all_tasks]. *)
Definition await_all_result (j : Job) (gone : bool) (r : TaskResult) (rest : list TaskResult)
    : Job :=
  continue_at (with_tasks j (receive (tasks j) r rest)) (AwaitingAll gone).

Definition handle_message (j : Job) (m : option RebuildJobRequest)
    : outcome RebuildError (Job * bool) :=
  match m with
  | Some WakeUp => Ok (j, true)
  | Some GetStats => s ← stats j; Ok (reply j s, true)
  | None => Ok (fail_with j FrontendGone, false)
  end.

(** A message at an await point that polls the channel.  A message received
    by the [select!] drops the [manage_tasks] future, which is then started
    again from its head. *)
Definition message (j : Job) (m : option RebuildJobRequest) : option (outcome RebuildError Job) :=
  match pc j with
  | WaitMsg => Some (x ← handle_message j m; Ok (with_pc (x : Job * bool).1 AtTop))
  | Managing false | AwaitingAll false =>
      Some (x ← handle_message j m;
            let '(j, alive) := (x : Job * bool) in
            Ok (continue_at j (Managing (negb alive))))
  | _ => None
  end.

(** *** Frontend *)

(** The operations the frontend offers: the client operations do not
    override a pending operation, [force_stop] and [force_fail] do. *)
Definition offered (op : RS.RebuildOperation) (override : bool) : bool :=
  match op, override with
  | (RS.Start | RS.Stop | RS.Pause | RS.Resume), false => true
  | (RS.Stop | RS.Fail), true => true
  | _, _ => false
  end.

(** [RebuildJob::exec_op] *)
Definition frontend_op (j : Job) (op : RS.RebuildOperation) (override : bool) : Job :=
  match RS.exec_op op override (states j) with
  | (s, Ok true) => with_msgs (with_states j s) (msgs j ++ [WakeUp])
  | (s, _) => with_states j s
  end.

(** *** Transitions *)

Inductive event :=
| EvTask (i : nat)
| EvTop
| EvResult
| EvMessage
| EvGone
| EvOp (op : RS.RebuildOperation) (override : bool)
| EvGetStats.

(** [None]: the event cannot happen in this state. *)
Definition exec (ev : event) (j : Job) : option (outcome RebuildError Job) :=
  match ev with
  | EvTask i =>
      match futures (tasks j) !! i with
      | Some (id, blk) =>
          let '(s, r) := copy_segment blk (store j) in
          let t := tasks j in
          Some (res ← of_option (task_result id blk r);
                Ok (with_store
                      (with_tasks j (mkTasks (active t) (total t) (segments_done t)
                         (segments_transferred t) (delete i (futures t)) (channel t ++ [res]))) s))
      | None => None
      end
  | EvTop => match pc j with AtTop => Some (run_top j) | _ => None end
  | EvResult =>
      match channel (tasks j), pc j with
      | r :: rest, Managing gone => Some (manage_result j gone r rest)
      | r :: rest, AwaitingAll gone => Some (Ok (await_all_result j gone r rest))
      | _, _ => None
      end
  | EvMessage =>
      match msgs j with
      | m :: rest => message (with_msgs j rest) (Some m)
      | [] => None
      end
  | EvGone => match msgs j with [] => message j None | _ => None end
  | EvOp op override =>
      if offered op override then Some (Ok (frontend_op j op override)) else None
  | EvGetStats =>
      match pc j with
      | Exited => None
      | _ => Some (Ok (with_msgs j (msgs j ++ [GetStats])))
      end
  end.

Definition step (j : Job) (ev : event) (j' : Job) : Prop := exec ev j = Some (Ok j').

(** The states a sequence of events leads to. *)
Inductive reaches (j0 : Job) : list event → Job → Prop :=
| reaches_init : reaches j0 [] j0
| reaches_step evs j ev j' : reaches j0 evs j → step j ev j' → reaches j0 (evs ++ [ev]) j'.

Definition init (task_count : nat) (r : R) (s : S) : Job :=
  mkJob RS.states_default (tasks_new task_count) r s [] [] [] AtTop.

End Job.
End Job.
