(* ===== verification/RebuildJobFacts.v ===== *)
(** * Invariants of the rebuild job

    What a range rebuilder and its copier promise to the job
    ([RebuilderSpec]), and the invariants of the job proved against it: every
    segment is accounted for in exactly one place, no assertion of the manager
    fails, a job whose clients never pause it completes only when every
    segment is in sync, and the manager never deadlocks or loses a wake-up. *)

From S2P Require Import Prelude Errors SegmentMap IoLog RebuildState RebuildCopy Rebuilders RebuildJob.
Import Rebuild Job.

(** The contract between the job and the rebuilder with its copier: the
    rebuilder yields the segments [rr_todo]; a copy that succeeds leaves its
    segment in sync and disturbs no other; the count of remaining blocks is
    zero once everything is in sync. *)
Class RebuilderSpec (R S : Type) `{!RangeRebuilder R S}
    (copy : Z → ST S RebuildError bool) (d : Desc.RebuildDescriptor) := {
  rr_wf : R → Prop;
  rr_todo : R → list Z;
  rr_store_ok : S → Prop;
  rr_synced : S → Z → Prop;
  rr_next_spec r : rr_wf r → ∃ r',
    rr_next (S := S) r = (r', head (rr_todo r)) ∧ rr_wf r' ∧ rr_todo r' = tail (rr_todo r);
  rr_copy_spec s blk s' res :
    rr_store_ok s → blk ∈ Segs.all d → copy blk s = (s', res) →
    rr_store_ok s' ∧ res ≠ Panicked ∧ (∀ t, res = Ok t → rr_synced s' blk) ∧
    (∀ b, b ∈ Segs.all d → b ≠ blk → rr_synced s b → rr_synced s' b);
  rr_remaining_spec r s : rr_wf r → rr_store_ok s →
    ∃ n, rr_blocks_remaining r s = Ok n ∧
      (rr_todo r = [] → (∀ b, b ∈ Segs.all d → rr_synced s b) → n = 0);
}.

Module JobFacts.
Section JobFacts.
Context {R S : Type} `{!RangeRebuilder R S} `{!RS.DebugFmt}.
Variable copy : Z → ST S RebuildError bool.
Variable d : Desc.RebuildDescriptor.
Context `{!RebuilderSpec R S copy d}.
Variable now : Z.
Hypothesis Hwf : Desc.wf d.

Local Abbreviation Job := (Job R S).
Local Abbreviation exec := (exec copy d now).
Implicit Types j : Job.

(** *** The task pool *)

(** [ok] are the segments whose result was received and had no error, [err]
    those whose copy failed. *)
Record pool (ok err : list Z) (t : RebuildTasks) (r : R) (s : S) : Prop := {
  p_part : Segs.all d ≡ₚ ok ++ err ++ (futures t).*2 ++ (tr_blk <$> channel t) ++ rr_todo r;
  p_done : segments_done t = Z.of_nat (length ok);
  p_xfer : 0 ≤ segments_transferred t ≤ segments_done t;
  p_active : active t = Z.of_nat (length (futures t) + length (channel t));
  p_total : (0 < total t)%nat;
  p_fut_ids : Forall (λ f, (f.1 < total t)%nat) (futures t);
  p_chan_ids : Forall (λ x, (tr_id x < total t)%nat) (channel t);
  p_wf : rr_wf r;
  p_store : rr_store_ok s;
  p_ok : Forall (rr_synced s) ok;
  p_chan : Forall (λ x, tr_error x = None → rr_synced s (tr_blk x)) (channel t);
}.

Definition same_pool j j' : Prop :=
  tasks j' = tasks j ∧ range j' = range j ∧ store j' = store j.

Definition pool_of ok err j := pool ok err (tasks j) (range j) (store j).

Lemma same_pool_of ok err j j' : same_pool j j' → pool_of ok err j → pool_of ok err j'.
Proof. unfold pool_of. by intros (-> & -> & ->). Qed.

Lemma pool_idle ok err t r s : pool ok err t r s → active t = 0 → futures t = [] ∧ channel t = [].
Proof. intros [] Ha. split; apply length_zero_iff_nil; lia. Qed.

Lemma pool_next ok err t r s r' blk id :
  pool ok err t r s → rr_next (S := S) r = (r', Some blk) → (id < total t)%nat →
  pool ok err (mkTasks (active t + 1) (total t) (segments_done t) (segments_transferred t)
    (futures t ++ [(id, blk)]) (channel t)) r' s ∧ rr_todo r = blk :: rr_todo r'.
Proof using Hwf.
  intros [] Hn Hid. destruct (rr_next_spec r p_wf0) as (r1 & H1 & Hr1 & Ht1).
  rewrite Hn in H1. simplify_eq. destruct (rr_todo r) as [|b td] eqn:E; simplify_eq/=.
  split; [|done]. split; simpl; try done.
  - rewrite p_part0, fmap_app. simpl. solve_Permutation.
  - rewrite p_active0, length_app. simpl. lia.
  - apply Forall_app; auto.
Qed.

Lemma pool_next_none ok err t r s r' :
  pool ok err t r s → rr_next (S := S) r = (r', None) →
  pool ok err t r' s ∧ rr_todo r = [] ∧ rr_todo r' = [].
Proof using Hwf.
  intros [] Hn. destruct (rr_next_spec r p_wf0) as (r1 & H1 & Hr1 & Ht1).
  rewrite Hn in H1. simplify_eq. destruct (rr_todo r) as [|b td] eqn:E; simplify_eq/=.
  split; [|done]. split; simpl; try done. by rewrite Ht1.
Qed.

Lemma pool_receive ok err t r s x rest :
  pool ok err t r s → channel t = x :: rest →
  match tr_error x with
  | None => pool (tr_blk x :: ok) err (receive t x rest) r s
  | Some _ => pool ok (tr_blk x :: err) (receive t x rest) r s
  end.
Proof.
  intros [] Hc. rewrite Hc in *. simpl in *.
  apply Forall_cons in p_chan_ids0 as [? ?]. apply Forall_cons in p_chan0 as [Hx ?].
  destruct (tr_error x) eqn:He; split; simpl; rewrite ?He; simpl; try done; try lia;
    try (rewrite p_part0; solve_Permutation).
  - destruct (is_transferred x); lia.
  - by constructor; [apply Hx|].
Qed.

Lemma pool_task ok err t r s i id blk s' o res :
  pool ok err t r s → futures t !! i = Some (id, blk) → copy blk s = (s', o) →
  task_result id blk o = Some res →
  pool ok err (mkTasks (active t) (total t) (segments_done t) (segments_transferred t)
    (delete i (futures t)) (channel t ++ [res])) r s'.
Proof using Hwf.
  intros [] Hi Hcopy Hres.
  assert (Hfut : futures t ≡ₚ (id, blk) :: delete i (futures t)) by by apply delete_Permutation.
  assert (Hdel : Forall (λ f, (f.1 < total t)%nat) (delete i (futures t)))
    by by apply Forall_delete.
  set (fut := delete i (futures t)) in *. clearbody fut.
  set (others := ok ++ err ++ fut.*2 ++ (tr_blk <$> channel t) ++ rr_todo r).
  assert (Hall : Segs.all d ≡ₚ blk :: others)
    by (unfold others; rewrite p_part0, Hfut; simpl; solve_Permutation).
  assert (Hnd : NoDup (blk :: others))
    by (rewrite <- Hall; apply Segs.seq_from_NoDup; apply Hwf).
  apply NoDup_cons in Hnd as [Hnot _].
  assert (Hin : blk ∈ Segs.all d) by (rewrite Hall; apply list_elem_of_here).
  assert (Hsub : ∀ b, b ∈ others → b ∈ Segs.all d ∧ b ≠ blk).
  { intros b Hb. split; [rewrite Hall; by apply list_elem_of_further|by intros ->]. }
  destruct (rr_copy_spec s blk s' o p_store0 Hin Hcopy) as (Hs & Hnp & Hok & Hframe).
  assert (Hid : tr_id res = id ∧ tr_blk res = blk ∧ (tr_error res = None → rr_synced s' blk)).
  { destruct o; simplify_eq/=; split_and!; eauto; done. }
  destruct Hid as (Hid & Hblk & Hsync).
  split; simpl; try done.
  - rewrite p_part0, Hfut, fmap_app. simpl. rewrite Hblk. solve_Permutation.
  - rewrite p_active0, length_app. simpl. apply Permutation_length in Hfut. simpl in *. lia.
  - apply Forall_app. split; [done|]. repeat constructor. rewrite Hid.
    eapply (Forall_lookup_1 _ _ _ _ p_fut_ids0 Hi).
  - apply Forall_forall. intros b Hb. destruct (Hsub b) as [? ?]; [by apply elem_of_app; left|].
    apply Hframe; [done..|]. eapply Forall_forall; eauto.
  - apply Forall_app. split; [|repeat constructor; by rewrite Hblk].
    apply Forall_forall. intros x Hx He. destruct (Hsub (tr_blk x)) as [? ?].
    { unfold others. rewrite !elem_of_app. do 3 right. left. by apply list_elem_of_fmap_2. }
    apply Hframe; [done..|]. rewrite Forall_forall in p_chan0. by apply p_chan0.
Qed.

(** Once every segment is done nothing is left to do, and all is in sync. *)
Lemma pool_all_done ok err t r s :
  pool ok err t r s → length (Segs.all d) = length ok →
  rr_todo r = [] ∧ ∀ b, b ∈ Segs.all d → rr_synced s b.
Proof.
  intros [] Hl. pose proof (Permutation_length p_part0) as Hp. rewrite !length_app in Hp.
  split; [apply length_zero_iff_nil; lia|]. intros b Hb. rewrite p_part0 in Hb.
  assert (err = [] ∧ futures t = [] ∧ channel t = [] ∧ rr_todo r = []) as (-> & E1 & E2 & E3).
  { rewrite !length_fmap in Hp. repeat split; apply length_zero_iff_nil; lia. }
  rewrite E1, E2, E3 in Hb. simpl in Hb. rewrite !app_nil_r in Hb.
  eapply Forall_forall; eauto.
Qed.

(** *** Statistics never fail *)

Lemma stats_ok ok err j : pool_of ok err j → ∃ st, stats d j = Ok st.
Proof using Hwf.
  intros Hp. pose proof Hp as [].
  destruct (rr_remaining_spec (range j) (store j) p_wf0 p_store0) as (n & Hn & Hz).
  unfold stats. rewrite Hn. simpl. destruct Hwf as [Hr He [Hs1 Hs2] _].
  set (tot := Desc.range_end d - Desc.range_start d) in *.
  pose proof (Segs.count_bounds (Desc.range_start d) (Desc.range_end d) _ Hs1 ltac:(lia)) as Hb.
  rewrite <- Segs.length_seq_from in Hb. fold (Segs.all d) in Hb. fold tot in Hb.
  pose proof (Permutation_length p_part0) as Hpl. rewrite length_app in Hpl.
  assert (Hle : (length ok ≤ length (Segs.all d))%nat) by lia.
  rewrite (wrap64_small tot), p_done0, (wrap64_small (Z.of_nat (length ok) * _))
    by (unfold is_u64; nia).
  set (rec := Z.min _ tot). assert (0 ≤ rec ≤ tot) by (unfold rec; nia).
  rewrite (wrap64_small (rec * 100)) by (unfold is_u64; nia).
  unfold u64_div. destruct (Z.eqb_spec tot 0); [lia|]. simpl.
  unfold assert. destruct (Z.ltb_spec ((rec * 100) / tot) 100) as [|Hge]; simpl; [by eexists|].
  assert (rec = tot).
  { assert (tot * 100 ≤ rec * 100); [|lia].
    pose proof (Z.mul_div_le (rec * 100) tot ltac:(lia)). nia. }
  assert (Hl : length (Segs.all d) = length ok) by (unfold rec in *; nia).
  destruct (pool_all_done _ _ _ _ _ Hp Hl) as [Ht Hsync].
  rewrite (Hz Ht Hsync). simpl. by eexists.
Qed.

(** *** The control state *)

Definition awaiting (p : option RS.RebuildState) : bool :=
  match p with None | Some (RS.Running | RS.Completed) => false | Some _ => true end.

Definition doomed (p : option RS.RebuildState) : bool :=
  match p with Some (RS.Stopped | RS.Failed) => true | _ => false end.

Definition completed (s : RS.RebuildStates) : Prop :=
  RS.current s = RS.Completed ∨ RS.pending s = Some RS.Completed.

(** Nothing wakes the manager: no operation is pending, or a [Pause] of a job
    that has not started, which sends no message and is only noticed at the next
    one. *)
Definition settled (s : RS.RebuildStates) : Prop :=
  RS.pending s = None ∨ RS.pending s = Some RS.Paused ∧ RS.current s = RS.Init.

Record ctl j : Prop := {
  c_pc : match pc j with
         | Managing _ | AwaitingAll _ =>
             RS.current (states j) = RS.Running ∧ 0 < active (tasks j)
         | _ => active (tasks j) = 0
         end;
  c_exit : pc j = Exited ↔ RS.done (RS.current (states j)) = true;
  c_done : RS.done (RS.current (states j)) = true → RS.pending (states j) = None;
  c_completed : completed (states j) → active (tasks j) = 0 ∧ rr_todo (range j) = [];
  c_await : (∃ g, pc j = AwaitingAll g) → awaiting (RS.pending (states j)) = true;
  c_wait : pc j = WaitMsg → RS.running (RS.current (states j)) = false ∧
             (settled (states j) ∨ msgs j ≠ []);
}.

(** What holds as long as no client pauses the job: a failed copy is not
    forgotten. *)
Definition clean (err : list Z) (s : RS.RebuildStates) : Prop :=
  RS.current s ≠ RS.Paused ∧
  (RS.pending s ≠ Some RS.Paused ∧ RS.pending s ≠ Some RS.Init) ∧
  (err ≠ [] → doomed (Some (RS.current s)) || doomed (RS.pending s) = true) ∧
  (completed s → err = []).

Definition Inv (np : bool) j : Prop :=
  ∃ ok err, pool_of ok err j ∧ ctl j ∧ (np = true → clean err (states j)).

Lemma frontend_facts op ov s s' r :
  offered op ov = true → RS.exec_op op ov s = (s', r) →
  (RS.done (RS.current s) = true → RS.pending s = None) →
  RS.current s' = RS.current s ∧
  (RS.done (RS.current s) = true → RS.pending s' = None) ∧
  (RS.pending s' = Some RS.Completed → RS.pending s = Some RS.Completed) ∧
  (awaiting (RS.pending s) = true → awaiting (RS.pending s') = true ∨
     RS.running (RS.current s) = false) ∧
  (RS.pending s' = Some RS.Paused → RS.pending s = Some RS.Paused ∨ op = RS.Pause) ∧
  (RS.pending s' = Some RS.Init → RS.pending s = Some RS.Init) ∧
  (doomed (RS.pending s) = true → doomed (RS.pending s') = true) ∧
  (RS.running (RS.current s) = false →
     r = Ok true ∨ RS.pending s' = RS.pending s ∨ settled s').
Proof.
  destruct s as [c p e f]. unfold settled, RS.exec_op, RS.set_pending. simpl.
  destruct op, ov; intros Ho Hx Hd; try discriminate Ho; clear Ho;
    destruct c; simpl in *; try (specialize (Hd eq_refl); subst p); try clear Hd;
    try destruct p as [[]|]; unfold mbind, ST_bind in Hx; simpl in Hx;
    injection Hx as <- <-; simpl; split_and!; intros; try discriminate; auto 7.
Qed.

Lemma complete_running s :
  RS.current s = RS.Running →
  (RS.exec_op RS.Complete true s).1 = RS.with_pending s (Some RS.Completed).
Proof.
  intros Hc. unfold RS.exec_op, RS.set_pending, mbind, ST_bind. rewrite Hc. simpl.
  by destruct (RS.pending s).
Qed.

Lemma fail_running s :
  RS.current s = RS.Running →
  (RS.exec_op RS.Fail true s).1 = RS.with_pending s (Some RS.Failed).
Proof.
  intros Hc. unfold RS.exec_op, RS.set_pending, mbind, ST_bind. rewrite Hc. simpl.
  by destruct (RS.pending s).
Qed.

Lemma fail_with_states j e :
  states (fail_with j e) = RS.set_error (RS.exec_op RS.Fail true (states j)).1 (Some e).
Proof. done. Qed.

Lemma fail_idle s :
  RS.running (RS.current s) = false → (RS.exec_op RS.Fail true s).1 = s.
Proof. intros Hc. unfold RS.exec_op. by destruct (RS.current s). Qed.

(** *** Starting tasks *)

Definition todo j : Z := Z.of_nat (length (rr_todo (range j))).

(** [j'] is [j] after the manager started some tasks. *)
Record started j j' : Prop := {
  st_store : store j' = store j;
  st_msgs : msgs j' = msgs j;
  st_pc : pc j' = pc j;
  st_total : total (tasks j') = total (tasks j);
  st_channel : channel (tasks j') = channel (tasks j);
  st_active : active (tasks j) ≤ active (tasks j');
  st_count : todo j' + active (tasks j') = todo j + active (tasks j);
}.

Lemma started_refl j : started j j.
Proof. split; done || lia. Qed.

Lemma started_trans j1 j2 j3 : started j1 j2 → started j2 j3 → started j1 j3.
Proof. intros [] []. split; congruence || lia. Qed.

(** How starting tasks changes the control state. *)
Definition start_states j j' : Prop :=
  states j' = states j ∨
  active (tasks j') = 0 ∧ rr_todo (range j') = [] ∧
  states j' = RS.with_pending (states j) (Some RS.Completed).

Lemma complete_states j :
  RS.current (states j) = RS.Running →
  states (complete j) = RS.with_pending (states j) (Some RS.Completed).
Proof. intros Hc. unfold complete, exec_internal_op. simpl. by apply complete_running. Qed.

Lemma start_task_spec ok err j id :
  pool_of ok err j → (id < total (tasks j))%nat → RS.current (states j) = RS.Running →
  ∃ j' b, start_task_by_id j id = Ok (j', b) ∧ pool_of ok err j' ∧ started j j' ∧
    start_states j j' ∧
    (if (b : bool) then states j' = states j ∧ 0 < active (tasks j')
     else rr_todo (range j') = [] ∧ (active (tasks j') = 0 → completed (states j'))).
Proof using Hwf.
  intros Hp Hid Hrun. unfold start_task_by_id.
  destruct (rr_next (range j)) as [r' [blk|]] eqn:Hn.
  - destruct (pool_next _ _ _ _ _ _ _ _ Hp Hn Hid) as [Hp' Ht].
    pose proof (p_active _ _ _ _ _ Hp).
    unfold schedule_segment_rebuild, assert. rewrite bool_decide_true by done. simpl.
    do 2 eexists. split; [done|]. split; [exact Hp'|]. split; [|split; [by left|simpl; split; [done|lia]]].
    split; simpl; try done; unfold todo; simpl; rewrite ?Ht; simpl; lia.
  - destruct (pool_next_none _ _ _ _ _ _ Hp Hn) as (Hp' & Ht & Ht').
    do 2 eexists. split; [done|]. simpl.
    destruct (Z.eqb_spec (active (tasks j)) 0) as [Ha|Ha].
    + split; [exact Hp'|]. split.
      { split; simpl; try done; unfold todo; simpl; rewrite ?Ht, ?Ht'; lia. }
      rewrite complete_states by done. split; [|split; [done|by right]].
      right. split_and!; try done. by apply (complete_states (with_range j r')).
    + split; [exact Hp'|]. split; [|split; [by left|done]].
      split; simpl; try done; unfold todo; simpl; rewrite ?Ht, ?Ht'; lia.
Qed.

Lemma start_tasks_spec ok err ids : ∀ j,
  pool_of ok err j → Forall (λ id, (id < total (tasks j))%nat) ids →
  RS.current (states j) = RS.Running →
  ∃ j', start_tasks j ids = Ok j' ∧ pool_of ok err j' ∧ started j j' ∧
    start_states j j' ∧
    (ids ≠ [] → active (tasks j') = 0 → rr_todo (range j') = []).
Proof using Hwf.
  induction ids as [|id ids IH]; intros j Hp Hids Hrun; simpl.
  { exists j. split_and!; [done|done|apply started_refl|by left|done]. }
  apply Forall_cons in Hids as [Hid Hids].
  destruct (start_task_spec _ _ _ id Hp Hid Hrun) as (j1 & b & -> & Hp1 & Hs1 & Hst1 & Hb).
  simpl. destruct b; [|by exists j1; split_and!; try done; intros; apply Hb].
  destruct Hb as [Hst Ha1].
  destruct (IH j1) as (j2 & -> & Hp2 & Hs2 & Hst2 & _); [done| |by rewrite Hst|].
  { eapply Forall_impl; [done|]. simpl. intros x. by rewrite (st_total _ _ Hs1). }
  exists j2. split_and!; try done; [by eapply started_trans| |].
  - unfold start_states in *. by rewrite <- Hst.
  - intros _ H0. pose proof (st_active _ _ Hs2). lia.
Qed.

Lemma start_all_spec ok err j :
  pool_of ok err j → active (tasks j) = 0 → RS.current (states j) = RS.Running →
  ∃ j', start_all_tasks d j = Ok j' ∧ pool_of ok err j' ∧ started j j' ∧
    (states j' = states j ∧ 0 < active (tasks j') ∨
     active (tasks j') = 0 ∧ rr_todo (range j') = [] ∧
     states j' = RS.with_pending (states j) (Some RS.Completed)).
Proof using Hwf.
  intros Hp Ha Hrun. unfold start_all_tasks, assert. rewrite Ha. simpl.
  destruct (start_tasks_spec ok err (seq 0 (total (tasks j))) j)
    as (j1 & -> & Hp1 & Hs1 & Hst1 & Ht1); [done| |done|].
  { apply Forall_forall. intros x ?%elem_of_seq. lia. }
  simpl. pose proof (p_total _ _ _ _ _ Hp) as Htot. pose proof (st_active _ _ Hs1).
  specialize (Ht1 ltac:(destruct (total (tasks j)); done || lia)).
  destruct (Z.eqb_spec (active (tasks j1)) 0) as [Ha1|Ha1].
  - destruct (stats_ok ok err (complete j1)) as [? ->]; [exact Hp1|]. simpl.
    eexists. split; [done|]. split; [exact Hp1|]. split; [by destruct Hs1; split|].
    right. simpl. split_and!; [done|by apply Ht1|].
    destruct Hst1 as [He|(_ & _ & He)]; (etrans; [apply (complete_states j1)|]); by rewrite He.
  - destruct (stats_ok ok err j1 Hp1) as [? ->]. simpl.
    eexists. split_and!; try done. left.
    destruct Hst1 as [He|(? & _)]; [split; [done|lia]|lia].
Qed.

Lemma reconcile_spec ok err j :
  pool_of ok err j →
  ∃ j', reconcile d j = Ok (j', RS.current (states j')) ∧ same_pool j j' ∧
    states j' = (RS.reconcile (states j)).1 ∧ pc j' = pc j ∧ msgs j' = msgs j.
Proof using Hwf.
  intros Hp. unfold reconcile.
  assert (Hcur : (RS.reconcile (states j)).2 = RS.current (RS.reconcile (states j)).1)
    by (unfold RS.reconcile; by destruct (RS.pending (states j))).
  destruct (RS.reconcile (states j)) as [s new] eqn:Hr; simpl in *. subst new.
  case_bool_decide.
  - destruct (stats_ok ok err (with_states j s)) as [? ->]; [exact Hp|]. simpl.
    by exists (notify (with_states j s)).
  - by exists (with_states j s).
Qed.

(** *** The events *)

(** A bound on the number of steps the manager and its tasks can take without
    a new request from the frontend. *)
Definition pc_weight j : Z :=
  match pc j with
  | AtTop => if bool_decide (RS.pending (states j) = Some RS.Completed) then 1 else 2
  | _ => 0
  end.

Definition work j : Z :=
  5 * todo j + 4 * Z.of_nat (length (futures (tasks j))) +
  3 * Z.of_nat (length (channel (tasks j))) + 3 * Z.of_nat (length (msgs j)).

Definition measure j : Z := work j + pc_weight j.

Lemma pc_weight_bound j : 0 ≤ pc_weight j ≤ 2.
Proof. unfold pc_weight. destruct (pc j); try case_bool_decide; lia. Qed.

Lemma measure_nonneg j : 0 ≤ measure j.
Proof. unfold measure, work, todo. pose proof (pc_weight_bound j). lia. Qed.

Lemma pool_count ok err j :
  pool_of ok err j →
  active (tasks j) = Z.of_nat (length (futures (tasks j))) + Z.of_nat (length (channel (tasks j))).
Proof. intros []. lia. Qed.

Lemma clean_reconcile err s :
  RS.done (RS.current s) = false → clean err s → clean err (RS.reconcile s).1.
Proof.
  intros Hd (H1 & [H2 H2'] & H3 & H4). unfold clean, completed, RS.reconcile in *.
  destruct (RS.pending s) as [p|] eqn:Hp; simpl in *; [|by rewrite Hp in *; simpl in *].
  split_and!; [congruence|done|done| |].
  - intros He. specialize (H3 He). by destruct (RS.current s), p.
  - intros [->|?]; [|done]. apply H4. by right.
Qed.

Lemma reconcile_states s :
  RS.pending (RS.reconcile s).1 = None ∧
  (completed (RS.reconcile s).1 → completed s) ∧
  (RS.pending s = Some RS.Completed → RS.current (RS.reconcile s).1 = RS.Completed).
Proof.
  unfold completed, RS.reconcile. destruct (RS.pending s) as [p|] eqn:Hp; simpl; rewrite ?Hp;
    naive_solver.
Qed.

Lemma drop_spec ok err j :
  pool_of ok err j →
  ∃ j', drop d now j = Ok j' ∧ same_pool j j' ∧ pc j' = Exited ∧ msgs j' = [] ∧
    RS.current (states j') = RS.current (states j) ∧
    RS.pending (states j') = RS.pending (states j).
Proof using Hwf.
  intros Hp. destruct (stats_ok ok err j Hp) as [st Hst]. unfold drop. rewrite Hst. simpl.
  eexists. split; [done|]. unfold same_pool. simpl.
  set (f := λ j m, match m with GetStats => reply j st | WakeUp => j end).
  assert (Hf : ∀ ms j0, same_pool j0 (foldl f j0 ms) ∧ states (foldl f j0 ms) = states j0).
  { induction ms as [|[] ms IH]; intros j0; simpl; [done|apply IH|].
    destruct (IH (reply j0 st)) as [Hi He]. split; [exact Hi|exact He]. }
  destruct (Hf (msgs j) (with_states j (RS.set_final_stats (states j) now st)))
    as [(-> & -> & ->) ->]. done.
Qed.

Lemma clean_eq err s s' :
  RS.current s' = RS.current s → RS.pending s' = RS.pending s → clean err s → clean err s'.
Proof. unfold clean, completed. by intros -> ->. Qed.

(** The job between [reconcile] and what the outer loop does next. *)
Record idle np ok err j : Prop := {
  i_pool : pool_of ok err j;
  i_active : active (tasks j) = 0;
  i_pending : RS.pending (states j) = None;
  i_completed : RS.current (states j) = RS.Completed → rr_todo (range j) = [];
  i_clean : np = true → clean err (states j);
}.

Lemma reconcile_inv np j :
  Inv np j → pc j = AtTop →
  ∃ ok err j1, reconcile d j = Ok (j1, RS.current (states j1)) ∧ idle np ok err j1 ∧
    work j1 = work j ∧ 0 < pc_weight j ∧
    (pc_weight j = 1 → RS.current (states j1) = RS.Completed).
Proof using Hwf.
  intros (ok & err & Hp & Hc & Hnp) Hpc.
  destruct (reconcile_spec ok err j Hp) as (j1 & Hrec & Hsp & Hst & Hpc1 & Hm1).
  destruct Hc as [Hact Hex _ Hcompl _ _]. rewrite Hpc in Hact, Hex.
  assert (Hnd : RS.done (RS.current (states j)) = false)
    by (destruct (RS.done _); [by destruct Hex as [_ Hex]; specialize (Hex eq_refl)|done]).
  destruct (reconcile_states (states j)) as (Hpend & Hcompl1 & Hpc2). rewrite <- Hst in *.
  destruct Hsp as (Ht & Hr & Hs). exists ok, err, j1. split; [done|]. split_and!.
  - split; [by eapply same_pool_of; [|exact Hp]|by rewrite Ht|done| |].
    + intros Hcc. rewrite Hr. apply Hcompl, Hcompl1. by left.
    + intros ?. rewrite Hst. apply clean_reconcile; auto.
  - unfold work, todo. by rewrite Ht, Hr, Hm1.
  - unfold pc_weight. rewrite Hpc. by case_bool_decide.
  - unfold pc_weight. rewrite Hpc. by case_bool_decide; auto.
Qed.

Lemma top_exit np ok err j :
  idle np ok err j → RS.done (RS.current (states j)) = true →
  ∃ j', drop d now j = Ok j' ∧ Inv np j' ∧ measure j' ≤ work j.
Proof using Hwf.
  intros [Hp Ha Hpend Hcompl Hcl] Hd.
  destruct (drop_spec ok err j Hp) as (j2 & -> & Hsp & Hpc & Hm & Hcur & Hpend2).
  exists j2. split; [done|]. destruct Hsp as (Ht & Hr & Hs). split.
  - exists ok, err. split; [by eapply same_pool_of; [|exact Hp]|].
    split; [|intros; eapply clean_eq; eauto]. unfold completed.
    split; unfold completed; rewrite ?Hpc, ?Hcur, ?Hpend2, ?Ht, ?Hr, ?Ha, ?Hpend; try done.
    + intros [?|?]; [auto|done].
    + by intros [? ?].
  - unfold measure, work, todo, pc_weight. rewrite Hr, Ht, Hm, Hpc. simpl. lia.
Qed.

Lemma top_wait np ok err j :
  idle np ok err j → RS.done (RS.current (states j)) = false →
  RS.running (RS.current (states j)) = false →
  Inv np (with_pc j WaitMsg) ∧ measure (with_pc j WaitMsg) = work j.
Proof.
  intros [Hp Ha Hpend Hcompl Hcl] Hd Hrun. split.
  - exists ok, err. split; [exact Hp|]. split; [|done]. split; simpl; try done.
    + by rewrite Hd.
    + intros [Hc|Hc]; [auto|congruence].
    + by intros [? ?].
    + split; [done|]. left. by left.
  - unfold measure, pc_weight. simpl. change (work (with_pc j WaitMsg)) with (work j). lia.
Qed.

Lemma top_run np ok err j :
  idle np ok err j → RS.current (states j) = RS.Running →
  ∃ j', start_all_tasks d j = Ok j' ∧ Inv np (continue_at j' (Managing false)) ∧
    measure (continue_at j' (Managing false)) ≤ work j + 1.
Proof using Hwf.
  intros [Hp Ha Hpend Hcompl Hcl] Hrun.
  destruct (start_all_spec ok err j Hp Ha Hrun) as (j2 & -> & Hp2 & Hs2 & Hst2).
  exists j2. split; [done|]. pose proof (pool_count _ _ _ Hp2) as Hn2.
  pose proof (pool_count _ _ _ Hp) as Hn. destruct Hs2. unfold continue_at.
  destruct Hst2 as [[Hst Ha2]|(Ha2 & Ht2 & Hst)].
  - destruct (Z.ltb_spec 0 (active (tasks j2))); [|lia]. split.
    + exists ok, err. split; [exact Hp2|]. split; [|by simpl; rewrite Hst].
      split; simpl; rewrite ?Hst, ?Hrun; try done.
      * unfold completed. rewrite Hrun, Hpend. by intros [?|?].
      * by intros [? ?].
    + unfold measure, work, pc_weight. simpl. change (todo (with_pc j2 _)) with (todo j2).
      rewrite st_msgs0. lia.
  - rewrite Ha2. simpl. split.
    + exists ok, err. split; [exact Hp2|]. split.
      * split; simpl; rewrite ?Hst; simpl; rewrite ?Hrun; try done. by intros [? ?].
      * intros Hnp. destruct (Hcl Hnp) as (_ & _ & Herr & _).
        assert (err = []) as ->.
        { destruct err; [done|]. specialize (Herr (ltac:(discriminate))). by rewrite Hrun, Hpend in Herr. }
        simpl. rewrite Hst. unfold clean. simpl. rewrite Hrun. by split_and!.
    + unfold measure, work, pc_weight. simpl. change (todo (with_pc j2 _)) with (todo j2).
      rewrite st_msgs0, Hst. simpl. lia.
Qed.

Lemma top_inv np j :
  Inv np j → pc j = AtTop →
  ∃ j', run_top d now j = Ok j' ∧ Inv np j' ∧ measure j' < measure j.
Proof using Hwf.
  intros HI Hpc. unfold run_top.
  destruct (reconcile_inv np j HI Hpc) as (ok & err & j1 & -> & Hi & Hw & Hpos & Hone). simpl.
  unfold measure at 2. destruct (RS.done (RS.current (states j1))) eqn:Hd.
  { destruct (top_exit np ok err j1 Hi Hd) as (j2 & -> & ? & ?). exists j2. split_and!; [done..|lia]. }
  destruct (RS.running (RS.current (states j1))) eqn:Hrun; simpl.
  - assert (Hr : RS.current (states j1) = RS.Running) by by destruct (RS.current (states j1)).
    destruct (top_run np ok err j1 Hi Hr) as (j2 & -> & ? & ?). simpl.
    eexists. split; [done|]. split; [done|].
    pose proof (pc_weight_bound j).
    assert (pc_weight j ≠ 1) by (intros E; specialize (Hone E); congruence). lia.
  - destruct (top_wait np ok err j1 Hi Hd Hrun) as [? ?]. eexists. split_and!; [done..|lia].
Qed.

Lemma task_inv np j i o :
  Inv np j → exec (EvTask i) j = Some o →
  ∃ j', o = Ok j' ∧ Inv np j' ∧ measure j' < measure j.
Proof using Hwf.
  intros (ok & err & Hp & Hc & Hnp). simpl.
  destruct (futures (tasks j) !! i) as [[id blk]|] eqn:Hi; [|done].
  destruct (copy blk (store j)) as [s r] eqn:Hcopy. intros [= <-].
  assert (∃ res, task_result id blk r = Some res) as [res Hres].
  { destruct (rr_copy_spec (store j) blk s r) as (_ & Hr & _); [apply Hp| |done|destruct r; by eauto].
    rewrite (p_part _ _ _ _ _ Hp), !elem_of_app. do 2 right. left.
    apply list_elem_of_fmap. exists (id, blk). split; [done|]. by eapply list_elem_of_lookup_2. }
  pose proof (pool_task _ _ _ _ _ _ _ _ _ _ _ Hp Hi Hcopy Hres) as Hp'.
  rewrite Hres. simpl. eexists. split; [done|]. split.
  - exists ok, err. split; [exact Hp'|]. split; [|done]. by destruct Hc; split.
  - unfold measure, work. simpl. rewrite length_app. simpl.
    pose proof (length_delete (futures (tasks j)) i ltac:(by eexists)).
    pose proof (lookup_lt_Some _ _ _ Hi). unfold pc_weight, todo. simpl. lia.
Qed.

(** A job in the inner loop whose last transition left the tasks as they
    are. *)
Record inner np ok err j : Prop := {
  n_pool : pool_of ok err j;
  n_running : RS.current (states j) = RS.Running;
  n_completed : RS.pending (states j) = Some RS.Completed →
    active (tasks j) = 0 ∧ rr_todo (range j) = [];
  n_clean : np = true → clean err (states j);
}.

Lemma continue_inv np ok err j p :
  inner np ok err j → (∃ g, p = Managing g) ∨
    (∃ g, p = AwaitingAll g) ∧ awaiting (RS.pending (states j)) = true →
  Inv np (continue_at j p) ∧ measure (continue_at j p) ≤ work j + 2 ∧
  (0 < active (tasks j) → measure (continue_at j p) = work j).
Proof.
  intros [Hp Hrun Hcompl Hcl] Hpc. pose proof (p_active _ _ _ _ _ Hp) as Ha. unfold continue_at.
  split_and!.
  - exists ok, err. split; [exact Hp|]. split; [|exact Hcl].
    assert (completed (states j) → active (tasks j) = 0 ∧ rr_todo (range j) = [])
      by (unfold completed; rewrite Hrun; intros [?|?]; auto; done).
    destruct (Z.ltb_spec 0 (active (tasks j))).
    + destruct Hpc as [[g ->]|[[g ->] Hw]]; split; simpl; rewrite ?Hrun; try done.
      by intros [? ?].
    + split; simpl; rewrite ?Hrun; try done; [lia|by intros [? ?]].
  - pose proof (pc_weight_bound (with_pc j (if 0 <? active (tasks j) then p else AtTop))).
    unfold measure. change (work (with_pc j _)) with (work j). lia.
  - intros Hpos. destruct (Z.ltb_spec 0 (active (tasks j))); [|lia].
    unfold measure. change (work (with_pc j p)) with (work j).
    destruct Hpc as [[g ->]|[[g ->] Hw]]; unfold pc_weight; simpl; lia.
Qed.

Lemma receive_inner np ok err j x rest :
  pool_of ok err j → ctl j → (np = true → clean err (states j)) →
  channel (tasks j) = x :: rest → (∃ g, pc j = Managing g ∨ pc j = AwaitingAll g) →
  RS.current (states j) = RS.Running ∧ RS.pending (states j) ≠ Some RS.Completed ∧
  work (with_tasks j (receive (tasks j) x rest)) = work j - 3 ∧ measure j = work j ∧
  match tr_error x with
  | None => inner np (tr_blk x :: ok) err (with_tasks j (receive (tasks j) x rest))
  | Some _ => pool_of ok (tr_blk x :: err) (with_tasks j (receive (tasks j) x rest))
  end.
Proof.
  intros Hp Hc Hcl Hch [g Hpc].
  assert (Hrun : RS.current (states j) = RS.Running ∧ 0 < active (tasks j))
    by (pose proof (c_pc _ Hc); by destruct Hpc as [E|E]; rewrite E in *).
  destruct Hrun as [Hrun Ha].
  assert (Hnc : RS.pending (states j) ≠ Some RS.Completed)
    by (intros E; destruct (c_completed _ Hc); [by right|lia]).
  split_and!; [done..| | |].
  - unfold work, todo. simpl. rewrite Hch. simpl. lia.
  - unfold measure, pc_weight. destruct Hpc as [->| ->]; lia.
  - pose proof (pool_receive _ _ _ _ _ _ _ Hp Hch) as Hr.
    destruct (tr_error x); [done|]. by split; simpl; auto.
Qed.

Lemma manage_next np ok err j g id :
  inner np ok err j → (id < total (tasks j))%nat →
  RS.pending (states j) = None ∨ RS.pending (states j) = Some RS.Running →
  ∃ y, start_task_by_id j id = Ok y ∧ Inv np (continue_at y.1 (Managing g)) ∧
    measure (continue_at y.1 (Managing g)) ≤ work j + 2.
Proof using Hwf.
  intros [Hp Hrun Hcompl Hcl] Hid Hnc.
  destruct (start_task_spec ok err j id Hp Hid Hrun) as (j' & b & -> & Hp' & Hs & Hst & _).
  eexists. split; [done|]. simpl.
  pose proof (pool_count _ _ _ Hp). pose proof (pool_count _ _ _ Hp'). destruct Hs.
  assert (Hnd : doomed (RS.pending (states j)) = false) by by destruct Hnc as [->| ->].
  assert (Hnp' : RS.pending (states j) ≠ Some RS.Completed) by by destruct Hnc as [->| ->].
  destruct (continue_inv np ok err j' (Managing g)) as (? & ? & _); [|by eauto|].
  - destruct Hst as [Hst|(Ha & Ht & Hst)]; split; rewrite ?Hst; simpl; try done.
    intros Hnp. destruct (Hcl Hnp) as (? & ? & Herr & ?). rewrite Hrun, Hnd in Herr.
    assert (err = []) as -> by (destruct err; [done|by specialize (Herr ltac:(discriminate))]).
    unfold clean. simpl. by split_and!.
  - split; [done|]. unfold work in *. rewrite st_channel0, st_msgs0 in *. lia.
Qed.

Lemma manage_inv np j g x rest :
  Inv np j → pc j = Managing g → channel (tasks j) = x :: rest →
  ∃ j', manage_result j g x rest = Ok j' ∧ Inv np j' ∧ measure j' < measure j.
Proof using Hwf.
  intros (ok & err & Hp & Hc & Hcl) Hpc Hch.
  destruct (receive_inner np ok err j x rest Hp Hc Hcl Hch) as (Hrun & Hnc & Hw & Hm & Hx);
    [by eauto|].
  unfold manage_result. destruct (tr_error x) as [e|] eqn:He.
  - eexists. split; [done|]. set (j1 := with_tasks j _) in *.
    assert (Hst : states (fail_with j1 e) =
      RS.set_error (RS.with_pending (states j) (Some RS.Failed)) (Some e)).
    { rewrite fail_with_states. by rewrite (fail_running (states j1)). }
    destruct (continue_inv np ok (tr_blk x :: err) (fail_with j1 e) (AwaitingAll g))
      as (? & ? & _).
    + split; [exact Hx|rewrite Hst; done..|]. rewrite Hst. intros _. unfold clean, completed. simpl.
      rewrite Hrun. split_and!; try done. by intros [?|?].
    + right. rewrite Hst. simpl. by eauto.
    + change (work (fail_with j1 e)) with (work j1) in *. split; [done|lia].
  - assert (Hcase : RS.pending (states j) = None ∨ RS.pending (states j) = Some RS.Running ∨
      awaiting (RS.pending (states j)) = true)
      by (destruct (RS.pending (states j)) as [[]|] eqn:E; auto; by destruct Hnc).
    destruct (awaiting (RS.pending (states j))) eqn:Haw.
    + destruct (continue_inv np _ err _ (AwaitingAll g) Hx) as (? & ? & _);
        [right; simpl; by eauto|].
      eexists. split; [|split; [done|lia]]. simpl. by destruct (RS.pending (states j)) as [[]|].
    + destruct (manage_next np _ err _ g (tr_id x) Hx) as (y & Hy & ? & ?).
      { pose proof (p_chan_ids _ _ _ _ _ Hp) as Hids. rewrite Hch in Hids.
        by apply Forall_cons in Hids as [? _]. }
      { destruct Hcase as [E|[E|?]]; simpl; rewrite ?E; auto; done. }
      eexists. split; [|split; [done|lia]].
      destruct Hcase as [E|[E|?]]; simpl; rewrite ?E, ?Hy; done.
Qed.

Lemma await_all_inv np j g x rest :
  Inv np j → pc j = AwaitingAll g → channel (tasks j) = x :: rest →
  Inv np (await_all_result j g x rest) ∧ measure (await_all_result j g x rest) < measure j.
Proof.
  intros (ok & err & Hp & Hc & Hcl) Hpc Hch.
  destruct (receive_inner np ok err j x rest Hp Hc Hcl Hch) as (Hrun & Hnc & Hw & Hm & Hx);
    [by eauto|].
  assert (Haw : awaiting (RS.pending (states j)) = true) by (apply (c_await _ Hc); eauto).
  unfold await_all_result.
  destruct (tr_error x) as [e|].
  - destruct (continue_inv np ok (tr_blk x :: err) (with_tasks j (receive (tasks j) x rest))
      (AwaitingAll g)) as (? & ? & _); [|right; by eauto|split; [done|lia]].
    split; simpl; try done. intros Hnp. destruct (Hcl Hnp) as (? & [Hnpa Hni] & ? & Hcp).
    unfold clean, completed. rewrite Hrun. split_and!; [done..| |by intros [?|?]].
    intros _. by destruct (RS.pending (states j)) as [[]|].
  - destruct (continue_inv np (tr_blk x :: ok) err (with_tasks j (receive (tasks j) x rest))
      (AwaitingAll g) Hx) as (? & ? & _); [right; by eauto|split; [done|lia]].
Qed.

Lemma wait_to_top np ok err j j1 :
  ctl j → pc j = WaitMsg → same_pool j j1 → pool_of ok err j → (np = true → clean err (states j)) →
  RS.current (states j1) = RS.current (states j) →
  RS.pending (states j1) = RS.pending (states j) →
  Inv np (with_pc j1 AtTop).
Proof.
  intros [Hpc Hex Hd Hco _ _] Hw (Ht & Hr & Hs) Hp Hcl Hcur Hpend. rewrite Hw in *.
  exists ok, err. split; [by eapply same_pool_of; [|exact Hp]|].
  split; [|intros; eapply clean_eq; eauto].
  split; simpl; unfold completed in *; rewrite ?Ht, ?Hr, ?Hcur, ?Hpend; try done.
  - split; [done|]. intros Hdone. by apply Hex in Hdone.
  - by intros [? ?].
Qed.

Lemma polled_inner np ok err j j1 :
  ctl j → pc j = Managing false ∨ pc j = AwaitingAll false → same_pool j j1 →
  pool_of ok err j → (np = true → clean err (states j)) → states j1 = states j →
  inner np ok err j1 ∧ 0 < active (tasks j1).
Proof.
  intros [Hpc Hex Hd Hco _ _] Hw (Ht & Hr & Hs) Hp Hcl Hst.
  assert (Hrun : RS.current (states j) = RS.Running ∧ 0 < active (tasks j))
    by (by destruct Hw as [E|E]; rewrite E in *).
  split; [|rewrite Ht; apply Hrun]. split; rewrite ?Hst; [by eapply same_pool_of; [|exact Hp]|apply Hrun| |done].
  intros ?. rewrite Ht, Hr. apply Hco. by right.
Qed.

Lemma handle_spec ok err j m rest :
  pool_of ok err j →
  ∃ j1, handle_message d (with_msgs j rest) (Some m) = Ok (j1, true) ∧ same_pool j j1 ∧
    states j1 = states j ∧ msgs j1 = rest.
Proof using Hwf.
  intros Hp. destruct m; simpl.
  - by exists (with_msgs j rest).
  - destruct (stats_ok ok err (with_msgs j rest) Hp) as [st ->]. simpl.
    by exists (reply (with_msgs j rest) st).
Qed.

Lemma message_inv np j m rest o :
  Inv np j → msgs j = m :: rest → message d (with_msgs j rest) (Some m) = Some o →
  ∃ j', o = Ok j' ∧ Inv np j' ∧ measure j' < measure j.
Proof using Hwf.
  intros (ok & err & Hp & Hc & Hcl) Hm Ho.
  destruct (handle_spec ok err j m rest Hp) as (j1 & Hh & Hsp & Hst & Hm1).
  assert (Hwk : work j1 = work j - 3).
  { destruct Hsp as (Ht & Hr & _). unfold work, todo. rewrite Ht, Hr, Hm1, Hm. simpl. lia. }
  assert (Hge : work j ≤ measure j) by (pose proof (pc_weight_bound j); unfold measure; lia).
  assert (Hcase : pc j = WaitMsg ∨ pc j = Managing false ∨ pc j = AwaitingAll false).
  { unfold message in Ho. simpl in Ho. destruct (pc j) as [| |[]|[]|]; auto; done. }
  unfold message in Ho. rewrite Hh in Ho. simpl in Ho. destruct Hcase as [Hpc|Hpc].
  - rewrite Hpc in Ho. injection Ho as <-. eexists. split; [done|]. split.
    + eapply wait_to_top; eauto; by rewrite Hst.
    + pose proof (pc_weight_bound (with_pc j1 AtTop)). unfold measure at 1.
      change (work (with_pc j1 AtTop)) with (work j1). lia.
  - assert (o = Ok (continue_at j1 (Managing false))) as ->
      by (destruct Hpc as [E|E]; rewrite E in Ho; by injection Ho).
    destruct (polled_inner np ok err j j1) as [Hi Ha]; try done.
    destruct (continue_inv np ok err j1 (Managing false) Hi) as (HI & _ & Hme); [by eauto|].
    eexists. split; [done|]. split; [done|]. rewrite (Hme Ha). lia.
Qed.

Lemma fail_inner np ok err j e : inner np ok err j → inner np ok err (fail_with j e).
Proof.
  intros [Hp Hrun Hcompl Hcl].
  assert (Hst := fail_with_states j e). rewrite fail_running in Hst by done.
  split; [exact Hp|rewrite Hst; done..|].
  intros _. rewrite Hst. unfold clean, completed. simpl. rewrite Hrun. split_and!; try done.
  by intros [?|?].
Qed.

Lemma gone_inv np j o :
  Inv np j → message d j None = Some o → ∃ j', o = Ok j' ∧ Inv np j'.
Proof.
  intros (ok & err & Hp & Hc & Hcl) Ho. unfold message in Ho.
  assert (Hcase : pc j = WaitMsg ∨ pc j = Managing false ∨ pc j = AwaitingAll false)
    by (destruct (pc j) as [| |[]|[]|]; auto; done).
  destruct Hcase as [Hpc|Hpc].
  - rewrite Hpc in Ho. injection Ho as <-. eexists. split; [done|]. simpl.
    destruct (c_wait _ Hc Hpc) as [Hr _].
    eapply wait_to_top; eauto; [done|..]; by rewrite fail_with_states, fail_idle.
  - destruct (polled_inner np ok err j j) as [Hi _]; try done.
    destruct (continue_inv np ok err (fail_with j FrontendGone) (Managing true)) as (HI & _);
      [by apply fail_inner|by eauto|].
    exists (continue_at (fail_with j FrontendGone) (Managing true)). split; [|done].
    destruct Hpc as [E|E]; rewrite E in Ho; by injection Ho.
Qed.

Lemma frontend_inv np j op ov :
  Inv np j → offered op ov = true → (np = true → op ≠ RS.Pause) →
  Inv np (frontend_op j op ov).
Proof.
  intros (ok & err & Hp & Hc & Hcl) Ho Hpause. unfold frontend_op.
  destruct (RS.exec_op op ov (states j)) as [s r] eqn:Hx.
  destruct (frontend_facts op ov _ _ _ Ho Hx (c_done _ Hc))
    as (Hcur & Hdone & Hcompl & Haw & Hpa & Hin & Hdo & Hidle).
  set (j' := match r with Ok true => _ | _ => _ end).
  assert (Hj : same_pool j j' ∧ states j' = s ∧ pc j' = pc j ∧ (msgs j ≠ [] → msgs j' ≠ []) ∧
    (r = Ok true → msgs j' ≠ [])).
  { unfold j', same_pool. destruct r as [[]| |]; simpl; split_and!; try done;
      intros; by destruct (msgs j). }
  clearbody j'. destruct Hj as ((Ht & Hr & Hs) & Hst & Hpc & Hm1 & Hm2).
  exists ok, err. split; [by eapply same_pool_of; [|exact Hp]|]. destruct Hc. split.
  - split; unfold completed in *; rewrite ?Hst, ?Hpc, ?Ht, ?Hr, ?Hcur; try done.
    + intros [?|?]; auto.
    + intros Hg. destruct (Haw (c_await0 Hg)) as [?|Hnr]; [done|].
      destruct Hg as [g Hg]. rewrite Hg in c_pc0. destruct c_pc0 as [E _]. by rewrite E in Hnr.
    + intros Hw. destruct (c_wait0 Hw) as [Hrun Hset]. split; [done|].
      destruct (Hidle Hrun) as [?|[He|?]]; [by right; apply Hm2| |by left].
      destruct Hset as [Hset|?]; [left|right; by apply Hm1].
      unfold settled in *. by rewrite He, Hcur.
  - intros Hnp. destruct (Hcl Hnp) as (H1 & [H2 H3] & H4 & H5). rewrite Hst.
    unfold clean, completed. rewrite Hcur. split_and!; [done| |auto| |].
    + intros E. destruct (Hpa E); [done|by apply Hpause].
    + intros He. specialize (H4 He). apply orb_true_iff in H4 as [->|?]; [done|].
      apply orb_true_iff. right. auto.
    + intros [?|?]; apply H5; [by left|right; auto].
Qed.

(** *** Every event *)

(** The events of the manager and its tasks. *)
Definition internal (ev : event) : bool :=
  match ev with EvTask _ | EvTop | EvResult | EvMessage => true | _ => false end.

Definition no_pause (ev : event) : Prop := ∀ ov, ev ≠ EvOp RS.Pause ov.

(** Every event that can happen ends without a panic, in a state of the
    invariant. *)
Lemma exec_inv np j ev o :
  Inv np j → exec ev j = Some o → (np = true → no_pause ev) →
  ∃ j', o = Ok j' ∧ Inv np j' ∧ (internal ev = true → measure j' < measure j).
Proof using Hwf.
  intros HI Hx Hnp. destruct ev as [i| | | | |op ov|].
  - destruct (task_inv np j i o HI Hx) as (j' & ? & ? & ?). by exists j'.
  - simpl in Hx. destruct (pc j) eqn:Hpc; try done. injection Hx as <-.
    destruct (top_inv np j HI Hpc) as (j' & -> & ? & ?). by exists j'.
  - simpl in Hx. destruct (channel (tasks j)) as [|x rest] eqn:Hch; [done|].
    destruct (pc j) as [| |g|g|] eqn:Hpc; try done; injection Hx as <-.
    + destruct (manage_inv np j g x rest HI Hpc Hch) as (j' & -> & ? & ?). by exists j'.
    + destruct (await_all_inv np j g x rest HI Hpc Hch). by eexists.
  - simpl in Hx. destruct (msgs j) as [|m rest] eqn:Hm; [done|].
    destruct (message_inv np j m rest o HI Hm Hx) as (j' & -> & ? & ?). by exists j'.
  - simpl in Hx. destruct (msgs j); [|done].
    destruct (gone_inv np j o HI Hx) as (j' & -> & ?). by exists j'.
  - simpl in Hx. destruct (offered op ov) eqn:Ho; [|done]. injection Hx as <-.
    eexists. split; [done|]. split; [|done]. apply frontend_inv; [done..|].
    intros E ->. by eapply (Hnp E ov).
  - assert (o = Ok (with_msgs j (msgs j ++ [GetStats]))) as ->
      by (simpl in Hx; destruct (pc j); simplify_eq; done).
    eexists. split; [done|]. split; [|done]. destruct HI as (ok & err & Hp & Hc & Hcl).
    exists ok, err. split; [exact Hp|]. split; [|exact Hcl].
    destruct Hc; split; simpl; try done. intros Hw. destruct (c_wait0 Hw). split; [done|].
    right. by destruct (msgs j).
Qed.

(** *** Reachable states *)

Lemma init_inv np n r s :
  (0 < n)%nat → rr_wf r → rr_store_ok s → rr_todo r ≡ₚ Segs.all d →
  Inv np (init n r s).
Proof.
  intros Hn Hr Hs Ht. exists [], []. split; [|split].
  - by split; simpl; try done.
  - split; simpl; try done; by intros [? ?] || by intros [?|?].
  - intros _. unfold clean, completed. simpl. split_and!; try done.
Qed.

Lemma reaches_inv np j0 evs j :
  Inv np j0 → reaches copy d now j0 evs j → (np = true → Forall no_pause evs) → Inv np j.
Proof using Hwf.
  intros HI. induction 1 as [|evs j ev j' _ IH Hstep]; intros Hnp; [done|].
  destruct (exec_inv np j ev (Ok j')) as (j1 & E & ? & _); [|done| |by simplify_eq].
  - apply IH. intros E. specialize (Hnp E). by apply Forall_app in Hnp as [? _].
  - intros E. specialize (Hnp E). apply Forall_app in Hnp as [_ Hl]. by apply Forall_cons in Hl as [? _].
Qed.

(** A completed job accounts for every segment as copied. *)
Lemma completed_synced j :
  Inv true j → RS.current (states j) = RS.Completed →
  ∀ b, b ∈ Segs.all d → rr_synced (store j) b.
Proof.
  intros (ok & err & Hp & Hc & Hcl) Hcur b Hb.
  destruct (Hcl eq_refl) as (_ & _ & _ & Herr). rewrite Herr in Hp by by left.
  destruct (c_completed _ Hc) as [Ha Ht]; [by left|].
  destruct (pool_idle _ _ _ _ _ Hp Ha) as [Hf Hch]. destruct Hp as [Hpart _ _ _ _ _ _ _ _ Hok _].
  rewrite Hpart, Hf, Hch, Ht in Hb. simpl in Hb. rewrite app_nil_r in Hb.
  by eapply Forall_forall.
Qed.

(** A job in a final state has no copy outstanding. *)
Lemma done_no_tasks np j :
  Inv np j → RS.done (RS.current (states j)) = true →
  futures (tasks j) = [] ∧ channel (tasks j) = [] ∧ pc j = Exited.
Proof.
  intros (ok & err & Hp & Hc & _) Hd. pose proof (proj2 (c_exit _ Hc) Hd) as Hpc.
  pose proof (c_pc _ Hc) as Ha. rewrite Hpc in Ha.
  destruct (pool_idle _ _ _ _ _ Hp Ha). done.
Qed.

(** *** Progress *)

(** The manager has nothing to do: it has exited, or it is parked waiting for
    a request while no operation is pending, or only a [Pause] of a job that was
    never started. *)
Definition quiescent j : Prop :=
  pc j = Exited ∧ RS.done (RS.current (states j)) = true ∨
  pc j = WaitMsg ∧ msgs j = [] ∧ RS.running (RS.current (states j)) = false ∧
    settled (states j).

Lemma progress np j :
  Inv np j → quiescent j ∨ ∃ ev o, internal ev = true ∧ exec ev j = Some o.
Proof.
  intros (ok & err & Hp & Hc & _). pose proof (c_pc _ Hc) as Ha.
  pose proof (pool_count _ _ _ Hp) as Hn.
  assert (Hact : ∀ g, pc j = Managing g ∨ pc j = AwaitingAll g → 0 < active (tasks j) →
    ∃ ev o, internal ev = true ∧ exec ev j = Some o).
  { intros g Hpc Hpos. destruct (futures (tasks j)) as [|[id blk] fs] eqn:Hf.
    - destruct (channel (tasks j)) as [|x rest] eqn:Hch; [simpl in Hn; lia|].
      exists EvResult. simpl. rewrite Hch. destruct Hpc as [->| ->]; by eauto.
    - exists (EvTask 0). simpl. rewrite Hf. simpl. destruct (copy blk (store j)). by eauto. }
  destruct (pc j) as [| |g|g|] eqn:Hpc.
  - right. exists EvTop. simpl. rewrite Hpc. by eauto.
  - destruct (msgs j) as [|m rest] eqn:Hm.
    + left. right. destruct (c_wait _ Hc Hpc) as [? [?|?]]; [done|done].
    + right. exists EvMessage. simpl. rewrite Hm. unfold message. simpl. rewrite Hpc. by eauto.
  - right. apply (Hact g); [by left|lia].
  - right. apply (Hact g); [by right|lia].
  - left. left. split; [done|]. by apply (c_exit _ Hc).
Qed.

Lemma reaches_cons j ev j1 evs j' :
  step copy d now j ev j1 → reaches copy d now j1 evs j' → reaches copy d now j (ev :: evs) j'.
Proof.
  intros Hs. induction 1 as [|evs j2 ev2 j3 _ IH Hs2].
  - apply (reaches_step copy d now j [] j ev j1); [constructor|done].
  - change (ev :: evs ++ [ev2]) with ((ev :: evs) ++ [ev2]). by eapply reaches_step.
Qed.

(** Without new requests the job comes to rest, within [measure j] steps. *)
Lemma comes_to_rest np : ∀ (n : nat) j,
  Inv np j → measure j ≤ Z.of_nat n →
  ∃ evs j', reaches copy d now j evs j' ∧ Forall (λ ev, internal ev = true) evs ∧
    (length evs ≤ n)%nat ∧ quiescent j' ∧ Inv np j'.
Proof using Hwf.
  induction n as [|n IH]; intros j HI Hm;
    (destruct (progress np j HI) as [Hq|(ev & o & Hin & Hx)];
      [by exists [], j; split_and!; [constructor|done|simpl; lia|done..]|]);
    (destruct (exec_inv np j ev o HI Hx) as (j1 & -> & HI1 & Hdec);
      [by intros _ ov ->|specialize (Hdec Hin)]); pose proof (measure_nonneg j1); [lia|].
  destruct (IH j1 HI1 ltac:(lia)) as (evs & j' & Hr & Hall & Hlen & Hq & HI').
  exists (ev :: evs), j'. split_and!; [by eapply reaches_cons|by constructor|simpl; lia|done..].
Qed.

(** And it cannot run for longer. *)
Lemma internal_run_bound np j evs j' :
  Inv np j → reaches copy d now j evs j' → Forall (λ ev, internal ev = true) evs →
  Inv np j' ∧ Z.of_nat (length evs) + measure j' ≤ measure j.
Proof using Hwf.
  intros HI. induction 1 as [|evs j1 ev j2 _ IH Hs]; intros Hall; [simpl; by split; [|lia]|].
  apply Forall_app in Hall as [Hall Hev]. apply Forall_cons in Hev as [Hev _].
  destruct (IH Hall) as [HI1 Hm].
  destruct (exec_inv np j1 ev (Ok j2) HI1 Hs) as (? & ? & ? & Hdec); [by intros _ ov ->|].
  simplify_eq. split; [done|]. rewrite length_app. simpl. specialize (Hdec Hev). lia.
Qed.

End JobFacts.
End JobFacts.
