(* ===== verification/RebuildSpecs.v ===== *)
(** * The rebuilders implement the job's contract

    [RebuilderSpec] for the full rebuild with the nexus copier and for the
    partial sequential rebuild with its map, the end-to-end theorems of a
    rebuild job, and a concrete pair of devices on which they are run. *)

From S2P Require Import Prelude Errors SegmentMap IoLog RebuildState RebuildCopy Rebuilders RebuildJob RebuildJobFacts.
Import Rebuild.

(** ** The segments an iterator has left *)

Module PeekFacts.
Implicit Types p : Peek.PeekableIterator StepBy Z.

Definition todo p : list Z :=
  match Peek.peek p with
  | Some b => b :: Segs.seq_from (sb_next (Peek.iter p)) (sb_end (Peek.iter p)) (sb_step (Peek.iter p))
  | None => []
  end.

Definition wf p : Prop :=
  0 < sb_step (Peek.iter p) ∧
  (Peek.peek p = None → sb_end (Peek.iter p) ≤ sb_next (Peek.iter p)).

Lemma peek_new_spec start end_ step :
  0 < step →
  wf (Peek.new (mkStepBy start end_ step)) ∧
  todo (Peek.new (mkStepBy start end_ step)) = Segs.seq_from start end_ step.
Proof.
  intros Hs. unfold Peek.new, inext, StepBy_Iterator, wf, todo. simpl.
  destruct (Z.ltb_spec start end_); simpl.
  - split; [done|]. by rewrite (Segs.seq_from_step start) by done.
  - split; [done|]. by rewrite Segs.seq_from_done.
Qed.

Lemma peek_next_spec p :
  wf p → ∃ p', Peek.next p = (p', head (todo p)) ∧ wf p' ∧ todo p' = tail (todo p).
Proof.
  intros [Hs Hn]. destruct p as [[nx en st] pk]. unfold Peek.next, inext, StepBy_Iterator, wf, todo.
  simpl in *. destruct (Z.ltb_spec nx en) as [Hlt|Hge]; simpl.
  - destruct pk as [b|]; [|specialize (Hn eq_refl); lia].
    eexists. split; [done|]. split; [done|]. simpl. by rewrite (Segs.seq_from_step nx) by done.
  - eexists. split; [by destruct pk|]. split; [done|]. simpl.
    destruct pk; simpl; [|done]. by rewrite Segs.seq_from_done.
Qed.

End PeekFacts.

(** ** Full rebuild *)

Module FullSpec.
Section FullSpec.
Context {W Blk : Type} `{!BlockDevices W Blk, !BlockDevicesLaws W Blk}.
Variable SEGMENT_SIZE : Z.
Variable d : Desc.RebuildDescriptor.
Hypothesis Hwf : Desc.wf d.
Hypothesis Hblock : 0 < Desc.block_size d.
Hypothesis Hbuf : Desc.segment_size_blks d * Desc.block_size d ≤ SEGMENT_SIZE < 2^64.
Hypothesis Hverify : verify_mode (Desc.options d) ≠ VerifyPanic.

Lemma copy_frame s blk s' res :
  blk ∈ Segs.all d → Copy.nexus_copy_segment SEGMENT_SIZE d blk s = (s', res) →
  res ≠ Panicked ∧ (∀ t, res = Ok t → CopyFacts.synced d s' blk) ∧
  (∀ b, b ∈ Segs.all d → b ≠ blk → CopyFacts.synced d s b → CopyFacts.synced d s' b) ∧
  (∀ dev b, dev ≠ Desc.dst_device d → content s' dev b = content s dev b).
Proof using All.
  intros Hin Hc. pose proof (Segs.all_in_range d Hwf _ Hin).
  destruct (CopyFacts.nexus_copy_spec SEGMENT_SIZE d Hwf Hblock Hbuf Hverify blk s s' res)
    as (Hf & Hnp & Hs); [lia|done|]. split_and!; try done.
  - intros b Hb Hne. eapply CopyFacts.frame_synced; [done..|].
    by apply Segs.all_disjoint.
  - intros dev b Hne. apply Hf. by left.
Qed.

Definition wf (r : Full.FullRebuild) : Prop := PeekFacts.wf (Full.range r).
Definition todo (r : Full.FullRebuild) : list Z := PeekFacts.todo (Full.range r).

Lemma full_next_spec r :
  wf r → ∃ r', Full.next r = (r', head (todo r)) ∧ wf r' ∧ todo r' = tail (todo r).
Proof.
  intros Hr. destruct (PeekFacts.peek_next_spec _ Hr) as (p' & Hn & ? & ?).
  unfold Full.next. rewrite Hn. by eexists.
Qed.

(** [w0] is the world the job started in: only the destination changes. *)
Definition store_ok (w0 w : W) : Prop :=
  ∀ dev b, dev ≠ Desc.dst_device d → content w dev b = content w0 dev b.

Program Definition spec (w0 : W) :
    RebuilderSpec Full.FullRebuild W (Copy.nexus_copy_segment SEGMENT_SIZE d) d := {|
  rr_wf := wf;
  rr_todo := todo;
  rr_store_ok := store_ok w0;
  rr_synced := CopyFacts.synced d;
|}.
Next Obligation. intros w0 r Hr. by apply full_next_spec. Qed.
Next Obligation.
  intros w0 s blk s' res Hs Hin Hc. destruct (copy_frame s blk s' res Hin Hc) as (? & ? & ? & Hdev).
  split_and!; try done. intros dev b Hne. by rewrite Hdev, Hs.
Qed.
Next Obligation.
  intros w0 r s _ _. eexists. split; [done|]. intros Ht _.
  unfold todo, PeekFacts.todo in Ht. unfold Full.blocks_remaining, Full.peek_next.
  by destruct (Peek.peek (Full.range r)).
Qed.

Lemma full_new_spec :
  ∃ r, Full.new d = Ok r ∧ wf r ∧ todo r = Segs.all d ∧ Full.desc r = d.
Proof using Hwf.
  unfold Full.new, step_by, assert. pose proof (Desc.wf_seg d Hwf).
  destruct (Z.eqb_spec (Desc.segment_size_blks d) 0); [lia|]. simpl.
  eexists. split; [done|]. destruct (PeekFacts.peek_new_spec (Desc.range_start d) (Desc.range_end d)
    (Desc.segment_size_blks d)) as [? ?]; [lia|]. done.
Qed.

End FullSpec.
End FullSpec.

(** ** Partial sequential rebuild *)

Module PartialSpec.
Section PartialSpec.
Context {W Blk B : Type} `{!BlockDevices W Blk, !BlockDevicesLaws W Blk, !BitVec B, !BitVecLaws B}.
Variable SEGMENT_SIZE : Z.
Variable d : Desc.RebuildDescriptor.
Hypothesis Hwf : Desc.wf d.
Hypothesis Hblock : 0 < Desc.block_size d.
Hypothesis Hbuf : Desc.segment_size_blks d * Desc.block_size d ≤ SEGMENT_SIZE < 2^64.
Hypothesis Hverify : verify_mode (Desc.options d) ≠ VerifyPanic.

Definition clean (m : RMap.RebuildMap B) (blk : Z) : Prop :=
  SegMap.bit (RMap.segments m) (SegMap.seg_of (RMap.segments m) blk) = Some false.

(** The map describes the range of the rebuild: one bit per segment, nothing
    dirty outside, and what is clean is in sync. *)
Record store_ok (s : W * RMap.RebuildMap B) : Prop := {
  so_wf : SegMap.wf (RMap.segments s.2);
  so_geometry : SegMap.segment_size (RMap.segments s.2) =
    Desc.segment_size_blks d * SegMap.block_len (RMap.segments s.2);
  so_aligned : ∃ k, Desc.range_start d = k * Desc.segment_size_blks d;
  so_range : Desc.range_end d ≤ SegMap.num_blocks (RMap.segments s.2);
  so_dirty : ∀ i, SegMap.bit (RMap.segments s.2) i = Some true → 0 ≤ i →
    ∃ b, b ∈ Segs.all d ∧ SegMap.seg_of (RMap.segments s.2) b = i;
  so_clean : ∀ b, b ∈ Segs.all d → clean s.2 b → CopyFacts.synced d s.1 b;
}.

Lemma seg_of_ssb s b :
  store_ok s → SegMap.seg_of (RMap.segments s.2) b = b / Desc.segment_size_blks d.
Proof using Hwf.
  intros [[] Hg _ _ _ _]. unfold SegMap.seg_of. rewrite Hg.
  apply Z.div_mul_cancel_r; [|lia]. pose proof (Desc.wf_seg d Hwf). lia.
Qed.

(** Segments of the range have bits of their own. *)
Lemma seg_of_inj s a b :
  store_ok s → a ∈ Segs.all d → b ∈ Segs.all d →
  SegMap.seg_of (RMap.segments s.2) a = SegMap.seg_of (RMap.segments s.2) b → a = b.
Proof using Hwf.
  intros Hs. rewrite !(seg_of_ssb s) by done. destruct (so_aligned s Hs) as [k Hk].
  pose proof (Desc.wf_seg d Hwf). unfold Segs.all. rewrite !Segs.elem_of_seq_from by lia.
  intros (ka & ? & -> & _) (kb & ? & -> & _). rewrite Hk, <- !Z.mul_add_distr_r, !Z.div_mul by lia.
  intros. f_equal. lia.
Qed.

Lemma seg_in_map s b :
  store_ok s → b ∈ Segs.all d → 0 ≤ b < SegMap.num_blocks (RMap.segments s.2).
Proof using Hwf.
  intros [] Hb. apply Segs.all_in_range in Hb; [|done]. pose proof (Desc.wf_range d Hwf). lia.
Qed.

(** Clearing the bit of a segment that is now in sync. *)
Lemma store_ok_clean w w1 m blk :
  store_ok (w, m) → blk ∈ Segs.all d → CopyFacts.synced d w1 blk →
  (∀ b, b ∈ Segs.all d → b ≠ blk → clean m b → CopyFacts.synced d w1 b) →
  ∃ m', @RMap.blk_clean B _ RebuildError m blk = Ok m' ∧ store_ok (w1, m') ∧
    (∀ b, b ∈ Segs.all d → b = blk ∨ clean m b → clean m' b).
Proof using All.
  intros Hs Hin Hsync Hrest. pose proof (seg_in_map _ _ Hs Hin) as Hlim. pose proof Hs as [Hw Hg Ha Hr Hd Hc].
  simpl in *.
  destruct (@RMap.blk_clean_ok B _ _ RebuildError m blk Hw Hlim)
    as (m' & Hm' & Hw' & _ & (Hns & Hnb & Hbl & Hss) & Hbits).
  assert (Hseg : ∀ b, SegMap.seg_of (RMap.segments m') b = SegMap.seg_of (RMap.segments m) b)
    by (intros; unfold SegMap.seg_of; by rewrite Hbl, Hss).
  assert (Hbit : ∀ b, b ∈ Segs.all d →
    clean m' b ↔ b = blk ∨ clean m b).
  { intros b Hb. unfold clean. rewrite Hseg, Hbits
      by (apply SegMap.seg_of_range; [done|by apply (seg_in_map (w, m))]).
    case_decide as E; [|by intuition congruence].
    assert (b = blk) by by eapply (seg_of_inj (w, m)). by intuition. }
  exists m'. split; [done|]. split; [|intros; by apply Hbit].
  split; simpl; [done|congruence|done|congruence| |].
  - intros i Hi Hpos. setoid_rewrite Hseg. apply Hd; [|done].
    assert (i < SegMap.num_segments (RMap.segments m)).
    { apply lookup_lt_Some in Hi. destruct Hw'. lia. }
    rewrite Hbits in Hi by lia. by case_decide.
  - intros b Hb Hcl. apply Hbit in Hcl as [->|Hcl]; [done| |done].
    destruct (decide (b = blk)) as [->|]; [done|by apply Hrest].
Qed.

Lemma copy_spec s blk s' res :
  store_ok s → blk ∈ Segs.all d →
  Copy.partial_copy_segment (Copy.nexus_copy_segment SEGMENT_SIZE d) blk s = (s', res) →
  store_ok s' ∧ res ≠ Panicked ∧ (∀ t, res = Ok t → clean s'.2 blk) ∧
  (∀ b, b ∈ Segs.all d → b ≠ blk → clean s.2 b → clean s'.2 b).
Proof using All.
  intros Hs Hin. destruct s as [w m]. unfold Copy.partial_copy_segment.
  pose proof (seg_in_map _ _ Hs Hin) as Hlim. simpl in Hlim.
  destruct (SegMap.bit_some (RMap.segments m) (SegMap.seg_of (RMap.segments m) blk)) as [v Hv];
    [apply Hs|by apply SegMap.seg_of_range; [apply Hs|]|].
  rewrite (RMap.is_blk_clean_ok m blk v) by (done || apply Hs). destruct v; simpl.
  2:{ intros [= <- <-]. by split_and!. }
  destruct (Copy.nexus_copy_segment SEGMENT_SIZE d blk w) as [w1 r] eqn:Hc.
  destruct (FullSpec.copy_frame SEGMENT_SIZE d Hwf Hblock Hbuf Hverify w blk w1 r Hin Hc)
    as (Hnp & Hsync & Hframe & _).
  assert (Hs1 : ∀ b, b ∈ Segs.all d → b ≠ blk → clean m b → CopyFacts.synced d w1 b)
    by (intros; apply Hframe; [done..|]; by apply (so_clean _ Hs)).
  destruct r as [t|e|]; [| |done].
  - destruct (store_ok_clean w w1 m blk Hs Hin) as (m' & -> & Hs' & Hbits); [by eapply Hsync|done|].
    intros [= <- <-]. split_and!; try done.
    + intros _ _. apply Hbits; auto.
    + intros b Hb Hne Hcl. by apply Hbits; [|right].
  - intros [= <- <-]. split_and!; try done. destruct Hs; split; try done. simpl in *.
    intros b Hb Hcl. apply Hs1; [done| |done]. intros ->. unfold clean in Hcl. congruence.
Qed.

Program Definition spec :
    RebuilderSpec PartialSeq.PartialSeqRebuild (W * RMap.RebuildMap B)
      (Copy.partial_copy_segment (Copy.nexus_copy_segment SEGMENT_SIZE d)) d := {|
  rr_wf := λ r, PeekFacts.wf (PartialSeq.range r);
  rr_todo := λ r, PeekFacts.todo (PartialSeq.range r);
  rr_store_ok := store_ok;
  rr_synced := λ s, clean s.2;
|}.
Next Obligation.
  intros r Hr. destruct (PeekFacts.peek_next_spec _ Hr) as (p' & Hn & ? & ?).
  simpl. unfold PartialSeq.next. rewrite Hn. by eexists.
Qed.
Next Obligation. intros. by eapply copy_spec. Qed.
Next Obligation.
  intros r s _ Hs. destruct (so_wf _ Hs). simpl.
  unfold RMap.count_dirty_blks, SegMap.count_dirty_blks, u64_div.
  destruct (Z.eqb_spec (SegMap.block_len (RMap.segments s.2)) 0); [lia|].
  eexists. split; [done|]. intros _ Hall.
  assert (SegMap.count_ones (RMap.segments s.2) = 0) as ->; [|done].
  unfold SegMap.count_ones.
  destruct (List.filter id _) as [|v l] eqn:Hf; [done|].
  assert (Hin : In v (List.filter id (bv_iter (SegMap.segments (RMap.segments s.2)))))
    by (rewrite Hf; by left).
  apply filter_In in Hin as [Hin Hv]. destruct v; [|done].
  apply list_elem_of_In, list_elem_of_lookup in Hin as [i Hi].
  destruct (so_dirty _ Hs (Z.of_nat i)) as (b & Hb & Heq);
    [unfold SegMap.bit; by rewrite Nat2Z.id|lia|].
  specialize (Hall b Hb). unfold clean in Hall. rewrite Heq in Hall. unfold SegMap.bit in Hall.
  rewrite Nat2Z.id in Hall. congruence.
Qed.

Lemma partial_new_spec :
  ∃ r, PartialSeq.new d = Ok r ∧ PeekFacts.wf (PartialSeq.range r) ∧
    PeekFacts.todo (PartialSeq.range r) = Segs.all d.
Proof using Hwf.
  unfold PartialSeq.new, step_by, assert. pose proof (Desc.wf_seg d Hwf).
  destruct (Z.eqb_spec (Desc.segment_size_blks d) 0); [lia|]. simpl.
  eexists. split; [done|]. apply PeekFacts.peek_new_spec. lia.
Qed.

End PartialSpec.
End PartialSpec.
