(* ===== verification/RebuildProps.v ===== *)
(** * Properties of rebuild jobs

    The end-to-end theorems about a rebuild, on any devices that satisfy the
    block device laws, and a concrete pair of devices on which the job is
    run. *)

From S2P Require Import Prelude Errors SegmentMap IoLog RebuildState RebuildCopy Rebuilders RebuildJob RebuildJobFacts RebuildSpecs.
Import Rebuild.

(** ** Sample devices

    Two devices in memory.  A write to the block [bad] fails once. *)

Module Sample.

Record World := mkWorld { data : string → Z → Z; bad : option Z }.

Definition read (w : World) (d : string) (o n : Z) : list Z :=
  (λ i, data w d (o + Z.of_nat i)) <$> seq 0 (Z.to_nat n).

Definition update (f : string → Z → Z) (d : string) (o : Z) (xs : list Z) : string → Z → Z :=
  λ d' b, if bool_decide (d' = d ∧ o ≤ b < o + Z.of_nat (length xs))
          then default 0 (xs !! Z.to_nat (b - o)) else f d' b.

#[global] Instance devices : BlockDevices World Z := {
  readv w d o n _ := (w, Ok (read w d o n));
  writev w d o xs :=
    if bool_decide (bad w = Some o)
    then (mkWorld (data w) None, Err (WriteFailed (NvmeError (NvmeStatusOther 0 6)) o (Z.of_nat (length xs))))
    else (mkWorld (update (data w) d o xs) (bad w), Ok tt);
  comparev w d o xs :=
    (w, if bool_decide (read w d o (Z.of_nat (length xs)) = xs) then Ok tt
        else Err (CompareFailed (NvmeError Media_COMPARE_FAILURE) o (Z.of_nat (length xs))));
  lock_lba_range w _ _ := (w, Ok tt);
  unlock_lba_range w _ _ := (w, Ok tt);
  content := data;
  unwritten _ _ _ _ := False;
}.

Lemma length_read w d o n : length (read w d o n) = Z.to_nat n.
Proof. unfold read. by rewrite length_fmap, length_seq. Qed.

Lemma lookup_read w d o n i : 0 ≤ i < n → read w d o n !! Z.to_nat i = Some (data w d (o + i)).
Proof.
  intros Hi. unfold read. rewrite list_lookup_fmap, lookup_seq_lt by lia. simpl.
  by rewrite Z2Nat.id by lia.
Qed.

#[global] Instance devices_laws : BlockDevicesLaws World Z.
Proof.
  split; simpl; intros; try done.
  - simplify_eq. split; [apply length_read|apply lookup_read].
  - case_bool_decide; simplify_eq. simpl. unfold update.
    rewrite bool_decide_true by (split; [done|lia]).
    destruct (lookup_lt_is_Some_2 data0 (Z.to_nat i)) as [x Hx]; [lia|].
    replace (o + i - o) with i by lia. by rewrite Hx.
  - case_bool_decide; simpl; [done|]. unfold update. rewrite bool_decide_false; [done|].
    intros [-> ?]. destruct H as [?|?]; [done|lia].
  - by case_bool_decide.
  - by case_bool_decide.
Qed.

#[global] Instance debug_fmt : RS.DebugFmt := λ s, RS.state_display (RS.current s).

(** A range of 5 blocks in segments of 2: the last segment is short. *)
Definition desc : Desc.RebuildDescriptor :=
  Desc.mkDescriptor 512 2 7 (mkOptions VerifyFail ReadNone) 2 "bdev:///src" "bdev:///dst"
    "src" "dst" 0.

Definition buf : Z := 65536.

Definition world (b : option Z) : World :=
  mkWorld (λ d i, if bool_decide (d = "src") then 100 + i else 0) b.

Lemma desc_wf : Desc.wf desc.
Proof. split; vm_compute; split || done; done. Qed.

Definition copy := Copy.nexus_copy_segment buf desc (W := World) (Blk := Z).

Definition full : Full.FullRebuild := Full.mkFull (Peek.new (mkStepBy 2 7 2)) desc.

(** Runs a sequence of events. *)
Fixpoint run {R S} `{!RangeRebuilder R S} (c : Z → ST S RebuildError bool)
    (d : Desc.RebuildDescriptor) (evs : list Job.event) (j : Job.Job R S) : option (Job.Job R S) :=
  match evs with
  | [] => Some j
  | ev :: evs =>
      match Job.exec c d 0 ev j with Some (Ok j') => run c d evs j' | _ => None end
  end.

Lemma run_reaches {R S} `{!RangeRebuilder R S} c d evs (j j' : Job.Job R S) :
  run c d evs j = Some j' → Job.reaches c d 0 j evs j'.
Proof.
  revert j. induction evs as [|ev evs IH]; intros j; simpl; [intros [= <-]; constructor|].
  destruct (Job.exec c d 0 ev j) as [[j1| |]|] eqn:Hx; try done.
  intros Hr. eapply JobFacts.reaches_cons; [exact Hx|auto].
Qed.

Definition start_full (n : nat) (w : World) : Job.Job Full.FullRebuild World :=
  Job.init n full w.

End Sample.

(** ** Full rebuild *)

Module FullProps.
Section FullProps.
Context {W Blk : Type} `{!BlockDevices W Blk, !BlockDevicesLaws W Blk} `{!RS.DebugFmt}.
Variable SEGMENT_SIZE : Z.
Variable d : Desc.RebuildDescriptor.
Variable now : Z.
Hypothesis Hwf : Desc.wf d.
Hypothesis Hblock : 0 < Desc.block_size d.
Hypothesis Hbuf : Desc.segment_size_blks d * Desc.block_size d ≤ SEGMENT_SIZE < 2^64.
Hypothesis Hverify : verify_mode (Desc.options d) ≠ VerifyPanic.

Local Abbreviation copy := (Copy.nexus_copy_segment SEGMENT_SIZE d).

Lemma full_inv np n r w evs j :
  (0 < n)%nat → Full.new d = Ok r →
  Job.reaches copy d now (Job.init n r w) evs j →
  (np = true → Forall JobFacts.no_pause evs) →
  JobFacts.Inv (R := Full.FullRebuild) (S := W) copy d
    (RebuilderSpec0 := FullSpec.spec SEGMENT_SIZE d Hwf Hblock Hbuf Hverify w) np j.
Proof using All.
  intros Hn Hr Hreach Hnp. eapply JobFacts.reaches_inv; [done| |done..].
  destruct (FullSpec.full_new_spec d Hwf) as (r' & Hr' & Hw & Ht & _). rewrite Hr in Hr'; injection Hr' as <-.
  apply JobFacts.init_inv; simpl; [done|exact Hw|by intros dev b _|by rewrite Ht].
Qed.

(** C1. Take a full rebuild over any devices, with any number of tasks, with
    copies completing in any order and any client operations except a pause,
    interleaved in any way.  If the job reports [Completed], then every block
    of the range holds on the destination what the source holds, unless the
    source reported it as never written; and no device but the destination
    was changed. *)
Theorem full_rebuild_completed_is_synced n r w evs j :
  (0 < n)%nat → Full.new d = Ok r →
  Job.reaches copy d now (Job.init n r w) evs j →
  Forall JobFacts.no_pause evs →
  RS.current (Job.states j) = RS.Completed →
  (∀ b, Desc.range_start d ≤ b < Desc.range_end d →
    content (Job.store j) (Desc.dst_device d) b = content (Job.store j) (Desc.src_device d) b ∨
    ∃ o len, o ≤ b < o + len ∧ unwritten (Job.store j) (Desc.src_device d) o len) ∧
  (∀ dev b, dev ≠ Desc.dst_device d → content (Job.store j) dev b = content w dev b).
Proof using All.
  intros Hn Hr Hreach Hnp Hcur. pose proof (full_inv true n r w evs j Hn Hr Hreach (λ _, Hnp)) as HI.
  split.
  - intros b Hb. destruct (Segs.all_cover d Hwf b Hb) as (s & Hs & Hin).
    destruct (JobFacts.completed_synced _ _ _ HI Hcur s Hs) as [Hu|Hc]; [right|left; by apply Hc].
    by exists s, (CopyFacts.seg_len d s).
  - destruct HI as (ok & err & Hp & _). apply (JobFacts.p_store _ _ _ _ _ _ _ Hp).
Qed.

(** In every state a full rebuild can reach, pauses included, every event
    that can happen next ends without a panic: the assertions of the manager
    ("no active tasks" when starting, "progress is 100% but blocks
    remaining") never fail. *)
Theorem full_rebuild_never_panics n r w evs j ev o :
  (0 < n)%nat → Full.new d = Ok r →
  Job.reaches copy d now (Job.init n r w) evs j →
  Job.exec copy d now ev j = Some o →
  ∃ j', o = Ok j'.
Proof using All.
  intros Hn Hr Hreach Hx.
  pose proof (full_inv false n r w evs j Hn Hr Hreach ltac:(done)) as HI.
  destruct (JobFacts.exec_inv copy d now Hwf false j ev o HI Hx) as (j' & ? & _); [done|by exists j'].
Qed.

(** C32. A rebuild does not spin, and what is asked of it is applied, but for
    one operation: from every reachable state the manager and its tasks alone come
    to rest, with the job either in a final state or parked, with no message and
    no operation left to apply.  The exception is a [Pause] of a job that was never
    started: it is recorded as pending and does not wake the manager, which stays
    parked in [Init] with the [Pause] pending until another message comes.  No run
    of the manager and its tasks is longer than [JobFacts.measure]. *)
Theorem full_rebuild_comes_to_rest n r w evs j :
  (0 < n)%nat → Full.new d = Ok r →
  Job.reaches copy d now (Job.init n r w) evs j →
  let spec := FullSpec.spec SEGMENT_SIZE d Hwf Hblock Hbuf Hverify w in
  (∃ evs' j', Job.reaches copy d now j evs' j' ∧
     Forall (λ ev, JobFacts.internal ev = true) evs' ∧ JobFacts.quiescent j') ∧
  (∀ evs' j', Job.reaches copy d now j evs' j' →
     Forall (λ ev, JobFacts.internal ev = true) evs' →
     Z.of_nat (length evs') ≤ JobFacts.measure copy d (RebuilderSpec0 := spec) j).
Proof using All.
  intros Hn Hr Hreach spec.
  pose proof (full_inv false n r w evs j Hn Hr Hreach ltac:(done)) as HI. split.
  - destruct (JobFacts.comes_to_rest copy d now Hwf false
      (Z.to_nat (JobFacts.measure copy d (RebuilderSpec0 := spec) j)) j HI)
      as (evs' & j' & ? & ? & _ & ? & _); [rewrite Z2Nat.id; [done|apply JobFacts.measure_nonneg]|by exists evs', j'].
  - intros evs' j' Hrun Hint.
    destruct (JobFacts.internal_run_bound copy d now Hwf false j evs' j' HI Hrun Hint) as [_ Hm].
    pose proof (JobFacts.measure_nonneg copy d (RebuilderSpec0 := spec) j'). subst spec. lia.
Qed.

(** When a rebuild job is in a final state, its manager has exited and no
    copy is running or has an unread result: nothing writes to the
    destination after the job is done. *)
Theorem full_rebuild_done_is_silent n r w evs j :
  (0 < n)%nat → Full.new d = Ok r →
  Job.reaches copy d now (Job.init n r w) evs j →
  RS.done (RS.current (Job.states j)) = true →
  Job.futures (Job.tasks j) = [] ∧ Job.channel (Job.tasks j) = [] ∧ Job.pc j = Job.Exited ∧
  ∀ i, Job.exec copy d now (Job.EvTask i) j = None.
Proof using All.
  intros Hn Hr Hreach Hd.
  pose proof (full_inv false n r w evs j Hn Hr Hreach ltac:(done)) as HI.
  destruct (JobFacts.done_no_tasks _ _ _ _ HI Hd) as (Hf & Hch & Hpc).
  split_and!; try done. intros i. simpl. by rewrite Hf, lookup_nil.
Qed.

(** Every segment of the range is accounted for exactly once: at any time
    it is done, failed, being copied, waiting for its result to be read, or
    still to be started; in particular no segment is ever copied by two tasks
    at a time, and [tasks_active] counts exactly the copies under way. *)
Theorem full_rebuild_accounts_segments n r w evs j :
  (0 < n)%nat → Full.new d = Ok r →
  Job.reaches copy d now (Job.init n r w) evs j →
  let t := Job.tasks j in
  ∃ ok failed,
    Segs.all d ≡ₚ ok ++ failed ++ (Job.futures t).*2 ++ (Job.tr_blk <$> Job.channel t) ++
      FullSpec.todo (Job.range j) ∧
    Job.segments_done t = Z.of_nat (length ok) ∧
    Job.active t = Z.of_nat (length (Job.futures t) + length (Job.channel t)) ∧
    NoDup ((Job.futures t).*2).
Proof using All.
  intros Hn Hr Hreach t.
  destruct (full_inv false n r w evs j Hn Hr Hreach ltac:(done)) as (ok & err & Hp & _).
  destruct Hp as [Hpart Hdone _ Hact _ _ _ _ _ _ _]. exists ok, err. split_and!; try done.
  assert (Hnd : NoDup (Segs.all d)) by (apply Segs.seq_from_NoDup; apply Hwf).
  rewrite Hpart in Hnd. apply NoDup_app in Hnd as (_ & _ & Hnd).
  apply NoDup_app in Hnd as (_ & _ & Hnd). by apply NoDup_app in Hnd as (? & _ & _).
Qed.

End FullProps.
End FullProps.

(** ** Runs on the sample devices *)

Module SampleRuns.
Import Sample Job.

Definition full_run : list event :=
  [EvOp RS.Start false; EvTop; EvMessage; EvTask 1; EvTask 0; EvResult; EvResult; EvTask 0;
   EvResult; EvTop].

Definition running_run : list event := [EvOp RS.Start false; EvTop; EvMessage; EvTask 1].

(** The state after a run, and the start state if an event was not
    enabled. *)
Definition after (evs : list event) (w : World) : Job Full.FullRebuild World :=
  default (start_full 2 w) (run copy desc evs (start_full 2 w)).

Lemma full_run_reaches :
  reaches copy desc 0 (start_full 2 (world None)) full_run (after full_run (world None)).
Proof. apply run_reaches. vm_compute. reflexivity. Qed.

Lemma running_run_reaches :
  reaches copy desc 0 (start_full 2 (world None)) running_run (after running_run (world None)).
Proof. apply run_reaches. vm_compute. reflexivity. Qed.

Lemma desc_buf : Desc.segment_size_blks desc * Desc.block_size desc ≤ buf < 2^64.
Proof. by vm_compute. Qed.

Lemma desc_verify : verify_mode (Desc.options desc) ≠ VerifyPanic.
Proof. done. Qed.

Lemma full_rebuild_completed_is_synced_witness :
  data (store (after full_run (world None))) "dst" 6 = 106.
Proof.
  destruct (@FullProps.full_rebuild_completed_is_synced World Z _ _ _ buf desc 0 desc_wf
    ltac:(done) desc_buf desc_verify 2 full (world None) full_run (after full_run (world None)))
    as [Hsync Hsrc].
  - lia.
  - by vm_compute.
  - exact full_run_reaches.
  - repeat (constructor; [by intros ov|]). constructor.
  - by vm_compute.
  - destruct (Hsync 6 ltac:(by vm_compute)) as [E|(? & ? & _ & [])].
    refine (eq_trans E _). by apply (Hsrc "src" 6).
Defined.

Lemma full_rebuild_never_panics_witness :
  ∃ j', exec copy desc 0 EvResult (after running_run (world None)) = Some (Ok j').
Proof.
  destruct (exec copy desc 0 EvResult (after running_run (world None))) as [o|] eqn:Hx.
  - destruct (@FullProps.full_rebuild_never_panics World Z _ _ _ buf desc 0 desc_wf
      ltac:(done) desc_buf desc_verify 2 full (world None) running_run
      (after running_run (world None)) EvResult o) as [j' ->].
    + lia.
    + by vm_compute.
    + exact running_run_reaches.
    + exact Hx.
    + by exists j'.
  - by vm_compute in Hx.
Defined.

Lemma full_rebuild_comes_to_rest_witness :
  ∃ evs' j', reaches copy desc 0 (after running_run (world None)) evs' j' ∧
    JobFacts.quiescent j'.
Proof.
  destruct (@FullProps.full_rebuild_comes_to_rest World Z _ _ _ buf desc 0 desc_wf
    ltac:(done) desc_buf desc_verify 2 full (world None) running_run
    (after running_run (world None))) as [(evs' & j' & Hr & _ & Hq) _].
  - lia.
  - by vm_compute.
  - exact running_run_reaches.
  - by exists evs', j'.
Defined.

Lemma full_rebuild_done_is_silent_witness :
  futures (tasks (after full_run (world None))) = [] ∧ pc (after full_run (world None)) = Exited.
Proof.
  destruct (@FullProps.full_rebuild_done_is_silent World Z _ _ _ buf desc 0 desc_wf
    ltac:(done) desc_buf desc_verify 2 full (world None) full_run
    (after full_run (world None))) as (Hf & _ & Hpc & _).
  - lia.
  - by vm_compute.
  - exact full_run_reaches.
  - by vm_compute.
  - exact (conj Hf Hpc).
Defined.

Lemma full_rebuild_accounts_segments_witness :
  ∃ ok failed, Segs.all desc ≡ₚ ok ++ failed ++ [2; 4; 6] ∧ length ok = 0%nat.
Proof.
  destruct (@FullProps.full_rebuild_accounts_segments World Z _ _ _ buf desc 0 desc_wf
    ltac:(done) desc_buf desc_verify 2 full (world None) running_run
    (after running_run (world None))) as (ok & failed & Hp & Hd & _).
  - lia.
  - by vm_compute.
  - exact running_run_reaches.
  - exists ok, failed. split; [|vm_compute in Hd; destruct ok; [reflexivity|discriminate Hd]].
    vm_compute in Hp. exact Hp.
Defined.

(** A pause while two copies run, the second of which fails. *)
Definition pause_run : list event :=
  [EvOp RS.Start false; EvTop; EvMessage; EvOp RS.Pause false; EvTask 0; EvResult; EvTask 0;
   EvResult; EvTop; EvOp RS.Resume false; EvMessage; EvTop; EvTask 0; EvResult; EvTop].

(** With a pause the guarantee is lost: a copy that fails while the
    manager waits for its tasks in order to pause is not recorded, the
    resumed job goes on with the segments after it and reports [Completed],
    and the destination lacks the data of the failed segment. *)
Theorem pause_loses_failed_segment :
  ∃ j, reaches copy desc 0 (start_full 2 (world (Some 4))) pause_run j ∧
    RS.current (states j) = RS.Completed ∧ RS.error (states j) = None ∧
    data (store j) "src" 4 = 104 ∧ data (store j) "dst" 4 = 0.
Proof.
  exists (after pause_run (world (Some 4))). split; [|by vm_compute].
  apply run_reaches. vm_compute. reflexivity.
Qed.

(** A pause of a job that was not started is left pending, and the start that
    follows is refused because of it. *)
Definition early_pause_run : list event := [EvTop; EvOp RS.Pause false; EvOp RS.Start false].

Lemma early_pause_is_left_pending :
  let j := after early_pause_run (world None) in
  JobFacts.quiescent j ∧ RS.current (states j) = RS.Init ∧ RS.pending (states j) = Some RS.Paused.
Proof. cbv zeta. split; [|by vm_compute]. right. vm_compute. by auto 6. Qed.

End SampleRuns.

(** ** Partial sequential rebuild *)

Module PartialProps.
Section PartialProps.
Context {W Blk B : Type} `{!BlockDevices W Blk, !BlockDevicesLaws W Blk, !BitVec B, !BitVecLaws B}.
Context `{!RS.DebugFmt}.
Variable SEGMENT_SIZE : Z.
Variable d : Desc.RebuildDescriptor.
Variable now : Z.
Hypothesis Hwf : Desc.wf d.
Hypothesis Hblock : 0 < Desc.block_size d.
Hypothesis Hbuf : Desc.segment_size_blks d * Desc.block_size d ≤ SEGMENT_SIZE < 2^64.
Hypothesis Hverify : verify_mode (Desc.options d) ≠ VerifyPanic.

Local Abbreviation copy := (Copy.partial_copy_segment (Copy.nexus_copy_segment SEGMENT_SIZE d)).

(** C2. A partial rebuild is as good as a full one when its map is right.
    Start from a map that covers the range, in which every segment not marked
    dirty is already in sync.  If the job, never paused, reports [Completed],
    then every segment of the map is clean, every block of the range holds on
    the destination what the source holds unless the source never wrote it,
    and [blocks_remaining] is zero. *)
Theorem partial_rebuild_completed_is_synced n r (w : W) (map : RMap.RebuildMap B) evs j :
  (0 < n)%nat → PartialSeq.new d = Ok r →
  PartialSpec.store_ok d (w, map) →
  Job.reaches copy d now (Job.init n r (w, map)) evs j →
  Forall JobFacts.no_pause evs →
  RS.current (Job.states j) = RS.Completed →
  (∀ b, b ∈ Segs.all d → PartialSpec.clean (Job.store j).2 b) ∧
  (∀ b, Desc.range_start d ≤ b < Desc.range_end d →
    content (Job.store j).1 (Desc.dst_device d) b = content (Job.store j).1 (Desc.src_device d) b ∨
    ∃ o len, o ≤ b < o + len ∧ unwritten (Job.store j).1 (Desc.src_device d) o len) ∧
  rr_blocks_remaining (Job.range j) (Job.store j) = Ok 0.
Proof using All.
  intros Hn Hr Hstore Hreach Hnp Hcur.
  set (spec := PartialSpec.spec (B := B) SEGMENT_SIZE d Hwf Hblock Hbuf Hverify).
  assert (HI : JobFacts.Inv copy d (RebuilderSpec0 := spec) true j).
  { eapply JobFacts.reaches_inv; [done| |done|done].
    destruct (PartialSpec.partial_new_spec d Hwf) as (r' & Hr' & Hw & Ht).
    rewrite Hr in Hr'. injection Hr' as <-.
    apply JobFacts.init_inv; [done|exact Hw|exact Hstore|]. simpl. by rewrite Ht. }
  pose proof (JobFacts.completed_synced _ _ _ HI Hcur) as Hclean.
  destruct HI as (ok & err & Hp & Hc & _). destruct Hp as [_ _ _ _ _ _ _ Hrw Hso _ _].
  split; [exact Hclean|]. split.
  - intros b Hb. destruct (Segs.all_cover d Hwf b Hb) as (s & Hs & Hin).
    destruct (PartialSpec.so_clean d _ Hso s Hs (Hclean s Hs)) as [Hu|Hd]; [right|left; by apply Hd].
    by exists s, (CopyFacts.seg_len d s).
  - destruct (rr_remaining_spec (Job.range j) (Job.store j) Hrw Hso) as (n' & Hrem & Hz).
    rewrite Hrem. f_equal. apply Hz; [|exact Hclean].
    apply (JobFacts.c_completed _ _ _ Hc). by left.
Qed.

End PartialProps.

(** The sample devices differ in the segment of blocks 4 and 5 only. *)
Definition world : Sample.World :=
  Sample.mkWorld (λ d i, if bool_decide (d = "src" ∨ i < 4 ∨ 5 < i) then 100 + i else 0) None.

Definition map : RMap.RebuildMap (list bool) :=
  RMap.mkRebuildMap "dst" (SegMap.mkSegmentMap [false; false; true; false] 4 8 512 1024).

Definition rebuild : PartialSeq.PartialSeqRebuild :=
  PartialSeq.mkPartialSeq (Peek.new (mkStepBy 2 7 2)).

Definition pcopy := Copy.partial_copy_segment (B := list bool) Sample.copy.

Definition after : Job.Job PartialSeq.PartialSeqRebuild (Sample.World * RMap.RebuildMap (list bool)) :=
  default (Job.init 2 rebuild (world, map))
    (Sample.run pcopy Sample.desc SampleRuns.full_run (Job.init 2 rebuild (world, map))).

Lemma store_ok_start : PartialSpec.store_ok Sample.desc (world, map).
Proof.
  split; simpl.
  - split; vm_compute; split || done; done.
  - done.
  - by exists 1.
  - by vm_compute.
  - intros i Hi Hpos. unfold SegMap.bit in Hi. simpl in Hi.
    assert (i < 4) by (apply lookup_lt_Some in Hi; simpl in Hi; lia).
    assert (i = 0 ∨ i = 1 ∨ i = 2 ∨ i = 3) as [->|[->|[->| ->]]] by lia; try (by vm_compute in Hi).
    exists 4. split; [|done]. vm_compute. apply list_elem_of_In. simpl. auto.
  - intros b Hb Hcl. right. intros i Hi. simpl. unfold world. simpl.
    rewrite bool_decide_true; [done|]. right.
    assert (Hl : b = 2 ∨ b = 4 ∨ b = 6).
    { vm_compute in Hb. apply list_elem_of_In in Hb. simpl in Hb. lia. }
    destruct Hl as [->|[->| ->]]; [|by vm_compute in Hcl|];
      unfold CopyFacts.seg_len in Hi; simpl in Hi; lia.
Qed.

Lemma partial_rebuild_completed_is_synced_witness :
  Sample.data (Job.store after).1 "dst" 5 = Sample.data (Job.store after).1 "src" 5.
Proof.
  destruct (@partial_rebuild_completed_is_synced Sample.World Z (list bool) _ _ _ _ _ Sample.buf
    Sample.desc 0 Sample.desc_wf ltac:(done) SampleRuns.desc_buf SampleRuns.desc_verify 2 rebuild
    world map SampleRuns.full_run after) as (_ & Hsync & _).
  - lia.
  - by vm_compute.
  - exact store_ok_start.
  - apply Sample.run_reaches. vm_compute. reflexivity.
  - repeat (constructor; [by intros ov|]). constructor.
  - by vm_compute.
  - destruct (Hsync 5 ltac:(by vm_compute)) as [E|(? & ? & _ & [])]. exact E.
Defined.

(** *** Partial rebuild over a segment map *)

Lemma next_loop_first k rest : ∀ fuel idx r,
  Partial.range r = Peek.new (mkEnumerate idx (replicate k false ++ true :: rest)) →
  (k < fuel)%nat →
  (Partial.next_loop fuel r).2 = Some (Z.of_nat (idx + k)).
Proof.
  induction k as [|k IH]; intros [|fuel] idx r Hr Hf; try lia; simpl; rewrite Hr; simpl.
  - rewrite Nat.add_0_r. unfold Peek.next. simpl.
    destruct (inext (mkEnumerate (S idx) rest)) as [it x]. done.
  - unfold Peek.next. simpl.
    destruct (inext (mkEnumerate (S idx) (replicate k false ++ true :: rest))) as [it x] eqn:Hx.
    rewrite (IH fuel (S idx)); [f_equal; lia| |lia].
    simpl. unfold Peek.new. by rewrite Hx.
Qed.

(** The partial rebuild over a segment map yields the index of the first
    dirty segment as if it were a block number.  The copy then starts at that
    block, which lies outside of the dirty segment unless the segment is the
    first one or segments are one block long. *)
Theorem partial_rebuild_yields_segment_index {B} `{!BitVec B, !BitVecLaws B}
    (m : SegMap.SegmentMap B) r k rest :
  bv_iter (SegMap.segments m) = replicate k false ++ true :: rest →
  Partial.new m = Ok r →
  (Partial.next r).2 = Some (Z.of_nat k) ∧
  (1 < Partial.segment_size_blks r → (0 < k)%nat →
   Z.of_nat k < Z.of_nat k * Partial.segment_size_blks r).
Proof.
  intros Hbits. unfold Partial.new.
  destruct (SegMap.count_dirty_blks m) as [t| |]; simpl; try done.
  destruct (SegMap.segment_size_blks m) as [ssb| |]; simpl; try done. intros [= <-].
  split; [|simpl; nia]. unfold Partial.next. rewrite Hbits.
  rewrite (next_loop_first k rest _ 0); [done|done|].
  simpl. destruct k; simpl; [lia|]. rewrite length_app, length_replicate. simpl. lia.
Qed.

Lemma partial_rebuild_yields_segment_index_witness :
  ∃ r, Partial.new (SegMap.mkSegmentMap [false; false; true; false] 4 8 512 1024) = Ok r ∧
    (Partial.next r).2 = Some 2.
Proof.
  eexists. split; [reflexivity|].
  apply (partial_rebuild_yields_segment_index
    (SegMap.mkSegmentMap [false; false; true; false] 4 8 512 1024) _ 2 [false]); reflexivity.
Defined.

End PartialProps.

(** ** Descriptors *)

Module DescProps.

(** A descriptor that [new] returns for a non-empty range satisfies what
    every theorem about the rebuild job assumes: the source and destination
    are different devices of one block size, the range lies inside both, and
    a segment is at least one block long and fits the task's buffer. *)
Theorem descriptor_new_wf SEGMENT_SIZE get_name dev_open handle src_uri dst_uri s e opts now d :
  (∀ name rw dev, dev_open name rw = Ok dev →
     0 < dev_block_len dev ≤ SEGMENT_SIZE ∧ dev_num_blocks dev ≤ 2^55) →
  SEGMENT_SIZE ≤ 2^32 → 0 ≤ s < e →
  Desc.new SEGMENT_SIZE get_name dev_open handle src_uri dst_uri (Some (s, e)) opts now = Ok d →
  Desc.wf d ∧ 0 < Desc.block_size d ∧
  Desc.segment_size_blks d * Desc.block_size d ≤ SEGMENT_SIZE < 2^64 ∧
  ∃ src dst, Desc.open_uri get_name dev_open src_uri false = Ok src ∧
    Desc.open_uri get_name dev_open dst_uri true = Ok dst ∧
    dev_block_len src = dev_block_len dst ∧
    e ≤ dev_num_blocks src ∧ e ≤ dev_num_blocks dst ∧
    Desc.range_start d = s ∧ Desc.range_end d = e.
Proof.
  intros Hdev Hseg Hr. unfold Desc.new.
  assert (Hopen : ∀ uri rw dev, Desc.open_uri get_name dev_open uri rw = Ok dev →
     0 < dev_block_len dev ≤ SEGMENT_SIZE ∧ dev_num_blocks dev ≤ 2^55).
  { intros uri rw dev. unfold Desc.open_uri. destruct (get_name uri) as [nm| |]; simpl; try done.
    destruct (dev_open nm rw) eqn:E; simpl; try done. intros [= <-]. by eapply Hdev. }
  destruct (Desc.open_uri get_name dev_open src_uri false) as [src| |] eqn:Es; simpl; try done.
  destruct (Desc.open_uri get_name dev_open dst_uri true) as [dst| |] eqn:Ed; simpl; try done.
  case_bool_decide as Hne; [done|].
  destruct (handle (device_name src)) as [[]| |]; simpl; try done.
  destruct (handle (device_name dst)) as [[]| |]; simpl; try done.
  destruct (Desc.validate src dst s e) eqn:Hv; simpl; [|done].
  apply Hopen in Es as Hs. apply Hopen in Ed as Hd.
  unfold u64_div. destruct (Z.eqb_spec (dev_block_len dst) 0); [lia|]. simpl. intros [= <-].
  unfold Desc.validate, within in Hv.
  rewrite !andb_true_iff, Z.eqb_eq, !Z.leb_le in Hv. destruct Hv as [[[_ ?] [_ ?]] ?].
  pose proof (Z.mul_div_le SEGMENT_SIZE (dev_block_len dst) ltac:(lia)).
  assert (1 ≤ SEGMENT_SIZE / dev_block_len dst) by (apply Z.div_le_lower_bound; lia).
  simpl. split_and!; [|lia..|].
  - split; simpl; [lia|lia|split; [lia|nia]|done].
  - by exists src, dst.
Qed.

Definition sample_open (name : string) (_ : bool) : outcome CoreError Device :=
  Ok (mkDevice name 512 100 51200).

Lemma descriptor_new_wf_witness :
  ∃ d, Desc.new 65536 (λ u, Ok u) sample_open (λ _, Ok tt) "a" "b" (Some (10, 100))
         (mkOptions VerifyNone ReadNone) 0 = Ok d ∧ Desc.wf d.
Proof.
  eexists. split; [vm_compute; reflexivity|].
  eapply (descriptor_new_wf 65536 (λ u, Ok u) sample_open (λ _, Ok tt) "a" "b" 10 100
    (mkOptions VerifyNone ReadNone) 0).
  - intros name rw dev [= <-]. simpl. lia.
  - lia.
  - lia.
  - vm_compute. reflexivity.
Defined.

End DescProps.
