(* ===== verification/Wiper.v ===== *)
(** * The wiper

    [core/wiper.rs]: the iterator that cuts a device into chunks, the wiper
    that wipes one byte range, and the streamed wiper that wipes a device
    chunk by chunk and notifies a client after each one. *)

From S2P Require Import Prelude Errors.

Module WipeIter.

Record WipeIterator := mkIter {
  start_offset : Z;
  total_bytes : Z;
  chunk_size_bytes : Z;
  extra_chunk_size_bytes : option Z;
  wiped_chunks : Z;
  wiped_bytes : Z;
  remaining_chunks : Z;
  total_chunks : Z;
  cksum_crc32c : option Z;
}.

(** [snafu::ensure!] *)
Definition ensure (b : bool) (e : WiperError) : outcome WiperError unit :=
  if b then Ok tt else Err e.

Definition u64_rem {E} (a b : Z) : outcome E Z :=
  if b =? 0 then Panicked else Ok (a mod b).

Definition skip_gpt_backup_blocks : Z := 33.

Definition new (start_offset total_bytes chunk_size_bytes block_len : Z)
    : outcome WiperError WipeIterator :=
  _ ← ensure (0 <? total_bytes) ZeroBdev;
  size_blks ← u64_div total_bytes block_len;
  let size_blks :=
    if skip_gpt_backup_blocks <=? size_blks then size_blks - skip_gpt_backup_blocks
    else size_blks in
  let total_bytes := wrap64 (size_blks * block_len) in
  let chunk_size_bytes := if chunk_size_bytes =? 0 then total_bytes else chunk_size_bytes in
  _ ← ensure (chunk_size_bytes <=? total_bytes) ChunkTooLarge;
  r ← u64_rem chunk_size_bytes block_len;
  _ ← ensure (r =? 0) ChunkBlockSizeInvalid;
  chunks ← u64_div total_bytes chunk_size_bytes;
  remainder ← u64_rem total_bytes chunk_size_bytes;
  r ← u64_rem remainder block_len;
  _ ← ensure (r =? 0) ChunkBlockSizeInvalid;
  let '(chunks, extra) :=
    if remainder =? 0 then (chunks, None) else (wrap64 (chunks + 1), Some remainder) in
  Ok (mkIter start_offset total_bytes chunk_size_bytes extra 0 0 chunks chunks None).

Definition complete_chunk (it : WipeIterator) (size : Z) : WipeIterator :=
  mkIter (start_offset it) (total_bytes it) (chunk_size_bytes it) (extra_chunk_size_bytes it)
    (wrap64 (wiped_chunks it + 1)) (wrap64 (wiped_bytes it + size))
    (wrap64 (remaining_chunks it - 1)) (total_chunks it) (cksum_crc32c it).

(** [Iterator::next]: it does not advance, [complete_chunk] does. *)
Definition next (it : WipeIterator) : option (Z * Z) :=
  if total_chunks it <=? wiped_chunks it then None
  else
    let offset := wrap64 (start_offset it + wrap64 (wiped_chunks it * chunk_size_bytes it)) in
    match extra_chunk_size_bytes it with
    | Some size =>
        if remaining_chunks it =? 1 then Some (offset, size)
        else Some (offset, chunk_size_bytes it)
    | None => Some (offset, chunk_size_bytes it)
    end.

Definition set_cksum (it : WipeIterator) (crc : Z) : WipeIterator :=
  mkIter (start_offset it) (total_bytes it) (chunk_size_bytes it) (extra_chunk_size_bytes it)
    (wiped_chunks it) (wiped_bytes it) (remaining_chunks it) (total_chunks it) (Some crc).

End WipeIter.

(** The device, its buffers and the client's stream are an interface. *)
Module Wipe.

Record WipeStats := mkWipeStats {
  uuid : string;
  stats : WipeIter.WipeIterator;
  since : option Z;
}.

Class WipeEnv (W Buf : Type) := {
  size_in_bytes : W → Z;
  block_len : W → Z;
  bdev_uuid : W → string;
  write_zeroes_at : W → Z → Z → W * outcome CoreError unit;
  dma_malloc : W → Z → bool;
  read_at : W → Z → Z → W * outcome CoreError Buf;
  crc32c_update : Buf → Z → Z → Z;
  stream_notify : W → WipeStats → W * outcome string unit;
  stream_is_closed : W → bool;
  elapsed : W → Z;
}.

(** What a zeroed byte is, and that only wiping changes it: requests and
    notifications that follow keep a zeroed byte zeroed. *)
Class WipeEnvLaws (W Buf : Type) `{!WipeEnv W Buf} := {
  zeroed : W → Z → Prop;
  write_zeroes_ok w o n w' : write_zeroes_at w o n = (w', Ok tt) →
    ∀ b, o ≤ b < o + n → zeroed w' b;
  write_zeroes_mono w o n b : zeroed w b → zeroed (write_zeroes_at w o n).1 b;
  write_zeroes_no_panic w o n : (write_zeroes_at w o n).2 ≠ Panicked;
  write_zeroes_geometry w o n : block_len (write_zeroes_at w o n).1 = block_len w;
  notify_mono w st b : zeroed w b → zeroed (stream_notify w st).1 b;
  notify_no_panic w st : (stream_notify w st).2 ≠ Panicked;
  notify_geometry w st : block_len (stream_notify w st).1 = block_len w;
}.

Definition SPDK_CRC32C_XOR : Z := 2^32 - 1.

Record StreamedWiper (W : Type) := mkWiper {
  wipe_method : WipeMethod;
  wstats : WipeStats;
  env : W;
}.
Arguments mkWiper {W}.
Arguments wipe_method {W}.
Arguments wstats {W}.
Arguments env {W}.

Section Wiper.
Context {W Buf : Type} `{!WipeEnv W Buf}.

Local Abbreviation SW := (StreamedWiper W).
Local Abbreviation M := (ST SW WiperError).

Definition with_env (s : SW) (w : W) : SW := mkWiper (wipe_method s) (wstats s) w.
Definition with_method (s : SW) (m : WipeMethod) : SW := mkWiper m (wstats s) (env s).
Definition with_stats (s : SW) (st : WipeStats) : SW := mkWiper (wipe_method s) st (env s).

Definition supported (m : WipeMethod) : outcome WiperError WipeMethod :=
  match m with
  | WipeNone | WriteZeroes | CkSum _ => Ok m
  | Unmap | WritePattern _ => Err (MethodUnimplemented m)
  end.

(** [Wiper::wipe] *)
Definition wipe (offset size : Z) : M unit := λ s,
  match wipe_method s with
  | WipeNone => (s, Ok tt)
  | WriteZeroes =>
      let '(w, r) := write_zeroes_at (env s) offset size in
      (with_env s w, map_err WipeIoFailed r)
  | Unmap | WritePattern _ => (s, Err (MethodUnimplemented (wipe_method s)))
  | CkSum (Crc32 crc) =>
      if dma_malloc (env s) size then
        match read_at (env s) offset size with
        | (w, Ok buf) =>
            (with_method (with_env s w) (CkSum (Crc32 (crc32c_update buf size crc))), Ok tt)
        | (w, Err e) => (with_env s w, Err (WipeIoFailed e))
        | (w, Panicked) => (with_env s w, Panicked)
        end
      else (s, Panicked)
  end.

Definition check_abort : M unit := λ s,
  if stream_is_closed (env s) then (s, Err WipeAborted) else (s, Ok tt).

Definition notify : M unit := λ s,
  match stream_notify (env s) (wstats s) with
  | (w, Ok _) => (with_env s w, Ok tt)
  | (w, Err error) => (_ ← check_abort; ST.fail (ChunkNotifyFailed error)) (with_env s w)
  | (w, Panicked) => (with_env s w, Panicked)
  end.

Definition max_io_size : Z := 8 * 1024 * 1024.

(** The inner loop of [wipe_with_abort], at most one iteration per chunk. *)
Fixpoint wipe_pieces (fuel : nat) (it : WipeIter.WipeIterator) : M unit :=
  match WipeIter.next it with
  | None => mret tt
  | Some (offset, size) =>
      match fuel with
      | O => ST.panic
      | S fuel =>
          _ ← wipe offset size;
          _ ← check_abort;
          wipe_pieces fuel (WipeIter.complete_chunk it size)
      end
  end.

Definition wipe_with_abort (offset size : Z) : M unit := λ s,
  if max_io_size <? size then
    (it ← ST.lift (WipeIter.new offset size max_io_size (block_len (env s)));
     wipe_pieces (Z.to_nat (WipeIter.total_chunks it)) it) s
  else wipe offset size s.

Definition complete_chunk (size : Z) : M unit := λ s,
  let st := mkWipeStats (uuid (wstats s)) (WipeIter.complete_chunk (stats (wstats s)) size)
              (Some (elapsed (env s))) in
  let s := with_stats s st in
  match wipe_method s with
  | CkSum (Crc32 crc) =>
      let crc := if WipeIter.remaining_chunks (stats st) =? 0
                 then Z.lxor crc SPDK_CRC32C_XOR else crc in
      (with_stats (with_method s (CkSum (Crc32 crc)))
         (mkWipeStats (uuid st) (WipeIter.set_cksum (stats st) crc) (since st)), Ok tt)
  | _ => (s, Ok tt)
  end.

Definition wipe_chunk (offset size : Z) : M unit :=
  _ ← wipe_with_abort offset size;
  _ ← complete_chunk size;
  notify.

(** [StreamedWiper::new] *)
Definition new (m : WipeMethod) (w : W) (chunk_size_bytes max_chunks : Z)
    : outcome WiperError SW :=
  m ← supported m;
  let size := size_in_bytes w in
  _ ← WipeIter.ensure (chunk_size_bytes <=? size) ChunkTooLarge;
  it ← WipeIter.new 0 size chunk_size_bytes (block_len w);
  _ ← WipeIter.ensure (WipeIter.total_chunks it <? max_chunks) TooManyChunks;
  Ok (mkWiper m (mkWipeStats (bdev_uuid w) it None) w).

Fixpoint wipe_chunks (fuel : nat) : M unit := λ s,
  match WipeIter.next (stats (wstats s)) with
  | None => (s, Ok tt)
  | Some (offset, size) =>
      match fuel with
      | O => (s, Panicked)
      | S fuel => (_ ← wipe_chunk offset size; wipe_chunks fuel) s
      end
  end.

(** [StreamedWiper::wipe] *)
Definition wipe_all : M unit := λ s,
  (_ ← notify; wipe_chunks (Z.to_nat (WipeIter.total_chunks (stats (wstats s))))) s.

End Wiper.
End Wipe.

(** ** Facts *)

Module WipeFacts.
Import WipeIter.

(** [it] has the bytes from [lo] on left to wipe. *)
Record inv (it : WipeIterator) (lo : Z) : Prop := {
  v_chunk : 0 < chunk_size_bytes it;
  v_wiped : 0 ≤ wiped_chunks it ≤ total_chunks it;
  v_remaining : remaining_chunks it = total_chunks it - wiped_chunks it;
  v_start : 0 ≤ start_offset it;
  v_end : start_offset it + total_bytes it < 2^64;
  v_total : match extra_chunk_size_bytes it with
            | None => total_bytes it = total_chunks it * chunk_size_bytes it
            | Some r => 0 < r < chunk_size_bytes it ∧ 1 ≤ total_chunks it ∧
                total_bytes it = (total_chunks it - 1) * chunk_size_bytes it + r
            end;
  v_lo : lo = if wiped_chunks it <? total_chunks it
              then start_offset it + wiped_chunks it * chunk_size_bytes it
              else start_offset it + total_bytes it;
}.

Lemma next_inv it lo :
  inv it lo →
  match next it with
  | None => lo = start_offset it + total_bytes it ∧ wiped_chunks it = total_chunks it
  | Some (o, s) =>
      o = lo ∧ 0 < s ≤ chunk_size_bytes it ∧ lo + s ≤ start_offset it + total_bytes it ∧
      inv (complete_chunk it s) (lo + s) ∧ wiped_chunks it < total_chunks it ∧
      wiped_chunks (complete_chunk it s) = wiped_chunks it + 1
  end.
Proof.
  intros []. unfold next. destruct (Z.leb_spec (total_chunks it) (wiped_chunks it)) as [Hle|Hlt].
  { destruct (Z.ltb_spec (wiped_chunks it) (total_chunks it)); [lia|]. split; [done|lia]. }
  destruct (Z.ltb_spec (wiped_chunks it) (total_chunks it)) as [_|]; [|lia].
  assert (Hn : total_chunks it < 2^64) by (destruct (extra_chunk_size_bytes it); nia).
  assert (Hoff : wrap64 (start_offset it + wrap64 (wiped_chunks it * chunk_size_bytes it)) = lo).
  { assert (wiped_chunks it * chunk_size_bytes it < 2^64)
      by (destruct (extra_chunk_size_bytes it); nia).
    rewrite (wrap64_small (_ * _)) by (unfold is_u64; nia).
    rewrite wrap64_small; [done|]. unfold is_u64. destruct (extra_chunk_size_bytes it); nia. }
  assert (Hgen : ∀ s, 0 < s ≤ chunk_size_bytes it →
    (wiped_chunks it + 1 < total_chunks it → s = chunk_size_bytes it) →
    (wiped_chunks it + 1 = total_chunks it → lo + s = start_offset it + total_bytes it) →
    inv (complete_chunk it s) (lo + s) ∧ wiped_chunks (complete_chunk it s) = wiped_chunks it + 1).
  { intros s Hs Hmid Hlast. unfold complete_chunk. simpl.
    rewrite (wrap64_small (wiped_chunks it + 1)) by (unfold is_u64; lia). split; [|done].
    split; simpl; try done; try lia.
    - rewrite wrap64_small; unfold is_u64; lia.
    - destruct (Z.ltb_spec (wiped_chunks it + 1) (total_chunks it)); [|lia].
      rewrite (Hmid ltac:(lia)). lia. }
  rewrite Hoff. destruct (extra_chunk_size_bytes it) as [r|] eqn:He.
  - destruct v_total0 as (Hr & _ & Ht).
    destruct (Z.eqb_spec (remaining_chunks it) 1).
    + destruct (Hgen r) as [? ?]; [lia|lia|nia|]. split_and!; try done; nia.
    + destruct (Hgen (chunk_size_bytes it)) as [? ?]; [lia|lia|lia|]. split_and!; try done; nia.
  - destruct (Hgen (chunk_size_bytes it)) as [? ?]; [lia|lia|nia|]. split_and!; try done; nia.
Qed.

(** [new] starts at the first byte and leaves out the blocks of the backup
    partition table, unless the range is shorter than those. *)
Definition wiped_blocks (size_blks : Z) : Z :=
  if 33 <=? size_blks then size_blks - 33 else size_blks.

Lemma iter_new_inv start total chunk bl it :
  0 ≤ start → 0 < bl → 0 ≤ chunk → start + total < 2^64 →
  new start total chunk bl = Ok it →
  inv it start ∧ start_offset it = start ∧ wiped_chunks it = 0 ∧
  total_bytes it = wiped_blocks (total / bl) * bl ∧
  chunk_size_bytes it = (if chunk =? 0 then total_bytes it else chunk) ∧
  chunk_size_bytes it ≤ total_bytes it ≤ total.
Proof.
  intros Hst Hbl Hch Hend. unfold new, ensure, u64_div, u64_rem.
  destruct (Z.ltb_spec 0 total); simpl; [|done].
  destruct (Z.eqb_spec bl 0); simpl; [lia|]. change skip_gpt_backup_blocks with 33.
  fold (wiped_blocks (total / bl)).
  pose proof (Z.mul_div_le total bl ltac:(lia)). assert (0 ≤ total / bl) by (apply Z.div_pos; lia).
  assert (Hw : 0 ≤ wiped_blocks (total / bl) ≤ total / bl)
    by (unfold wiped_blocks; destruct (Z.leb_spec 33 (total / bl)); lia).
  rewrite (wrap64_small (wiped_blocks _ * bl)) by (unfold is_u64; nia).
  set (tot := wiped_blocks (total / bl) * bl) in *. assert (0 ≤ tot ≤ total) by (subst tot; nia).
  set (c := if chunk =? 0 then tot else chunk).
  assert (0 ≤ c) by (subst c; destruct (chunk =? 0); lia).
  destruct (Z.leb_spec c tot); simpl; [|done].
  destruct (Z.eqb_spec (c mod bl) 0); simpl; [|done].
  destruct (Z.eqb_spec c 0) as [|Hc]; simpl; [done|].
  destruct (Z.eqb_spec ((tot mod c) mod bl) 0); simpl; [|done].
  pose proof (Z.div_mod tot c Hc). pose proof (Z.mod_pos_bound tot c ltac:(lia)).
  assert (1 ≤ tot / c) by (apply Z.div_le_lower_bound; lia).
  assert (tot / c ≤ tot) by (apply Z.div_le_upper_bound; nia).
  destruct (Z.eqb_spec (tot mod c) 0); simpl; intros [= <-]; simpl.
  - split_and!; try done; [|lia]. split; simpl; try lia.
    destruct (Z.ltb_spec 0 (tot / c)); lia.
  - rewrite wrap64_small by (unfold is_u64; lia).
    split_and!; try done; [|lia]. split; simpl; try lia.
    destruct (Z.ltb_spec 0 (tot / c + 1)); lia.
Qed.

Lemma new_no_panic start total chunk bl :
  0 < bl → 0 < chunk → new start total chunk bl ≠ Panicked.
Proof.
  intros Hbl Hch. unfold new, ensure, u64_div, u64_rem.
  rewrite (proj2 (Z.eqb_neq bl 0)), (proj2 (Z.eqb_neq chunk 0)) by lia.
  repeat (case_match; simpl; try done); lia.
Qed.

(** The chunks that driving an iterator to its end yields. *)
Fixpoint chunks (fuel : nat) (it : WipeIterator) : list (Z * Z) :=
  match fuel, next it with
  | S fuel, Some (o, s) => (o, s) :: chunks fuel (complete_chunk it s)
  | _, _ => []
  end.

(** Consecutive non-empty ranges from [lo] to [hi]. *)
Fixpoint tiles (cs : list (Z * Z)) (lo hi : Z) : Prop :=
  match cs with
  | [] => lo = hi
  | (o, s) :: cs => o = lo ∧ 0 < s ∧ tiles cs (lo + s) hi
  end.

Lemma chunks_tile fuel : ∀ it lo,
  inv it lo → Z.of_nat fuel = total_chunks it - wiped_chunks it →
  tiles (chunks fuel it) lo (start_offset it + total_bytes it) ∧ length (chunks fuel it) = fuel.
Proof.
  induction fuel as [|fuel IH]; intros it lo Hi Hf; simpl;
    pose proof (next_inv it lo Hi) as Hn; destruct (next it) as [[o s]|]; simpl.
  - destruct Hn as (_ & _ & _ & _ & ? & _). lia.
  - by destruct Hn.
  - destruct Hn as (-> & Hs & _ & Hi' & _ & Hw).
    destruct (IH _ _ Hi' ltac:(rewrite Hw; simpl; lia)) as [Ht Hl]. simpl in Ht.
    split_and!; [done|lia|done|lia].
  - lia.
Qed.

(** *** Wiping by writing zeroes *)

Section Zeroes.
Context {W Buf : Type} `{!Wipe.WipeEnv W Buf, !Wipe.WipeEnvLaws W Buf}.
Implicit Types s : Wipe.StreamedWiper W.

(** A step that keeps what is zeroed. *)
Definition keeps s s' : Prop :=
  Wipe.wipe_method s' = Wipe.wipe_method s ∧
  Wipe.block_len (Wipe.env s') = Wipe.block_len (Wipe.env s) ∧
  ∀ b, Wipe.zeroed (Wipe.env s) b → Wipe.zeroed (Wipe.env s') b.

Lemma keeps_refl s : keeps s s.
Proof. by split. Qed.

Lemma keeps_trans s1 s2 s3 : keeps s1 s2 → keeps s2 s3 → keeps s1 s3.
Proof. intros (? & ? & ?) (? & ? & ?). split_and!; [congruence..|eauto]. Qed.

Definition zeroed_range s (lo hi : Z) : Prop := ∀ b, lo ≤ b < hi → Wipe.zeroed (Wipe.env s) b.

Lemma keeps_range s s' lo hi : keeps s s' → zeroed_range s lo hi → zeroed_range s' lo hi.
Proof. intros (_ & _ & Hk) Hz b Hb. by apply Hk, Hz. Qed.

Lemma wipe_spec s o n s' r :
  Wipe.wipe_method s = WriteZeroes → Wipe.wipe o n s = (s', r) →
  keeps s s' ∧ Wipe.wstats s' = Wipe.wstats s ∧ r ≠ Panicked ∧
  (r = Ok tt → zeroed_range s' o (o + n)).
Proof.
  intros Hm. unfold Wipe.wipe. rewrite Hm.
  pose proof (Wipe.write_zeroes_mono (Wipe.env s) o n) as Hmono.
  pose proof (Wipe.write_zeroes_no_panic (Wipe.env s) o n) as Hnp.
  pose proof (Wipe.write_zeroes_geometry (Wipe.env s) o n) as Hg.
  pose proof (Wipe.write_zeroes_ok (Wipe.env s) o n) as Hok.
  destruct (Wipe.write_zeroes_at (Wipe.env s) o n) as [w x]. simpl in *. intros [= <- <-].
  split_and!; try done; try (by destruct x). destruct x as [[]| |]; try done. intros _ b. by apply (Hok w eq_refl).
Qed.

Lemma check_abort_spec s s' r :
  Wipe.check_abort s = (s', r) → s' = s ∧ r ≠ Panicked.
Proof. unfold Wipe.check_abort. by destruct (Wipe.stream_is_closed _); intros [= <- <-]. Qed.

Lemma notify_spec s s' r :
  Wipe.notify s = (s', r) → keeps s s' ∧ Wipe.wstats s' = Wipe.wstats s ∧ r ≠ Panicked.
Proof.
  unfold Wipe.notify.
  pose proof (Wipe.notify_mono (Wipe.env s) (Wipe.wstats s)) as Hmono.
  pose proof (Wipe.notify_no_panic (Wipe.env s) (Wipe.wstats s)) as Hnp.
  pose proof (Wipe.notify_geometry (Wipe.env s) (Wipe.wstats s)) as Hg.
  destruct (Wipe.stream_notify (Wipe.env s) (Wipe.wstats s)) as [w [[]|e|]]; simpl in *; [| |done].
  - intros [= <- <-]. by split_and!.
  - unfold mbind, ST_bind, Wipe.check_abort. simpl.
    destruct (Wipe.stream_is_closed w); intros [= <- <-]; by split_and!.
Qed.

Lemma wipe_pieces_spec fuel : ∀ it lo s s' r,
  inv it lo → total_chunks it - wiped_chunks it ≤ Z.of_nat fuel →
  Wipe.wipe_method s = WriteZeroes → Wipe.wipe_pieces fuel it s = (s', r) →
  keeps s s' ∧ Wipe.wstats s' = Wipe.wstats s ∧ r ≠ Panicked ∧
  (r = Ok tt → zeroed_range s' lo (start_offset it + total_bytes it)).
Proof.
  induction fuel as [|fuel IH]; intros it lo s s' r Hi Hf Hm; simpl;
    pose proof (next_inv it lo Hi) as Hn; destruct (next it) as [[o n]|] eqn:En.
  - destruct Hn as (_ & _ & _ & _ & ? & _). lia.
  - destruct Hn as [-> _]. intros [= <- <-]. split_and!; try done. intros _ b Hb. lia.
  - destruct Hn as (-> & Hs & _ & Hi' & _ & Hw). unfold mbind, ST_bind.
    destruct (Wipe.wipe lo n s) as [s1 r1] eqn:E1.
    destruct (wipe_spec s lo n s1 r1 Hm E1) as (Hk1 & Hst1 & Hnp1 & Hz1).
    destruct r1 as [[]|e|]; [|intros [= <- <-]; by split_and!|done].
    destruct (Wipe.check_abort s1) as [s2 r2] eqn:E2.
    destruct (check_abort_spec _ _ _ E2) as [-> Hnp2].
    destruct r2 as [[]|e|]; [|intros [= <- <-]; by split_and!|done]. intros E3.
    destruct (IH _ (lo + n) s1 s' r Hi') as (Hk3 & Hst3 & Hnp3 & Hz3);
      [rewrite Hw; simpl; lia|by rewrite (proj1 Hk1)|done|].
    split_and!; [by eapply keeps_trans|congruence|done|]. intros Hr b Hb. simpl in Hz3.
    destruct (Z.lt_ge_cases b (lo + n)); [|apply Hz3; [done|lia]].
    eapply (keeps_range s1); [done|by apply Hz1|split; lia].
  - destruct Hn as [-> _]. intros [= <- <-]. split_and!; try done. intros _ b Hb. lia.
Qed.

(** The bytes of a chunk that are wiped. *)
Definition covered (bl size : Z) : Z :=
  if Wipe.max_io_size <? size then wiped_blocks (size / bl) * bl else size.

Lemma wipe_with_abort_spec s o n s' r :
  Wipe.wipe_method s = WriteZeroes → 0 < Wipe.block_len (Wipe.env s) →
  0 ≤ o → o + n < 2^64 → Wipe.wipe_with_abort o n s = (s', r) →
  keeps s s' ∧ Wipe.wstats s' = Wipe.wstats s ∧
  (r = Ok tt → zeroed_range s' o (o + covered (Wipe.block_len (Wipe.env s)) n)) ∧
  r ≠ Panicked.
Proof.
  intros Hm Hbl Ho Hn. unfold Wipe.wipe_with_abort, covered.
  destruct (Z.ltb_spec Wipe.max_io_size n).
  - unfold mbind, ST_bind, ST.lift.
    pose proof (new_no_panic o n Wipe.max_io_size (Wipe.block_len (Wipe.env s)) Hbl eq_refl) as Hnp.
    destruct (new o n Wipe.max_io_size (Wipe.block_len (Wipe.env s))) as [it|e|] eqn:En;
      [|intros [= <- <-]; by split_and!|done].
    destruct (iter_new_inv o n Wipe.max_io_size _ it Ho Hbl ltac:(done) Hn En) as (Hi & Hs & Hw & Ht & _).
    intros E. destruct (wipe_pieces_spec (Z.to_nat (total_chunks it)) it o s s' r Hi ltac:(destruct Hi; lia) Hm E)
      as (? & ? & ? & Hz). rewrite Hs, Ht in Hz. by split_and!.
  - intros E. destruct (wipe_spec s o n s' r Hm E) as (? & ? & ? & ?). by split_and!.
Qed.

Lemma wipe_chunk_spec s o n s' r :
  Wipe.wipe_method s = WriteZeroes → 0 < Wipe.block_len (Wipe.env s) →
  0 ≤ o → o + n < 2^64 → Wipe.wipe_chunk o n s = (s', r) →
  keeps s s' ∧ r ≠ Panicked ∧
  (r = Ok tt → Wipe.stats (Wipe.wstats s') = complete_chunk (Wipe.stats (Wipe.wstats s)) n ∧
     zeroed_range s' o (o + covered (Wipe.block_len (Wipe.env s)) n)).
Proof.
  intros Hm Hbl Ho Hn. unfold Wipe.wipe_chunk, mbind, ST_bind.
  destruct (Wipe.wipe_with_abort o n s) as [s1 r1] eqn:E1.
  destruct (wipe_with_abort_spec s o n s1 r1 Hm Hbl Ho Hn E1) as (Hk1 & Hst1 & Hz1 & Hnp1).
  destruct r1 as [[]|e|]; [|intros [= <- <-]; by split_and!|done].
  unfold Wipe.complete_chunk. simpl. rewrite (proj1 Hk1), Hm.
  match goal with |- context [Wipe.notify ?x] => set (s2 := x) end.
  assert (Hk2 : keeps s1 s2) by by split_and!.
  destruct (Wipe.notify s2) as [s3 r3] eqn:E3.
  destruct (notify_spec _ _ _ E3) as (Hk3 & Hst3 & Hnp3). intros [= <- <-].
  assert (Hk : keeps s1 s3) by by eapply keeps_trans.
  split_and!; [by eapply keeps_trans|done|]. intros _. split.
  - rewrite Hst3. unfold s2. simpl. by rewrite Hst1.
  - eapply keeps_range; [done|by apply Hz1].
Qed.

(** Every chunk the iterator has left is wiped, as far as it is covered. *)
Lemma wipe_chunks_spec fuel : ∀ lo s s' r,
  let it := Wipe.stats (Wipe.wstats s) in
  inv it lo → Z.of_nat fuel = total_chunks it - wiped_chunks it → 0 ≤ lo →
  Wipe.wipe_method s = WriteZeroes → 0 < Wipe.block_len (Wipe.env s) →
  Wipe.wipe_chunks fuel s = (s', r) →
  keeps s s' ∧ r ≠ Panicked ∧
  (r = Ok tt → ∀ o n, (o, n) ∈ chunks fuel it →
     zeroed_range s' o (o + covered (Wipe.block_len (Wipe.env s)) n)).
Proof.
  induction fuel as [|fuel IH]; intros lo s s' r it Hi Hf Hlo Hm Hbl; simpl;
    fold it; pose proof (next_inv it lo Hi) as Hn; destruct (next it) as [[o n]|] eqn:En.
  - destruct Hn as (_ & _ & _ & _ & ? & _). lia.
  - intros [= <- <-]. split_and!; try done. intros _ o n Hin. by apply not_elem_of_nil in Hin.
  - destruct Hn as (-> & Hs & Hend & Hi' & _ & Hw). unfold mbind, ST_bind.
    destruct (Wipe.wipe_chunk lo n s) as [s1 r1] eqn:E1.
    destruct (wipe_chunk_spec s lo n s1 r1 Hm Hbl Hlo) as (Hk1 & Hnp1 & Hok1);
      [pose proof (v_end _ _ Hi); lia|done|].
    destruct r1 as [[]|e|]; [|intros [= <- <-]; by split_and!|done].
    destruct (Hok1 eq_refl) as [Hst1 Hz1]. fold it in Hst1. intros E2.
    destruct (IH (lo + n) s1 s' r) as (Hk2 & Hnp2 & Hz2); rewrite ?Hst1; try done.
    { rewrite Hw. simpl. lia. }
    { lia. }
    { by rewrite (proj1 Hk1). }
    { by rewrite (proj1 (proj2 Hk1)). }
    split_and!; [by eapply keeps_trans|done|]. intros Hr o n' [[= -> ->]|Hin]%elem_of_cons.
    + eapply keeps_range; [done|done].
    + rewrite <- (proj1 (proj2 Hk1)). apply Hz2; [done|]. by rewrite Hst1.
  - destruct Hn as [_ Hn]. lia.
Qed.

End Zeroes.

End WipeFacts.

(** ** Properties *)

Module WipeProps.
Import WipeFacts.

Lemma tiles_cover cs : ∀ lo hi b,
  tiles cs lo hi → lo ≤ b < hi → ∃ o s, (o, s) ∈ cs ∧ o ≤ b < o + s.
Proof.
  induction cs as [|[o s] cs IH]; simpl; intros lo hi b; [intros ->; lia|].
  intros (-> & Hs & Ht) Hb. destruct (Z.lt_ge_cases b (lo + s)).
  - exists lo, s. split; [apply list_elem_of_here|lia].
  - destruct (IH _ _ b Ht) as (o' & s' & Hin & ?); [lia|]. exists o', s'. split; [|lia].
    by apply list_elem_of_further.
Qed.

Lemma chunks_size fuel : ∀ it lo,
  inv it lo → Forall (λ c, 0 < c.2 ≤ WipeIter.chunk_size_bytes it) (chunks fuel it).
Proof.
  induction fuel as [|fuel IH]; intros it lo Hi; simpl; [constructor|].
  pose proof (next_inv it lo Hi) as Hn. destruct (WipeIter.next it) as [[o s]|]; [|constructor].
  destruct Hn as (_ & Hs & _ & Hi' & _). constructor; [done|]. by apply (IH _ _ Hi').
Qed.

(** An iterator cuts its range into exactly [total_chunks] non-empty,
    consecutive chunks that start at [start_offset] and end where the wiped
    blocks end: all blocks but the last 33, or all if there are fewer than 33.
    No chunk is longer than the chunk size, and none overlaps another. *)
Theorem iterator_tiles_range start total chunk bl it :
  0 ≤ start → 0 < bl → 0 ≤ chunk → start + total < 2^64 →
  WipeIter.new start total chunk bl = Ok it →
  let cs := chunks (Z.to_nat (WipeIter.total_chunks it)) it in
  tiles cs start (start + wiped_blocks (total / bl) * bl) ∧
  Z.of_nat (length cs) = WipeIter.total_chunks it ∧
  Forall (λ c, 0 < c.2 ≤ WipeIter.chunk_size_bytes it) cs.
Proof.
  intros Hs Hb Hc He Hn cs.
  destruct (iter_new_inv start total chunk bl it Hs Hb Hc He Hn) as (Hi & Hst & Hw & Ht & _).
  destruct (v_wiped _ _ Hi) as [? ?].
  destruct (chunks_tile (Z.to_nat (WipeIter.total_chunks it)) it start Hi) as [Htile Hl]; [lia|].
  rewrite Hst, Ht in Htile. split_and!; [done|subst cs; lia|]. by apply (chunks_size _ it start).
Qed.

Lemma iterator_tiles_range_witness :
  ∃ it, WipeIter.new 0 (100 * 512) (20 * 512) 512 = Ok it ∧
    tiles (chunks 4 it) 0 (67 * 512) ∧ WipeIter.total_chunks it = 4.
Proof.
  exists (WipeIter.mkIter 0 34304 10240 (Some 3584) 0 0 4 4 None).
  split; [by vm_compute|]. split; [|reflexivity].
  destruct (iterator_tiles_range 0 (100 * 512) (20 * 512) 512
    (WipeIter.mkIter 0 34304 10240 (Some 3584) 0 0 4 4 None)) as [Ht _];
    [done|done|done|done|by vm_compute|]. exact Ht.
Defined.

(** C36. A wipe by write-zeroes in chunks of at most 8 MiB, once it has been set
    up, does not panic, whatever the device and the client do; if it reports success
    it has zeroed every byte of the device outside of the last 33 blocks.  (Setting
    up a wipe can panic on a device of 33 blocks, and the other methods can panic in
    allocating their buffer.) *)
Theorem wipe_zeroes_device {W Buf} `{!Wipe.WipeEnv W Buf, !Wipe.WipeEnvLaws W Buf}
    (w : W) chunk max_chunks s s' r :
  let bl := Wipe.block_len w in let size := Wipe.size_in_bytes w in
  0 < bl → 0 < chunk ≤ Wipe.max_io_size → size < 2^64 →
  Wipe.new WriteZeroes w chunk max_chunks = Ok s →
  Wipe.wipe_all s = (s', r) →
  r ≠ Panicked ∧
  (r = Ok tt → ∀ b, 0 ≤ b < wiped_blocks (size / bl) * bl → Wipe.zeroed (Wipe.env s') b).
Proof.
  intros bl size Hbl Hch Hsz. unfold Wipe.new. simpl. unfold WipeIter.ensure.
  destruct (chunk <=? Wipe.size_in_bytes w); simpl; [|done].
  destruct (WipeIter.new 0 (Wipe.size_in_bytes w) chunk (Wipe.block_len w)) as [it| |] eqn:Hn;
    simpl; try done.
  destruct (WipeIter.total_chunks it <? max_chunks); simpl; [|done]. intros [= <-].
  destruct (iter_new_inv 0 size chunk bl it) as (Hi & Hst & Hw & Ht & Hcs & _); try (done || lia).
  unfold Wipe.wipe_all, mbind, ST_bind. simpl. set (s0 := Wipe.mkWiper _ _ _).
  destruct (Wipe.notify s0) as [s1 r1] eqn:E1.
  destruct (notify_spec _ _ _ E1) as (Hk & Hst1 & Hnp).
  destruct r1 as [[]|e|]; [|intros [= <- <-]; done|done]. intros E2.
  assert (Hit : Wipe.stats (Wipe.wstats s1) = it) by by rewrite Hst1.
  destruct (v_wiped _ _ Hi) as [? ?]. destruct Hk as (Hm & Hb & _). simpl in Hm, Hb.
  destruct (wipe_chunks_spec (Z.to_nat (WipeIter.total_chunks it)) 0 s1 s' r)
    as (_ & Hr & Hz); rewrite ?Hit, ?Hm, ?Hb; try (done || lia).
  split; [done|]. intros Hok b Hbb.
  destruct (chunks_tile (Z.to_nat (WipeIter.total_chunks it)) it 0 Hi) as [Htile _]; [lia|].
  rewrite Hst, Ht in Htile.
  destruct (tiles_cover _ _ _ b Htile) as (o & n & Hin & Hon); [lia|].
  pose proof (chunks_size (Z.to_nat (WipeIter.total_chunks it)) it 0 Hi) as Hle.
  rewrite Forall_forall in Hle. specialize (Hle _ Hin). simpl in Hle.
  rewrite Hcs, (proj2 (Z.eqb_neq chunk 0)) in Hle by lia.
  rewrite Hit in Hz. eapply (Hz Hok o n Hin). unfold covered.
  destruct (Z.ltb_spec Wipe.max_io_size n); lia.
Qed.

(** A device in memory that records the ranges zeroed. *)
Record Mem := mkMem { mem_blocks : Z; mem_zeroed : list (Z * Z) }.

#[global] Instance mem_env : Wipe.WipeEnv Mem unit := {
  Wipe.size_in_bytes w := mem_blocks w * 512;
  Wipe.block_len _ := 512;
  Wipe.bdev_uuid _ := "mem";
  Wipe.write_zeroes_at w o n := (mkMem (mem_blocks w) ((o, n) :: mem_zeroed w), Ok tt);
  Wipe.dma_malloc _ _ := true;
  Wipe.read_at w _ _ := (w, Ok tt);
  Wipe.crc32c_update _ _ crc := crc;
  Wipe.stream_notify w _ := (w, Ok tt);
  Wipe.stream_is_closed _ := false;
  Wipe.elapsed _ := 0;
}.

Definition in_ranges (rs : list (Z * Z)) (b : Z) : bool :=
  existsb (λ '(o, n), (o <=? b) && (b <? o + n)) rs.

#[global] Program Instance mem_laws : Wipe.WipeEnvLaws Mem unit := {
  Wipe.zeroed w b := in_ranges (mem_zeroed w) b = true
}.
Next Obligation.
  simpl. intros w o n w' [= <-] b Hb. simpl. apply orb_true_iff. left.
  apply andb_true_iff. split; [apply Z.leb_le; lia|apply Z.ltb_lt; lia].
Qed.
Next Obligation. simpl. intros w o n b Hb. apply orb_true_iff. by right. Qed.
Next Obligation. done. Qed.
Next Obligation. done. Qed.
Next Obligation. done. Qed.
Next Obligation. done. Qed.
Next Obligation. done. Qed.

Lemma wipe_zeroes_device_witness :
  ∃ s s', Wipe.new WriteZeroes (mkMem 100 []) (20 * 512) 10 = Ok s ∧
    Wipe.wipe_all s = (s', Ok tt) ∧
    ∀ b, 0 ≤ b < 67 * 512 → in_ranges (mem_zeroed (Wipe.env s')) b = true.
Proof.
  do 2 eexists. split; [reflexivity|]. split; [vm_compute; reflexivity|]. intros b Hb.
  refine (proj2 (wipe_zeroes_device (mkMem 100 []) (20 * 512) 10 _ _ (Ok tt) _ _ _ _ _) eq_refl b Hb);
    [done|done|done|reflexivity|vm_compute; reflexivity].
Defined.

(** In chunks of more than 8 MiB a successful wipe is incomplete: the last
    33 blocks of every chunk keep their data, since each chunk is cut as if it
    were a whole device with a backup partition table at its end.  Here a
    device of 32 MiB and 33 blocks is wiped in two chunks of 16 MiB, and the
    last byte of the first chunk is never written. *)
Theorem wipe_of_large_chunks_leaves_gaps :
  ∃ s s', Wipe.new WriteZeroes (mkMem (2 * 32768 + 33) []) (16 * 1024 * 1024) 10 = Ok s ∧
    Wipe.wipe_all s = (s', Ok tt) ∧
    in_ranges (mem_zeroed (Wipe.env s')) (16 * 1024 * 1024 - 1) = false ∧
    in_ranges (mem_zeroed (Wipe.env s')) (16 * 1024 * 1024 - 33 * 512) = false ∧
    in_ranges (mem_zeroed (Wipe.env s')) (16 * 1024 * 1024) = true.
Proof.
  do 2 eexists. split; [reflexivity|]. split; [vm_compute; reflexivity|]. by vm_compute.
Qed.

(** A chunk that is longer than 8 MiB by less than 33 blocks cannot be
    wiped at all: the request fails with [ChunkTooLarge] before any write. *)
Theorem chunk_slightly_over_limit_fails {W Buf} `{!Wipe.WipeEnv W Buf}
    (s : Wipe.StreamedWiper W) offset blks :
  let bl := Wipe.block_len (Wipe.env s) in
  0 < bl → 33 ≤ blks → Wipe.max_io_size < blks * bl < Wipe.max_io_size + 33 * bl →
  Wipe.wipe_with_abort offset (blks * bl) s = (s, Err ChunkTooLarge).
Proof.
  intros bl Hbl Hb Hsz. unfold Wipe.wipe_with_abort.
  assert (Hmax : 0 < Wipe.max_io_size < 2^32) by done.
  destruct (Z.ltb_spec Wipe.max_io_size (blks * bl)); [|lia].
  unfold mbind, ST_bind, ST.lift, WipeIter.new, WipeIter.ensure, u64_div. fold bl.
  destruct (Z.ltb_spec 0 (blks * bl)); [|lia]. simpl.
  destruct (Z.eqb_spec bl 0); [lia|]. simpl. rewrite Z.div_mul by lia.
  change WipeIter.skip_gpt_backup_blocks with 33. destruct (Z.leb_spec 33 blks); [|lia].
  assert (Hle : wrap64 ((blks - 33) * bl) ≤ (blks - 33) * bl) by (apply Z.mod_le; nia).
  destruct (Z.eqb_spec Wipe.max_io_size 0); [lia|].
  destruct (Z.leb_spec Wipe.max_io_size (wrap64 ((blks - 33) * bl))); [lia|done].
Qed.

Definition sample_wiper : Wipe.StreamedWiper Mem :=
  Wipe.mkWiper WriteZeroes
    (Wipe.mkWipeStats "mem" (WipeIter.mkIter 0 51183104 8389120 (Some 848384) 0 0 7 7 None) None)
    (mkMem 100000 []).

Lemma chunk_slightly_over_limit_fails_witness :
  Wipe.new WriteZeroes (mkMem 100000 []) 8389120 10 = Ok sample_wiper ∧
  Wipe.wipe_with_abort 0 (16385 * 512) sample_wiper = (sample_wiper, Err ChunkTooLarge).
Proof.
  split; [by vm_compute|].
  change (16385 * 512) with (16385 * Wipe.block_len (Wipe.env sample_wiper)).
  apply (chunk_slightly_over_limit_fails (Buf := unit) sample_wiper 0 16385); vm_compute; try split; done.
Defined.

(** Wiping a device of exactly 33 blocks in one chunk divides by zero. *)
Theorem wipe_of_33_blocks_panics bl :
  0 < bl < 2^32 → WipeIter.new 0 (33 * bl) 0 bl = Panicked.
Proof.
  intros Hbl. unfold WipeIter.new, WipeIter.ensure, u64_div, WipeIter.u64_rem.
  destruct (Z.ltb_spec 0 (33 * bl)); [|lia]. simpl. destruct (Z.eqb_spec bl 0); [lia|]. simpl.
  rewrite Z.div_mul by lia. simpl. done.
Qed.

Lemma wipe_of_33_blocks_panics_witness : WipeIter.new 0 (33 * 512) 0 512 = Panicked.
Proof. apply (wipe_of_33_blocks_panics 512). done. Defined.

End WipeProps.
