(* ===== verification/NexusChild.v ===== *)
(** * Nexus children

    [bdev/nexus/nexus_child.rs]: the states of a child, opening, onlining,
    closing and unplugging it, and its I/O log.  Block devices, their drivers
    and the table of rebuild jobs are arguments: each external call takes its
    result as an argument. *)

From S2P Require Import Prelude Errors SegmentMap IoLog.

(** ** The I/O log a child keeps

    What the nexus uses of a log; [IoLog] provides it. *)

Class IoLogOps (L : Type) := {
  il_new : string → Z → Z → outcome CoreError L;
  il_log : L → Z → IoType → Z → Z → outcome CoreError L;
}.

(** [il_hist l evs nb]: [l] is the log of a device of [nb] blocks and has
    recorded the operations [evs]. *)
Class IoLogLaws (L : Type) `{!IoLogOps L} := {
  il_cores : list Z;
  il_hist : L → list IOLog.event → Z → Prop;
  il_log_spec l evs nb core t o n :
    il_hist l evs nb → core ∈ il_cores → 0 ≤ o → 1 ≤ n → o + n ≤ nb →
    ∃ l', il_log l core t o n = Ok l' ∧ il_hist l' (evs ++ [(core, t, o, n)]) nb;
  il_log_other l evs nb core t o n :
    il_hist l evs nb → core ∈ il_cores → is_write_like t = false →
    il_log l core t o n = Ok l;
  il_new_spec dev nb bl :
    dev ≠ ""%string → 0 < nb → 0 < bl → nb * bl < 2^64 →
    ∃ l, il_new dev nb bl = Ok l ∧ il_hist l [] nb;
}.

(** [IOLog] implements the interface. *)
Module IoLogImpl.
Section IoLogImpl.
Context {B : Type} `{!BitVec B, !BitVecLaws B}.
Variable SEGMENT_SIZE : Z.
Variable cores : list Z.
Hypothesis HSEG : 0 < SEGMENT_SIZE < 2^64.

Definition ops : IoLogOps (IOLog.IOLog B) := {|
  il_new := IOLog.new SEGMENT_SIZE cores;
  il_log := IOLog.log_io_current;
|}.

Definition hist (l : IOLog.IOLog B) (evs : list IOLog.event) (nb : Z) : Prop :=
  ∃ name bl, name ≠ ""%string ∧ 0 < nb ∧ 0 < bl ∧ nb * bl < 2^64 ∧
    Forall (IOLog.valid_event nb cores) evs ∧ IOLog.log_inv SEGMENT_SIZE name nb bl cores evs l.

Lemma log_spec l evs nb core t o n :
  hist l evs nb → core ∈ cores → 0 ≤ o → 1 ≤ n → o + n ≤ nb →
  ∃ l', @IOLog.log_io_current B _ CoreError l core t o n = Ok l' ∧
    hist l' (evs ++ [(core, t, o, n)]) nb.
Proof.
  intros (name & bl & ? & ? & ? & ? & Hv & Hi) Hc Ho Hn Hl.
  assert (Hev : Forall (IOLog.valid_event nb cores) [(core, t, o, n)])
    by (constructor; [done|constructor]).
  destruct (@IOLog.replay_inv B _ _ CoreError SEGMENT_SIZE name nb bl cores evs l
    [(core, t, o, n)] Hi Hev) as (l' & Hr & Hi').
  exists l'. simpl in Hr. unfold mbind, outcome_bind in Hr.
  destruct (IOLog.log_io_current l core t o n); simplify_eq. split; [done|].
  exists name, bl. split_and!; try done. by apply Forall_app.
Qed.

Lemma log_other l evs nb core t o n :
  hist l evs nb → core ∈ cores → is_write_like t = false →
  @IOLog.log_io_current B _ CoreError l core t o n = Ok l.
Proof.
  intros (name & bl & ? & ? & ? & ? & Hv & Hn & Hd & Hr) Hc Ht.
  destruct (proj1 (Hd core) Hc) as [ch Hch]. destruct (Hr _ _ Hch) as [Hcore _].
  unfold IOLog.log_io_current, IOLog.current_channel, IOLog.log_io. rewrite Hch. simpl.
  rewrite Hcore, Z.eqb_refl, Ht. simpl. rewrite insert_id by done. by destruct l.
Qed.

Definition laws : @IoLogLaws (IOLog.IOLog B) ops.
Proof using HSEG BitVecLaws0.
  refine {| il_cores := cores; il_hist := hist |}.
  - apply log_spec.
  - apply log_other.
  - intros dev nb bl ? ? ? ?.
    destruct (@IOLog.new_inv B _ _ CoreError SEGMENT_SIZE dev nb bl) with (cores := cores)
      as (l & Hl & Hi); try done.
    exists l. split; [exact Hl|]. exists dev, bl. by split_and!.
Defined.

(** Stopping a log marks every block a recorded write touched as dirty. *)
Lemma finalize_dirty l evs nb core t o n blk :
  hist l evs nb → cores ≠ [] → (core, t, o, n) ∈ evs → is_write_like t = true →
  o ≤ blk < o + n →
  ∃ m, @IOLog.finalize B _ CoreError l = Ok m ∧ @RMap.is_blk_clean B _ CoreError m blk = Ok false.
Proof using HSEG BitVecLaws0.
  intros (name & bl & ? & ? & ? & ? & Hv & Hi) Hne Hin Hw Hb.
  edestruct (@IOLog.finalize_inv B _ _ CoreError SEGMENT_SIZE name nb bl) with (log := l)
    as (m & Hfin & _ & (Hwf & Hn & Hbl & Hs) & Hbits); [done..|].
  exists m. split; [done|].
  rewrite Forall_forall in Hv. destruct (Hv _ Hin) as (_ & ? & ? & ?).
  assert (Hseg : ∀ x, SegMap.seg_of (RMap.segments m) x = IOLog.seg SEGMENT_SIZE bl x)
    by (intros; unfold SegMap.seg_of, IOLog.seg; by rewrite Hbl, Hs).
  rewrite (RMap.is_blk_clean_ok m blk true); [done|done|lia|].
  rewrite Hbits by (apply SegMap.seg_of_range; [done|lia]). f_equal. apply existsb_exists.
  exists (core, t, o, n). split; [by apply list_elem_of_In|]. simpl. rewrite Hw, <- !Hseg. simpl.
  pose proof (SegMap.seg_of_mono (RMap.segments m) o blk Hwf ltac:(lia)).
  pose proof (SegMap.seg_of_mono (RMap.segments m) blk (o + n - 1) Hwf ltac:(lia)).
  apply andb_true_iff. split; apply Z.leb_le; lia.
Qed.

End IoLogImpl.
End IoLogImpl.

Module Child.

Inductive ChildError :=
| PermanentlyFaulted
| ChildFaulted
| ChildBeingDestroyed
| ChildTooSmall (child_size parent_size : Z)
| OpenChild (source : CoreError)
| ClaimChild (source : Errno)
| ChildInaccessible
| CannotOnlineChild
| HandleCreate (source : CoreError)
| HandleOpen (source : CoreError)
| HandleDmaMalloc
| ResvRegisterKey (source : CoreError)
| ResvAcquire (source : CoreError)
| ResvRelease (source : CoreError)
| ResvReport (source : CoreError)
| ResvType (resv_type : Z)
| ResvNoHolder (resv_type : Z)
| Holder (hostid : list Z) (resv_type resv_key : Z)
| NvmeHostId (source : CoreError)
| ChildBdevCreate (child : string) (source : Bdev.Error).

Definition to_errno (e : ChildError) : Errno :=
  match e with
  | PermanentlyFaulted => EFAULT
  | ChildFaulted => EFAULT
  | ChildBeingDestroyed => EBUSY
  | ChildTooSmall _ _ => EINVAL
  | ChildInaccessible => ENXIO
  | CannotOnlineChild => ERFKILL
  | ResvType _ => EINVAL
  | ResvNoHolder _ => EPERM
  | Holder _ _ _ => EPERM
  | ClaimChild source => source
  | OpenChild source => core_to_errno source
  | HandleCreate source => core_to_errno source
  | HandleOpen source => core_to_errno source
  | HandleDmaMalloc => ENOMEM
  | ResvRegisterKey source => core_to_errno source
  | ResvAcquire source => core_to_errno source
  | ResvRelease source => core_to_errno source
  | ResvReport source => core_to_errno source
  | NvmeHostId source => core_to_errno source
  | ChildBdevCreate _ source => Bdev.to_errno source
  end.

Inductive FaultReason :=
| Unknown | CantOpen | NoSpace | TimedOut | IoError | RebuildFailed | AdminCommandFailed
| Offline | OfflinePermanent | HotRemove.

#[global] Instance FaultReason_eq_dec : EqDecision FaultReason.
Proof. solve_decision. Defined.

Definition reason_is_recoverable (r : FaultReason) : bool :=
  match r with
  | NoSpace | TimedOut | IoError | Offline | AdminCommandFailed | RebuildFailed | HotRemove => true
  | _ => false
  end.

Inductive ChildState := Init | ConfigInvalid | Open | Closed | Faulted (r : FaultReason).

#[global] Instance ChildState_eq_dec : EqDecision ChildState.
Proof. solve_decision. Defined.

Inductive ChildStateClient :=
| CInit | CConfigInvalid | COpen | CClosed
| CFaulted (r : FaultReason) | CFaulting (r : FaultReason) | COutOfSync.

Definition is_open_or_init (s : ChildState) : bool :=
  match s with Open | Init | ConfigInvalid => true | _ => false end.

Definition state_is_recoverable (s : ChildState) : bool :=
  match s with
  | Faulted reason => reason_is_recoverable reason
  | Closed => true
  | _ => false
  end.

Definition is_enospc (s : ChildState) : bool :=
  match s with Faulted NoSpace => true | _ => false end.

Inductive ChildSyncState := Synced | OutOfSync.

#[global] Instance ChildSyncState_eq_dec : EqDecision ChildSyncState.
Proof. solve_decision. Defined.

Inductive ChildDestroyState := DestroyNone | Destroying.

#[global] Instance ChildDestroyState_eq_dec : EqDecision ChildDestroyState.
Proof. solve_decision. Defined.

(** What a child reads of its block device. *)
Record BlockDevice := mkBlockDevice {
  bd_name : string;
  bd_driver : string;
  bd_size_in_bytes : Z;
  bd_num_blocks : Z;
  bd_block_len : Z;
}.

(** [device_descriptor] is whether the child holds an open descriptor. *)
Record NexusChild (L : Type) := mkChild {
  parent : string;
  state : ChildState;
  sync_state : ChildSyncState;
  destroy_state : ChildDestroyState;
  faulted_at : option Z;
  remove_channel : list bool;
  name : string;
  device : option BlockDevice;
  device_descriptor : bool;
  io_log : option L;
}.
Arguments mkChild {L}.
Arguments parent {L}.
Arguments state {L}.
Arguments sync_state {L}.
Arguments destroy_state {L}.
Arguments faulted_at {L}.
Arguments remove_channel {L}.
Arguments name {L}.
Arguments device {L}.
Arguments device_descriptor {L}.
Arguments io_log {L}.

Section Child.
Context {L : Type} `{!IoLogOps L}.
Local Abbreviation Ch := (NexusChild L).
Implicit Types c : Ch.

Definition set_state (s : ChildState) (c : Ch) : Ch :=
  mkChild (parent c) s (sync_state c) (destroy_state c) (faulted_at c) (remove_channel c)
    (name c) (device c) (device_descriptor c) (io_log c).
Definition set_sync_state (s : ChildSyncState) (c : Ch) : Ch :=
  mkChild (parent c) (state c) s (destroy_state c) (faulted_at c) (remove_channel c)
    (name c) (device c) (device_descriptor c) (io_log c).
Definition set_destroy_state (s : ChildDestroyState) (c : Ch) : Ch :=
  mkChild (parent c) (state c) (sync_state c) s (faulted_at c) (remove_channel c)
    (name c) (device c) (device_descriptor c) (io_log c).
Definition set_fault_timestamp (now : Z) (c : Ch) : Ch :=
  mkChild (parent c) (state c) (sync_state c) (destroy_state c) (Some now) (remove_channel c)
    (name c) (device c) (device_descriptor c) (io_log c).
Definition set_remove_channel (r : list bool) (c : Ch) : Ch :=
  mkChild (parent c) (state c) (sync_state c) (destroy_state c) (faulted_at c) r
    (name c) (device c) (device_descriptor c) (io_log c).
Definition set_device (d : option BlockDevice) (c : Ch) : Ch :=
  mkChild (parent c) (state c) (sync_state c) (destroy_state c) (faulted_at c) (remove_channel c)
    (name c) d (device_descriptor c) (io_log c).
Definition set_descriptor (b : bool) (c : Ch) : Ch :=
  mkChild (parent c) (state c) (sync_state c) (destroy_state c) (faulted_at c) (remove_channel c)
    (name c) (device c) b (io_log c).
Definition set_io_log (l : option L) (c : Ch) : Ch :=
  mkChild (parent c) (state c) (sync_state c) (destroy_state c) (faulted_at c) (remove_channel c)
    (name c) (device c) (device_descriptor c) l.

Definition set_faulted_state (now : Z) (reason : FaultReason) (c : Ch) : Ch :=
  set_fault_timestamp now (set_state (Faulted reason) c).

Definition is_destroying (c : Ch) : bool := bool_decide (destroy_state c = Destroying).
Definition is_opened (c : Ch) : bool := bool_decide (state c = Open).
Definition is_opened_unsync (c : Ch) : bool :=
  bool_decide (state c = Open) && bool_decide (sync_state c = OutOfSync).
Definition is_healthy (c : Ch) : bool :=
  bool_decide (state c = Open) && bool_decide (sync_state c = Synced).
Definition is_faulted (c : Ch) : bool :=
  match state c with Faulted _ => true | _ => false end.
(** [job]: whether a rebuild job of this child exists. *)
Definition is_rebuilding (job : bool) (c : Ch) : bool := job && is_opened_unsync c.

(** [dev_open] is the result of [BlockDevice::open]. *)
Definition open (now : Z) (dev_open : outcome CoreError unit) (parent_size : Z)
    (sync : ChildSyncState) : ST Ch ChildError string := λ c,
  if is_destroying c then (c, Err ChildBeingDestroyed)
  else
    let proceed :=
      match device c with
      | None => (c, Panicked)
      | Some dev =>
          let child_size := bd_size_in_bytes dev in
          if child_size <? parent_size then
            (set_state ConfigInvalid c, Err (ChildTooSmall child_size parent_size))
          else
            match dev_open with
            | Err source => (set_faulted_state now CantOpen c, Err (OpenChild source))
            | Panicked => (c, Panicked)
            | Ok _ =>
                (set_sync_state sync (set_state Open (set_descriptor true c)), Ok (name c))
            end
      end in
    match state c with
    | Faulted s => if negb (reason_is_recoverable s) then (c, Err ChildFaulted) else proceed
    | Open =>
        match device c with
        | Some _ => if device_descriptor c then (c, Ok (name c)) else (c, Panicked)
        | None => (c, Panicked)
        end
    | _ => proceed
    end.

Definition state_client (c : Ch) : ChildStateClient :=
  if is_opened_unsync c then COutOfSync
  else
    match state c with
    | Init => CInit
    | ConfigInvalid => CConfigInvalid
    | Open => COpen
    | Closed => CClosed
    | Faulted r => if is_destroying c || device_descriptor c then CFaulting r else CFaulted r
    end.

(** [created] and [lookup] are the results of [device_create] and
    [device_lookup]. *)
Definition online (now : Z) (created : outcome Bdev.Error string)
    (lookup : string → option BlockDevice) (dev_open : outcome CoreError unit) (parent_size : Z)
    : ST Ch ChildError string := λ c,
  let st := state c in
  if is_open_or_init st then (c, Err CannotOnlineChild)
  else if is_destroying c then (c, Err ChildBeingDestroyed)
  else if negb (state_is_recoverable st) then (c, Err PermanentlyFaulted)
  else
    match created with
    | Err e => (c, Err (ChildBdevCreate (name c) e))
    | Panicked => (c, Panicked)
    | Ok nm =>
        let c := set_device (lookup nm) c in
        match device c with
        | None => (c, Err ChildInaccessible)
        | Some _ => open now dev_open parent_size OutOfSync c
        end
    end.

(** *** Closing

    [close] waits for the device to be destroyed and then for a removal
    event; [unplug] may run while it waits.  It is cut at its await
    points. *)

Inductive Closing :=
| CloseDone (r : outcome Bdev.Error unit)
| AwaitDestroy
| AwaitRemoval
| PollRemoval (tries : Z).

Definition close_begin (c : Ch) : Ch * Closing :=
  if bool_decide (destroy_state c ≠ DestroyNone) then (c, CloseDone (Ok tt))
  else
    let c := set_destroy_state Destroying c in
    match device c with
    | None => (set_destroy_state DestroyNone c, CloseDone (Ok tt))
    | Some _ => (c, AwaitDestroy)
    end.

Definition close_end (c : Ch) : Ch * Closing :=
  (set_destroy_state DestroyNone c, CloseDone (Ok tt)).

(** [r] is the result of [device_destroy]. *)
Definition close_destroyed (r : outcome Bdev.Error unit) (c : Ch) : Ch * Closing :=
  match r with
  | Ok _ => if bool_decide (state c = Init) then close_end c else (c, AwaitRemoval)
  | Err e => (set_destroy_state DestroyNone c, CloseDone (Err e))
  | Panicked => (c, CloseDone Panicked)
  end.

(** A message of the removal channel, at the first receive and in the loop. *)
Definition close_received (tries : Z) (destroyed : bool) (rest : list bool) (c : Ch)
    : Ch * Closing :=
  let c := set_remove_channel rest c in
  if destroyed || negb (tries <? 20) then close_end c else (c, PollRemoval tries).

Definition close_poll (tries : Z) (c : Ch) : Ch * Closing :=
  match remove_channel c with
  | [] => if tries + 1 <? 20 then (c, PollRemoval (tries + 1)) else close_end c
  | destroyed :: rest => close_received tries destroyed rest c
  end.

Definition close_faulted_end (now : Z) (reason : FaultReason) (c : Ch) : Ch :=
  set_faulted_state now reason c.

Definition hot_removed (c : Ch) : bool := bool_decide (state c = Open) && negb (is_destroying c).

(** [unplug] with its completion message; the flag says whether the nexus is
    reconfigured. *)
Definition unplug (c : Ch) : Ch * bool :=
  let st := state c in
  let destroying := is_destroying c in
  let c := if destroying then set_device None c else c in
  let c := if bool_decide (st = Open) then set_state Closed c else c in
  let reconfigure := bool_decide (st ≠ Faulted IoError) in
  let c := if destroying then set_descriptor false c else c in
  (set_remove_channel (remove_channel c ++ [negb (device_descriptor c)]) c, reconfigure).

(** [uuid_of] is the [uuid] query parameter of a URI; [None] in the outer
    option if the URI does not parse, which panics. *)
Definition new {E} (store_enabled : bool) (uuid_of : string → option (option string))
    (nm prnt : string) (dev : option BlockDevice) : outcome E Ch :=
  let c := mkChild prnt Init Synced DestroyNone None [] nm dev false None in
  if store_enabled then
    u ← of_option (uuid_of nm);
    match u with None => Panicked | Some _ => Ok c end
  else Ok c.

Definition get_device (c : Ch) : outcome ChildError BlockDevice :=
  match device c with Some d => Ok d | None => Err ChildInaccessible end.

Definition is_local (c : Ch) : option bool :=
  match device c with
  | Some dev => Some (negb (bool_decide (bd_driver dev = "nvme"%string)))
  | None => None
  end.

(** [h] is the result of the descriptor's [get_io_handle]. *)
Definition get_io_handle (h : outcome CoreError unit) (c : Ch) : outcome CoreError unit :=
  if device_descriptor c then h else Err (InvalidDescriptor (name c)).

Definition get_device_name (c : Ch) : option string := bd_name <$> device c.

Definition match_device_name (bdev_name : string) (c : Ch) : bool :=
  match get_device_name c with
  | Some n => bool_decide (n = bdev_name)
  | None => false
  end.

(** [enable] is [ENABLE_PARTIAL_REBUILD]. *)
Definition start_io_log (enable : bool) : ST Ch CoreError bool := λ c,
  if negb enable then (c, Ok false)
  else if bool_decide (sync_state c = OutOfSync) then
    (c, _ ← assert (match io_log c with None => true | Some _ => false end); Ok false)
  else
    match io_log c, device c with
    | Some _, _ => (c, Ok true)
    | None, Some d =>
        match il_new (bd_name d) (bd_num_blocks d) (bd_block_len d) with
        | Ok l => (set_io_log (Some l) c, Ok true)
        | Err e => (c, Err e)
        | Panicked => (c, Panicked)
        end
    | None, None => (c, Ok false)
    end.

(** [finalize] turns the log into a rebuild map. *)
Definition stop_io_log {Map E} (finalize : L → outcome E Map) : ST Ch E (option Map) := λ c,
  match io_log c with
  | None => (c, Ok None)
  | Some l => (set_io_log None c, m ← finalize l; Ok (Some m))
  end.

Definition has_io_log (c : Ch) : bool := match io_log c with Some _ => true | None => false end.

End Child.
End Child.

(** ** Properties *)

Module ChildProps.
Import Child.

Section ChildProps.
Context {L : Type} `{!IoLogOps L}.
Implicit Types c : NexusChild L.

(** The outcomes of [online] on a child that it may bring back. *)
Lemma online_cases now created lookup dev_open size c c' r :
  online now created lookup dev_open size c = (c', r) →
  created ≠ Panicked → dev_open ≠ Panicked →
  io_log c' = io_log c ∧ r ≠ Panicked ∧
  (∀ n, r = Ok n → state c' = Open ∧ sync_state c' = OutOfSync ∧ device_descriptor c' = true ∧
     n = name c ∧ ∃ d, device c' = Some d ∧ size ≤ bd_size_in_bytes d) ∧
  (∀ e, r = Err e → c' = c ∨ state c' ≠ Open).
Proof.
  unfold online. intros Hon Hcr Hop.
  destruct (is_open_or_init (state c)) eqn:Hst; [by injection Hon as <- <-; split_and!; auto|].
  destruct (is_destroying c) eqn:Hde; [by injection Hon as <- <-; split_and!; auto|].
  destruct (state_is_recoverable (state c)) eqn:Hre; simpl in Hon;
    [|by injection Hon as <- <-; split_and!; auto].
  assert (Hno : state c ≠ Open) by (intros E; by rewrite E in Hst).
  destruct created as [nm|e|]; [|by injection Hon as <- <-; split_and!; auto|done].
  destruct (lookup nm) as [d|] eqn:Hl; [|by injection Hon as <- <-; split_and!; auto].
  unfold open in Hon. simpl in Hon.
  assert (Hd0 : is_destroying (set_device (Some d) c) = false) by done. rewrite Hd0 in Hon.
  assert (Hproceed : (if bd_size_in_bytes d <? size
    then (set_state ConfigInvalid (set_device (Some d) c),
          Err (ChildTooSmall (bd_size_in_bytes d) size))
    else match dev_open with
      | Ok _ => (set_sync_state OutOfSync (set_state Open (set_descriptor true (set_device (Some d) c))),
                 Ok (name c))
      | Err source => (set_faulted_state now CantOpen (set_device (Some d) c), Err (OpenChild source))
      | Panicked => (set_device (Some d) c, Panicked)
      end) = (c', r)).
  { destruct (state c) as [| | | |reason]; simpl in Hre, Hon; rewrite ?Hre in Hon; try discriminate;
      exact Hon. }
  clear Hon. destruct (Z.ltb_spec (bd_size_in_bytes d) size) as [Hlt|Hge].
  { injection Hproceed as <- <-. split_and!; try done. by intros; right. }
  destruct dev_open as [[]|e|]; [| |done]; injection Hproceed as <- <-; split_and!; try done.
  - intros n [= <-]. split_and!; try done. by exists d.
  - by intros; right.
Qed.

(** Onlining a child gives an open child only with a fresh descriptor on a
    device that is large enough, and never a healthy one: it is out of sync
    until a rebuild completes.  A failed attempt leaves no open child that was
    not open before, the I/O log is kept in all cases, and no path panics. *)
Theorem online_child_is_out_of_sync (now : Z) (created : outcome Bdev.Error string)
    (lookup : string → option BlockDevice) (dev_open : outcome CoreError unit) (size : Z)
    (c c' : NexusChild L) (r : outcome ChildError string) :
  online now created lookup dev_open size c = (c', r) →
  created ≠ Panicked → dev_open ≠ Panicked →
  io_log c' = io_log c ∧ r ≠ Panicked ∧
  (∀ n, r = Ok n → is_opened_unsync c' = true ∧ device_descriptor c' = true ∧
     ∃ d, device c' = Some d ∧ size ≤ bd_size_in_bytes d) ∧
  (∀ e, r = Err e → is_opened c' = true → c' = c).
Proof.
  intros Hon Hcr Hop. destruct (online_cases _ _ _ _ _ _ _ _ Hon Hcr Hop) as (Hl & Hp & Hok & Herr).
  split_and!; try done.
  - intros n Hr. destruct (Hok n Hr) as (Ho & Hs & Hd & _ & ?). split_and!; try done.
    unfold is_opened_unsync. by rewrite Ho, Hs.
  - intros e Hr Ho. destruct (Herr e Hr) as [?|Hno]; [done|].
    unfold is_opened in Ho. by rewrite bool_decide_false in Ho.
Qed.

(** A child that was faulted with an I/O log keeps the log when it is
    brought back; if it is faulted again before its rebuild has taken the log,
    [start_io_log] fails its assertion. *)
Theorem fault_after_online_panics (now : Z) (created : outcome Bdev.Error string)
    (lookup : string → option BlockDevice) (dev_open : outcome CoreError unit) (size : Z)
    (c c' : NexusChild L) (n : string) (l : L) :
  online now created lookup dev_open size c = (c', Ok n) → io_log c = Some l →
  start_io_log true c' = (c', Panicked).
Proof.
  intros Hon Hl. assert (Hcr : created ≠ Panicked).
  { intros ->. unfold online in Hon.
    destruct (is_open_or_init (state c)), (is_destroying c), (state_is_recoverable (state c)); done. }
  assert (Hop : dev_open ≠ Panicked).
  { intros ->. unfold online in Hon.
    destruct (is_open_or_init (state c)) eqn:Hst, (is_destroying c) eqn:Hde; try done.
    destruct (state_is_recoverable (state c)); try done. destruct created as [nm| |]; try done.
    destruct (lookup nm) as [d|]; [|done]. unfold open in Hon. simpl in Hon.
    assert (Hd0 : is_destroying (set_device (Some d) c) = false) by done. rewrite Hd0 in Hon.
    destruct (state c) as [| | | |reason]; try done; try (by destruct (_ <? _)).
    destruct (negb (reason_is_recoverable reason)); [done|]. by destruct (_ <? _). }
  destruct (online_cases _ _ _ _ _ _ _ _ Hon Hcr Hop) as (Hl' & _ & Hok & _).
  destruct (Hok n eq_refl) as (_ & Hs & _). unfold start_io_log. simpl.
  by rewrite Hs, Hl', Hl.
Qed.

(** Polling the removal channel while nothing arrives. *)
Fixpoint poll_quiet (fuel : nat) (tries : Z) (c : NexusChild L) : NexusChild L * Closing :=
  match fuel with
  | O => (c, PollRemoval tries)
  | S fuel =>
      match close_poll tries c with
      | (c, PollRemoval tries) => poll_quiet fuel tries c
      | done => done
      end
  end.

Lemma poll_quiet_gives_up c n :
  remove_channel c = [] → (n < 20)%nat →
  poll_quiet (S n) (19 - Z.of_nat n) c = (set_destroy_state DestroyNone c, CloseDone (Ok tt)).
Proof.
  intros Hch. induction n as [|n IH]; intros Hn; cbn [poll_quiet]; unfold close_poll; rewrite Hch.
  - done.
  - replace (19 - Z.of_nat (S n) + 1) with (19 - Z.of_nat n) by lia.
    destruct (Z.ltb_spec (19 - Z.of_nat n) 20); [|lia]. apply IH. lia.
Qed.

(** Closing a child that has a device: once the device is destroyed and the
    removal event has unplugged the child, it has neither device nor descriptor,
    is not open, keeps its I/O log, and closing it again does nothing.  If the
    only event was one that left the descriptor in place, the close gives up
    after twenty polls and the child is not marked as being destroyed. *)
Theorem close_and_unplug (c : NexusChild L) (dev : BlockDevice) :
  destroy_state c = DestroyNone → device c = Some dev → state c ≠ Init → remove_channel c = [] →
  let c1 := set_destroy_state Destroying c in
  close_begin c = (c1, AwaitDestroy) ∧ close_destroyed (Ok tt) c1 = (c1, AwaitRemoval) ∧
  (∃ c2, unplug c1 = (c2, bool_decide (state c ≠ Faulted IoError)) ∧ remove_channel c2 = [true] ∧
   ∃ c3, close_received 0 true [] c2 = (c3, CloseDone (Ok tt)) ∧
     device c3 = None ∧ device_descriptor c3 = false ∧ is_opened c3 = false ∧
     remove_channel c3 = [] ∧ io_log c3 = io_log c ∧
     close_begin c3 = (c3, CloseDone (Ok tt))) ∧
  close_received 0 false [] c1 = (c1, PollRemoval 0) ∧
  poll_quiet 20 0 c1 = (set_destroy_state DestroyNone c1, CloseDone (Ok tt)).
Proof.
  intros Hde Hdev Hst Hch c1.
  assert (Hc1 : set_remove_channel [] c1 = c1) by (unfold c1, set_destroy_state, set_remove_channel; simpl; by rewrite Hch).
  split; [unfold close_begin; rewrite Hde; simpl; by rewrite Hdev|].
  split; [unfold close_destroyed; by rewrite bool_decide_false|].
  split; [|split; [unfold close_received; by rewrite Hc1|apply (poll_quiet_gives_up c1 19); [done|lia]]].
  eexists. split; [reflexivity|]. simpl.
  split; [case_bool_decide; simpl; by rewrite Hch|].
  eexists. split; [reflexivity|]. simpl. case_bool_decide as Ho; simpl; split_and!; try done.
  unfold is_opened. simpl. by rewrite bool_decide_false.
Qed.

End ChildProps.
End ChildProps.

Module ChildSample.
Import Child.

Local Instance log_ops : IoLogOps (IOLog.IOLog (list bool)) := IoLogImpl.ops 4096 [0].

Definition dev : BlockDevice := mkBlockDevice "dev" "nvme" 51200 100 512.
Definition log : IOLog.IOLog (list bool) :=
  IOLog.mkIOLog "dev" ∅.
Definition faulted : NexusChild (IOLog.IOLog (list bool)) :=
  mkChild "nexus" (Faulted TimedOut) Synced DestroyNone (Some 3) [] "child" None false (Some log).
Definition onlined : NexusChild (IOLog.IOLog (list bool)) :=
  mkChild "nexus" Open OutOfSync DestroyNone (Some 3) [] "child" (Some dev) true (Some log).

Lemma online_child_is_out_of_sync_witness :
  is_opened_unsync onlined = true ∧ device_descriptor onlined = true ∧
  ∃ d, device onlined = Some d ∧ 4096 ≤ bd_size_in_bytes d.
Proof.
  destruct (ChildProps.online_child_is_out_of_sync 5 (Ok "dev"%string) (λ _, Some dev) (Ok tt) 4096
    faulted onlined (Ok "child"%string)) as (_ & _ & H & _);
    [vm_compute; reflexivity|discriminate|discriminate|].
  exact (H "child"%string eq_refl).
Defined.

Lemma fault_after_online_panics_witness : start_io_log true onlined = (onlined, Panicked).
Proof.
  apply (ChildProps.fault_after_online_panics 5 (Ok "dev"%string) (λ _, Some dev) (Ok tt) 4096
    faulted onlined "child" log); vm_compute; reflexivity.
Defined.

Lemma close_and_unplug_witness :
  ∃ c2 c3, unplug (set_destroy_state Destroying onlined) = (c2, true) ∧
    close_received 0 true [] c2 = (c3, CloseDone (Ok tt)) ∧ device c3 = None.
Proof.
  destruct (ChildProps.close_and_unplug onlined dev) as (_ & _ & (c2 & Hu & _ & c3 & Hr & Hd & _) & _);
    [reflexivity|reflexivity|discriminate|reflexivity|].
  exists c2, c3. split; [exact Hu|]. split; [exact Hr|exact Hd].
Defined.

End ChildSample.
