(* ===== verification/NexusIo.v ===== *)
(** * Nexus I/O

    The data plane of a nexus on one core: its I/O channel
    ([bdev/nexus/nexus_channel.rs]), the nexus I/Os submitted through it
    ([bdev/nexus/nexus_io.rs]) and the part of the nexus they change, which is
    the fault state and the I/O logs of the children
    ([retire_child_device] in [bdev/nexus/nexus_bdev_children.rs]).

    Devices answer in two places, and both answers are arguments: the
    submission of a child I/O succeeds or fails at once, and a submitted child
    I/O completes later, in any order, with any status. *)

From S2P Require Import Prelude Errors SegmentMap IoLog NexusChild.
Import Child.

Module Nx.

Inductive IoStatus := StPending | StSuccess | StFailed.

Inductive IoMode := Normal | Freeze.

(** How a nexus I/O is completed to the client. *)
Inductive BioResult := BioOk | BioFail | BioFailNvme (s : NvmeStatus) | BioNoMem.

(** The driver context of a nexus I/O with what it reads of the request.
    [targets] and [oks] are ghost state: the devices the request went to in
    the current round, and those that reported success. *)
Record NioCtx := mkCtx {
  io_type : IoType;
  offset : Z;
  num_blocks : Z;
  need_buf : bool;
  in_flight : Z;
  status : IoStatus;
  successful : Z;
  failed : Z;
  resubmits : Z;
  targets : list string;
  oks : list string;
}.

(** The channel, the nexus fields the data plane uses, the nexus I/Os by
    number, and the child I/Os that have been submitted.  [completed] is what
    was returned to clients, in order.  [bypassed] is ghost state: the children
    that writes of this channel may have missed without being logged. *)
Record World (L : Type) := mkWorld {
  children : list (NexusChild L);
  rebuild_jobs : list string;
  last_error : IoCompletionStatus;
  shutdown_requested : bool;
  retiring : list (string * bool);
  writers : list string;
  readers : list string;
  detached : list string;
  io_logs : list string;
  previous_reader : Z;
  io_mode : IoMode;
  frozen_ios : list nat;
  bios : gmap nat NioCtx;
  wait_buf : list nat;
  outstanding : list (nat * string);
  completed : list (nat * BioResult);
  bypassed : list string;
}.
Arguments mkWorld {L}.
Arguments children {L}.
Arguments rebuild_jobs {L}.
Arguments last_error {L}.
Arguments shutdown_requested {L}.
Arguments retiring {L}.
Arguments writers {L}.
Arguments readers {L}.
Arguments detached {L}.
Arguments io_logs {L}.
Arguments previous_reader {L}.
Arguments io_mode {L}.
Arguments frozen_ios {L}.
Arguments bios {L}.
Arguments wait_buf {L}.
Arguments outstanding {L}.
Arguments completed {L}.
Arguments bypassed {L}.

Section Nx.
Context {L : Type} `{!IoLogOps L}.
(** [Cores::current()], [ENABLE_PARTIAL_REBUILD], [data_ent_offset] and the
    clock. *)
Variable core : Z.
Variable partial_rebuild : bool.
Variable data_ent_offset : Z.
Variable now : Z.

Local Abbreviation W := (World L).
Local Abbreviation M := (ST W CoreError).
Implicit Types w : W.

(** A step given by its function on the world. *)
Definition act {A} (f : W → W * outcome CoreError A) : M A := f.

Definition set_children (cs : list (NexusChild L)) (w : W) : W :=
  mkWorld cs (rebuild_jobs w) (last_error w) (shutdown_requested w) (retiring w) (writers w)
    (readers w) (detached w) (io_logs w) (previous_reader w) (io_mode w) (frozen_ios w) (bios w)
    (wait_buf w) (outstanding w) (completed w) (bypassed w).
Definition set_last_error (e : IoCompletionStatus) (w : W) : W :=
  mkWorld (children w) (rebuild_jobs w) e (shutdown_requested w) (retiring w) (writers w)
    (readers w) (detached w) (io_logs w) (previous_reader w) (io_mode w) (frozen_ios w) (bios w)
    (wait_buf w) (outstanding w) (completed w) (bypassed w).
Definition set_shutdown (b : bool) (w : W) : W :=
  mkWorld (children w) (rebuild_jobs w) (last_error w) b (retiring w) (writers w)
    (readers w) (detached w) (io_logs w) (previous_reader w) (io_mode w) (frozen_ios w) (bios w)
    (wait_buf w) (outstanding w) (completed w) (bypassed w).
Definition schedule_retire (dev : string) (retry : bool) (w : W) : W :=
  mkWorld (children w) (rebuild_jobs w) (last_error w) (shutdown_requested w)
    (retiring w ++ [(dev, retry)]) (writers w)
    (readers w) (detached w) (io_logs w) (previous_reader w) (io_mode w) (frozen_ios w) (bios w)
    (wait_buf w) (outstanding w) (completed w) (bypassed w).
Definition set_handles (ws rs ds : list string) (w : W) : W :=
  mkWorld (children w) (rebuild_jobs w) (last_error w) (shutdown_requested w) (retiring w) ws
    rs ds (io_logs w) (previous_reader w) (io_mode w) (frozen_ios w) (bios w)
    (wait_buf w) (outstanding w) (completed w) (bypassed w).
Definition set_io_logs (ls : list string) (w : W) : W :=
  mkWorld (children w) (rebuild_jobs w) (last_error w) (shutdown_requested w) (retiring w)
    (writers w) (readers w) (detached w) ls (previous_reader w) (io_mode w) (frozen_ios w) (bios w)
    (wait_buf w) (outstanding w) (completed w) (bypassed w).
Definition set_previous_reader (i : Z) (w : W) : W :=
  mkWorld (children w) (rebuild_jobs w) (last_error w) (shutdown_requested w) (retiring w)
    (writers w) (readers w) (detached w) (io_logs w) i (io_mode w) (frozen_ios w) (bios w)
    (wait_buf w) (outstanding w) (completed w) (bypassed w).
Definition set_mode (m : IoMode) (w : W) : W :=
  mkWorld (children w) (rebuild_jobs w) (last_error w) (shutdown_requested w) (retiring w)
    (writers w) (readers w) (detached w) (io_logs w) (previous_reader w) m (frozen_ios w) (bios w)
    (wait_buf w) (outstanding w) (completed w) (bypassed w).
Definition set_frozen (f : list nat) (w : W) : W :=
  mkWorld (children w) (rebuild_jobs w) (last_error w) (shutdown_requested w) (retiring w)
    (writers w) (readers w) (detached w) (io_logs w) (previous_reader w) (io_mode w) f (bios w)
    (wait_buf w) (outstanding w) (completed w) (bypassed w).
Definition set_wait_buf (f : list nat) (w : W) : W :=
  mkWorld (children w) (rebuild_jobs w) (last_error w) (shutdown_requested w) (retiring w)
    (writers w) (readers w) (detached w) (io_logs w) (previous_reader w) (io_mode w) (frozen_ios w)
    (bios w) f (outstanding w) (completed w) (bypassed w).
Definition set_outstanding (o : list (nat * string)) (w : W) : W :=
  mkWorld (children w) (rebuild_jobs w) (last_error w) (shutdown_requested w) (retiring w)
    (writers w) (readers w) (detached w) (io_logs w) (previous_reader w) (io_mode w) (frozen_ios w)
    (bios w) (wait_buf w) o (completed w) (bypassed w).
Definition put_bio (id : nat) (b : NioCtx) (w : W) : W :=
  mkWorld (children w) (rebuild_jobs w) (last_error w) (shutdown_requested w) (retiring w)
    (writers w) (readers w) (detached w) (io_logs w) (previous_reader w) (io_mode w) (frozen_ios w)
    (<[id := b]> (bios w)) (wait_buf w) (outstanding w) (completed w) (bypassed w).
Definition finish (id : nat) (r : BioResult) (w : W) : W :=
  mkWorld (children w) (rebuild_jobs w) (last_error w) (shutdown_requested w) (retiring w)
    (writers w) (readers w) (detached w) (io_logs w) (previous_reader w) (io_mode w) (frozen_ios w)
    (bios w) (wait_buf w) (outstanding w) (completed w ++ [(id, r)]) (bypassed w).
Definition bypass (ns : list string) (w : W) : W :=
  mkWorld (children w) (rebuild_jobs w) (last_error w) (shutdown_requested w) (retiring w)
    (writers w) (readers w) (detached w) (io_logs w) (previous_reader w) (io_mode w) (frozen_ios w)
    (bios w) (wait_buf w) (outstanding w) (completed w) (bypassed w ++ ns).
Definition set_jobs (jobs : list string) (w : W) : W :=
  mkWorld (children w) jobs (last_error w) (shutdown_requested w) (retiring w)
    (writers w) (readers w) (detached w) (io_logs w) (previous_reader w) (io_mode w) (frozen_ios w)
    (bios w) (wait_buf w) (outstanding w) (completed w) (bypassed w).

(** A [&mut] borrow of the context of a nexus I/O. *)
Definition with_bio (id : nat) (f : NioCtx → NioCtx) (w : W) : W :=
  match bios w !! id with Some b => put_bio id (f b) w | None => w end.

Definition set_counts (infl : Z) (st : IoStatus) (succ fail : Z) (b : NioCtx) : NioCtx :=
  mkCtx (io_type b) (offset b) (num_blocks b) (need_buf b) infl st succ fail (resubmits b)
    (targets b) (oks b).
Definition set_ghost (ts os : list string) (b : NioCtx) : NioCtx :=
  mkCtx (io_type b) (offset b) (num_blocks b) (need_buf b) (in_flight b) (status b) (successful b)
    (failed b) (resubmits b) ts os.

(** *** Channel *)

Definition select_reader (w : W) : W * option string :=
  match readers w with
  | [] => (w, None)
  | _ =>
      let idx := if previous_reader w <? Z.of_nat (length (readers w)) - 1
                 then previous_reader w + 1 else 0 in
      (set_previous_reader idx w, readers w !! Z.to_nat idx)
  end.

(** [NexusRebuildJob::lookup] *)
Definition has_job (w : W) (c : NexusChild L) : bool := bool_decide (name c ∈ rebuild_jobs w).

(** [Nexus::io_log_channels]: a handle is named by its child. *)
Definition io_log_channels (w : W) : list string :=
  name <$> filter (λ c, is_rebuilding (has_job w c) c = false ∧ has_io_log c = true) (children w).

(** The children with a log that the channel neither logs for nor writes to. *)
Definition overlooked (w : W) : list string :=
  name <$> filter (λ c, has_io_log c = true ∧ name c ∉ io_logs w ∧
                        default false ((λ d, bool_decide (d ∈ writers w)) <$> get_device_name c) = false) (children w).

Definition reconnect_io_logs (w : W) : W :=
  let w := set_io_logs (io_log_channels w) w in
  bypass (overlooked w) w.

(** [Vec::remove] at the first position of the device. *)
Fixpoint remove_first (dev : string) (l : list string) : option (list string) :=
  match l with
  | [] => None
  | x :: l =>
      if bool_decide (x = dev) then Some l
      else match remove_first dev l with Some l' => Some (x :: l') | None => None end
  end.

Definition detach_device (dev : string) (w : W) : W :=
  let w := set_previous_reader 0 w in
  let '(rs, ds) :=
    match remove_first dev (readers w) with
    | Some rs => (rs, detached w ++ [dev])
    | None => (readers w, detached w)
    end in
  let '(ws, ds) :=
    match remove_first dev (writers w) with
    | Some ws => (ws, ds ++ [dev])
    | None => (writers w, ds)
    end in
  reconnect_io_logs (set_handles ws rs ds w).

Definition disconnect_detached_devices (drop_pred : string → bool) (w : W) : W :=
  set_handles (writers w) (readers w) (filter (λ d, drop_pred d = false) (detached w)) w.

(** [connect_children]; [h] says whether the child hands out I/O handles. *)
Definition connect_child (h : string → bool) (c : NexusChild L) : NexusChild L * option string :=
  if h (name c) && device_descriptor c then
    match device c with
    | Some d => (c, Some (bd_name d))
    | None => (c, None)
    end
  else (set_faulted_state now CantOpen c, None).

Fixpoint connect_where (P : NexusChild L → bool) (h : string → bool) (cs : list (NexusChild L))
    : list (NexusChild L) * list string :=
  match cs with
  | [] => ([], [])
  | c :: cs =>
      let '(cs', ds) := connect_where P h cs in
      if P c then
        match connect_child h c with
        | (c', Some d) => (c' :: cs', d :: ds)
        | (c', None) => (c' :: cs', ds)
        end
      else (c :: cs', ds)
  end.

Definition connect_children (h : string → bool) (w : W) : W :=
  let '(cs, rs) := connect_where is_healthy h (children w) in
  let '(cs, ws) :=
    match rs with
    | [] => (cs, [])
    | _ => connect_where (λ c, is_rebuilding (has_job w c) c) h cs
    end in
  set_handles (rs ++ ws) rs (detached w) (set_children cs w).

(** [NexusChannel::new]: the channel of a nexus with these children. *)
Definition new (h : string → bool) (cs : list (NexusChild L)) (jobs : list string) : W :=
  let w := mkWorld cs jobs Success false [] [] [] [] [] 0 Normal [] ∅ [] [] [] [] in
  let w := connect_children h (set_io_logs (io_log_channels w) w) in
  bypass (overlooked w) w.

Definition reconnect_all (h : string → bool) (w : W) : W :=
  reconnect_io_logs (connect_children h (set_previous_reader 0 w)).

(** *** Faulting a child *)

Definition lookup_child_by_device (w : W) (dev : string) : option (nat * NexusChild L) :=
  list_find (λ c, match_device_name dev c = true) (children w).

(** [Nexus::retire_child_device]; returns the child whose log is to be
    used. *)
Definition retire_child_device (dev : string) (reason : FaultReason) (retry : bool)
    : M (option string) := λ w,
  match lookup_child_by_device w dev with
  | None => (w, Ok None)
  | Some (i, c) =>
      match start_io_log partial_rebuild c with
      | (c, Ok has_io_log) =>
          let '(c, w) :=
            if bool_decide (state c = Open)
            then (set_fault_timestamp now (set_state (Faulted reason) c),
                  schedule_retire dev retry w)
            else (c, w) in
          (set_children (<[i := c]> (children w)) w,
           Ok (if has_io_log then Some (name c) else None))
      | (c, Err e) => (set_children (<[i := c]> (children w)) w, Err e)
      | (c, Panicked) => (set_children (<[i := c]> (children w)) w, Panicked)
      end
  end.

(** [NexusChannel::fault_device] *)
Definition channel_fault_device (dev : string) (reason : FaultReason) : M (option string) :=
  log ← retire_child_device dev reason true;
  match log with
  | None => mret None
  | Some l => _ ← ST.modify reconnect_io_logs; mret (Some l)
  end.

(** *** Nexus I/O *)

Definition effective_offset (b : NioCtx) : Z := wrap64 (offset b + data_ent_offset).

(** [NexusBio::log_io] through the handle of a child's log. *)
Definition log_io (b : NioCtx) (child : string) : M unit := λ w,
  match list_find (λ c, name c = child) (children w) with
  | Some (i, c) =>
      match io_log c with
      | Some l =>
          match il_log l core (io_type b) (effective_offset b) (num_blocks b) with
          | Ok l' => (set_children (<[i := set_io_log (Some l') c]> (children w)) w, Ok tt)
          | Err e => (w, Err e)
          | Panicked => (w, Panicked)
          end
      | None => (w, if is_write_like (io_type b) then Panicked else Ok tt)
      end
  | None => (w, Ok tt)
  end.

Fixpoint log_all (b : NioCtx) (logs : list string) : M unit :=
  match logs with
  | [] => mret tt
  | l :: logs => _ ← log_io b l; log_all b logs
  end.

Definition fault_reason (s : IoCompletionStatus) : FaultReason :=
  match s with LvolError Errors.NoSpace => NoSpace | _ => IoError end.

Definition fault_device (dev : string) (s : IoCompletionStatus) : M (option string) :=
  channel_fault_device dev (fault_reason s).

(** [NexusBio::fail] *)
Definition fail_result (e : IoCompletionStatus) : BioResult :=
  match e with
  | NvmeError s => BioFailNvme s
  | LvolError Errors.NoSpace => BioFailNvme Generic_CAPACITY_EXCEEDED
  | _ => BioFail
  end.

Definition fail (id : nat) : M unit := λ w, (finish id (fail_result (last_error w)) w, Ok tt).

(** [try_self_shutdown_nexus] requests the shutdown once. *)
Definition try_self_shutdown_nexus : M unit := λ w, (set_shutdown true w, Ok tt).

Definition completion_error (id : nat) (dev : string) (s : IoCompletionStatus) : M unit := λ w,
  match bios w !! id with
  | None => (w, Ok tt)
  | Some b =>
      match s with
      | NvmeError Generic_INVALID_OPCODE => (w, Ok tt)
      | NvmeError Generic_RESERVATION_CONFLICT => try_self_shutdown_nexus w
      | _ =>
          (log ← fault_device dev s;
           match log with None => mret tt | Some l => log_io b l end) w
      end
  end.

(** Submission to the writers in order, up to the first error. *)
Fixpoint for_each_writer (sub : string → outcome CoreError unit) (ws : list string)
    : list string * option (string * CoreError) :=
  match ws with
  | [] => ([], None)
  | d :: ws =>
      match sub d with
      | Err e => ([], Some (d, e))
      | _ => let '(ok, r) := for_each_writer sub ws in (d :: ok, r)
      end
  end.

(** The block of [submit_all] for a submission error; [b0] is the request. *)
Definition submission_error (id : nat) (b0 : NioCtx) (device : string) : M unit := λ w,
  let w := with_bio id (λ b, set_counts (in_flight b) (status b) (successful b)
                               (wrap8 (failed b + 1)) b) w in
  let w := disconnect_detached_devices (λ _, true) (detach_device device w) in
  (log ← fault_device device (IoSubmissionError SubmitWrite);
   match log with None => mret tt | Some l => log_io b0 l end) w.

Definition submit_all (sub : string → outcome CoreError unit) (id : nat) : M unit := λ w,
  match bios w !! id with
  | None => (w, Ok tt)
  | Some b0 =>
      let '(sent, err) := for_each_writer sub (writers w) in
      let inflight := wrap8 (Z.of_nat (length sent)) in
      let w := set_outstanding (outstanding w ++ ((λ d, (id, d)) <$> sent)) w in
      let w := with_bio id (set_ghost sent []) w in
      (_ ← match err with
           | None => mret tt
           | Some (device, _) => submission_error id b0 device
           end;
       _ ← act (λ w, log_all b0 (io_logs w) w);
       if 0 <? inflight then
         ST.modify (with_bio id (λ b, set_counts inflight StSuccess (successful b) (failed b) b))
       else fail id) w
  end.

(** [__do_readv_one]; [Ok false]: no reader is available. *)
Definition do_readv_one (sub : string → outcome CoreError unit) (id : nat) : M (outcome CoreError unit) := λ w,
  match select_reader w with
  | (w, None) => (w, Ok (Err NoDevicesAvailable))
  | (w, Some dev) =>
      match sub dev with
      | Err e =>
          (_ ← fault_device dev (IoSubmissionError SubmitRead); mret (Err e)) w
      | _ =>
          (with_bio id (set_ghost [dev] [])
             (with_bio id (λ b, set_counts 1 (status b) (successful b) (failed b) b)
                (set_outstanding (outstanding w ++ [(id, dev)]) w)), Ok (Ok tt))
      end
  end.

(** The resubmission loop: [n] is [num_readers]. *)
Fixpoint do_readv_loop (sub : nat → string → outcome CoreError unit) (n : nat) (id : nat)
    : M (outcome CoreError unit) :=
  match n with
  | O => mret (Err NoDevicesAvailable)
  | S n' =>
      r ← do_readv_one (sub n) id;
      match r with
      | Err e => match n' with O => mret (Err e) | _ => do_readv_loop sub n' id end
      | _ => mret r
      end
  end.

Definition do_readv (sub : nat → string → outcome CoreError unit) (id : nat) : M unit := λ w0,
  (r ← do_readv_one (sub (S (length (readers w0)))) id;
   match r with
   | Err NoDevicesAvailable => fail id
   | Err e => act (λ w,
       (r ← (if (length (readers w) <=? 1)%nat then mret (Err e)
             else do_readv_loop sub (length (readers w) - 1) id);
        match r with Err _ => fail id | _ => mret tt end) w)
   | _ => mret tt
   end) w0.

(** [nexus_get_buf_cb] *)
Definition get_buf_cb (sub : nat → string → outcome CoreError unit) (id : nat) (success : bool)
    : M unit := λ w,
  let w := if success then w else finish id BioNoMem w in
  do_readv sub id w.

Definition readv (sub : nat → string → outcome CoreError unit) (id : nat) : M unit := λ w,
  match bios w !! id with
  | Some b => if need_buf b then (set_wait_buf (wait_buf w ++ [id]) w, Ok tt) else do_readv sub id w
  | None => (w, Ok tt)
  end.

Definition submit_request (sub : nat → string → outcome CoreError unit) (id : nat) : M unit := λ w,
  match io_mode w with
  | Freeze => (set_frozen (frozen_ios w ++ [id]) w, Ok tt)
  | Normal =>
      match bios w !! id with
      | None => (w, Ok tt)
      | Some b =>
          match io_type b with
          | IoRead => readv sub id w
          | IoWrite | IoWriteZeros | IoReset | IoUnmap | IoFlush => submit_all (sub 0%nat) id w
          | _ => fail id w
          end
      end
  end.

Definition resubmit (sub : nat → string → outcome CoreError unit) (id : nat) : M unit := λ w,
  submit_request sub id
    (with_bio id (λ b, mkCtx (io_type b) (offset b) (num_blocks b) (need_buf b) (in_flight b)
       StPending 0 0 (wrap8 (resubmits b + 1)) (targets b) (oks b)) w).

(** [NexusBio::complete]: a child I/O completed with status [s]. *)
Definition complete (sub : nat → string → outcome CoreError unit) (id : nat) (dev : string)
    (s : IoCompletionStatus) : M unit := λ w,
  let w := with_bio id (λ b, set_counts (wrap8 (in_flight b - 1)) (status b) (successful b) (failed b) b) w in
  (_ ← (if bool_decide (s = Success) then
          ST.modify (with_bio id (λ b, set_ghost (targets b) (oks b ++ [dev])
             (set_counts (in_flight b) (status b) (wrap8 (successful b + 1)) (failed b) b)))
        else
          _ ← ST.modify (with_bio id (λ b, set_counts (in_flight b) StFailed (successful b)
                 (wrap8 (failed b + 1)) b));
          completion_error id dev s);
   act (λ w,
     match bios w !! id with
     | None => (w, Ok tt)
     | Some b =>
         if 0 <? in_flight b then (w, Ok tt)
         else if failed b =? 0 then (finish id BioOk w, Ok tt)
         else if 0 <? successful b then resubmit sub id w
         else fail id (set_last_error s w)
     end)) w.

(** [NexusBio::new] *)
Definition new_bio (t : IoType) (off n : Z) (buf : bool) : NioCtx :=
  mkCtx t off n buf 0 StPending 0 0 0 [] [].

(** [resubmit_frozen] and [abort_frozen] *)
Fixpoint resubmit_list (sub : nat → nat → string → outcome CoreError unit) (ids : list nat) : M unit :=
  match ids with
  | [] => mret tt
  | id :: ids => _ ← submit_request (sub id) id; resubmit_list sub ids
  end.

Definition set_io_mode (sub : nat → nat → string → outcome CoreError unit) (m : IoMode) : M unit := λ w,
  let w := set_mode m w in
  match m with
  | Normal => resubmit_list sub (frozen_ios w) (set_frozen [] w)
  | Freeze => (w, Ok tt)
  end.

Fixpoint abort_list (ids : list nat) : M unit :=
  match ids with
  | [] => mret tt
  | id :: ids => _ ← fail id; abort_list ids
  end.

Definition abort_frozen : M unit := λ w, abort_list (frozen_ios w) (set_frozen [] w).

(** *** Changes of children

    What the other tasks of the nexus do to children and rebuild jobs. *)

Definition lookup_child (n : string) (w : W) : option (nat * NexusChild L) :=
  list_find (λ c, name c = n) (children w).

(** [child_remove_routine]; [unplug] reconfigures the channel later. *)
Definition child_remove_routine (dev : string) : M unit := λ w,
  match lookup_child_by_device w dev with
  | Some (i, c) =>
      if hot_removed c then (_ ← retire_child_device dev HotRemove false; mret tt) w
      else (set_children (<[i := fst (unplug c)]> (children w)) w, Ok tt)
  | None => (w, Ok tt)
  end.

(** [NexusChild::online]; its error goes to the caller. *)
Definition online_child (n : string) (created : outcome Bdev.Error string)
    (lookup : string → option BlockDevice) (dev_open : outcome CoreError unit) (size : Z) : M unit := λ w,
  match lookup_child n w with
  | Some (i, c) =>
      let '(c, r) := online now created lookup dev_open size c in
      (set_children (<[i := c]> (children w)) w, match r with Panicked => Panicked | _ => Ok tt end)
  | None => (w, Ok tt)
  end.

Definition update_child (n : string) (f : NexusChild L → NexusChild L) (w : W) : W :=
  match lookup_child n w with
  | Some (i, c) => set_children (<[i := f c]> (children w)) w
  | None => w
  end.

(** *** Transitions *)

(** I/Os arrive, get buffers and are answered; a device is faulted, detached
    from the channel and disconnected, for a retirement, a removal or a
    self-shutdown; the channel is reconfigured, or its logs are; it is frozen,
    resumed or aborted.  Children lose their devices, are closed and brought
    back; rebuild jobs are made for them and go away, which take their logs,
    and may leave them faulted. *)
Inductive event :=
| EvNew (id : nat) (t : IoType) (off n : Z) (buf : bool)
    (sub : nat → string → outcome CoreError unit)
| EvBuf (i : nat) (success : bool) (sub : nat → string → outcome CoreError unit)
| EvChild (k : nat) (s : IoCompletionStatus) (sub : nat → string → outcome CoreError unit)
| EvFault (dev : string) (reason : FaultReason) (retry : bool)
| EvDetach (dev : string)
| EvDisconnect (drop_pred : string → bool)
| EvReconnect (h : string → bool)
| EvReconnectLogs
| EvMode (m : IoMode) (sub : nat → nat → string → outcome CoreError unit)
| EvAbort
| EvRemoved (dev : string)
| EvClose (n : string)
| EvClosed (n : string)
| EvOnline (n : string) (created : outcome Bdev.Error string) (lookup : string → option BlockDevice)
    (dev_open : outcome CoreError unit) (size : Z)
| EvRebuild (n : string)
| EvStopLog (n : string)
| EvRebuildFailed (n : string)
| EvJobGone (n : string).

(** The healthy children of a device, without a log *)
Definition unlogged (dev : string) (w : W) : list string :=
  name <$> filter (λ c, match_device_name dev c = true ∧ is_healthy c = true ∧ has_io_log c = false) (children w).

(** [None]: the event cannot happen.  A request gets a context of its own.  A
    rebuild is started for a child that is open and out of sync; its child
    stays out of sync until the rebuild completes, which is not an event. *)
Definition exec (ev : event) (w : W) : option (W * outcome CoreError unit) :=
  match ev with
  | EvNew id t off n buf sub =>
      match bios w !! id with
      | None => Some (submit_request sub id (put_bio id (new_bio t off n buf) w))
      | Some _ => None
      end
  | EvBuf i success sub =>
      match wait_buf w !! i with
      | Some id => Some (get_buf_cb sub id success (set_wait_buf (delete i (wait_buf w)) w))
      | None => None
      end
  | EvChild k s sub =>
      match outstanding w !! k with
      | Some (id, dev) =>
          Some (complete sub id dev s (set_outstanding (delete k (outstanding w)) w))
      | None => None
      end
  | EvFault dev reason retry =>
      Some ((_ ← retire_child_device dev reason retry; mret tt) w)
  | EvDetach dev => Some (bypass (unlogged dev w) (detach_device dev w), Ok tt)
  | EvDisconnect p => Some (disconnect_detached_devices p w, Ok tt)
  | EvReconnect h => Some (reconnect_all h w, Ok tt)
  | EvReconnectLogs => Some (reconnect_io_logs w, Ok tt)
  | EvMode m sub => Some (set_io_mode sub m w)
  | EvAbort => Some (abort_frozen w)
  | EvRemoved dev => Some (child_remove_routine dev w)
  | EvClose n => Some (update_child n (λ c, fst (close_begin c)) w, Ok tt)
  | EvClosed n => Some (update_child n (λ c, fst (close_end c)) w, Ok tt)
  | EvOnline n created lookup dev_open size => Some (online_child n created lookup dev_open size w)
  | EvRebuild n =>
      match lookup_child n w with
      | Some (_, c) =>
          if is_opened_unsync c && negb (has_job w c) then Some (set_jobs (rebuild_jobs w ++ [n]) w, Ok tt) else None
      | None => None
      end
  | EvStopLog n =>
      match lookup_child n w with
      | Some (_, c) =>
          if bool_decide (sync_state c = OutOfSync) then Some (update_child n (set_io_log None) w, Ok tt) else None
      | None => None
      end
  | EvRebuildFailed n =>
      match lookup_child n w with
      | Some (_, c) =>
          if bool_decide (sync_state c = OutOfSync)
          then Some (update_child n (close_faulted_end now RebuildFailed) w, Ok tt) else None
      | None => None
      end
  | EvJobGone n => Some (set_jobs (filter (λ d, d ≠ n) (rebuild_jobs w)) w, Ok tt)
  end.

Inductive reaches (w0 : W) : list event → W → Prop :=
| reaches_init : reaches w0 [] w0
| reaches_step evs w ev w' :
    reaches w0 evs w → exec ev w = Some (w', Ok tt) → reaches w0 (evs ++ [ev]) w'.

End Nx.
End Nx.
