(* ===== verification/NexusIoFacts.v ===== *)
(** * Invariants of nexus I/O

    What holds of the data plane of a nexus after any sequence of events:
    every nexus I/O is in exactly one place and completes once, an I/O is
    acknowledged only when every writer it went to reported success, and every
    child that missed an acknowledged write has it in its I/O log, unless the
    channel has bypassed it. *)

From S2P Require Import Prelude Wp Errors SegmentMap IoLog NexusChild NexusIo.
Import Child Nx.

Module NxFacts.

(** The computation succeeds with a result in [Q], or panics for the reason
    [bad]. *)
Definition okb (bad : Prop) {S E A : Type} (Q : A → S → Prop) (r : outcome E A) (s : S) : Prop :=
  match r with Ok a => Q a s | Err _ => False | Panicked => bad end.

Lemma okb_bind bad {S E A B} (m : ST S E A) (k : A → ST S E B) P Q s :
  wp m (okb bad P) s → (∀ a s', P a s' → wp (k a) (okb bad Q) s') → wp (m ≫= k) (okb bad Q) s.
Proof. intros Hm Hk. apply wp_bind. eapply wp_mono; [exact Hm|]. intros [a|e|] s' H; [by apply Hk|done..]. Qed.

Lemma okb_mono bad {S E A} (m : ST S E A) (P Q : A → S → Prop) s :
  wp m (okb bad P) s → (∀ a s', P a s' → Q a s') → wp m (okb bad Q) s.
Proof. intros Hm H. eapply wp_mono; [exact Hm|]. intros [a|e|] s' HP; [by apply H|done..]. Qed.

Section NxFacts.
Context {L : Type} `{!IoLogOps L, !IoLogLaws L}.
Variable core : Z.
Variable data_ent_offset : Z.
Variable now : Z.
(** The number of blocks every child has at least, and the device of a child:
    a child that is brought back has a device of the same name. *)
Variable limit : Z.
Variable dev_of : string → string.
(** Why a step may panic. *)
Variable bad : Prop.
Hypothesis Hcore : core ∈ il_cores.

Local Abbreviation W := (World L).
Local Abbreviation okb := (okb bad).
Implicit Types (w : W) (c : NexusChild L) (b : NioCtx).

(** *** Children *)

Definition dev_name c : option string := bd_name <$> device c.

(** A child whose data is not expected to be complete: it cannot be brought
    back, or has no log and needs a full rebuild. *)
Definition excluded c : Prop :=
  sync_state c = Synced ∧ state c ≠ Open ∧ state_is_recoverable (state c) = false ∨
  has_io_log c = false ∧ (device c = None ∨ sync_state c = OutOfSync).

Definition ev_of b : IOLog.event :=
  (core, io_type b, effective_offset data_ent_offset b, num_blocks b).

Definition logged c (e : IOLog.event) : Prop :=
  ∃ l evs nb, io_log c = Some l ∧ il_hist l evs nb ∧ limit ≤ nb ∧ e ∈ evs.

(** A device that can be logged *)
Definition sane_device (n : string) (d : BlockDevice) : Prop :=
  bd_name d = dev_of n ∧ bd_name d ≠ ""%string ∧ 0 < bd_num_blocks d ∧ 0 < bd_block_len d ∧
  bd_num_blocks d * bd_block_len d < 2^64 ∧ limit ≤ bd_num_blocks d.

Record wfc c : Prop := {
  wc_device : ∀ d, device c = Some d → sane_device (name c) d;
  wc_log : ∀ l, io_log c = Some l → ∃ evs nb, il_hist l evs nb ∧ limit ≤ nb;
  wc_sync : sync_state c = OutOfSync → has_io_log c = true → bad;
}.

Lemma wfc_dev_name c d : wfc c → dev_name c = Some d → d = dev_of (name c).
Proof. intros Hc. unfold dev_name. destruct (device c) eqn:E; [|done]. intros [= <-]. by apply (wc_device _ Hc). Qed.

(** What a child had to expect it has, or it is excluded. *)
Record follows c c' : Prop := {
  f_name : name c' = name c;
  f_excluded : excluded c → excluded c';
  f_logged : ∀ e, logged c e → excluded c' ∨ logged c' e;
}.

Lemma follows_trans c1 c2 c3 : follows c1 c2 → follows c2 c3 → follows c1 c3.
Proof.
  intros [] []. split; [congruence|auto|]. intros e He. destruct (f_logged0 e He) as [?|?]; auto.
Qed.

(** How a child may change in the data plane: it can be faulted, and its log
    can grow. *)
Record grows c c' : Prop := {
  g_name : name c' = name c;
  g_device : device c' = device c;
  g_sync : sync_state c' = sync_state c;
  g_state : state c' = Open → state c = Open;
  g_excluded : excluded c → excluded c';
  g_logged : ∀ e, logged c e → logged c' e;
  g_has_log : has_io_log c = true → has_io_log c' = true;
  g_no_log : sync_state c = OutOfSync → has_io_log c' = true → has_io_log c = true;
}.

Lemma grows_refl c : grows c c.
Proof. by split. Qed.

Lemma grows_trans c1 c2 c3 : grows c1 c2 → grows c2 c3 → grows c1 c3.
Proof. intros [] []. split; try congruence; auto. intros Hs Hl. apply g_no_log0; [done|]. apply g_no_log1; congruence. Qed.

Lemma grows_follows c c' : grows c c' → follows c c'.
Proof. intros []. split; auto. Qed.

Definition evolves (cs cs' : list (NexusChild L)) : Prop := Forall2 grows cs cs'.

Lemma evolves_refl cs : evolves cs cs.
Proof. apply Forall_Forall2_diag, Forall_forall. intros; apply grows_refl. Qed.

Lemma evolves_trans cs1 cs2 cs3 : evolves cs1 cs2 → evolves cs2 cs3 → evolves cs1 cs3.
Proof.
  unfold evolves. intros H1. revert cs3.
  induction H1 as [|???? Hg _ IH]; intros cs3 H2; inversion H2; subst; constructor;
    [by eapply grows_trans|by apply IH].
Qed.

Lemma evolves_insert cs i c c' :
  cs !! i = Some c → grows c c' → evolves cs (<[i := c']> cs).
Proof.
  intros Hi Hg. apply Forall2_same_length_lookup_2; [by rewrite length_insert|].
  intros j x y Hx Hy. apply list_lookup_insert_Some in Hy as [(<- & -> & _)|[_ Hy]].
  - by simplify_eq.
  - simplify_eq. apply grows_refl.
Qed.

Definition devices_of (cs : list (NexusChild L)) : list string := (λ c, dev_of (name c)) <$> cs.

Lemma evolves_devices cs cs' : evolves cs cs' → devices_of cs' = devices_of cs.
Proof. induction 1 as [|x y l l' [] _ IH]; [done|]. unfold devices_of in *. rewrite !fmap_cons. by f_equal; [f_equal|]. Qed.

Lemma evolves_in cs cs' c' : evolves cs cs' → c' ∈ cs' → ∃ c, c ∈ cs ∧ grows c c'.
Proof.
  intros He [i Hi]%list_elem_of_lookup.
  destruct (Forall2_lookup_r _ _ _ _ _ He Hi) as (c & Hc & Hg).
  exists c. split; [by eapply list_elem_of_lookup_2|done].
Qed.

(** [start_io_log] gives every synced child with a device a log. *)
Lemma start_io_log_spec c :
  wfc c →
  wp (start_io_log true) (okb (λ r c', r = has_io_log c' ∧ grows c c' ∧ wfc c' ∧
    state c' = state c ∧ (excluded c' ∨ has_io_log c' = true))) c.
Proof.
  intros Hc. pose proof Hc as []. unfold wp, start_io_log. simpl. case_bool_decide as Hs.
  { destruct (io_log c) eqn:Hl; simpl; [apply wc_sync0; [done|]; unfold has_io_log; by rewrite Hl|].
    unfold excluded, has_io_log. rewrite Hl. split_and!; try done. left. right. auto. }
  destruct (io_log c) as [l|] eqn:Hl.
  { simpl. unfold excluded, has_io_log. rewrite Hl. split_and!; try done. by right. }
  destruct (device c) as [d|] eqn:Hd.
  2:{ simpl. unfold excluded, has_io_log. rewrite Hl. split_and!; try done. left. right. auto. }
  destruct (wc_device0 d eq_refl) as (_ & H1 & H2 & H3 & H4 & H5).
  destruct (il_new_spec (bd_name d) (bd_num_blocks d) (bd_block_len d) H1 H2 H3 H4)
    as (l & Hnew & Hh). rewrite Hnew. simpl. split_and!; try done; [split; try done|split|by right].
  - unfold excluded, has_io_log. simpl. rewrite Hl, Hd. intros [?|[_ [?|?]]]; [by left|done..].
  - intros e (? & ? & ? & ? & _). congruence.
  - simpl. by rewrite Hd.
  - intros l' [= <-]. eauto.
  - done.
Qed.

(** *** Handles

    Every child that matters gets the writes of this channel, or has a log
    this channel writes to. *)

Definition handled w c : Prop :=
  excluded c ∨ name c ∈ bypassed w ∨
  dev_of (name c) ∈ writers w ∧ (state c = Open ∨ has_io_log c = true) ∨
  has_io_log c = true ∧ name c ∈ io_logs w.

Record base w : Prop := {
  b_wfc : Forall wfc (children w);
  b_devices : NoDup (devices_of (children w));
  b_writers : (length (writers w) < 255)%nat;
  b_children : (length (children w) < 128)%nat;
  b_logs : ∀ c, c ∈ children w → name c ∈ io_logs w → has_io_log c = true ∨ bad;
}.

(** All children are handled, but possibly that of one device. *)
Definition handles (but : option string) w : Prop :=
  ∀ c, c ∈ children w → is_Some but ∧ dev_name c = but ∨ handled w c.

(** [base] needs the new children to be well formed only. *)
Lemma base_evolves w w' :
  base w → evolves (children w) (children w') → Forall wfc (children w') →
  (length (writers w') < 255)%nat → (∀ n, n ∈ io_logs w' → n ∈ io_logs w) → base w'.
Proof.
  intros [] He Hw Hn Hl. split; try done.
  - by rewrite (evolves_devices _ _ He).
  - by rewrite <- (Forall2_length _ _ _ He).
  - intros c' Hc' Hin. destruct (evolves_in _ _ _ He Hc') as (c & Hc & Hg).
    destruct (b_logs0 c Hc) as [?|?]; [apply Hl; by rewrite <- (g_name _ _ Hg)| |by right].
    left. by apply (g_has_log _ _ Hg).
Qed.

(** The fields of the bookkeeping of nexus I/Os. *)
Definition same_bios w w' : Prop :=
  bios w' = bios w ∧ frozen_ios w' = frozen_ios w ∧ wait_buf w' = wait_buf w ∧
  outstanding w' = outstanding w ∧ completed w' = completed w.

Lemma same_bios_refl w : same_bios w w.
Proof. by split_and!. Qed.

Lemma same_bios_trans w1 w2 w3 : same_bios w1 w2 → same_bios w2 w3 → same_bios w1 w3.
Proof. intros (?&?&?&?&?) (?&?&?&?&?). split_and!; congruence. Qed.

(** There is a rebuild job for the child, which has its log still. *)
Definition at_risk w n : Prop :=
  n ∈ rebuild_jobs w ∧ ∃ c, c ∈ children w ∧ name c = n ∧ sync_state c = OutOfSync ∧ has_io_log c = true.

(** Only children at risk are bypassed, and no more are. *)
Definition guarded w w' : Prop :=
  (∀ n, n ∈ bypassed w' → n ∈ bypassed w ∨ at_risk w n) ∧ (∀ n, at_risk w' n → at_risk w n).

Lemma guarded_refl w : guarded w w.
Proof. split; auto. Qed.

Lemma guarded_trans w1 w2 w3 : guarded w1 w2 → guarded w2 w3 → guarded w1 w3.
Proof. intros [Ha1 Hb1] [Ha2 Hb2]. split; [|auto]. intros n Hn. destruct (Ha2 n Hn) as [?|?]; auto. Qed.

Lemma evolves_guarded w w' :
  evolves (children w) (children w') → rebuild_jobs w' = rebuild_jobs w → bypassed w' = bypassed w → guarded w w'.
Proof.
  intros He Hj Hb. split; [rewrite Hb; auto|]. intros n (Hn & c' & Hc' & Hnm & Hs & Hl). rewrite Hj in Hn.
  destruct (evolves_in _ _ _ He Hc') as (c & Hc & []). split; [done|]. exists c. split_and!; try congruence.
  apply g_no_log0; congruence.
Qed.

(** A step of the control plane: children evolve, I/Os stay. *)
Definition quiet w w' : Prop :=
  same_bios w w' ∧ evolves (children w) (children w') ∧ bypassed w ⊆ bypassed w' ∧ guarded w w'.

Lemma quiet_refl w : quiet w w.
Proof. split_and!; [apply same_bios_refl|apply evolves_refl|done|apply guarded_refl]. Qed.

Lemma evolves_quiet w w' :
  same_bios w w' → evolves (children w) (children w') → rebuild_jobs w' = rebuild_jobs w → bypassed w' = bypassed w → quiet w w'.
Proof. intros Hs He Hj Hb. split_and!; [done|done|by rewrite Hb|by apply evolves_guarded]. Qed.

Lemma quiet_trans w1 w2 w3 : quiet w1 w2 → quiet w2 w3 → quiet w1 w3.
Proof.
  intros (?&?&?&?) (?&?&?&?). split; [by eapply same_bios_trans|]. split; [by eapply evolves_trans|].
  split; [set_solver|by eapply guarded_trans].
Qed.

Lemma handled_same w w' c :
  handled w c → writers w ⊆ writers w' → io_logs w ⊆ io_logs w' → bypassed w ⊆ bypassed w' → handled w' c.
Proof.
  intros [?|[?|[[? ?]|[? ?]]]] Hw Hl Hb; [by left|right; left; auto|right; right; left; auto|right; right; right; auto].
Qed.

(** A handle of a log stays good while the child changes. *)
Lemma handled_grows w c c' :
  grows c c' → (excluded c' ∨ state c' = Open ∨ has_io_log c' = true) →
  handled w c → handled w c'.
Proof.
  intros [] Hok [?|[?|[[? ?]|[? ?]]]].
  - left. auto.
  - right. left. congruence.
  - destruct Hok as [?|Hok]; [by left|]. right. right. left. split; [congruence|done].
  - right. right. right. split; [auto|congruence].
Qed.

Lemma lookup_child_spec w dev i c :
  lookup_child_by_device w dev = Some (i, c) →
  children w !! i = Some c ∧ dev_name c = Some dev.
Proof.
  intros (Hi & Hm & _)%list_find_Some. split; [done|].
  unfold match_device_name, get_device_name in Hm. unfold dev_name.
  destruct (bd_name <$> device c); [|done]. by case_bool_decide; simplify_eq.
Qed.

Lemma lookup_child_none w dev c :
  lookup_child_by_device w dev = None → c ∈ children w → dev_name c ≠ Some dev.
Proof.
  intros Hn Hc. apply list_find_None in Hn. rewrite Forall_forall in Hn. specialize (Hn c Hc).
  unfold match_device_name, get_device_name in Hn. unfold dev_name. intros E. rewrite E in Hn.
  by rewrite bool_decide_true in Hn.
Qed.

(** Names of children and of their devices are distinct. *)
Lemma name_inj w c c' :
  base w → c ∈ children w → c' ∈ children w → dev_of (name c) = dev_of (name c') → c = c'.
Proof.
  intros [_ Hnd _ _ _]. unfold devices_of in Hnd. induction (children w) as [|x cs IH]; [by intros ?%not_elem_of_nil|].
  rewrite fmap_cons, NoDup_cons in Hnd. destruct Hnd as [Hx Hnd].
  intros Hc Hc' E. apply elem_of_cons in Hc as [->|Hc], Hc' as [->|Hc']; [done| | |].
  - destruct Hx. rewrite E. by apply (list_elem_of_fmap_2 (λ c, dev_of (name c))).
  - destruct Hx. rewrite <- E. by apply (list_elem_of_fmap_2 (λ c, dev_of (name c))).
  - by apply IH.
Qed.

Lemma child_wfc w c : base w → c ∈ children w → wfc c.
Proof. intros [H _ _ _ _]. by apply Forall_forall. Qed.

Lemma device_inj w c c' d :
  base w → c ∈ children w → c' ∈ children w → dev_name c = Some d → dev_name c' = Some d → c = c'.
Proof.
  intros Hb Hc Hc' Hd Hd'. apply (name_inj w); try done.
  by rewrite <- (wfc_dev_name _ _ (child_wfc _ _ Hb Hc) Hd), <- (wfc_dev_name _ _ (child_wfc _ _ Hb Hc') Hd').
Qed.

(** *** Control steps *)

Lemma handles_none w c : handles None w → c ∈ children w → handled w c.
Proof. intros H Hc. by destruct (H c Hc) as [[[? ?] _]|?]. Qed.

(** Replacing one child by a grown one. *)
Lemma handles_insert but w w' i c c' :
  children w !! i = Some c → children w' = <[i := c']> (children w) → grows c c' →
  (excluded c' ∨ state c' = Open ∨ has_io_log c' = true) →
  writers w' = writers w → io_logs w' = io_logs w → bypassed w' = bypassed w → handles but w → handles but w'.
Proof.
  intros Hi Hcs Hg Hok Hw Hl Hby Hh x Hx.
  assert (Hsame : ∀ y, handled w y → handled w' y)
    by (intros y Hy; eapply handled_same; [done|by rewrite Hw|by rewrite Hl|by rewrite Hby]).
  rewrite Hcs in Hx. apply list_elem_of_lookup in Hx as [j Hj].
  apply list_lookup_insert_Some in Hj as [(<- & <- & _)|[_ Hj]].
  - destruct (Hh c) as [[? E]|E]; [by eapply list_elem_of_lookup_2|left|right].
    + split; [done|]. rewrite <- E. unfold dev_name. by rewrite (g_device _ _ Hg).
    + apply Hsame. by eapply handled_grows.
  - destruct (Hh x) as [?|?]; [by eapply list_elem_of_lookup_2|by left|right; auto].
Qed.

(** A child that is faulted keeps what it has. *)
Lemma fault_grows c reason : state c = Open → wfc c →
  let c' := set_fault_timestamp now (set_state (Faulted reason) c) in
  grows c c' ∧ wfc c' ∧ (excluded c → excluded c').
Proof.
  intros Ho Hc c'. assert (excluded c → excluded c') by (intros [(_ & ? & _)|?]; [done|by right]).
  split; [by split|]. split; [|done]. destruct Hc. by split.
Qed.

Lemma retire_spec w dev reason retry :
  base w →
  wp (retire_child_device true now dev reason retry) (okb (λ r w',
    quiet w w' ∧ base w' ∧ writers w' = writers w ∧ io_logs w' = io_logs w ∧
    (∀ but, handles but w → handles but w') ∧
    (∀ c, c ∈ children w' → dev_name c = Some dev →
       excluded c ∨ has_io_log c = true ∧ r = Some (name c)) ∧
    (∀ l, r = Some l → ∃ c, c ∈ children w' ∧ name c = l ∧ has_io_log c = true))) w.
Proof.
  intros Hb. unfold wp, retire_child_device.
  destruct (lookup_child_by_device w dev) as [[i c]|] eqn:Hl.
  2:{ split_and!; try done; [apply quiet_refl|]. intros c Hc Hd. by destruct (lookup_child_none _ _ _ Hl Hc). }
  destruct (lookup_child_spec _ _ _ _ Hl) as [Hi Hd].
  pose proof (start_io_log_spec c (child_wfc _ _ Hb (list_elem_of_lookup_2 _ _ _ Hi))) as Hs.
  unfold wp in Hs. destruct (start_io_log true c) as [c1 [hl|e|]]; [|done|exact Hs].
  destruct Hs as (-> & Hg1 & Hw1 & Hs1 & Hlog). simpl.
  set (res := if bool_decide (state c1 = Open) then _ else _).
  assert (∃ c2 w2, res = (c2, w2) ∧ grows c c2 ∧ wfc c2 ∧ has_io_log c2 = has_io_log c1 ∧
    (excluded c1 → excluded c2) ∧ same_bios w w2 ∧ children w2 = children w ∧ (rebuild_jobs w2 = rebuild_jobs w ∧ bypassed w2 = bypassed w) ∧
    writers w2 = writers w ∧ io_logs w2 = io_logs w) as (c2 & w2 & -> & Hg & Hw & Hh2 & Hex & Hsb & Hcs & [Hj Hby] & Hws & Hls).
  { subst res. case_bool_decide as Ho; [|by exists c1, w; split_and!].
    destruct (fault_grows c1 reason Ho Hw1) as (? & ? & ?).
    eexists _, _. split; [done|]. split_and!; try done. by eapply grows_trans. }
  assert (He : evolves (children w) (<[i:=c2]> (children w2))) by (rewrite Hcs; by eapply evolves_insert).
  assert (Hok : excluded c2 ∨ has_io_log c2 = true) by (rewrite Hh2; tauto).
  assert (Hi2 : (<[i:=c2]> (children w2)) !! i = Some c2)
    by (rewrite list_lookup_insert_eq; [done|rewrite Hcs; by eapply lookup_lt_Some]).
  assert (Hb' : base (set_children (<[i:=c2]> (children w2)) w2)).
  { eapply base_evolves; [done|exact He| | |].
    - simpl. rewrite Hcs. apply Forall_insert; [apply Hb|done].
    - simpl. rewrite Hws. apply Hb.
    - simpl. by rewrite Hls. }
  simpl. split_and!; try done.
  - by apply evolves_quiet.
  - intros but Hh. eapply (handles_insert but w); simpl; try done; [by rewrite Hcs|tauto].
  - intros x Hx Hdx. assert (x = c2) as ->.
    { eapply (device_inj _ x c2 dev Hb'); try done; [by eapply list_elem_of_lookup_2|].
      unfold dev_name in *. by rewrite (g_device _ _ Hg). }
    rewrite <- Hh2. destruct Hok as [?| ->]; [by left|by right].
  - intros l. rewrite <- Hh2. destruct (has_io_log c2) eqn:E; [|done]. intros [= <-].
    exists c2. split; [by eapply list_elem_of_lookup_2|done].
Qed.

(** The logs of the channel are those of children that are not rebuilt. *)
Lemma io_log_channels_spec w c :
  base w → c ∈ children w → name c ∈ io_log_channels w → has_io_log c = true.
Proof.
  intros Hb Hc. unfold io_log_channels. rewrite list_elem_of_fmap.
  intros (c' & E & [[_ ?] Hc']%list_elem_of_filter). by rewrite (name_inj w c c' Hb) by congruence.
Qed.

(** A child with a log is written to, logged for, or bypassed. *)
Lemma with_log_handled w c :
  base w → c ∈ children w → has_io_log c = true →
  name c ∈ io_logs w ∨ name c ∈ overlooked w ∨ dev_of (name c) ∈ writers w.
Proof.
  intros Hb Hc Hl. destruct (decide (name c ∈ io_logs w)); [by left|]. right. unfold overlooked. rewrite list_elem_of_fmap.
  destruct (default false ((λ d, bool_decide (d ∈ writers w)) <$> get_device_name c)) eqn:Hw.
  2:{ left. exists c. split; [done|]. by apply list_elem_of_filter. }
  right. destruct (get_device_name c) as [d|] eqn:Hd; [|done]. simpl in Hw. apply bool_decide_eq_true in Hw.
  by rewrite <- (wfc_dev_name c d) by (try done; by eapply child_wfc).
Qed.

(** A log is left out for a rebuild. *)
Lemma left_out_rebuilding w c :
  c ∈ children w → has_io_log c = true → name c ∉ io_log_channels w → name c ∈ rebuild_jobs w ∧ sync_state c = OutOfSync.
Proof.
  intros Hc Hl Hn. destruct (is_rebuilding (has_job w c) c) eqn:Hr.
  - unfold is_rebuilding, has_job, is_opened_unsync in Hr. by repeat case_bool_decide.
  - destruct Hn. unfold io_log_channels. apply list_elem_of_fmap. exists c. split; [done|]. by apply list_elem_of_filter.
Qed.

Lemma overlooked_at_risk w n : n ∈ overlooked (set_io_logs (io_log_channels w) w) → at_risk w n.
Proof.
  unfold overlooked. intros (c & -> & [(Hl & Hn & _) Hc]%list_elem_of_filter)%list_elem_of_fmap.
  destruct (left_out_rebuilding w c Hc Hl Hn). split; [done|]. by exists c.
Qed.

Lemma reconnect_guarded w : guarded w (reconnect_io_logs w).
Proof. split; [|auto]. intros n [?|?%overlooked_at_risk]%elem_of_app; auto. Qed.

Lemma reconnect_spec w :
  base w → quiet w (reconnect_io_logs w) ∧ base (reconnect_io_logs w) ∧
  (∀ c, c ∈ children w → has_io_log c = true → handled (reconnect_io_logs w) c) ∧
  (∀ c, c ∈ children w → handled w c → handled (reconnect_io_logs w) c).
Proof.
  intros Hb. assert (Hlog : ∀ c, c ∈ children w → has_io_log c = true → handled (reconnect_io_logs w) c).
  { intros c Hc Hl. set (w1 := set_io_logs (io_log_channels w) w).
    assert (Hb1 : base w1) by (pose proof Hb as []; split; try done; intros x Hx Hin; left; by apply (io_log_channels_spec w)).
    unfold handled. simpl. destruct (with_log_handled w1 c Hb1 Hc Hl) as [?|[?|?]]; [auto 6|set_solver|auto 6]. }
  split; [split; [done|split; [apply evolves_refl|split; [simpl; set_solver|apply reconnect_guarded]]]|]. split; [|split; [done|]].
  - pose proof Hb as []. split; try done. simpl. intros c Hc Hin. left. by apply (io_log_channels_spec w).
  - intros c Hc [?|[?|[?|[? ?]]]]; [by left|right; left; simpl; set_solver|by right; right; left|auto].
Qed.

Lemma remove_first_spec dev l l' :
  remove_first dev l = Some l' →
  (length l' ≤ length l)%nat ∧ ∀ d, d ∈ l → d ≠ dev → d ∈ l'.
Proof.
  revert l'. induction l as [|x l IH]; intros l'; [done|]. simpl.
  case_bool_decide as Hx.
  - intros [= <-]. split; [lia|]. intros d [->|?]%elem_of_cons ?; congruence.
  - destruct (remove_first dev l); [|done]. intros [= <-].
    destruct (IH _ eq_refl) as [Hn Hin]. split; [simpl; lia|].
    intros d [->|?]%elem_of_cons ?; [left|right; auto].
Qed.

(** Detaching a device leaves the handles of the others; what its child loses
    is the way of writes to it, if it has no log. *)
Lemma detach_spec w dev :
  base w → handles None w →
  quiet w (detach_device dev w) ∧ base (detach_device dev w) ∧ children (detach_device dev w) = children w ∧
  ∀ c, c ∈ children w → handled (detach_device dev w) c ∨
    dev_name c = Some dev ∧ is_healthy c = true ∧ has_io_log c = false.
Proof.
  intros Hb Hh. unfold detach_device. simpl.
  destruct (match remove_first dev (readers w) with Some _ => _ | None => _ end) as [rs ds].
  assert (∃ ws ds', match remove_first dev (writers w) with
      Some ws => (ws, ds ++ [dev]) | None => (writers w, ds) end = (ws, ds') ∧
      (length ws ≤ length (writers w))%nat ∧ ∀ d, d ∈ writers w → d ≠ dev → d ∈ ws)
    as (ws & ds' & -> & Hn & Hin).
  { destruct (remove_first dev (writers w)) as [ws|] eqn:E; [|by eauto].
    destruct (remove_first_spec _ _ _ E). eauto. }
  set (w1 := set_handles ws rs ds' (set_previous_reader 0 w)).
  assert (Hb1 : base w1) by (destruct Hb; split; try done; simpl; lia).
  destruct (reconnect_spec w1 Hb1) as (Hq & Hb2 & Hl & Hr). split_and!; try apply Hq; try done.
  intros c Hc. destruct (has_io_log c) eqn:Hlog; [left; by apply Hl|].
  destruct (handles_none _ _ Hh Hc) as [?|[?|[[Hd [Ho|?]]|[? _]]]]; [left; by left|left; right; left|..|congruence|congruence].
  { destruct Hq as (_ & _ & Hq & _). by apply Hq. }
  destruct (decide (dev_of (name c) = dev)) as [E|E].
  2:{ left. apply Hr; [done|]. right. right. left. split; [by apply Hin|by left]. }
  destruct (sync_state c) eqn:Hs; [|left; left; right; auto].
  destruct (device c) as [d|] eqn:Hdv; [|left; left; right; auto].
  right. unfold is_healthy, dev_name. rewrite Ho, Hs, Hdv. split_and!; try done. simpl. f_equal.
  rewrite <- E. by apply (wc_device c (child_wfc w c Hb Hc)).
Qed.

Lemma detach_handles w dev : base w → handles None w → handles (Some dev) (detach_device dev w).
Proof.
  intros Hb Hh c Hc. destruct (detach_spec w dev Hb Hh) as (_ & _ & E & H). rewrite E in Hc.
  destruct (H c Hc) as [?|(? & _)]; auto.
Qed.

(** Faulting the device that was detached restores the handles. *)
Lemma fault_device_spec w dev reason but :
  base w → handles but w → but = None ∨ but = Some dev →
  wp (channel_fault_device true now dev reason) (okb (λ r w',
    quiet w w' ∧ base w' ∧ handles None w' ∧ writers w' = writers w ∧
    (∀ l, r = Some l → ∃ c, c ∈ children w' ∧ name c = l ∧ has_io_log c = true))) w.
Proof.
  intros Hb Hh Hbut. unfold channel_fault_device. eapply okb_bind; [by apply retire_spec|].
  intros r w1 (Hq & Hb1 & Hw1 & Hl1 & Hh1 & Hd & Hr). specialize (Hh1 _ Hh).
  assert (Hc : ∀ c, c ∈ children w1 → handled w1 c ∨ has_io_log c = true ∧ is_Some r).
  { intros c Hc. destruct (Hh1 c Hc) as [[[d Hs] Hdc]|?]; [|by left].
    destruct Hbut as [->| ->]; [done|]. destruct (Hd c Hc Hdc) as [?|[? ->]]; [left; by left|eauto]. }
  destruct r as [l|].
  2:{ apply wp_ret. split_and!; try done. intros c Hin. right. by destruct (Hc c Hin) as [?|[_ [? ?]]]. }
  destruct (reconnect_spec w1 Hb1) as (Hq2 & Hb2 & Hl2 & Hh2). wp_step. wp_step. wp_step.
  split_and!; try done; [by eapply quiet_trans|].
  intros c Hin. right. destruct (Hc c Hin) as [?|[? _]]; auto.
Qed.

(** *** Logging *)

(** A write of the client is within the smallest child. *)
Definition in_range b : Prop :=
  is_write_like (io_type b) = true →
  0 ≤ effective_offset data_ent_offset b ∧ 1 ≤ num_blocks b ∧
  effective_offset data_ent_offset b + num_blocks b ≤ limit.

Lemma il_log_grows c l b :
  wfc c → io_log c = Some l → in_range b →
  ∃ l', il_log l core (io_type b) (effective_offset data_ent_offset b) (num_blocks b) = Ok l' ∧
    grows c (set_io_log (Some l') c) ∧ wfc (set_io_log (Some l') c) ∧
    (is_write_like (io_type b) = true → logged (set_io_log (Some l') c) (ev_of b)).
Proof using Hcore.
  intros [Hdev Hlog Hsync] Hl Hr. destruct (Hlog l Hl) as (evs & nb & Hh & Hnb).
  assert (Hhas : has_io_log c = true) by (unfold has_io_log; by rewrite Hl).
  destruct (is_write_like (io_type b)) eqn:Hw.
  - destruct (Hr Hw) as (? & ? & ?).
    destruct (il_log_spec l evs nb core (io_type b)
      (effective_offset data_ent_offset b) (num_blocks b)) as (l' & Hl' & Hh'); [done..|lia|].
    exists l'. split; [done|]. split; [|split].
    + split; try done.
      * intros [?|[? _]]; [by left|congruence].
      * intros e (l0 & evs0 & nb0 & Hl0 & Hh0 & Hnb0 & He). simplify_eq.
        destruct (il_log_spec l evs0 nb0 core (io_type b)
          (effective_offset data_ent_offset b) (num_blocks b)) as (l1 & E & Hh1); [done..|lia|].
        rewrite Hl' in E. injection E as <-. exists l', (evs0 ++ [ev_of b]), nb0.
        split_and!; try done. set_solver.
    + split; simpl; [done| |by intros E; specialize (Hsync E Hhas)].
      intros l0 [= <-]. by eauto.
    + intros _. exists l', (evs ++ [ev_of b]), nb. split_and!; try done. set_solver.
  - exists l. rewrite (il_log_other l evs nb) by done. split; [done|].
    assert (set_io_log (Some l) c = c) as -> by (rewrite <- Hl; by destruct c).
    split; [apply grows_refl|]. done.
Qed.

(** What logging leaves *)
Definition logs b w (ls : list string) w' : Prop :=
  quiet w w' ∧ base w' ∧ writers w' = writers w ∧ io_logs w' = io_logs w ∧
  (∀ but, handles but w → handles but w') ∧
  ∀ c, c ∈ children w' → name c ∈ ls → is_write_like (io_type b) = true → logged c (ev_of b).

Lemma log_io_spec w b l :
  base w → in_range b → (∀ c, c ∈ children w → name c = l → has_io_log c = true ∨ bad) →
  wp (log_io core data_ent_offset b l) (okb (λ _, logs b w [l])) w.
Proof using Hcore.
  intros Hb Hr Hl. unfold wp, log_io, logs.
  destruct (list_find _ _) as [[i c]|] eqn:Hf.
  2:{ split_and!; try done; [apply quiet_refl|]. intros c Hc Hn%list_elem_of_singleton.
      apply list_find_None in Hf. rewrite Forall_forall in Hf. by destruct (Hf c Hc). }
  apply list_find_Some in Hf as (Hi & Hn & _).
  pose proof (list_elem_of_lookup_2 _ _ _ Hi) as Hc. pose proof (child_wfc _ _ Hb Hc) as Hwc.
  destruct (io_log c) as [lg|] eqn:Hlg.
  2:{ assert (Hbad : bad) by (destruct (Hl c Hc Hn) as [E|]; [unfold has_io_log in E; by rewrite Hlg in E|done]).
      destruct (is_write_like (io_type b)); [done|]. split_and!; try done. apply quiet_refl. }
  destruct (il_log_grows c lg b Hwc Hlg Hr) as (l' & -> & Hg & Hw & Hin).
  set (c' := set_io_log (Some l') c) in *.
  pose proof (evolves_insert _ _ _ _ Hi Hg) as He.
  set (w' := set_children (<[i:=c']> (children w)) w).
  assert (Hi' : children w' !! i = Some c')
    by (simpl; rewrite list_lookup_insert_eq; [done|by eapply lookup_lt_Some]).
  assert (Hb' : base w').
  { eapply base_evolves; [done|exact He|apply Forall_insert; [apply Hb|done]|apply Hb|done]. }
  split; [by apply evolves_quiet|]. split_and!; try done.
  - intros but Hh. eapply (handles_insert but w w'); try done. by right; right.
  - intros x Hx Hnx%list_elem_of_singleton Hwl. rewrite (name_inj w' x c' Hb'); auto.
    + by eapply list_elem_of_lookup_2.
    + by rewrite Hnx, <- Hn.
Qed.

Lemma log_all_spec b ls w :
  base w → in_range b → (∀ c, c ∈ children w → name c ∈ ls → has_io_log c = true ∨ bad) →
  wp (log_all core data_ent_offset b ls) (okb (λ _, logs b w ls)) w.
Proof using Hcore.
  revert w. induction ls as [|l ls IH]; intros w Hb Hr Hl.
  { apply wp_ret. split_and!; try done; [apply quiet_refl|]. set_solver. }
  cbn [log_all]. eapply okb_bind; [apply log_io_spec; try done|].
  { intros c Hc <-. apply Hl; [done|left]. }
  intros _ w1 (Hq1 & Hb1 & Hw1 & Hl1 & Hh1 & Hin1). eapply okb_mono; [apply IH; try done|].
  { intros c' Hc' Hn. destruct Hq1 as (_ & He & _). destruct (evolves_in _ _ _ He Hc') as (c & Hc & Hg).
    destruct (Hl c Hc) as [?|?]; [right; by rewrite <- (g_name _ _ Hg)|left; by apply (g_has_log _ _ Hg)|by right]. }
  intros _ w2 (Hq2 & Hb2 & Hw2 & Hl2 & Hh2 & Hin2).
  split; [by eapply quiet_trans|]. split_and!; try done; [congruence|congruence|auto|].
  intros c' Hc' [Hn|Hn]%elem_of_cons Hw; [|by apply Hin2].
  destruct Hq2 as (_ & He & _). destruct (evolves_in _ _ _ He Hc') as (c & Hc & Hg).
  apply (g_logged _ _ Hg), Hin1; try done. apply list_elem_of_singleton. by rewrite <- (g_name _ _ Hg).
Qed.

(** *** Reconnecting *)

Lemma grows_cant_open c : let c' := set_faulted_state now CantOpen c in
  grows c c' ∧ (excluded c' ∨ has_io_log c' = true) ∧ (wfc c → wfc c').
Proof.
  intros c'. assert (excluded c → excluded c') by (intros [(? & _ & _)|?]; [by left|by right]).
  split; [by split|]. split; [|by intros []]. destruct (has_io_log c') eqn:E; [by right|left].
  destruct (sync_state c) eqn:Hs; [by left|right; auto].
Qed.

(** A child that is to be connected is, or cannot be used any more, or has no
    device. *)
Lemma connect_where_spec P h cs cs' ds :
  connect_where now P h cs = (cs', ds) →
  (length ds ≤ length cs)%nat ∧
  Forall2 (λ c c', grows c c' ∧ io_log c' = io_log c ∧ (wfc c → wfc c') ∧ ((excluded c' ∨ has_io_log c' = true) ∨ c' = c) ∧
    (P c = true → (excluded c' ∨ has_io_log c' = true) ∨ device c = None ∨ ∃ d, dev_name c = Some d ∧ d ∈ ds)) cs cs'.
Proof.
  revert cs' ds. induction cs as [|c cs IH]; intros cs' ds; simpl; [by intros [= <- <-]|].
  destruct (connect_where now P h cs) as [cs1 ds1].
  destruct (IH _ _ eq_refl) as [Hn HF].
  destruct (grows_cant_open c) as (Hg & He & Hwf).
  assert (HF' : ∀ d, Forall2 (λ c c', grows c c' ∧ io_log c' = io_log c ∧ (wfc c → wfc c') ∧ ((excluded c' ∨ has_io_log c' = true) ∨ c' = c) ∧
    (P c = true → (excluded c' ∨ has_io_log c' = true) ∨ device c = None ∨ ∃ d', dev_name c = Some d' ∧ d' ∈ d :: ds1)) cs cs1).
  { intros d. eapply Forall2_impl; [exact HF|]. intros x y (? & ? & ? & ? & H). split_and!; try done.
    intros Hx. destruct (H Hx) as [?|[?|(d' & ? & ?)]]; [by left|by right; left|]. right. right. exists d'. set_solver. }
  destruct (P c) eqn:HP.
  2:{ intros [= <- <-]. split; [simpl; lia|]. constructor; [|done].
      split_and!; [apply grows_refl|done|done|by right|by rewrite HP]. }
  unfold connect_child. destruct (h (name c) && device_descriptor c).
  - destruct (device c) as [d|] eqn:Hd; intros [= <- <-]; (split; [simpl; lia|]);
      (constructor; [|done || apply HF']); (split_and!; [apply grows_refl|done|done|by right|intros _]).
    + right. right. exists (bd_name d). unfold dev_name. rewrite Hd. split; [done|left].
    + by right; left.
  - intros [= <- <-]. split; [simpl; lia|]. constructor; [|done]. split_and!; auto.
Qed.

Lemma connect_where_evolves P h cs cs' ds :
  connect_where now P h cs = (cs', ds) → Forall wfc cs → evolves cs cs' ∧ Forall wfc cs'.
Proof.
  intros [_ HF]%connect_where_spec Hw. split.
  - eapply Forall2_impl; [exact HF|]. by intros ?? [? _].
  - induction HF as [|x y l l' (_ & _ & ? & _) HF IH]; [done|]. inversion Hw; subst. auto.
Qed.

(** Both passes of [connect_children]: every healthy child that has a device is
    connected, or cannot be used any more. *)
Lemma connect_children_spec h w :
  base w → let w' := connect_children now h w in
  quiet w w' ∧ io_logs w' = io_logs w ∧ bypassed w' = bypassed w ∧ base w' ∧
  ∀ c', c' ∈ children w' → ∃ c, c ∈ children w ∧ grows c c' ∧ io_log c' = io_log c ∧
    (is_healthy c = true → (excluded c' ∨ has_io_log c' = true) ∨ device c = None ∨ state c' = Open ∧ dev_of (name c) ∈ writers w').
Proof.
  intros Hb. unfold connect_children.
  destruct (connect_where now is_healthy h (children w)) as [cs1 rs] eqn:H1.
  destruct (connect_where_spec _ _ _ _ _ H1) as [Hn1 HF1].
  destruct (connect_where_evolves _ _ _ _ _ H1 (b_wfc _ Hb)) as [He1 Hw1].
  set (pass2 := match rs with [] => (cs1, []) | _ => _ end).
  assert (∃ cs2 ws, pass2 = (cs2, ws) ∧ evolves cs1 cs2 ∧ Forall wfc cs2 ∧
      (length ws ≤ length cs1)%nat ∧ Forall2 (λ c c', io_log c' = io_log c ∧ ((excluded c' ∨ has_io_log c' = true) ∨ c' = c)) cs1 cs2)
    as (cs2 & ws & -> & He2 & Hw2 & Hn2 & HF2).
  { subst pass2. destruct rs as [|r rs].
    - exists cs1, []. split_and!; [done|apply evolves_refl|done|simpl; lia|].
      apply Forall_Forall2_diag, Forall_forall. by split; [|right].
    - destruct (connect_where now _ h cs1) as [cs2 ws] eqn:H2. exists cs2, ws.
      destruct (connect_where_spec _ _ _ _ _ H2) as [? HF].
      destruct (connect_where_evolves _ _ _ _ _ H2 Hw1). split_and!; try done.
      eapply Forall2_impl; [exact HF|]. by intros ?? (_ & ? & _ & ? & _). }
  pose proof (evolves_trans _ _ _ He1 He2) as He. simpl. split; [by apply evolves_quiet|].
  split; [done|]. split; [done|]. split.
  - eapply base_evolves; [done|done|done| |done]. simpl. rewrite length_app.
    pose proof (Forall2_length _ _ _ He1). pose proof (b_children _ Hb). lia.
  - intros c2 [k Hk]%list_elem_of_lookup.
    destruct (Forall2_lookup_r _ _ _ _ _ HF2 Hk) as (c1 & Hk1 & Hl2 & Hx2).
    destruct (Forall2_lookup_r _ _ _ _ _ HF1 Hk1) as (c & Hk0 & _ & Hl1 & _ & Hx1 & HP).
    pose proof (list_elem_of_lookup_2 _ _ _ Hk0) as Hc. exists c. split; [done|].
    split; [by eapply (Forall2_lookup_lr _ _ _ _ _ _ He Hk0)|]. split; [congruence|].
    intros Hh. destruct Hx2 as [?| ->]; [by left|]. destruct Hx1 as [?| ->]; [by left|].
    destruct (HP Hh) as [?|[?|(d & Hd & Hin)]]; [by left|by right; left|right; right].
    rewrite <- (wfc_dev_name c d (child_wfc _ _ Hb Hc) Hd).
    split; [|set_solver]. unfold is_healthy in Hh. by case_bool_decide.
Qed.

(** A healthy child without a log is handled when it was connected. *)
Lemma connect_handled h w c' c :
  (excluded c' ∨ has_io_log c' = true) ∨ device c = None ∨ state c' = Open ∧ dev_of (name c) ∈ writers (connect_children now h w) →
  grows c c' → has_io_log c' = false → handled (connect_children now h w) c'.
Proof.
  intros [[?|?]|[?|[? ?]]] [] Hl; [by left|congruence|left; right; split; [done|left; congruence]|].
  right. right. left. split; [congruence|by left].
Qed.

Lemma open_unlogged c : state c = Open → has_io_log c = false → excluded c ∨ is_healthy c = true.
Proof.
  intros Ho Hl. unfold is_healthy. rewrite Ho. destruct (sync_state c) eqn:Hs; [by right|left]. right. auto.
Qed.

Lemma reconnect_all_spec h w :
  base w → handles None w →
  let w' := reconnect_all now h w in quiet w w' ∧ base w' ∧ handles None w'.
Proof.
  intros Hb Hh. unfold reconnect_all. simpl.
  assert (Hb0 : base (set_previous_reader 0 w)) by (by destruct Hb).
  destruct (connect_children_spec h _ Hb0) as (Hq & _ & Hy & Hb1 & Hc1).
  set (w1 := connect_children now h (set_previous_reader 0 w)) in *.
  destruct (reconnect_spec w1 Hb1) as (Hq2 & Hb2 & Hl2 & Hr). split; [by eapply (quiet_trans _ w1)|split; [done|]].
  intros c' Hc'. right. destruct (Hc1 c' Hc') as (c & Hc & Hg & _ & Hhe).
  destruct (decide (has_io_log c' = true)) as [?|Hl'%not_true_is_false]; [by apply Hl2|]. apply Hr; [done|].
  assert (has_io_log c = false) as Hl by (destruct (has_io_log c) eqn:E; [by rewrite (g_has_log _ _ Hg) in Hl'|done]).
  destruct (handles_none _ _ Hh Hc) as [?|[?|[[_ [Ho|?]]|[? _]]]]; [|right; left|..|congruence|congruence].
  - left. by apply (g_excluded _ _ Hg).
  - rewrite Hy, (g_name _ _ Hg). done.
  - destruct (open_unlogged c Ho Hl) as [?|Hhc]; [left; by apply (g_excluded _ _ Hg)|].
    eapply connect_handled; [by apply Hhe|done..].
Qed.

(** *** Where a nexus I/O is *)

Definition no_mem (r : BioResult) : bool := match r with BioNoMem => true | _ => false end.

(** Its entries in the queues of the channel, its child I/Os, its results but
    for lack of memory. *)
Definition queued w id : list nat * list nat :=
  (filter (λ i, i = id) (frozen_ios w), filter (λ i, i = id) (wait_buf w)).
Definition outs w id : list string := (filter (λ p, p.1 = id) (outstanding w)).*2.
Definition results w id : list BioResult := (filter (λ p, p.1 = id ∧ no_mem p.2 = false) (completed w)).*2.

(** The I/Os that were completed for lack of memory. *)
Definition starved w : list nat := (filter (λ p, no_mem p.2 = true) (completed w)).*1.

(** Every child that matters is among [ts], or has the write in its log. *)
Definition covers (cs : list (NexusChild L)) (by_passed : list string) b (ts : list string) : Prop :=
  is_write_like (io_type b) = true → ∀ c, c ∈ cs →
  excluded c ∨ name c ∈ by_passed ∨ dev_of (name c) ∈ ts ∨ logged c (ev_of b).

Definition fresh b : Prop := in_flight b = 0 ∧ successful b = 0 ∧ failed b = 0.

(** A round: the request went to [targets], of which [oks] have succeeded, [fs]
    have failed and [os] have not answered; [se] submissions failed. *)
Definition round (cs : list (NexusChild L)) (by_passed : list string) b (os : list string) : Prop :=
  ∃ (fs : list string) (se : nat),
    targets b ≡ₚ oks b ++ fs ++ os ∧ in_flight b = Z.of_nat (length os) ∧
    successful b = Z.of_nat (length (oks b)) ∧
    failed b = Z.of_nat (length fs + se) ∧ (length (targets b) + se ≤ 255)%nat ∧
    (failed b = 0 → covers cs by_passed b (targets b)).

(** What an acknowledgement means. *)
Definition acked_ok (cs : list (NexusChild L)) (by_passed : list string) b : Prop :=
  targets b ≡ₚ oks b ∧ covers cs by_passed b (oks b).

Definition phase w id b : Prop :=
  (queued w id = ([id], []) ∨ queued w id = ([], [id]) ∧ is_write_like (io_type b) = false) ∧
    outs w id = [] ∧ results w id = [] ∧ fresh b ∨
  queued w id = ([], []) ∧ outs w id ≠ [] ∧ results w id = [] ∧ round (children w) (bypassed w) b (outs w id) ∨
  queued w id = ([], []) ∧ outs w id = [] ∧
    ∃ r, results w id = [r] ∧ (r = BioOk → acked_ok (children w) (bypassed w) b).

(** The state of the nexus I/O [id]. *)
Definition io_ok w id : Prop :=
  match bios w !! id with
  | None => queued w id = ([], []) ∧ outs w id = [] ∧ results w id = []
  | Some b => in_range b ∧ phase w id b
  end.

Record held w id b (os : list string) : Prop := {
  h_bio : bios w !! id = Some b;
  h_range : in_range b;
  h_queued : queued w id = ([], []);
  h_outs : outs w id = os;
  h_results : results w id = [];
}.

Definition plane w : Prop := base w ∧ handles None w.

(** The invariant. *)
Record good w : Prop := {
  gd_plane : plane w;
  gd_ios : ∀ id, io_ok w id;
}.

(** The children of a later world. *)
Definition later w w' : Prop :=
  bypassed w ⊆ bypassed w' ∧ ∀ c', c' ∈ children w' → ∃ c, c ∈ children w ∧ follows c c'.

Lemma later_refl w : later w w.
Proof. split; [done|]. intros c Hc. exists c. split; [done|]. apply grows_follows, grows_refl. Qed.

Lemma later_trans w1 w2 w3 : later w1 w2 → later w2 w3 → later w1 w3.
Proof.
  intros [Hb1 H1] [Hb2 H2]. split; [set_solver|]. intros c3 Hc3. destruct (H2 c3 Hc3) as (c2 & Hc2 & ?).
  destruct (H1 c2 Hc2) as (c1 & Hc1 & ?). exists c1. split; [done|]. by eapply follows_trans.
Qed.

Lemma quiet_later w w' : quiet w w' → later w w'.
Proof.
  intros (_ & He & Hb & _). split; [done|]. intros c' Hc'. destruct (evolves_in _ _ _ He Hc') as (c & Hc & Hg).
  exists c. split; [done|]. by apply grows_follows.
Qed.

Lemma covers_mono w w' b ts : later w w' → covers (children w) (bypassed w) b ts → covers (children w') (bypassed w') b ts.
Proof.
  intros [Hb He] Hc Hw c' Hc'. destruct (He c' Hc') as (c & Hin & [Hn Hex Hl]). rewrite Hn.
  destruct (Hc Hw c Hin) as [?|[?|[?|Hlog]]]; auto. destruct (Hl _ Hlog); auto.
Qed.

Lemma phase_mono w w' id b :
  queued w' id = queued w id → outs w' id = outs w id → results w' id = results w id →
  later w w' → phase w id b → phase w' id b.
Proof.
  intros Hq Ho Hr He. unfold phase. rewrite Hq, Ho, Hr.
  intros [?|[(? & ? & ? & fs & se & ? & ? & ? & ? & ? & ?)|(? & ? & r & ? & Hok)]]; [by left| |].
  - right. left. split_and!; try done. exists fs, se. split_and!; try done.
    intros. eapply covers_mono; eauto.
  - right. right. split_and!; try done. exists r. split; [done|]. intros E.
    destruct (Hok E). split; [done|]. by eapply covers_mono.
Qed.

(** A step that leaves an I/O alone. *)
Definition same_io w w' id : Prop :=
  bios w' !! id = bios w !! id ∧ queued w' id = queued w id ∧
  outs w' id = outs w id ∧ results w' id = results w id.

Lemma same_io_trans w1 w2 w3 id : same_io w1 w2 id → same_io w2 w3 id → same_io w1 w3 id.
Proof. intros (?&?&?&?) (?&?&?&?). split_and!; congruence. Qed.

Lemma same_bios_io w w' id : same_bios w w' → same_io w w' id.
Proof.
  intros (Hb & Hf & Hw & Ho & Hc). unfold same_io, queued, outs, results. by rewrite Hb, Hf, Hw, Ho, Hc.
Qed.

Lemma same_bios_starved w w' : same_bios w w' → starved w' = starved w.
Proof. intros (_ & _ & _ & _ & Hc). unfold starved. by rewrite Hc. Qed.

Lemma io_ok_same w w' id : same_io w w' id → later w w' → io_ok w id → io_ok w' id.
Proof.
  intros (Hb & Hq & Ho & Hr) He. unfold io_ok. rewrite Hb.
  destruct (bios w !! id); [|by rewrite Hq, Ho, Hr].
  intros [? Hp]. split; [done|]. by eapply phase_mono.
Qed.

Lemma held_same w w' id b os : same_io w w' id → held w id b os → held w' id b os.
Proof. intros (?&?&?&?) []. split; try done; congruence. Qed.

Lemma held_quiet w w' id b os : quiet w w' → held w id b os → held w' id b os.
Proof. intros [Hq _]. by apply held_same, same_bios_io. Qed.

(** The planes of a world that has the same children and handles. *)
Definition same_plane w w' : Prop :=
  children w' = children w ∧ writers w' = writers w ∧ io_logs w' = io_logs w ∧ bypassed w' = bypassed w.

Lemma same_guarded w w' : same_plane w w' → rebuild_jobs w' = rebuild_jobs w → guarded w w'.
Proof. intros (Hc & _ & _ & Hb) Hj. apply evolves_guarded; [rewrite Hc; apply evolves_refl|done|done]. Qed.

Lemma plane_same w w' : same_plane w w' → plane w → plane w'.
Proof.
  intros (Hc & Hw & Hl & Hb) [[] Hh]. split.
  - split; by rewrite ?Hc, ?Hw, ?Hl.
  - intros c. rewrite Hc. intros Hin. destruct (Hh c Hin) as [?|?]; [by left|right].
    eapply handled_same; [done|by rewrite Hw|by rewrite Hl|by rewrite Hb].
Qed.

Lemma later_same w w' : same_plane w w' → later w w'.
Proof. intros (Hc & _ & _ & Hb). destruct (later_refl w) as [_ H]. split; [by rewrite Hb|]. by rewrite Hc. Qed.

(** A healthy child without a log is bypassed. *)
Lemma detach_event_spec w dev :
  base w → handles None w →
  let w' := bypass (unlogged dev w) (detach_device dev w) in
  same_bios w w' ∧ later w w' ∧ plane w' ∧
  ∀ n, n ∈ bypassed w' → n ∈ bypassed w ∨ at_risk w n ∨ n ∈ unlogged dev w.
Proof.
  intros Hb Hh w'. destruct (detach_spec w dev Hb Hh) as (Hq & Hb1 & Hcs & H). pose proof Hq as (Hs & _ & Hy & Hr & _).
  split; [done|]. split; [|split; [split; [by destruct Hb1|]|]].
  { destruct (quiet_later _ _ Hq). split; [simpl; set_solver|done]. }
  2:{ intros n [Hn|?]%elem_of_app; [destruct (Hr n Hn); auto|auto]. }
  intros c Hc. right. change (c ∈ children (detach_device dev w)) in Hc. rewrite Hcs in Hc.
  destruct (H c Hc) as [Hh1|(Hd & Ho & Hl)]; [eapply handled_same; [exact Hh1|done|done|simpl; set_solver]|].
  right. left. unfold w'. simpl. apply elem_of_app. right. unfold unlogged. apply list_elem_of_fmap.
  exists c. split; [done|]. apply list_elem_of_filter. split; [|done]. split; [|done].
  unfold match_device_name, get_device_name. unfold dev_name in Hd. rewrite Hd. by apply bool_decide_eq_true.
Qed.

(** *** Processing one nexus I/O

    [w0] is the world in which the processing of [id] starts; the others are
    not touched. *)

Section Processing.
Variable w0 : W.

Record busy id w : Prop := {
  bs_plane : plane w;
  bs_others : ∀ id', id' ≠ id → same_io w0 w id';
  bs_later : later w0 w;
  bs_starved : starved w = starved w0;
  bs_guarded : guarded w0 w;
}.

(** The end of the processing. *)
Definition settled id w : Prop := busy id w ∧ is_Some (bios w !! id) ∧ io_ok w id.

Lemma busy_step id w w' :
  same_plane w w' → rebuild_jobs w' = rebuild_jobs w → starved w' = starved w →
  (∀ id', id' ≠ id → same_io w w' id') → busy id w → busy id w'.
Proof.
  intros Hp Hj Hs Hf [? Hi ? ? ?].
  split; [by eapply plane_same| |by eapply later_trans; [|apply later_same]|congruence|by eapply guarded_trans; [|apply same_guarded]].
  intros id' Hid. eapply same_io_trans; [by apply Hi|by apply Hf].
Qed.

Lemma busy_release id b w :
  busy id w → bios w !! id = Some b → in_range b → phase w id b → settled id w.
Proof. intros Hg Hb Hr Hph. split; [done|]. unfold io_ok. by rewrite Hb. Qed.

Lemma busy_quiet id w w' : busy id w → quiet w w' → plane w' → busy id w'.
Proof.
  intros [_ Hi He Hs Hg] Hq Hp. pose proof (proj1 Hq) as Hb. split; [done| | | |eapply guarded_trans; [done|apply Hq]].
  - intros id' Hid. eapply same_io_trans; [by apply Hi|by apply same_bios_io].
  - eapply later_trans; [done|by apply quiet_later].
  - by rewrite (same_bios_starved _ _ Hb).
Qed.

Lemma filter_pairs {A} (id id' : nat) (ds : list A) :
  (filter (λ p, p.1 = id') ((λ d, (id, d)) <$> ds)).*2 = if decide (id = id') then ds else [].
Proof.
  induction ds as [|d ds IH]; [by destruct (decide _)|]. rewrite fmap_cons, filter_cons. simpl.
  destruct (decide (id = id')); [by rewrite fmap_cons, IH|done].
Qed.

(** Child I/Os sent for the nexus I/O at hand. *)
Lemma send_spec id b os ds w :
  busy id w → held w id b os →
  let w' := set_outstanding (outstanding w ++ ((λ d, (id, d)) <$> ds)) w in
  busy id w' ∧ held w' id b (os ++ ds).
Proof.
  intros Hg []. simpl. split.
  - apply (busy_step id w); try done. intros id' Hid. split_and!; try done.
    unfold outs. simpl. rewrite filter_app, fmap_app, filter_pairs, decide_False by done.
    by rewrite app_nil_r.
  - split; try done. unfold outs in *. simpl.
    by rewrite filter_app, fmap_app, filter_pairs, decide_True, h_outs0.
Qed.

Lemma with_bio_spec id b os f w :
  busy id w → held w id b os → in_range (f b) →
  busy id (with_bio id f w) ∧ held (with_bio id f w) id (f b) os.
Proof.
  intros Hg [] Hr. unfold with_bio. rewrite h_bio0. split.
  - apply (busy_step id w); try done. intros id' Hid. split_and!; try done. simpl.
    by rewrite lookup_insert_ne.
  - split; try done. simpl. by rewrite lookup_insert_eq.
Qed.

Lemma results_finish id r w id' :
  results (finish id r w) id' = results w id' ++ if decide (id = id' ∧ no_mem r = false) then [r] else [].
Proof.
  unfold results. simpl. rewrite filter_app, fmap_app, filter_cons. simpl.
  f_equal. by destruct (decide _).
Qed.

Lemma starved_finish id r w : starved (finish id r w) = starved w ++ if no_mem r then [id] else [].
Proof.
  unfold starved. simpl. rewrite filter_app, fmap_app, filter_cons. simpl. f_equal.
  by destruct r.
Qed.

Lemma finish_spec id b r w :
  busy id w → held w id b [] → no_mem r = false → (r = BioOk → acked_ok (children w) (bypassed w) b) →
  settled id (finish id r w).
Proof.
  intros Hg [] Hm Hok. eapply (busy_release id b); try done.
  - apply (busy_step id w); try done; [by rewrite starved_finish, Hm, app_nil_r|].
    intros id' Hid. split_and!; try done. by rewrite results_finish, decide_False, app_nil_r by naive_solver.
  - right. right. split_and!; try done. exists r. by rewrite results_finish, h_results0, decide_True.
Qed.

(** *** Submission *)

(** Faulting the device of a failed write logs the write. *)
Lemma fault_and_log_spec w dev s b but :
  base w → handles but w → but = None ∨ but = Some dev → in_range b →
  wp (log ← fault_device true now dev s;
      match log with None => mret tt | Some l => log_io core data_ent_offset b l end)
    (okb (λ _ w', quiet w w' ∧ plane w')) w.
Proof using Hcore.
  intros Hb Hh Hbut Hr. eapply okb_bind; [by eapply fault_device_spec|].
  intros r w1 (Hq1 & Hb1 & Hh1 & _ & Hl). destruct r as [l|]; [|by apply wp_ret].
  eapply okb_mono; [apply log_io_spec; try done|].
  { intros c Hc Hn. destruct (Hl l eq_refl) as (c' & Hc' & Hn' & ?). left.
    by rewrite (name_inj w1 c c' Hb1) by congruence. }
  intros _ w2 (Hq2 & Hb2 & _ & _ & Hh2 & _). split; [by eapply quiet_trans|]. split; auto.
Qed.

Lemma for_each_writer_spec sub ws sent err :
  for_each_writer sub ws = (sent, err) →
  (length sent ≤ length ws)%nat ∧ (err = None → sent = ws).
Proof.
  revert sent err. induction ws as [|d ws IH]; intros sent err; simpl.
  { by intros [= <- <-]. }
  destruct (for_each_writer sub ws) as [ok r] eqn:E. destruct (IH _ _ eq_refl) as [Hn He].
  destruct (sub d); intros [= <- <-]; simpl; split; try lia; try done;
    intros; f_equal; auto.
Qed.

Lemma fail_result_spec e : fail_result e ≠ BioOk ∧ no_mem (fail_result e) = false.
Proof. destruct e as [| |[]| |]; done. Qed.

Lemma fail_spec id b w : busy id w → held w id b [] → wp (fail id) (okb (λ _, settled id)) w.
Proof.
  intros Hg Hh. destruct (fail_result_spec (last_error w)). by eapply finish_spec.
Qed.

(** The end of [submit_all], once the writes have been logged. *)
Lemma submit_end_spec id b w sent se :
  busy id w → held w id b sent → targets b = sent → oks b = [] →
  successful b = 0 → failed b = Z.of_nat se → (length sent + se ≤ 255)%nat →
  (se = O → covers (children w) (bypassed w) b sent) →
  wp (if 0 <? wrap8 (Z.of_nat (length sent)) then
        ST.modify (with_bio id (λ b, set_counts (wrap8 (Z.of_nat (length sent))) StSuccess
          (successful b) (failed b) b))
      else fail id) (okb (λ _, settled id)) w.
Proof.
  intros Hg Hh Ht Ho Hs Hf Hn Hc.
  rewrite (wrap8_small (Z.of_nat (length sent))) by lia.
  destruct sent as [|d sent]; [by eapply fail_spec|].
  rewrite (proj2 (Z.ltb_lt 0 _)) by (simpl; lia). apply wp_modify.
  set (f := λ b, set_counts _ _ _ _ b).
  destruct (with_bio_spec id b (d :: sent) f w Hg Hh (h_range _ _ _ _ Hh)) as [Hg' Hh'].
  destruct Hh' as [Hb' Hr' Hq' Ho' Hre']. simpl. eapply busy_release; [done|done|done|].
  right. left. rewrite Ho'. split_and!; try done. exists [], se. simpl. rewrite Ht, Ho.
  split_and!; try done.
  intros E. unfold with_bio. rewrite (h_bio _ _ _ _ Hh). apply Hc. lia.
Qed.

(** The submission error path; [b0] is the request. *)
Lemma submit_error_spec id b0 b os dev w :
  busy id w → held w id b os → in_range b0 →
  wp (submission_error core true data_ent_offset now id b0 dev) (okb (λ _ w', busy id w' ∧
    held w' id (set_counts (in_flight b) (status b) (successful b) (wrap8 (failed b + 1)) b) os)) w.
Proof using Hcore.
  intros Hg Hh Hr. unfold submission_error. set (f := λ b, set_counts _ _ _ _ b).
  destruct (with_bio_spec id b os f w Hg Hh (h_range _ _ _ _ Hh)) as [Hg1 Hh1].
  set (w1 := with_bio id f w) in *. destruct (bs_plane _ _ Hg1) as [Hb1 Hha1].
  destruct (detach_spec w1 dev Hb1 Hha1) as (Hq2 & Hb2 & _).
  pose proof (detach_handles w1 dev Hb1 Hha1) as Hha2.
  set (w2 := disconnect_detached_devices (λ _, true) (detach_device dev w1)).
  eapply (okb_mono bad _ _ _ w2); [eapply (fault_and_log_spec w2 dev _ b0 (Some dev))|]; [by destruct Hb2|done|by right|done|].
  intros _ w3 [Hq3 Hp3]. assert (Hq : quiet w1 w3) by (eapply quiet_trans; [exact Hq2|exact Hq3]).
  split; [by eapply busy_quiet|by eapply held_quiet].
Qed.

(** Logging the request [b0] and ending the submission: without a submission
    error the request went to all writers. *)
Lemma submit_log_spec id b0 b w sent se :
  busy id w → held w id b sent → in_range b0 → ev_of b = ev_of b0 →
  targets b = sent → oks b = [] → successful b = 0 →
  failed b = Z.of_nat se → (length sent + se ≤ 255)%nat → (se = O → writers w = sent) →
  wp (_ ← act (λ w, log_all core data_ent_offset b0 (io_logs w) w);
     if 0 <? wrap8 (Z.of_nat (length sent)) then
       ST.modify (with_bio id (λ b, set_counts (wrap8 (Z.of_nat (length sent))) StSuccess
         (successful b) (failed b) b))
     else fail id) (okb (λ _, settled id)) w.
Proof using Hcore.
  intros Hg3 Hh3 Hr0 Hev Ht Ho Hs Hf Hle Hw3. destruct (bs_plane _ _ Hg3) as [Hb3 Hha3].
  eapply okb_bind; [apply (log_all_spec b0 (io_logs w) w Hb3 Hr0); apply Hb3|].
  intros _ w4 (Hq4 & Hb4 & Hw4 & Hl4 & Hha4 & Hin). eapply (submit_end_spec id b w4 sent se); try done.
  - eapply busy_quiet; [done|done|split; auto].
  - by eapply held_quiet.
  - intros E Hwl c Hc. destruct (handles_none _ _ (Hha4 _ Hha3) Hc) as [?|[?|[[Hd _]|[_ Hn]]]]; [by left|by right; left|..].
    + right. right. left. by rewrite <- (Hw3 E), <- Hw4.
    + right. right. right. rewrite Hev. apply Hin; [done|by rewrite <- Hl4|].
      by injection Hev as <- _ _.
Qed.

Lemma submit_all_spec sub id b w :
  busy id w → held w id b [] → fresh b →
  wp (submit_all core true data_ent_offset now sub id) (okb (λ _, settled id)) w.
Proof using Hcore.
  intros Hg Hh (Hfl & Hsu & Hfa). unfold submit_all. unfold wp at 1. rewrite (h_bio _ _ _ _ Hh).
  destruct (for_each_writer sub (writers w)) as [sent err] eqn:Hfe.
  destruct (for_each_writer_spec _ _ _ _ Hfe) as [Hlen Hall].
  pose proof (b_writers _ (proj1 (bs_plane _ _ Hg))) as Hlim.
  destruct (send_spec id b [] sent w Hg Hh) as [Hg1 Hh1].
  destruct (with_bio_spec id b sent (set_ghost sent []) _ Hg1 Hh1 (h_range _ _ _ _ Hh)) as [Hg2 Hh2].
  assert (Hw2 : ∀ w', writers (with_bio id (set_ghost sent []) w') = writers w')
    by (intros; unfold with_bio; by destruct (_ !! _)).
  set (w2 := with_bio id (set_ghost sent []) _) in *. set (b2 := set_ghost sent [] b) in *.
  match goal with |- let '(_, _) := ?m w2 in _ => change (wp m (okb (λ _, settled id)) w2) end.
  destruct err as [[dev e]|].
  - eapply okb_bind; [apply (submit_error_spec id b b2 sent dev w2 Hg2 Hh2 (h_range _ _ _ _ Hh))|].
    intros _ w3 [Hg3 Hh3]. eapply (submit_log_spec id b _ w3 sent 1%nat); try done; [apply Hh| |lia].
    simpl. rewrite Hfa. done.
  - apply wp_bind, wp_ret. eapply (submit_log_spec id b b2 w2 sent 0%nat); try done; [apply Hh|lia|].
    intros _. unfold w2. rewrite Hw2. simpl. by rewrite Hall.
Qed.

(** *** Reading *)

(** A read has been sent, or goes on. *)
Definition read_sent id b (r : outcome CoreError unit) w : Prop :=
  match r with Err _ => busy id w ∧ held w id b [] | _ => settled id w end.

Lemma do_readv_one_spec sub id b w :
  busy id w → held w id b [] → fresh b → is_write_like (io_type b) = false →
  wp (do_readv_one true now sub id) (okb (read_sent id b)) w.
Proof.
  intros Hg Hh (Hfl & Hsu & Hfa) Hrd. unfold do_readv_one. unfold wp at 1.
  assert (∃ w1 d, select_reader w = (w1, d) ∧ busy id w1 ∧ held w1 id b [])
    as (w1 & d & -> & Hg1 & Hh1).
  { unfold select_reader. destruct (readers w) as [|r rs]; [by exists w, None|].
    eexists _, _. split; [done|]. split; [by apply (busy_step id w)|by destruct Hh]. }
  destruct d as [dev|]; [|done].
  destruct (sub dev) as [[]|e|] eqn:Hs.
  2:{ destruct (bs_plane _ _ Hg1) as [Hb1 Hha1].
      match goal with |- let '(_, _) := ?m w1 in _ => change (wp m (okb (read_sent id b)) w1) end.
      eapply okb_bind; [eapply (fault_device_spec w1 dev _ None Hb1 Hha1); by left|].
      intros r w2 (Hq & Hb2 & Hh2 & _). apply wp_ret. split; [by eapply busy_quiet|by eapply held_quiet]. }
  all: simpl.
  all: destruct (send_spec id b [] [dev] w1 Hg1 Hh1) as [Hg2 Hh2].
  all: destruct (with_bio_spec id b [dev] (λ b, set_counts 1 (status b) (successful b) (failed b) b)
         _ Hg2 Hh2 (h_range _ _ _ _ Hh)) as [Hg3 Hh3].
  all: destruct (with_bio_spec id _ [dev] (set_ghost [dev] []) _ Hg3 Hh3 (h_range _ _ _ _ Hh))
         as [Hg4 [Hb4 Hr4 Hq4 Ho4 Hre4]].
  all: eapply busy_release; [exact Hg4|exact Hb4|done|].
  all: match goal with |- phase ?w _ _ => change (outs w id = [dev]) in Ho4 end.
  all: right; left; rewrite Ho4; split_and!; try done.
  all: exists [], 0%nat; simpl; split_and!; try done; [lia|].
  all: intros _ Hwl; simpl in Hwl; congruence.
Qed.

Lemma do_readv_loop_spec sub n id b w :
  busy id w → held w id b [] → fresh b → is_write_like (io_type b) = false →
  wp (do_readv_loop true now sub n id) (okb (read_sent id b)) w.
Proof.
  revert w. induction n as [|n IH]; intros w Hg Hh Hf Hrd; [by apply wp_ret|].
  cbn [do_readv_loop]. eapply okb_bind; [by apply do_readv_one_spec|].
  intros [u|e|] w1 Hr; [by apply wp_ret| |by apply wp_ret].
  destruct Hr as [? ?]. destruct n; [by apply wp_ret|by apply IH].
Qed.

Lemma do_readv_spec sub id b w :
  busy id w → held w id b [] → fresh b → is_write_like (io_type b) = false →
  wp (do_readv true now sub id) (okb (λ _, settled id)) w.
Proof.
  intros Hg Hh Hf Hrd. eapply (okb_bind bad); [by apply do_readv_one_spec|].
  intros r w1 Hr. destruct r as [u|e|]; [by apply wp_ret| |by apply wp_ret]. destruct Hr as [Hg1 Hh1].
  assert (Hloop : wp (if (length (readers w1) <=? 1)%nat then mret (Err e)
      else do_readv_loop true now sub (length (readers w1) - 1) id) (okb (read_sent id b)) w1).
  { destruct (_ <=? 1)%nat; [by apply wp_ret|by apply do_readv_loop_spec]. }
  destruct e; try by eapply fail_spec.
  all: eapply (okb_bind bad _ _ _ _ w1); [exact Hloop|].
  all: intros [u|e2|] w2 Hr2; [by apply wp_ret| |by apply wp_ret]; destruct Hr2; by eapply fail_spec.
Qed.

(** *** Requests *)

Lemma filter_id (id id' : nat) : filter (λ i, i = id') [id] = if decide (id = id') then [id] else [].
Proof. rewrite filter_cons. by destruct (decide (id = id')). Qed.

Lemma freeze_spec id b w :
  busy id w → held w id b [] → fresh b → settled id (set_frozen (frozen_ios w ++ [id]) w).
Proof.
  intros Hg Hh Hf. pose proof Hh as []. eapply (busy_release id b); try done.
  - apply (busy_step id w); try done. intros id' Hid. unfold same_io, queued. simpl.
    by rewrite filter_app, filter_id, decide_False, app_nil_r.
  - left. unfold queued in *. simpl. rewrite filter_app, filter_id, decide_True by done.
    injection h_queued0 as -> ->. split_and!; try done. by left.
Qed.

Lemma wait_buf_spec id b w :
  busy id w → held w id b [] → fresh b → is_write_like (io_type b) = false →
  settled id (set_wait_buf (wait_buf w ++ [id]) w).
Proof.
  intros Hg Hh Hf Hrd. pose proof Hh as []. eapply (busy_release id b); try done.
  - apply (busy_step id w); try done. intros id' Hid. unfold same_io, queued. simpl.
    by rewrite filter_app, filter_id, decide_False, app_nil_r.
  - left. unfold queued in *. simpl. rewrite filter_app, filter_id, decide_True by done.
    injection h_queued0 as -> ->. split_and!; try done. by right.
Qed.

Lemma submit_request_spec sub id b w :
  busy id w → held w id b [] → fresh b →
  wp (submit_request core true data_ent_offset now sub id) (okb (λ _, settled id)) w.
Proof using Hcore.
  intros Hg Hh Hf. unfold submit_request, wp at 1.
  destruct (io_mode w); [|by eapply freeze_spec].
  rewrite (h_bio _ _ _ _ Hh).
  destruct (io_type b) eqn:Ht; try (by eapply submit_all_spec); try by eapply fail_spec.
  unfold readv. rewrite (h_bio _ _ _ _ Hh). destruct (need_buf b).
  - eapply wait_buf_spec; try done. by rewrite Ht.
  - eapply do_readv_spec; try done. by rewrite Ht.
Qed.

Lemma resubmit_spec sub id b w :
  busy id w → held w id b [] → in_flight b = 0 →
  wp (resubmit core true data_ent_offset now sub id) (okb (λ _, settled id)) w.
Proof using Hcore.
  intros Hg Hh Hf. unfold resubmit.
  destruct (with_bio_spec id b [] (λ b, mkCtx (io_type b) (offset b) (num_blocks b) (need_buf b)
    (in_flight b) StPending 0 0 (wrap8 (resubmits b + 1)) (targets b) (oks b)) w Hg Hh
    (h_range _ _ _ _ Hh)) as [Hg1 Hh1].
  by eapply submit_request_spec.
Qed.

(** *** Completions *)

Lemma round_ack cs by_passed b : round cs by_passed b [] → failed b = 0 → acked_ok cs by_passed b.
Proof.
  intros (fs & se & Ht & _ & _ & Hf & _ & Hc) H0. assert (fs = []) as ->
    by (destruct fs; [done|simpl in Hf; lia]).
  rewrite !app_nil_r in Ht. split; [done|]. intros Hw c Hin.
  destruct (Hc H0 Hw c Hin) as [?|[?|[?|?]]]; auto.
  right. right. left. by rewrite <- Ht.
Qed.

(** The end of [complete]: all child I/Os answered, or not. *)
Lemma complete_end_spec sub id b os s w :
  busy id w → held w id b os → round (children w) (bypassed w) b os →
  wp (act (λ w, match bios w !! id with
        | None => (w, Ok tt)
        | Some b =>
            if 0 <? in_flight b then (w, Ok tt)
            else if failed b =? 0 then (finish id BioOk w, Ok tt)
            else if 0 <? successful b then resubmit core true data_ent_offset now sub id w
            else fail id (set_last_error s w)
        end)) (okb (λ _, settled id)) w.
Proof using Hcore.
  intros Hg Hh Hr. unfold act, wp at 1. rewrite (h_bio _ _ _ _ Hh). pose proof Hr as (fs & se & _ & Hfl & _).
  rewrite Hfl. destruct os as [|o os].
  - simpl. destruct (failed b =? 0) eqn:H0.
    { eapply finish_spec; [done|done|done|]. intros _. apply round_ack; [done|lia]. }
    destruct (0 <? successful b); [by eapply resubmit_spec|].
    eapply (fail_spec id b (set_last_error s w)); [by apply (busy_step id w)|by destruct Hh].
  - rewrite (proj2 (Z.ltb_lt 0 _)) by (simpl; lia).
    pose proof Hh as []. eapply busy_release; try done. right. left. by rewrite h_outs0.
Qed.

Lemma completion_error_spec id b os dev s w :
  busy id w → held w id b os →
  wp (completion_error core true data_ent_offset now id dev s) (okb (λ _ w', busy id w' ∧ held w' id b os)) w.
Proof using Hcore.
  intros Hg Hh. unfold completion_error, wp at 1. rewrite (h_bio _ _ _ _ Hh).
  destruct (bs_plane _ _ Hg) as [Hb Hha].
  pose proof (fault_and_log_spec w dev s b None Hb Hha (or_introl eq_refl) (h_range _ _ _ _ Hh)) as Hf.
  assert (wp (log ← fault_device true now dev s;
      match log with None => mret tt | Some l => log_io core data_ent_offset b l end)
    (okb (λ _ w', busy id w' ∧ held w' id b os)) w) as Hlog.
  { eapply okb_mono; [exact Hf|]. intros _ w1 [Hq Hp]. split; [by eapply busy_quiet|by eapply held_quiet]. }
  assert (Hshut : wp try_self_shutdown_nexus (okb (λ _ w', busy id w' ∧ held w' id b os)) w).
  { split; [by apply (busy_step id w)|by destruct Hh]. }
  destruct s as [|[]| | |]; try exact Hshut; try exact Hlog; done.
Qed.

Lemma round_perm cs by_passed b os os' : os ≡ₚ os' → round cs by_passed b os → round cs by_passed b os'.
Proof.
  intros Hp (fs & se & Ht & Hfl & ?). exists fs, se. split; [by rewrite <- Hp|].
  split; [|done]. by rewrite <- Hp.
Qed.

(** One child I/O answered. *)
Lemma round_answer cs by_passed b dev os :
  round cs by_passed b (dev :: os) →
  let b1 := set_counts (wrap8 (in_flight b - 1)) (status b) (successful b) (failed b) b in
  round cs by_passed (set_ghost (targets b) (oks b ++ [dev])
    (set_counts (in_flight b1) (status b) (wrap8 (successful b + 1)) (failed b) b)) os ∧
  ∀ cs' by_passed', round cs' by_passed' (set_counts (in_flight b1) StFailed (successful b) (wrap8 (failed b + 1)) b) os.
Proof.
  intros (fs & se & Ht & Hfl & Hs & Hf & Hle & Hc) b1. simpl.
  pose proof (Permutation_length Ht) as Hlen. rewrite !length_app in Hlen. simpl in *.
  rewrite (wrap8_small (in_flight b - 1)), (wrap8_small (successful b + 1)),
    (wrap8_small (failed b + 1)) by lia. split.
  - exists fs, se. simpl. rewrite length_app. split_and!; try done; [|lia|simpl; lia].
    rewrite Ht. solve_Permutation.
  - intros cs' by_passed'. exists (fs ++ [dev]), se. simpl. rewrite length_app.
    split_and!; try done; [|lia|simpl; lia|lia]. rewrite Ht. solve_Permutation.
Qed.

Lemma complete_spec sub id b os dev s w :
  busy id w → held w id b os → round (children w) (bypassed w) b (dev :: os) →
  wp (complete core true data_ent_offset now sub id dev s) (okb (λ _, settled id)) w.
Proof using Hcore.
  intros Hg Hh Hr. destruct (round_answer _ _ _ _ _ Hr) as [Hok Hbad]. unfold complete, wp at 1.
  destruct (with_bio_spec id b os (λ b, set_counts (wrap8 (in_flight b - 1)) (status b)
    (successful b) (failed b) b) w Hg Hh (h_range _ _ _ _ Hh)) as [Hg1 Hh1].
  assert (Hcs : ∀ f w, children (with_bio id f w) = children w ∧ bypassed (with_bio id f w) = bypassed w)
    by (intros; unfold with_bio; by destruct (_ !! _)).
  set (w1 := with_bio id _ w) in *.
  match goal with |- let '(_, _) := ?m w1 in _ => change (wp m (okb (λ _, settled id)) w1) end.
  case_bool_decide as Hs.
  - apply wp_bind, wp_modify. match goal with |- context [with_bio id ?f w1] =>
      destruct (with_bio_spec id _ os f w1 Hg1 Hh1 (h_range _ _ _ _ Hh)) as [Hg2 Hh2];
      destruct (Hcs f w1) as [E1 E2] end.
    eapply complete_end_spec; [done|exact Hh2|]. rewrite E1, E2. unfold w1.
    match goal with |- context [with_bio id ?f w] => destruct (Hcs f w) as [-> ->] end. done.
  - eapply okb_bind.
    + apply wp_bind, wp_modify. match goal with |- context [with_bio id ?f w1] =>
        destruct (with_bio_spec id _ os f w1 Hg1 Hh1 (h_range _ _ _ _ Hh)) as [Hg2 Hh2] end.
      exact (completion_error_spec _ _ _ dev s _ Hg2 Hh2).
    + intros _ w3 [Hg3 Hh3]. eapply complete_end_spec; [done|exact Hh3|apply Hbad].
Qed.

End Processing.

(** *** Events of the data plane *)

Lemma busy_start w id : plane w → busy w id w.
Proof. intros. split; [done|by intros; split_and!|apply later_refl|done|apply guarded_refl]. Qed.

(** The invariant holds again, the I/Os that got no memory are the same, and only
    children at risk were bypassed. *)
Definition kept w0 w : Prop :=
  good w ∧ starved w = starved w0 ∧ ∀ n, n ∈ bypassed w → n ∈ bypassed w0 ∨ at_risk w0 n.

Lemma settled_good w0 id w :
  (∀ id', id' ≠ id → io_ok w0 id') → settled w0 id w → kept w0 w.
Proof.
  intros H0 ([Hp Hs He Hst Hgu] & _ & Hok). split; [|split; [done|apply Hgu]]. split; [done|]. intros id'.
  destruct (decide (id' = id)) as [->|Hid]; [done|]. eapply io_ok_same; eauto.
Qed.

(** The control plane touches no nexus I/O. *)
Lemma good_control w w' : good w → same_bios w w' → later w w' → plane w' → good w' ∧ starved w' = starved w.
Proof.
  intros [_ Hi] Hq Hl Hp. split; [|by apply same_bios_starved]. split; [done|]. intros id.
  eapply io_ok_same; [by apply same_bios_io|done|apply Hi].
Qed.

Lemma good_quiet w w' : good w → quiet w w' → base w' → handles None w' → kept w w'.
Proof.
  intros Hg Hq Hb Hh. destruct (good_control w w') as [? ?]; [done|apply Hq|by apply quiet_later|done|].
  split_and!; [done|done|apply Hq].
Qed.

Lemma good_same w w' : good w → same_bios w w' → same_plane w w' → kept w w'.
Proof.
  intros Hg Hs Hp. destruct (good_control w w') as [? ?]; [done|done|by apply later_same|by eapply plane_same; [|apply Hg]|].
  destruct Hp as (_ & _ & _ & Hb). split_and!; [done|done|]. rewrite Hb. auto.
Qed.

(** I/Os taken from the queue of frozen ones, to be processed in turn. *)
Record pending (ids : list nat) w : Prop := {
  pd_plane : plane w;
  pd_nodup : NoDup ids;
  pd_held : ∀ id, id ∈ ids → ∃ b, held w id b [] ∧ fresh b;
  pd_rest : ∀ id, id ∉ ids → io_ok w id;
}.

Lemma pending_next id ids w w' : pending (id :: ids) w → settled w id w' → pending ids w' ∧ starved w' = starved w ∧ guarded w w'.
Proof.
  intros [Hp [Hni Hnd]%NoDup_cons Hh Hr] ([Hp' Hs He Hst Hgu] & _ & Hok). split; [|done]. split; try done.
  - intros id' Hid. destruct (Hh id') as (b & ? & ?); [by right|].
    exists b. split; [|done]. eapply held_same; [apply Hs; congruence|done].
  - intros id' Hid. destruct (decide (id' = id)) as [->|Hne]; [done|].
    eapply io_ok_same; [by apply Hs|done|]. apply Hr. by apply not_elem_of_cons.
Qed.

Lemma pending_done w : pending [] w → good w.
Proof. intros [Hp _ _ Hr]. split; [done|]. intros id. apply Hr, not_elem_of_nil. Qed.

Lemma kept_after w w1 w2 : starved w1 = starved w → guarded w w1 → kept w1 w2 → kept w w2.
Proof.
  intros Hs [Ha Hb] (? & ? & Hn). split; [done|]. split; [congruence|]. intros n Hin.
  destruct (Hn n Hin) as [?|?]; auto.
Qed.

Lemma resubmit_list_spec sub ids w :
  pending ids w → wp (resubmit_list core true data_ent_offset now sub ids) (okb (λ _, kept w)) w.
Proof using Hcore.
  revert w. induction ids as [|id ids IH]; intros w Hp; [apply wp_ret; split; [by apply pending_done|auto]|].
  destruct (pd_held _ _ Hp id) as (b & Hh & Hf); [left|]. cbn [resubmit_list].
  eapply okb_bind; [apply (submit_request_spec w (sub id) id b w); [apply busy_start, Hp|done|done]|].
  intros ? w1 Hs. destruct (pending_next _ _ _ _ Hp Hs) as (Hp1 & Est & Hgu). eapply okb_mono; [by apply IH|].
  intros ? w2 Hk. by eapply kept_after.
Qed.

Lemma abort_list_spec ids w : pending ids w → wp (abort_list ids) (okb (λ _, kept w)) w.
Proof.
  revert w. induction ids as [|id ids IH]; intros w Hp; [apply wp_ret; split; [by apply pending_done|auto]|].
  destruct (pd_held _ _ Hp id) as (b & Hh & Hf); [left|]. cbn [abort_list].
  eapply okb_bind; [apply (fail_spec w id b w); [apply busy_start, Hp|done]|].
  intros ? w1 Hs. destruct (pending_next _ _ _ _ Hp Hs) as (Hp1 & Est & Hgu). eapply okb_mono; [by apply IH|].
  intros ? w2 Hk. by eapply kept_after.
Qed.

Lemma filter_eq_nil (x : nat) l : filter (λ i, i = x) l = [] ↔ x ∉ l.
Proof.
  induction l as [|y l IH]; [split; [intros _; apply not_elem_of_nil|done]|].
  rewrite filter_cons, not_elem_of_cons. destruct (decide (y = x)) as [->|Hne]; [|naive_solver].
  split; [done|]. by intros [? _].
Qed.

Lemma NoDup_filter_eq (l : list nat) :
  (∀ x, x ∈ l → filter (λ i, i = x) l = [x]) → NoDup l.
Proof.
  induction l as [|y l IH]; intros H; constructor.
  - assert (E : filter (λ i, i = y) (y :: l) = [y]) by (apply H; left). rewrite filter_cons_True in E by done.
    injection E as E. by apply filter_eq_nil.
  - apply IH. intros x Hx. assert (E : filter (λ i, i = x) (y :: l) = [x]) by (apply H; by right).
    rewrite filter_cons in E.
    destruct (decide (y = x)) as [->|]; [|done]. injection E as E. by apply filter_eq_nil in E.
Qed.

(** Taking all frozen I/Os. *)
Lemma take_frozen_spec w : good w → pending (frozen_ios w) (set_frozen [] w).
Proof.
  intros [Hp Hi].
  assert (Hfz : ∀ id, id ∈ frozen_ios w → filter (λ i, i = id) (frozen_ios w) ≠ []).
  { intros id Hin E. by apply filter_eq_nil in E. }
  assert (Hall : ∀ id, id ∈ frozen_ios w → ∃ b, bios w !! id = Some b ∧ in_range b ∧ fresh b ∧
    queued w id = ([id], []) ∧ outs w id = [] ∧ results w id = []).
  { intros id Hin. specialize (Hfz id Hin). specialize (Hi id). unfold io_ok in Hi.
    destruct (bios w !! id) as [b|]; [|by destruct Hi as ([= ? _] & _)].
    destruct Hi as [Hr [(Hq & ? & ? & ?)|[([= ? _] & _)|([= ? _] & _)]]]; [|done..].
    destruct Hq as [?|[[= ? _] _]]; [|done]. eauto 10. }
  split.
  - by apply (plane_same w).
  - apply NoDup_filter_eq. intros id Hin. destruct (Hall id Hin) as (b & _ & _ & _ & Hq & _).
    by injection Hq.
  - intros id Hin. destruct (Hall id Hin) as (b & ? & ? & ? & Hq & ? & ?). exists b.
    split; [|done]. split; try done. unfold queued in *. simpl. by injection Hq as _ ->.
  - intros id Hin. eapply (io_ok_same w); [|by apply later_same|apply Hi].
    split_and!; try done. unfold queued. simpl. f_equal. symmetry. by apply filter_eq_nil.
Qed.

Lemma new_good id t off n buf sub w :
  good w → bios w !! id = None → in_range (new_bio t off n buf) →
  wp (submit_request core true data_ent_offset now sub id) (okb (λ _, kept w)) (put_bio id (new_bio t off n buf) w).
Proof using Hcore.
  intros [Hp Hi] Hb Hr. set (w0 := put_bio id _ w).
  pose proof (Hi id) as Hid. unfold io_ok in Hid. rewrite Hb in Hid. destruct Hid as (? & ? & ?).
  eapply okb_mono; [apply (submit_request_spec w0 sub id (new_bio t off n buf) w0)|].
  - apply busy_start. by apply (plane_same w).
  - split; try done. simpl. by rewrite lookup_insert_eq.
  - done.
  - intros ? w' Hs. eapply (settled_good w0); [|exact Hs]. intros id' Hne.
    eapply (io_ok_same w); [|by apply later_same|done]. split_and!; try done.
    simpl. by rewrite lookup_insert_ne.
Qed.

Lemma filter_delete {A} (P : A → Prop) `{!∀ x, Decision (P x)} (i : nat) (l : list A) x :
  l !! i = Some x →
  filter P l ≡ₚ (if decide (P x) then [x] else []) ++ filter P (delete i l).
Proof.
  intros Hi. rewrite (delete_Permutation l i x Hi) at 1. rewrite filter_cons.
  by destruct (decide (P x)).
Qed.

(** Dropping an entry of another I/O keeps the order of the rest. *)
Lemma filter_delete_other {A} (P : A → Prop) `{!∀ x, Decision (P x)} (i : nat) (l : list A) x :
  l !! i = Some x → ¬ P x → filter P (delete i l) = filter P l.
Proof.
  intros Hi Hx. rewrite <- (take_drop_middle l i x Hi) at 2. rewrite delete_take_drop.
  by rewrite !filter_app, filter_cons_False.
Qed.

(** A buffer came, or there was none: the read goes on all the same. *)
Lemma buf_good i id success sub w :
  good w → wait_buf w !! i = Some id →
  wp (get_buf_cb true now sub id success) (okb (λ _ w', good w' ∧
    starved w' = (starved w ++ if success then [] else [id]) ∧ ∀ n, n ∈ bypassed w' → n ∈ bypassed w ∨ at_risk w n)) (set_wait_buf (delete i (wait_buf w)) w).
Proof.
  intros [Hp Hi] Hw. set (w0 := set_wait_buf _ w).
  pose proof (filter_delete (λ j, j = id) _ _ _ Hw) as Hperm. rewrite decide_True in Hperm by done.
  assert (∃ b, bios w !! id = Some b ∧ in_range b ∧ fresh b ∧ is_write_like (io_type b) = false ∧
    queued w id = ([], [id]) ∧ outs w id = [] ∧ results w id = []) as (b & ? & ? & ? & ? & Hq & ? & Hres).
  { assert (Hne : filter (λ j, j = id) (wait_buf w) ≠ []).
    { intros E. rewrite E in Hperm. by apply Permutation_nil_cons in Hperm. }
    pose proof (Hi id) as Hid. unfold io_ok in Hid.
    destruct (bios w !! id) as [b|]; [|by destruct Hid as ([= _ ?] & _)].
    destruct Hid as [Hr [(Hq & ? & ? & ?)|[([= _ ?] & _)|([= _ ?] & _)]]]; [|done..].
    destruct Hq as [[= _ ?]|[? ?]]; [done|]. exists b. by split_and!. }
  injection Hq as Hq1 Hq2. rewrite Hq2 in Hperm. apply Permutation_cons_inv in Hperm.
  apply Permutation_nil_l in Hperm.
  set (w1 := if success then w0 else finish id BioNoMem w0).
  assert (Hw1 : ∀ id', id' ≠ id → same_io w w1 id').
  { intros id' Hne. assert (same_io w w0 id') as Hsi.
    { split_and!; try done. unfold queued. simpl. f_equal. by eapply filter_delete_other. }
    unfold w1. destruct success; [done|]. eapply same_io_trans; [exact Hsi|]. split_and!; try done.
    rewrite results_finish, decide_False by naive_solver. by rewrite app_nil_r. }
  assert (same_plane w w1) as Hsp by (unfold w1; by destruct success).
  assert (held w1 id b []) as Hh1.
  { unfold w1. destruct success; split; try done; try (unfold queued; simpl; by rewrite Hq1, Hperm).
    rewrite results_finish, decide_False by naive_solver. by rewrite app_nil_r. }
  assert (starved w1 = starved w ++ if success then [] else [id]) as Hst.
  { unfold w1. destruct success; [by rewrite app_nil_r|]. by rewrite starved_finish. }
  unfold get_buf_cb, wp at 1. fold w1. eapply (okb_mono bad); [apply (do_readv_spec w1 sub id b w1); try done|].
  { apply busy_start. by apply (plane_same w). }
  intros ? w' Hs. destruct (settled_good w1 id w') as (Hg' & Hst' & Hby); [|exact Hs|].
  { intros id' Hne. eapply (io_ok_same w); [by apply Hw1|by apply later_same|done]. }
  split; [done|]. split; [by rewrite Hst', Hst|]. intros n Hn.
  assert (guarded w w1) as [Ha Hb] by (apply same_guarded; [done|unfold w1; by destruct success]).
  destruct (Hby n Hn) as [?|?]; auto.
Qed.

Lemma child_good k id dev s sub w :
  good w → outstanding w !! k = Some (id, dev) →
  wp (complete core true data_ent_offset now sub id dev s) (okb (λ _, kept w))
    (set_outstanding (delete k (outstanding w)) w).
Proof using Hcore.
  intros [Hp Hi] Hk. set (w0 := set_outstanding _ w).
  assert (Hperm : outs w id ≡ₚ dev :: outs w0 id).
  { unfold outs. simpl. rewrite (filter_delete (λ p, p.1 = id) _ _ _ Hk), decide_True by done.
    by rewrite fmap_app. }
  assert (∃ b, bios w !! id = Some b ∧ in_range b ∧ queued w id = ([], []) ∧ results w id = [] ∧
    round (children w) (bypassed w) b (outs w id)) as (b & ? & ? & ? & ? & Hr).
  { assert (Hne : outs w id ≠ []).
    { intros E. rewrite E in Hperm. by apply Permutation_nil_cons in Hperm. }
    pose proof (Hi id) as Hid. unfold io_ok in Hid.
    destruct (bios w !! id) as [b|]; [|by destruct Hid as (_ & ? & _)].
    destruct Hid as [Hr [(_ & ? & _)|[(? & _ & ? & ?)|(_ & ? & _)]]]; [done| |done].
    exists b. by split_and!. }
  eapply okb_mono; [apply (complete_spec w0 sub id b (outs w0 id) dev s w0)|].
  - apply busy_start. by apply (plane_same w).
  - by split.
  - by eapply round_perm.
  - intros ? w' Hs. eapply (settled_good w0); [|exact Hs]. intros id' Hne.
    eapply (io_ok_same w); [|by apply later_same|done]. split_and!; try done.
    unfold outs. simpl. f_equal. eapply filter_delete_other; [done|]. simpl. congruence.
Qed.

(** *** Events of the control plane *)

(** What the control plane does to one child *)
Record turns w c c' : Prop := {
  t_follows : follows c c';
  t_wfc : bad → wfc c → wfc c';
  t_handled : handled w c → handled w c';
}.

(** A child with a log keeps it, and one without is excluded or unchanged. *)
Lemma keeps_log_turns w c c' :
  name c' = name c → io_log c' = io_log c → (excluded c → excluded c') →
  (has_io_log c = true ∨ excluded c' ∨ state c' = state c) → (bad → wfc c → wfc c') → turns w c c'.
Proof.
  intros Hn Hl He Hs Hw. assert (has_io_log c' = has_io_log c) as Hh by (unfold has_io_log; by rewrite Hl).
  split; [split; [done|done|]|done|].
  - intros e (l & evs & nb & ? & ?). right. exists l, evs, nb. by rewrite Hl.
  - unfold handled. rewrite Hn, Hh. intros [?|[?|[[? Ho]|?]]]; auto.
    destruct Hs as [?|[?|Hs]]; auto 6. right. right. left. split; [done|]. by rewrite Hs.
Qed.

(** Only its closing changes. *)
Lemma alike_turns w c c' :
  name c' = name c → state c' = state c → sync_state c' = sync_state c → device c' = device c → io_log c' = io_log c →
  turns w c c'.
Proof.
  intros Hn Hst Hsy Hd Hl. assert (has_io_log c' = has_io_log c) as Hh by (unfold has_io_log; by rewrite Hl).
  apply keeps_log_turns; [done|done| |auto|].
  - unfold excluded. by rewrite Hst, Hh, Hd, Hsy.
  - intros _ []. split; rewrite ?Hn, ?Hd, ?Hl, ?Hsy, ?Hh; done.
Qed.

Lemma unplug_turns w c : hot_removed c = false → turns w c (fst (unplug c)).
Proof.
  intros Hr. unfold unplug, hot_removed in *. destruct (is_destroying c) eqn:Hde.
  - set (c' := fst _).
    assert (name c' = name c ∧ device c' = None ∧ io_log c' = io_log c ∧ sync_state c' = sync_state c ∧
      (state c = Open ∨ state c' = state c)) as (Hn & Hd & Hl & Hs & Hst).
    { unfold c'. case_bool_decide; simpl; split_and!; auto. }
    clearbody c'. assert (has_io_log c' = has_io_log c) as Hh by (unfold has_io_log; by rewrite Hl).
    apply keeps_log_turns; [done|done| | |].
    + intros [(? & ? & ?)|[? _]]; [|right; rewrite Hh; auto].
      destruct Hst as [?|Hst]; [done|]. left. by rewrite Hs, Hst.
    + destruct (has_io_log c) eqn:E; [by left|right; left; right; auto].
    + intros _ []. split; rewrite ?Hn, ?Hd, ?Hl, ?Hs, ?Hh; done.
  - rewrite andb_true_r in Hr. simpl in Hr |- *. rewrite Hr. by apply alike_turns.
Qed.

Lemma stop_log_turns w c : sync_state c = OutOfSync → turns w c (set_io_log None c).
Proof.
  intros Hs. assert (excluded (set_io_log None c)) by (right; auto).
  split; [by split; auto| |by left]. intros _ []. by split.
Qed.

Lemma rebuild_failed_turns w c : sync_state c = OutOfSync → turns w c (close_faulted_end now RebuildFailed c).
Proof.
  intros Hs. set (c' := close_faulted_end now RebuildFailed c). apply keeps_log_turns; [done|done| | |].
  - intros [(? & _)|[? _]]; [congruence|right; auto].
  - destruct (has_io_log c) eqn:E; [by left|right; left; right; auto].
  - intros _ []. by split.
Qed.

(** A child that is not open is brought back, or stays as it is, or cannot be
    used any more. *)
Lemma online_forms created lookup dev_open size c c' r :
  online now created lookup dev_open size c = (c', r) → created ≠ Panicked → dev_open ≠ Panicked →
  r ≠ Panicked ∧ (c' = c ∨
    state_is_recoverable (state c) = true ∧ state c ≠ Open ∧ name c' = name c ∧ io_log c' = io_log c ∧
    (∀ d, device c' = Some d → ∃ nm, lookup nm = Some d) ∧
    (device c' = None ∧ state c' = state c ∧ sync_state c' = sync_state c ∨
     state c' ≠ Open ∧ state_is_recoverable (state c') = false ∧ sync_state c' = sync_state c ∨
     sync_state c' = OutOfSync)).
Proof.
  unfold online. intros Hon Hcr Hop.
  destruct (is_open_or_init (state c)) eqn:Hst; [by injection Hon as <- <-; auto|].
  destruct (is_destroying c) eqn:Hde; [by injection Hon as <- <-; auto|].
  destruct (state_is_recoverable (state c)) eqn:Hre; simpl in Hon; [|by injection Hon as <- <-; auto].
  assert (Hno : state c ≠ Open) by (intros E; by rewrite E in Hst).
  destruct created as [nm|e|]; [|by injection Hon as <- <-; auto|done].
  destruct (lookup nm) as [d|] eqn:Hl; [|injection Hon as <- <-; split; [done|right; split_and!; auto; done]].
  unfold open in Hon. simpl in Hon.
  assert (Hd0 : is_destroying (set_device (Some d) c) = false) by done. rewrite Hd0 in Hon.
  assert (∃ c1 r1, (if bd_size_in_bytes d <? size
    then (set_state ConfigInvalid (set_device (Some d) c), Err (ChildTooSmall (bd_size_in_bytes d) size))
    else match dev_open with
      | Ok _ => (set_sync_state OutOfSync (set_state Open (set_descriptor true (set_device (Some d) c))), Ok (name c))
      | Err source => (set_faulted_state now CantOpen (set_device (Some d) c), Err (OpenChild source))
      | Panicked => (set_device (Some d) c, Panicked)
      end) = (c1, r1) ∧ c1 = c' ∧ r1 = r) as (c1 & r1 & E & -> & ->).
  { destruct (state c) as [| | | |reason]; simpl in Hre, Hon; rewrite ?Hre in Hon; try discriminate; eexists _, _; (split; [exact Hon|done]). }
  clear Hon. destruct (_ <? _); [|destruct dev_open as [[]|e|]; [| |done]]; injection E as <- <-; (split; [done|right]);
    split_and!; auto; try (by intros ? [= <-]; eauto); simpl; auto.
Qed.

Lemma online_turns w created lookup dev_open size c :
  created ≠ Panicked → dev_open ≠ Panicked → (∀ nm d, lookup nm = Some d → sane_device (name c) d) →
  snd (online now created lookup dev_open size c) ≠ Panicked ∧
  turns w c (fst (online now created lookup dev_open size c)).
Proof.
  intros Hcr Hop Hlk. destruct (online now created lookup dev_open size c) as [c' r] eqn:E. simpl.
  destruct (online_forms _ _ _ _ _ _ _ E Hcr Hop) as [Hr [->|(Hre & Ho & Hn & Hl & Hd & Hs)]]; (split; [done|]).
  { by apply alike_turns. }
  assert (has_io_log c' = has_io_log c) as Hh by (unfold has_io_log; by rewrite Hl).
  apply keeps_log_turns; [done|done| | |].
  - intros [(_ & _ & ?)|[Hno [Hdn|Hy]]]; [congruence|..].
    + destruct Hs as [(? & _)|[(? & ? & Hsy)|?]]; [right; rewrite Hh; auto| |right; rewrite Hh; auto].
      destruct (sync_state c) eqn:E'; [left; split; [congruence|done]|right; rewrite Hh; split; [done|right; congruence]].
    + right. rewrite Hh. split; [done|]. destruct Hs as [(? & _)|[(_ & _ & ?)|?]]; [by left|right; congruence|by right].
  - destruct (has_io_log c) eqn:E'; [by left|right; left].
    destruct Hs as [(? & _)|[(? & ? & Hsy)|?]]; [right; auto| |right; auto].
    destruct (sync_state c') eqn:Hy; [left; auto|right; auto].
  - intros Hbad []. split; rewrite ?Hn, ?Hl; try done. intros d Hd'. destruct (Hd d Hd') as [nm ?]. eauto.
Qed.

(** Replacing one child *)
Lemma swap_good w i c c' :
  bad → good w → children w !! i = Some c → turns w c c' → kept w (set_children (<[i := c']> (children w)) w).
Proof.
  intros Hbad Hg Hi [Hf Hw Hh]. pose proof (gd_plane _ Hg) as [Hb Hha].
  pose proof (list_elem_of_lookup_2 _ _ _ Hi) as Hc.
  assert (∀ x, x ∈ <[i := c']> (children w) → x = c' ∨ x ∈ children w) as Hin.
  { intros x [j Hj]%list_elem_of_lookup.
    apply list_lookup_insert_Some in Hj as [(_ & -> & _)|[_ Hj]]; [by left|right; by eapply list_elem_of_lookup_2]. }
  destruct (good_control w (set_children (<[i := c']> (children w)) w)) as [? ?]; [done|done| |split; [split|]|by split_and!; auto].
  - split; [done|]. intros x [->|Hx]%Hin; [by exists c|]. exists x. split; [done|]. apply grows_follows, grows_refl.
  - apply Forall_insert; [apply Hb|]. apply Hw; [done|]. by eapply child_wfc.
  - simpl. unfold devices_of. rewrite list_fmap_insert, list_insert_id; [apply Hb|].
    rewrite list_lookup_fmap, Hi. simpl. by rewrite (f_name _ _ Hf).
  - apply Hb.
  - simpl. rewrite length_insert. apply Hb.
  - auto.
  - intros x [->|Hx]%Hin; right; [|by apply (handles_none w)]. apply Hh. by apply handles_none.
Qed.

Lemma update_good n f w :
  bad → good w → (∀ c, c ∈ children w → name c = n → turns w c (f c)) → kept w (update_child n f w).
Proof.
  intros Hbad Hg Hf. unfold update_child, lookup_child. destruct (list_find _ _) as [[i c]|] eqn:E; [|by apply good_same].
  apply list_find_Some in E as (Hi & Hn & _). eapply swap_good; try done. apply Hf; [by eapply list_elem_of_lookup_2|done].
Qed.

(** *** All events *)

(** The requests are in range; devices that a child is brought back with can be
    logged, and creating and opening them does not panic. *)
Definition ev_ok (ev : event) : Prop :=
  match ev with
  | EvNew _ t off n buf _ => in_range (new_bio t off n buf)
  | EvOnline n created lookup dev_open _ =>
      created ≠ Panicked ∧ dev_open ≠ Panicked ∧ ∀ nm d, lookup nm = Some d → sane_device n d
  | _ => True
  end.

(** There was no buffer for a read. *)
Definition no_buffer (ev : event) : bool := match ev with EvBuf _ success _ => negb success | _ => false end.

(** A child is bypassed if it is at risk, or healthy without a log when its
    device is detached. *)
Definition bypasses (ev : event) w n : Prop :=
  at_risk w n ∨ ∃ dev, ev = EvDetach dev ∧ n ∈ unlogged dev w.

Definition goes_on (ev : event) w w' : Prop :=
  good w' ∧ (no_buffer ev = false → starved w' = starved w) ∧
  ∀ n, n ∈ bypassed w' → n ∈ bypassed w ∨ bypasses ev w n.

Lemma kept_goes_on ev w w' : kept w w' → goes_on ev w w'.
Proof. intros (? & ? & Hb). split_and!; [done|done|]. intros n Hn. destruct (Hb n Hn); [by left|right; by left]. Qed.

Lemma retire_kept w dev reason retry :
  good w → wp (_ ← retire_child_device true now dev reason retry; mret tt) (okb (λ _, kept w)) w.
Proof.
  intros Hg. pose proof (gd_plane _ Hg) as [Hb Hh]. eapply okb_bind; [by apply retire_spec|].
  intros r w1 (Hq & Hb1 & _ & _ & Hh1 & _). apply wp_ret. apply good_quiet; auto.
Qed.

Lemma remove_kept w dev : bad → good w → wp (child_remove_routine true now dev) (okb (λ _, kept w)) w.
Proof.
  intros Hbad Hg. unfold child_remove_routine, wp at 1.
  destruct (lookup_child_by_device w dev) as [[i c]|] eqn:Hl; [|by apply good_same].
  destruct (hot_removed c) eqn:Hr; [by apply retire_kept|]. destruct (lookup_child_spec _ _ _ _ Hl).
  eapply swap_good; try done. by apply unplug_turns.
Qed.

(** A removed device can only make the nexus panic for the known reason. *)
Lemma remove_panics w dev w' o :
  good w → child_remove_routine true now dev w = (w', o) → okb (λ _ _, True) o w'.
Proof.
  intros Hg. unfold child_remove_routine. destruct (lookup_child_by_device w dev) as [[i c]|]; [|by intros [= <- <-]].
  destruct (hot_removed c); [|by intros [= <- <-]]. intros E.
  pose proof (wp_elim _ _ _ _ _ (retire_kept w dev HotRemove false Hg) E). by destruct o.
Qed.

Lemma io_mode_kept w m sub : good w → wp (set_io_mode core true data_ent_offset now sub m) (okb (λ _, kept w)) w.
Proof using Hcore.
  intros Hg. unfold set_io_mode, wp at 1. pose proof (good_same w (set_mode m w) Hg) as Hk.
  destruct m; [|by apply Hk]. destruct Hk as [Hgm _]; [done..|]. exact (resubmit_list_spec sub _ _ (take_frozen_spec _ Hgm)).
Qed.

Lemma online_kept w n created lookup dev_open size w' o :
  bad → good w → ev_ok (EvOnline n created lookup dev_open size) →
  online_child now n created lookup dev_open size w = (w', o) → o = Ok tt ∧ kept w w'.
Proof.
  intros Hbad Hg (Hcr & Hop & Hlk). unfold online_child, lookup_child.
  destruct (list_find _ _) as [[i c]|] eqn:E; [|intros [= <- <-]; split; [done|by apply good_same]].
  apply list_find_Some in E as (Hi & Hn & _). subst n.
  destruct (online_turns w created lookup dev_open size c Hcr Hop Hlk) as [Hr Ht].
  destruct (online now created lookup dev_open size c) as [c' r]. simpl in *. intros [= <- <-].
  split; [by destruct r|]. by eapply swap_good.
Qed.

Lemma online_no_panic w n created lookup dev_open size w' o :
  ev_ok (EvOnline n created lookup dev_open size) → online_child now n created lookup dev_open size w = (w', o) → o = Ok tt.
Proof.
  intros (Hcr & Hop & Hlk). unfold online_child. destruct (lookup_child n w) as [[i c]|]; [|by intros [= _ <-]].
  destruct (online now created lookup dev_open size c) as [c' r] eqn:E. intros [= _ <-].
  destruct (online_forms _ _ _ _ _ _ _ E Hcr Hop) as [? _]. by destruct r.
Qed.

Lemma lookup_child_unique w n i c c' :
  base w → lookup_child n w = Some (i, c) → c' ∈ children w → name c' = n → c' = c.
Proof.
  intros Hb (Hi & Hn & _)%list_find_Some Hc' Hn'. apply (name_inj w); try done; [by eapply list_elem_of_lookup_2|congruence].
Qed.

(** Every event keeps the invariant, or panics for the known reason. *)
Lemma exec_spec ev w w' o :
  good w → ev_ok ev → exec core true data_ent_offset now ev w = Some (w', o) →
  okb (λ _ w', bad → goes_on ev w w') o w'.
Proof using Hcore.
  intros Hg Hev Hx. pose proof (gd_plane _ Hg) as [Hb Hh].
  assert (∀ m w1, wp m (okb (λ _, kept w)) w1 → m w1 = (w', o) → okb (λ _ w', bad → goes_on ev w w') o w') as Hk.
  { intros m w1 Hm E. pose proof (wp_elim _ _ _ _ _ Hm E) as H. destruct o; simpl in *; [|done..].
    intros _. by apply kept_goes_on. }
  assert (∀ w1, (bad → kept w w1) → Some (w1, Ok tt) = Some (w', o) → okb (λ _ w', bad → goes_on ev w w') o w') as Hp.
  { intros w1 H [= <- <-] Hbad. by apply kept_goes_on, H. }
  destruct ev as [id t off n buf sub|i success sub|k s sub|dev reason retry|dev|p|h| |m sub| |dev|n|n|n created lookup dev_open size|n|n|n|n];
    cbn [exec] in Hx.
  - destruct (bios w !! id) eqn:E; [done|]. injection Hx as Hx. eapply Hk; [|exact Hx]. by apply new_good.
  - destruct (wait_buf w !! i) as [id|] eqn:E; [|done]. injection Hx as Hx.
    pose proof (wp_elim _ _ _ _ _ (buf_good i id success sub w Hg E) Hx) as H. destruct o; simpl in *; [|done..].
    destruct H as (? & Hst & Hby). intros _. split_and!; [done|destruct success; [|done]; by rewrite Hst, app_nil_r|].
    intros n Hn. destruct (Hby n Hn); [by left|right; by left].
  - destruct (outstanding w !! k) as [[id dev]|] eqn:E; [|done]. injection Hx as Hx. eapply Hk; [|exact Hx].
    by apply child_good.
  - injection Hx as Hx. eapply Hk; [|exact Hx]. by apply retire_kept.
  - injection Hx as <- <-. intros _. destruct (detach_event_spec w dev Hb Hh) as (Hs & Hl & Hpl & Hby).
    destruct (good_control w _ Hg Hs Hl Hpl) as [? ?]. split_and!; [done|done|]. intros n Hn. unfold bypasses.
    destruct (Hby n Hn) as [?|[?|?]]; eauto 6.
  - eapply Hp; [|exact Hx]. intros _. by apply good_same.
  - eapply Hp; [|exact Hx]. intros _. destruct (reconnect_all_spec h w Hb Hh) as (? & ? & ?). by apply good_quiet.
  - eapply Hp; [|exact Hx]. intros _. destruct (reconnect_spec w Hb) as (? & ? & _ & Hr). apply good_quiet; try done.
    intros c Hc. right. apply Hr; [done|]. by apply handles_none.
  - injection Hx as Hx. eapply Hk; [|exact Hx]. by apply io_mode_kept.
  - injection Hx as Hx. eapply (Hk (λ w, abort_list (frozen_ios w) (set_frozen [] w))); [|exact Hx].
    exact (abort_list_spec _ _ (take_frozen_spec _ Hg)).
  - injection Hx as Hx. pose proof (remove_panics _ _ _ _ Hg Hx) as H. destruct o; simpl in *; [|done..].
    intros Hbad. apply kept_goes_on. exact (wp_elim _ _ _ _ _ (remove_kept w dev Hbad Hg) Hx).
  - eapply Hp; [|exact Hx]. intros Hbad. apply update_good; [done..|]. intros c _ _.
    unfold close_begin. case_bool_decide; simpl; [|destruct (device c); simpl]; by apply alike_turns.
  - eapply Hp; [|exact Hx]. intros Hbad. apply update_good; [done..|]. intros c _ _. by apply alike_turns.
  - injection Hx as Hx. pose proof (online_no_panic _ _ _ _ _ _ _ _ Hev Hx) as ->. intros Hbad.
    by apply kept_goes_on, (online_kept w n created lookup dev_open size w' (Ok tt)).
  - destruct (lookup_child n w) as [[i c]|]; [|done]. destruct (_ && _); [|done].
    eapply Hp; [|exact Hx]. intros _. by apply good_same.
  - destruct (lookup_child n w) as [[i c]|] eqn:El; [|done]. case_bool_decide as Hs; [|done].
    eapply Hp; [|exact Hx]. intros Hbad. apply update_good; [done..|]. intros c' Hc' Hn. apply stop_log_turns.
    by rewrite (lookup_child_unique _ _ _ _ _ Hb El Hc' Hn).
  - destruct (lookup_child n w) as [[i c]|] eqn:El; [|done]. case_bool_decide as Hs; [|done].
    eapply Hp; [|exact Hx]. intros Hbad. apply update_good; [done..|]. intros c' Hc' Hn. apply rebuild_failed_turns.
    by rewrite (lookup_child_unique _ _ _ _ _ Hb El Hc' Hn).
  - eapply Hp; [|exact Hx]. intros _. by apply good_same.
Qed.

(** *** Rotation of the readers *)

Lemma fault_keeps_readers w dev reason w' r :
  channel_fault_device true now dev reason w = (w', r) →
  readers w' = readers w ∧ previous_reader w' = previous_reader w ∧
  outstanding w' = outstanding w ∧ completed w' = completed w.
Proof.
  unfold channel_fault_device, retire_child_device, mbind, ST_bind.
  destruct (lookup_child_by_device w dev) as [[i c]|]; [|by intros [= <- <-]].
  destruct (start_io_log true c) as [c1 [hl|e|]]; [|by intros [= <- <-]..].
  case_bool_decide; destruct hl; by intros [= <- <-].
Qed.

Definition next_reader w : Z := (previous_reader w + 1) `mod` Z.of_nat (length (readers w)).

(** One attempt: the next reader takes the read, or is skipped. *)
Definition attempted (sub : string → outcome CoreError unit) id w dev (r : outcome CoreError unit) w' : Prop :=
  plane w' ∧ completed w' = completed w ∧ readers w' = readers w ∧ previous_reader w' = next_reader w ∧
  match sub dev with
  | Err e => r = Err e ∧ outstanding w' = outstanding w
  | _ => r = Ok tt ∧ outstanding w' = outstanding w ++ [(id, dev)]
  end.

Lemma do_readv_one_rotates sub id w :
  plane w → readers w ≠ [] → 0 ≤ previous_reader w < Z.of_nat (length (readers w)) →
  ∃ dev, readers w !! Z.to_nat (next_reader w) = Some dev ∧
    wp (do_readv_one true now sub id) (okb (attempted sub id w dev)) w.
Proof.
  intros Hp Hne Hpr. set (n := Z.of_nat (length (readers w))) in *.
  assert (Hidx : (if previous_reader w <? n - 1 then previous_reader w + 1 else 0) = next_reader w).
  { unfold next_reader. fold n. destruct (Z.ltb_spec (previous_reader w) (n - 1)).
    - by rewrite Z.mod_small by lia.
    - replace (previous_reader w + 1) with n by lia. rewrite Z.mod_same by lia. done. }
  assert (Hrng : 0 ≤ next_reader w < n) by (apply Z.mod_pos_bound; lia).
  destruct (lookup_lt_is_Some_2 (readers w) (Z.to_nat (next_reader w))) as [dev Hdev];
    [lia|]. exists dev. split; [done|].
  set (w1 := set_previous_reader (next_reader w) w).
  assert (Hsel : select_reader w = (w1, Some dev)).
  { unfold select_reader. fold n. rewrite Hidx, Hdev. by destruct (readers w). }
  assert (Hp1 : plane w1) by by apply (plane_same w).
  unfold do_readv_one, wp at 1, attempted. rewrite Hsel. destruct (sub dev) as [[]|e|].
  2:{ destruct Hp1 as [Hb1 Hh1]. unfold fault_device, mbind, ST_bind.
      pose proof (fault_device_spec w1 dev (fault_reason (IoSubmissionError SubmitRead)) None Hb1 Hh1 (or_introl eq_refl)) as Hf.
      unfold wp in Hf. destruct (channel_fault_device true now dev _ w1) as [w2 [r|?|]] eqn:E; [|done..].
      destruct Hf as (_ & Hb2 & Hh2 & _). destruct (fault_keeps_readers _ _ _ _ _ E) as (? & ? & ? & ?). by split_and!. }
  all: unfold with_bio; simpl.
  all: destruct (bios w !! id) as [b|] eqn:Hb; simpl; rewrite ?lookup_insert_eq; simpl.
  all: rewrite ?Hb; split_and!; try done; by apply (plane_same w).
Qed.

Lemma mod_step p n t :
  0 < n → 0 < t → ((p + 1) `mod` n + 1 + (t - 1)) `mod` n = (p + 1 + t) `mod` n.
Proof.
  intros Hn Ht. replace ((p + 1) `mod` n + 1 + (t - 1)) with ((p + 1) `mod` n + t) by lia.
  by rewrite Zplus_mod_idemp_l.
Qed.

(** The read went to one reader. *)
Definition sent_to_one id w w' : Prop :=
  ∃ d, d ∈ readers w ∧ outstanding w' = outstanding w ++ [(id, d)] ∧ completed w' = completed w.

(** The loop finds a reader that takes the read if it tries it. *)
Lemma do_readv_loop_finds sub m id w d t :
  plane w → readers w ≠ [] → 0 ≤ previous_reader w < Z.of_nat (length (readers w)) →
  0 ≤ t < Z.of_nat m →
  readers w !! Z.to_nat ((previous_reader w + 1 + t) `mod` Z.of_nat (length (readers w))) = Some d →
  (∀ k, sub k d = Ok tt) →
  wp (do_readv_loop true now sub m id) (okb (λ r w', r = Ok tt ∧ sent_to_one id w w')) w.
Proof.
  intros Hp Hne Hpr Ht Hd Hsub. revert w t Hp Hne Hpr Ht Hd.
  induction m as [|m IH]; intros w t Hp Hne Hpr Ht Hd; [lia|].
  cbn [do_readv_loop]. destruct (do_readv_one_rotates (sub (S m)) id w Hp Hne Hpr) as (dev & Hdev & Hone).
  eapply okb_bind; [exact Hone|]. intros r w1 (Hp1 & Hc1 & Hr1 & Hpr1 & Hres).
  destruct (sub (S m) dev) as [[]|e|] eqn:He; destruct Hres as [-> Ho1].
  2:{ assert (Ht0 : t ≠ 0).
    { intros ->. rewrite Z.add_0_r in Hd. unfold next_reader in Hdev. rewrite Hd in Hdev.
      injection Hdev as <-. by rewrite Hsub in He. }
    destruct m as [|m]; [lia|]. eapply okb_mono; [apply (IH w1 (t - 1))|].
    + done.
    + by rewrite Hr1.
    + rewrite Hr1, Hpr1. apply Z.mod_pos_bound. lia.
    + lia.
    + rewrite Hr1, Hpr1. unfold next_reader. rewrite mod_step by lia. done.
    + intros r2 w2 (-> & d' & Hd' & Ho2 & Hc2). split; [done|]. exists d'.
      split_and!; [by rewrite <- Hr1|by rewrite Ho2, Ho1|by rewrite Hc2, Hc1]. }
  all: apply wp_ret; split; [done|]; exists dev; split_and!; [by eapply list_elem_of_lookup_2|done|done].
Qed.

Lemma offset_of n i j :
  0 < n → 0 ≤ i < n → 0 ≤ j < n → i ≠ j →
  0 ≤ (j - i - 1) `mod` n < n - 1 ∧ (i + 1 + (j - i - 1) `mod` n) `mod` n = j.
Proof.
  intros Hn Hi Hj Hne. split.
  - pose proof (Z.mod_pos_bound (j - i - 1) n Hn). split; [lia|].
    destruct (Z_lt_le_dec (j - i - 1) 0).
    + rewrite <- (Z_mod_plus_full _ 1), Z.mod_small; lia.
    + rewrite Z.mod_small; lia.
  - rewrite Zplus_mod_idemp_r. replace (i + 1 + (j - i - 1)) with j by lia. by apply Z.mod_small.
Qed.

(** The result of a read does not depend on a position past the last reader. *)
Lemma do_readv_normalise sub id w :
  0 ≤ previous_reader w → readers w ≠ [] →
  ∃ w1, do_readv true now sub id w = do_readv true now sub id w1 ∧ readers w1 = readers w ∧
    outstanding w1 = outstanding w ∧ completed w1 = completed w ∧ (plane w → plane w1) ∧
    0 ≤ previous_reader w1 < Z.of_nat (length (readers w1)).
Proof.
  intros H0 Hne. set (n := Z.of_nat (length (readers w))).
  destruct (Z_lt_le_dec (previous_reader w) n) as [?|Hle]; [by exists w|].
  exists (set_previous_reader (n - 1) w). simpl. assert (0 < n) by (destruct (readers w); [done|simpl in *; lia]).
  split_and!; try done; [|by apply plane_same|lia|fold n; lia].
  unfold do_readv, mbind, ST_bind, do_readv_one, select_reader. simpl. fold n.
  replace (previous_reader w <? n - 1) with false by lia.
  replace (n - 1 <? n - 1) with false by lia. clearbody n. by destruct (readers w).
Qed.

Lemma do_readv_finds sub id w d :
  plane w → 0 ≤ previous_reader w → d ∈ readers w →
  (∀ k, sub k d = Ok tt) → (∀ k d', sub k d' ≠ Err NoDevicesAvailable) →
  wp (do_readv true now sub id) (okb (λ _, sent_to_one id w)) w.
Proof.
  intros Hp H0 Hd Hsub Hno. assert (Hne : readers w ≠ []) by (intros E; rewrite E in Hd; by apply not_elem_of_nil in Hd).
  destruct (do_readv_normalise sub id w H0 Hne) as (w1 & E & Hr1 & Ho1 & Hc1 & Hp1 & Hpr1).
  unfold wp, sent_to_one. rewrite E, <- Hr1, <- Ho1, <- Hc1. rewrite <- Hr1 in Hd, Hne. specialize (Hp1 Hp). clear E Hr1 Ho1 Hc1 H0 Hp w.
  rename w1 into w, Hp1 into Hp. change (wp (do_readv true now sub id) (okb (λ _, sent_to_one id w)) w).
  destruct (do_readv_one_rotates (sub (S (length (readers w)))) id w Hp Hne Hpr1) as (dev & Hdev & Hone).
  eapply (okb_bind bad); [exact Hone|]. intros r w1 (Hp1 & Hc1 & Hr & Hpr & Hres).
  destruct (sub _ dev) as [[]|e|] eqn:He; destruct Hres as [-> Ho].
  2:{ apply list_elem_of_lookup in Hd as [j Hj]. pose proof (lookup_lt_Some _ _ _ Hj) as Hjn.
      set (n := Z.of_nat (length (readers w))) in *.
      assert (Hi : 0 ≤ next_reader w < n) by (apply Z.mod_pos_bound; lia).
      assert (Hij : next_reader w ≠ Z.of_nat j).
      { intros E. rewrite E, Nat2Z.id, Hj in Hdev. injection Hdev as <-. by rewrite Hsub in He. }
      destruct (offset_of n (next_reader w) (Z.of_nat j)) as [Ht Hmod]; [lia|lia|lia|done|].
      assert (Hgt : (length (readers w1) <=? 1)%nat = false) by (apply Nat.leb_gt; rewrite Hr; lia).
      assert (wp (if (length (readers w1) <=? 1)%nat then mret (Err e) else do_readv_loop true now sub (length (readers w1) - 1) id)
        (okb (λ r w', r = Ok tt ∧ sent_to_one id w1 w')) w1) as Hl.
      { rewrite Hgt. apply (do_readv_loop_finds sub _ id w1 d ((Z.of_nat j - next_reader w - 1) `mod` n)); try done.
        - by rewrite Hr.
        - by rewrite Hr, Hpr.
        - rewrite Hr. lia.
        - rewrite Hr, Hpr. fold n. rewrite Hmod, Nat2Z.id. done. }
      destruct e; try (by destruct (Hno _ _ He)); (eapply (okb_bind bad _ _ _ _ w1); [exact Hl|]);
        intros r2 w2 (-> & d' & Hd' & Ho2 & Hc2); apply wp_ret; exists d'; rewrite Hr in Hd';
        (split_and!; [done|by rewrite Ho2, Ho|by rewrite Hc2, Hc1]). }
  all: apply wp_ret; exists dev; split_and!; [by eapply list_elem_of_lookup_2|done|done].
Qed.

(** *** Runs *)

(** The children of a nexus a channel is made for: each is open, or has a log, or
    needs a full rebuild. *)
Record start_ok (cs : list (NexusChild L)) : Prop := {
  so_wfc : Forall wfc cs;
  so_state : Forall (λ c, excluded c ∨ state c = Open ∨ has_io_log c = true) cs;
  so_devices : NoDup (devices_of cs);
  so_length : (length cs < 128)%nat;
}.

Lemma connect_jobs h w : rebuild_jobs (connect_children now h w) = rebuild_jobs w.
Proof. unfold connect_children. by repeat case_match. Qed.

Lemma new_good_start h cs jobs :
  start_ok cs → good (new now h cs jobs) ∧ starved (new now h cs jobs) = [] ∧
  ∀ n, n ∈ bypassed (new now h cs jobs) → at_risk (new now h cs jobs) n.
Proof.
  intros []. unfold new. set (w0 := set_io_logs _ _).
  assert (Hb : base w0).
  { assert (Hb0 : base (mkWorld cs jobs Success false [] [] [] [] [] 0 Normal [] ∅ [] [] [] []))
      by (split; try done; [simpl; lia|simpl; set_solver]).
    split; try done; [simpl; lia|]. intros c Hc Hin. left. by eapply (io_log_channels_spec _ _ Hb0). }
  destruct (connect_children_spec h w0 Hb) as (Hq & Hl & Hy & Hb1 & Hc1). set (w1 := connect_children now h w0) in *.
  assert (same_bios w0 (bypass (overlooked w1) w1)) as Hs by apply Hq.
  assert (later w0 (bypass (overlooked w1) w1)) as Hla by (destruct (quiet_later _ _ Hq); split; [simpl; set_solver|done]).
  split; [|split; [by rewrite (same_bios_starved _ _ Hs)|]].
  2:{ simpl. rewrite Hy. intros n Hn%elem_of_app. destruct Hn as [?%elem_of_nil|Hn]; [done|].
      unfold overlooked in Hn. apply list_elem_of_fmap in Hn as (c' & -> & [(Hlo & Hno & _) Hc']%list_elem_of_filter).
      destruct (Hc1 c' Hc') as (c & Hc & Hg & Hlg & _). rewrite Hl in Hno.
      destruct (left_out_rebuilding w0 c Hc) as [Hj Hsy]; [unfold has_io_log in *; by rewrite <- Hlg|by rewrite <- (g_name _ _ Hg)|].
      rewrite <- (g_name _ _ Hg) in Hj. rewrite <- (g_sync _ _ Hg) in Hsy. split; [|by exists c'].
      change (name c' ∈ rebuild_jobs w1). unfold w1. by rewrite connect_jobs. }
  split; [split; [by destruct Hb1|]|].
  - intros c' Hc'. right. destruct (Hc1 c' Hc') as (c & Hc & Hg & _ & Hhe).
    destruct (decide (has_io_log c' = true)) as [Hl'|Hl'%not_true_is_false].
    + unfold handled. simpl. destruct (with_log_handled w1 c' Hb1 Hc' Hl') as [?|[?|?]]; [auto 6|set_solver|auto 6].
    + assert (has_io_log c = false) as Hl0 by (destruct (has_io_log c) eqn:E; [by rewrite (g_has_log _ _ Hg) in Hl'|done]).
      eapply (handled_same w1); [|done|done|simpl; set_solver].
      destruct (proj1 (Forall_forall _ _) so_state0 c Hc) as [?|[Ho|?]]; [left; by apply (g_excluded _ _ Hg)| |congruence].
      destruct (open_unlogged c Ho Hl0) as [?|Hhc]; [left; by apply (g_excluded _ _ Hg)|].
      eapply connect_handled; [by apply Hhe|done..].
  - intros id. eapply (io_ok_same w0); [by apply same_bios_io|done|].
    unfold io_ok. simpl. by rewrite lookup_empty.
Qed.

Lemma good_io w id b : good w → bios w !! id = Some b → in_range b ∧ phase w id b.
Proof. intros [_ Hi] Hb. specialize (Hi id). unfold io_ok in Hi. by rewrite Hb in Hi. Qed.

End NxFacts.

(** *** Reachable worlds *)

Section Reachable.
Context {L : Type} `{!IoLogOps L, !IoLogLaws L}.
Variables (core data_ent_offset now limit : Z) (dev_of : string → string).
Hypothesis Hcore : core ∈ il_cores.
Implicit Types (w : World L) (c : NexusChild L).

(** A child that is out of sync has its log still, or the channel has the
    log of a child that has none any more. *)
Definition stale w : Prop :=
  ∃ c, c ∈ children w ∧
    (sync_state c = OutOfSync ∧ has_io_log c = true ∨ name c ∈ io_logs w ∧ has_io_log c = false).

Lemma good_stale w : good core data_ent_offset limit dev_of True w → good core data_ent_offset limit dev_of (stale w) w.
Proof.
  intros [[[Hw ? ? ? _] Hh] Hi]. split; [split; [split; try done|done]|done].
  - apply Forall_forall. intros c Hc. destruct (proj1 (Forall_forall _ _) Hw c Hc) as [? ? _]. split; [done|done|].
    intros. exists c. auto.
  - intros c Hc Hin. destruct (has_io_log c) eqn:E; [by left|right]. exists c. auto.
Qed.

(** Why a child was bypassed in a run: at the start or before some event it was
    at risk, or its device was detached while it was healthy and had no log. *)
Definition was_bypassed w0 (evs : list event) (n : string) : Prop :=
  at_risk w0 n ∨
  ∃ evs1 ev evs2 w1, evs = evs1 ++ ev :: evs2 ∧ reaches core true data_ent_offset now w0 evs1 w1 ∧ bypasses ev w1 n.

Lemma was_bypassed_more w0 evs ev n : was_bypassed w0 evs n → was_bypassed w0 (evs ++ [ev]) n.
Proof.
  intros [?|(evs1 & ev1 & evs2 & w1 & -> & ? & ?)]; [by left|right].
  exists evs1, ev1, (evs2 ++ [ev]), w1. split; [by rewrite <- app_assoc|done].
Qed.

Lemma reaches_good w0 evs w :
  good core data_ent_offset limit dev_of True w0 → (∀ n, n ∈ bypassed w0 → at_risk w0 n) →
  reaches core true data_ent_offset now w0 evs w → Forall (ev_ok data_ent_offset limit dev_of) evs →
  good core data_ent_offset limit dev_of True w ∧ (Forall (λ ev, no_buffer ev = false) evs → starved w = starved w0) ∧
  ∀ n, n ∈ bypassed w → was_bypassed w0 evs n.
Proof using Hcore.
  intros H0 Hb0. induction 1 as [|evs w ev w' Hr IH Hx]; intros Hev; [split_and!; [done|done|by left; auto]|].
  apply Forall_app in Hev as [Hevs [Hev _]%Forall_cons]. destruct (IH Hevs) as (Hg & Hst & Hby).
  destruct (exec_spec _ _ _ _ _ True Hcore _ _ _ _ Hg Hev Hx I) as (Hg' & Hst' & Hby').
  split_and!; [done| |].
  - intros [? [Hb _]%Forall_cons]%Forall_app. rewrite Hst' by done. auto.
  - intros n Hn. destruct (Hby' n Hn) as [?|?]; [by apply was_bypassed_more, Hby|]. right. by exists evs, ev, [], w.
Qed.
End Reachable.
End NxFacts.
