(* ===== verification/NexusIoProps.v ===== *)
(** * Properties of nexus I/O

    What clients of a nexus can rely on: I/Os complete exactly once, an
    acknowledged write is on every child that counts or in the I/O log of the
    child that missed it, and reads are retried on all readers. *)

From S2P Require Import Prelude Wp Errors SegmentMap IoLog NexusChild NexusIo NexusIoFacts.
Import Child Nx NxFacts.

(** The end of a sequence of events, none of which fails. *)
Fixpoint run_events {L} `{!IoLogOps L} (core : Z) (pr : bool) (deo now : Z) (evs : list (Nx.event))
    (w : Nx.World L) : option (Nx.World L) :=
  match evs with
  | [] => Some w
  | ev :: evs =>
      match Nx.exec core pr deo now ev w with
      | Some (w', Ok tt) => run_events core pr deo now evs w'
      | _ => None
      end
  end.

Lemma run_events_reaches {L} `{!IoLogOps L} core pr deo now w0 evs0 w evs w' :
  Nx.reaches core pr deo now w0 evs0 w → run_events core pr deo now evs w = Some w' →
  Nx.reaches core pr deo now w0 (evs0 ++ evs) w'.
Proof.
  revert evs0 w. induction evs as [|ev evs IH]; intros evs0 w Hr; simpl.
  { intros [= <-]. by rewrite app_nil_r. }
  destruct (Nx.exec core pr deo now ev w) as [[w1 [[]| |]]|] eqn:E; try done.
  intros Hrun. rewrite (cons_middle ev). rewrite app_assoc. eapply IH; [|done].
  by econstructor.
Qed.

Lemma run_events_app {L} `{!IoLogOps L} core pr deo now evs evs' (w : Nx.World L) :
  run_events core pr deo now (evs ++ evs') w =
  run_events core pr deo now evs w ≫= run_events core pr deo now evs'.
Proof.
  revert w. induction evs as [|ev evs IH]; intros w; [done|]. simpl.
  destruct (Nx.exec core pr deo now ev w) as [[w1 [[]| |]]|]; try done.
Qed.

Module NxProps.
Section NxProps.
Context {L : Type} `{!IoLogOps L, !IoLogLaws L}.
Variables (core data_ent_offset now limit : Z) (dev_of : string → string).
Hypothesis Hcore : core ∈ il_cores.
Variables (h : string → bool) (cs : list (NexusChild L)) (jobs : list string).
Hypothesis Hstart : start_ok limit dev_of True cs.

(** The world after some events on a new channel. *)
Variables (evs : list Nx.event) (w : Nx.World L).
Hypothesis Hrun : Nx.reaches core true data_ent_offset now (Nx.new now h cs jobs) evs w.
Hypothesis Hevs : Forall (ev_ok data_ent_offset limit dev_of) evs.

Lemma run_good :
  good core data_ent_offset limit dev_of True w ∧
  (Forall (λ ev, no_buffer ev = false) evs → starved w = []) ∧
  ∀ n, n ∈ Nx.bypassed w → was_bypassed core data_ent_offset now (Nx.new now h cs jobs) evs n.
Proof using Hcore Hstart Hrun Hevs.
  destruct (new_good_start core data_ent_offset now limit dev_of True Hcore h cs jobs Hstart) as (Hg & Hs & Hb).
  rewrite <- Hs. by eapply reaches_good.
Qed.

(** C5. Every nexus I/O is at any time in exactly one place: once in the queue
    of frozen I/Os, once waiting for a buffer, out at some child devices, or
    completed to the client exactly once, not counting completions for lack of
    memory.  So no I/O is lost, whatever the order and the results of the child
    I/Os, faults, detaches, reconnections and freezes, and whatever becomes of
    the children; and none is completed twice as long as buffers are there when
    asked for.  (A read that gets no buffer is completed for lack of memory and
    goes on all the same, [buffer_failure_completes_read_twice].)  The nexus has
    fewer than 128 children, writes are within every child, and devices can be
    logged: they have a name, blocks, and fewer than 2^64 bytes. *)
Theorem nexus_io_completes_once (id : nat) (b : Nx.NioCtx) :
  Nx.bios w !! id = Some b →
  (length (filter (λ i, i = id) (Nx.frozen_ios w)) + length (filter (λ i, i = id) (Nx.wait_buf w)) +
   (if decide (filter (λ p, p.1 = id) (Nx.outstanding w) = []) then 0 else 1) +
   length (filter (λ p, p.1 = id ∧ no_mem p.2 = false) (Nx.completed w)) = 1)%nat ∧
  (Forall (λ ev, no_buffer ev = false) evs → ∀ r, (id, r) ∈ Nx.completed w → no_mem r = false).
Proof using Hcore Hstart Hrun Hevs.
  intros Hb. destruct run_good as (Hg & Hs & _). split.
  - destruct (good_io _ _ _ _ _ _ _ _ Hg Hb) as [_ Hp]. unfold phase, queued, outs, results in Hp.
    destruct Hp as [([[= -> ->]|[[= -> ->] _]] & Ho%fmap_nil_inv & Hr%fmap_nil_inv & _)|
      [([= -> ->] & Ho & Hr%fmap_nil_inv & _)|([= -> ->] & Ho%fmap_nil_inv & r & Hr & _)]].
    + by rewrite decide_True, Hr.
    + by rewrite decide_True, Hr.
    + rewrite decide_False, Hr; [done|]. intros E. by rewrite E in Ho.
    + rewrite decide_True by done. apply (f_equal length) in Hr. rewrite length_fmap in Hr. by rewrite Hr.
  - intros Hev r Hin. destruct (no_mem r) eqn:E; [|done]. exfalso. specialize (Hs Hev).
    assert (id ∈ starved w) as Hst; [|rewrite Hs in Hst; by apply not_elem_of_nil in Hst].
    apply list_elem_of_fmap. exists (id, r). split; [done|]. by apply list_elem_of_filter.
Qed.

(** A write that was acknowledged, or is out without a failure so far, went to a
    child that matters, or is in its log, or the child was bypassed. *)
Lemma write_covered (id : nat) (b : Nx.NioCtx) (c : NexusChild L) :
  Nx.bios w !! id = Some b →
  (id, BioOk) ∈ Nx.completed w ∨ (∃ d, (id, d) ∈ Nx.outstanding w) ∧ Nx.failed b = 0 →
  is_write_like (Nx.io_type b) = true → c ∈ Nx.children w →
  in_range data_ent_offset limit b ∧ ((id, BioOk) ∈ Nx.completed w → Nx.targets b ≡ₚ Nx.oks b) ∧
  (excluded c ∨ dev_of (name c) ∈ Nx.targets b ∨ logged limit c (ev_of core data_ent_offset b) ∨
   name c ∈ Nx.bypassed w ∧ was_bypassed core data_ent_offset now (Nx.new now h cs jobs) evs (name c)).
Proof using Hcore Hstart Hrun Hevs.
  intros Hb Hin Hw Hc. destruct run_good as (Hg & _ & Hby). destruct (good_io _ _ _ _ _ _ _ _ Hg Hb) as [Hr Hp].
  assert (Hcov : ∀ ts, covers core data_ent_offset limit dev_of (Nx.children w) (Nx.bypassed w) b ts → ts ≡ₚ Nx.targets b →
    excluded c ∨ dev_of (name c) ∈ Nx.targets b ∨ logged limit c (ev_of core data_ent_offset b) ∨
    name c ∈ Nx.bypassed w ∧ was_bypassed core data_ent_offset now (Nx.new now h cs jobs) evs (name c)).
  { intros ts Ht E. destruct (Ht Hw c Hc) as [?|[?|[Hd|?]]]; auto 6. right. left. by rewrite <- E. }
  assert (Hres : (id, BioOk) ∈ Nx.completed w → BioOk ∈ results w id)
    by (intros ?; apply list_elem_of_fmap; exists (id, BioOk); split; [done|by apply list_elem_of_filter]).
  assert (Hout : ∀ d, (id, d) ∈ Nx.outstanding w → d ∈ outs w id)
    by (intros d ?; apply list_elem_of_fmap; exists (id, d); split; [done|by apply list_elem_of_filter]).
  split; [done|]. destruct Hp as [(_ & Eo & Er & _)|[(_ & _ & Er & Hro)|(_ & Eo & r & Er & Hok)]]; rewrite Er in Hres.
  - exfalso. destruct Hin as [?%Hres%elem_of_nil|[[d ?%Hout] _]]; [done|]. rewrite Eo in *. set_solver.
  - split; [by intros ?%Hres%elem_of_nil|]. destruct Hin as [?%Hres%elem_of_nil|[_ Hf]]; [done|].
    destruct Hro as (fs & se & _ & _ & _ & _ & _ & Hc0). by eapply Hcov; [apply Hc0|].
  - assert (r = BioOk → acked_ok core data_ent_offset limit dev_of (Nx.children w) (Nx.bypassed w) b) as Hok' by done.
    destruct Hin as [Hin|[[d ?%Hout] _]]; [|rewrite Eo in *; set_solver].
    apply Hres, list_elem_of_singleton in Hin as Hr'. destruct (Hok' (eq_sym Hr')) as [Ht Hcv]. by split; [|eapply Hcov].
Qed.

(** C4. A write the nexus acknowledged has succeeded on every device it was
    sent to in its last round, and every child either is among them, or has the
    write in its I/O log, or is not expected to have it: it has no log and is out
    of sync or without a device, or it is in sync and cannot be brought back
    ([excluded]); or it was bypassed: its device was detached while it was healthy
    and had no log, which a self-shutdown does, or the channel reconnected its logs
    and left out that of the child, for which there was a rebuild job, without
    writing to its device ([Nx.overlooked]).  Devices may be detached at any time,
    children be faulted, closed, removed and brought back, and rebuild jobs be
    started and fail; no rebuild completes in the run, and the list of children
    stays.  Partial rebuild is enabled; the nexus has fewer than 128 children,
    writes are within every child, devices can be logged, and a child that is
    brought back has a device of the same name. *)
Theorem acked_write_is_on_every_child (id : nat) (b : Nx.NioCtx) (c : NexusChild L) :
  Nx.bios w !! id = Some b → (id, BioOk) ∈ Nx.completed w →
  is_write_like (Nx.io_type b) = true → c ∈ Nx.children w →
  Nx.targets b ≡ₚ Nx.oks b ∧
  (excluded c ∨ dev_of (name c) ∈ Nx.oks b ∨ logged limit c (ev_of core data_ent_offset b) ∨
   name c ∈ Nx.bypassed w ∧ was_bypassed core data_ent_offset now (Nx.new now h cs jobs) evs (name c)).
Proof using Hcore Hstart Hrun Hevs.
  intros Hb Hin Hw Hc. destruct (write_covered id b c) as (_ & Ht & H); auto. split; [by apply Ht|].
  by rewrite <- (Ht Hin).
Qed.

(** C6. An event makes the nexus panic only if, before it, a child that is out of
    sync has its log still, which faulting the child runs into, or the channel
    holds the log of a child that has none any more, which writes run into; else
    it succeeds.  Starting a log finds a device it can log, and logging finds the
    channel of its core.  The nexus has fewer than 128 children, writes are within
    every child, devices can be logged, and creating and opening a device for a
    child that is brought back does not panic. *)
Theorem nexus_io_panics_only_when_stale (ev : Nx.event) (w' : Nx.World L) (o : outcome CoreError unit) :
  ev_ok data_ent_offset limit dev_of ev →
  Nx.exec core true data_ent_offset now ev w = Some (w', o) → o = Ok tt ∨ o = Panicked ∧ stale w.
Proof using Hcore Hstart Hrun Hevs.
  intros Hev Hx. destruct run_good as (Hg%good_stale & _ & _).
  pose proof (exec_spec _ _ _ _ _ _ Hcore _ _ _ _ Hg Hev Hx) as H. destruct o as [[]|e|]; [by left|done|by right].
Qed.

(** A read is failed to the client only when every reader refuses it: if
    some reader takes reads, the rotation gets to it, and the read ends up at
    exactly one reader. *)
Theorem read_tries_every_reader (sub : nat → string → outcome CoreError unit) (id : nat) (d : string) :
  0 ≤ Nx.previous_reader w → d ∈ Nx.readers w →
  (∀ k, sub k d = Ok tt) → (∀ k d', sub k d' ≠ Err NoDevicesAvailable) →
  (∃ w' d', Nx.do_readv true now sub id w = (w', Ok tt) ∧ d' ∈ Nx.readers w ∧
    Nx.outstanding w' = Nx.outstanding w ++ [(id, d')] ∧ Nx.completed w' = Nx.completed w) ∨
  stale w ∧ snd (Nx.do_readv true now sub id w) = Panicked.
Proof using Hcore Hstart Hrun Hevs.
  intros H0 Hd Hs Hn. destruct run_good as (Hg%good_stale & _ & _). destruct Hg as [Hp _].
  pose proof (do_readv_finds core now limit dev_of _ Hcore sub id w d Hp H0 Hd Hs Hn) as H. unfold wp in H.
  destruct (Nx.do_readv true now sub id w) as [w' [[]|e|]]; [|done|by right]. left. destruct H as (d' & ? & ? & ?). eauto 6.
Qed.

End NxProps.

(** C3. With the I/O log of the repository: when the log of a child that is to be
    rebuilt is stopped, the rebuild map marks every block of every write that the
    child missed, so a partial rebuild from the map copies it: the write was
    acknowledged, or is out without a failure so far, and was not sent to the
    child.  Except if the child was bypassed: its device was detached while it was
    healthy and had no log, or the channel reconnected its logs and left out that of
    the child, for which there was a rebuild job, without writing to its device
    ([Nx.overlooked]; [early_reconnect_loses_write]).  The run is
    one of all events of the data plane and of children and rebuild jobs, in which
    no rebuild completes; partial rebuild is enabled, the nexus has fewer than 128
    children, writes are within every child, devices can be logged, and a child
    that is brought back has a device of the same name. *)
Theorem missed_writes_are_dirty {B} `{!BitVec B, !BitVecLaws B} (SEGMENT_SIZE : Z) (cores : list Z)
    (HSEG : 0 < SEGMENT_SIZE < 2^64)
    (core data_ent_offset now limit : Z) (dev_of : string → string) (h : string → bool)
    (cs : list (NexusChild (IOLog.IOLog B))) (jobs : list string) (evs : list Nx.event)
    (w : Nx.World (IOLog.IOLog B)) (id : nat) (b : Nx.NioCtx) (c : NexusChild (IOLog.IOLog B)) (l : IOLog.IOLog B) :
  let LO := IoLogImpl.ops SEGMENT_SIZE cores in
  let LL := IoLogImpl.laws SEGMENT_SIZE cores HSEG in
  core ∈ cores → start_ok limit dev_of True cs →
  Nx.reaches core true data_ent_offset now (Nx.new now h cs jobs) evs w →
  Forall (ev_ok data_ent_offset limit dev_of) evs →
  Nx.bios w !! id = Some b → is_write_like (Nx.io_type b) = true →
  (id, BioOk) ∈ Nx.completed w ∨ (∃ d, (id, d) ∈ Nx.outstanding w) ∧ Nx.failed b = 0 →
  c ∈ Nx.children w → io_log c = Some l → sync_state c = OutOfSync → dev_of (name c) ∉ Nx.targets b →
  name c ∈ Nx.bypassed w ∧ was_bypassed core data_ent_offset now (Nx.new now h cs jobs) evs (name c) ∨
  ∃ m, stop_io_log (E := CoreError) (@IOLog.finalize B _ CoreError) c = (set_io_log None c, Ok (Some m)) ∧
    ∀ blk, Nx.effective_offset data_ent_offset b ≤ blk <
             Nx.effective_offset data_ent_offset b + Nx.num_blocks b →
      @RMap.is_blk_clean B _ CoreError m blk = Ok false.
Proof.
  intros LO LL Hcore Hstart Hrun Hevs Hb Hw Hin Hc Hl Hsync Hmiss.
  destruct (@write_covered _ LO LL core data_ent_offset now limit dev_of Hcore h cs jobs Hstart evs w Hrun Hevs id b c)
    as (Hr & _ & [Hex|[?|[Hlog|?]]]); try done; [| |by left].
  { exfalso. unfold excluded, has_io_log in Hex. rewrite Hl, Hsync in Hex. by destruct Hex as [[? _]|[? _]]. }
  destruct Hlog as (l' & hist & nb & Hl' & Hh & Hnb & He). rewrite Hl in Hl'. injection Hl' as <-. right.
  destruct (Hr Hw) as (? & ? & ?). set (o := Nx.effective_offset data_ent_offset b) in *.
  assert (Hne : cores ≠ []) by (by destruct cores; [apply not_elem_of_nil in Hcore|]).
  destruct (IoLogImpl.finalize_dirty SEGMENT_SIZE cores HSEG l hist nb core
    (Nx.io_type b) o (Nx.num_blocks b) o Hh Hne He Hw ltac:(lia)) as (m & Hm & _).
  exists m. split; [unfold stop_io_log; rewrite Hl, Hm; done|]. intros blk Hblk.
  destruct (IoLogImpl.finalize_dirty SEGMENT_SIZE cores HSEG l hist nb core
    (Nx.io_type b) o (Nx.num_blocks b) blk Hh Hne He Hw Hblk) as (m' & Hm' & Hd').
  rewrite Hm in Hm'. injection Hm' as <-. exact Hd'.
Qed.

End NxProps.

(** ** Runs of a nexus with two children *)

Module NxSample.

Local Instance log_ops : IoLogOps (IOLog.IOLog (list bool)) := IoLogImpl.ops 4096 [0; 1].
Local Instance log_laws : IoLogLaws (IOLog.IOLog (list bool)) :=
  IoLogImpl.laws 4096 [0; 1] (conj eq_refl eq_refl).

Lemma core_1 : 1 ∈ @il_cores _ _ log_laws.
Proof. right. left. Qed.

Definition child (nm dev : string) : NexusChild (IOLog.IOLog (list bool)) :=
  mkChild "nexus" Open Synced DestroyNone None [] nm (Some (mkBlockDevice dev "nvme" 51200 100 512))
    true None.

Definition kids := [child "a" "da"; child "b" "db"].

Definition accept : nat → string → outcome CoreError unit := λ _ _, Ok tt.

(** Child [b] fails a write and is detached; the write is resubmitted. *)
Definition write_with_fault : list Nx.event :=
  [EvNew 0 IoWrite 10 3 false accept; EvChild 1 (NvmeError Generic_ABORTED_SQ_DELETION) accept;
   EvDetach "db"; EvChild 0 Success accept; EvChild 0 Success accept].

Definition start : Nx.World (IOLog.IOLog (list bool)) := Nx.new 7 (λ _, true) kids [].

(** The device of a child *)
Definition dev_of (n : string) : string := "d" +:+ n.

Lemma start_kids : start_ok 100 dev_of True kids.
Proof.
  assert (Hw : ∀ nm, wfc 100 dev_of True (child nm (dev_of nm))).
  { intros nm. split; [|done|done]. intros d [= <-]. simpl. split_and!; try done. }
  assert (Hall : ∀ P : NexusChild _ → Prop, P (child "a" "da") → P (child "b" "db") → Forall P kids)
    by (intros; by apply Forall_cons; split; [|apply Forall_cons]).
  split; [apply Hall; apply (Hw _)|apply Hall; by right; left| |simpl; lia].
  by apply (bool_decide_unpack _).
Qed.

Definition end_world : Nx.World (IOLog.IOLog (list bool)) :=
  default start (run_events 1 true 0 7 write_with_fault start).

Lemma end_run : Nx.reaches 1 true 0 7 start write_with_fault end_world.
Proof.
  apply (run_events_reaches 1 true 0 7 start [] start write_with_fault end_world);
    [constructor|by vm_compute].
Qed.

Lemma evs_in_range : Forall (ev_ok 0 100 dev_of) write_with_fault.
Proof. repeat constructor; simpl; vm_compute; done. Qed.

Definition end_bio : Nx.NioCtx := default (Nx.new_bio IoRead 0 0 false) (Nx.bios end_world !! 0%nat).

Lemma nexus_io_completes_once_witness :
  Nx.bios end_world !! 0%nat = Some end_bio ∧
  (length (filter (λ i, i = 0%nat) (Nx.frozen_ios end_world)) +
   length (filter (λ i, i = 0%nat) (Nx.wait_buf end_world)) +
   (if decide (filter (λ p, p.1 = 0%nat) (Nx.outstanding end_world) = []) then 0 else 1) +
   length (filter (λ p, p.1 = 0%nat ∧ no_mem p.2 = false) (Nx.completed end_world)) = 1)%nat ∧
  ∀ r, (0%nat, r) ∈ Nx.completed end_world → no_mem r = false.
Proof.
  assert (Hb : Nx.bios end_world !! 0%nat = Some end_bio) by (vm_compute; reflexivity).
  split; [exact Hb|].
  destruct (@NxProps.nexus_io_completes_once _ _ log_laws 1 0 7 100 dev_of core_1
    (λ _, true) kids [] start_kids write_with_fault end_world end_run evs_in_range 0%nat end_bio Hb) as [H1 H2].
  split; [exact H1|]. apply H2. by repeat constructor.
Defined.

Definition child_b : NexusChild (IOLog.IOLog (list bool)) :=
  default (child "b" "db") (Nx.children end_world !! 1%nat).

Lemma end_facts :
  Nx.bios end_world !! 0%nat = Some end_bio ∧ (0%nat, BioOk) ∈ Nx.completed end_world ∧
  is_write_like (Nx.io_type end_bio) = true ∧ child_b ∈ Nx.children end_world ∧
  Nx.oks end_bio = ["da"].
Proof.
  assert (E : Nx.completed end_world = [(0%nat, BioOk)]) by (vm_compute; reflexivity).
  split; [vm_compute; reflexivity|]. split; [rewrite E; left|].
  split; [vm_compute; reflexivity|]. split; [|vm_compute; reflexivity].
  apply (list_elem_of_lookup_2 _ 1). vm_compute. reflexivity.
Qed.

Lemma acked_write_is_on_every_child_witness :
  Nx.targets end_bio ≡ₚ Nx.oks end_bio ∧ logged 100 child_b (ev_of 1 0 end_bio).
Proof.
  destruct end_facts as (Hb & Hin & Hw & Hc & Ho).
  destruct (@NxProps.acked_write_is_on_every_child _ _ log_laws 1 0 7 100 dev_of core_1
    (λ _, true) kids [] start_kids write_with_fault end_world end_run evs_in_range
    0%nat end_bio child_b Hb Hin Hw Hc) as [Ht [Hex|[Hd|[Hl|[Hby _]]]]].
  - exfalso. destruct Hex as [(_ & _ & H)|[H _]]; vm_compute in H; discriminate.
  - exfalso. rewrite Ho in Hd. apply list_elem_of_singleton in Hd. vm_compute in Hd. discriminate.
  - split; [exact Ht|exact Hl].
  - exfalso. assert (E : Nx.bypassed end_world = []) by (vm_compute; reflexivity).
    rewrite E in Hby. by apply not_elem_of_nil in Hby.
Defined.

Lemma nexus_io_panics_only_when_stale_witness :
  ∃ w', Nx.exec 1 true 0 7 (EvFault "da" TimedOut true) end_world = Some (w', Ok tt).
Proof.
  destruct (Nx.exec 1 true 0 7 (EvFault "da" TimedOut true) end_world) as [[w' o]|] eqn:E;
    [|exfalso; vm_compute in E; discriminate].
  exists w'.
  destruct (@NxProps.nexus_io_panics_only_when_stale _ _ log_laws 1 0 7 100 dev_of core_1
    (λ _, true) kids [] start_kids write_with_fault end_world end_run evs_in_range
    (EvFault "da" TimedOut true) w' o I E) as [->|[-> _]]; [reflexivity|].
  exfalso. vm_compute in E. discriminate.
Defined.

(** The device of [b] is back: [b] is brought back and is to be rebuilt, the channel
    is reconfigured, and the log of [b] is about to be stopped. *)
Definition back_again : list Nx.event :=
  write_with_fault ++
  [EvOnline "b" (Ok "db") (λ _, Some (mkBlockDevice "db" "nvme" 51200 100 512)) (Ok tt) 51200;
   EvNew 1 IoWrite 20 2 false accept; EvChild 0 Success accept; EvRebuild "b"; EvReconnect (λ _, true)].

Definition back_world : Nx.World (IOLog.IOLog (list bool)) :=
  default start (run_events 1 true 0 7 back_again start).

Lemma back_run : Nx.reaches 1 true 0 7 start back_again back_world.
Proof.
  apply (run_events_reaches 1 true 0 7 start [] start back_again back_world); [constructor|by vm_compute].
Qed.

Lemma back_in_range : Forall (ev_ok 0 100 dev_of) back_again.
Proof.
  apply Forall_app. split; [exact evs_in_range|]. apply Forall_cons. split.
  { split_and!; [done|done|]. intros _ d [= <-]. by split_and!. }
  by repeat constructor.
Qed.

(** No child was bypassed: the rebuild job is there before the log is stopped,
    but the channel writes to [b] by the time it leaves the log out. *)
Lemma back_not_bypassed : Nx.bypassed back_world = [].
Proof. by vm_compute. Qed.

Definition back_bio : Nx.NioCtx := default (Nx.new_bio IoRead 0 0 false) (Nx.bios back_world !! 1%nat).
Definition back_b : NexusChild (IOLog.IOLog (list bool)) := default (child "b" "db") (Nx.children back_world !! 1%nat).
Definition back_log : IOLog.IOLog (list bool) := default (IOLog.mkIOLog "" ∅) (io_log back_b).

Lemma missed_writes_are_dirty_witness :
  ∃ m, stop_io_log (E := CoreError) (@IOLog.finalize (list bool) _ CoreError) back_b = (set_io_log None back_b, Ok (Some m)) ∧
    @RMap.is_blk_clean (list bool) _ CoreError m 21 = Ok false.
Proof.
  destruct (@NxProps.missed_writes_are_dirty (list bool) _ _ 4096 [0; 1] (conj eq_refl eq_refl) 1 0 7 100 dev_of
    (λ _, true) kids [] back_again back_world 1%nat back_bio back_b back_log) as [H|(m & Hm & Hd)].
  - exact core_1.
  - exact start_kids.
  - exact back_run.
  - exact back_in_range.
  - vm_compute. reflexivity.
  - vm_compute. reflexivity.
  - left. assert (E : Nx.completed back_world = [(0%nat, BioOk); (1%nat, BioOk)]) by (vm_compute; reflexivity).
    rewrite E. right. left.
  - apply (list_elem_of_lookup_2 _ 1). vm_compute. reflexivity.
  - vm_compute. reflexivity.
  - vm_compute. reflexivity.
  - assert (E : Nx.targets back_bio = ["da"%string]) by (vm_compute; reflexivity). rewrite E.
    intros H%list_elem_of_singleton. vm_compute in H. discriminate.
  - exfalso. destruct H as [H _]. rewrite back_not_bypassed in H. by apply not_elem_of_nil in H.
  - exists m. split; [exact Hm|]. apply Hd. vm_compute. by split.
Defined.

(** A write whose submission fails on the first child is failed to the
    client although the other child is healthy and was never tried. *)
Theorem first_submission_error_fails_write :
  ∃ w, run_events 1 true 0 7
         [EvNew 0 IoWrite 10 3 false (λ _ d, if bool_decide (d = "da"%string) then Err NoDevicesAvailable else Ok tt)]
         start = Some w ∧
    Nx.completed w = [(0%nat, BioFail)] ∧ Nx.writers w = ["db"] ∧
    (is_healthy <$> Nx.children w !! 1%nat) = Some true.
Proof. eexists. split; [vm_compute; reflexivity|]. by vm_compute. Qed.

(** A read that gets no buffer is completed twice: once for lack of memory
    and once more when the read that is started nevertheless completes. *)
Theorem buffer_failure_completes_read_twice :
  ∃ w, run_events 1 true 0 7
         [EvNew 0 IoRead 10 3 true accept; EvBuf 0 false accept; EvChild 0 Success accept]
         start = Some w ∧
    Nx.completed w = [(0%nat, BioNoMem); (0%nat, BioOk)].
Proof. eexists. split; [vm_compute; reflexivity|]. by vm_compute. Qed.

(** The world while a write goes round, [r] times so far. *)
Definition going_round (r : Z) : Nx.World (IOLog.IOLog (list bool)) :=
  Nx.put_bio 0 (Nx.mkCtx IoWrite 10 3 false 2 StSuccess 0 0 r ["da"; "db"] [])
    (default start (run_events 1 true 0 7 [EvNew 0 IoWrite 10 3 false accept] start)).

Definition bad_round : list Nx.event :=
  [EvChild 1 (NvmeError Generic_INVALID_OPCODE) accept; EvChild 0 Success accept].

Lemma bad_round_loops r : run_events 1 true 0 7 bad_round (going_round r) = Some (going_round (wrap8 (r + 1))).
Proof. vm_compute. reflexivity. Qed.

Lemma first_round :
  run_events 1 true 0 7 [EvNew 0 IoWrite 10 3 false accept] start = Some (going_round 0).
Proof. vm_compute. reflexivity. Qed.

(** A child that rejects a write with an invalid opcode is not retired: as
    long as it does and the other child accepts the write, the write is
    resubmitted to both and never completes. *)
Theorem invalid_opcode_never_completes (n : nat) :
  ∃ w, run_events 1 true 0 7
         (EvNew 0 IoWrite 10 3 false accept :: concat (replicate n bad_round)) start = Some w ∧
    Nx.completed w = [] ∧ Nx.retiring w = [] ∧ Nx.outstanding w = [(0%nat, "da"%string); (0%nat, "db"%string)].
Proof.
  assert (H : ∀ n r, ∃ r', run_events 1 true 0 7 (concat (replicate n bad_round)) (going_round r) = Some (going_round r')).
  { clear n. induction n as [|n IH]; intros r; [by exists r|].
    destruct (IH (wrap8 (r + 1))) as [r' Hr']. exists r'.
    change (concat (replicate (S n) bad_round)) with (bad_round ++ concat (replicate n bad_round)).
    rewrite run_events_app, bad_round_loops. exact Hr'. }
  destruct (H n 0) as [r' Hr']. exists (going_round r'). split; [|by vm_compute].
  etrans; [apply (run_events_app 1 true 0 7 [_])|]. rewrite first_round. exact Hr'.
Qed.

Lemma read_tries_every_reader_witness :
  let sub := λ (_ : nat) d, if bool_decide (d = "db"%string) then Ok tt else Err (InvalidOffset 0) in
  (∃ w' d', Nx.do_readv true 7 sub 0 start = (w', Ok tt) ∧ d' ∈ Nx.readers start ∧
    Nx.outstanding w' = Nx.outstanding start ++ [(0%nat, d')] ∧ Nx.completed w' = Nx.completed start) ∨
  stale start ∧ snd (Nx.do_readv true 7 sub 0 start) = Panicked.
Proof.
  intros sub. apply (@NxProps.read_tries_every_reader _ _ log_laws 1 0 7 100 dev_of core_1 (λ _, true) kids [] start_kids []
    start (Nx.reaches_init _ _ _ _ _) (Forall_nil_2 _) sub 0%nat "db").
  - by vm_compute.
  - change (Nx.readers start) with ["da"%string; "db"%string]. right. left.
  - done.
  - intros k d'. unfold sub. by case_bool_decide.
Defined.

(** Child [b] has been brought back with its log and a rebuild job has just been
    created for it; this channel has not been reconfigured yet: it still logs
    for [b] and does not write to it. *)
Definition log_b : IOLog.IOLog (list bool) :=
  match IOLog.new (E := CoreError) 4096 [0; 1] "db" 100 512 with Ok l => l | _ => IOLog.mkIOLog "" ∅ end.

Definition before_reconfigure : Nx.World (IOLog.IOLog (list bool)) :=
  Nx.mkWorld
    [child "a" "da"; set_io_log (Some log_b) (set_sync_state OutOfSync (child "b" "db"))]
    ["b"] Success false [] ["da"] ["da"] [] ["b"] 0 Normal [] ∅ [] [] [] [].

(** If the I/O logs of a channel are reconnected between the creation of a
    rebuild job and the reconfiguration of that channel (another child has
    failed), the log of the child to be rebuilt is dropped too early: a write
    that is acknowledged then is neither sent to the child nor in its log. *)
Theorem early_reconnect_loses_write :
  ∃ w b, run_events 1 true 0 7
           [EvReconnectLogs; EvNew 0 IoWrite 10 3 false accept; EvChild 0 Success accept]
           before_reconfigure = Some w ∧
    Nx.completed w = [(0%nat, BioOk)] ∧ Nx.bios w !! 0%nat = Some b ∧ Nx.targets b = ["da"] ∧
    (io_log <$> Nx.children w !! 1%nat) = Some (Some log_b).
Proof. eexists _, _. split; [vm_compute; reflexivity|]. by vm_compute. Qed.

(** A self-shutdown detaches the devices of healthy children one after the other: a
    write that arrives in between is acknowledged though a healthy child has
    missed it, and is not logged. *)
Theorem self_shutdown_misses_write :
  ∃ w b, run_events 1 true 0 7
           [EvDetach "db"; EvDisconnect (λ _, true); EvNew 0 IoWrite 10 3 false accept; EvChild 0 Success accept] start = Some w ∧
    Nx.completed w = [(0%nat, BioOk)] ∧ Nx.bios w !! 0%nat = Some b ∧ Nx.targets b = ["da"] ∧
    (is_healthy <$> Nx.children w !! 1%nat) = Some true ∧ (io_log <$> Nx.children w !! 1%nat) = Some None ∧
    Nx.bypassed w = ["b"%string].
Proof. eexists _, _. split; [vm_compute; reflexivity|]. by vm_compute. Qed.

(** A child that was brought back with its log is faulted again before its rebuild
    has taken the log. *)
Theorem fault_of_onlined_child_panics :
  ∃ w, run_events 1 true 0 7 (take 6 back_again) start = Some w ∧ stale w ∧
    snd <$> Nx.exec 1 true 0 7 (EvFault "db" IoError true) w = Some Panicked.
Proof.
  eexists. split; [vm_compute; reflexivity|]. split; [|by vm_compute].
  eexists. split; [apply list_elem_of_lookup; exists 1%nat; reflexivity|]. left. by vm_compute.
Qed.

(** The child that is to be rebuilt is closed after the channel was reconfigured,
    and the channel takes its log again; once the log is stopped, a write
    panics. *)
Definition closed_before_stop : list Nx.event :=
  back_again ++ [EvClose "b"; EvRemoved "db"; EvReconnectLogs; EvStopLog "b"].

Theorem stopped_log_is_held :
  ∃ w, run_events 1 true 0 7 closed_before_stop start = Some w ∧ stale w ∧
    snd <$> Nx.exec 1 true 0 7 (EvNew 2 IoWrite 30 1 false accept) w = Some Panicked.
Proof.
  eexists. split; [vm_compute; reflexivity|]. split; [|by vm_compute].
  eexists. split; [apply list_elem_of_lookup; exists 1%nat; reflexivity|]. right. split; [left|by vm_compute].
Qed.

End NxSample.
