(* ===== verification/IoSubsystem.v ===== *)
(** * Pausing and resuming the nexus I/O subsystem

    [bdev/nexus/nexus_io_subsystem.rs]: calls of [suspend] and [resume] run
    concurrently on the first core and are cut at their await points: the call
    that pauses or resumes the NVMe subsystem, and the wait of a call that
    found the subsystem in transition. *)

From S2P Require Import Prelude Errors.

Module IoSub.

Inductive NexusPauseState := Unpaused | Pausing | Paused | Frozen | Unpausing.

#[global] Instance NexusPauseState_eq_dec : EqDecision NexusPauseState.
Proof. solve_decision. Defined.

Inductive Op := Suspend | Resume (freeze : bool).

(** Where a call is: waiting for [NvmfSubsystem::pause] or [resume], in the
    queue of waiters, or woken and about to look at the state again. *)
Inductive Pc := AwaitPause | AwaitResume | Waiting (op : Op) | Woken (op : Op).

(** [pauses] is ghost state: the calls of [suspend] that have returned and have
    not been matched by a call of [resume]. *)
Record NexusIoSubsystem := mkSub {
  pause_state : NexusPauseState;
  pause_waiters : list nat;
  pause_cnt : Z;
  calls : gmap nat Pc;
  pauses : nat;
}.

Definition new : NexusIoSubsystem := mkSub Unpaused [] 0 ∅ 0.

Definition set_pause_state (p : NexusPauseState) (s : NexusIoSubsystem) : NexusIoSubsystem :=
  mkSub p (pause_waiters s) (pause_cnt s) (calls s) (pauses s).
Definition set_waiters (l : list nat) (s : NexusIoSubsystem) : NexusIoSubsystem :=
  mkSub (pause_state s) l (pause_cnt s) (calls s) (pauses s).
Definition set_cnt (n : Z) (s : NexusIoSubsystem) : NexusIoSubsystem :=
  mkSub (pause_state s) (pause_waiters s) n (calls s) (pauses s).
Definition set_call (id : nat) (pc : Pc) (s : NexusIoSubsystem) : NexusIoSubsystem :=
  mkSub (pause_state s) (pause_waiters s) (pause_cnt s) (<[id := pc]> (calls s)) (pauses s).
Definition return_from (id : nat) (s : NexusIoSubsystem) : NexusIoSubsystem :=
  mkSub (pause_state s) (pause_waiters s) (pause_cnt s) (delete id (calls s)) (pauses s).
Definition set_pauses (n : nat) (s : NexusIoSubsystem) : NexusIoSubsystem :=
  mkSub (pause_state s) (pause_waiters s) (pause_cnt s) (calls s) n.

(** [oneshot::Sender::send] to a waiter. *)
Definition wake (id : nat) (s : NexusIoSubsystem) : NexusIoSubsystem :=
  match calls s !! id with
  | Some (Waiting op) => set_call id (Woken op) s
  | _ => s
  end.

(** Both functions end by waking the first waiter. *)
Definition resume_waiter (s : NexusIoSubsystem) : NexusIoSubsystem :=
  match pause_waiters s with
  | [] => s
  | w :: ws => wake w (set_waiters ws s)
  end.

Definition wait (id : nat) (op : Op) (s : NexusIoSubsystem) : NexusIoSubsystem :=
  set_call id (Waiting op) (set_waiters (pause_waiters s ++ [id]) s).

Definition suspend_return (id : nat) (s : NexusIoSubsystem) : NexusIoSubsystem :=
  set_pauses (S (pauses s)) (return_from id (resume_waiter s)).

(** The end of the branch that pauses: [Pausing] to [Paused]. *)
Definition mark_paused (id : nat) (s : NexusIoSubsystem) : outcome unit NexusIoSubsystem :=
  if bool_decide (pause_state s = Pausing)
  then Ok (suspend_return id (set_pause_state Paused s)) else Panicked.

(** [suspend] from the top of its loop; [shared]: there is an NVMe subsystem to
    pause. *)
Definition suspend (shared : bool) (id : nat) (s : NexusIoSubsystem) : outcome unit NexusIoSubsystem :=
  match pause_state s with
  | Unpaused =>
      let s1 := set_cnt (wrap32 (pause_cnt s + 1)) (set_pause_state Pausing s) in
      _ ← assert (pause_cnt s =? 0);
      if shared then Ok (set_call id AwaitPause s1) else mark_paused id s1
  | Paused | Frozen => Ok (suspend_return id (set_cnt (wrap32 (pause_cnt s + 1)) s))
  | Unpausing | Pausing => Ok (wait id Suspend s)
  end.

Definition resume_return (id : nat) (s : NexusIoSubsystem) : NexusIoSubsystem :=
  return_from id (resume_waiter s).

(** [resume] from the top of its loop; [present]: [nqn_lookup] finds the
    subsystem. *)
Definition resume (present freeze : bool) (id : nat) (s : NexusIoSubsystem) : outcome unit NexusIoSubsystem :=
  match pause_state s with
  | Unpaused => Ok (resume_return id s)
  | Pausing | Unpausing => Ok (wait id (Resume freeze) s)
  | Paused | Frozen =>
      let s1 := set_cnt (wrap32 (pause_cnt s - 1)) s in
      if negb (pause_cnt s =? 1) then Ok (resume_return id s1)
      else if bool_decide (pause_state s = Frozen) || freeze
      then Ok (resume_return id (set_pause_state Frozen s1))
      else if present then Ok (set_call id AwaitResume (set_pause_state Unpausing s1))
      else Ok (resume_return id (set_pause_state Unpaused s1))
  end.

(** The NVMe subsystem has answered. *)
Definition paused (id : nat) (r : outcome Errno unit) (s : NexusIoSubsystem) : outcome unit NexusIoSubsystem :=
  match r with
  | Ok _ | Err EPERM | Err ECANCELED => mark_paused id s
  | _ => Panicked
  end.

Definition resumed (id : nat) (r : outcome Errno unit) (s : NexusIoSubsystem) : outcome unit NexusIoSubsystem :=
  match r with
  | Ok _ | Err EPERM | Err ECANCELED => Ok (resume_return id (set_pause_state Unpaused s))
  | _ => Panicked
  end.

(** *** Transitions *)

Inductive event :=
| EvCall (id : nat) (op : Op) (shared : bool)
| EvWoken (id : nat) (shared : bool)
| EvAnswer (id : nat) (r : outcome Errno unit).

(** A call starts with a number of its own.  [resume] is called to give up a
    pause that was obtained with [suspend]. *)
Definition exec (ev : event) (s : NexusIoSubsystem) : option (outcome unit NexusIoSubsystem) :=
  match ev with
  | EvCall id op shared =>
      match calls s !! id, op with
      | None, Suspend => Some (suspend shared id s)
      | None, Resume freeze =>
          match pauses s with
          | O => None
          | S n => Some (resume shared freeze id (set_pauses n s))
          end
      | Some _, _ => None
      end
  | EvWoken id shared =>
      match calls s !! id with
      | Some (Woken Suspend) => Some (suspend shared id s)
      | Some (Woken (Resume freeze)) => Some (resume shared freeze id s)
      | _ => None
      end
  | EvAnswer id r =>
      match calls s !! id with
      | Some AwaitPause => Some (paused id r s)
      | Some AwaitResume => Some (resumed id r s)
      | _ => None
      end
  end.

Inductive reaches : list event → NexusIoSubsystem → Prop :=
| reaches_init : reaches [] new
| reaches_step evs s ev s' :
    reaches evs s → exec ev s = Some (Ok s') → reaches (evs ++ [ev]) s'.

(** *** Invariant *)

Definition in_transit (s : NexusIoSubsystem) : Prop :=
  ∃ id, calls s !! id = Some AwaitPause ∨ calls s !! id = Some AwaitResume.

Definition woken (s : NexusIoSubsystem) : Prop := ∃ id op, calls s !! id = Some (Woken op).

(** What each state means for the counter and for the calls under way. *)
Definition state_ok (s : NexusIoSubsystem) : Prop :=
  match pause_state s with
  | Unpaused => pause_cnt s = 0 ∧ pauses s = O ∧ ¬ in_transit s
  | Pausing => pause_cnt s = 1 ∧ pauses s = O ∧
      ∃ id, calls s !! id = Some AwaitPause ∧
        ∀ id', calls s !! id' = Some AwaitPause ∨ calls s !! id' = Some AwaitResume → id' = id
  | Paused => pause_cnt s = Z.of_nat (pauses s) ∧ (0 < pauses s)%nat ∧ ¬ in_transit s
  | Frozen => pause_cnt s = Z.of_nat (pauses s) ∧ ¬ in_transit s
  | Unpausing => pause_cnt s = 0 ∧ pauses s = O ∧
      ∃ id, calls s !! id = Some AwaitResume ∧
        ∀ id', calls s !! id' = Some AwaitPause ∨ calls s !! id' = Some AwaitResume → id' = id
  end.

(** Waiters are exactly the calls that wait; with calls of [resume] matched by
    calls of [suspend], only the latter wait. *)
Record waiters_ok (s : NexusIoSubsystem) : Prop := {
  i_waiters : ∀ id, id ∈ pause_waiters s ↔ ∃ op, calls s !! id = Some (Waiting op);
  i_nodup : NoDup (pause_waiters s);
  i_suspends : ∀ id op,
    calls s !! id = Some (Waiting op) ∨ calls s !! id = Some (Woken op) → op = Suspend;
}.

Record inv (s : NexusIoSubsystem) : Prop := {
  i_state : state_ok s;
  i_queue : waiters_ok s;
  i_wakeup : pause_waiters s ≠ [] → in_transit s ∨ woken s;
}.

(** [state_ok] depends on the calls only through those in transit. *)
Lemma state_ok_ext s s' :
  pause_state s' = pause_state s → pause_cnt s' = pause_cnt s → pauses s' = pauses s →
  (∀ id, (calls s' !! id = Some AwaitPause ↔ calls s !! id = Some AwaitPause) ∧
         (calls s' !! id = Some AwaitResume ↔ calls s !! id = Some AwaitResume)) →
  state_ok s → state_ok s'.
Proof.
  intros Hp Hc Hn Hcalls. unfold state_ok, in_transit. rewrite Hp, Hc, Hn.
  assert (Htr : (∃ id, calls s' !! id = Some AwaitPause ∨ calls s' !! id = Some AwaitResume) →
    ∃ id, calls s !! id = Some AwaitPause ∨ calls s !! id = Some AwaitResume).
  { intros [id Hid]. exists id. destruct (Hcalls id). tauto. }
  destruct (pause_state s).
  1,3,4: intros; destruct_and?; split_and!; auto.
  all: intros (? & ? & id & Hid & Hun); split_and!; try done; exists id;
    (split; [by apply Hcalls|]); intros id' Hid'; apply Hun; destruct (Hcalls id'); tauto.
Qed.

(** A call that is not a waiter returns, and wakes the first waiter. *)
Lemma return_inv id n s :
  state_ok (set_pauses n (return_from id s)) → waiters_ok s →
  (∀ op, calls s !! id ≠ Some (Waiting op)) →
  inv (set_pauses n (return_from id (resume_waiter s))).
Proof.
  intros Hst [Hw Hnd Hsu] Hid. unfold resume_waiter. destruct (pause_waiters s) as [|w ws] eqn:E.
  { split; [done| |simpl; by rewrite E].
    split; simpl; rewrite ?E.
    - intros id'. rewrite Hw. destruct (decide (id' = id)) as [->|].
      + rewrite lookup_delete_eq. split; [intros [op ?]; by destruct (Hid op)|by intros [? ?]].
      + by rewrite lookup_delete_ne.
    - constructor.
    - intros id' op. destruct (decide (id' = id)) as [->|]; [rewrite lookup_delete_eq; by intros [?|?]|].
      rewrite lookup_delete_ne by done. apply Hsu. }
  destruct (proj1 (Hw w)) as [op Hop]; [left|].
  assert (Hne : w ≠ id) by (intros ->; by destruct (Hid op)).
  unfold wake. simpl. rewrite Hop. apply NoDup_cons in Hnd as [Hnw Hnd].
  assert (Hlk : ∀ i pc, delete id (<[w:=Woken op]> (calls s)) !! i = Some pc ↔
    i ≠ id ∧ (i = w ∧ pc = Woken op ∨ i ≠ w ∧ calls s !! i = Some pc)).
  { intros i pc. rewrite lookup_delete_Some, lookup_insert_Some. naive_solver. }
  split.
  - eapply (state_ok_ext (set_pauses n (return_from id s))); try done. simpl. intros i.
    rewrite !Hlk, !lookup_delete_Some.
    split; (split; [intros (? & [[_ ?]|[_ ?]]); [done|by auto]|]);
      intros [? Hi]; (split; [done|right; split; [intros ->; congruence|done]]).
  - split; simpl.
    + intros i. split.
      * intros Hi. destruct (proj1 (Hw i)) as [op' Hop']; [by right|]. exists op'. apply Hlk.
        split; [intros ->; by destruct (Hid op')|]. right. split; [by intros ->|done].
      * intros [op' (Hi & [[_ ?]|[Hiw Hc]])%Hlk]; [done|].
        assert (Hin : i ∈ w :: ws) by (apply Hw; eauto). by apply elem_of_cons in Hin as [?|?].
    + done.
    + intros i op' [(_ & [[_ ?]|[_ ?]])%Hlk|(_ & [[_ ?]|[_ ?]])%Hlk]; simplify_eq; eauto.
  - intros _. right. exists w, op. simpl. apply Hlk. auto.
Qed.

Lemma resume_waiter_fields s :
  pauses (resume_waiter s) = pauses s ∧ pause_state (resume_waiter s) = pause_state s.
Proof.
  unfold resume_waiter, wake. destruct (pause_waiters s) as [|w ws]; [done|]. simpl.
  by destruct (calls s !! w) as [[]|].
Qed.

Lemma resume_return_inv id s :
  state_ok (return_from id s) → waiters_ok s → (∀ op, calls s !! id ≠ Some (Waiting op)) →
  inv (resume_return id s).
Proof.
  intros. unfold resume_return. pose proof (return_inv id (pauses s) s) as H2.
  assert (E : set_pauses (pauses s) (return_from id (resume_waiter s)) = return_from id (resume_waiter s)).
  { unfold resume_waiter, wake. destruct (pause_waiters s) as [|w ws]; [done|]. simpl.
    by destruct (calls s !! w) as [[]|]. }
  rewrite E in H2. by apply H2.
Qed.

(** The call [id] is in progress but neither waits nor is in transit. *)
Definition running (id : nat) (s : NexusIoSubsystem) : Prop :=
  calls s !! id = None ∨ ∃ op, calls s !! id = Some (Woken op).

Lemma running_not_waiting id s : running id s → ∀ op, calls s !! id ≠ Some (Waiting op).
Proof. intros [E|[op' E]] op; rewrite E; done. Qed.

(** Returning a running call changes no call in transit. *)
Lemma running_transit id s i :
  running id s →
  (delete id (calls s) !! i = Some AwaitPause ↔ calls s !! i = Some AwaitPause) ∧
  (delete id (calls s) !! i = Some AwaitResume ↔ calls s !! i = Some AwaitResume).
Proof.
  intros Hr. destruct (decide (i = id)) as [->|]; [|by rewrite lookup_delete_ne].
  rewrite lookup_delete_eq. destruct Hr as [E|[op E]]; rewrite E; by split; split.
Qed.

Lemma no_transit_return id s : running id s → ¬ in_transit s → ¬ in_transit (return_from id s).
Proof.
  intros Hr Hn [i Hi]. apply Hn. exists i. destruct (running_transit id s i Hr). simpl in Hi. tauto.
Qed.

(** Going into transit from a state without transit. *)
Lemma transit_inv id pc p n cnt s :
  running id s → ¬ in_transit s → waiters_ok s →
  (pc = AwaitPause ∧ p = Pausing ∧ cnt = 1 ∨ pc = AwaitResume ∧ p = Unpausing ∧ cnt = 0) → n = O →
  inv (set_call id pc (mkSub p (pause_waiters s) cnt (calls s) n)).
Proof.
  intros Hr Hn [Hw Hnd Hsu] Hpc ->. assert (Hnw : ∀ op, pc ≠ Waiting op ∧ pc ≠ Woken op)
    by (intros; by destruct Hpc as [(-> & _)|(-> & _)]).
  assert (Huniq : ∀ i, <[id:=pc]> (calls s) !! i = Some AwaitPause ∨
    <[id:=pc]> (calls s) !! i = Some AwaitResume → i = id).
  { intros i Hi. destruct (decide (i = id)) as [->|Hne]; [done|].
    rewrite lookup_insert_ne in Hi by done. destruct Hn. by exists i. }
  split.
  - destruct Hpc as [(-> & -> & ->)|(-> & -> & ->)]; unfold state_ok; simpl; split_and!; try done;
      exists id; rewrite lookup_insert_eq; done.
  - split; simpl; [|done|].
    + intros i. rewrite Hw. destruct (decide (i = id)) as [->|Hne].
      * rewrite lookup_insert_eq. split; [intros [op ?]; by destruct (running_not_waiting id s Hr op)|].
        intros [op [= ?]]. by destruct (Hnw op).
      * by rewrite lookup_insert_ne.
    + intros i op. destruct (decide (i = id)) as [->|Hne].
      * rewrite lookup_insert_eq. intros [[= ?]|[= ?]]; by destruct (Hnw op).
      * rewrite lookup_insert_ne by done. apply Hsu.
  - intros _. left. exists id. simpl. rewrite lookup_insert_eq.
    destruct Hpc as [(-> & _)|(-> & _)]; auto.
Qed.

Lemma wait_inv id s :
  inv s → running id s → pause_state s = Pausing ∨ pause_state s = Unpausing →
  inv (wait id Suspend s).
Proof.
  intros [Hst [Hw Hnd Hsu] Hwk] Hr Hps.
  assert (Htr : ∀ i, (<[id:=Waiting Suspend]> (calls s) !! i = Some AwaitPause ↔ calls s !! i = Some AwaitPause) ∧
    (<[id:=Waiting Suspend]> (calls s) !! i = Some AwaitResume ↔ calls s !! i = Some AwaitResume)).
  { intros i. destruct (decide (i = id)) as [->|]; [|by rewrite lookup_insert_ne].
    rewrite lookup_insert_eq. destruct Hr as [E|[op E]]; rewrite E; by split; split. }
  split.
  - by eapply (state_ok_ext s).
  - split; simpl.
    + intros i. rewrite elem_of_app, list_elem_of_singleton, Hw.
      destruct (decide (i = id)) as [->|Hne].
      * rewrite lookup_insert_eq. split; [by eauto|by right].
      * rewrite lookup_insert_ne by done. naive_solver.
    + apply NoDup_app. split_and!; [done| |apply NoDup_singleton].
      intros i Hi ->%list_elem_of_singleton. apply Hw in Hi as [op ?].
      by destruct (running_not_waiting id s Hr op).
    + intros i op. destruct (decide (i = id)) as [->|Hne].
      * rewrite lookup_insert_eq. by intros [[= <-]|[= ?]].
      * rewrite lookup_insert_ne by done. apply Hsu.
  - intros _. left. unfold state_ok in Hst.
    destruct Hps as [E|E]; rewrite E in Hst; destruct Hst as (_ & _ & i & Hi & _);
      exists i; simpl; destruct (Htr i); tauto.
Qed.

Lemma suspend_inv shared id s :
  inv s → running id s → Z.of_nat (pauses s) + 1 < 2^32 →
  ∃ s', suspend shared id s = Ok s' ∧ inv s' ∧ (pauses s' ≤ S (pauses s))%nat.
Proof.
  intros Hinv Hr Hb. pose proof Hinv as [Hst Hq Hwk]. unfold suspend.
  assert (Hpc : ∀ n s, pauses (set_pauses n (return_from id (resume_waiter s))) = n) by done.
  destruct (pause_state s) eqn:Hps; unfold state_ok in Hst; rewrite Hps in Hst.
  - destruct Hst as (Hc & Hp & Hn). rewrite Hc. simpl. destruct shared.
    + eexists. split; [done|]. split; [|simpl; lia].
      apply (transit_inv id AwaitPause Pausing (pauses s) 1 s); auto.
    + unfold mark_paused. simpl. eexists. split; [done|]. unfold suspend_return. simpl. rewrite Hp.
      split; [|simpl; lia].
      apply return_inv; [|by destruct Hq|by apply running_not_waiting].
      unfold state_ok. simpl. split_and!; [done|lia|]. by apply no_transit_return.
  - eexists. split; [done|]. split; [apply wait_inv; auto|simpl; lia].
  - destruct Hst as (Hc & Hp & Hn). eexists. split; [done|]. unfold suspend_return. simpl.
    split; [|simpl; lia]. apply return_inv; [|by destruct Hq|by apply running_not_waiting].
    unfold state_ok. simpl. rewrite Hps, Hc, wrap32_small by lia.
    split_and!; [lia|lia|by apply no_transit_return].
  - destruct Hst as (Hc & Hn). eexists. split; [done|]. unfold suspend_return. simpl.
    split; [|simpl; lia]. apply return_inv; [|by destruct Hq|by apply running_not_waiting].
    unfold state_ok. simpl. rewrite Hps, Hc, wrap32_small by lia.
    split; [lia|by apply no_transit_return].
  - eexists. split; [done|]. split; [apply wait_inv; auto|simpl; lia].
Qed.

(** [resume] by a caller that holds a pause. *)
Lemma resume_inv present freeze id s n :
  inv s → calls s !! id = None → pauses s = S n → Z.of_nat (S n) < 2^32 →
  ∃ s', resume present freeze id (set_pauses n s) = Ok s' ∧ inv s' ∧ pauses s' = n.
Proof.
  intros [Hst Hq Hwk] Hid Hp Hb. assert (Hr : running id s) by (by left).
  assert (Hwo : waiters_ok (set_pauses n s)) by (by destruct Hq).
  assert (Hpn : ∀ s, pauses s = n → pauses (resume_return id s) = n)
    by (intros s' <-; apply resume_waiter_fields).
  unfold resume. simpl. destruct (pause_state s) eqn:Hps; unfold state_ok in Hst; rewrite Hps in Hst.
  1,2,5: destruct Hst as (_ & ? & _); lia.
  1,2: assert (Hc : pause_cnt s = Z.of_nat (S n)) by (rewrite <- Hp; tauto).
  1,2: assert (Hn : ¬ in_transit s) by tauto.
  1,2: rewrite Hc, wrap32_small by lia; replace (Z.of_nat (S n) - 1) with (Z.of_nat n) by lia.
  1,2: destruct (Z.eqb_spec (Z.of_nat (S n)) 1) as [E1|E1]; simpl.
  - assert (n = O) as -> by lia. destruct freeze; [|destruct present]; (eexists; split; [done|]).
    + split; [|by apply Hpn]. apply resume_return_inv; [|by destruct Hwo|by apply running_not_waiting].
      split; [done|]. by apply no_transit_return.
    + split; [|done]. apply (transit_inv id AwaitResume Unpausing O 0 s); auto.
    + split; [|by apply Hpn]. apply resume_return_inv; [|by destruct Hwo|by apply running_not_waiting].
      split_and!; [done|done|]. by apply no_transit_return.
  - eexists. split; [done|]. split; [|by apply Hpn].
    apply resume_return_inv; [|by destruct Hwo|by apply running_not_waiting].
    unfold state_ok. simpl. rewrite Hps. split_and!; [done|lia|]. by apply no_transit_return.
  - eexists. split; [done|]. split; [|by apply Hpn].
    apply resume_return_inv; [|by destruct Hwo|by apply running_not_waiting].
    unfold state_ok. simpl. split; [lia|]. by apply no_transit_return.
  - eexists. split; [done|]. split; [|by apply Hpn].
    apply resume_return_inv; [|by destruct Hwo|by apply running_not_waiting].
    unfold state_ok. simpl. rewrite Hps. split; [done|]. by apply no_transit_return.
Qed.

(** The answers of the NVMe subsystem that do not stop the process. *)
Definition answer_ok (ev : event) : Prop :=
  match ev with
  | EvAnswer _ (Ok _) | EvAnswer _ (Err EPERM) | EvAnswer _ (Err ECANCELED) => True
  | EvAnswer _ _ => False
  | _ => True
  end.

(** The call in transit returns. *)
Lemma transit_return id s :
  (∀ i, calls s !! i = Some AwaitPause ∨ calls s !! i = Some AwaitResume → i = id) →
  ¬ in_transit (return_from id s).
Proof.
  intros Hun [i Hi]. simpl in Hi. destruct (decide (i = id)) as [->|Hne].
  - rewrite lookup_delete_eq in Hi. by destruct Hi.
  - rewrite lookup_delete_ne in Hi by done. auto.
Qed.

Lemma paused_inv id s :
  inv s → calls s !! id = Some AwaitPause →
  ∃ s', mark_paused id s = Ok s' ∧ inv s' ∧ (pauses s' ≤ S (pauses s))%nat.
Proof.
  intros [Hst Hq Hwk] Hid. assert (Htr : in_transit s) by (exists id; auto).
  assert (Hps : pause_state s = Pausing ∧ pause_cnt s = 1 ∧ pauses s = O ∧
    ∀ i, calls s !! i = Some AwaitPause ∨ calls s !! i = Some AwaitResume → i = id).
  { unfold state_ok in Hst. destruct (pause_state s); try tauto.
    - destruct Hst as (? & ? & i & Hi & Hun). rewrite (Hun id) by auto. auto.
    - destruct Hst as (? & ? & i & Hi & Hun). assert (id = i) as -> by auto. congruence. }
  destruct Hps as (Hps & Hc & Hp & Hun). unfold mark_paused. rewrite Hps. simpl.
  eexists. split; [done|]. unfold suspend_return. simpl. rewrite Hp. split; [|simpl; lia].
  apply return_inv; [|by destruct Hq|simpl; by rewrite Hid].
  unfold state_ok. simpl. split_and!; [done|lia|]. by apply transit_return.
Qed.

Lemma resumed_inv id s :
  inv s → calls s !! id = Some AwaitResume →
  inv (resume_return id (set_pause_state Unpaused s)) ∧
  (pauses (resume_return id (set_pause_state Unpaused s)) ≤ S (pauses s))%nat.
Proof.
  intros [Hst Hq Hwk] Hid. assert (Htr : in_transit s) by (exists id; auto).
  assert (Hps : pause_cnt s = 0 ∧ pauses s = O ∧
    ∀ i, calls s !! i = Some AwaitPause ∨ calls s !! i = Some AwaitResume → i = id).
  { unfold state_ok in Hst. destruct (pause_state s); try tauto.
    - destruct Hst as (? & ? & i & Hi & Hun). assert (id = i) as -> by auto. congruence.
    - destruct Hst as (? & ? & i & Hi & Hun). rewrite (Hun id) by auto. auto. }
  destruct Hps as (Hc & Hp & Hun). split.
  - apply resume_return_inv; [|by destruct Hq|simpl; by rewrite Hid].
    unfold state_ok. simpl. split_and!; [done|done|]. by apply transit_return.
  - simpl. rewrite (proj1 (resume_waiter_fields _)). simpl. lia.
Qed.

Lemma sub_exec_inv ev s o :
  inv s → Z.of_nat (pauses s) + 1 < 2^32 → answer_ok ev → exec ev s = Some o →
  ∃ s', o = Ok s' ∧ inv s' ∧ (pauses s' ≤ S (pauses s))%nat.
Proof.
  intros Hinv Hb Hok Hx. destruct ev as [id [|freeze] shared|id shared|id r]; simpl in Hx.
  - destruct (calls s !! id) eqn:E; [done|]. injection Hx as <-.
    apply suspend_inv; [done|by left|done].
  - destruct (calls s !! id) eqn:E; [done|]. destruct (pauses s) as [|n] eqn:Hp; [done|].
    injection Hx as <-. destruct (resume_inv shared freeze id s n) as (s' & ? & ? & ?); [done..|lia|].
    exists s'. split_and!; [done|done|lia].
  - destruct (calls s !! id) as [[| |op|op]|] eqn:E; try done.
    assert (op = Suspend) as -> by (eapply i_suspends; [apply Hinv|eauto]).
    injection Hx as <-. apply suspend_inv; [done|by right; eauto|done].
  - destruct (calls s !! id) as [[| |op|op]|] eqn:E; try done; injection Hx as <-.
    + destruct (paused_inv id s Hinv E) as (s' & Hm & ?). exists s'.
      destruct r as [[]|[]|]; simpl in Hok |- *; done.
    + destruct (resumed_inv id s Hinv E). eexists. split; [|done].
      destruct r as [[]|[]|]; simpl in Hok |- *; done.
Qed.

Lemma sub_new_inv : inv new.
Proof.
  split; [|split|done]; simpl.
  - split_and!; [done|done|]. intros [i [?|?]]; simpl in *; by rewrite lookup_empty in *.
  - intros id. split; [by intros ?%not_elem_of_nil|]. intros [op ?]. by rewrite lookup_empty in *.
  - constructor.
  - intros id op [?|?]; by rewrite lookup_empty in *.
Qed.

Lemma sub_reaches_inv evs s :
  reaches evs s → Forall answer_ok evs → Z.of_nat (length evs) < 2^32 →
  inv s ∧ (pauses s ≤ length evs)%nat.
Proof.
  induction 1 as [|evs s ev s' Hr IH Hx]; intros Hok Hlen; [split; [apply sub_new_inv|simpl; lia]|].
  rewrite length_app in *. simpl in *. apply Forall_app in Hok as [Hoks Hok].
  inversion Hok; subst. destruct IH as [Hi Hp]; [done|lia|].
  destruct (sub_exec_inv ev s (Ok s')) as (s1 & [= <-] & ? & ?); [done|lia|done|done|]. split; [done|lia].
Qed.

End IoSub.

(** ** Properties *)

Module IoSubProps.
Import IoSub.

(** Whatever the interleaving of [suspend] and [resume] calls: while a
    caller holds a pause the subsystem is paused or frozen and nobody is
    resuming it, and the counter is the number of pauses held; once all have
    been given up and no call is under way, the subsystem runs again or is
    frozen. *)
Theorem pauses_are_held (evs : list event) (s : NexusIoSubsystem) :
  reaches evs s → Forall answer_ok evs → Z.of_nat (length evs) < 2^32 →
  ((0 < pauses s)%nat →
     (pause_state s = Paused ∨ pause_state s = Frozen) ∧ pause_cnt s = Z.of_nat (pauses s) ∧
     ∀ id, calls s !! id ≠ Some AwaitResume ∧ calls s !! id ≠ Some AwaitPause) ∧
  (pauses s = O → calls s = ∅ →
     pause_cnt s = 0 ∧ (pause_state s = Unpaused ∨ pause_state s = Frozen)).
Proof.
  intros Hr Hok Hlen. destruct (sub_reaches_inv _ _ Hr Hok Hlen) as [[Hst _ _] _]. unfold state_ok in Hst.
  assert (Hno : ¬ in_transit s → ∀ id, calls s !! id ≠ Some AwaitResume ∧ calls s !! id ≠ Some AwaitPause).
  { intros Hn id. split; intros E; apply Hn; exists id; auto. }
  split.
  - intros Hp. destruct (pause_state s); destruct_and?; try lia; split_and!; auto.
  - intros Hp He. assert (Hem : ∀ id, calls s !! id = None) by (intros; by rewrite He, lookup_empty).
    destruct (pause_state s).
    + destruct Hst as (? & _ & _). auto.
    + destruct Hst as (_ & _ & id & E & _). by rewrite Hem in E.
    + destruct Hst as (_ & ? & _). lia.
    + destruct Hst as (Hc & _). rewrite Hp in Hc. auto.
    + destruct Hst as (_ & _ & id & E & _). by rewrite Hem in E.
Qed.

(** C33. No wake-up is lost: whenever calls wait, one is pausing or resuming the
    subsystem or has been woken, and will wake the next; and no assertion of
    [suspend] or [resume] fails, in runs of fewer than 2^32 events in which calls are
    not cancelled and are answered as the code expects ([answer_ok]). *)
Theorem waiters_are_woken (evs : list event) (s : NexusIoSubsystem) :
  reaches evs s → Forall answer_ok evs → Z.of_nat (length evs) + 1 < 2^32 →
  (pause_waiters s ≠ [] →
     ∃ id, calls s !! id = Some AwaitPause ∨ calls s !! id = Some AwaitResume ∨
           calls s !! id = Some (Woken Suspend)) ∧
  ∀ ev o, answer_ok ev → exec ev s = Some o → ∃ s', o = Ok s'.
Proof.
  intros Hr Hok Hlen. destruct (sub_reaches_inv _ _ Hr Hok) as [Hi Hp]; [lia|]. split.
  - intros Hw. destruct (i_wakeup _ Hi Hw) as [[id [?|?]]|(id & op & E)]; [by eauto..|].
    exists id. rewrite (i_suspends _ (i_queue _ Hi) id op) in E by auto. auto.
  - intros ev o Hev Hx. destruct (sub_exec_inv ev s o) as (s' & -> & _); [done|lia|done|done|]. by eauto.
Qed.

(** A frozen subsystem stays frozen: no sequence of calls resumes it. *)
Theorem frozen_stays_frozen (evs : list event) (s s' : NexusIoSubsystem) (ev : event) :
  reaches evs s → Forall answer_ok evs → Z.of_nat (length evs) < 2^32 →
  pause_state s = Frozen → exec ev s = Some (Ok s') → pause_state s' = Frozen.
Proof.
  intros Hr Hok Hlen Hf Hx. destruct (sub_reaches_inv _ _ Hr Hok Hlen) as [[Hst _ _] _].
  unfold state_ok in Hst. rewrite Hf in Hst. destruct Hst as [_ Hn].
  assert (Hsus : ∀ id sh, suspend sh id s = Ok s' → pause_state s' = Frozen).
  { intros id sh. unfold suspend. rewrite Hf. intros [= <-]. simpl. by rewrite (proj2 (resume_waiter_fields _)). }
  assert (Hres : ∀ id p f s0, pause_state s0 = Frozen → resume p f id s0 = Ok s' → pause_state s' = Frozen).
  { intros id p f s0 Hf0. unfold resume. rewrite Hf0. simpl.
    destruct (negb _); intros [= <-]; simpl; by rewrite (proj2 (resume_waiter_fields _)). }
  destruct ev as [id [|f] sh|id sh|id r]; simpl in Hx.
  - destruct (calls s !! id); [done|]. injection Hx. apply Hsus.
  - destruct (calls s !! id); [done|]. destruct (pauses s); [done|]. injection Hx.
    by apply Hres.
  - destruct (calls s !! id) as [[| |[|f]|[|f]]|]; try done; injection Hx; [apply Hsus|by apply Hres].
  - destruct (calls s !! id) as [[| | |]|] eqn:E; try done; destruct Hn; exists id; auto.
Qed.

(** Two callers pause concurrently; the second waits for the first. *)
Definition two_pauses : list event :=
  [EvCall 1 Suspend true; EvCall 2 Suspend true; EvAnswer 1 (Ok tt); EvWoken 2 true].

Fixpoint run (evs : list event) (s : NexusIoSubsystem) : option NexusIoSubsystem :=
  match evs with
  | [] => Some s
  | ev :: evs => match exec ev s with Some (Ok s') => run evs s' | _ => None end
  end.

Lemma sub_run_reaches evs0 s evs s' : reaches evs0 s → run evs s = Some s' → reaches (evs0 ++ evs) s'.
Proof.
  revert evs0 s. induction evs as [|ev evs IH]; intros evs0 s Hr; simpl.
  { intros [= <-]. by rewrite app_nil_r. }
  destruct (exec ev s) as [[s1| |]|] eqn:E; try done. intros Hrun.
  rewrite (cons_middle ev), app_assoc. eapply IH; [|done]. by econstructor.
Qed.

Definition both_paused : NexusIoSubsystem := default new (run two_pauses new).

Lemma two_pauses_run : reaches two_pauses both_paused.
Proof. apply (sub_run_reaches [] new two_pauses both_paused); [constructor|by vm_compute]. Qed.

Lemma two_pauses_ok : Forall answer_ok two_pauses.
Proof. by repeat constructor. Qed.

Lemma pauses_are_held_witness :
  pauses both_paused = 2%nat ∧ pause_cnt both_paused = 2 ∧
  (pause_state both_paused = Paused ∨ pause_state both_paused = Frozen).
Proof.
  destruct (pauses_are_held two_pauses both_paused two_pauses_run two_pauses_ok) as [H _]; [done|].
  destruct H as (H1 & H2 & _); [vm_compute; lia|]. split; [done|]. split; [exact H2|exact H1].
Defined.

Definition waiting : NexusIoSubsystem := default new (run (take 2 two_pauses) new).

Lemma waiters_are_woken_witness :
  pause_waiters waiting = [2%nat] ∧
  ∃ id, calls waiting !! id = Some AwaitPause ∨ calls waiting !! id = Some AwaitResume ∨
        calls waiting !! id = Some (Woken Suspend).
Proof.
  assert (Hr : reaches (take 2 two_pauses) waiting)
    by (apply (sub_run_reaches [] new (take 2 two_pauses) waiting); [constructor|by vm_compute]).
  split; [vm_compute; reflexivity|].
  apply (waiters_are_woken (take 2 two_pauses) waiting Hr);
    [by repeat constructor|vm_compute; reflexivity|by vm_compute].
Defined.

Definition freeze_all : list event := two_pauses ++ [EvCall 3 (Resume true) true; EvCall 4 (Resume true) true].

Lemma frozen_stays_frozen_witness :
  ∃ s s', reaches freeze_all s ∧ exec (EvCall 5 Suspend true) s = Some (Ok s') ∧ pause_state s' = Frozen.
Proof.
  exists (default new (run freeze_all new)), (default new (run (freeze_all ++ [EvCall 5 Suspend true]) new)).
  assert (Hr : reaches freeze_all (default new (run freeze_all new)))
    by (apply (sub_run_reaches [] new freeze_all _); [constructor|by vm_compute]).
  split; [exact Hr|]. split; [by vm_compute|].
  apply (frozen_stays_frozen freeze_all (default new (run freeze_all new)) _ (EvCall 5 Suspend true) Hr);
    [by repeat constructor|vm_compute; reflexivity|vm_compute; reflexivity|by vm_compute].
Defined.

End IoSubProps.
