(* ===== verification/NexusErrors.v ===== *)
(** * Errors of the nexus

    The error type of the nexus with its errno and gRPC status
    ([bdev/nexus/nexus_bdev_error.rs]) and the errors of the persistent store
    ([store/store_defs.rs]).  The name of the nexus, which every error carries,
    and the texts are left out. *)

From S2P Require Import Prelude Errors NexusChild.
Import Child.

(** The errors of the client library and of the encoder are not told apart. *)
Inductive StoreError :=
| Connect
| Put
| PutWait
| Get
| GetWait
| MissingEntry
| Delete
| DeleteWait
| Txn
| TxnWait
| Watch
| KeyString
| ValueString
| DeserialiseValue
| SerialiseValue
| OpTimeout.

(** The status codes of [tonic] that are used. *)
Inductive Code :=
| InvalidArgument | NotFound | AlreadyExists | FailedPrecondition | OutOfRange | Internal | DataLoss
| ResourceExhausted | PermissionDenied | Aborted | Unimplemented | DeadlineExceeded | Cancelled.

#[global] Instance Code_eq_dec : EqDecision Code.
Proof. solve_decision. Defined.

Module NexusErr.

Inductive Error :=
| NexusNotFound
| NexusInitialising
| InvalidUuid (uuid : string)
| UuidExists (uuid : string)
| NameExists
| InvalidKey
| AlreadyShared
| NotShared
| NotSharedNvmf
| ShareNbdNexus
| ShareNvmfNexus (source : CoreError)
| UnshareNexus (source : CoreError)
| RegisterNexus (source : Errno)
| CreateChild (source : Bdev.Error)
| NexusIncomplete
| ChildTooSmall (child : string) (num_blocks block_size req_blocks : Z)
| MixedBlockSizes
| ChildGeometry (child : string)
| ChildMissing (child : string)
| ChildWriteExclusiveResvFailed (source : ChildError) (child : string)
| OpenChild (source : ChildError) (child : string)
| OnlineChild (source : ChildError) (child : string)
| CloseChild (source : Bdev.Error) (child : string)
| RemoveLastChild (child : string)
| RemoveLastHealthyChild (child : string)
| ChildNotFound (child : string)
| ChildDeviceNotOpen (child : string)
| ChildAlreadyExists (child : string)
| NoRebuildSource
| CreateRebuild (source : Rebuild.RebuildError) (child : string)
| RebuildJobNotFound (child : string)
| RebuildJobAlreadyExists (child : string)
| RebuildOperation (job : string) (source : Rebuild.RebuildError)
| InvalidShareProtocol (sp_value : Z)
| InvalidNvmeAnaState (ana_value : Z)
| InvalidArguments
| NexusCreate
| NexusDestroy
| NexusResize (source : Errno)
| ChildNotDegraded (child : string)
| FailedCreateSnapshot
| SubsysNvmf
| OperationNotAllowed
| InvalidReservation (reservation : Z)
| UpdateShareProperties (source : CoreError)
| SaveStateFailed (source : StoreError)
| NexusSizeUnmatched (requested got : Z).

Definition to_errno (e : Error) : Errno :=
  match e with
  | ShareNvmfNexus source | UnshareNexus source => core_to_errno source
  | RegisterNexus source => source
  | CreateChild source => Bdev.to_errno source
  | ChildWriteExclusiveResvFailed _ _ => EKEYREJECTED
  | OpenChild source _ => Child.to_errno source
  | OnlineChild source _ => Child.to_errno source
  | CloseChild source _ => Bdev.to_errno source
  | CreateRebuild _ _ => EPIPE
  | RebuildOperation _ _ => EPIPE
  | NexusResize source => source
  | UpdateShareProperties source => core_to_errno source
  | SaveStateFailed _ => ENODATA
  | ShareNbdNexus => ENOTSUP
  | NexusNotFound | ChildMissing _ | ChildNotFound _ | RebuildJobNotFound _ => ENOENT
  | UuidExists _ | NameExists | ChildAlreadyExists _ | RebuildJobAlreadyExists _ => EEXIST
  | InvalidUuid _ | InvalidKey | InvalidShareProtocol _ | InvalidNvmeAnaState _ | InvalidArguments
  | InvalidReservation _ => EINVAL
  | NexusInitialising => EBUSY
  | AlreadyShared | NotShared | NotSharedNvmf | OperationNotAllowed | RemoveLastChild _
  | RemoveLastHealthyChild _ | ChildNotDegraded _ => EPERM
  | ChildDeviceNotOpen _ | ChildGeometry _ | ChildTooSmall _ _ _ _ | SubsysNvmf => EIO
  | NexusIncomplete | NexusCreate | NexusDestroy | FailedCreateSnapshot | NoRebuildSource => EFAULT
  | MixedBlockSizes | NexusSizeUnmatched _ _ => EINVAL
  end.

(** The code of the status of a gRPC reply, and the errno in its metadata. *)
Definition status_from (e : Error) : Code * Errno :=
  (match e with
   | InvalidUuid _ | InvalidKey | InvalidShareProtocol _ | InvalidReservation _ | AlreadyShared
   | NotShared | NotSharedNvmf | CreateChild _ | MixedBlockSizes | ChildGeometry _
   | ChildTooSmall _ _ _ _ | OpenChild _ _ => InvalidArgument
   | OperationNotAllowed | RemoveLastChild _ | RemoveLastHealthyChild _ => FailedPrecondition
   | ChildNotFound _ | RebuildJobNotFound _ => NotFound
   | NexusIncomplete | NexusResize _ => FailedPrecondition
   | NexusNotFound => NotFound
   | ChildAlreadyExists _ | NameExists => AlreadyExists
   | InvalidArguments => InvalidArgument
   | ShareNvmfNexus source => if bool_decide (core_to_errno source = EMLINK) then OutOfRange else Internal
   | NexusInitialising | UuidExists _ | ShareNbdNexus | UnshareNexus _ | RegisterNexus _ | ChildMissing _
   | ChildWriteExclusiveResvFailed _ _ | OnlineChild _ _ | CloseChild _ _ => Internal
   | ChildDeviceNotOpen _ | NoRebuildSource => FailedPrecondition
   | CreateRebuild _ _ | RebuildJobAlreadyExists _ => AlreadyExists
   | RebuildOperation _ _ => Internal
   | InvalidNvmeAnaState _ => InvalidArgument
   | NexusCreate | NexusDestroy => Internal
   | ChildNotDegraded _ => FailedPrecondition
   | FailedCreateSnapshot | SubsysNvmf | UpdateShareProperties _ => Internal
   | SaveStateFailed _ => DataLoss
   | NexusSizeUnmatched _ _ => InvalidArgument
   end, to_errno e).

End NexusErr.
