(* ===== verification/LvsErrors.v ===== *)
(** * Errors of the logical volume store

    [lvs/lvs_error.rs]: the errors of the blobstore and of the pools, replicas
    and snapshots that are built on it, their errno, and the gRPC status they
    are reported with ([grpc/v0/mayastor_grpc.rs], [grpc/mod.rs]).  Names and
    messages that are only shown are left out. *)

From S2P Require Import Prelude Errors NexusChild NexusErrors.

Module LvsErr.

Inductive ImportErrorReason :=
| NoReason
| NotFound
| IoError
| NameMismatch (name : string)
| NameClash (name : string)
| UuidMismatch (uuid : string).

Inductive BsError :=
| Generic (source : Errno)
| InvalidArgument
| LvolNotFound
| VolAlreadyExists
| VolBusy
| CannotImportLvs
| LvsNotFound
| LvsIdMismatch
| NoSpace
| OutOfMetadata
| CapacityOverflow
| LvsCryptoVbdev (source : Errno)
| LvsRemoving.

Definition from_errno (value : Errno) : BsError :=
  match value with
  | EINVAL => InvalidArgument
  | ENOENT => LvolNotFound
  | EEXIST => VolAlreadyExists
  | EBUSY => VolBusy
  | EILSEQ => CannotImportLvs
  | ENOMEDIUM => LvsNotFound
  | EMEDIUMTYPE => LvsIdMismatch
  | ENOSPC => NoSpace
  | EMFILE => OutOfMetadata
  | EOVERFLOW => CapacityOverflow
  | _ => Generic value
  end.

Definition from_i32 (value : Z) : BsError := from_errno (errno_from_raw (Z.abs value)).

Definition bs_to_errno (e : BsError) : Errno :=
  match e with
  | Generic source => source
  | InvalidArgument => EINVAL
  | LvolNotFound => ENOENT
  | VolAlreadyExists => EEXIST
  | VolBusy => EBUSY
  | CannotImportLvs => EILSEQ
  | LvsNotFound => ENOMEDIUM
  | LvsIdMismatch => EMEDIUMTYPE
  | NoSpace => ENOSPC
  | OutOfMetadata => EMFILE
  | CapacityOverflow => EOVERFLOW
  | LvsCryptoVbdev source => source
  | LvsRemoving => EINPROGRESS
  end.

Inductive LvsError :=
| Import (source : BsError) (name : string) (reason : ImportErrorReason)
| PoolCreate (source : BsError) (name : string)
| Export (source : BsError) (name : string)
| Destroy (source : Bdev.Error) (name : string)
| Grow (source : BsError) (name : string)
| InvalidBdev (source : Bdev.Error) (name : string)
| Invalid (source : BsError)
| InvalidClusterSize (name : string)
| InvalidMetadataParam (name : string)
| RepExists (source : BsError) (name : string)
| RepCreate (source : BsError) (name : string)
| RepDestroy (source : BsError) (name : string)
| RepResize (source : BsError) (name : string)
| NotALvol (name : string)
| LvolShare (source : CoreError) (name : string)
| UpdateShareProperties (source : CoreError) (name : string)
| LvolUnShare (source : CoreError) (name : string)
| GetProperty (source : BsError) (prop name : string)
| SetProperty (source : BsError) (prop name : string)
| SyncProperty (source : BsError) (name : string)
| Property (name : string)
| ReplicaShareProtocol (value : Z)
| SnapshotCreate (source : BsError) (msg : string)
| SnapshotCloneCreate (source : BsError) (msg : string)
| FlushFailed (name : string)
| SnapshotConfigFailed (name msg : string)
| CloneConfigFailed (name msg : string)
| WipeFailed (source : CoreError) (name : string)
| ResourceLockFailed
| MaxExpansionParse
| BdevRescanFailed (source : BsError) (name : string)
| BdevNotExtended (name : string)
| CryptoBdevNotResized (name : string).

Definition to_errno (e : LvsError) : Errno :=
  match e with
  | Import InvalidArgument _ reason =>
      match reason with
      | NoReason => EINVAL
      | IoError => EIO
      | NameMismatch _ => EMEDIUMTYPE
      | NameClash _ => ENOTUNIQ
      | UuidMismatch _ => EMEDIUMTYPE
      | NotFound => EILSEQ
      end
  | Import source _ _ => bs_to_errno source
  | PoolCreate source _ => bs_to_errno source
  | Export source _ => bs_to_errno source
  | Destroy _ _ => ENXIO
  | Grow source _ => bs_to_errno source
  | InvalidBdev _ _ => ENXIO
  | Invalid source => bs_to_errno source
  | InvalidClusterSize _ => EINVAL
  | InvalidMetadataParam _ => EINVAL
  | RepExists source _ => bs_to_errno source
  | RepCreate source _ => bs_to_errno source
  | RepDestroy source _ => bs_to_errno source
  | RepResize source _ => bs_to_errno source
  | NotALvol _ => EINVAL
  | LvolShare source _ => core_to_errno source
  | UpdateShareProperties source _ => core_to_errno source
  | LvolUnShare source _ => core_to_errno source
  | GetProperty source _ _ => bs_to_errno source
  | SetProperty source _ _ => bs_to_errno source
  | SyncProperty source _ => bs_to_errno source
  | SnapshotCreate source _ => bs_to_errno source
  | FlushFailed _ => EIO
  | Property _ => EINVAL
  | SnapshotConfigFailed _ _ | ReplicaShareProtocol _ => EINVAL
  | SnapshotCloneCreate source _ => bs_to_errno source
  | CloneConfigFailed _ _ => EINVAL
  | WipeFailed source _ => core_to_errno source
  | ResourceLockFailed => EBUSY
  | MaxExpansionParse => EINVAL
  | BdevRescanFailed source _ => bs_to_errno source
  | BdevNotExtended _ => EOPNOTSUPP
  | CryptoBdevNotResized _ => EBUSY
  end.

(** [impl From<BdevError> for tonic::Status] *)
Definition bdev_code (e : Bdev.Error) : Code :=
  match e with
  | Bdev.UriParseFailed _ _ | Bdev.UriSchemeUnsupported _ | Bdev.InvalidUri _ _ | Bdev.IntParamParseFailed _ _ _ _
  | Bdev.BoolParamParseFailed _ _ _ _ | Bdev.UuidParamParseFailed _ _ | Bdev.BdevWrongUuid _ _ => NexusErrors.InvalidArgument
  | Bdev.CreateBdevFailed source _ | Bdev.CreateBdevInvalidParams source _ =>
      match source with
      | ENOENT | ENODEV => NexusErrors.NotFound
      | EEXIST => AlreadyExists
      | _ => NexusErrors.InvalidArgument
      end
  | Bdev.NotFound _ => NexusErrors.NotFound
  | _ => Internal
  end.

(** [impl From<LvsError> for tonic::Status]; the status also carries
    [to_errno]. *)
Definition code (e : LvsError) : Code :=
  match e with
  | Import source _ _ =>
      match bs_to_errno source with
      | EEXIST => AlreadyExists
      | EILSEQ | EIO => DataLoss
      | _ => NexusErrors.InvalidArgument
      end
  | RepCreate source _ =>
      match bs_to_errno source with ENOSPC => ResourceExhausted | _ => NexusErrors.InvalidArgument end
  | RepDestroy source _ =>
      match bs_to_errno source with
      | ENOENT => NexusErrors.NotFound
      | ENOMEDIUM => FailedPrecondition
      | EMEDIUMTYPE => Aborted
      | _ => Internal
      end
  | RepResize source _ =>
      match bs_to_errno source with
      | ENOSPC | ENOMEM => ResourceExhausted
      | EPERM => PermissionDenied
      | EINVAL | ENOENT => NexusErrors.InvalidArgument
      | _ => Internal
      end
  | RepExists _ _ => AlreadyExists
  | ReplicaShareProtocol _ => NexusErrors.InvalidArgument
  | Destroy source _ => bdev_code source
  | Invalid source =>
      match bs_to_errno source with
      | ENOMEDIUM => FailedPrecondition
      | ENOENT => NexusErrors.NotFound
      | EEXIST => AlreadyExists
      | _ => NexusErrors.InvalidArgument
      end
  | PoolCreate source _ =>
      match bs_to_errno source with
      | EEXIST => AlreadyExists
      | EINVAL => NexusErrors.InvalidArgument
      | EIO => DataLoss
      | _ => Internal
      end
  | InvalidBdev source _ => bdev_code source
  | SetProperty _ _ _ | WipeFailed _ _ => DataLoss
  | ResourceLockFailed => Aborted
  | MaxExpansionParse => NexusErrors.InvalidArgument
  | BdevRescanFailed _ _ | BdevNotExtended _ => FailedPrecondition
  | Grow source _ =>
      match bs_to_errno source with
      | ENOMEM => ResourceExhausted
      | ENOSPC => OutOfRange
      | _ => Internal
      end
  | LvolShare _ _ => if bool_decide (to_errno e = EMLINK) then OutOfRange else Internal
  | InvalidClusterSize _ => NexusErrors.InvalidArgument
  | Export _ _ | InvalidMetadataParam _ | NotALvol _ | GetProperty _ _ _ | FlushFailed _ | SnapshotConfigFailed _ _
  | CloneConfigFailed _ _ | CryptoBdevNotResized _ | Property _ | SyncProperty _ _ | LvolUnShare _ _
  | UpdateShareProperties _ _ | SnapshotCreate _ _ | SnapshotCloneCreate _ _ => Internal
  end.

End LvsErr.

(** An errno survives its translation to an error of the blobstore and back. *)
Lemma errno_of_bs_error e : LvsErr.bs_to_errno (LvsErr.from_errno e) = e.
Proof. by destruct e. Qed.
