(* ===== verification/LvsLvol.v ===== *)
(** * Logical volumes

    Replicas, snapshots and clones on an SPDK blobstore: [lvs/lvs_lvol.rs],
    [lvs/lvol_snapshot.rs], [core/snapshot.rs] and [core/logical_volume.rs].

    SPDK's lvols are the interface [Spdk]: what can be observed of them, the
    calls that change them, and, in [SpdkLaws], the documented effect of these
    calls.  An lvol is the address of its [spdk_lvol]; its blob has the same
    number.  Sharing over NVMe-oF and writing to the device are part of the
    interface, too.  Events are left out. *)

From Stdlib Require Import Ascii String.
From S2P Require Import Prelude Text Errors NexusChild NexusErrors LvsErrors.
Import LvsErr.

#[local] Open Scope Z_scope.

Module Lvol.

(** ** The interface of SPDK *)

Record lvol_info := mkInfo {
  store : nat;
  bdev_name : string;
  bdev_uuid : string;
  xattrs : gmap string string
}.

Class Spdk := {
  spdk : Type;
  (** The lvols that exist, and their bdevs in the order of the bdev list. *)
  lvols : spdk → gmap nat lvol_info;
  lvol_bdevs : spdk → list nat;
  (** The extended attributes on disk. *)
  durable : spdk → nat → gmap string string;
  size_in_bytes : spdk → nat → Z;
  cluster_size : spdk → nat → Z;
  num_clusters : spdk → nat → Z;
  allocated_clusters : spdk → nat → Z;
  ancestor_clusters : spdk → nat → Z + Z;
  blob_parent : spdk → nat → option nat;
  is_thin : spdk → nat → bool;
  is_read_only : spdk → nat → bool;
  clear_with_unmap : spdk → nat → bool;
  bdev_shared : spdk → nat → bool;
  (** The [uuid] crate: the canonical form of a UUID in any of its notations. *)
  parse_uuid : string → option string;
  lvol_get_by_uuid : spdk → string → option nat;
  lvs_lvol_get_by_uuid : spdk → nat → string → option nat;
  count_real_clones : spdk → nat → string → string → Z;
  get_real_clones : spdk → nat → string → string → list nat;
  blob_set_xattr : nat → string → string → spdk → spdk * Z;
  blob_sync_md : nat → spdk → spdk * Z;
  vbdev_lvol_destroy : nat → spdk → spdk * Z;
  vbdev_lvol_resize : nat → Z → spdk → spdk * Z;
  vbdev_lvol_create_snapshot_ext : nat → string → list (string * string) → spdk → spdk * (nat + Errno);
  vbdev_lvol_create_clone_ext : nat → string → list (string * string) → spdk → spdk * (nat + Errno);
  bdev_write_zeroes : nat → Z → Z → spdk → spdk * outcome CoreError unit;
  bdev_share_nvmf : nat → list string → spdk → spdk * outcome CoreError string;
  bdev_unshare : nat → spdk → spdk * outcome CoreError unit;
  bdev_update_properties : nat → list string → spdk → spdk * outcome CoreError unit
}.

Section Ops.
Context `{SP : Spdk}.

Notation M A := (ST spdk LvsError A).

(** A dangling pointer is dereferenced when the lvol does not exist. *)
Definition info (l : nat) : M lvol_info := λ s,
  match lvols s !! l with Some i => (s, Ok i) | None => (s, Panicked) end.

(** A call of SPDK. *)
Definition call {A} (f : spdk → spdk * A) : M A := λ s, let '(s, a) := f s in (s, Ok a).

(** The [Result] of another component. *)
Definition called {A E} (wrap : E → LvsError) (f : spdk → spdk * outcome E A) : M A := λ s,
  let '(s, r) := f s in (s, map_err wrap r).

(** ** Properties and extended attributes *)

Inductive PropValue :=
| Shared (b : bool)
| AllowedHosts (hosts : list string)
| EntityId (id : string).

Inductive PropName := PnShared | PnAllowedHosts | PnEntityId.

Definition prop_name (v : PropValue) : PropName :=
  match v with Shared _ => PnShared | AllowedHosts _ => PnAllowedHosts | EntityId _ => PnEntityId end.

Definition show_name (p : PropName) : string :=
  match p with PnShared => "shared" | PnAllowedHosts => "allowed-hosts" | PnEntityId => "entity_id" end.

Inductive SnapshotXattrs := ParentId | TxId | SnapEntityId | SnapshotUuid | SnapshotCreateTime | DiscardedSnapshot.
Inductive CloneXattrs := CloneUuid | SourceUuid | CloneCreateTime.

(** The order of [SnapshotXattrs::iter] and [CloneXattrs::iter]. *)
Definition snapshot_xattrs : list SnapshotXattrs :=
  [ParentId; TxId; SnapEntityId; SnapshotUuid; SnapshotCreateTime; DiscardedSnapshot].
Definition clone_xattrs : list CloneXattrs := [CloneUuid; SourceUuid; CloneCreateTime].

Definition snapshot_attr_name (a : SnapshotXattrs) : string :=
  match a with
  | TxId => "io-engine.tx_id"
  | SnapEntityId => "io-engine.entity_id"
  | ParentId => "io-engine.parent_id"
  | SnapshotUuid => "uuid"
  | SnapshotCreateTime => "io-engine.snapshot_create_time"
  | DiscardedSnapshot => "io-engine.discarded_snapshot"
  end.

Definition clone_attr_name (a : CloneXattrs) : string :=
  match a with
  | CloneUuid => "uuid"
  | SourceUuid => "io-engine.source_uuid"
  | CloneCreateTime => "io-engine.clone_create_time"
  end.

(** [Lvol::blob_xattr]: the value without the NULs at its end, if there is one
    and it is text. *)
Definition blob_xattr (i : lvol_info) (attr : string) : option string :=
  match xattrs i !! attr with
  | None => None
  | Some v =>
      let v := strip_nuls v in
      if bool_decide (v = ""%string) then None else if utf8_valid v then Some v else None
  end.

Definition is_snapshot (i : lvol_info) : bool :=
  bool_decide (is_Some (blob_xattr i (snapshot_attr_name SnapshotCreateTime))).
Definition is_clone (i : lvol_info) : bool := bool_decide (is_Some (blob_xattr i (clone_attr_name SourceUuid))).
Definition snapshot_uuid (i : lvol_info) : option string := blob_xattr i (clone_attr_name SourceUuid).
Definition entity_id (i : lvol_info) : option string := blob_xattr i "entity_id".
Definition is_discarded_snapshot (i : lvol_info) : bool :=
  default false (parse_bool (default ""%string (blob_xattr i (snapshot_attr_name DiscardedSnapshot)))).

(** The value of an extended attribute has a length of 16 bits. *)
Definition xattr_value (v : string) : string := prefix (Z.to_nat (strlen v mod 2^16)) v.

Definition set_blob_attr (l : nat) (attr value : string) (sync_metadata : bool) : M unit :=
  i ← info l;
  v ← ST.lift (into_cstring value);
  rc ← call (blob_set_xattr l attr (xattr_value v));
  if negb (rc =? 0) then ST.fail (SetProperty (from_i32 rc) attr (bdev_name i))
  else if negb sync_metadata then mret tt
  else
    rc ← call (blob_sync_md l);
    if rc =? 0 then mret tt else ST.fail (SyncProperty (from_i32 rc) (bdev_name i)).

(** [LvsLvol::get]: the value is read up to its NUL; without one the read
    continues behind the value, which is undefined. *)
Definition get (l : nat) (prop : PropName) : M PropValue :=
  i ← info l;
  match xattrs i !! show_name prop with
  | None => ST.fail (GetProperty (from_errno ENOENT) (show_name prop) (bdev_name i))
  | Some v =>
      if negb (has NUL v) then ST.panic
      else
        let v := c_str v in
        if negb (utf8_valid v) then ST.fail (Property (bdev_name i))
        else
          match prop with
          | PnShared =>
              match parse_bool v with Some b => mret (Shared b) | None => ST.fail (Property (bdev_name i)) end
          | PnAllowedHosts => mret (AllowedHosts (if bool_decide (v = ""%string) then [] else split "," v))
          | PnEntityId => mret (EntityId v)
          end
  end.

(** The text to store for a property, unless it has that value already.  Hosts
    are compared without regard to their order, and then kept sorted. *)
Definition new_value (prop : PropValue) (cur : outcome LvsError PropValue) : option string :=
  match prop, cur with
  | Shared b, Ok (Shared b') => if eqb b b' then None else Some (show_bool b)
  | Shared b, _ => Some (show_bool b)
  | AllowedHosts hosts, Ok (AllowedHosts hlist) =>
      if (length hlist =? length hosts)%nat
      then if bool_decide (sort hosts = sort hlist) then None else Some (join "," (sort hosts))
      else Some (join "," hosts)
  | AllowedHosts hosts, _ => Some (join "," hosts)
  | EntityId id, Ok (EntityId id') => if bool_decide (id' = id) then None else Some id
  | EntityId id, _ => Some id
  end.

(** [LvsLvol::set_no_sync]: whether the property was modified. *)
Definition set_no_sync (l : nat) (prop : PropValue) : M bool :=
  i ← info l;
  if is_snapshot i then mret false
  else
    cur ← ST.try (get l (prop_name prop));
    match new_value prop cur with
    | None => mret false
    | Some v =>
        v ← ST.lift (into_cstring v);
        rc ← call (blob_set_xattr l (show_name (prop_name prop)) (xattr_value (v +:+ nul)%string));
        if rc =? 0 then mret true
        else ST.fail (SetProperty (from_i32 rc) (show_name (prop_name prop)) (bdev_name i))
    end.

Definition sync_metadata (l : nat) : M unit :=
  i ← info l;
  if is_snapshot i then mret tt
  else
    rc ← call (blob_sync_md l);
    if rc =? 0 then mret tt else ST.fail (SyncProperty (from_i32 rc) (bdev_name i)).

Definition set (l : nat) (prop : PropValue) : M unit :=
  m ← set_no_sync l prop;
  if m : bool then sync_metadata l else mret tt.

Fixpoint set_all (l : nat) (props : list PropValue) (sync : bool) : M bool :=
  match props with
  | [] => mret sync
  | p :: props => m ← set_no_sync l p; set_all l props (m || sync)
  end.

Definition set_props (l : nat) (props : list PropValue) : M unit :=
  sync ← set_all l props false;
  if sync : bool then sync_metadata l else mret tt.

(** ** Sharing *)

Definition share_nvmf (l : nat) (allowed_hosts : list string) : M string :=
  i ← info l;
  uri ← called (λ e, LvolShare e (bdev_name i)) (bdev_share_nvmf l allowed_hosts);
  set_props l [Shared true; AllowedHosts allowed_hosts];;
  mret uri.

(** The allowed hosts are set but not written to disk. *)
Definition update_properties (l : nat) (allowed_hosts : list string) : M unit :=
  i ← info l;
  set_no_sync l (AllowedHosts allowed_hosts);;
  called (λ e, UpdateShareProperties e (bdev_name i)) (bdev_update_properties l allowed_hosts).

Definition unshare (l : nat) (persist : bool) : M unit :=
  i ← info l;
  called (λ e, LvolUnShare e (bdev_name i)) (bdev_unshare l);;
  if persist then set l (Shared false) else mret tt.

(** ** Lookup and space *)

Definition lookup_by_uuid_str (uuid : string) (s : spdk) : option nat :=
  u ← parse_uuid uuid; lvol_get_by_uuid s u.

Definition lookup_lvol_by_uuid_str (st : nat) (uuid : string) (s : spdk) : option nat :=
  u ← parse_uuid uuid; lvs_lvol_get_by_uuid s st u.

Definition clone_source (i : lvol_info) (s : spdk) : option nat :=
  u ← blob_xattr i (clone_attr_name SourceUuid); lookup_lvol_by_uuid_str (store i) u s.

Definition clone_count (i : lvol_info) (s : spdk) : Z :=
  count_real_clones s (store i) (clone_attr_name SourceUuid) (bdev_uuid i).

Definition has_clones (i : lvol_info) (s : spdk) : bool := 0 <? clone_count i s.

Definition allocated (l : nat) (i : lvol_info) (s : spdk) : Z :=
  wrap64 (cluster_size s (store i) * allocated_clusters s l).

Definition committed (l : nat) (i : lvol_info) (s : spdk) : Z :=
  if is_snapshot i then allocated l i s else size_in_bytes s l.

Definition lookup_info (s : spdk) (l : nat) : option (nat * lvol_info) := i ← lvols s !! l; Some (l, i).

Record LvolSpaceUsage := mkUsage {
  capacity_bytes : Z;
  allocated_bytes : Z;
  u_cluster_size : Z;
  u_num_clusters : Z;
  num_allocated_clusters : Z;
  num_allocated_clusters_snapshots : Z;
  allocated_bytes_snapshots : Z;
  allocated_bytes_snapshot_from_clone : option Z
}.

Definition ancestors (l : nat) (s : spdk) : Z :=
  match ancestor_clusters s l with inl c => c | inr _ => 0 end.

Definition ancestor_bytes (l : nat) (i : lvol_info) (s : spdk) : Z :=
  wrap64 (cluster_size s (store i) * ancestors l s).

(** ** Creating, resizing and destroying *)

Definition WIPE_SUPER_LEN : Z := 2^20 * 8.

(** The first 8 MiB are overwritten when the lvol is not unmapped. *)
Definition wipe_super (l : nat) : M unit :=
  i ← info l;
  s ← ST.get;
  if clear_with_unmap s l then mret tt
  else called (λ e, WipeFailed e (bdev_name i)) (bdev_write_zeroes l 0 (Z.min (size_in_bytes s l) WIPE_SUPER_LEN)).

Definition EAGAIN_rc : Z := 11.

(** [resize_replica] and [lvol_resize_cb]: a resize that did not reach the size
    is an error. *)
Definition resize_replica (l : nat) (resize_to : Z) : M unit :=
  i ← info l;
  rc ← call (vbdev_lvol_resize l resize_to);
  s ← ST.get;
  let rc := if (rc =? 0) && (size_in_bytes s l <? resize_to) then - EAGAIN_rc else rc in
  if rc =? 0 then mret tt else ST.fail (RepResize (from_i32 rc) (bdev_name i)).

(** Failing to unshare is ignored. *)
Definition destroy (l : nat) : M string :=
  ST.try (unshare l false);;
  i ← info l;
  rc ← call (vbdev_lvol_destroy l);
  if rc =? 0 then mret (bdev_name i) else ST.fail (RepDestroy (from_i32 rc) (bdev_name i)).

(** A snapshot that was discarded is destroyed with its last clone. *)
Definition destroy_replica (l : nat) : M string :=
  i ← info l;
  s ← ST.get;
  let snapshot_lvol := clone_source i s in
  destroy l;;
  match snapshot_lvol with
  | None => mret (bdev_name i)
  | Some sn =>
      si ← info sn;
      s ← ST.get;
      (if negb (has_clones si s) && is_discarded_snapshot si then destroy sn;; mret tt else mret tt);;
      mret (bdev_name i)
  end.

(** ** Snapshots and clones *)

Record SnapshotParams := mkParams {
  sp_entity_id : option string;
  sp_parent_id : option string;
  sp_txn_id : option string;
  sp_name : option string;
  sp_snapshot_uuid : option string;
  sp_create_time : option string;
  sp_discarded : bool
}.

Definition no_params : SnapshotParams := mkParams None None None None None None false.

(** [SnapshotParams::prepare]; [now] is the current time as text. *)
Definition prepare (now snap_name entity_id txn_id snap_uuid parent_id : string) : option SnapshotParams :=
  if bool_decide (snap_name = ""%string) then None
  else if bool_decide (entity_id = ""%string) then None
  else if bool_decide (txn_id = ""%string) then None
  else
    Some (mkParams (Some entity_id) (Some parent_id) (Some txn_id) (Some snap_name)
      (if bool_decide (snap_uuid = ""%string) then None else Some snap_uuid) (Some now) false).

Record CloneParams := mkCloneParams {
  cp_name : option string;
  cp_uuid : option string;
  cp_source_uuid : option string;
  cp_create_time : option string
}.

Definition prepare_clone (now clone_name clone_uuid source_uuid : string) : option CloneParams :=
  if bool_decide (clone_name = ""%string) then None
  else if bool_decide (clone_uuid = ""%string) then None
  else if bool_decide (source_uuid = ""%string) then None
  else Some (mkCloneParams (Some clone_name) (Some clone_uuid) (Some source_uuid) (Some now)).

(** The value of an attribute, or the message when it is not given. *)
Definition snapshot_value (p : SnapshotParams) (a : SnapshotXattrs) : option string * string :=
  match a with
  | TxId => (sp_txn_id p, "txn id not provided"%string)
  | SnapEntityId => (sp_entity_id p, "entity id not provided"%string)
  | ParentId => (sp_parent_id p, "parent id not provided"%string)
  | SnapshotUuid => (sp_snapshot_uuid p, "snapshot_uuid not provided"%string)
  | SnapshotCreateTime => (sp_create_time p, "create_time not provided"%string)
  | DiscardedSnapshot => (Some (show_bool (sp_discarded p)), ""%string)
  end.

Definition clone_value (p : CloneParams) (a : CloneXattrs) : option string * string :=
  match a with
  | SourceUuid => (cp_source_uuid p, "source uuid not provided"%string)
  | CloneCreateTime => (cp_create_time p, "create_time not provided"%string)
  | CloneUuid => (cp_uuid p, "clone_uuid not provided"%string)
  end.

(** [prepare_snapshot_xattrs] and [prepare_clone_xattrs]. *)
Fixpoint prepare_xattrs {A} (err : string → LvsError) (name : A → string) (value : A → option string * string)
    (attrs : list A) : outcome LvsError (list (string * string)) :=
  match attrs with
  | [] => Ok []
  | a :: attrs =>
      match value a with
      | (None, msg) => Err (err msg)
      | (Some v, _) =>
          v ← into_cstring v;
          r ← prepare_xattrs err name value attrs;
          Ok ((name a, xattr_value v) :: r)
      end
  end.

Definition prepare_snapshot_xattrs (i : lvol_info) (p : SnapshotParams) : outcome LvsError (list (string * string)) :=
  prepare_xattrs (SnapshotConfigFailed (bdev_name i)) snapshot_attr_name (snapshot_value p) snapshot_xattrs.

Definition prepare_clone_xattrs (i : lvol_info) (p : CloneParams) : outcome LvsError (list (string * string)) :=
  prepare_xattrs (CloneConfigFailed (bdev_name i)) clone_attr_name (clone_value p) clone_xattrs.

Definition create_snapshot (l : nat) (p : SnapshotParams) : M nat :=
  i ← info l;
  xs ← ST.lift (prepare_snapshot_xattrs i p);
  name ← ST.lift (of_option (sp_name p));
  name ← ST.lift (into_cstring name);
  r ← call (vbdev_lvol_create_snapshot_ext l name xs);
  match r with
  | inl sn => mret sn
  | inr e => ST.fail (SnapshotCreate (from_errno e) name)
  end.

Definition create_clone (l : nat) (p : CloneParams) : M nat :=
  i ← info l;
  xs ← ST.lift (prepare_clone_xattrs i p);
  name ← ST.lift (into_cstring (default ""%string (cp_name p)));
  r ← call (vbdev_lvol_create_clone_ext l name xs);
  match r with
  | inl c => mret c
  | inr e => ST.fail (SnapshotCloneCreate (from_errno e) name)
  end.

Definition destroy_snapshot (l : nat) : M unit :=
  i ← info l;
  s ← ST.get;
  if negb (has_clones i s) then destroy l;; mret tt
  else set_blob_attr l (snapshot_attr_name DiscardedSnapshot) (show_bool true) true.

Record SnapshotInfo := mkSnapshotInfo {
  source_uuid : string;
  snapshot_size : Z;
  snap_param : SnapshotParams;
  num_clones : Z;
  valid_snapshot : bool
}.

(** One round of the loop of [snapshot_descriptor_info]; [None] when the parent
    does not match. *)
Definition read_attr (parent_uuid : option string) (i : lvol_info) (a : SnapshotXattrs) (pv : SnapshotParams * bool) :
    option (SnapshotParams * bool) :=
  let '(p, valid) := pv in
  match blob_xattr i (snapshot_attr_name a) with
  | None => Some (p, false)
  | Some v =>
      match a with
      | ParentId =>
          if match parent_uuid with Some u => negb (bool_decide (v = u)) | None => false end then None
          else Some (mkParams (sp_entity_id p) (Some v) (sp_txn_id p) (sp_name p) (sp_snapshot_uuid p) (sp_create_time p) (sp_discarded p), valid)
      | SnapEntityId =>
          Some (mkParams (Some v) (sp_parent_id p) (sp_txn_id p) (sp_name p) (sp_snapshot_uuid p) (sp_create_time p) (sp_discarded p), valid)
      | TxId =>
          Some (mkParams (sp_entity_id p) (sp_parent_id p) (Some v) (sp_name p) (sp_snapshot_uuid p) (sp_create_time p) (sp_discarded p), valid)
      | SnapshotUuid =>
          Some (mkParams (sp_entity_id p) (sp_parent_id p) (sp_txn_id p) (sp_name p) (Some v) (sp_create_time p) (sp_discarded p), valid)
      | SnapshotCreateTime =>
          Some (mkParams (sp_entity_id p) (sp_parent_id p) (sp_txn_id p) (sp_name p) (sp_snapshot_uuid p) (Some v) (sp_discarded p), valid)
      | DiscardedSnapshot =>
          Some (mkParams (sp_entity_id p) (sp_parent_id p) (sp_txn_id p) (sp_name p) (sp_snapshot_uuid p) (sp_create_time p)
                  (default false (parse_bool v)), valid)
      end
  end.

Fixpoint read_attrs (parent_uuid : option string) (i : lvol_info) (attrs : list SnapshotXattrs) (pv : SnapshotParams * bool) :
    option (SnapshotParams * bool) :=
  match attrs with
  | [] => Some pv
  | a :: attrs => pv ← read_attr parent_uuid i a pv; read_attrs parent_uuid i attrs pv
  end.

Definition snapshot_descriptor_info (l : nat) (i : lvol_info) (parent_uuid : option string) (s : spdk) : option SnapshotInfo :=
  '(p, valid) ← read_attrs parent_uuid i snapshot_xattrs (no_params, true);
  let p := mkParams (sp_entity_id p) (sp_parent_id p) (sp_txn_id p) (Some (bdev_name i)) (sp_snapshot_uuid p) (sp_create_time p) (sp_discarded p) in
  Some (mkSnapshotInfo (default (default ""%string (sp_parent_id p)) parent_uuid) (allocated l i s) p (clone_count i s) valid).

(** ** Listing *)

(** [Lvol::list_all_lvol_snapshots] *)
Definition list_all_snapshots (parent_uuid : option string) (s : spdk) : list (nat * SnapshotInfo) :=
  omap (λ l,
    '(l, i) ← lookup_info s l;
    if is_snapshot i then d ← snapshot_descriptor_info l i parent_uuid s; Some (l, d) else None) (lvol_bdevs s).

(** [LvolSnapshotIter::parent]: the next blob and the descriptor of its lvol,
    which is looked up among the lvols of all stores. *)
Definition iter_parent (blob : nat) (s : spdk) : option (nat * (nat * SnapshotInfo)) :=
  p ← blob_parent s blob;
  pi ← lvols s !! p;
  uuid ← blob_xattr pi (snapshot_attr_name SnapshotUuid);
  sn ← lookup_by_uuid_str uuid s;
  si ← lvols s !! sn;
  d ← snapshot_descriptor_info sn si None s;
  Some (p, (sn, d)).

(** [list_lvol_snapshot_by_source_uuid]: the chain of parents while they were
    taken of this lvol; there are no more than lvols. *)
Fixpoint list_from (fuel : nat) (uuid : string) (blob : nat) (s : spdk) : list (nat * SnapshotInfo) :=
  match fuel with
  | O => []
  | S fuel =>
      match iter_parent blob s with
      | None => []
      | Some (p, d) => if bool_decide (source_uuid (snd d) = uuid) then d :: list_from fuel uuid p s else []
      end
  end.

Definition list_snapshot_by_source_uuid (l : nat) (i : lvol_info) (s : spdk) : list (nat * SnapshotInfo) :=
  list_from (size (lvols s)) (bdev_uuid i) l s.

Definition list_all_clones (s : spdk) : list nat :=
  omap (λ l, i ← lvols s !! l; if is_clone i then Some l else None) (lvol_bdevs s).

Definition list_clones_by_snapshot_uuid (i : lvol_info) (s : spdk) : list nat :=
  get_real_clones s (store i) (clone_attr_name SourceUuid) (bdev_uuid i).

(** [destroy_pending_discarded_snapshot]: errors are ignored. *)
Definition pending_discarded (s : spdk) : list nat :=
  omap (λ l,
    i ← lvols s !! l;
    if is_snapshot i && is_discarded_snapshot i && negb (has_clones i s) then Some l else None) (lvol_bdevs s).

Fixpoint destroy_all (ls : list nat) : M unit :=
  match ls with
  | [] => mret tt
  | l :: ls => ST.try (destroy l);; destroy_all ls
  end.

Definition destroy_pending_discarded_snapshot : M unit :=
  s ← ST.get;
  destroy_all (pending_discarded s).

(** [calculate_clone_source_snap_usage]: for a snapshot of a clone, what its
    ancestors use beyond the snapshot the clone was made of; for a clone, what
    its snapshots use. *)
Definition calculate_clone_source_snap_usage (i : lvol_info) (total : Z) (s : spdk) : option Z :=
  if is_snapshot i then
    u ← blob_xattr i (snapshot_attr_name ParentId);
    pa ← lookup_lvol_by_uuid_str (store i) u s;
    pi ← lvols s !! pa;
    sn ← clone_source pi s;
    si ← lvols s !! sn;
    Some (wrap64 (total - wrap64 (ancestor_bytes sn si s + allocated sn si s)))
  else if is_clone i then
    Some (fold_right (λ d acc, wrap64 (snapshot_size (snd d) + acc)) 0 (list_all_snapshots (Some (bdev_uuid i)) s))
  else None.

Definition usage (l : nat) (i : lvol_info) (s : spdk) : LvolSpaceUsage :=
  mkUsage (size_in_bytes s l) (allocated l i s) (cluster_size s (store i)) (num_clusters s l) (allocated_clusters s l)
    (ancestors l s) (ancestor_bytes l i s) (calculate_clone_source_snap_usage i (ancestor_bytes l i s) s).

End Ops.

(** ** What SPDK documents *)

Definition set_attr (n v : string) (i : lvol_info) : lvol_info :=
  mkInfo (store i) (bdev_name i) (bdev_uuid i) (<[n := v]> (xattrs i)).

Notation attrs_of xs := (list_to_map (M := gmap string string) xs).

(** A new lvol has the attributes it was created with, and those in which SPDK
    keeps its name and uuid. *)
Definition created_with `{Spdk} (st : nat) (name : string) (xs : list (string * string)) (i : lvol_info) : Prop :=
  store i = st ∧ bdev_name i = name ∧
  (∀ n v, attrs_of xs !! n = Some v → xattrs i !! n = Some v) ∧
  (∀ n, n ≠ "name"%string → n ≠ "uuid"%string → xattrs i !! n = attrs_of xs !! n) ∧
  (∀ v, attrs_of xs !! "uuid"%string = Some v → parse_uuid v = Some (bdev_uuid i)).

Definition same_lvols `{Spdk} (s s' : spdk) : Prop :=
  lvols s' = lvols s ∧ ∀ l, durable s' l = durable s l.

Class SpdkLaws `{SP : Spdk} : Prop := {
  bdevs_nodup s : NoDup (lvol_bdevs s);
  bdevs_lvols s l : l ∈ lvol_bdevs s ↔ is_Some (lvols s !! l);
  uuid_canonical u c : parse_uuid u = Some c →
    parse_uuid c = Some c ∧ strlen c = 36 ∧ has NUL c = false ∧ utf8_valid c = true;
  uuid_of_lvol s l i : lvols s !! l = Some i → parse_uuid (bdev_uuid i) = Some (bdev_uuid i);
  uuid_unique s l l' i i' : lvols s !! l = Some i → lvols s !! l' = Some i' → bdev_uuid i = bdev_uuid i' → l = l';
  by_uuid_some s u l : lvol_get_by_uuid s u = Some l → ∃ i, lvols s !! l = Some i ∧ bdev_uuid i = u;
  by_uuid_none s u : lvol_get_by_uuid s u = None → ∀ l i, lvols s !! l = Some i → bdev_uuid i ≠ u;
  lvs_by_uuid_some s st u l : lvs_lvol_get_by_uuid s st u = Some l →
    ∃ i, lvols s !! l = Some i ∧ store i = st ∧ bdev_uuid i = u;
  lvs_by_uuid_none s st u : lvs_lvol_get_by_uuid s st u = None →
    ∀ l i, lvols s !! l = Some i → store i = st → bdev_uuid i ≠ u;
  count_clones s st a u : count_real_clones s st a u =
    Z.of_nat (size (filter (λ li : nat * lvol_info, store li.2 = st ∧ xattrs li.2 !! a = Some u) (lvols s)));
  set_xattr_law l n v s s' rc : blob_set_xattr l n v s = (s', rc) →
    lvols s' = (if rc =? 0 then alter (set_attr n v) l (lvols s) else lvols s) ∧ ∀ l', durable s' l' = durable s l';
  sync_md_law l s s' rc : blob_sync_md l s = (s', rc) →
    lvols s' = lvols s ∧
    ∀ l', durable s' l' =
      if (rc =? 0) && (l' =? l)%nat then from_option xattrs ∅ (lvols s !! l) else durable s l';
  destroy_law l s s' rc : vbdev_lvol_destroy l s = (s', rc) →
    lvols s' = if rc =? 0 then delete l (lvols s) else lvols s;
  resize_law l n s s' rc : vbdev_lvol_resize l n s = (s', rc) → same_lvols s s';
  snapshot_law l n xs s s' sn : vbdev_lvol_create_snapshot_ext l n xs s = (s', inl sn) →
    lvols s !! sn = None ∧ (∃ i si, lvols s !! l = Some i ∧ lvols s' = <[sn := si]> (lvols s) ∧ created_with (store i) n xs si) ∧
    blob_parent s' l = Some sn ∧ blob_parent s' sn = blob_parent s l ∧
    ∀ l', l' ≠ l → l' ≠ sn → blob_parent s' l' = blob_parent s l';
  snapshot_err l n xs s s' e : vbdev_lvol_create_snapshot_ext l n xs s = (s', inr e) → lvols s' = lvols s;
  clone_law l n xs s s' c : vbdev_lvol_create_clone_ext l n xs s = (s', inl c) →
    lvols s !! c = None ∧ (∃ i ci, lvols s !! l = Some i ∧ lvols s' = <[c := ci]> (lvols s) ∧ created_with (store i) n xs ci) ∧
    blob_parent s' c = Some l ∧ ∀ l', l' ≠ c → blob_parent s' l' = blob_parent s l';
  clone_err l n xs s s' e : vbdev_lvol_create_clone_ext l n xs s = (s', inr e) → lvols s' = lvols s;
  zeroes_law l o n s : same_lvols s (fst (bdev_write_zeroes l o n s));
  share_law l hs s : same_lvols s (fst (bdev_share_nvmf l hs s));
  unshare_law l s : same_lvols s (fst (bdev_unshare l s));
  update_law l hs s : same_lvols s (fst (bdev_update_properties l hs s))
}.

End Lvol.
