(* ===== verification/LvsLvolProps.v ===== *)
(** * Logical volumes: properties

    What is stored in the extended attributes of an lvol is read back: the
    properties of a replica and the parameters of a snapshot. *)

From Stdlib Require Import Ascii String.
From S2P Require Import Prelude Text Errors NexusChild NexusErrors LvsErrors LvsLvol.
Import LvsErr Lvol.

#[local] Open Scope Z_scope.

Module LvolProps.
Section Facts.
Context `{SL : SpdkLaws}.

(** ** Running the monad *)

Lemma info_some s l i : lvols s !! l = Some i → info l s = (s, Ok i).
Proof. intros Hi. unfold info. by rewrite Hi. Qed.

Lemma bind_run {S E A B} (m : ST S E A) (k : A → ST S E B) s s1 a :
  m s = (s1, Ok a) → (m ≫= k) s = k a s1.
Proof. intros Hm. unfold mbind, ST_bind. by rewrite Hm. Qed.

Lemma bind_inv {S E A B} (m : ST S E A) (k : A → ST S E B) s s2 b :
  (m ≫= k) s = (s2, Ok b) → ∃ s1 a, m s = (s1, Ok a) ∧ k a s1 = (s2, Ok b).
Proof. unfold mbind, ST_bind. destruct (m s) as [s1 [a|e|]]; intros H; simplify_eq; eauto. Qed.

Lemma try_run {S E E' A} (m : ST S E A) s s1 r :
  m s = (s1, r) → r ≠ Panicked → @ST.try S E E' A m s = (s1, Ok r).
Proof. intros Hm Hr. unfold ST.try. rewrite Hm. by destruct r. Qed.

(** ** Properties *)

(** Text that fits an attribute with its terminator. *)
Definition text_ok (v : string) : Prop := utf8_valid v = true ∧ has NUL v = false ∧ strlen v + 1 < 2^16.

Definition stored_text (p : PropValue) : string :=
  match p with Shared b => show_bool b | AllowedHosts hosts => join "," hosts | EntityId id => id end.

(** A list of hosts that is read back: its text is not that of the empty list,
    and no host has a comma. *)
Definition storable (p : PropValue) : Prop :=
  match p with
  | Shared _ => True
  | AllowedHosts hosts =>
      hosts ≠ [""%string] ∧ Forall (λ h, has "," h = false ∧ has NUL h = false ∧ utf8_valid h = true) hosts
      ∧ strlen (join "," hosts) + 1 < 2^16
  | EntityId id => text_ok id
  end.

Definition same_prop (p q : PropValue) : Prop :=
  match p, q with AllowedHosts h, AllowedHosts h' => h ≡ₚ h' | _, _ => p = q end.

Lemma same_prop_refl p : same_prop p p.
Proof. by destruct p; simpl. Qed.

(** The properties that are stored are terminated by a NUL. *)
Definition terminated (i : lvol_info) : Prop :=
  ∀ p v, xattrs i !! show_name p = Some v → has NUL v = true.

Definition read (prop : PropName) (v : string) : option PropValue :=
  if utf8_valid v then
    match prop with
    | PnShared => Shared <$> parse_bool v
    | PnAllowedHosts => Some (AllowedHosts (if bool_decide (v = ""%string) then [] else split "," v))
    | PnEntityId => Some (EntityId v)
    end
  else None.

Lemma get_run l prop s i :
  lvols s !! l = Some i → terminated i → get l prop s =
    (s, match xattrs i !! show_name prop with
        | None => Err (GetProperty (from_errno ENOENT) (show_name prop) (bdev_name i))
        | Some v => match read prop (c_str v) with Some p => Ok p | None => Err (Property (bdev_name i)) end
        end).
Proof.
  intros Hi Ht. unfold get. rewrite (bind_run _ _ _ _ _ (info_some s l i Hi)).
  destruct (xattrs i !! show_name prop) as [v|] eqn:Hv; [|done]. rewrite (Ht _ _ Hv). cbn [negb].
  unfold read. destruct (utf8_valid (c_str v)); cbn [negb]; [|done].
  destruct prop; [|done..]. by destruct (parse_bool (c_str v)).
Qed.

Lemma get_no_panic l prop s i : lvols s !! l = Some i → terminated i → snd (get l prop s) ≠ Panicked.
Proof.
  intros Hi Ht. rewrite (get_run l prop s i Hi Ht). simpl.
  destruct (xattrs i !! show_name prop) as [v|]; [|done]. by destruct (read _ _).
Qed.

Lemma stored_text_ok p : storable p → text_ok (stored_text p).
Proof.
  destruct p as [b|hosts|id]; simpl; [intros _; by destruct b| |done].
  intros (_ & Hh & Hlen). split_and!; [| |done].
  - apply utf8_valid_join; [done|]. eapply Forall_impl; [exact Hh|]. by intros ? (? & ? & ?).
  - apply has_join; [done|]. eapply Forall_impl; [exact Hh|]. by intros ? (? & ? & ?).
Qed.

(** The text of a property is read back as that property. *)
Lemma read_stored p : storable p → read (prop_name p) (stored_text p) = Some p.
Proof.
  intros Hp. destruct (stored_text_ok p Hp) as (Hu & _ & _). unfold read. rewrite Hu.
  destruct p as [b|hosts|id]; simpl in *; [by rewrite parse_show_bool| |done].
  destruct Hp as (H1 & Hh & _). do 2 f_equal. destruct hosts as [|h hs]; [done|].
  assert (Hne : join "," (h :: hs) ≠ ""%string).
  { destruct hs as [|h' hs]; simpl; [by intros ->|]. by destruct h. }
  rewrite bool_decide_eq_false_2 by done. apply split_join; [done|].
  eapply Forall_impl; [exact Hh|]. by intros ? (? & ? & ?).
Qed.

Lemma sorted_storable hosts : storable (AllowedHosts hosts) → storable (AllowedHosts (sort hosts)).
Proof.
  intros (Hne & Hh & Hlen). pose proof (sort_permutation hosts) as Hp. split_and!.
  - intros He. rewrite He in Hp. symmetry in Hp. by apply Permutation_singleton_r in Hp.
  - by rewrite Hp.
  - assert (Hj : ∀ l l', l ≡ₚ l' → strlen (join "," l) = strlen (join "," l')); [|by rewrite (Hj _ _ Hp)].
    assert (Hs : ∀ l, strlen (join "," l) = fold_right (λ h n, strlen h + 1 + n) 0 l - (if l is [] then 0 else 1)).
    { induction l as [|x [|y l] IH]; [done|simpl; lia|].
      change (join "," (x :: y :: l)) with (x +:+ String "," (join "," (y :: l)))%string.
      rewrite strlen_app. unfold strlen at 2. cbn [String.length]. rewrite Nat2Z.inj_succ.
      change (Z.of_nat (String.length ?x)) with (strlen x). rewrite IH. simpl. lia. }
    intros l l' Hl. rewrite !Hs. rewrite (foldr_permutation (=) _ 0 l l'); [|intros; lia|done].
    destruct l, l'; [done|by apply Permutation_length in Hl..|done].
Qed.

(** What is written is the text of an equal property. *)
Lemma new_value_some p cur v :
  storable p → new_value p cur = Some v → ∃ p', v = stored_text p' ∧ storable p' ∧ same_prop p' p ∧ prop_name p' = prop_name p.
Proof.
  intros Hp. destruct p as [b|hosts|id].
  - intros Hv. exists (Shared b). split_and!; try done. destruct cur as [[b'| |]|e|]; simpl in Hv; try by simplify_eq.
    destruct (eqb b b'); by simplify_eq.
  - assert (Hplain : v = join "," hosts → ∃ p', v = stored_text p' ∧ storable p' ∧ same_prop p' (AllowedHosts hosts)
        ∧ prop_name p' = PnAllowedHosts) by (intros ->; exists (AllowedHosts hosts); split_and!; try done; apply same_prop_refl).
    destruct cur as [[|hl|]|e|]; simpl; try (intros; simplify_eq; by apply Hplain).
    destruct (_ =? _)%nat; [|intros; simplify_eq; by apply Hplain].
    case_bool_decide; [done|]. intros ?; simplify_eq. exists (AllowedHosts (sort hosts)).
    split_and!; [done|by apply sorted_storable|apply sort_permutation|done].
  - intros Hv. exists (EntityId id). split_and!; try done. destruct cur as [[| |id']|e|]; simpl in Hv; try by simplify_eq.
    case_bool_decide; by simplify_eq.
Qed.

(** Nothing is written when the property is there already. *)
Lemma new_value_none p cur : new_value p cur = None → ∃ p', cur = Ok p' ∧ same_prop p' p.
Proof.
  destruct p as [b|hosts|id]; destruct cur as [[b'|hl|id']|e|]; simpl; try done.
  - destruct (eqb b b') eqn:Hb; [|done]. apply eqb_prop in Hb as ->. by exists (Shared b').
  - destruct (_ =? _)%nat; [|done]. case_bool_decide as Hs; [|done]. intros _. eexists. split; [done|]. simpl.
    by rewrite <- (sort_permutation hl), <- Hs, sort_permutation.
  - case_bool_decide; [|done]. subst. by exists (EntityId id).
Qed.

(** ** Writing a property *)

Lemma xattr_value_id v : strlen v < 2^16 → xattr_value v = v.
Proof.
  intros Hv. unfold xattr_value. rewrite Z.mod_small by (unfold strlen in *; lia).
  apply prefix_all. unfold strlen. lia.
Qed.

(** The three outcomes of [set_no_sync]. *)
Lemma set_no_sync_cases l p s s' r i :
  lvols s !! l = Some i → is_snapshot i = false → terminated i → storable p → set_no_sync l p s = (s', r) →
  let n := show_name (prop_name p) in
  (r = Ok false ∧ s' = s ∧ ∃ p', get l (prop_name p) s = (s, Ok p') ∧ same_prop p' p) ∨
  (r = Ok true ∧ (∀ l', durable s' l' = durable s l') ∧
     ∃ p', lvols s' = <[l := set_attr n (stored_text p' +:+ nul)%string i]> (lvols s) ∧ storable p' ∧ same_prop p' p
           ∧ prop_name p' = prop_name p) ∨
  (∃ rc, r = Err (SetProperty (from_i32 rc) n (bdev_name i)) ∧ same_lvols s s').
Proof.
  intros Hi Hns Ht Hp Hset. unfold set_no_sync in Hset. rewrite (bind_run _ _ _ _ _ (info_some s l i Hi)), Hns in Hset.
  destruct (get l (prop_name p) s) as [s1 cur] eqn:Hg. pose proof (get_no_panic l (prop_name p) s i Hi Ht) as Hnp.
  rewrite Hg in Hnp. assert (s1 = s) as -> by (rewrite (get_run l _ s i Hi Ht) in Hg; congruence).
  rewrite (bind_run _ _ _ _ _ (try_run _ _ _ _ Hg Hnp)) in Hset.
  destruct (new_value p cur) as [v|] eqn:Hv.
  2:{ destruct (new_value_none p cur Hv) as (p' & -> & Hs). left. unfold mret, ST_ret in Hset. simplify_eq. eauto. }
  right. destruct (new_value_some p cur v Hp Hv) as (p' & -> & Hp' & Hs & Hn).
  destruct (stored_text_ok p' Hp') as (Hu & Hnul & Hlen). unfold into_cstring in Hset. rewrite Hnul in Hset.
  unfold mbind, ST_bind, ST.lift, call in Hset. rewrite xattr_value_id in Hset.
  2:{ rewrite strlen_app. unfold strlen at 2. simpl. lia. }
  destruct (blob_set_xattr l _ _ s) as [s2 rc] eqn:Hx. destruct (set_xattr_law _ _ _ _ _ _ Hx) as [Hl Hd].
  destruct (rc =? 0); unfold mret, ST_ret, ST.fail in Hset; simplify_eq; [left|right; by exists rc].
  split_and!; try done. exists p'. split_and!; try done. rewrite Hl. apply map_eq. intros k.
  destruct (decide (k = l)) as [->|Hk]; [by rewrite lookup_alter_eq, lookup_insert_eq, Hi|].
  by rewrite lookup_alter_ne, lookup_insert_ne.
Qed.

Lemma get_after_set l p' s s' i :
  storable p' → terminated i →
  lvols s' = <[l := set_attr (show_name (prop_name p')) (stored_text p' +:+ nul)%string i]> (lvols s) →
  get l (prop_name p') s' = (s', Ok p').
Proof.
  intros Hp Ht Hl. destruct (stored_text_ok p' Hp) as (Hu & Hnul & _).
  assert (Hx : xattrs (set_attr (show_name (prop_name p')) (stored_text p' +:+ nul)%string i) !! show_name (prop_name p')
    = Some (stored_text p' +:+ nul)%string) by apply lookup_insert_eq.
  rewrite (get_run l _ s' (set_attr (show_name (prop_name p')) (stored_text p' +:+ nul)%string i)).
  - rewrite Hx. unfold nul. rewrite c_str_terminated by done. by rewrite read_stored.
  - rewrite Hl. apply lookup_insert_eq.
  - intros q v. simpl. destruct (decide (show_name q = show_name (prop_name p'))) as [->|Hne].
    + rewrite lookup_insert_eq. intros ?; simplify_eq. by rewrite has_app, orb_true_r.
    + rewrite lookup_insert_ne by done. apply Ht.
Qed.

Lemma is_snapshot_set_attr n v i :
  n ≠ snapshot_attr_name SnapshotCreateTime → is_snapshot (set_attr n v i) = is_snapshot i.
Proof. intros Hn. unfold is_snapshot, blob_xattr. simpl. by rewrite lookup_insert_ne. Qed.

Lemma sync_metadata_run l s s' r i :
  lvols s !! l = Some i → is_snapshot i = false → sync_metadata l s = (s', r) →
  r ≠ Panicked ∧ lvols s' = lvols s ∧ (r = Ok tt → durable s' l = xattrs i).
Proof.
  intros Hi Hns Hs. unfold sync_metadata in Hs. rewrite (bind_run _ _ _ _ _ (info_some s l i Hi)), Hns in Hs.
  unfold mbind, ST_bind, call in Hs. destruct (blob_sync_md l s) as [s1 rc] eqn:Hm.
  destruct (sync_md_law _ _ _ _ Hm) as [Hl Hd]. destruct (rc =? 0) eqn:Hrc; unfold mret, ST_ret, ST.fail in Hs; simplify_eq.
  - split_and!; try done. intros _. by rewrite Hd, Nat.eqb_refl, Hi.
  - by split_and!.
Qed.

Lemma show_name_not_snapshot p : show_name p ≠ snapshot_attr_name SnapshotCreateTime.
Proof. by destruct p. Qed.

Lemma terminated_set i p v : terminated i → has NUL v = true → terminated (set_attr (show_name p) v i).
Proof.
  intros Ht Hv q w. simpl. destruct (decide (show_name q = show_name p)) as [->|Hne].
  - rewrite lookup_insert_eq. congruence.
  - rewrite lookup_insert_ne by done. apply Ht.
Qed.

(** Setting a property changes one attribute of the lvol at most. *)
Lemma set_effect l p s s' r i :
  lvols s !! l = Some i → is_snapshot i = false → terminated i → storable p → set l p s = (s', r) →
  r ≠ Panicked ∧ ∃ i', lvols s' = <[l := i']> (lvols s) ∧ terminated i' ∧
    store i' = store i ∧ bdev_name i' = bdev_name i ∧ bdev_uuid i' = bdev_uuid i ∧
    (∀ n, n ≠ show_name (prop_name p) → xattrs i' !! n = xattrs i !! n) ∧
    (r = Ok tt → (∃ p', get l (prop_name p) s' = (s', Ok p') ∧ same_prop p' p) ∧
       ((∀ p', snd (get l (prop_name p) s) = Ok p' → ¬ same_prop p' p) → durable s' l = xattrs i')).
Proof.
  intros Hi Hns Ht Hp Hset. unfold set, mbind, ST_bind in Hset. destruct (set_no_sync l p s) as [s1 r1] eqn:Hn.
  assert (Hid : <[l := i]> (lvols s) = lvols s) by (by apply insert_id).
  destruct (set_no_sync_cases l p s s1 r1 i Hi Hns Ht Hp Hn) as
    [(-> & -> & p' & Hg & Hs)|[(-> & Hd & p' & Hl & Hp' & Hs & Hname)|(rc & -> & Hl & _)]]; cbn in Hset.
  - unfold mret, ST_ret in Hset. simplify_eq. split; [done|]. exists i. split_and!; try done. intros _. split; [eauto|].
    intros Hd. rewrite Hg in Hd. by destruct (Hd p').
  - set (j := set_attr (show_name (prop_name p)) (stored_text p' +:+ nul)%string i) in *.
    assert (Hj : lvols s1 !! l = Some j) by (rewrite Hl; apply lookup_insert_eq).
    assert (Htj : terminated j) by (apply terminated_set; [done|by rewrite has_app, orb_true_r]).
    destruct (sync_metadata_run l s1 s' r j Hj) as (Hr & Hl' & Hdur); [|done|].
    { unfold j. rewrite is_snapshot_set_attr; [done|apply show_name_not_snapshot]. }
    split; [done|]. exists j. split_and!; try done; [congruence| |].
    + intros n Hne. unfold j. simpl. by rewrite lookup_insert_ne.
    + intros Hok. split; [|auto]. exists p'. split; [|done]. rewrite <- Hname. apply (get_after_set l p' s s' i Hp' Ht).
      rewrite Hl', Hl. unfold j. by rewrite Hname.
  - simplify_eq. split; [done|]. exists i. split_and!; try done. congruence.
Qed.

(** Whatever the value, setting a property changes one attribute of the lvol at
    most. *)
Definition one_attr (n : string) (i i' : lvol_info) : Prop :=
  store i' = store i ∧ bdev_name i' = bdev_name i ∧ bdev_uuid i' = bdev_uuid i ∧ ∀ m, m ≠ n → xattrs i' !! m = xattrs i !! m.

Lemma set_no_sync_only l p s s' r i :
  lvols s !! l = Some i → is_snapshot i = false → terminated i → set_no_sync l p s = (s', r) →
  ∃ i', lvols s' = <[l := i']> (lvols s) ∧ one_attr (show_name (prop_name p)) i i'.
Proof.
  intros Hi Hns Ht Hset. assert (Hid : ∃ i', lvols s = <[l := i']> (lvols s) ∧ one_attr (show_name (prop_name p)) i i')
    by (exists i; by rewrite insert_id). revert Hset.
  unfold set_no_sync. rewrite (bind_run _ _ _ _ _ (info_some s l i Hi)), Hns.
  destruct (get l (prop_name p) s) as [s1 cur] eqn:Hg. pose proof (get_no_panic l (prop_name p) s i Hi Ht) as Hnp.
  rewrite Hg in Hnp. assert (s1 = s) as -> by (rewrite (get_run l _ s i Hi Ht) in Hg; congruence).
  rewrite (bind_run _ _ _ _ _ (try_run _ _ _ _ Hg Hnp)).
  destruct (new_value p cur) as [v|]; [|by intros [= <- <-]].
  unfold mbind, ST_bind, ST.lift, call, into_cstring. destruct (has NUL v); [by intros [= <- <-]|].
  destruct (blob_set_xattr l _ _ s) as [s2 rc] eqn:Hx. destruct (set_xattr_law _ _ _ _ _ _ Hx) as [Hl _].
  destruct (rc =? 0); intros [= <- <-]; [|by rewrite Hl].
  eexists. split; [rewrite Hl; apply map_eq; intros k; destruct (decide (k = l)) as [->|Hk]|].
  - by rewrite lookup_alter_eq, lookup_insert_eq, Hi.
  - by rewrite lookup_alter_ne, lookup_insert_ne.
  - split_and!; try done. intros m Hm. simpl. by rewrite lookup_insert_ne.
Qed.

Lemma set_only l p s s' r i :
  lvols s !! l = Some i → is_snapshot i = false → terminated i → set l p s = (s', r) →
  ∃ i', lvols s' = <[l := i']> (lvols s) ∧ one_attr (show_name (prop_name p)) i i'.
Proof.
  intros Hi Hns Ht. unfold set, mbind, ST_bind. destruct (set_no_sync l p s) as [s1 r1] eqn:Hn.
  destruct (set_no_sync_only l p s s1 r1 i Hi Hns Ht Hn) as (i' & Hl & Ho).
  destruct r1 as [[]| |]; [|by intros [= <- <-]; exists i'..]. intros Hs.
  assert (Hi' : lvols s1 !! l = Some i') by (rewrite Hl; apply lookup_insert_eq).
  destruct (sync_metadata_run l s1 s' r i' Hi') as (_ & Hl' & _); [|done|exists i'; by rewrite Hl'].
  revert Hns. unfold is_snapshot, blob_xattr. destruct Ho as (_ & _ & _ & Hx). rewrite Hx; [done|].
  intros E. by apply (show_name_not_snapshot (prop_name p)).
Qed.

(** A property that is set on a replica is read back as it was set, a
    list of hosts up to its order, whatever was stored before; the other
    properties and the other lvols are left alone, and a value that differs
    from the one before is on disk when the call returns.  Nothing panics.  The
    text has to fit the 16 bit length of an attribute, and hosts have no comma. *)
Theorem property_round_trip l p s s' r i :
  lvols s !! l = Some i → is_snapshot i = false → terminated i → storable p → set l p s = (s', r) →
  r ≠ Panicked ∧ (∀ l', l' ≠ l → lvols s' !! l' = lvols s !! l') ∧
  ∃ i', lvols s' !! l = Some i' ∧ terminated i' ∧
    (∀ n, n ≠ show_name (prop_name p) → xattrs i' !! n = xattrs i !! n) ∧
    (r = Ok tt → (∃ p', get l (prop_name p) s' = (s', Ok p') ∧ same_prop p' p) ∧
       ((∀ p', snd (get l (prop_name p) s) = Ok p' → ¬ same_prop p' p) → durable s' l = xattrs i')).
Proof.
  intros Hi Hns Ht Hp Hset. destruct (set_effect l p s s' r i Hi Hns Ht Hp Hset) as (Hr & i' & Hl & Ht' & _ & _ & _ & Hx & Hok).
  split_and!; [done|intros; by rewrite Hl, lookup_insert_ne|]. exists i'. rewrite Hl, lookup_insert_eq. by split_and!.
Qed.

(** ** Parameters of a snapshot *)

(** Text that is kept in an attribute without a terminator. *)
Definition attr_ok (v : string) : Prop := v ≠ ""%string ∧ utf8_valid v = true ∧ has NUL v = false ∧ strlen v < 2^16.

Lemma blob_xattr_stored i n v : xattrs i !! n = Some v → attr_ok v → blob_xattr i n = Some v.
Proof.
  intros Hn (Hne & Hu & Hnul & _). unfold blob_xattr. rewrite Hn, strip_nuls_id by done.
  by rewrite bool_decide_eq_false_2, Hu.
Qed.

Lemma uuid_attr_ok u c : parse_uuid u = Some c → attr_ok c.
Proof.
  intros Hu. destruct (uuid_canonical u c Hu) as (_ & Hl & Hn & Hv). split_and!; try done; [by intros ->|lia].
Qed.

Lemma show_bool_attr_ok b : attr_ok (show_bool b).
Proof. by destruct b. Qed.

Lemma cstring_ok {E} v : attr_ok v → into_cstring (E := E) v = Ok v.
Proof. intros (_ & _ & Hn & _). unfold into_cstring. by rewrite Hn. Qed.

Lemma attr_value_id v : attr_ok v → xattr_value v = v.
Proof. intros (_ & _ & _ & Hl). by apply xattr_value_id. Qed.

Definition snapshot_attrs (now eid txn uuid parent : string) : list (string * string) :=
  [(snapshot_attr_name ParentId, parent); (snapshot_attr_name TxId, txn); (snapshot_attr_name SnapEntityId, eid);
   (snapshot_attr_name SnapshotUuid, uuid); (snapshot_attr_name SnapshotCreateTime, now);
   (snapshot_attr_name DiscardedSnapshot, show_bool false)].

Lemma prepared_snapshot now name eid txn uuid parent p i :
  prepare now name eid txn uuid parent = Some p → attr_ok now → attr_ok eid → attr_ok txn → attr_ok uuid → attr_ok parent →
  p = mkParams (Some eid) (Some parent) (Some txn) (Some name) (Some uuid) (Some now) false ∧
  prepare_snapshot_xattrs i p = Ok (snapshot_attrs now eid txn uuid parent).
Proof.
  intros Hp Hnow Heid Htxn Huuid Hpar. unfold prepare in Hp. repeat case_bool_decide; simplify_eq; [by destruct Huuid|].
  split; [done|]. unfold prepare_snapshot_xattrs, snapshot_attrs, snapshot_xattrs. cbn [prepare_xattrs snapshot_value sp_txn_id sp_entity_id
    sp_parent_id sp_snapshot_uuid sp_create_time sp_discarded].
  unfold mbind, outcome_bind. rewrite !cstring_ok, !attr_value_id by (done || apply show_bool_attr_ok). done.
Qed.

(** The descriptor of an lvol with the attributes of a snapshot. *)
Lemma descriptor_of_attrs sn si s now eid txn uuid parent :
  attr_ok now → attr_ok eid → attr_ok txn → attr_ok uuid → attr_ok parent →
  (∀ n v, attrs_of (snapshot_attrs now eid txn uuid parent) !! n = Some v → xattrs si !! n = Some v) →
  is_snapshot si = true ∧ is_discarded_snapshot si = false ∧
  snapshot_descriptor_info sn si None s =
    Some (mkSnapshotInfo parent (allocated sn si s)
            (mkParams (Some eid) (Some parent) (Some txn) (Some (bdev_name si)) (Some uuid) (Some now) false) (clone_count si s) true).
Proof.
  intros Hnow Heid Htxn Huuid Hpar Hx.
  assert (H1 : blob_xattr si (snapshot_attr_name ParentId) = Some parent) by (apply blob_xattr_stored; [by apply Hx|done]).
  assert (H2 : blob_xattr si (snapshot_attr_name TxId) = Some txn) by (apply blob_xattr_stored; [by apply Hx|done]).
  assert (H3 : blob_xattr si (snapshot_attr_name SnapEntityId) = Some eid) by (apply blob_xattr_stored; [by apply Hx|done]).
  assert (H4 : blob_xattr si (snapshot_attr_name SnapshotUuid) = Some uuid) by (apply blob_xattr_stored; [by apply Hx|done]).
  assert (H5 : blob_xattr si (snapshot_attr_name SnapshotCreateTime) = Some now) by (apply blob_xattr_stored; [by apply Hx|done]).
  assert (H6 : blob_xattr si (snapshot_attr_name DiscardedSnapshot) = Some (show_bool false))
    by (apply blob_xattr_stored; [by apply Hx|done]).
  split_and!.
  - unfold is_snapshot. rewrite H5. by apply bool_decide_eq_true_2.
  - unfold is_discarded_snapshot. by rewrite H6.
  - unfold snapshot_descriptor_info, snapshot_xattrs. cbn [read_attrs]. unfold read_attr. rewrite H1, H2, H3, H4, H5, H6. done.
Qed.

(** A snapshot that was created with the parameters prepared for it is
    a new lvol from which exactly these parameters are read back, valid and not
    discarded, with the replica as its source; it is among all the snapshots,
    and it is the first of the snapshots of the replica when its uuid was not
    in use. *)
Theorem snapshot_round_trip l i now name eid txn uuid p s s' sn :
  lvols s !! l = Some i → prepare now name eid txn uuid (bdev_uuid i) = Some p →
  attr_ok now → attr_ok eid → attr_ok txn → attr_ok uuid → create_snapshot l p s = (s', Ok sn) →
  ∃ si d, lvols s !! sn = None ∧ lvols s' = <[sn := si]> (lvols s) ∧
    is_snapshot si = true ∧ is_discarded_snapshot si = false ∧ is_clone si = false ∧
    snapshot_descriptor_info sn si None s' = Some d ∧ snap_param d = p ∧ source_uuid d = bdev_uuid i ∧ valid_snapshot d = true ∧
    (sn, d) ∈ list_all_snapshots None s' ∧
    ((∀ l' i', lvols s !! l' = Some i' → bdev_uuid i' ≠ bdev_uuid si) →
     head (list_snapshot_by_source_uuid l i s') = Some (sn, d)).
Proof.
  intros Hi Hp Hnow Heid Htxn Huuid Hc. assert (Hpar : attr_ok (bdev_uuid i)).
  { eapply uuid_attr_ok, uuid_of_lvol, Hi. }
  destruct (prepared_snapshot _ _ _ _ _ _ p i Hp Hnow Heid Htxn Huuid Hpar) as [-> Hx].
  unfold create_snapshot in Hc. rewrite (bind_run _ _ _ _ _ (info_some s l i Hi)) in Hc.
  rewrite Hx in Hc. apply bind_inv in Hc as (s0 & xs & H0 & Hc). unfold ST.lift in H0. simplify_eq.
  apply bind_inv in Hc as (s1 & n1 & H1 & Hc). unfold ST.lift in H1. simpl in H1. simplify_eq.
  apply bind_inv in Hc as (s2 & n2 & H2 & Hc). unfold ST.lift, into_cstring in H2. destruct (has NUL n1); simplify_eq.
  apply bind_inv in Hc as (s3 & res & H3 & Hc). unfold call in H3.
  destruct (vbdev_lvol_create_snapshot_ext l n2 _ s2) as [s4 [sn'|e]] eqn:Hs; unfold mret, ST_ret, ST.fail in Hc; simplify_eq.
  destruct (snapshot_law _ _ _ _ _ _ Hs) as (Hnone & (i' & si & Hi' & Hl & Hst & Hname & Ha & Hb & Hu) & Hp1 & _).
  simplify_eq. destruct (descriptor_of_attrs sn si s' now eid txn uuid (bdev_uuid i) Hnow Heid Htxn Huuid Hpar Ha) as (Hsn & Hd & Hdesc).
  exists si. eexists. assert (Hsi : lvols s' !! sn = Some si) by (rewrite Hl; apply lookup_insert_eq).
  split_and!; [done..| |exact Hdesc|done|done|done| |].
  - unfold is_clone, blob_xattr. rewrite Hb by done. done.
  - unfold list_all_snapshots. apply list_elem_of_omap. exists sn. split; [by apply bdevs_lvols|].
    unfold lookup_info. rewrite Hsi. simpl. rewrite Hsn, Hdesc. done.
  - intros Huniq. unfold list_snapshot_by_source_uuid. destruct (size (lvols s')) eqn:Hsz.
    { apply map_size_empty_inv in Hsz. rewrite Hsz in Hsi. done. }
    cbn [list_from]. unfold iter_parent. rewrite Hp1. simpl. rewrite Hsi. simpl.
    rewrite (blob_xattr_stored si "uuid" uuid); [|by apply Ha|done]. simpl.
    unfold lookup_by_uuid_str. rewrite (Hu uuid) by done. simpl.
    destruct (lvol_get_by_uuid s' (bdev_uuid si)) as [k|] eqn:Hk.
    2:{ by destruct (by_uuid_none _ _ Hk sn si). }
    destruct (by_uuid_some _ _ _ Hk) as (ki & Hki & Hku). assert (k = sn) as ->.
    { destruct (decide (k = sn)) as [|Hne]; [done|]. rewrite Hl, lookup_insert_ne in Hki by done. by destruct (Huniq k ki). }
    simpl. rewrite Hsi. simpl. rewrite Hdesc. simpl. by rewrite bool_decide_eq_true_2.
Qed.

End Facts.
End LvolProps.
