(* ===== verification/LvsMoves.v ===== *)
(** * Logical volumes: the calls an operation makes

    Whatever the operations on an lvol do, they do by the calls of [lvol_call];
    so all of them keep what these calls keep. *)

From Stdlib Require Import Ascii String.
From S2P Require Import Prelude Text Wp Errors NexusChild NexusErrors LvsErrors LvsLvol.
Import LvsErr Lvol.

#[local] Open Scope Z_scope.

Module LvolMoves.
Section Moves.
Context `{SP : Spdk}.

Inductive lvol_call (s : spdk) : spdk → Prop :=
| call_set_xattr l n v : lvol_call s (fst (blob_set_xattr l n v s))
| call_sync l : lvol_call s (fst (blob_sync_md l s))
| call_destroy l : lvol_call s (fst (vbdev_lvol_destroy l s))
| call_resize l n : lvol_call s (fst (vbdev_lvol_resize l n s))
| call_snapshot l n xs : lvol_call s (fst (vbdev_lvol_create_snapshot_ext l n xs s))
| call_clone l n xs : lvol_call s (fst (vbdev_lvol_create_clone_ext l n xs s))
| call_zeroes l o n : lvol_call s (fst (bdev_write_zeroes l o n s))
| call_share l hs : lvol_call s (fst (bdev_share_nvmf l hs s))
| call_unshare l : lvol_call s (fst (bdev_unshare l s))
| call_update l hs : lvol_call s (fst (bdev_update_properties l hs s)).

Notation moves := (keeps (rtc lvol_call)).

Lemma moves_call {A} (f : spdk → spdk * A) : (∀ s, lvol_call s (fst (f s))) → moves (call f).
Proof. intros Hf s. unfold call. specialize (Hf s). destruct (f s). by apply rtc_once. Qed.

Lemma moves_called {A E} (wrap : E → LvsError) (f : spdk → spdk * outcome E A) :
  (∀ s, lvol_call s (fst (f s))) → moves (called wrap f).
Proof. intros Hf s. unfold called. specialize (Hf s). destruct (f s). by apply rtc_once. Qed.

Lemma moves_info l : moves (info l).
Proof. apply keeps_same; [typeclasses eauto|]. intros s. unfold info. by destruct (lvols s !! l). Qed.

Hint Resolve moves_call moves_called moves_info : keeps.
Hint Constructors lvol_call : keeps.

Lemma moves_get l p : moves (get l p).
Proof. unfold get. keeps_tac. Qed.
Hint Resolve moves_get : keeps.

Lemma moves_set_no_sync l p : moves (set_no_sync l p).
Proof. unfold set_no_sync. keeps_tac. Qed.

Lemma moves_sync l : moves (sync_metadata l).
Proof. unfold sync_metadata. keeps_tac. Qed.
Hint Resolve moves_set_no_sync moves_sync : keeps.

Lemma moves_set l p : moves (set l p).
Proof. unfold set. keeps_tac. Qed.

Lemma moves_set_all l ps sync : moves (set_all l ps sync).
Proof. revert sync. induction ps as [|p ps IH]; intros sync; simpl; keeps_tac. Qed.
Hint Resolve moves_set moves_set_all : keeps.

Lemma moves_set_props l ps : moves (set_props l ps).
Proof. unfold set_props. keeps_tac. Qed.
Hint Resolve moves_set_props : keeps.

Lemma moves_share l hs : moves (share_nvmf l hs).
Proof. unfold share_nvmf. keeps_tac. Qed.

Lemma moves_unshare l b : moves (unshare l b).
Proof. unfold unshare. keeps_tac. Qed.

Lemma moves_update l hs : moves (update_properties l hs).
Proof. unfold update_properties. keeps_tac. Qed.

Lemma moves_wipe l : moves (wipe_super l).
Proof. unfold wipe_super. keeps_tac. Qed.
Hint Resolve moves_share moves_unshare moves_update moves_wipe : keeps.

Lemma moves_destroy l : moves (destroy l).
Proof. unfold destroy. keeps_tac. Qed.
Hint Resolve moves_destroy : keeps.

Lemma moves_destroy_all ls : moves (destroy_all ls).
Proof. induction ls as [|l ls IH]; simpl; keeps_tac. Qed.

Lemma moves_gc : moves destroy_pending_discarded_snapshot.
Proof. unfold destroy_pending_discarded_snapshot. keeps_tac. apply moves_destroy_all. Qed.

End Moves.

#[export] Hint Resolve moves_call moves_called moves_info moves_get moves_set_no_sync moves_sync moves_set
  moves_set_all moves_set_props moves_share moves_unshare moves_update moves_wipe moves_destroy moves_destroy_all moves_gc : keeps.
#[export] Hint Constructors lvol_call : keeps.
End LvolMoves.
