(* ===== verification/LvsStore.v ===== *)
(** * Pools: logical volume stores

    [lvs/lvs_store.rs], [lvs/lvs_iter.rs], [lvs/lvs_bdev.rs],
    [lvs/lvol_iter.rs] and [pool_information.rs]: creating, importing, exporting,
    destroying and growing a pool, creating a replica on it, and noticing that
    its I/O has stalled.

    [Pools] extends the interface of SPDK by bdevs and lvol stores; creating and
    destroying a bdev by its URI belongs to another component and is part of it.
    The ratio of metadata pages, which is computed in floating point, and the
    texts of messages and events are left out. *)

From Stdlib Require Import Ascii String.
From S2P Require Import Prelude Text Errors NexusChild NexusErrors LvsErrors LvsLvol.
Import LvsErr Lvol.

#[local] Open Scope Z_scope.

Module Lvs.

Record bdev_info := mkBdev {
  driver : string;
  claimed : bool;
  bdev_size : Z;
  supports_unmap : bool;
  crypto_base : option string;
  uri_original : option string;
  uri_with_uuid : option string
}.

(** The bdev below a store is gone while the store is being removed. *)
Record store_info := mkStore { store_name : string; store_uuid : string; base_of : option string }.

Record lvol_opts := mkLvolOpts {
  o_name : string;
  o_uuid : option string;
  o_size : Z;
  o_thin : bool;
  o_use_extent_table : option bool;
  o_clear_with_unmap : bool
}.

(** A request is refused, or it is answered by a callback. *)
Definition answer (A : Type) : Type := Z + (A + Errno).

Class Pools `{SP : Spdk} := {
  bdevs : spdk → gmap string bdev_info;
  stores : spdk → gmap nat store_info;
  (** The stores in the order of [vbdev_lvol_store_next]. *)
  store_list : spdk → list nat;
  lvs_lvols : spdk → nat → list nat;
  total_clusters : spdk → nat → Z;
  free_clusters : spdk → nat → Z;
  (** The deadline of the stall detection in seconds; zero is off. *)
  stall_timeout : spdk → nat → Z;
  (** The stores that are being reset, and those whose superblock is being read. *)
  resets : spdk → list nat;
  reads : spdk → list nat;
  (** A bdev has this uuid. *)
  uuid_in_use : spdk → string → bool;
  url_ok : string → bool;
  url_error : string → string;
  url_scheme : string → option string;
  uri_parse : string → outcome Bdev.Error string;
  lvs_by_name : spdk → string → option nat;
  lvs_by_uuid : spdk → string → option nat;
  bdev_create : string → spdk → spdk * outcome Bdev.Error string;
  bdev_destroy : string → spdk → spdk * outcome Bdev.Error unit;
  crypto_create : string → string → string → spdk → spdk * outcome Bdev.Error unit;
  crypto_destroy : string → option string → spdk → spdk * outcome Bdev.Error unit;
  vbdev_lvs_import : string → spdk → spdk * answer nat;
  vbdev_lvs_create : string → string → option string → Z → Z → spdk → spdk * answer nat;
  vbdev_lvs_unload : nat → spdk → spdk * Z;
  vbdev_lvs_destruct : nat → spdk → spdk * Z;
  vbdev_lvs_set_timeout : nat → Z → spdk → spdk * Z;
  vbdev_lvs_bs_bdev_reset : nat → spdk → spdk * Z;
  bs_read_super : nat → spdk → spdk;
  bdev_rescan : string → string → spdk → spdk * Z;
  (** Time passes, in milliseconds. *)
  elapse : Z → spdk → spdk;
  spdk_lvs_grow_live : nat → spdk → spdk * Z;
  vbdev_lvol_create_with_opts : nat → lvol_opts → spdk → spdk * answer nat
}.

(** [pool_information.rs]; instants are in microseconds. *)
Record PoolInfo := mkPoolInfo { io_stalled : bool; transition_timestamps : list Z }.

Definition update_transition_timestamp (now window : Z) (p : PoolInfo) : PoolInfo :=
  mkPoolInfo (io_stalled p) (List.filter (λ ts, now - ts <? window) (transition_timestamps p)).

(** The arguments of the environment. *)
Record PoolEnv := mkPoolEnv { io_stall_deadline : Z; io_stall_transition_threshold : Z }.

(** Futures sent to the first reactor. *)
Inductive Task := DisableStall (pool : string) | ReadSuper (pool : string).

Section Ops.
Context `{PO : Pools} (env : PoolEnv).

Record World := mkWorld { sp : spdk; infos : gmap string PoolInfo; tasks : list Task }.

Notation M A := (ST World LvsError A).

Definition set_sp (s : spdk) (w : World) : World := mkWorld s (infos w) (tasks w).
Definition set_infos (x : gmap string PoolInfo) (w : World) : World := mkWorld (sp w) x (tasks w).
Definition set_tasks (x : list Task) (w : World) : World := mkWorld (sp w) (infos w) x.

Definition on_spdk {E A} (m : ST spdk E A) : ST World E A := λ w, let '(s, r) := m (sp w) in (set_sp s w, r).
Definition spdk_call {E A} (f : spdk → spdk * A) : ST World E A := on_spdk (λ s, let '(s, a) := f s in (s, Ok a)).
Definition spdk_get {E A} (f : spdk → A) : ST World E A := ST.gets (λ w, f (sp w)).

Definition sleep {E} (ms : Z) : ST World E unit := ST.modify (λ w, set_sp (elapse ms (sp w)) w).

(** A name with a NUL in it is not a C string. *)
Definition lookup_bdev {E} (name : string) : ST World E (option bdev_info) :=
  name ← ST.lift (into_cstring name); spdk_get (λ s, bdevs s !! name).
Definition lookup {E} (name : string) : ST World E (option nat) :=
  name ← ST.lift (into_cstring name); spdk_get (λ s, lvs_by_name s name).
Definition lookup_by_uuid {E} (uuid : string) : ST World E (option nat) :=
  uuid ← ST.lift (into_cstring uuid); spdk_get (λ s, lvs_by_uuid s uuid).

(** A store that does not exist is a dangling pointer. *)
Definition store_of {E} (st : nat) : ST World E store_info := λ w,
  match stores (sp w) !! st with Some i => (w, Ok i) | None => (w, Panicked) end.

Definition store_base (s : spdk) (st : nat) : option string := stores s !! st ≫= base_of.

(** ** Listing *)

(** [LvsIter]: a store that is being removed ends the iteration. *)
Fixpoint iter_from (s : spdk) (l : list nat) : list nat :=
  match l with
  | [] => []
  | st :: l => match store_base s st with None => [] | Some _ => st :: iter_from s l end
  end.

Definition iter (s : spdk) : list nat := iter_from s (store_list s).
Definition iter_all (s : spdk) : list nat := store_list s.

(** ** Capacity *)

Definition capacity (st : nat) (s : spdk) : Z := wrap64 (cluster_size s st * total_clusters s st).
Definition available (st : nat) (s : spdk) : Z := wrap64 (cluster_size s st * free_clusters s st).
Definition used (st : nat) (s : spdk) : Z := wrap64 (capacity st s - available st s).
Definition pool_committed (st : nat) (s : spdk) : Z :=
  fold_left (λ acc l, wrap64 (acc + match lvols s !! l with Some i => committed l i s | None => 0 end)) (lvs_lvols s st) 0.

Definition base_bdev_name (st : nat) (s : spdk) : string := default "~removing"%string (store_base s st).

Definition base_bdev (st : nat) : M string :=
  i ← store_of st;
  o ← spdk_get (λ s, store_base s st);
  match o with Some b => mret b | None => ST.fail (Invalid LvsRemoving) end.

Definition encrypted (st : nat) (s : spdk) : bool :=
  match store_base s st ≫= (λ b, bdevs s !! b) with Some b => bool_decide (driver b = "crypto"%string) | None => false end.

(** ** Stalled I/O *)

Definition add_info (st : nat) : M unit :=
  i ← store_of st;
  ST.modify (λ w, set_infos (<[store_name i := mkPoolInfo false []]> (infos w)) w).
Definition remove_info (name : string) : M unit := ST.modify (λ w, set_infos (delete name (infos w)) w).

Definition send_future {E} (t : Task) : ST World E unit := ST.modify (λ w, set_tasks (tasks w ++ [t]) w).

(** A failure is only logged. *)
Definition enable_stall_detection {E} (st : nat) : ST World E unit :=
  spdk_call (vbdev_lvs_set_timeout st (io_stall_deadline env));; mret tt.

Definition is_stalled (name : string) (w : World) : bool := from_option io_stalled false (infos w !! name).

Definition set_stalled (b : bool) (name : string) (w : World) : World :=
  set_infos (alter (λ p, mkPoolInfo b (transition_timestamps p)) name (infos w)) w.

Definition disable_stall_detection {E} (st : nat) : ST World E unit :=
  i ← store_of st;
  w ← ST.get;
  if is_stalled (store_name i) w then spdk_call (vbdev_lvs_set_timeout st 0);; mret tt else mret tt.

Definition ENOTSUP_rc : Z := 95.

(** [mark_io_stalled]: of the I/Os that are stalled the first one resets the
    bdev, or reads the superblock when a reset is not supported. *)
Definition mark_io_stalled {E} (st : nat) : ST World E unit :=
  i ← store_of st;
  w ← ST.get;
  match infos w !! store_name i with
  | None => mret tt
  | Some p =>
      if io_stalled p then mret tt
      else
        ST.modify (set_stalled true (store_name i));;
        rc ← spdk_call (vbdev_lvs_bs_bdev_reset st);
        if rc =? - ENOTSUP_rc
        then send_future (ReadSuper (store_name i));; send_future (DisableStall (store_name i))
        else if negb (rc =? 0) then ST.modify (set_stalled false (store_name i))
        else send_future (DisableStall (store_name i))
  end.

(** [mark_io_resumed]: the recovery is recorded, and the detection enabled
    again. *)
Definition mark_io_resumed {E} (now : Z) (st : nat) : ST World E unit :=
  i ← store_of st;
  w ← ST.get;
  match infos w !! store_name i with
  | None => mret tt
  | Some p =>
      if negb (io_stalled p) then mret tt
      else
        let max_entries := wrap64 (io_stall_transition_threshold env * 10) in
        let ts := transition_timestamps p in
        let ts := if Z.of_nat (length ts) =? max_entries then tail ts else ts in
        ST.modify (λ w, set_infos (<[store_name i := mkPoolInfo false (ts ++ [now])]> (infos w)) w);;
        enable_stall_detection st
  end.

(** [lvstore_timeout_cb], [lvstore_reset_cb] and [bs_super_read_cb]. *)
Definition lvstore_timeout_cb {E} (st : nat) : ST World E unit := mark_io_stalled st.
Definition lvstore_reset_cb {E} (st : nat) : ST World E unit := i ← store_of st; send_future (ReadSuper (store_name i)).
Definition bs_super_read_cb {E} (now : Z) (st : nat) : ST World E unit := mark_io_resumed now st.

(** The reactor runs a future. *)
Definition run_task {E} (t : Task) : ST World E unit :=
  match t with
  | DisableStall name =>
      o ← lookup name;
      match o with Some st => disable_stall_detection st | None => mret tt end
  | ReadSuper name =>
      o ← lookup name;
      match o with Some st => ST.modify (λ w, set_sp (bs_read_super st (sp w)) w) | None => mret tt end
  end.

(** ** Export and destruction *)

(** [lvs_cleanup]: the bdev below a store that is gone, and the bdev below that
    if it encrypts, are destroyed. *)
Definition lvs_cleanup (base : string) : M unit :=
  o ← lookup_bdev base;
  match o with
  | None => mret tt
  | Some b =>
      nb ← (if bool_decide (driver b = "crypto"%string) then
              spdk_call (crypto_destroy base None);;
              match crypto_base b with
              | None => mret (base, b)
              | Some c => o ← lookup_bdev c; mret (match o with Some cb => (c, cb) | None => (base, b) end)
              end
            else mret (base, b));
      match uri_original (snd nb) with
      | None => mret tt
      | Some u => r ← spdk_call (bdev_destroy u); ST.lift (map_err (λ e, Destroy e (fst nb)) r)
      end
  end.

(** Errors are only logged. *)
Fixpoint unshare_lvols (ls : list nat) : M unit :=
  match ls with
  | [] => mret tt
  | l :: ls => spdk_call (bdev_unshare l);; unshare_lvols ls
  end.

Definition unshare_all (st : nat) : M unit := ls ← spdk_get (λ s, lvs_lvols s st); unshare_lvols ls.

(** What follows the unloading of a store, for [export] and for [destroy]. *)
Definition unloaded (pool base : string) (rc : Z) : M unit :=
  o ← lookup pool;
  (match o with None => remove_info pool | Some _ => mret tt end);;
  if rc =? 0 then lvs_cleanup base
  else
    (match o with None => lvs_cleanup base | Some _ => mret tt end);;
    ST.fail (Export (from_i32 rc) pool).

Definition export (st : nat) : M unit :=
  i ← store_of st;
  base ← base_bdev st;
  unshare_all st;;
  rc ← spdk_call (vbdev_lvs_unload st);
  unloaded (store_name i) base rc.

Definition destroy_pool (st : nat) : M unit :=
  i ← store_of st;
  unshare_all st;;
  base ← base_bdev st;
  rc ← spdk_call (vbdev_lvs_destruct st);
  unloaded (store_name i) base rc.

(** The pools that are listed are exported one by one; errors are ignored. *)
Fixpoint export_pools (sts : list nat) : M unit :=
  match sts with
  | [] => mret tt
  | st :: sts => ST.try (export st);; export_pools sts
  end.

Definition export_all : M unit := sts ← spdk_get iter; export_pools sts.

(** ** Import *)

(** The lvols to be shared; those that are still shared are unshared first. *)
Fixpoint to_share (ls : list nat) : M (list nat) :=
  match ls with
  | [] => mret []
  | l :: ls =>
      r ← ST.try (on_spdk (get l PnShared));
      match r with
      | Ok (Shared true) =>
          sh ← spdk_get (λ s, bdev_shared s l);
          (if sh : bool then ST.try (on_spdk (unshare l false));; mret tt else mret tt);;
          r ← to_share ls; mret (l :: r)
      | _ => to_share ls
      end
  end.

(** One round: lvols that are not unshared yet are kept for the next one. *)
Fixpoint share_round (ls : list nat) : M (list nat) :=
  match ls with
  | [] => mret []
  | l :: ls =>
      sh ← spdk_get (λ s, bdev_shared s l);
      if sh : bool then r ← share_round ls; mret (l :: r)
      else
        r ← ST.try (on_spdk (get l PnAllowedHosts));
        ST.try (on_spdk (share_nvmf l (match r with Ok (AllowedHosts hosts) => hosts | _ => [] end)));;
        share_round ls
  end.

(** [rounds] is the number of rounds there is time for after the first one. *)
Fixpoint share_rounds (rounds : nat) (ls : list nat) : M unit :=
  match ls with
  | [] => mret tt
  | _ :: _ =>
      ls ← share_round ls;
      match rounds with O => mret tt | S rounds => sleep 50;; share_rounds rounds ls end
  end.

Definition share_all (rounds : nat) (st : nat) : M unit :=
  ls ← spdk_get (λ s, lvs_lvols s st);
  ls ← to_share ls;
  share_rounds rounds ls.

Definition import (rounds : nat) (name bdev : string) : M nat :=
  o ← lookup_bdev bdev;
  match o with
  | None => ST.fail (InvalidBdev (Bdev.NotFound bdev) name)
  | Some b =>
      if claimed b then ST.fail (Import VolBusy bdev NoReason)
      else
        r ← spdk_call (vbdev_lvs_import bdev);
        match r with
        | inl _ => ST.fail (Import InvalidArgument name NoReason)
        | inr (inr err) =>
            ST.fail (Import (from_errno err) name (if bool_decide (err = EILSEQ) then LvsErr.NotFound else IoError))
        | inr (inl st) =>
            i ← store_of st;
            if negb (bool_decide (name = store_name i)) then
              export st;;
              ST.fail (Import InvalidArgument name (NameMismatch (store_name i)))
            else
              share_all rounds st;;
              add_info st;;
              enable_stall_detection st;;
              mret st
        end
  end.

(** ** Creation *)

Record PoolArgs := mkPoolArgs {
  pa_name : string;
  pa_disks : list string;
  pa_uuid : option string;
  pa_cluster_size : option Z;
  pa_enc_key : option string;
  pa_crypto_vbdev_name : option string
}.

Definition ROUND_TO_MB : Z := 1024 * 1024.
Definition DEFAULT_CLUSTER_SIZE : Z := 4 * 1024 * 1024.
Definition MAX_CLUSTER_SIZE : Z := 1024 * 1024 * 1024.

Definition check_cluster_size (args : PoolArgs) : outcome LvsError Z :=
  c ← (match pa_cluster_size args with
       | Some c => if c mod ROUND_TO_MB =? 0 then Ok c else Err (InvalidClusterSize (pa_name args))
       | None => Ok DEFAULT_CLUSTER_SIZE
       end);
  if MAX_CLUSTER_SIZE <? c then Err (InvalidClusterSize (pa_name args)) else Ok c.

(** [md_ratio] is [md_resv_ratio] for the capacity of the bdev. *)
Definition create_from_args_inner (md_ratio : Z → outcome LvsError Z) (args : PoolArgs) (bdev_name : string) : M nat :=
  cluster_size ← ST.lift (check_cluster_size args);
  o ← lookup_bdev bdev_name;
  match o with
  | None => ST.fail (InvalidBdev (Bdev.NotFound bdev_name) bdev_name)
  | Some b =>
      ratio ← ST.lift (md_ratio (bdev_size b));
      uuid ← ST.lift (match pa_uuid args with Some u => c ← into_cstring u; Ok (Some c) | None => Ok None end);
      r ← spdk_call (vbdev_lvs_create bdev_name (pa_name args) uuid cluster_size ratio);
      match r with
      | inl rc => ST.fail (PoolCreate (from_i32 rc) (pa_name args))
      | inr (inr err) => ST.fail (PoolCreate (from_errno err) (pa_name args))
      | inr (inl _) =>
          o ← lookup (pa_name args);
          match o with
          | Some pool => add_info pool;; enable_stall_detection pool;; mret pool
          | None => ST.fail (PoolCreate LvolNotFound (pa_name args))
          end
      end
  end.

Definition parse_disk (disks : list string) : outcome LvsError string :=
  match disks with
  | [disk] => Ok (if url_ok disk then disk else ("aio://" +:+ disk)%string)
  | _ => Err (Invalid InvalidArgument)
  end.

Record LvsBackendBdevs := mkBackend {
  be_args : PoolArgs;
  be_uri : string;
  created_bdev : bool;
  created_crypto : bool;
  pool_bdev_name : string
}.

(** The store that has the name already. *)
Definition name_in_use (create : bool) (args : PoolArgs) (pool_bdev_name : string) (pool : nat) : M LvsBackendBdevs :=
  base ← base_bdev pool;
  let source := if bool_decide (base = pool_bdev_name) then VolAlreadyExists else InvalidArgument in
  ST.fail (if create then PoolCreate source (pa_name args) else Import source (pa_name args) (NameClash base)).

Definition create_base (uri name : string) : M string :=
  r ← spdk_call (bdev_create uri);
  match r with
  | Ok n => mret n
  | Err (Bdev.BdevExists _) => mret name
  | Err (Bdev.CreateBdevInvalidParams EEXIST _) => mret name
  | Err e => ST.fail (InvalidBdev e name)
  | Panicked => ST.panic
  end.

(** Whether a bdev that encrypts was created; when that fails the bdev below it
    is destroyed. *)
Definition create_crypto (uri bdev_name : string) (args : PoolArgs) : M bool :=
  match pa_crypto_vbdev_name args, pa_enc_key args with
  | Some cname, Some key =>
      o ← lookup_bdev cname;
      match o with
      | Some _ => mret false
      | None =>
          r ← spdk_call (crypto_create cname bdev_name key);
          match r with
          | Ok _ => mret true
          | Err e =>
              spdk_call (bdev_destroy uri);;
              ST.fail (PoolCreate (LvsCryptoVbdev (match e with Bdev.CreateBdevFailed source _ => source | _ => EINVAL end))
                         (pa_name args))
          | Panicked => ST.panic
          end
      end
  | _, _ => mret false
  end.

Definition backend_new (create : bool) (args : PoolArgs) : M LvsBackendBdevs :=
  disk ← ST.lift (parse_disk (pa_disks args));
  bdev_name ← ST.lift (map_err (λ e, InvalidBdev e (pa_name args)) (uri_parse disk));
  let pool_bdev := default bdev_name (pa_crypto_vbdev_name args) in
  o ← lookup (pa_name args);
  match o with
  | Some pool => name_in_use create args pool_bdev pool
  | None =>
      o ← lookup_bdev bdev_name;
      name ← create_base disk bdev_name;
      crypto ← create_crypto disk name args;
      mret (mkBackend args disk (match o with None => true | Some _ => false end) crypto pool_bdev)
  end.

Definition undo (b : LvsBackendBdevs) : M unit :=
  (match created_crypto b, pa_crypto_vbdev_name (be_args b) with
   | true, Some c => spdk_call (crypto_destroy c (pa_enc_key (be_args b)));; mret tt
   | _, _ => mret tt
   end);;
  (if created_bdev b then spdk_call (bdev_destroy (be_uri b));; mret tt else mret tt).

Definition import_from_args_ (rounds : nat) (b : LvsBackendBdevs) : M nat :=
  pool ← import rounds (pa_name (be_args b)) (pool_bdev_name b);
  on_spdk destroy_pending_discarded_snapshot;;
  match pa_uuid (be_args b) with
  | None => mret pool
  | Some uuid =>
      i ← store_of pool;
      if bool_decide (store_uuid i = uuid) then mret pool
      else
        export pool;;
        ST.fail (Import InvalidArgument (pa_name (be_args b)) (UuidMismatch (store_uuid i)))
  end.

(** [match m { Err(e) => { undo; Err(e) } .. }] *)
Definition or_undo {A} (b : LvsBackendBdevs) (m : M A) : M A := λ w,
  match m w with
  | (w, Err e) => (undo b;; ST.fail e) w
  | r => r
  end.

Definition import_from_args (rounds : nat) (args : PoolArgs) : M nat :=
  b ← backend_new false args;
  or_undo b (import_from_args_ rounds b).

(** A new pool is made only if none can be imported. *)
Definition create_or_import (rounds : nat) (md_ratio : Z → outcome LvsError Z) (args : PoolArgs) : M nat :=
  b ← backend_new true args;
  or_undo b (λ w,
    match import_from_args_ rounds b w with
    | (w, Err (Import CannotImportLvs _ _)) => create_from_args_inner md_ratio args (pool_bdev_name b) w
    | r => r
    end).

(** ** Growing *)

(** The bdev below an encrypting one, or the bdev itself. *)
Definition disk_of (s : spdk) (base : string) : string := default base (bdevs s !! base ≫= crypto_base).
Definition size_of (s : spdk) (b : string) : Z := from_option bdev_size 0 (bdevs s !! b).

(** The encrypting bdev is resized in the background, for which there is some time. *)
Fixpoint crypto_vbdev_resized (polls : nat) (st : nat) : M bool :=
  match polls with
  | O => mret false
  | S polls =>
      s ← spdk_get (λ s, s);
      match store_base s st with
      | None => mret false
      | Some base =>
          if size_of s base =? size_of s (disk_of s base) then mret true
          else sleep 100;; crypto_vbdev_resized polls st
      end
  end.

Definition rescan (uri disk : string) : M Z :=
  match url_scheme uri with
  | Some scheme =>
      if bool_decide (scheme = "uring"%string) || bool_decide (scheme = "aio"%string)
      then spdk_call (bdev_rescan scheme disk) else mret 0
  | None => mret 0
  end.

Definition fail_base {A} (st : nat) (e : string → LvsError) : M A :=
  name ← spdk_get (base_bdev_name st); ST.fail (e name).

Definition grow (st : nat) : M unit :=
  i ← store_of st;
  base ← base_bdev st;
  s ← spdk_get (λ s, s);
  let disk := disk_of s base in
  let uri := default ""%string (bdevs s !! disk ≫= uri_with_uuid) in
  if negb (url_ok uri) then ST.fail (InvalidBdev (Bdev.UriParseFailed (url_error uri) uri) (store_name i))
  else
    errno ← rescan uri disk;
    if negb (errno =? 0) then fail_base st (BdevRescanFailed (from_i32 errno))
    else
      enc ← spdk_get (encrypted st);
      resized ← (if enc : bool then crypto_vbdev_resized 30 st else mret true);
      if negb resized then fail_base st CryptoBdevNotResized
      else
        before ← spdk_get (capacity st);
        rc ← spdk_call (spdk_lvs_grow_live st);
        if negb (rc =? 0) then ST.fail (Grow (from_i32 rc) (store_name i))
        else
          after ← spdk_get (capacity st);
          if after =? before then fail_base st BdevNotExtended else mret tt.

(** ** Replicas *)

Record ReplicaArgs := mkReplicaArgs {
  ra_name : string;
  ra_size : Z;
  ra_uuid : string;
  ra_thin : bool;
  ra_entity_id : option string;
  ra_use_extent_table : option bool;
  ra_wipe_super : bool
}.

(** A replica that cannot be made ready is destroyed. *)
Definition or_destroy (l : nat) (m : M unit) : M unit := λ w,
  match m w with
  | (w, Err e) => (ST.try (on_spdk (destroy l));; ST.fail e) w
  | r => r
  end.

Definition create_lvol_with_opts (st : nat) (opts : ReplicaArgs) : M nat :=
  base ← base_bdev st;
  s ← spdk_get (λ s, s);
  let unmap := match bdevs s !! base with Some b => supports_unmap b | None => false end in
  if negb (bool_decide (ra_uuid opts = ""%string)) && bool_decide (is_Some (lookup_lvol_by_uuid_str st (ra_uuid opts) s))
  then ST.fail (RepExists VolAlreadyExists (ra_uuid opts))
  else if bool_decide (is_Some (bdevs s !! ra_name opts)) then ST.fail (RepExists VolAlreadyExists (ra_name opts))
  else if negb unmap && (available st s <? WIPE_SUPER_LEN) then ST.fail (RepCreate NoSpace (ra_name opts))
  else if capacity st s <? ra_size opts then ST.fail (RepCreate CapacityOverflow (ra_name opts))
  else
    cname ← ST.lift (into_cstring (ra_name opts));
    cuuid ← ST.lift (into_cstring (ra_uuid opts));
    r ← spdk_call (vbdev_lvol_create_with_opts st
          (mkLvolOpts cname (if bool_decide (cuuid = ""%string) then None else Some cuuid) (ra_size opts) (ra_thin opts)
             (ra_use_extent_table opts) unmap));
    match r with
    | inl rc => ST.fail (RepCreate (from_i32 rc) (ra_name opts))
    | inr (inr e) => ST.fail (RepCreate (from_errno e) (ra_name opts))
    | inr (inl l) =>
        (match ra_entity_id opts with
         | Some id => or_destroy l (on_spdk (set l (EntityId id)))
         | None => mret tt
         end);;
        (if ra_wipe_super opts then or_destroy l (on_spdk (wipe_super l)) else mret tt);;
        mret l
    end.

End Ops.
End Lvs.
