(* ===== verification/LvsStoreProps.v ===== *)
(** * Pools: properties

    What SPDK documents of bdevs and lvol stores is [PoolLaws].  Shown are what
    [create_or_import], [import_from_args], [export] and [destroy] leave behind
    when they succeed and when they fail. *)

From Stdlib Require Import Ascii String.
From S2P Require Import Prelude Text Wp Errors NexusChild NexusErrors LvsErrors LvsLvol LvsMoves LvsStore.
Import LvsErr Lvol LvolMoves Lvs.

#[local] Open Scope Z_scope.

Module LvsProps.

(** What does not change while a bdev exists: its driver, the bdev below it if
    it encrypts, and its URI. *)
Record disk := mkDisk { d_driver : string; d_crypto : option string; d_uri : option string }.

Definition disk_of_bdev (b : bdev_info) : disk := mkDisk (driver b) (crypto_base b) (uri_original b).

Definition disks `{Pools} (s : spdk) : gmap string disk :=
  disk_of_bdev <$> filter (λ nb : string * bdev_info, driver nb.2 ≠ "lvol"%string) (bdevs s).

Definition same_pools `{Pools} (s s' : spdk) : Prop :=
  stores s' = stores s ∧ disks s' = disks s ∧ ∀ st, stall_timeout s' st = stall_timeout s st.

(** Neither a store nor an encrypting bdev is on the bdev. *)
Definition unused `{Pools} (n : string) (s : spdk) : Prop :=
  (∀ st, store_base s st ≠ Some n) ∧ ∀ c d, disks s !! c = Some d → d_crypto d ≠ Some n.

Definition stored `{Pools} (s s' : spdk) (st : nat) (i : store_info) : Prop :=
  stores s !! st = None ∧ stores s' = <[st := i]> (stores s).

Class PoolLaws `{PO : Pools} : Prop := {
  lvol_call_law s s' : lvol_call s s' → same_pools s s';
  elapse_law ms s : same_pools s (elapse ms s);
  by_name_law s n st : lvs_by_name s n = Some st ↔ ∃ i, stores s !! st = Some i ∧ store_name i = n;
  base_exists s st b : store_base s st = Some b → is_Some (disks s !! b);
  crypto_exists s c d b : disks s !! c = Some d → d_crypto d = Some b → is_Some (disks s !! b);
  uri_of_bdev s n b u : bdevs s !! n = Some b → uri_original b = Some u → uri_parse u = Ok n;
  import_law b s s' a : vbdev_lvs_import b s = (s', a) →
    disks s' = disks s ∧
    match a with inr (inl st) => ∃ i, stored s s' st i ∧ base_of i = Some b | _ => stores s' = stores s end;
  create_law b n u cs ratio s s' a : vbdev_lvs_create b n u cs ratio s = (s', a) →
    disks s' = disks s ∧
    match a with
    | inr (inl st) => ∃ i, stored s s' st i ∧ base_of i = Some b ∧ store_name i = n ∧
                           ∀ u', u = Some u' → parse_uuid u' = Some (store_uuid i)
    | _ => stores s' = stores s
    end;
  lvol_create_law st o s s' a : vbdev_lvol_create_with_opts st o s = (s', a) →
    same_pools s s' ∧
    match a with
    | inr (inl l) => lvols s !! l = None ∧ ∃ i, lvols s' = <[l := i]> (lvols s) ∧ store i = st ∧ bdev_name i = o_name o ∧
                     (∀ u, o_uuid o = Some u → parse_uuid u = Some (bdev_uuid i)) ∧
                     ∀ n, n ≠ "name"%string → n ≠ "uuid"%string → xattrs i !! n = None
    | _ => lvols s' = lvols s
    end;
  unload_law st s s' rc : vbdev_lvs_unload st s = (s', rc) →
    disks s' = disks s ∧ (stores s' = delete st (stores s) ∨ rc ≠ 0 ∧ stores s' = stores s);
  destruct_law st s s' rc : vbdev_lvs_destruct st s = (s', rc) →
    disks s' = disks s ∧ (stores s' = delete st (stores s) ∨ rc ≠ 0 ∧ stores s' = stores s);
  timeout_law st t s s' rc : vbdev_lvs_set_timeout st t s = (s', rc) →
    stores s' = stores s ∧ disks s' = disks s ∧
    ∀ st', stall_timeout s' st' = if (rc =? 0) && (st' =? st)%nat then t else stall_timeout s st';
  bdev_create_law u n s s' r : uri_parse u = Ok n → bdev_create u s = (s', r) →
    stores s' = stores s ∧
    match r with
    | Ok n' => n' = n ∧ ∃ drv uri, drv ≠ "crypto"%string ∧ disks s' = <[n := mkDisk drv None uri]> (disks s)
    | _ => disks s' = disks s
    end;
  bdev_destroy_law u n s s' r : uri_parse u = Ok n → unused n s → bdev_destroy u s = (s', r) →
    stores s' = stores s ∧ (disks s' = delete n (disks s) ∨ r ≠ Ok tt ∧ disks s' = disks s);
  crypto_create_law c b k s s' r : crypto_create c b k s = (s', r) →
    stores s' = stores s ∧
    match r with
    | Ok _ => ∃ uri, disks s' = <[c := mkDisk "crypto" (Some b) uri]> (disks s)
    | _ => disks s' = disks s
    end;
  crypto_destroy_law c k s s' r : unused c s → crypto_destroy c k s = (s', r) →
    stores s' = stores s ∧ (disks s' = delete c (disks s) ∨ r ≠ Ok tt ∧ disks s' = disks s)
}.

Section Facts.
Context `{PL : PoolLaws} (env : PoolEnv).

Implicit Types w : World.

#[export] Instance same_pools_preorder : PreOrder same_pools.
Proof.
  split; [intros s; by split_and!|]. intros s1 s2 s3 (H1 & H2 & H3) (H4 & H5 & H6). split_and!; [congruence..|].
  intros st. by rewrite H6.
Qed.

(** ** What the operations on lvols leave alone *)

Definition frame w w' : Prop := same_pools (sp w) (sp w') ∧ infos w' = infos w ∧ tasks w' = tasks w.

#[export] Instance frame_preorder : PreOrder frame.
Proof.
  split; [intros w; by split_and!|]. intros w1 w2 w3 (H1 & H2 & H3) (H4 & H5 & H6). split_and!; [by etrans|congruence..].
Qed.

Lemma moves_same s s' : rtc lvol_call s s' → same_pools s s'.
Proof. induction 1 as [|s1 s2 s3 H1 _ IH]; [done|]. etrans; [by apply lvol_call_law|done]. Qed.

Lemma frame_on_spdk {E A} (m : ST spdk E A) : keeps (rtc lvol_call) m → keeps frame (on_spdk m).
Proof.
  intros Hm w. unfold on_spdk. specialize (Hm (sp w)). destruct (m (sp w)) as [s r]. split; [by apply moves_same|done].
Qed.

Lemma frame_call {E A} (f : spdk → spdk * A) : (∀ s, lvol_call s (fst (f s))) → keeps frame (spdk_call (E := E) f).
Proof. intros Hf. apply frame_on_spdk. intros s. specialize (Hf s). destruct (f s). by apply rtc_once. Qed.

Lemma frame_get {E A} (f : spdk → A) : keeps frame (spdk_get (E := E) f).
Proof. apply keeps_get. typeclasses eauto. Qed.

Lemma frame_sleep {E} ms : keeps frame (sleep (E := E) ms).
Proof. intros w. split; [apply elapse_law|done]. Qed.

Lemma frame_store_of {E} st : keeps frame (store_of (E := E) st).
Proof. apply keeps_same; [typeclasses eauto|]. intros w. unfold store_of. by destruct (stores (sp w) !! st). Qed.

Hint Resolve frame_on_spdk frame_call frame_get frame_sleep frame_store_of : keeps.

Lemma frame_unshare_lvols ls : keeps frame (unshare_lvols ls).
Proof. induction ls as [|l ls IH]; simpl; keeps_tac. Qed.
Hint Resolve frame_unshare_lvols : keeps.

Lemma frame_unshare_all st : keeps frame (unshare_all st).
Proof. unfold unshare_all. keeps_tac. Qed.

Lemma frame_to_share ls : keeps frame (to_share ls).
Proof. induction ls as [|l ls IH]; simpl; keeps_tac. Qed.

Lemma frame_share_round ls : keeps frame (share_round ls).
Proof. induction ls as [|l ls IH]; simpl; keeps_tac. Qed.
Hint Resolve frame_to_share frame_share_round : keeps.

Lemma frame_share_rounds rounds ls : keeps frame (share_rounds rounds ls).
Proof. revert ls. induction rounds as [|rounds IH]; intros [|l ls]; cbn [share_rounds]; keeps_tac. Qed.
Hint Resolve frame_share_rounds : keeps.

Lemma frame_share_all rounds st : keeps frame (share_all rounds st).
Proof. unfold share_all. keeps_tac. Qed.

(** ** Lookup *)

Lemma by_name_unique s st st' i i' :
  stores s !! st = Some i → stores s !! st' = Some i' → store_name i = store_name i' → st = st'.
Proof.
  intros Hi Hi' Hn. assert (H : lvs_by_name s (store_name i) = Some st) by (apply by_name_law; eauto).
  assert (H' : lvs_by_name s (store_name i) = Some st') by (apply by_name_law; rewrite Hn; eauto). congruence.
Qed.

Lemma disks_bdev s n b : bdevs s !! n = Some b → driver b ≠ "lvol"%string → disks s !! n = Some (disk_of_bdev b).
Proof.
  intros Hb Hd. unfold disks. rewrite lookup_fmap. erewrite map_lookup_filter_Some_2; [done|exact Hb|done].
Qed.

Lemma disks_none s n : bdevs s !! n = None → disks s !! n = None.
Proof. intros Hb. unfold disks. rewrite lookup_fmap, map_lookup_filter_None_2; [done|by left]. Qed.

(** Sharing and unsharing have no errors of their own. *)
Lemma infallible_call {E A} (f : spdk → spdk * A) : infallible (spdk_call (E := E) f).
Proof. intros w e. unfold spdk_call, on_spdk. by destruct (f (sp w)). Qed.

Lemma infallible_spdk_get {E A} (f : spdk → A) : infallible (spdk_get (E := E) f).
Proof. done. Qed.

Lemma infallible_sleep {E} ms : infallible (sleep (E := E) ms).
Proof. done. Qed.

Hint Resolve infallible_call infallible_spdk_get infallible_sleep : infallible.

Lemma infallible_unshare_all st : infallible (unshare_all st).
Proof. unfold unshare_all. infallible_tac. induction a as [|l ls IH]; simpl; infallible_tac. Qed.

Lemma infallible_share_all rounds st : infallible (share_all rounds st).
Proof.
  unfold share_all. infallible_tac.
  - induction a as [|l ls IH]; simpl; infallible_tac.
  - revert a0. induction rounds as [|rounds IH]; intros [|l ls]; cbn [share_rounds]; infallible_tac.
    all: revert l ls; assert (H : ∀ ls, infallible (share_round ls)) by (induction ls as [|l ls IH']; simpl; infallible_tac); intros; apply H.
Qed.

(** ** Export *)

Lemma wp_spdk_call {E A} (f : spdk → spdk * A) Q w :
  (∀ s' a, f (sp w) = (s', a) → Q (Ok a) (set_sp s' w)) → wp (spdk_call (E := E) f) Q w.
Proof. intros HQ. unfold wp, spdk_call, on_spdk. destruct (f (sp w)) as [s' a]. by apply HQ. Qed.

Lemma wp_store_of {E} st Q w :
  (∀ i, stores (sp w) !! st = Some i → Q (Ok i) w) → (stores (sp w) !! st = None → Q Panicked w) →
  wp (store_of (E := E) st) Q w.
Proof. intros H1 H2. unfold wp, store_of. destruct (stores (sp w) !! st); auto. Qed.

Lemma wp_lookup {E} n Q w :
  (has NUL n = true → Q Panicked w) → (has NUL n = false → Q (Ok (lvs_by_name (sp w) n)) w) → wp (lookup (E := E) n) Q w.
Proof. intros H1 H2. unfold lookup, into_cstring. wp_steps. destruct (has NUL n); [exact (H1 eq_refl)|exact (H2 eq_refl)]. Qed.

Lemma wp_lookup_bdev {E} n Q w :
  (has NUL n = true → Q Panicked w) → (has NUL n = false → Q (Ok (bdevs (sp w) !! n)) w) → wp (lookup_bdev (E := E) n) Q w.
Proof. intros H1 H2. unfold lookup_bdev, into_cstring. wp_steps. destruct (has NUL n); [exact (H1 eq_refl)|exact (H2 eq_refl)]. Qed.

(** ** Import *)

(** A store was loaded on the bdev, and nothing else changed. *)
Definition loaded w w' (st : nat) (i : store_info) (b : string) : Prop :=
  stored (sp w) (sp w') st i ∧ base_of i = Some b ∧ disks (sp w') = disks (sp w).

Lemma loaded_lookup w w' st i b : loaded w w' st i b → stores (sp w') !! st = Some i.
Proof. intros ((_ & ->) & _). apply lookup_insert_eq. Qed.

Lemma loaded_frame w w' w'' st i b :
  loaded w w' st i b → stores (sp w'') = stores (sp w') → disks (sp w'') = disks (sp w') → loaded w w'' st i b.
Proof. intros ((H1 & H2) & H3 & H4) H5 H6. repeat split; congruence. Qed.

(** The I/O of the pool is watched, unless SPDK has refused to do so with the
    stores and disks that there are, which is only logged. *)
Definition watched w (st : nat) : Prop :=
  stall_timeout (sp w) st = io_stall_deadline env ∨
  ∃ s, stores s = stores (sp w) ∧ disks s = disks (sp w) ∧ snd (vbdev_lvs_set_timeout st (io_stall_deadline env) s) ≠ 0.

Lemma wp_enable {E} st w (Q : outcome E unit → World → Prop) :
  (∀ w', stores (sp w') = stores (sp w) → disks (sp w') = disks (sp w) → infos w' = infos w → tasks w' = tasks w →
         watched w' st → Q (Ok tt) w') →
  wp (enable_stall_detection env st) Q w.
Proof.
  intros HQ. unfold enable_stall_detection. wp_step. apply wp_spdk_call. intros s' rc Ht. wp_step.
  destruct (timeout_law _ _ _ _ _ Ht) as (H1 & H2 & H3). apply HQ; try done.
  destruct (Z.eqb_spec rc 0) as [->|Hrc]; [left; simpl; by rewrite H3, Nat.eqb_refl|].
  right. exists (sp w). simpl. by rewrite H1, H2, Ht.
Qed.

(** What is left when a pool is there. *)
Definition ready w w' (name : string) (st : nat) (i : store_info) (b : string) : Prop :=
  loaded w w' st i b ∧ store_name i = name ∧ infos w' = <[name := mkPoolInfo false []]> (infos w) ∧ watched w' st.

Lemma wp_add_and_enable st i w w1 b Q :
  loaded w w1 st i b → infos w1 = infos w →
  (∀ w2, ready w w2 (store_name i) st i b → Q (Ok st) w2) → wp (add_info st;; enable_stall_detection env st;; mret st) Q w1.
Proof.
  intros Hl Hinf HQ. unfold add_info. wp_steps. apply wp_store_of; [|rewrite (loaded_lookup _ _ _ _ _ Hl); done].
  intros i' Hi'. rewrite (loaded_lookup _ _ _ _ _ Hl) in Hi'. simplify_eq. wp_steps. apply wp_enable.
  intros w2 H1 H2 H3 _ Hw. wp_step. apply HQ. split_and!; [|done| |done].
  - by apply (loaded_frame _ _ _ _ _ _ Hl).
  - rewrite H3. simpl. by rewrite Hinf.
Qed.

(** The error on which [create_or_import] creates a new pool. *)
Definition cannot_import (e : LvsError) : bool := match e with Import CannotImportLvs _ _ => true | _ => false end.

Lemma export_error st w w' e : export st w = (w', Err e) → cannot_import e = false.
Proof.
  set (Q := λ (r : outcome LvsError unit) (w' : World), ∀ e, r = Err e → cannot_import e = false).
  assert (Hcl : ∀ base w, wp (lvs_cleanup base) Q w).
  { intros base w1. unfold lvs_cleanup. wp_step. apply wp_lookup_bdev; [done|]. intros _. destruct (bdevs (sp w1) !! base) as [b|]; [|by wp_step].
    assert (Hd : ∀ nb w, wp (match uri_original (snd nb) with None => mret tt
      | Some u => r ← spdk_call (bdev_destroy u); ST.lift (map_err (λ e, Destroy e (fst nb)) r) end) Q w).
    { intros nb w2. destruct (uri_original _); [|by wp_step]. wp_step. apply wp_spdk_call. intros s' [|?|] _; wp_step; intros e' He; by simplify_eq/=. }
    case_bool_decide; [|wp_steps; apply Hd]. wp_steps. apply wp_spdk_call. intros s' r _. destruct (crypto_base b); [|wp_step; apply Hd].
    wp_step. apply wp_lookup_bdev; [done|]. intros _. wp_step. apply Hd. }
  intros Hrun. refine (wp_elim _ Q _ _ _ _ Hrun e eq_refl). unfold export, base_bdev. wp_step. apply wp_store_of; [|done]. intros i Hi.
  wp_steps. apply wp_store_of; [|done]. intros i' _. wp_step. unfold spdk_get. wp_step. destruct (store_base _ _); wp_steps; [|intros ? ?; by simplify_eq].
  apply wp_intro. intros w1 r1 H1. pose proof (infallible_unshare_all st w) as Hne. rewrite H1 in Hne.
  destruct r1 as [[]|e1|]; [|by destruct (Hne e1)|done]. wp_step. apply wp_spdk_call. intros s2 rc _.
  unfold unloaded. wp_step. apply wp_lookup; [done|]. intros _. destruct (lvs_by_name _ _); unfold remove_info; wp_steps; destruct (rc =? 0); try apply Hcl.
  - wp_steps. intros ? ?; by simplify_eq.
  - wp_step. eapply wp_mono; [apply Hcl|]. intros [[]|e2|] w3 HQ; [wp_step; intros ? ?; by simplify_eq|done|done].
Qed.

(** A failed import: nothing happened, or a store was loaded and exported. *)
Definition import_failed w w' (b : string) (e : LvsError) : Prop :=
  (stores (sp w') = stores (sp w) ∧ disks (sp w') = disks (sp w) ∧ infos w' = infos w) ∨
  cannot_import e = false ∧ ∃ w1 st i, loaded w w1 st i b ∧ ∃ r, export st w1 = (w', r) ∧ r ≠ Panicked.

Lemma import_spec rounds name b w :
  wp (import env rounds name b) (λ r w',
    match r with
    | Ok st => ∃ i, ready w w' name st i b
    | Err e => import_failed w w' b e
    | Panicked => True
    end) w.
Proof.
  unfold import. wp_step. apply wp_lookup_bdev; [done|]. intros _.
  destruct (bdevs (sp w) !! b) as [bi|]; [|wp_step; by left]. destruct (claimed bi); [wp_step; by left|].
  wp_step. apply wp_spdk_call. intros s1 a Himp. destruct (import_law _ _ _ _ Himp) as [Hd Ha].
  destruct a as [rc|[st|e]]; [wp_step; by left| |wp_step; by left].
  destruct Ha as (i & Hst & Hb). assert (Hl : loaded w (set_sp s1 w) st i b) by done.
  wp_step. apply wp_store_of; [|done]. intros i' Hi'. rewrite (loaded_lookup _ _ _ _ _ Hl) in Hi'. simplify_eq.
  case_bool_decide as Hname; cbn [negb].
  - wp_step. apply wp_intro. intros w2 r2 Hrun. pose proof (infallible_share_all rounds st (set_sp s1 w)) as Hne.
    pose proof (frame_share_all rounds st (set_sp s1 w)) as ((Hf1 & Hf2 & _) & Hf3 & _). rewrite Hrun in Hne, Hf1, Hf2, Hf3. simpl in *.
    destruct r2 as [[]|e|]; [|by destruct (Hne e)|done].
    apply (wp_add_and_enable st i' w w2 b); [by apply (loaded_frame _ _ _ _ _ _ Hl)|done|]. subst. eauto.
  - wp_step. apply wp_intro. intros w2 r2 Hrun.
    destruct r2 as [[]|e|]; [wp_step; right; split; [done|]| |done]; [|right; split; [by eapply export_error|]];
      exists (set_sp s1 w), st, i'; eauto.
Qed.

Lemma ready_frame w w' w'' name st i b : ready w w' name st i b → frame w' w'' → ready w w'' name st i b.
Proof.
  intros (Hl & Hn & Hi & Hw) ((H1 & H2 & H3) & H4 & _). split_and!; [by apply (loaded_frame _ w')|done|congruence|].
  unfold watched. by rewrite H1, H2, H3.
Qed.

Lemma infallible_gc : infallible (on_spdk destroy_pending_discarded_snapshot).
Proof.
  intros w e. unfold on_spdk. assert (H : infallible destroy_pending_discarded_snapshot).
  { unfold destroy_pending_discarded_snapshot. infallible_tac. induction (pending_discarded a) as [|l ls IH]; simpl; infallible_tac. }
  specialize (H (sp w) e). by destruct (destroy_pending_discarded_snapshot (sp w)).
Qed.

Lemma import_from_args_spec rounds b w :
  wp (import_from_args_ env rounds b) (λ r w',
    match r with
    | Ok st => ∃ i, ready w w' (pa_name (be_args b)) st i (pool_bdev_name b) ∧ ∀ u, pa_uuid (be_args b) = Some u → store_uuid i = u
    | Err e => import_failed w w' (pool_bdev_name b) e
    | Panicked => True
    end) w.
Proof.
  unfold import_from_args_. wp_step. eapply wp_mono; [apply import_spec|]. intros r w1 H1.
  destruct r as [st|e|]; [|done|done]. destruct H1 as (i & H1).
  wp_step. apply wp_intro. intros w2 r2 Hrun. pose proof (infallible_gc w1) as Hne.
  pose proof (frame_on_spdk (E := LvsError) _ moves_gc w1) as Hf. rewrite Hrun in Hne, Hf. simpl in Hne, Hf.
  destruct r2 as [[]|e|]; [|by destruct (Hne e)|done]. pose proof (ready_frame _ _ _ _ _ _ _ H1 Hf) as H2.
  destruct (pa_uuid (be_args b)) as [u|] eqn:Hu; [|wp_step; by exists i].
  assert (Hl : loaded w w2 st i (pool_bdev_name b)) by apply H2.
  wp_step. apply wp_store_of; [|done]. intros i' Hi'. rewrite (loaded_lookup _ _ _ _ _ Hl) in Hi'. simplify_eq.
  case_bool_decide; [wp_step; exists i'; split; [done|intros; by simplify_eq]|].
  wp_step. apply wp_intro. intros w3 r3 Hrun3.
  destruct r3 as [[]|e|]; [wp_step; right; split; [done|]| |done]; [|right; split; [by eapply export_error|]];
    exists w2, st, i'; eauto.
Qed.

Lemma create_from_args_inner_spec md args b w :
  wp (create_from_args_inner env md args b) (λ r w',
    match r with
    | Ok st => ∃ i, ready w w' (pa_name args) st i b ∧ ∀ u, pa_uuid args = Some u → parse_uuid u = Some (store_uuid i)
    | Err _ => stores (sp w') = stores (sp w) ∧ disks (sp w') = disks (sp w)
    | Panicked => True
    end) w.
Proof.
  unfold create_from_args_inner. wp_steps. destruct (check_cluster_size args) as [cs| |]; [|done..].
  wp_step. apply wp_lookup_bdev; [done|]. intros _. destruct (bdevs (sp w) !! b) as [bi|]; [|by wp_step].
  wp_steps. destruct (md (bdev_size bi)) as [ratio| |]; [|done..]. wp_steps.
  destruct (match pa_uuid args with Some u => _ | None => _ end) as [cu| |] eqn:Hcu; [|done..].
  wp_step. apply wp_spdk_call. intros s1 a Hc. destruct (create_law _ _ _ _ _ _ _ _ Hc) as [Hd Ha].
  destruct a as [rc|[st|e]]; [by wp_step| |by wp_step]. destruct Ha as (i & Hst & Hb & Hn & Hu).
  assert (Hl : loaded w (set_sp s1 w) st i b) by done. wp_step. apply wp_lookup; [done|]. intros _.
  assert (lvs_by_name (sp (set_sp s1 w)) (pa_name args) = Some st) as ->.
  { apply by_name_law. exists i. split; [by apply (loaded_lookup _ _ _ _ _ Hl)|done]. }
  apply (wp_add_and_enable st i w _ b _ Hl); [done|]. intros w2 Hr. exists i. rewrite <- Hn. split; [done|].
  intros u Hpu. rewrite Hpu in Hcu. unfold into_cstring, mbind, outcome_bind in Hcu. destruct (has NUL u); simplify_eq. by apply Hu.
Qed.

(** ** The bdevs below a pool *)

Definition created w w1 (args : PoolArgs) (disk n : string) (b : LvsBackendBdevs) : Prop :=
  be_args b = args ∧ be_uri b = disk ∧ pool_bdev_name b = default n (pa_crypto_vbdev_name args) ∧
  created_bdev b = bool_decide (bdevs (sp w) !! n = None) ∧ lvs_by_name (sp w) (pa_name args) = None ∧
  stores (sp w1) = stores (sp w) ∧ infos w1 = infos w ∧ tasks w1 = tasks w.

Lemma wp_create_base uri n w (Q : outcome LvsError string → World → Prop) :
  uri_parse uri = Ok n →
  (∀ w1 r, stores (sp w1) = stores (sp w) → infos w1 = infos w → tasks w1 = tasks w →
     (disks (sp w1) = disks (sp w) ∧ (r = Ok n ∨ r = Panicked ∨ ∃ e, r = Err e)) ∨
     (r = Ok n ∧ ∃ drv u, drv ≠ "crypto"%string ∧ disks (sp w1) = <[n := mkDisk drv None u]> (disks (sp w))) → Q r w1) →
  wp (create_base uri n) Q w.
Proof.
  intros Hp HQ. unfold create_base. wp_step. apply wp_spdk_call. intros s1 a Hc.
  destruct (bdev_create_law _ _ _ _ _ Hp Hc) as (Hst & Ha).
  assert (Hsame : ∀ r, disks s1 = disks (sp w) → r = Ok n ∨ r = Panicked ∨ (∃ e, r = Err e) → Q r (set_sp s1 w)).
  { intros r Hd Hr. apply HQ; try done. by left. }
  destruct a as [n'|e|]; [|destruct e; try destruct source; wp_step; apply Hsame; eauto|wp_step; apply Hsame; eauto].
  destruct Ha as (-> & Hd). wp_step. apply HQ; try done. by right.
Qed.

(** Destroying a bdev that is not in use, and unloading a store, do it. *)
Definition cleanup_works : Prop :=
  (∀ u n s, uri_parse u = Ok n → unused n s → disks (fst (bdev_destroy u s)) = delete n (disks s)) ∧
  (∀ c k s d, disks s !! c = Some d → d_driver d = "crypto"%string → unused c s →
     disks (fst (crypto_destroy c k s)) = delete c (disks s)) ∧
  (∀ st s, stores (fst (vbdev_lvs_unload st s)) = delete st (stores s)).

Section Fresh.
Context (s0 : spdk) (n : string) (c : option string).
Context (Hn : bdevs s0 !! n = None) (Hc : ∀ k, c = Some k → bdevs s0 !! k = None ∧ k ≠ n) (Hclean : cleanup_works).

(** The bdevs are those of [s0] and possibly [n], and [c] on top of it. *)
Record extra (crypto : bool) (s : spdk) : Prop := mkExtra {
  ex_stores : stores s = stores s0;
  ex_other k : k ≠ n → c ≠ Some k → disks s !! k = disks s0 !! k;
  ex_n d : disks s !! n = Some d → d_driver d ≠ "crypto"%string ∧ d_crypto d = None;
  ex_c k d : c = Some k → disks s !! k = Some d → crypto = true ∧ d_driver d = "crypto"%string ∧ d_crypto d = Some n
}.

Lemma extra_refl : extra false s0.
Proof.
  split; try done; intros *.
  - by rewrite (disks_none s0 n Hn).
  - intros Hk. destruct (Hc _ Hk) as [Hb _]. by rewrite (disks_none s0 _ Hb).
Qed.

Lemma extra_same crypto s s' : extra crypto s → stores s' = stores s → disks s' = disks s → extra crypto s'.
Proof. intros [H1 H2 H3 H4] Hs Hd. split; [congruence|rewrite Hd..]; auto. Qed.

Lemma extra_delete crypto s s' k :
  extra crypto s → k = n ∨ c = Some k → stores s' = stores s → disks s' = delete k (disks s) → extra crypto s'.
Proof.
  intros [H1 H2 H3 H4] Hk Hs Hd. split; [congruence|rewrite Hd..].
  - intros k' Hkn Hkc. rewrite lookup_delete_ne; [auto|]. intros ->. by destruct Hk.
  - intros d. rewrite lookup_delete_Some. intros [_ ?]. auto.
  - intros k' d Hk'. rewrite lookup_delete_Some. intros [_ ?]. eauto.
Qed.

Lemma not_based s st k : stores s = stores s0 → disks s0 !! k = None → store_base s st ≠ Some k.
Proof.
  intros Hs Hk Hb. unfold store_base in Hb. rewrite Hs in Hb. destruct (base_exists s0 st k Hb) as [d Hd]. congruence.
Qed.

Lemma unused_crypto crypto s k : extra crypto s → c = Some k → unused k s.
Proof.
  intros [H1 H2 H3 H4] Hk. destruct (Hc k Hk) as [Hb Hne]. pose proof (disks_none s0 k Hb) as Hd. split.
  - intros st. by apply not_based.
  - intros k' d Hk' Hcr. destruct (decide (k' = n)) as [->|Hkn]; [destruct (H3 d Hk') as [_ Hx]; congruence|].
    destruct (decide (c = Some k')) as [Hck|Hck].
    + destruct (H4 k' d Hck Hk') as (_ & _ & Hx). rewrite Hx in Hcr. congruence.
    + rewrite (H2 k' Hkn Hck) in Hk'. destruct (crypto_exists s0 k' d k Hk' Hcr) as [d' Hd']. congruence.
Qed.

Lemma unused_base crypto s : extra crypto s → (∀ k, c = Some k → disks s !! k = None) → unused n s.
Proof.
  intros [H1 H2 H3 H4] Hnone. pose proof (disks_none s0 n Hn) as Hd. split.
  - intros st. by apply not_based.
  - intros k' d Hk' Hcr. destruct (decide (k' = n)) as [->|Hkn]; [destruct (H3 d Hk') as [_ Hx]; congruence|].
    destruct (decide (c = Some k')) as [Hck|Hck]; [by rewrite (Hnone k' Hck) in Hk'|].
    rewrite (H2 k' Hkn Hck) in Hk'. destruct (crypto_exists s0 k' d n Hk' Hcr) as [d' Hd']. congruence.
Qed.

Lemma extra_gone crypto s :
  extra crypto s → disks s !! n = None → (∀ k, c = Some k → disks s !! k = None) → disks s = disks s0.
Proof.
  intros [H1 H2 H3 H4] Hsn Hsc. apply map_eq. intros k. destruct (decide (k = n)) as [->|Hkn].
  { by rewrite Hsn, (disks_none s0 n Hn). }
  destruct (decide (c = Some k)) as [Hck|Hck]; [|auto].
  rewrite (Hsc k Hck). destruct (Hc k Hck) as [Hb _]. by rewrite (disks_none s0 k Hb).
Qed.

(** Destroying one of the two. *)
Lemma wp_bdev_destroy {E} crypto u k w (Q : outcome E (outcome Bdev.Error unit) → World → Prop) :
  extra crypto (sp w) → uri_parse u = Ok k → unused k (sp w) → k = n ∨ c = Some k →
  (∀ w' r, extra crypto (sp w') → disks (sp w') = delete k (disks (sp w)) → Q (Ok r) w') →
  wp (spdk_call (bdev_destroy u)) Q w.
Proof.
  intros He Hu Hun Hk HQ. apply wp_spdk_call. intros s' r Hd. destruct (bdev_destroy_law _ _ _ _ _ Hu Hun Hd) as [Hs _].
  destruct Hclean as (Hbd & _ & _). specialize (Hbd u k (sp w) Hu Hun). rewrite Hd in Hbd. simpl in Hbd.
  apply HQ; [|done]. by apply (extra_delete crypto (sp w) s' k).
Qed.

Lemma wp_crypto_destroy {E} crypto key k w (Q : outcome E (outcome Bdev.Error unit) → World → Prop) :
  extra crypto (sp w) → c = Some k →
  (∀ w' r, extra crypto (sp w') → disks (sp w') = delete k (disks (sp w)) → Q (Ok r) w') →
  wp (spdk_call (crypto_destroy k key)) Q w.
Proof.
  intros He Hk HQ. pose proof (unused_crypto _ _ _ He Hk) as Hun. apply wp_spdk_call. intros s' r Hd.
  destruct (crypto_destroy_law _ _ _ _ _ Hun Hd) as [Hs Hcases].
  assert (Hdel : disks s' = delete k (disks (sp w))).
  { destruct (disks (sp w) !! k) as [d|] eqn:Hk'; [|destruct Hcases as [|[_ ->]]; [done|by rewrite delete_id]].
    destruct (ex_c _ _ He k d Hk Hk') as (_ & Hdrv & _). destruct Hclean as (_ & Hcd & _).
    specialize (Hcd k key (sp w) d Hk' Hdrv Hun). by rewrite Hd in Hcd. }
  apply HQ; [|done]. apply (extra_delete crypto (sp w) s' k); auto.
Qed.

(** The second half of [lvs_cleanup]. *)
Lemma destroy_own crypto k b w :
  extra crypto (sp w) → (∀ u, uri_original b = Some u → uri_parse u = Ok k) → unused k (sp w) → k = n ∨ c = Some k →
  wp (match uri_original b with
      | None => mret tt
      | Some u => r ← spdk_call (bdev_destroy u); ST.lift (map_err (λ e, Destroy e k) r)
      end) (λ _ w', extra crypto (sp w')) w.
Proof.
  intros He Hu Hun Hk. destruct (uri_original b) as [u|]; [|by wp_step]. wp_step.
  eapply wp_bdev_destroy; [exact He|by apply Hu|exact Hun|exact Hk|]. intros. by wp_steps.
Qed.

Lemma top_cases : (c = None ∧ default n c = n) ∨ ∃ k, c = Some k ∧ default n c = k.
Proof. destruct c; eauto. Qed.

Lemma cleanup_extra crypto w :
  extra crypto (sp w) → wp (lvs_cleanup (default n c)) (λ _ w', extra crypto (sp w')) w.
Proof.
  intros He. unfold lvs_cleanup. wp_step. apply wp_lookup_bdev; [done|]. intros _.
  destruct (bdevs (sp w) !! default n c) as [b|] eqn:Hb; [|by wp_step].
  case_bool_decide as Hdrv.
  - pose proof (disks_bdev (sp w) _ b Hb ltac:(by rewrite Hdrv)) as Hd. destruct top_cases as [[Hck Htop]|(k & Hck & Htop)]; rewrite Htop in *.
    { destruct (ex_n _ _ He _ Hd) as [Hx _]. by destruct Hx. }
    destruct (ex_c _ _ He k _ Hck Hd) as (_ & _ & Hbase). simpl in Hbase. wp_steps.
    eapply wp_crypto_destroy; [exact He|done|]. intros w1 r He1 Hd1. rewrite Hbase. wp_steps.
    apply wp_lookup_bdev; [done|]. intros _. wp_step.
    destruct (bdevs (sp w1) !! n) as [cb|] eqn:Hcb; simpl.
    + apply destroy_own; [done|by intros u; apply (uri_of_bdev (sp w1))| |by left].
      apply (unused_base _ _ He1). intros k' ?. assert (k' = k) as -> by congruence. rewrite Hd1. apply lookup_delete_eq.
    + apply destroy_own; [done|by intros u; apply (uri_of_bdev (sp w))|by eapply unused_crypto|by right].
  - wp_steps. destruct top_cases as [[Hck Htop]|(k & Hck & Htop)]; rewrite Htop in *.
    + apply destroy_own; [done|by intros u; apply (uri_of_bdev (sp w))| |by left]. apply (unused_base _ _ He). intros k. by rewrite Hck.
    + apply destroy_own; [done|by intros u; apply (uri_of_bdev (sp w))|by eapply unused_crypto|by right].
Qed.

Lemma export_extra crypto w st i :
  stores s0 !! st = None → stores (sp w) = <[st := i]> (stores s0) → base_of i = Some (default n c) →
  (∀ s, stores s = stores s0 → disks s = disks (sp w) → extra crypto s) →
  wp (export st) (λ r w', r = Panicked ∨ extra crypto (sp w')) w.
Proof.
  intros Hnone Hst Hb He. assert (Hlk : stores (sp w) !! st = Some i) by (rewrite Hst; apply lookup_insert_eq).
  unfold export, base_bdev. wp_step. apply wp_store_of; [|congruence]. intros i' Hi'. rewrite Hlk in Hi'. simplify_eq.
  wp_steps. apply wp_store_of; [|congruence]. intros i2 Hi2. rewrite Hlk in Hi2. simplify_eq. wp_step. unfold spdk_get. wp_step.
  unfold store_base. rewrite Hlk. simpl. rewrite Hb. wp_steps.
  apply wp_intro. intros w1 r1 Hrun. pose proof (infallible_unshare_all st w) as Hne.
  pose proof (frame_unshare_all st w) as ((Hf1 & Hf2 & _) & _). rewrite Hrun in Hne, Hf1, Hf2. simpl in *.
  destruct r1 as [[]|e|]; [|by destruct (Hne e)|by left]. wp_step. apply wp_spdk_call. intros s2 rc Hu.
  destruct (unload_law _ _ _ _ Hu) as [Hd _]. destruct Hclean as (_ & _ & Hul). specialize (Hul st (sp w1)). rewrite Hu in Hul.
  simpl in Hul. assert (He2 : extra crypto s2).
  { apply He; [|congruence]. rewrite Hul, Hf1, Hst. by rewrite delete_insert_id. }
  unfold unloaded. wp_step. apply wp_lookup; [by left|]. intros _. assert (lvs_by_name (sp (set_sp s2 w1)) (store_name i2) = None) as ->.
  { destruct (lvs_by_name _ _) as [st'|] eqn:Hl; [|done]. apply by_name_law in Hl as (i' & Hi' & Hname). exfalso. simpl in Hi'.
    rewrite Hul, Hf1 in Hi'. apply lookup_delete_Some in Hi' as [Hne' Hi']. apply Hne'. eapply by_name_unique; [exact Hlk|exact Hi'|done]. }
  unfold remove_info. wp_steps. destruct (rc =? 0).
  - eapply wp_mono; [by apply (cleanup_extra crypto)|]. by right.
  - wp_step. eapply wp_mono; [by apply (cleanup_extra crypto)|]. intros [[]|e|] w3 He3; [wp_step|..]; by right.
Qed.

Lemma undo_extra b w :
  extra (created_crypto b) (sp w) → created_bdev b = true → uri_parse (be_uri b) = Ok n → pa_crypto_vbdev_name (be_args b) = c →
  wp (undo b) (λ r w', r = Ok tt ∧ stores (sp w') = stores s0 ∧ disks (sp w') = disks s0) w.
Proof.
  intros He Hbd Hu Hargs. unfold undo. rewrite Hargs, Hbd.
  assert (Hbase : ∀ w', extra (created_crypto b) (sp w') → (∀ k, c = Some k → disks (sp w') !! k = None) →
    wp (E := LvsError) (spdk_call (bdev_destroy (be_uri b));; mret tt) (λ r w', r = Ok tt ∧ stores (sp w') = stores s0 ∧ disks (sp w') = disks s0) w').
  { intros w' He' Hnone. wp_step. eapply wp_bdev_destroy; [exact He'|exact Hu|by apply (unused_base _ _ He')|by left|].
    intros w2 r He2 Hd2. wp_step. split_and!; [done|by destruct He2|]. apply (extra_gone _ _ He2); rewrite Hd2; [apply lookup_delete_eq|].
    intros k Hk. rewrite lookup_delete_None. right. by apply Hnone. }
  destruct (created_crypto b) eqn:Hcr; [destruct top_cases as [[Hck _]|(k & Hck & _)]; rewrite Hck|]; wp_step; wp_step.
  - apply Hbase; [done|]. intros k. by rewrite Hck.
  - eapply wp_crypto_destroy; [exact He|exact Hck|]. intros w1 r He1 Hd1. wp_step. apply Hbase; [done|].
    intros k' ?. assert (k' = k) as -> by congruence. rewrite Hd1. apply lookup_delete_eq.
  - apply Hbase; [done|]. intros k Hk. destruct (disks (sp w) !! k) as [d|] eqn:Hd; [|done].
    by destruct (ex_c _ _ He k d Hk Hd).
Qed.

(** Creating the bdevs. *)
Lemma create_crypto_extra uri args w :
  extra false (sp w) → uri_parse uri = Ok n → pa_crypto_vbdev_name args = c →
  wp (create_crypto uri n args) (λ r w', 
    match r with
    | Ok crypto => extra crypto (sp w') ∧ infos w' = infos w ∧ tasks w' = tasks w
    | Err _ => stores (sp w') = stores s0 ∧ disks (sp w') = disks s0
    | Panicked => True
    end) w.
Proof.
  intros He Hu Hargs. unfold create_crypto. rewrite Hargs.
  assert (Hnone : ∀ k, c = Some k → disks (sp w) !! k = None).
  { intros k Hk. destruct (disks (sp w) !! k) as [d|] eqn:Hd; [|done]. by destruct (ex_c _ _ He k d Hk Hd). }
  destruct top_cases as [[Hck _]|(k & Hck & _)]; rewrite Hck; [by wp_step|].
  destruct (pa_enc_key args) as [key|]; [|by wp_step]. wp_step. apply wp_lookup_bdev; [done|]. intros _.
  destruct (bdevs (sp w) !! k) as [x|]; [by wp_step|]. wp_step. apply wp_spdk_call. intros s1 r Hcc.
  destruct (crypto_create_law _ _ _ _ _ _ Hcc) as [Hs Hd]. destruct (Hc k Hck) as [_ Hne].
  destruct r as [[]|e|]; [| |by wp_step].
  - destruct Hd as [uri' Hd]. wp_step. split_and!; [|done..]. destruct He as [H1 H2 H3 H4]. split; simpl; [congruence|rewrite Hd..].
    + intros k' ? ?. rewrite lookup_insert_ne by congruence. auto.
    + intros d. rewrite lookup_insert_ne by done. auto.
    + intros k' d Hk'. assert (k' = k) as -> by congruence. rewrite lookup_insert_eq. intros ?; by simplify_eq.
  - assert (He1 : extra false s1) by (by apply (extra_same _ (sp w))). wp_step.
    eapply (wp_bdev_destroy _ uri n (set_sp s1 w)); [exact He1|exact Hu|apply (unused_base _ _ He1); by rewrite Hd|by left|].
    intros w2 r He2 Hd2. wp_step. split; [by destruct He2|]. apply (extra_gone _ _ He2); rewrite Hd2; [apply lookup_delete_eq|].
    intros k' Hk'. rewrite lookup_delete_None. right. simpl. rewrite Hd. by apply Hnone.
Qed.

Lemma backend_extra create args disk w :
  sp w = s0 → parse_disk (pa_disks args) = Ok disk → uri_parse disk = Ok n → pa_crypto_vbdev_name args = c →
  wp (backend_new create args) (λ r w',
    match r with
    | Ok b => be_args b = args ∧ be_uri b = disk ∧ pool_bdev_name b = default n c ∧ created_bdev b = true ∧
              extra (created_crypto b) (sp w')
    | Err _ => stores (sp w') = stores s0 ∧ disks (sp w') = disks s0
    | Panicked => True
    end) w.
Proof.
  intros Hs0 Hdisk Hu Hargs. unfold backend_new. rewrite Hdisk. do 3 wp_step. rewrite Hu. cbn [map_err]. do 2 wp_step. apply wp_lookup; [done|]. intros _.
  destruct (lvs_by_name (sp w) (pa_name args)) as [pool|].
  { unfold name_in_use, base_bdev. wp_steps. apply wp_store_of; [|done]. intros i Hi. wp_step. unfold spdk_get. wp_step.
    destruct (store_base (sp w) pool); wp_steps; by subst. }
  wp_step. apply wp_lookup_bdev; [done|]. intros _. rewrite Hs0, Hn. wp_step.
  eapply wp_create_base; [exact Hu|]. intros w1 r Hst _ _ Hr.
  assert (He : extra false (sp w1)).
  { destruct Hr as [[Hd _]|(_ & drv & u & Hdrv & Hd)]; [apply (extra_same _ s0); [apply extra_refl|congruence..]|].
    destruct extra_refl as [H1 H2 H3 H4]. split; [congruence|rewrite Hd, Hs0..].
    - intros k ? ?. by rewrite lookup_insert_ne.
    - intros d. rewrite lookup_insert_eq. intros ?; by simplify_eq.
    - intros k d Hk. destruct (Hc k Hk) as [_ Hne]. rewrite lookup_insert_ne by done. by apply H4. }
  destruct Hr as [[Hd [->|[->|[e ->]]]]|(-> & _)]; [|done|subst; by split; congruence|].
  all: wp_step; eapply wp_mono; [by apply create_crypto_extra|]; intros [crypto|e|] w2; [|done|done]; intros (He2 & _);
    wp_step; split_and!; try done; by rewrite Hargs.
Qed.

(** The error is passed on after the bdevs were removed. *)
Lemma or_undo_extra {A} b (m : ST World LvsError A) w (P : A → World → Prop) :
  created_bdev b = true → uri_parse (be_uri b) = Ok n → pa_crypto_vbdev_name (be_args b) = c →
  wp m (λ r w', match r with Ok a => P a w' | Err _ => extra (created_crypto b) (sp w') | Panicked => True end) w →
  wp (or_undo b m) (λ r w', match r with Ok a => P a w' | Err _ => stores (sp w') = stores s0 ∧ disks (sp w') = disks s0
                                     | Panicked => True end) w.
Proof.
  intros Hbd Hu Hargs Hm. unfold wp, or_undo in *. destruct (m w) as [w1 [a|e|]]; [done| |done].
  change (wp (undo b;; ST.fail e) (λ r w', match r with Ok a => P a w' | Err _ => stores (sp w') = stores s0 ∧ disks (sp w') = disks s0
                                     | Panicked => True end) w1).
  wp_step. eapply wp_mono; [by apply undo_extra|]. intros r w2 (-> & H1 & H2). by wp_step.
Qed.

Lemma import_failed_extra crypto w w' e :
  extra crypto (sp w) → import_failed w w' (default n c) e → extra crypto (sp w').
Proof.
  intros He [(H1 & H2 & _)|(_ & w1 & st & i & ((Hnone & Hst) & Hb & Hd) & r & Hrun & Hr)]; [by apply (extra_same _ (sp w))|].
  rewrite (ex_stores _ _ He) in Hnone, Hst.
  assert (Hx : r = Panicked ∨ extra crypto (sp w')); [|by destruct Hx].
  refine (wp_elim _ _ _ _ _ (export_extra crypto w1 st i Hnone Hst Hb _) Hrun).
  intros s Hs Hds. apply (extra_same _ (sp w)); [done|by rewrite Hs, (ex_stores _ _ He)|congruence].
Qed.

End Fresh.

(** ** Results *)

Lemma backend_created create args w :
  wp (backend_new create args) (λ r w',
    match r with
    | Ok b => be_args b = args ∧ lvs_by_name (sp w) (pa_name args) = None ∧ stores (sp w') = stores (sp w) ∧ infos w' = infos w ∧
              ∃ disk n, parse_disk (pa_disks args) = Ok disk ∧ uri_parse disk = Ok n ∧
                        pool_bdev_name b = default n (pa_crypto_vbdev_name args)
    | _ => True
    end) w.
Proof.
  unfold backend_new. do 2 wp_step. destruct (parse_disk (pa_disks args)) as [disk| |]; [|done..]. do 2 wp_step.
  destruct (uri_parse disk) as [n| |] eqn:Hu; cbn [map_err]; [|done..]. wp_step. apply wp_lookup; [done|]. intros _.
  destruct (lvs_by_name (sp w) (pa_name args)) as [pool|].
  { unfold name_in_use, base_bdev. wp_steps. apply wp_store_of; [|done]. intros i Hi. wp_step. unfold spdk_get. wp_step.
    destruct (store_base (sp w) pool); by wp_steps. }
  wp_step. apply wp_lookup_bdev; [done|]. intros _. wp_step. eapply wp_create_base; [exact Hu|]. intros w1 r Hst Hi _ Hr.
  destruct r as [n1|e|]; [|done..]. wp_step.
  assert (Hc : wp (create_crypto disk n1 args) (λ r w', match r with Ok _ => stores (sp w') = stores (sp w1) ∧ infos w' = infos w1 | _ => True end) w1).
  { unfold create_crypto. destruct (pa_crypto_vbdev_name args) as [c|]; [|by wp_step]. destruct (pa_enc_key args) as [key|]; [|by wp_step].
    wp_step. apply wp_lookup_bdev; [done|]. intros _. destruct (bdevs (sp w1) !! c); [by wp_step|]. wp_step. apply wp_spdk_call.
    intros s2 [[]|e|] Hcc; [|wp_step; apply wp_spdk_call; intros; by wp_step|by wp_step].
    destruct (crypto_create_law _ _ _ _ _ _ Hcc) as [Hs _]. by wp_step. }
  eapply wp_mono; [exact Hc|]. intros [crypto|e|] w2; [|done..]. intros [H1 H2]. wp_step. simpl.
  split_and!; [done..|congruence|congruence|]. eauto 10.
Qed.

(** What a pool that was created or imported looks like. *)
Definition pool_there w w' (args : PoolArgs) (st : nat) : Prop :=
  ∃ i disk n, lvs_by_name (sp w) (pa_name args) = None ∧ stores (sp w) !! st = None ∧
    stores (sp w') = <[st := i]> (stores (sp w)) ∧ store_name i = pa_name args ∧
    parse_disk (pa_disks args) = Ok disk ∧ uri_parse disk = Ok n ∧ base_of i = Some (default n (pa_crypto_vbdev_name args)) ∧
    (∀ u, pa_uuid args = Some u → store_uuid i = u ∨ parse_uuid u = Some (store_uuid i)) ∧
    infos w' = <[pa_name args := mkPoolInfo false []]> (infos w) ∧
    watched w' st.

Lemma ready_there w w1 w2 b args st i :
  be_args b = args → lvs_by_name (sp w) (pa_name args) = None → stores (sp w1) = stores (sp w) → infos w1 = infos w →
  (∃ disk n, parse_disk (pa_disks args) = Ok disk ∧ uri_parse disk = Ok n ∧ pool_bdev_name b = default n (pa_crypto_vbdev_name args)) →
  ready w1 w2 (pa_name args) st i (pool_bdev_name b) →
  (∀ u, pa_uuid args = Some u → store_uuid i = u ∨ parse_uuid u = Some (store_uuid i)) → pool_there w w2 args st.
Proof.
  intros Hb Hname Hs1 Hi1 (disk & n & Hp & Hu & Hpb) (((Hnone & Hst) & Hbase & _) & Hn & Hinf & Hw) Huu.
  exists i, disk, n. rewrite <- Hpb. split_and!; try done; congruence.
Qed.

Lemma wp_or_undo_ok {A} b (m : ST World LvsError A) w (P : A → World → Prop) :
  wp m (λ r w', ∀ a, r = Ok a → P a w') w → wp (or_undo b m) (λ r w', ∀ a, r = Ok a → P a w') w.
Proof.
  unfold wp, or_undo. destruct (m w) as [w1 [a|e|]]; [done|intros _|done].
  assert (Hf : ∀ w2 r, (undo b;; ST.fail e) w1 = (w2, r) → ∀ a, r ≠ Ok (A := A) a).
  { intros w2 r Hr a ->. unfold mbind, ST_bind in Hr. destruct (undo b w1) as [w3 [[]|?|]]; by simplify_eq. }
  destruct ((undo b;; ST.fail e) w1) as [w2 r] eqn:Hr. intros a ->. by destruct (Hf _ _ eq_refl a).
Qed.

Lemma import_there rounds b args w w1 :
  be_args b = args → lvs_by_name (sp w) (pa_name args) = None → stores (sp w1) = stores (sp w) → infos w1 = infos w →
  (∃ disk n, parse_disk (pa_disks args) = Ok disk ∧ uri_parse disk = Ok n ∧ pool_bdev_name b = default n (pa_crypto_vbdev_name args)) →
  wp (import_from_args_ env rounds b) (λ r w',
    (∀ st, r = Ok st → pool_there w w' args st) ∧
    (∀ e, r = Err e → cannot_import e = true → stores (sp w') = stores (sp w) ∧ infos w' = infos w)) w1.
Proof.
  intros Hb Hname Hs1 Hi1 Hd. eapply wp_mono; [apply import_from_args_spec|]. intros [st|e|] w2 H2; [..|done]; (split; [intros st' Hst|intros e' He]); simplify_eq.
  - destruct H2 as (i & Hr & Hu). eapply ready_there; [done..|exact Hr|]. intros u Hpu. left. by apply Hu.
  - intros Hcan. destruct H2 as [(H1 & _ & H3)|(Hno & _)]; [split; congruence|congruence].
Qed.

(** C24.  When a pool is created or imported, there is a new store with the
    name that was asked for, on the bdev that the arguments name, with the uuid
    that was asked for; no store had this name before, and no other store
    appears.  The pool is recorded as not stalled, and its I/O is watched unless
    SPDK has refused to: that is only logged, and the pool is there unwatched. *)
Theorem pool_created rounds md args w w' st :
  create_or_import env rounds md args w = (w', Ok st) ∨ import_from_args env rounds args w = (w', Ok st) → pool_there w w' args st.
Proof.
  intros [Hrun|Hrun]; refine (wp_elim _ (λ r w', ∀ st, r = Ok st → pool_there w w' args st) _ _ _ _ Hrun st eq_refl);
    unfold create_or_import, import_from_args; wp_step; (eapply wp_mono; [apply backend_created|]); intros [b|e|] w1; try done;
    intros (Hb & Hname & Hs1 & Hi1 & Hd); apply wp_or_undo_ok; pose proof (import_there rounds b args w w1 Hb Hname Hs1 Hi1 Hd) as Himp.
  2:{ eapply wp_mono; [exact Himp|]. intros r w2 [H _]. exact H. }
  unfold wp in *. destruct (import_from_args_ env rounds b w1) as [w2 [st'|e|]]; [by apply Himp| |done]. destruct Himp as [_ He].
  specialize (He e eq_refl). pose proof (create_from_args_inner_spec md args (pool_bdev_name b) w2) as Hcr. unfold wp in Hcr.
  destruct e as [[] ? ?| | | | | | | | | | | | | | | | | | | | | | | | | | | | | | | |]; try done.
  destruct (create_from_args_inner _ _ _ _ w2) as [w3 [st'|e|]]; [|done..]. intros st2 [= ->]. destruct Hcr as (i & Hr & Hu).
  destruct (He eq_refl) as [Hs2 Hi2]. eapply ready_there; [exact Hb|exact Hname|exact Hs2|exact Hi2|exact Hd|exact Hr|]. intros u Hpu. right. by apply Hu.
Qed.

(** C25.  When a pool can be neither imported nor created on a bdev that did
    not exist before, the stores and the bdevs are those of before, whatever
    went wrong and wherever: the bdev that was made for it, and the encrypting
    one on top of it, are gone.  This supposes that what is not in use can be
    destroyed and unloaded. *)
Theorem failed_pool_leaves_nothing rounds md args disk n w w' e :
  parse_disk (pa_disks args) = Ok disk → uri_parse disk = Ok n → bdevs (sp w) !! n = None →
  (∀ c, pa_crypto_vbdev_name args = Some c → bdevs (sp w) !! c = None ∧ c ≠ n) → cleanup_works →
  create_or_import env rounds md args w = (w', Err e) ∨ import_from_args env rounds args w = (w', Err e) →
  stores (sp w') = stores (sp w) ∧ disks (sp w') = disks (sp w).
Proof.
  intros Hdisk Hu Hn Hc Hclean Hrun. set (c := pa_crypto_vbdev_name args) in *.
  set (P := λ (r : outcome LvsError nat) w', match r with Ok _ => True | Err _ => stores (sp w') = stores (sp w) ∧ disks (sp w') = disks (sp w)
                                     | Panicked => True end).
  assert (Hcase : ∀ m create, (∀ b w1, be_args b = args → pool_bdev_name b = default n c → extra (sp w) n c (created_crypto b) (sp w1) →
      wp (m b) (λ r w', match r with Ok _ => True | Err _ => extra (sp w) n c (created_crypto b) (sp w') | Panicked => True end) w1) →
    wp (b ← backend_new create args; or_undo b (m b)) P w).
  { intros m create Hm. wp_step. eapply wp_mono; [by apply (backend_extra (sp w) n c Hn Hc Hclean create args disk)|].
    intros [b|e'|] w1; [|done|done]. intros (Hb & Huri & Hpb & Hcb & He). apply (or_undo_extra (sp w) n c Hn Hc Hclean b (m b) w1 (λ _ _, True)); [done| | |].
    - by rewrite Huri.
    - by rewrite Hb.
    - by apply Hm. }
  assert (Himp : ∀ b w1, pool_bdev_name b = default n c → extra (sp w) n c (created_crypto b) (sp w1) →
    wp (import_from_args_ env rounds b) (λ r w', match r with Ok _ => True | Err _ => extra (sp w) n c (created_crypto b) (sp w') | Panicked => True end) w1).
  { intros b w1 Hpb He. eapply wp_mono; [apply import_from_args_spec|]. intros [st|e'|] w2 H2; [done| |done].
    rewrite Hpb in H2. by apply (import_failed_extra (sp w) n c Hn Hc Hclean _ w1 w2 e'). }
  destruct Hrun as [Hrun|Hrun]; refine (wp_elim _ P _ _ _ _ Hrun); apply Hcase; intros b w1 Hb Hpb He; [|by apply Himp].
  specialize (Himp b w1 Hpb He). unfold wp in *. destruct (import_from_args_ env rounds b w1) as [w2 [st'|e'|]]; [done| |done].
  pose proof (create_from_args_inner_spec md args (pool_bdev_name b) w2) as Hcr. unfold wp in Hcr.
  destruct e' as [[] ? ?| | | | | | | | | | | | | | | | | | | | | | | | | | | | | | | |]; try done.
  destruct (create_from_args_inner _ _ _ _ w2) as [w3 [st'|e2|]]; [done| |done]. destruct Hcr. by apply (extra_same _ _ _ _ (sp w2)).
Qed.

End Facts.

#[export] Hint Resolve frame_on_spdk frame_call frame_get frame_sleep frame_store_of frame_unshare_lvols frame_unshare_all
  frame_to_share frame_share_round frame_share_rounds frame_share_all : keeps.
End LvsProps.
