(* ===== verification/LvsStall.v ===== *)
(** * Pools: stalled I/O

    SPDK reports I/O that takes too long, completes resets and reads of the
    superblock, and the first reactor runs the futures that were sent to it, in
    any interleaving. *)

From Stdlib Require Import Ascii String.
From S2P Require Import Prelude Text Wp Errors NexusChild NexusErrors LvsErrors LvsLvol LvsMoves LvsStore LvsStoreProps.
Import LvsErr Lvol LvolMoves Lvs LvsProps.

#[local] Open Scope Z_scope.

Module LvsStall.

(** What is still outstanding. *)
Definition same_pending `{Pools} (s s' : spdk) : Prop := resets s' = resets s ∧ reads s' = reads s.

Class StallLaws `{PO : Pools} : Prop := {
  store_name_c s st i : stores s !! st = Some i → has NUL (store_name i) = false;
  timeout_pending st t s : same_pending s (fst (vbdev_lvs_set_timeout st t s));
  reset_law st s s' rc : vbdev_lvs_bs_bdev_reset st s = (s', rc) →
    same_pools s s' ∧ reads s' = reads s ∧ resets s' = if rc =? 0 then resets s ++ [st] else resets s;
  read_super_law st s : same_pools s (bs_read_super st s) ∧ resets (bs_read_super st s) = resets s ∧
    reads (bs_read_super st s) = reads s ++ [st]
}.

Section Stall.
Context `{PL : PoolLaws} {SL : StallLaws} (env : PoolEnv).

Implicit Types w : World.

Inductive stall_step w : World → Prop :=
| step_timeout st : is_Some (stores (sp w) !! st) → stall_step w (fst (lvstore_timeout_cb (E := LvsError) st w))
| step_reset st l1 l2 s : is_Some (stores (sp w) !! st) → same_pools (sp w) s → reads s = reads (sp w) →
    resets (sp w) = l1 ++ st :: l2 → resets s = l1 ++ l2 →
    stall_step w (fst (lvstore_reset_cb (E := LvsError) st (set_sp s w)))
| step_read now st l1 l2 s : is_Some (stores (sp w) !! st) → same_pools (sp w) s → resets s = resets (sp w) →
    reads (sp w) = l1 ++ st :: l2 → reads s = l1 ++ l2 →
    stall_step w (fst (bs_super_read_cb (E := LvsError) env now st (set_sp s w)))
| step_task t ts : tasks w = t :: ts → stall_step w (fst (run_task (E := LvsError) t (set_tasks ts w))).

Definition max_entries : Z := wrap64 (io_stall_transition_threshold env * 10).

(** A pool that is not stalled is watched.  For one that is stalled its recovery
    is under way.  The instants of recoveries are bounded. *)
Record healthy w : Prop := mkHealthy {
  h_watched st i p : stores (sp w) !! st = Some i → infos w !! store_name i = Some p → io_stalled p = false →
    stall_timeout (sp w) st = io_stall_deadline env;
  h_pending st i p : stores (sp w) !! st = Some i → infos w !! store_name i = Some p → io_stalled p = true →
    st ∈ resets (sp w) ∨ ReadSuper (store_name i) ∈ tasks w ∨ st ∈ reads (sp w);
  h_bounded n p : infos w !! n = Some p → Z.of_nat (length (transition_timestamps p)) ≤ max_entries
}.

Lemma set_stalled_lookup b n w n' :
  infos (set_stalled b n w) !! n' =
    if decide (n' = n) then (λ p, mkPoolInfo b (transition_timestamps p)) <$> infos w !! n else infos w !! n'.
Proof.
  unfold set_stalled. simpl. case_decide; [subst; by rewrite lookup_alter_eq|by rewrite lookup_alter_ne].
Qed.

(** The state of a pool was changed, and the rest of the world is as before, but
    for what is outstanding, which only grew. *)
Lemma healthy_update w w' st i q :
  healthy w → stores (sp w) !! st = Some i → stores (sp w') = stores (sp w) →
  (∀ st', st' ≠ st → stall_timeout (sp w') st' = stall_timeout (sp w) st') →
  (∀ x, x ≠ st → x ∈ resets (sp w) → x ∈ resets (sp w')) → (∀ x, x ≠ st → x ∈ reads (sp w) → x ∈ reads (sp w')) →
  (∀ n, ReadSuper n ∈ tasks w → ReadSuper n ∈ tasks w') →
  (∀ n, n ≠ store_name i → infos w' !! n = infos w !! n) → infos w' !! store_name i = Some q →
  (io_stalled q = false → stall_timeout (sp w') st = io_stall_deadline env) →
  (io_stalled q = true → st ∈ resets (sp w') ∨ ReadSuper (store_name i) ∈ tasks w' ∨ st ∈ reads (sp w')) →
  Z.of_nat (length (transition_timestamps q)) ≤ max_entries → healthy w'.
Proof.
  intros [H1 H2 H3] Hst Hs Ht Hr Hrd Htk Hi Hq Hw Hp Hlen. split.
  - intros st' i' p Hst' Hp' Hf. rewrite Hs in Hst'. destruct (decide (st' = st)) as [->|Hne].
    + assert (i' = i) as -> by congruence. assert (p = q) as -> by congruence. auto.
    + rewrite Ht by done. apply (H1 st' i' p Hst'); [|done]. rewrite <- Hi; [done|]. intros Hn. by destruct Hne; eapply by_name_unique.
  - intros st' i' p Hst' Hp' Hf. rewrite Hs in Hst'. destruct (decide (st' = st)) as [->|Hne].
    + assert (i' = i) as -> by congruence. assert (p = q) as -> by congruence. auto.
    + destruct (H2 st' i' p Hst') as [|[|]]; [|done|auto..]. rewrite <- Hi; [done|]. intros Hn. by destruct Hne; eapply by_name_unique.
  - intros n p Hn. destruct (decide (n = store_name i)) as [->|Hne]; [congruence|]. rewrite Hi in Hn by done. eauto.
Qed.

Lemma timeout_healthy st w : healthy w → is_Some (stores (sp w) !! st) → healthy (fst (lvstore_timeout_cb (E := LvsError) st w)).
Proof.
  intros Hh [i Hst]. assert (Hwp : wp (lvstore_timeout_cb (E := LvsError) st) (λ _ w', healthy w') w); [|unfold wp in Hwp; by destruct (lvstore_timeout_cb st w)].
  unfold lvstore_timeout_cb, mark_io_stalled. wp_step. apply wp_store_of; [|congruence]. intros i' Hi'. assert (i = i') as -> by congruence. do 2 wp_step.
  destruct (infos w !! store_name i') as [p|] eqn:Hp; [|by wp_step]. destruct (io_stalled p) eqn:Hst'; [by wp_step|].
  do 3 wp_step. apply wp_spdk_call. intros s1 rc Hreset. simpl in Hreset. destruct (reset_law _ _ _ _ Hreset) as ((Hs & _ & Ht) & Hrd & Hrs).
  pose proof (h_bounded w Hh _ _ Hp) as Hlen. pose proof (h_watched w Hh _ _ _ Hst Hp Hst') as Hwatch.
  assert (Hother : ∀ n, n ≠ store_name i' → infos (set_stalled true (store_name i') w) !! n = infos w !! n).
  { intros n Hn. rewrite set_stalled_lookup. by rewrite decide_False. }
  assert (Hself : infos (set_stalled true (store_name i') w) !! store_name i' = Some (mkPoolInfo true (transition_timestamps p))).
  { rewrite set_stalled_lookup, decide_True by done. by rewrite Hp. }
  assert (Hresets : ∀ x, x ∈ resets (sp w) → x ∈ resets s1).
  { intros x Hx. rewrite Hrs. destruct (rc =? 0); [|done]. apply elem_of_app. by left. }
  destruct (Z.eqb_spec rc (- ENOTSUP_rc)) as [->|Hrc]; [|destruct (Z.eqb_spec rc 0) as [->|Hrc0]; cbn [negb]].
  - unfold send_future. wp_steps. eapply (healthy_update w _ st i' _ Hh Hst); simpl; [done|intros; by rewrite Ht|auto|by rewrite Hrd|set_solver|exact Hother|
      exact Hself|done|set_solver|done].
  - unfold send_future. wp_steps. eapply (healthy_update w _ st i' _ Hh Hst); simpl; [done|intros; by rewrite Ht|auto|by rewrite Hrd|set_solver|exact Hother|
      exact Hself|done| |done]. rewrite Hrs. set_solver.
  - wp_step. eapply (healthy_update w _ st i' (mkPoolInfo false (transition_timestamps p)) Hh Hst); simpl; [done|intros; by rewrite Ht|auto|by rewrite Hrd|done| | |by rewrite Ht|done|done].
    + intros n Hn. simpl. rewrite lookup_alter_ne by done. by apply Hother.
    + simpl. rewrite lookup_alter_eq. by setoid_rewrite Hself.
Qed.

Lemma reset_healthy st l1 l2 s w :
  healthy w → is_Some (stores (sp w) !! st) → same_pools (sp w) s → reads s = reads (sp w) →
  resets (sp w) = l1 ++ st :: l2 → resets s = l1 ++ l2 → healthy (fst (lvstore_reset_cb (E := LvsError) st (set_sp s w))).
Proof.
  intros [H1 H2 H3] [i Hst] (Hs & _ & Ht) Hrd Hr1 Hr2. unfold lvstore_reset_cb, mbind, ST_bind, store_of. simpl. rewrite Hs, Hst.
  simpl. split; simpl; [intros st' i' p; rewrite Hs, Ht; eauto| |eauto].
  intros st' i' p Hst' Hp Hf. rewrite Hs in Hst'. destruct (H2 st' i' p Hst' Hp Hf) as [Hin|[Hin|Hin]]; [|set_solver|rewrite Hrd; auto].
  rewrite Hr1 in Hin. apply elem_of_app in Hin as [Hin|Hin]; [left; rewrite Hr2; set_solver|].
  apply elem_of_cons in Hin as [->|Hin]; [|left; rewrite Hr2; set_solver]. simplify_eq. set_solver.
Qed.

Lemma bounded_push {A} (ts : list A) now max :
  0 < max → Z.of_nat (length ts) ≤ max → Z.of_nat (length ((if Z.of_nat (length ts) =? max then tail ts else ts) ++ [now])) ≤ max.
Proof. intros Hm Hl. rewrite length_app. simpl. destruct (Z.eqb_spec (Z.of_nat (length ts)) max); [destruct ts; simpl in *; lia|lia]. Qed.

(** SPDK accepts every timeout. *)
Definition timeouts_work : Prop := ∀ st t s, snd (vbdev_lvs_set_timeout st t s) = 0.

Lemma read_healthy now st l1 l2 s w :
  timeouts_work → 0 < max_entries →
  healthy w → is_Some (stores (sp w) !! st) → same_pools (sp w) s → resets s = resets (sp w) →
  reads (sp w) = l1 ++ st :: l2 → reads s = l1 ++ l2 → healthy (fst (bs_super_read_cb (E := LvsError) env now st (set_sp s w))).
Proof.
  intros Htw Hmax Hh [i Hst] (Hs & _ & Ht) Hrs Hr1 Hr2. pose proof Hh as [H1 H2 H3].
  assert (Hwp : wp (bs_super_read_cb (E := LvsError) env now st) (λ _ w', healthy w') (set_sp s w)); [|unfold wp in Hwp; by destruct (bs_super_read_cb env now st _)].
  assert (Hoth : ∀ x, x ≠ st → x ∈ reads (sp w) → x ∈ reads s) by (rewrite Hr1, Hr2; set_solver).
  unfold bs_super_read_cb, mark_io_resumed. wp_step. apply wp_store_of; simpl; rewrite Hs; [|congruence]. intros i' Hi'. assert (i = i') as -> by congruence. do 2 wp_step.
  cbn [infos set_sp]. assert (Hskip : (∀ p, infos w !! store_name i' = Some p → io_stalled p = false) → healthy (set_sp s w)).
  { intros Hno. split; simpl; [intros st' i2 p; rewrite Hs, Ht; eauto| |eauto]. intros st' i2 p. rewrite Hs, Hrs. intros Hst' Hp Hf.
    destruct (H2 st' i2 p Hst' Hp Hf) as [|[|Hin]]; [auto..|]. right; right. apply Hoth; [|done]. intros ->. simplify_eq. rewrite (Hno p Hp) in Hf. done. }
  destruct (infos w !! store_name i') as [p|] eqn:Hp; [|wp_step; by apply Hskip]. destruct (io_stalled p) eqn:Hst'; cbn [negb].
  2:{ wp_step. apply Hskip. intros; by simplify_eq. }
  do 2 wp_step. apply wp_intro. intros w2 r2 Hrun. unfold enable_stall_detection, spdk_call, on_spdk, mbind, ST_bind in Hrun. simpl in Hrun.
  destruct (vbdev_lvs_set_timeout st (io_stall_deadline env) s) as [s2 rc] eqn:Hset. unfold mret, ST_ret in Hrun. simplify_eq.
  destruct (timeout_law _ _ _ _ _ Hset) as (Hs2 & _ & Ht2). pose proof (timeout_pending st (io_stall_deadline env) s) as [Hp1 Hp2].
  specialize (Htw st (io_stall_deadline env) s). rewrite Hset in *. simpl in Htw, Hp1, Hp2. subst rc.
  eapply (healthy_update w _ st i' _ Hh Hst); simpl; [by rewrite Hs2| | | |done| |apply lookup_insert_eq| |done|].
  - intros st2 Hne. rewrite Ht2, Ht. simpl. by destruct (Nat.eqb_spec st2 st).
  - by rewrite Hp1, Hrs.
  - by rewrite Hp2.
  - intros n Hn. by rewrite lookup_insert_ne.
  - intros _. by rewrite Ht2, Nat.eqb_refl.
  - apply bounded_push; [done|by eapply H3].
Qed.

Lemma task_healthy t ts w : healthy w → tasks w = t :: ts → healthy (fst (run_task (E := LvsError) t (set_tasks ts w))).
Proof.
  intros [H1 H2 H3] Htk. assert (Hwp : wp (run_task (E := LvsError) t) (λ _ w', healthy w') (set_tasks ts w)); [|unfold wp in Hwp; by destruct (run_task t _)].
  unfold run_task.
  assert (Hskip : (∀ n, t = ReadSuper n → ∀ st i, stores (sp w) !! st = Some i → store_name i ≠ n) → healthy (set_tasks ts w)).
  { intros Hno. split; simpl; [eauto| |eauto]. intros st i p Hst Hp Hf. destruct (H2 st i p Hst Hp Hf) as [|[Hin|]]; [auto| |auto].
    rewrite Htk in Hin. apply elem_of_cons in Hin as [He|]; [|auto]. by destruct (Hno (store_name i) (eq_sym He) st i). }
  destruct t as [name|name]; wp_step; apply wp_lookup; simpl.
  - intros _. by apply Hskip.
  - intros _. destruct (lvs_by_name (sp w) name) as [st|] eqn:Hl; [|wp_step; by apply Hskip].
    apply by_name_law in Hl as (i & Hst & <-). unfold disable_stall_detection. wp_step. apply wp_store_of; simpl; [|congruence].
    intros i' Hi'. assert (i = i') as -> by congruence. do 2 wp_step. destruct (is_stalled (store_name i') (set_tasks ts w)) eqn:Hstalled; [|wp_step; by apply Hskip].
    unfold is_stalled in Hstalled. simpl in Hstalled. destruct (infos w !! store_name i') as [p|] eqn:Hp; [|done]. simpl in Hstalled.
    wp_step. apply wp_spdk_call. intros s2 rc Hset. wp_step. simpl in Hset. destruct (timeout_law _ _ _ _ _ Hset) as (Hs2 & _ & Ht2).
    pose proof (timeout_pending st 0 (sp w)) as [Hp1 Hp2]. rewrite Hset in Hp1, Hp2. simpl in Hp1, Hp2.
    eapply (healthy_update (set_tasks ts w) _ st i' p); simpl; [by apply Hskip|done|done| |by rewrite Hp1|by rewrite Hp2|done|done|done|congruence| |by eapply H3].
    + intros st2 Hne. rewrite Ht2. destruct (Nat.eqb_spec st2 st); [done|]. by rewrite andb_false_r.
    + intros Hf. rewrite Hp1, Hp2. destruct (H2 st i' p Hst Hp Hf) as [|[Hin|]]; [auto| |auto]. rewrite Htk in Hin.
      apply elem_of_cons in Hin as [?|]; [done|auto].
  - intros Hnul. apply Hskip. intros n [= <-] st i Hst He. subst. pose proof (store_name_c _ _ _ Hst). congruence.
  - intros _. destruct (lvs_by_name (sp w) name) as [st|] eqn:Hl.
    2:{ wp_step. apply Hskip. intros n [= <-] st i Hst He. assert (lvs_by_name (sp w) name = Some st) by (apply by_name_law; eauto). congruence. }
    apply by_name_law in Hl as (i & Hst & <-). wp_step. destruct (read_super_law st (sp w)) as ((Hs & _ & Ht) & Hrs & Hrd).
    split; simpl; [intros st' i' p; rewrite Hs, Ht; eauto| |eauto]. intros st' i' p. rewrite Hs. intros Hst' Hp Hf. rewrite Hrs, Hrd.
    destruct (H2 st' i' p Hst' Hp Hf) as [|[Hin|]]; [auto| |set_solver]. rewrite Htk in Hin.
    apply elem_of_cons in Hin as [[= He]|]; [|auto]. assert (st' = st) as -> by (by eapply by_name_unique). set_solver.
Qed.

(** Stall detection: whatever the order of timeouts, completed resets,
    completed reads of the superblock and the futures run by the reactor, a
    pool that is not stalled has its I/O watched, a pool that is stalled has a
    reset, a future or a read outstanding that leads to its recovery, and
    the number of recoveries that are remembered is bounded.  Disabling the
    detection late never disables it on a pool that has recovered. *)
Theorem stall_detection_healthy w w' :
  timeouts_work → 0 < max_entries → healthy w → rtc stall_step w w' → healthy w'.
Proof.
  intros Htw Hmax Hh Hsteps. revert Hh. apply (rtc_invariant stall_step healthy w w'); [|done]. clear w w' Hsteps.
  intros w w' Hstep Hh. destruct Hstep.
  - by apply timeout_healthy.
  - by eapply reset_healthy.
  - by eapply read_healthy.
  - by apply task_healthy.
Qed.

End Stall.
End LvsStall.
