(* ===== verification/LvsReplica.v ===== *)
(** * Pools: creating a replica

    [Lvs::create_lvol_with_opts] makes a replica as it was asked for, or none. *)

From Stdlib Require Import Ascii String.
From S2P Require Import Prelude Text Wp Errors NexusChild NexusErrors LvsErrors LvsLvol LvsLvolProps LvsMoves LvsStore LvsStoreProps.
Import LvsErr Lvol LvolProps LvolMoves Lvs LvsProps.

#[local] Open Scope Z_scope.

Module LvsReplica.
Section Replica.
Context `{SL : SpdkLaws} {PO : Pools} {PL : PoolLaws}.

Implicit Types w : World.

Definition destroys_work : Prop := ∀ l s, snd (vbdev_lvol_destroy l s) = 0.

Definition lv_eq (s s' : spdk) : Prop := lvols s' = lvols s.

#[export] Instance lv_eq_preorder : PreOrder lv_eq.
Proof. split; [done|]. intros s1 s2 s3 H1 H2. unfold lv_eq in *. congruence. Qed.

Lemma lv_eq_info l : keeps lv_eq (info l).
Proof. apply keeps_same; [typeclasses eauto|]. intros s. unfold info. by destruct (lvols s !! l). Qed.

Lemma lv_eq_called {A E} (wrap : E → LvsError) (f : spdk → spdk * outcome E A) :
  (∀ s, lvols (fst (f s)) = lvols s) → keeps lv_eq (called wrap f).
Proof. intros Hf s. specialize (Hf s). unfold called. by destruct (f s). Qed.
Hint Resolve lv_eq_info : keeps.

Lemma lv_eq_unshare l : keeps lv_eq (unshare l false).
Proof. unfold unshare. keeps_tac. apply lv_eq_called. intros s. apply unshare_law. Qed.

Lemma lv_eq_wipe l : keeps lv_eq (wipe_super l).
Proof. unfold wipe_super. keeps_tac. apply lv_eq_called. intros s'. apply zeroes_law. Qed.

(** A new replica is destroyed again. *)
Lemma destroy_only l i s m :
  destroys_work → lvols s = <[l := i]> m → m !! l = None → wp (destroy l) (λ r s', r = Panicked ∨ lvols s' = m) s.
Proof.
  intros Hw Hl Hm. unfold destroy. wp_step. apply wp_try. pose proof (lv_eq_unshare l s) as Hu. unfold lv_eq in Hu.
  destruct (unshare l false s) as [s1 r1]. simpl in Hu.
  assert (Hrest : wp (i ← info l; rc ← call (vbdev_lvol_destroy l);
      if rc =? 0 then mret (bdev_name i) else ST.fail (RepDestroy (from_i32 rc) (bdev_name i))) (λ r s', r = Panicked ∨ lvols s' = m) s1).
  { wp_step. apply wp_intro. intros s1' r2 Hi. assert (s1' = s1) as -> by (unfold info in Hi; by case_match; simplify_eq).
    destruct r2 as [i'|e|]; [|by unfold info in Hi; case_match; simplify_eq|by left]. wp_step. apply wp_intro. intros s2 r3 Hrun. unfold call in Hrun.
    specialize (Hw l s1). destruct (vbdev_lvol_destroy l s1) as [s3 rc] eqn:Hd. simpl in Hw. simplify_eq. simpl. right.
    by rewrite (destroy_law _ _ _ _ Hd), Hu, Hl, delete_insert_id. }
  destruct r1; [exact Hrest|exact Hrest|by left].
Qed.

(** Whatever was to be done with a new replica, when it fails the replica goes. *)
Lemma wp_or_destroy l (m : ST spdk LvsError unit) base w (Q : outcome LvsError unit → World → Prop) :
  base !! l = None →
  wp m (λ r s', (∃ i', lvols s' = <[l := i']> base) ∧ (r = Ok tt → Q (Ok tt) (set_sp s' w)) ∧ (r = Panicked → Q Panicked (set_sp s' w))) (sp w) →
  (∀ e w', (destroys_work → lvols (sp w') = base) → Q (Err e) w') → (∀ w', Q Panicked w') →
  wp (or_destroy l (on_spdk m)) Q w.
Proof.
  intros Hb Hm He Hp. unfold wp, or_destroy, on_spdk in *. destruct (m (sp w)) as [s1 r]. destruct Hm as ((i' & Hl) & Hok & Hpan).
  destruct r as [[]|e|]; [by apply Hok| |by apply Hpan]. unfold mbind, ST_bind, ST.try. simpl.
  destruct (destroy l s1) as [s2 r2] eqn:Hd. unfold ST.fail.
  assert (Hw : r2 ≠ Panicked → destroys_work → lvols s2 = base).
  { intros Hr2 Hwork. by destruct (wp_elim _ _ _ _ _ (destroy_only l i' s1 base Hwork Hl Hb) Hd). }
  destruct r2 as [n|e2|]; simpl; [by apply He, Hw|by apply He, Hw|apply Hp].
Qed.

(** A new replica as it was asked for. *)
Definition fresh_replica st opts w (l : nat) (s : spdk) : Prop :=
  lvols (sp w) !! l = None ∧ ∃ i, lvols s = <[l := i]> (lvols (sp w)) ∧ store i = st ∧ bdev_name i = ra_name opts ∧
    (ra_uuid opts ≠ ""%string → parse_uuid (ra_uuid opts) = Some (bdev_uuid i)) ∧ is_snapshot i = false ∧ is_clone i = false.

Definition has_entity (id : string) (l : nat) (s : spdk) : Prop := get l PnEntityId s = (s, Ok (EntityId id)).

Lemma lv_eq_fresh st opts w l s s' : lv_eq s s' → fresh_replica st opts w l s → fresh_replica st opts w l s'.
Proof. intros He (Hn & i & Hl & H). split; [done|]. exists i. by rewrite He. Qed.

Lemma lv_eq_entity l s s' i id :
  lv_eq s s' → lvols s !! l = Some i → terminated i → has_entity id l s → has_entity id l s'.
Proof.
  intros He Hi Ht Hid. unfold has_entity in *. rewrite (get_run l _ s i Hi Ht) in Hid.
  rewrite (get_run l _ s' i) by (by rewrite ?He). congruence.
Qed.

(** The entity id was stored. *)
Definition entity_stored (id : string) (l : nat) (s : spdk) : Prop :=
  has_entity id l s ∧ ∃ i, lvols s !! l = Some i ∧ terminated i.

Lemma entity_fresh st opts w l s id i0 :
  fresh_replica st opts w l s → lvols s !! l = Some i0 → terminated i0 →
  wp (set l (EntityId id)) (λ r s', fresh_replica st opts w l s' ∧ (text_ok id → r = Ok tt → entity_stored id l s')) s.
Proof.
  intros (Hn & i & Hl & Hst & Hname & Hu & Hns & Hnc) Hi0 Ht. apply wp_intro. intros s' r Hset.
  assert (Hi : lvols s !! l = Some i) by (rewrite Hl; apply lookup_insert_eq). assert (i0 = i) as -> by congruence. split.
  - destruct (set_only l (EntityId id) s s' r i Hi Hns Ht Hset) as (i' & Hl' & ? & ? & Hbu & Hx).
    split; [done|]. exists i'. split_and!; try congruence.
    + rewrite Hl', Hl. apply insert_insert_eq.
    + rewrite Hbu. done.
    + revert Hns. unfold is_snapshot, blob_xattr. by rewrite Hx.
    + revert Hnc. unfold is_clone, blob_xattr. by rewrite Hx.
  - intros Hid Hr'. destruct (set_effect l (EntityId id) s s' r i Hi Hns Ht Hid Hset) as (Hr & i' & Hl' & Ht' & _ & _ & _ & _ & Hok).
    destruct (Hok Hr') as [(p' & Hget & Hs) _]. destruct p'; simpl in Hs; simplify_eq. split; [exact Hget|].
    exists i'. split; [rewrite Hl'; apply lookup_insert_eq|done].
Qed.

(** C26.  Creating a replica: either there is one new lvol with the name and the
    uuid that were asked for, which is neither a snapshot nor a clone, and the other
    lvols are as before; or an error is returned and the lvols are as before, if
    only destroying works.  The entity id that was asked for is read back, if it has
    fewer than 65535 bytes: the length of an attribute has 16 bits, and a longer id
    is cut off without an error.  (An id with a NUL byte panics.) *)
Theorem replica_created st opts w w' r :
  create_lvol_with_opts st opts w = (w', r) →
  match r with
  | Ok l => fresh_replica st opts w l (sp w') ∧ ∀ id, ra_entity_id opts = Some id → text_ok id → has_entity id l (sp w')
  | Err _ => destroys_work → lvols (sp w') = lvols (sp w)
  | Panicked => True
  end.
Proof.
  intros Hrun. pattern r, w'. match goal with |- ?P _ _ => set (Q := P) end. refine (wp_elim _ Q _ _ _ _ Hrun). clear w' r Hrun.
  unfold create_lvol_with_opts, base_bdev. do 2 wp_step. apply wp_store_of; [|done]. intros p Hp. wp_step. unfold spdk_get. wp_step.
  destruct (store_base (sp w) st) as [base|]; wp_steps; [|done].
  destruct (negb _ && bool_decide (is_Some (lookup_lvol_by_uuid_str _ _ _))); [by wp_step|]. case_bool_decide; [by wp_step|].
  destruct (negb _ && _); [by wp_step|]. destruct (capacity st (sp w) <? ra_size opts); [by wp_step|]. wp_steps.
  destruct (into_cstring (ra_name opts)) as [cname| |] eqn:Hcn; [|done..]. wp_steps. destruct (into_cstring (ra_uuid opts)) as [cuuid| |] eqn:Hcu; [|done..].
  unfold into_cstring in Hcn, Hcu. destruct (has NUL (ra_name opts)); [done|]. destruct (has NUL (ra_uuid opts)); [done|]. simplify_eq.
  wp_step. apply wp_spdk_call. intros s1 a Hc. destruct (lvol_create_law _ _ _ _ _ Hc) as [_ Ha]. destruct a as [rc|[l|e]]; [wp_step; intros _; exact Ha| |wp_step; intros _; exact Ha].
  destruct Ha as (Hnone & i & Hl & Hst & Hname & Huuid & Hattr).
  assert (Hf1 : fresh_replica st opts w l s1).
  { split; [done|]. exists i. split_and!; try done.
    - intros Hne. apply Huuid. simpl. by rewrite bool_decide_eq_false_2.
    - unfold is_snapshot, blob_xattr. by rewrite Hattr.
    - unfold is_clone, blob_xattr. by rewrite Hattr. }
  assert (Ht : terminated i) by (intros q v; rewrite Hattr; [done|by destruct q..]).
  assert (Hi : lvols s1 !! l = Some i) by (rewrite Hl; apply lookup_insert_eq).
  assert (Hwipe : ∀ w2, fresh_replica st opts w l (sp w2) → (∀ id, ra_entity_id opts = Some id → text_ok id → entity_stored id l (sp w2)) →
    wp ((if ra_wipe_super opts then or_destroy l (on_spdk (wipe_super l)) else mret tt);; mret l) Q w2).
  { intros w2 Hf2 Hid2. wp_step. destruct (ra_wipe_super opts); [|wp_steps; split; [done|]; intros; by apply Hid2]. apply (wp_or_destroy l _ (lvols (sp w))); [done| |done|done].
    eapply keeps_wp; [apply lv_eq_wipe|]. intros s3 r3 He. pose proof (lv_eq_fresh _ _ _ _ _ _ He Hf2) as Hf3. split_and!; [|intros _|done].
    - destruct Hf3 as (_ & i3 & Hl3 & _). eauto.
    - wp_step. split; [done|]. intros id Hide Hok. destruct (Hid2 id Hide Hok) as (He2 & i2 & Hi2 & Ht2). by eapply lv_eq_entity. }
  destruct (ra_entity_id opts) as [id|] eqn:Hent; wp_step; [|wp_step; by apply Hwipe].
  apply (wp_or_destroy l _ (lvols (sp w))); [done| |done|done]. eapply wp_mono; [by apply (entity_fresh st opts w l s1 id i)|].
  intros r3 s3 (Hf3 & Hid3). split_and!; [|intros Hr; apply Hwipe; [done|]|done].
  - destruct Hf3 as (_ & i3 & Hl3 & _). eauto.
  - intros id' [= <-] Hok. by apply Hid3.
Qed.

End Replica.
End LvsReplica.
