(* ===== verification/PoolService.v ===== *)
(** * Services for pools, replicas and snapshots

    [grpc/v1/pool.rs], [grpc/v1/replica.rs], [grpc/v1/snapshot.rs],
    [pool_backend.rs], [replica_backend.rs] and the factories of [lvs/mod.rs],
    with the LVS backend; the LVM backend is disabled.

    A request runs to its end before the next one of the service starts, so a
    request is a computation on the world.  [busy] says for which pools the lock
    is held by someone else, and [ptpl] whether the file for the reservations of
    a replica can be created.  A status is its code; the share URI and the
    allowed hosts are left out of the replies. *)

From Stdlib Require Import Ascii String.
From S2P Require Import Prelude Text Errors NexusChild NexusErrors LvsErrors LvsLvol LvsStore.
Import LvsErr Lvol Lvs.

#[local] Open Scope Z_scope.

Module Service.
Section Service.
Context `{PO : Pools} (env : PoolEnv) (busy : string → bool) (ptpl : nat → option string).

Notation M A := (ST World Code A).

(** [impl From<LvsError> for Status] by [?] *)
Definition lvs {A} (m : ST World LvsError A) : M A := ST.with_err code m.
Definition lvol {A} (m : ST spdk LvsError A) : M A := lvs (on_spdk m).

(** [acquire_subsystem_lock]: nothing waits for the lock of a pool. *)
Definition acquire_subsystem_lock (pool : string) : M unit := if busy pool then ST.fail Aborted else mret tt.

(** ** Finding *)

Inductive FindPoolArgs :=
| FindUuid (uuid : string)
| FindUuidOrName (id : string)
| FindNameUuid (name : string) (uuid : option string).

Definition find_pool (args : FindPoolArgs) : M (option nat) :=
  match args with
  | FindUuid uuid => lookup_by_uuid uuid
  | FindUuidOrName id => o ← lookup_by_uuid id; match o with Some st => mret (Some st) | None => lookup id end
  | FindNameUuid name (Some uuid) =>
      o ← lookup_by_uuid uuid;
      match o with
      | Some st => i ← store_of st; mret (if bool_decide (store_name i = name) then Some st else None)
      | None => mret None
      end
  | FindNameUuid name None => lookup name
  end.

(** [GrpcPoolFactory::finder] *)
Definition finder (args : FindPoolArgs) : M nat :=
  o ← find_pool args;
  match o with
  | None => ST.fail NexusErrors.NotFound
  | Some st => i ← store_of st; acquire_subsystem_lock (store_name i);; mret st
  end.

(** [GrpcReplicaFactory::pool_finder] *)
Definition pool_finder (args : FindPoolArgs) : M nat :=
  ST.with_err (λ c, if bool_decide (c = NexusErrors.NotFound) then FailedPrecondition else c) (finder args).

Definition get_info (l : nat) : M lvol_info := lvol (info l).

(** [ReplicaFactory::find] does not find snapshots, [find_snap] only these. *)
Definition find_replica (uuid : string) : M nat :=
  s ← spdk_get (λ s, s);
  match lookup_by_uuid_str uuid s with
  | None => ST.fail NexusErrors.NotFound
  | Some l => i ← get_info l; if is_snapshot i then ST.fail NexusErrors.NotFound else mret l
  end.

Definition find_snapshot (uuid : string) : M nat :=
  s ← spdk_get (λ s, s);
  match lookup_by_uuid_str uuid s with
  | None => ST.fail NexusErrors.NotFound
  | Some l => i ← get_info l; if is_snapshot i then mret l else ST.fail NexusErrors.NotFound
  end.

Definition verify_pool (st : nat) (l : nat) : M unit :=
  p ← store_of st;
  i ← get_info l;
  q ← store_of (store i);
  if bool_decide (store_name p = store_name q) && bool_decide (store_uuid p = store_uuid q) then mret tt else ST.fail Aborted.

(** The pool that a request may name. *)
Definition with_pool (pool : option FindPoolArgs) : M (option nat) :=
  match pool with None => mret None | Some p => st ← pool_finder p; mret (Some st) end.

Definition verify (pool : option nat) (l : nat) : M unit :=
  match pool with None => mret tt | Some st => verify_pool st l end.

(** ** Replicas *)

Inductive Protocol := Off | Nvmf.

#[global] Instance Protocol_eq_dec : EqDecision Protocol.
Proof. solve_decision. Defined.

Definition protocol (v : Z) : outcome LvsError Protocol :=
  if v =? 0 then Ok Off else if v =? 1 then Ok Nvmf else Err (ReplicaShareProtocol v).

Definition shared (s : spdk) (l : nat) : Protocol := if bdev_shared s l then Nvmf else Off.

Definition create_ptpl (l : nat) : M unit :=
  i ← get_info l;
  match ptpl l with None => mret tt | Some reason => lvs (ST.fail (LvolShare (Ptpl reason) (bdev_name i))) end.

Record CreateReplicaRequest := mkCreateReplica {
  cr_name : string;
  cr_uuid : string;
  cr_pooluuid : string;
  cr_size : Z;
  cr_thin : bool;
  cr_share : Z;
  cr_allowed_hosts : list string;
  cr_entity_id : option string
}.

(** [PoolGrpc::create_replica]: a replica that cannot be shared is destroyed. *)
Definition pool_create_replica (st : nat) (args : CreateReplicaRequest) : M nat :=
  p ← lvs (ST.lift (protocol (cr_share args)));
  l ← lvs (create_lvol_with_opts st
        (mkReplicaArgs (cr_name args) (cr_size args) (cr_uuid args) (cr_thin args) (cr_entity_id args) None true));
  match p with
  | Nvmf =>
      create_ptpl l;;
      r ← ST.try (on_spdk (share_nvmf l (cr_allowed_hosts args)));
      match r with
      | Ok _ => mret l
      | Err e => ST.try (on_spdk (destroy_replica l));; ST.fail (code e)
      | Panicked => ST.panic
      end
  | Off => mret l
  end.

Definition create_replica (args : CreateReplicaRequest) : M nat :=
  lvs (ST.lift (protocol (cr_share args)));;
  st ← pool_finder (FindUuidOrName (cr_pooluuid args));
  pool_create_replica st args.

Definition destroy_replica_rpc (uuid : string) (pool : option FindPoolArgs) : M unit :=
  st ← with_pool pool;
  l ← find_replica uuid;
  verify st l;;
  lvol (destroy_replica l);; mret tt.

Definition lock_pool_of (l : nat) : M unit :=
  i ← get_info l;
  p ← store_of (store i);
  acquire_subsystem_lock (store_name p).

(** [ReplicaGrpc::share] *)
Definition share (l : nat) (share : Z) (allowed_hosts : list string) : M unit :=
  lock_pool_of l;;
  p ← lvs (ST.lift (protocol share));
  sh ← spdk_get (λ s, shared s l);
  if bool_decide (sh = p) then lvol (update_properties l allowed_hosts)
  else
    match p with
    | Off => ST.fail NexusErrors.InvalidArgument
    | Nvmf => create_ptpl l;; lvol (share_nvmf l allowed_hosts);; mret tt
    end.

Definition share_replica (uuid : string) (proto : Z) (allowed_hosts : list string) : M unit :=
  l ← find_replica uuid; share l proto allowed_hosts.

Definition unshare_replica (uuid : string) : M unit :=
  l ← find_replica uuid; lock_pool_of l;; lvol (unshare l true).

Definition resize_replica_rpc (uuid : string) (size : Z) : M unit :=
  l ← find_replica uuid; lvol (resize_replica l size).

Definition set_replica_entity_id (uuid id : string) : M unit :=
  l ← find_replica uuid; lvol (set l (EntityId id)).

Record Replica := mkReplica {
  r_name : string;
  r_uuid : string;
  r_size : Z;
  r_thin : bool;
  r_share : Protocol;
  r_poolname : string;
  r_pooluuid : string;
  r_usage : LvolSpaceUsage;
  r_is_snapshot : bool;
  r_is_clone : bool;
  r_snapshot_uuid : option string;
  r_entity_id : option string;
  r_encrypted : bool
}.

Definition replica (s : spdk) (l : nat) : option Replica :=
  i ← lvols s !! l;
  p ← stores s !! store i;
  Some (mkReplica (bdev_name i) (bdev_uuid i) (size_in_bytes s l) (is_thin s l) (shared s l) (store_name p) (store_uuid p)
          (usage l i s) (is_snapshot i) (is_clone i) (snapshot_uuid i) (entity_id i) (encrypted (store i) s)).

Record ListReplicaArgs := mkListReplicas {
  la_name : option string;
  la_uuid : option string;
  la_pool_name : option string;
  la_pool_uuid : option string
}.

Definition retain (arg : option string) (val : string) : bool :=
  match arg with None => true | Some a => bool_decide (a = val) end.

Definition replica_list (args : ListReplicaArgs) (s : spdk) : list Replica :=
  List.filter (λ r, retain (la_pool_name args) (r_poolname r) && retain (la_pool_uuid args) (r_pooluuid r) &&
                    retain (la_name args) (r_name r) && retain (la_uuid args) (r_uuid r)) (omap (replica s) (lvol_bdevs s)).

Record ReplicaQuery := mkReplicaQuery { q_replica : bool; q_snapshot : bool; q_clone : bool }.

Definition filter_replicas_by_replica_type (q : option ReplicaQuery) (rs : list Replica) : list Replica :=
  match q with
  | None => rs
  | Some q =>
      List.filter (λ r, q_replica q && (negb (r_is_snapshot r) && negb (r_is_clone r)) ||
                        q_snapshot q && r_is_snapshot r || q_clone q && r_is_clone r) rs
  end.

Definition list_replicas (args : ListReplicaArgs) (q : option ReplicaQuery) : M (list Replica) :=
  rs ← spdk_get (replica_list args);
  mret (filter_replicas_by_replica_type q rs).

(** ** Snapshots *)

Record CreateSnapshotRequest := mkCreateSnapshot {
  cs_replica_uuid : string;
  cs_snapshot_uuid : string;
  cs_snapshot_name : string;
  cs_entity_id : string;
  cs_txn_id : string
}.

Definition uuid_known (uuid : string) (s : spdk) : bool :=
  match parse_uuid uuid with Some u => uuid_in_use s u | None => false end.

Definition create_replica_snapshot (now : string) (args : CreateSnapshotRequest) : M nat :=
  l ← find_replica (cs_replica_uuid args);
  i ← get_info l;
  match prepare now (cs_snapshot_name args) (cs_entity_id args) (cs_txn_id args) (cs_snapshot_uuid args) (bdev_uuid i) with
  | None => ST.fail NexusErrors.InvalidArgument
  | Some p =>
      known ← spdk_get (uuid_known (cs_snapshot_uuid args));
      if known : bool then ST.fail AlreadyExists else lvol (create_snapshot l p)
  end.

Definition destroy_snapshot_rpc (uuid : string) (pool : option FindPoolArgs) : M unit :=
  st ← with_pool pool;
  l ← find_snapshot uuid;
  verify st l;;
  lvol (destroy_snapshot l).

Definition create_snapshot_clone (now snapshot_uuid clone_name clone_uuid : string) : M nat :=
  known ← spdk_get (uuid_known clone_uuid);
  if known : bool then ST.fail AlreadyExists
  else
    l ← find_snapshot snapshot_uuid;
    i ← get_info l;
    if is_discarded_snapshot i then ST.fail NexusErrors.NotFound
    else
      match prepare_clone now clone_name clone_uuid snapshot_uuid with
      | None => ST.fail NexusErrors.InvalidArgument
      | Some p => lvol (create_clone l p)
      end.

(** [ReplLvsFactory::list_snaps] *)
Definition list_snaps (uuid source_uuid : option string) (s : spdk) : outcome Code (list (nat * SnapshotInfo)) :=
  match uuid, source_uuid with
  | Some u, _ =>
      match lookup_by_uuid_str u s ≫= lookup_info s with
      | Some (l, i) =>
          Ok (match snapshot_descriptor_info l i None s with Some d => [(l, d)] | None => [] end)
      | None => Err (code (Invalid LvolNotFound))
      end
  | None, Some u =>
      match lookup_by_uuid_str u s ≫= lookup_info s with
      | Some (l, i) => Ok (list_snapshot_by_source_uuid l i s)
      | None => Err (code (Invalid LvolNotFound))
      end
  | None, None => Ok (list_all_snapshots None s)
  end.

Record SnapshotQuery := mkSnapshotQuery { q_invalid : option bool; q_discarded : option bool }.

Definition query_field (q : option bool) (b : bool) : bool :=
  match q with Some true => b | Some false => negb b | None => true end.

Definition filter_snapshots_by_snapshot_query_type (q : option SnapshotQuery) (ds : list (nat * SnapshotInfo)) :
    list (nat * SnapshotInfo) :=
  match q with
  | None => ds
  | Some q => List.filter (λ d, query_field (q_invalid q) (valid_snapshot (snd d)) &&
                                query_field (q_discarded q) (sp_discarded (snap_param (snd d)))) ds
  end.

(** The error of a backend is not reported. *)
Definition list_snapshot (uuid source_uuid : option string) (q : option SnapshotQuery) : M (list (nat * SnapshotInfo)) :=
  s ← spdk_get (λ s, s);
  mret (filter_snapshots_by_snapshot_query_type q (match list_snaps uuid source_uuid s with Ok ds => ds | _ => [] end)).

Definition list_snapshot_clone (snapshot_uuid : option string) : M (list Replica) :=
  s ← spdk_get (λ s, s);
  mret (omap (replica s)
    match snapshot_uuid with
    | Some u => match lookup_by_uuid_str u s ≫= lookup_info s with Some (_, i) => list_clones_by_snapshot_uuid i s | None => [] end
    | None => list_all_clones s
    end).

(** ** Pools *)

Record CreatePoolRequest := mkCreatePool {
  cp_name_ : string;
  cp_uuid_ : option string;
  cp_disks : list string;
  cp_pooltype : Z;
  cp_cluster_size : option Z
}.

(** [PoolType::try_from]: 0 is LVS, and 1 is LVM, which is disabled. *)
Definition pool_backend (pooltype : Z) : outcome Code unit :=
  if pooltype =? 0 then Ok tt else if pooltype =? 1 then Err FailedPrecondition else Err NexusErrors.InvalidArgument.

(** [impl TryFrom<CreatePoolRequest> for PoolArgs], and [with_encryption]; an
    encrypting bdev is named after the pool. *)
Definition pool_args (req : CreatePoolRequest) (enc_key : option string) : outcome LvsError PoolArgs :=
  match cp_disks req with
  | [] => Err (Invalid LvsErr.InvalidArgument)
  | _ =>
      match cp_uuid_ req with
      | Some u => match parse_uuid u with Some _ => Ok tt | None => Err (Invalid LvsErr.InvalidArgument) end
      | None => Ok tt
      end;;
      Ok (mkPoolArgs (cp_name_ req) (cp_disks req) (cp_uuid_ req) (cp_cluster_size req) enc_key
            (match enc_key with Some _ => Some ("crypto_" +:+ cp_name_ req)%string | None => None end))
  end.

(** [GrpcPoolFactory::create] and [import]; with one backend a pool that is
    there already is left to the backend. *)
Definition create_pool (rounds : nat) (md_ratio : Z → outcome LvsError Z) (req : CreatePoolRequest) (enc_key : option string) : M nat :=
  ST.lift (pool_backend (cp_pooltype req));;
  args ← lvs (ST.lift (pool_args req enc_key));
  acquire_subsystem_lock (pa_name args);;
  find_pool (FindNameUuid (pa_name args) (pa_uuid args));;
  lvs (create_or_import env rounds md_ratio args).

(** The request of an import has no cluster size. *)
Definition import_pool (rounds : nat) (req : CreatePoolRequest) (enc_key : option string) : M nat :=
  ST.lift (pool_backend (cp_pooltype req));;
  args ← lvs (ST.lift (pool_args (mkCreatePool (cp_name_ req) (cp_uuid_ req) (cp_disks req) (cp_pooltype req) None) enc_key));
  acquire_subsystem_lock (pa_name args);;
  find_pool (FindNameUuid (pa_name args) (pa_uuid args));;
  lvs (import_from_args env rounds args).

Definition destroy_pool_rpc (name : string) (uuid : option string) : M unit :=
  st ← finder (FindNameUuid name uuid); lvs (destroy_pool st).

Definition export_pool (name : string) (uuid : option string) : M unit :=
  st ← finder (FindNameUuid name uuid); lvs (export st).

Definition grow_pool_v2 (name : string) (uuid : option string) : M nat :=
  st ← finder (FindNameUuid name uuid); lvs (grow st);; mret st.

(** [PoolLvsFactory::list] *)
Definition list_pools (name uuid : option string) : M (list nat) :=
  match name, uuid with
  | Some n, _ => o ← lookup n; mret (match o with Some st => [st] | None => [] end)
  | None, Some u => o ← lookup_by_uuid u; mret (match o with Some st => [st] | None => [] end)
  | None, None => spdk_get iter
  end.

End Service.

(** ** Alerts *)

Inductive PoolAlertStatus := Healthy | Attention | Warning | Critical.
Inductive PoolAlert := IoError | IoErrorExc | IoStalled | IoStallIntermittent | IoStallIntermittentExc.

Definition severity (s : PoolAlertStatus) : Z :=
  match s with Healthy => 0 | Attention => 1 | Warning => 2 | Critical => 3 end.

Record PoolAlerts := mkAlerts {
  al_status : Z;
  notice : list PoolAlert;
  attention : list PoolAlert;
  warning : list PoolAlert;
  critical : list PoolAlert
}.

Record PoolErrors := mkPoolErrors {
  pe_alerts : option PoolAlerts;
  io_error_count : Z;
  io_error_threshold : Z;
  pe_io_stalled : bool;
  io_stall_transition_count : Z;
  pe_transition_threshold : Z
}.

Definition with_alerts (a : PoolAlerts) (e : PoolErrors) : PoolErrors :=
  mkPoolErrors (Some a) (io_error_count e) (io_error_threshold e) (pe_io_stalled e) (io_stall_transition_count e)
    (pe_transition_threshold e).

(** [PoolErrorsNt::new]: recoveries that are too old are forgotten. *)
Definition pool_errors (p : option PoolInfo) (now window error_count error_threshold transition_threshold : Z) :
    PoolErrors * option PoolInfo :=
  let p := update_transition_timestamp now window <$> p in
  (mkPoolErrors None error_count error_threshold (from_option io_stalled false p)
     (from_option (λ p, Z.of_nat (length (transition_timestamps p))) 0 p) transition_threshold, p).

Definition set_alert_ (a : PoolAlerts) (s : PoolAlertStatus) (x : PoolAlert) : PoolAlerts :=
  match s with
  | Healthy => mkAlerts (al_status a) (notice a ++ [x]) (attention a) (warning a) (critical a)
  | Attention => mkAlerts (al_status a) (notice a) (attention a ++ [x]) (warning a) (critical a)
  | Warning => mkAlerts (al_status a) (notice a) (attention a) (warning a ++ [x]) (critical a)
  | Critical => mkAlerts (al_status a) (notice a) (attention a) (warning a) (critical a ++ [x])
  end.

(** [lower_status] only ever makes the status more severe. *)
Definition set_alert (s : PoolAlertStatus) (x : PoolAlert) (e : PoolErrors) : PoolErrors :=
  match pe_alerts e with
  | None => with_alerts (set_alert_ (mkAlerts (severity s) [] [] [] []) s x) e
  | Some a =>
      let a := set_alert_ a s x in
      with_alerts (if al_status a <? severity s
                   then mkAlerts (severity s) (notice a) (attention a) (warning a) (critical a) else a) e
  end.

Definition with_io_errors (e : PoolErrors) : PoolErrors :=
  if io_error_count e =? 0 then e
  else if io_error_count e <? io_error_threshold e then set_alert Attention IoError e
  else set_alert Warning IoErrorExc e.

Definition with_io_stall (e : PoolErrors) : PoolErrors :=
  let e := if pe_io_stalled e then set_alert Critical IoStalled e else e in
  if (io_stall_transition_count e =? 0) || (io_stall_transition_count e =? 1) then e
  else if io_stall_transition_count e <? pe_transition_threshold e then set_alert Attention IoStallIntermittent e
  else set_alert Warning IoStallIntermittentExc e.

Inductive PoolState := PoolOnline | PoolSuspected.

Definition pool_state (e : PoolErrors) : PoolState :=
  match pe_alerts e with
  | Some a => if severity Warning <=? al_status a then PoolSuspected else PoolOnline
  | None => PoolOnline
  end.

(** What a pool reports: it is suspected exactly when its I/O is stalled,
    or its errors or its recent recoveries from stalls reached their thresholds;
    and its status is that of the most severe alert that is raised. *)
Theorem pool_state_spec p now window errors threshold transitions :
  0 ≤ errors →
  let '(e0, _) := pool_errors p now window errors threshold transitions in
  let e := with_io_stall (with_io_errors e0) in
  let n := io_stall_transition_count e0 in
  (pool_state e = PoolSuspected ↔
     pe_io_stalled e0 = true ∨ (0 < errors ∧ threshold ≤ errors) ∨ (2 ≤ n ∧ transitions ≤ n)) ∧
  match pe_alerts e with
  | None => pe_io_stalled e0 = false ∧ errors = 0 ∧ n < 2
  | Some a =>
      notice a = [] ∧
      al_status a = (if negb (bool_decide (critical a = [])) then severity Critical
                     else if negb (bool_decide (warning a = [])) then severity Warning else severity Attention)
  end.
Proof.
  intros He. unfold pool_errors. set (n := from_option _ 0 _). set (b := from_option io_stalled false _). cbn.
  assert (0 ≤ n) by (unfold n; destruct (update_transition_timestamp now window <$> p); simpl; lia).
  unfold with_io_errors. simpl. destruct (Z.eqb_spec errors 0); [|destruct (Z.ltb_spec errors threshold)];
  unfold with_io_stall; simpl; destruct b; cbn; destruct (Z.eqb_spec n 0); cbn; try (destruct (Z.eqb_spec n 1); cbn);
    try (destruct (Z.ltb_spec n transitions); cbn); cbn.
  all: split; [split; [intros; first [done|tauto|lia]|intros; first [done|lia]]|try done; repeat split; first [done|lia]].
Qed.

(** Errors beyond the threshold. *)
Lemma pool_state_spec_witness : pool_state (with_io_stall (with_io_errors (fst (pool_errors None 0 0 7 5 3)))) = PoolSuspected.
Proof.
  pose proof (pool_state_spec None 0 0 7 5 3 ltac:(lia)) as H. cbv beta zeta iota delta [pool_errors] in H. destruct H as [H _]. apply H. right; left. lia.
Defined.

End Service.
