(* ===== verification/PoolServiceProps.v ===== *)
(** * Services: clones and the snapshots they come from

    Whatever requests for replicas, snapshots and clones are served, the
    snapshot that a clone was made of stays as long as the clone does, and a
    snapshot that was deleted by its owner goes with its last clone. *)

From Stdlib Require Import Ascii String.
From S2P Require Import Prelude Text Wp Errors NexusChild NexusErrors LvsErrors LvsLvol LvsLvolProps LvsMoves LvsStore LvsStoreProps PoolService.
Import LvsErr Lvol LvolProps LvolMoves Lvs LvsProps Service.

#[local] Open Scope Z_scope.

Module ServiceProps.

Notation source_attr := "io-engine.source_uuid"%string.
Notation time_attr := "io-engine.snapshot_create_time"%string.
Notation discarded_attr := "io-engine.discarded_snapshot"%string.

Section Clones.
Context `{SL : SpdkLaws}.

(** ** Operations that leave snapshots and clones alone *)

Definition protected (n : string) : Prop := n = source_attr ∨ n = time_attr ∨ n = discarded_attr.

Definition like (i i' : lvol_info) : Prop :=
  store i' = store i ∧ bdev_uuid i' = bdev_uuid i ∧ ∀ n, protected n → xattrs i' !! n = xattrs i !! n.

Definition tame (s s' : spdk) : Prop := map_relation (λ _, like) (λ _ _, False) (λ _ _, False) (lvols s) (lvols s').

#[export] Instance like_preorder : PreOrder like.
Proof.
  split; [intros i; by split_and!|]. intros i1 i2 i3 (H1 & H2 & H3) (H4 & H5 & H6). split_and!; [congruence..|].
  intros n Hn. by rewrite H6, H3.
Qed.

Lemma tame_lookup s s' l i : tame s s' → lvols s !! l = Some i → ∃ i', lvols s' !! l = Some i' ∧ like i i'.
Proof. intros Ht Hi. specialize (Ht l). rewrite Hi in Ht. destruct (lvols s' !! l) as [i'|]; [eauto|done]. Qed.

Lemma tame_lookup_inv s s' l i' : tame s s' → lvols s' !! l = Some i' → ∃ i, lvols s !! l = Some i ∧ like i i'.
Proof. intros Ht Hi. specialize (Ht l). rewrite Hi in Ht. destruct (lvols s !! l) as [i|]; [eauto|done]. Qed.

Lemma tame_eq s s' : lvols s' = lvols s → tame s s'.
Proof. intros He l. rewrite He. by destruct (lvols s !! l). Qed.

#[export] Instance tame_preorder : PreOrder tame.
Proof.
  split; [by intros s; apply tame_eq|]. intros s1 s2 s3 H1 H2 l. specialize (H1 l). specialize (H2 l).
  destruct (lvols s1 !! l), (lvols s2 !! l), (lvols s3 !! l); simpl in *; try done. by etrans.
Qed.

Lemma tame_set_xattr l n v : ¬ protected n → keeps tame (call (blob_set_xattr l n v)).
Proof.
  intros Hn s. unfold call. destruct (blob_set_xattr l n v s) as [s' rc] eqn:Hx. destruct (set_xattr_law _ _ _ _ _ _ Hx) as [Hl _].
  simpl. destruct (rc =? 0); [|by apply tame_eq]. intros k. rewrite Hl. destruct (decide (k = l)) as [->|Hk].
  - rewrite lookup_alter_eq. destruct (lvols s !! l) as [i|]; simpl; [|done]. split_and!; [done..|]. intros m Hm. simpl.
    rewrite lookup_insert_ne; [done|]. by intros ->.
  - rewrite lookup_alter_ne by done. by destruct (lvols s !! k).
Qed.

Lemma tame_call {A} (f : spdk → spdk * A) : (∀ s, lvols (fst (f s)) = lvols s) → keeps tame (call f).
Proof. intros Hf s. specialize (Hf s). unfold call. destruct (f s). by apply tame_eq. Qed.

Lemma tame_called {A E} (wrap : E → LvsError) (f : spdk → spdk * outcome E A) :
  (∀ s, lvols (fst (f s)) = lvols s) → keeps tame (called wrap f).
Proof. intros Hf s. specialize (Hf s). unfold called. destruct (f s). by apply tame_eq. Qed.

Lemma tame_info l : keeps tame (info l).
Proof. apply keeps_same; [typeclasses eauto|]. intros s. unfold info. by destruct (lvols s !! l). Qed.

Lemma wp_info l i s (Q : outcome LvsError lvol_info → spdk → Prop) : lvols s !! l = Some i → Q (Ok i) s → wp (info l) Q s.
Proof. intros Hi HQ. unfold wp. by rewrite (info_some s l i Hi). Qed.

Lemma tame_sync l : keeps tame (sync_metadata l).
Proof.
  unfold sync_metadata. keeps_tac; try apply tame_info. apply tame_call. intros s.
  destruct (blob_sync_md l s) as [s' rc] eqn:Hm. by destruct (sync_md_law _ _ _ _ Hm).
Qed.

Lemma tame_get l p : keeps tame (get l p).
Proof. unfold get. keeps_tac; apply tame_info. Qed.

Lemma show_name_unprotected p : ¬ protected (show_name p).
Proof. intros [H|[H|H]]; by destruct p. Qed.

Lemma tame_set_no_sync l p : keeps tame (set_no_sync l p).
Proof. unfold set_no_sync. keeps_tac; [apply tame_info|apply keeps_try, tame_get|apply tame_set_xattr, show_name_unprotected]. Qed.
Hint Resolve tame_info tame_sync tame_get tame_set_no_sync : keeps.

Lemma tame_set l p : keeps tame (set l p).
Proof. unfold set. keeps_tac. Qed.

Lemma tame_set_all l ps sync : keeps tame (set_all l ps sync).
Proof. revert sync. induction ps as [|p ps IH]; intros sync; simpl; keeps_tac. Qed.
Hint Resolve tame_set tame_set_all : keeps.

Lemma tame_share l hs : keeps tame (share_nvmf l hs).
Proof. unfold share_nvmf, set_props. keeps_tac. apply tame_called. intros s. apply share_law. Qed.

Lemma tame_update l hs : keeps tame (update_properties l hs).
Proof. unfold update_properties. keeps_tac. apply tame_called. intros s. apply update_law. Qed.

Lemma tame_unshare l b : keeps tame (unshare l b).
Proof. unfold unshare. keeps_tac. apply tame_called. intros s. apply unshare_law. Qed.

Lemma tame_resize l n : keeps tame (resize_replica l n).
Proof.
  unfold resize_replica. keeps_tac. apply tame_call. intros s. destruct (vbdev_lvol_resize l n s) as [s' rc] eqn:Hr.
  by destruct (resize_law _ _ _ _ _ Hr).
Qed.

Lemma tame_wipe l : keeps tame (wipe_super l).
Proof. unfold wipe_super. keeps_tac. apply tame_called. intros s'. apply zeroes_law. Qed.

(** ** Clones and their snapshots *)

(** A clone has its snapshot on the same pool; a snapshot is not a clone. *)
Record sound (s : spdk) : Prop := mkSound {
  so_source c ci u : lvols s !! c = Some ci → xattrs ci !! source_attr = Some u →
    ∃ sn si, lvols s !! sn = Some si ∧ store si = store ci ∧ bdev_uuid si = u ∧ is_snapshot si = true;
  so_snapshot l i : lvols s !! l = Some i → is_snapshot i = true → xattrs i !! source_attr = None
}.

Definition clone_of (s : spdk) (si : lvol_info) (c : nat) : Prop :=
  ∃ ci, lvols s !! c = Some ci ∧ store ci = store si ∧ xattrs ci !! source_attr = Some (bdev_uuid si).

(** A snapshot that is to be discarded is there for a clone. *)
Definition tidy (s : spdk) : Prop :=
  ∀ sn si, lvols s !! sn = Some si → is_snapshot si = true → is_discarded_snapshot si = true → ∃ c, clone_of s si c.

(** Steps that keep both. *)
Definition safe (s s' : spdk) : Prop := sound s → sound s' ∧ (tidy s → tidy s').

#[export] Instance safe_preorder : PreOrder safe.
Proof.
  split; [by intros s H|]. intros s1 s2 s3 H12 H23 H1. destruct (H12 H1) as [H2 Ht]. destruct (H23 H2) as [H3 Ht']. auto.
Qed.

Lemma like_snapshot i i' : like i i' → is_snapshot i' = is_snapshot i.
Proof. intros (_ & _ & Hx). unfold is_snapshot, blob_xattr. cbn [snapshot_attr_name]. rewrite Hx; [done|]. unfold protected. auto. Qed.

Lemma like_discarded i i' : like i i' → is_discarded_snapshot i' = is_discarded_snapshot i.
Proof. intros (_ & _ & Hx). unfold is_discarded_snapshot, blob_xattr. cbn [snapshot_attr_name]. rewrite Hx; [done|]. unfold protected. auto. Qed.

Lemma like_source i i' : like i i' → xattrs i' !! source_attr = xattrs i !! source_attr.
Proof. intros (_ & _ & Hx). apply Hx. by left. Qed.

Lemma tame_clone s s' si si' c : tame s s' → like si si' → clone_of s si c → clone_of s' si' c.
Proof.
  intros Ht (Hs & Hu & _) (ci & Hc & Hst & Hx). destruct (tame_lookup _ _ _ _ Ht Hc) as (ci' & Hc' & Hl). exists ci'.
  split_and!; [done| |rewrite (like_source _ _ Hl); congruence]. destruct Hl as (-> & _). congruence.
Qed.

Lemma tame_safe s s' : tame s s' → safe s s'.
Proof.
  intros Ht [H1 H2]. split; [split|].
  - intros c ci' u Hc Hx. destruct (tame_lookup_inv _ _ _ _ Ht Hc) as (ci & Hc0 & Hl). rewrite (like_source _ _ Hl) in Hx.
    destruct (H1 c ci u Hc0 Hx) as (sn & si & Hsn & Hst & Hu & Hsi). destruct (tame_lookup _ _ _ _ Ht Hsn) as (si' & Hsn' & Hl').
    exists sn, si'. rewrite (like_snapshot _ _ Hl'). destruct Hl' as (? & ? & _), Hl as (? & _). split_and!; congruence.
  - intros l i' Hi Hs. destruct (tame_lookup_inv _ _ _ _ Ht Hi) as (i & Hi0 & Hl). rewrite (like_source _ _ Hl). apply (H2 l i Hi0).
    by rewrite <- (like_snapshot _ _ Hl).
  - intros Htidy sn si' Hsn Hs Hd. destruct (tame_lookup_inv _ _ _ _ Ht Hsn) as (si & Hsn0 & Hl).
    destruct (Htidy sn si Hsn0) as [c Hc]; [by rewrite <- (like_snapshot _ _ Hl)|by rewrite <- (like_discarded _ _ Hl)|].
    exists c. by apply (tame_clone s s' si si').
Qed.

(** A new lvol that is neither a snapshot nor a clone, a new snapshot, or a new
    clone of a snapshot that is there. *)
Lemma insert_safe s s' l i :
  lvols s !! l = None → lvols s' = <[l := i]> (lvols s) → is_discarded_snapshot i = false →
  (is_snapshot i = true → xattrs i !! source_attr = None) →
  (∀ u, xattrs i !! source_attr = Some u → ∃ sn si, lvols s !! sn = Some si ∧ store si = store i ∧ bdev_uuid si = u ∧ is_snapshot si = true) →
  safe s s'.
Proof.
  intros Hnone Hl Hd Hs Hsrc [H1 H2].
  assert (Hkeep : ∀ k ki, lvols s !! k = Some ki → lvols s' !! k = Some ki).
  { intros k ki Hk. rewrite Hl, lookup_insert_ne; [done|]. by intros ->; rewrite Hnone in Hk. }
  split; [split|].
  - intros c ci u Hc Hx. assert (∃ sn si, lvols s !! sn = Some si ∧ store si = store ci ∧ bdev_uuid si = u ∧ is_snapshot si = true)
      as (sn & si & Hsn & ?); [|exists sn, si; by rewrite (Hkeep _ _ Hsn)].
    rewrite Hl in Hc. apply lookup_insert_Some in Hc as [[-> ->]|[_ Hc]]; eauto.
  - intros k ki Hk Hks. rewrite Hl in Hk. apply lookup_insert_Some in Hk as [[-> ->]|[_ Hk]]; eauto.
  - intros Ht sn si Hsn Hsi Hdi. rewrite Hl in Hsn. apply lookup_insert_Some in Hsn as [[-> ->]|[_ Hsn]]; [congruence|].
    destruct (Ht sn si Hsn Hsi Hdi) as (c & ci & Hc & ?). exists c, ci. by rewrite (Hkeep _ _ Hc).
Qed.

(** An lvol without clones goes; if it is a clone itself, its snapshot may be
    left without clones. *)
Lemma delete_sound s s' l i :
  sound s → lvols s !! l = Some i → lvols s' = delete l (lvols s) → (is_snapshot i = true → ∀ c, ¬ clone_of s i c) → sound s'.
Proof.
  intros [H1 H2] Hi Hl Hno. split.
  - intros c ci u Hc Hx. rewrite Hl in Hc. apply lookup_delete_Some in Hc as [Hne Hc].
    destruct (H1 c ci u Hc Hx) as (sn & si & Hsn & Hst & Hu & Hsi). exists sn, si. split; [|done]. rewrite Hl, lookup_delete_ne; [done|].
    intros ->. rewrite Hi in Hsn. simplify_eq. destruct (Hno Hsi c). exists ci. done.
  - intros k ki Hk. rewrite Hl in Hk. apply lookup_delete_Some in Hk as [_ Hk]. eauto.
Qed.

(** All but one snapshot are as they should be. *)
Definition tidy_but (x : option nat) (s : spdk) : Prop :=
  ∀ sn si, Some sn ≠ x → lvols s !! sn = Some si → is_snapshot si = true → is_discarded_snapshot si = true → ∃ c, clone_of s si c.

Lemma tidy_but_none s : tidy_but None s ↔ tidy s.
Proof. split; [intros H sn si; by apply H|intros H sn si _; apply H]. Qed.

Lemma delete_tidy x s s' l i :
  tidy_but x s → lvols s !! l = Some i → lvols s' = delete l (lvols s) →
  (∀ u sn si, xattrs i !! source_attr = Some u → lvols s !! sn = Some si → bdev_uuid si = u → is_snapshot si = true → Some sn = x) →
  tidy_but x s'.
Proof.
  intros Ht Hi Hl Hsrc sn si Hx Hsn Hsi Hd. rewrite Hl in Hsn. apply lookup_delete_Some in Hsn as [Hne Hsn].
  destruct (Ht sn si Hx Hsn Hsi Hd) as (c & ci & Hc & Hst & Hu). exists c, ci. split; [|done]. rewrite Hl, lookup_delete_ne; [done|].
  intros ->. rewrite Hi in Hc. simplify_eq. by destruct Hx; eapply Hsrc.
Qed.

Lemma has_clones_spec s i : has_clones i s = false ↔ ∀ c, ¬ clone_of s i c.
Proof.
  unfold has_clones, clone_count. rewrite count_clones. cbn [clone_attr_name]. rewrite Z.ltb_ge. split.
  - intros Hn c (ci & Hc & Hst & Hx).
    assert (Hsz : size (filter (λ li : nat * lvol_info, store li.2 = store i ∧ xattrs li.2 !! source_attr = Some (bdev_uuid i)) (lvols s)) = 0%nat) by lia.
    apply map_size_empty_inv in Hsz. assert (Hf : filter (λ li : nat * lvol_info, store li.2 = store i ∧ xattrs li.2 !! source_attr = Some (bdev_uuid i)) (lvols s) !! c = Some ci).
    { by apply map_lookup_filter_Some_2. }
    rewrite Hsz in Hf. done.
  - intros Hn. assert (Hemp : filter (λ li : nat * lvol_info, store li.2 = store i ∧ xattrs li.2 !! source_attr = Some (bdev_uuid i)) (lvols s) = ∅);
      [|by rewrite Hemp, map_size_empty].
    apply map_empty. intros c. apply map_lookup_filter_None_2. right. intros ci Hc [Hst Hx]. apply (Hn c). by exists ci.
Qed.

Lemma has_clones_true s i : has_clones i s = true → ∃ c, clone_of s i c.
Proof.
  unfold has_clones, clone_count. rewrite count_clones. cbn [clone_attr_name]. rewrite Z.ltb_lt. intros Hn.
  destruct (map_choose (filter (λ li : nat * lvol_info, store li.2 = store i ∧ xattrs li.2 !! source_attr = Some (bdev_uuid i)) (lvols s)))
    as (c & ci & Hc).
  { intros He. rewrite He, map_size_empty in Hn. simpl in Hn. lia. }
  apply map_lookup_filter_Some in Hc as [Hc Hx]. exists c, ci. done.
Qed.

(** ** Destroying *)

Lemma destroy_spec l s :
  wp (destroy l) (λ r s', match r with Ok _ => ∃ s1, tame s s1 ∧ lvols s' = delete l (lvols s1) | _ => tame s s' end) s.
Proof.
  unfold destroy. wp_step. eapply keeps_wp; [apply keeps_try, tame_unshare|]. intros s1 r1 H1. destruct r1 as [r1|e|]; [|done..].
  wp_step. eapply keeps_wp; [apply tame_info|]. intros s1' r2 H1'. assert (H2 : tame s s1') by (by etrans). destruct r2 as [i|e|]; [|done..].
  wp_step. apply wp_intro. intros s2 r2 Hrun. unfold call in Hrun. destruct (vbdev_lvol_destroy l s1') as [s3 rc] eqn:Hd. simplify_eq.
  pose proof (destroy_law _ _ _ _ Hd) as Hl. destruct (rc =? 0); wp_step; [by exists s1'|]. etrans; [exact H2|by apply tame_eq].
Qed.

(** The snapshot of a clone is found. *)
Lemma clone_source_spec s l i :
  sound s → lvols s !! l = Some i →
  match clone_source i s with
  | Some sn => ∃ si, lvols s !! sn = Some si ∧ is_snapshot si = true
  | None => xattrs i !! source_attr = None
  end ∧
  ∀ u sn si, xattrs i !! source_attr = Some u → lvols s !! sn = Some si → bdev_uuid si = u → is_snapshot si = true → clone_source i s = Some sn.
Proof.
  intros [H1 H2] Hi.
  assert (Hfound : ∀ u, xattrs i !! source_attr = Some u → ∃ sn si, clone_source i s = Some sn ∧ lvols s !! sn = Some si ∧ store si = store i ∧ bdev_uuid si = u).
  { intros u Hu. destruct (H1 l i u Hi Hu) as (sn & si & Hsn & Hst & Hsu & _). pose proof (uuid_of_lvol _ _ _ Hsn) as Hc. rewrite Hsu in Hc.
    unfold clone_source. cbn [clone_attr_name]. rewrite (blob_xattr_stored i _ u Hu) by (by eapply uuid_attr_ok). simpl.
    unfold lookup_lvol_by_uuid_str. rewrite Hc. simpl. destruct (lvs_lvol_get_by_uuid s (store i) u) as [k|] eqn:Hk.
    - destruct (lvs_by_uuid_some _ _ _ _ Hk) as (ki & Hki & Hks & Hku). eauto 10.
    - by destruct (lvs_by_uuid_none _ _ _ Hk sn si). }
  split.
  - destruct (xattrs i !! source_attr) as [u|] eqn:Hu.
    + destruct (Hfound u eq_refl) as (sn & si & -> & Hsn & _ & Hsu). destruct (H1 l i u Hi Hu) as (k & ki & Hk & _ & Hku & Hks).
      assert (k = sn) as -> by (eapply uuid_unique; [exact Hk|exact Hsn|congruence]). eauto.
    + unfold clone_source, blob_xattr. cbn [clone_attr_name]. by rewrite Hu.
  - intros u sn si Hu Hsn Hsu Hs. destruct (Hfound u Hu) as (k & ki & Hk & Hki & _ & Hku). rewrite Hk. f_equal. eapply uuid_unique; [exact Hki|exact Hsn|congruence].
Qed.

(** What a request leaves behind: sound in any case, and tidy if it succeeds. *)
Definition served {A} (s : spdk) (r : outcome LvsError A) (s' : spdk) : Prop := sound s' ∧ (tidy s → is_ok r = true → tidy s').

Lemma safe_served {A} s (r : outcome LvsError A) s' : sound s → safe s s' → served s r s'.
Proof. intros Hs Hsafe. destruct (Hsafe Hs). split; auto. Qed.

Lemma destroy_replica_served l i s :
  sound s → lvols s !! l = Some i → is_snapshot i = false → wp (destroy_replica l) (served s) s.
Proof.
  intros Hs Hi Hns. unfold destroy_replica. wp_step. apply (wp_info l i); [done|cbv beta iota]. do 2 wp_step. wp_step.
  destruct (clone_source_spec s l i Hs Hi) as [Hcs Huniq].
  eapply wp_mono; [apply destroy_spec|]. intros r s2 H2. destruct r as [n|e|]; [|by apply safe_served, tame_safe..].
  destruct H2 as (s1 & Ht1 & Hl2). destruct (tame_safe s s1 Ht1 Hs) as [Hs1 Htidy1].
  destruct (tame_lookup _ _ _ _ Ht1 Hi) as (i1 & Hi1 & Hlike). pose proof (like_snapshot _ _ Hlike) as Hns1. rewrite Hns in Hns1.
  assert (Hs2 : sound s2) by (apply (delete_sound s1 s2 l i1 Hs1 Hi1 Hl2); congruence).
  assert (Ht2 : tidy s → tidy_but (clone_source i s) s2).
  { intros Ht. apply (delete_tidy _ s1 s2 l i1); [|done|done|].
    - intros sn si _. by apply Htidy1.
    - intros u sn si1 Hu Hsn Hsu Hsi. rewrite (like_source _ _ Hlike) in Hu. destruct (tame_lookup_inv _ _ _ _ Ht1 Hsn) as (si & Hsn0 & Hlk).
      rewrite (like_snapshot _ _ Hlk) in Hsi. symmetry. destruct Hlk as (_ & Hlu & _). apply (Huniq u sn si Hu Hsn0); congruence. }
  destruct (clone_source i s) as [sn|] eqn:Hcsn; wp_steps.
  2:{ split; [done|]. intros Ht _. by apply tidy_but_none, Ht2. }
  unfold info. apply wp_intro. intros s2' r2 Hrun. destruct (lvols s2 !! sn) as [si|] eqn:Hsi; simplify_eq; [|split; [done|by intros _ [=]]].
  assert (Hsnap : is_snapshot si = true).
  { destruct Hcs as (si0 & Hsi0 & Hss). rewrite Hl2 in Hsi. apply lookup_delete_Some in Hsi as [_ Hsi].
    destruct (tame_lookup_inv _ _ _ _ Ht1 Hsi) as (si' & Hsi' & Hlk). rewrite (like_snapshot _ _ Hlk). congruence. }
  do 2 wp_step. destruct (negb (has_clones si s2') && is_discarded_snapshot si) eqn:Hcond; wp_steps.
  - apply andb_true_iff in Hcond as [Hnc Hdisc]. apply negb_true_iff in Hnc. rewrite has_clones_spec in Hnc.
    eapply wp_mono; [apply destroy_spec|]. intros r s4 H4. destruct r as [n'|e|].
    2,3: split; [by apply (tame_safe s2')|by intros _ [=]].
    destruct H4 as (s3 & Ht3 & Hl4). destruct (tame_safe _ _ Ht3 Hs2) as [Hs3 _]. wp_steps.
    destruct (tame_lookup _ _ _ _ Ht3 Hsi) as (si3 & Hsi3 & Hlike3). split.
    + apply (delete_sound s3 s4 sn si3 Hs3 Hsi3 Hl4). intros _ c Hc.
      destruct Hc as (ci & Hc & Hst & Hx). destruct (tame_lookup_inv _ _ _ _ Ht3 Hc) as (ci0 & Hc0 & Hlc). apply (Hnc c). exists ci0.
      rewrite <- (like_source _ _ Hlc), Hx. destruct Hlike3 as (? & ? & _), Hlc as (? & _). split_and!; congruence.
    + intros Ht _ k ki Hk Hks Hkd. rewrite Hl4 in Hk. apply lookup_delete_Some in Hk as [Hne Hk].
      destruct (tame_lookup_inv _ _ _ _ Ht3 Hk) as (ki2 & Hk2 & Hlk). rewrite (like_snapshot _ _ Hlk) in Hks. rewrite (like_discarded _ _ Hlk) in Hkd.
      destruct (Ht2 Ht k ki2 ltac:(congruence) Hk2 Hks Hkd) as (c & Hc2). pose proof (tame_clone _ _ _ _ _ Ht3 Hlk Hc2) as (ci & Hc & Hst & Hx).
      exists c, ci. split; [|done]. rewrite Hl4, lookup_delete_ne; [done|]. intros ->. rewrite Hsi3 in Hc. simplify_eq.
      rewrite (so_snapshot s3 Hs3 _ _ Hsi3) in Hx; [done|]. by rewrite (like_snapshot _ _ Hlike3).
  - split; [done|]. intros Ht _ k ki Hk Hks Hkd. destruct (decide (k = sn)) as [->|Hne]; [|apply (Ht2 Ht k ki ltac:(congruence) Hk Hks Hkd)].
    rewrite Hsi in Hk. simplify_eq. rewrite Hkd, andb_true_r in Hcond. apply negb_false_iff in Hcond.
    by apply has_clones_true.
Qed.

(** A snapshot without clones is destroyed. *)
Lemma destroy_unused_safe l s :
  sound s → (∀ i, lvols s !! l = Some i → is_snapshot i = true ∧ ∀ c, ¬ clone_of s i c) →
  wp (destroy l) (λ _ s', sound s' ∧ (tidy s → tidy s') ∧
    ∀ k ki', lvols s' !! k = Some ki' → ∃ ki, lvols s !! k = Some ki ∧ like ki ki') s.
Proof.
  intros Hs Hl. eapply wp_mono; [apply destroy_spec|]. intros r s2 H2.
  assert (Htame : tame s s2 → sound s2 ∧ (tidy s → tidy s2) ∧ ∀ k ki', lvols s2 !! k = Some ki' → ∃ ki, lvols s !! k = Some ki ∧ like ki ki').
  { intros Ht. destruct (tame_safe _ _ Ht Hs). split_and!; try done. intros k ki'. by apply tame_lookup_inv. }
  destruct r as [n|e|]; [|by apply Htame..]. destruct H2 as (s1 & Ht & Hd). destruct (lvols s !! l) as [i|] eqn:Hi.
  2:{ apply Htame. etrans; [exact Ht|]. apply tame_eq. rewrite Hd, delete_id; [done|].
      destruct (lvols s1 !! l) as [i|] eqn:Hi1; [|done]. destruct (tame_lookup_inv _ _ _ _ Ht Hi1) as (i0 & Hi0 & _). congruence. }
  destruct (Hl i eq_refl) as [Hsnap Hno]. destruct (tame_safe _ _ Ht Hs) as [Hs1 Ht1]. destruct (tame_lookup _ _ _ _ Ht Hi) as (i1 & Hi1 & Hlike).
  assert (Hno1 : ∀ c, ¬ clone_of s1 i1 c).
  { intros c (ci & Hc & Hst & Hx). destruct (tame_lookup_inv _ _ _ _ Ht Hc) as (c0 & Hc0 & Hlc). apply (Hno c). exists c0.
    rewrite <- (like_source _ _ Hlc), Hx. destruct Hlike as (? & ? & _), Hlc as (? & _). split_and!; congruence. }
  split_and!.
  - by apply (delete_sound s1 s2 l i1).
  - intros Htidy. apply tidy_but_none, (delete_tidy None s1 s2 l i1); [by apply tidy_but_none, Ht1|done|done|].
    intros u sn si Hu. rewrite (so_snapshot s1 Hs1 l i1 Hi1) in Hu; [done|]. by rewrite (like_snapshot _ _ Hlike).
  - intros k ki' Hk. rewrite Hd in Hk. apply lookup_delete_Some in Hk as [_ Hk]. by apply (tame_lookup_inv s s1).
Qed.

Lemma destroy_all_safe ls s :
  sound s → (∀ l i, l ∈ ls → lvols s !! l = Some i → is_snapshot i = true ∧ ∀ c, ¬ clone_of s i c) →
  wp (destroy_all ls) (λ _ s', safe s s') s.
Proof.
  revert s. induction ls as [|l ls IH]; intros s Hs Hls; simpl; [by wp_step|]. wp_step. apply wp_try.
  pose proof (destroy_unused_safe l s Hs (λ i, Hls l i ltac:(left))) as Hd. unfold wp in Hd. destruct (destroy l s) as [s2 r].
  destruct Hd as (Hs2 & Ht2 & Hback). assert (Hsafe : safe s s2) by (split; auto).
  assert (Hrest : wp (destroy_all ls) (λ _ s', safe s s') s2); [|by destruct r].
  eapply wp_mono; [apply IH; [done|]|intros; by etrans].
  intros k ki' Hk Hki'. destruct (Hback k ki' Hki') as (ki & Hki & Hlike). destruct (Hls k ki ltac:(by right) Hki) as [Hsn Hno].
  split; [by rewrite (like_snapshot _ _ Hlike)|]. intros c (ci' & Hc & Hst & Hx). destruct (Hback c ci' Hc) as (ci & Hci & Hlc). apply (Hno c).
  exists ci. rewrite <- (like_source _ _ Hlc), Hx. destruct Hlike as (? & ? & _), Hlc as (? & _). split_and!; congruence.
Qed.

Lemma gc_safe s : sound s → wp destroy_pending_discarded_snapshot (λ _ s', safe s s') s.
Proof.
  intros Hs. unfold destroy_pending_discarded_snapshot. do 2 wp_step. apply destroy_all_safe; [done|]. intros l i Hl Hi.
  unfold pending_discarded in Hl. apply list_elem_of_omap in Hl as (l' & _ & Hl). destruct (lvols s !! l') as [i'|] eqn:Hi'; simplify_eq/=.
  destruct (is_snapshot i' && is_discarded_snapshot i' && negb (has_clones i' s)) eqn:Hc; simplify_eq. apply andb_true_iff in Hc as [Hc Hn].
  apply andb_true_iff in Hc as [Hc _]. apply negb_true_iff in Hn. split; [congruence|]. rewrite <- has_clones_spec. congruence.
Qed.

Lemma set_attr_protected n v i m : m ≠ n → xattrs (set_attr n v i) !! m = xattrs i !! m.
Proof. intros Hm. simpl. by rewrite lookup_insert_ne. Qed.

(** Marking a snapshot that has clones. *)
Lemma mark_safe l i s s' v :
  sound s → lvols s !! l = Some i → has_clones i s = true → lvols s' = alter (set_attr discarded_attr v) l (lvols s) → safe s s'.
Proof.
  intros Hs Hi Hc Hl _. destruct (has_clones_true s i Hc) as [c Hcl].
  assert (Hfwd : ∀ k ki, lvols s !! k = Some ki → ∃ ki', lvols s' !! k = Some ki' ∧ store ki' = store ki ∧ bdev_uuid ki' = bdev_uuid ki ∧
      is_snapshot ki' = is_snapshot ki ∧ xattrs ki' !! source_attr = xattrs ki !! source_attr ∧ (k ≠ l → ki' = ki)).
  { intros k ki Hk. rewrite Hl. destruct (decide (k = l)) as [->|Hne].
    - rewrite lookup_alter_eq, Hk. simpl. eexists. split_and!; try done; [|by rewrite set_attr_protected]. by apply is_snapshot_set_attr.
    - rewrite lookup_alter_ne by done. exists ki. by split_and!. }
  assert (Hbwd : ∀ k ki', lvols s' !! k = Some ki' → ∃ ki, lvols s !! k = Some ki).
  { intros k ki'. rewrite Hl. destruct (decide (k = l)) as [->|Hne]; [eauto|]. rewrite lookup_alter_ne by done. eauto. }
  assert (Hclone : ∀ k ki ki' c, lvols s !! k = Some ki → lvols s' !! k = Some ki' → clone_of s ki c → clone_of s' ki' c).
  { intros k ki ki' c' Hk Hk' (ci & Hci & Hst & Hx). destruct (Hfwd _ _ Hk) as (? & ? & ? & ? & _). destruct (Hfwd _ _ Hci) as (ci' & Hci' & ? & ? & ? & ? & _).
    exists ci'. split_and!; congruence. }
  destruct Hs as [H1 H2]. split; [split|].
  - intros k ki' u Hk Hx. destruct (Hbwd _ _ Hk) as [ki Hk0]. destruct (Hfwd _ _ Hk0) as (ki2 & Hk2 & ? & ? & ? & ? & _). assert (ki2 = ki') as -> by congruence.
    destruct (H1 k ki u Hk0) as (sn & si & Hsn & ? & ? & ?); [congruence|]. destruct (Hfwd _ _ Hsn) as (si' & Hsn' & ? & ? & ? & _). exists sn, si'. split_and!; congruence.
  - intros k ki' Hk Hks. destruct (Hbwd _ _ Hk) as [ki Hk0]. destruct (Hfwd _ _ Hk0) as (ki2 & Hk2 & ? & ? & ? & Hx & _). assert (ki2 = ki') as -> by congruence. rewrite Hx.
    apply (H2 k ki Hk0). congruence.
  - intros Ht k ki' Hk Hks Hkd. destruct (Hbwd _ _ Hk) as [ki Hk0]. destruct (decide (k = l)) as [->|Hne].
    + exists c. apply (Hclone l i ki' c Hi Hk Hcl).
    + destruct (Hfwd _ _ Hk0) as (ki2 & Hk2 & _ & _ & _ & _ & He). assert (ki2 = ki') as -> by congruence. rewrite (He Hne) in Hks, Hkd.
      destruct (Ht k ki Hk0 Hks Hkd) as [c' Hc']. exists c'. by apply (Hclone k ki ki' c').
Qed.

Lemma destroy_snapshot_safe l i s :
  sound s → lvols s !! l = Some i → is_snapshot i = true → wp (destroy_snapshot l) (λ _ s', safe s s') s.
Proof.
  intros Hs Hi Hsnap. unfold destroy_snapshot. wp_step. apply (wp_info l i); [done|cbv beta iota]. do 2 wp_step.
  destruct (has_clones i s) eqn:Hc; cbn [negb].
  - unfold set_blob_attr. wp_step. apply (wp_info l i); [done|cbv beta iota]. do 2 wp_step.
    change (into_cstring (show_bool true)) with (@Ok LvsError string "true"%string). cbv beta iota. wp_step. apply wp_intro. intros s1 r1 Hrun. unfold call in Hrun.
    destruct (blob_set_xattr l (snapshot_attr_name DiscardedSnapshot) _ s) as [s2 rc] eqn:Hx. simplify_eq. destruct (set_xattr_law _ _ _ _ _ _ Hx) as [Hl _].
    assert (Hsafe : safe s s1).
    { destruct (rc =? 0); [by eapply mark_safe|by apply tame_safe, tame_eq]. }
    destruct (rc =? 0); cbn [negb]; [|by wp_step]. wp_step. eapply (keeps_wp tame); [apply tame_call|].
    + intros s3. destruct (blob_sync_md l s3) as [s4 rc'] eqn:Hm. by destruct (sync_md_law _ _ _ _ Hm).
    + intros s3 r3 Ht3. assert (safe s s3) by (etrans; [exact Hsafe|by apply tame_safe]). destruct r3 as [rc3|e|]; [|done..]. destruct (rc3 =? 0); by wp_step.
  - wp_step. eapply wp_mono; [apply destroy_unused_safe; [done|]|].
    + intros i' Hi'. rewrite Hi in Hi'. simplify_eq. split; [done|]. by apply has_clones_spec.
    + intros r s2 (Hs2 & Ht2 & _). assert (safe s s2) by (split; auto). by destruct r.
Qed.

(** ** Creating *)

Lemma prepare_xattrs_spec {A} err (name : A → string) value attrs xs :
  prepare_xattrs err name value attrs = Ok xs →
  Forall2 (λ a nv, ∃ v, fst (value a) = Some v ∧ nv = (name a, xattr_value v)) attrs xs.
Proof.
  revert xs. induction attrs as [|a attrs IH]; intros xs; simpl; [intros; by simplify_eq|].
  destruct (value a) as [[v|] msg] eqn:Hv; [|done]. unfold mbind, outcome_bind, into_cstring. destruct (has NUL v); [done|].
  destruct (prepare_xattrs err name value attrs) as [xs'| |]; [|done..]. intros; simplify_eq. constructor; [|auto]. exists v. by rewrite Hv.
Qed.

(** The new lvol has the attributes it was created with. *)
Lemma created_attr st n xs i k :
  created_with st n xs i → k ≠ "name"%string → k ≠ "uuid"%string → xattrs i !! k = attrs_of xs !! k.
Proof. intros (_ & _ & _ & H & _). apply H. Qed.

Ltac forall2_inv :=
  repeat match goal with
    | H : Forall2 _ (_ :: _) _ |- _ => apply Forall2_cons_inv_l in H as (? & ? & (? & ? & ->) & ? & ->)
    | H : Forall2 _ [] _ |- _ => apply Forall2_nil_inv_l in H as ->
    end.

Lemma create_snapshot_safe l p s : sp_discarded p = false → sound s → wp (create_snapshot l p) (λ _ s', safe s s') s.
Proof.
  intros Hp Hs. unfold create_snapshot. wp_step. apply wp_intro. intros s0 r0 Hinfo. assert (s0 = s) as -> by (unfold info in Hinfo; by case_match; simplify_eq).
  destruct r0 as [i|e|]; [|done..]. do 2 wp_step. destruct (prepare_snapshot_xattrs i p) as [xs| |] eqn:Hxs; [|done..].
  do 2 wp_step. destruct (of_option (sp_name p)) as [name| |]; [|done..]. do 2 wp_step. destruct (into_cstring name) as [name'| |]; [|done..].
  wp_step. apply wp_intro. intros s1 r1 Hrun. unfold call in Hrun. destruct (vbdev_lvol_create_snapshot_ext l name' xs s) as [s2 a] eqn:Hc. simplify_eq.
  destruct a as [sn|e]; wp_step; [|by apply tame_safe, tame_eq; eapply snapshot_err].
  destruct (snapshot_law _ _ _ _ _ _ Hc) as (Hnone & (i' & si & _ & Hl & Hw) & _). unfold prepare_snapshot_xattrs in Hxs.
  apply prepare_xattrs_spec in Hxs. unfold snapshot_xattrs in Hxs. forall2_inv. simpl in *. rewrite Hp in *. simplify_eq.
  assert (Hsrc : xattrs si !! source_attr = None) by (by rewrite (created_attr _ _ _ _ _ Hw)).
  apply (insert_safe s s1 sn si Hnone Hl); [|done|intros u; by rewrite Hsrc].
  unfold is_discarded_snapshot, blob_xattr. cbn [snapshot_attr_name]. by rewrite (created_attr _ _ _ _ _ Hw).
Qed.

Lemma create_clone_safe l i p u s :
  sound s → lvols s !! l = Some i → is_snapshot i = true → cp_source_uuid p = Some u → bdev_uuid i = u →
  wp (create_clone l p) (λ _ s', safe s s') s.
Proof.
  intros Hs Hi Hsnap Hp Hu. unfold create_clone. wp_step. apply (wp_info l i); [done|cbv beta iota].
  do 2 wp_step. destruct (prepare_clone_xattrs i p) as [xs| |] eqn:Hxs; [|done..].
  do 2 wp_step. destruct (into_cstring _) as [name| |]; [|done..].
  wp_step. apply wp_intro. intros s1 r1 Hrun. unfold call in Hrun. destruct (vbdev_lvol_create_clone_ext l name xs s) as [s2 a] eqn:Hc. simplify_eq.
  destruct a as [c|e]; wp_step; [|by apply tame_safe, tame_eq; eapply clone_err].
  destruct (clone_law _ _ _ _ _ _ Hc) as (Hnone & (i' & ci & Hi' & Hl & Hw) & _). rewrite Hi in Hi'. simplify_eq. unfold prepare_clone_xattrs in Hxs.
  apply prepare_xattrs_spec in Hxs. unfold clone_xattrs in Hxs. forall2_inv. simpl in *. simplify_eq.
  assert (Hval : xattr_value (bdev_uuid i') = bdev_uuid i') by (eapply attr_value_id, uuid_attr_ok, uuid_of_lvol, Hi).
  assert (Hsrc : xattrs ci !! source_attr = Some (bdev_uuid i')) by (rewrite (created_attr _ _ _ _ _ Hw) by done; simpl; by rewrite Hval).
  apply (insert_safe s s1 c ci Hnone Hl).
  - unfold is_discarded_snapshot, blob_xattr. cbn [snapshot_attr_name]. by rewrite (created_attr _ _ _ _ _ Hw).
  - unfold is_snapshot, blob_xattr. cbn [snapshot_attr_name]. by rewrite (created_attr _ _ _ _ _ Hw).
  - intros u Hx. rewrite Hsrc in Hx. simplify_eq. exists l, i'. split_and!; try done. by destruct Hw as (-> & _).
Qed.

(** A replica that is neither a snapshot nor a clone. *)
Definition plain (s : spdk) (l : nat) : Prop :=
  ∃ i, lvols s !! l = Some i ∧ is_snapshot i = false ∧ xattrs i !! source_attr = None.

Lemma tame_plain s s' l : tame s s' → plain s l → plain s' l.
Proof.
  intros Ht (i & Hi & Hs & Hx). destruct (tame_lookup _ _ _ _ Ht Hi) as (i' & Hi' & Hl). exists i'.
  by rewrite (like_snapshot _ _ Hl), (like_source _ _ Hl).
Qed.

Lemma destroy_plain_safe l s : sound s → plain s l → wp (destroy l) (λ _ s', safe s s') s.
Proof.
  intros Hs (i & Hi & Hns & Hx). eapply wp_mono; [apply destroy_spec|]. intros r s2 H2. destruct r as [n|e|]; [|by apply tame_safe..].
  destruct H2 as (s1 & Ht & Hd). destruct (tame_safe _ _ Ht Hs) as [Hs1 Ht1]. destruct (tame_lookup _ _ _ _ Ht Hi) as (i1 & Hi1 & Hlike).
  intros _. split.
  - apply (delete_sound s1 s2 l i1 Hs1 Hi1 Hd). rewrite (like_snapshot _ _ Hlike), Hns. done.
  - intros Htidy. apply tidy_but_none, (delete_tidy None s1 s2 l i1); [by apply tidy_but_none, Ht1|done|done|].
    intros u sn si. by rewrite (like_source _ _ Hlike), Hx.
Qed.

End Clones.
#[export] Hint Resolve tame_info tame_sync tame_get tame_set_no_sync tame_set tame_set_all tame_share tame_update tame_unshare
  tame_resize tame_wipe : keeps.

(** ** Requests *)

Section Requests.
Context `{SL : SpdkLaws} {PO : Pools} {PL : PoolLaws} (busy : string → bool) (ptpl : nat → option string).

Inductive request :=
| CreateReplica (args : CreateReplicaRequest)
| DestroyReplica (uuid : string) (pool : option FindPoolArgs)
| ShareReplica (uuid : string) (proto : Z) (allowed_hosts : list string)
| UnshareReplica (uuid : string)
| ResizeReplica (uuid : string) (size : Z)
| SetReplicaEntityId (uuid id : string)
| CreateReplicaSnapshot (now : string) (args : CreateSnapshotRequest)
| DestroySnapshot (uuid : string) (pool : option FindPoolArgs)
| CreateSnapshotClone (now snapshot_uuid clone_name clone_uuid : string)
| CollectGarbage.

Definition serve (r : request) : ST World Code unit :=
  match r with
  | CreateReplica args => create_replica busy ptpl args;; mret tt
  | DestroyReplica uuid pool => destroy_replica_rpc busy uuid pool
  | ShareReplica uuid proto hosts => share_replica busy ptpl uuid proto hosts
  | UnshareReplica uuid => unshare_replica busy uuid
  | ResizeReplica uuid size => resize_replica_rpc uuid size
  | SetReplicaEntityId uuid id => set_replica_entity_id uuid id
  | CreateReplicaSnapshot now args => create_replica_snapshot now args;; mret tt
  | DestroySnapshot uuid pool => destroy_snapshot_rpc busy uuid pool
  | CreateSnapshotClone now su cn cu => create_snapshot_clone now su cn cu;; mret tt
  | CollectGarbage => lvol destroy_pending_discarded_snapshot
  end.

(** Requests one after the other, and whether all of them succeeded. *)
Fixpoint serve_all (rs : list request) (w : World) : World * bool :=
  match rs with
  | [] => (w, true)
  | r :: rs => let '(w, o) := serve r w in let '(w, b) := serve_all rs w in (w, is_ok o && b)
  end.

(** The snapshot to be cloned is named by its uuid in canonical form. *)
Definition canonical (r : request) : Prop :=
  match r with CreateSnapshotClone _ su _ _ => ∀ u, parse_uuid su = Some u → u = su | _ => True end.

Notation same := (keeps (@eq World)).

Lemma same_with_err {E E' A} (f : E → E') (m : ST World E A) : same m → same (ST.with_err f m).
Proof. intros Hm w. specialize (Hm w). unfold ST.with_err. by destruct (m w). Qed.

Lemma same_spdk_get {E A} (f : spdk → A) : same (spdk_get (E := E) f).
Proof. done. Qed.

Hint Resolve same_with_err same_spdk_get : keeps.

Lemma same_lookup {E} n : same (lookup (E := E) n).
Proof. unfold lookup. keeps_tac. Qed.

Lemma same_lookup_by_uuid {E} n : same (lookup_by_uuid (E := E) n).
Proof. unfold lookup_by_uuid. keeps_tac. Qed.

Lemma same_store_of {E} st : same (store_of (E := E) st).
Proof. intros w. unfold store_of. by destruct (stores (sp w) !! st). Qed.

Lemma same_get_info l : same (get_info l).
Proof. intros w. unfold get_info, lvol, lvs, ST.with_err, on_spdk, info. destruct (lvols (sp w) !! l); by destruct w. Qed.

Hint Resolve same_lookup same_lookup_by_uuid same_store_of same_get_info : keeps.

Lemma same_find_pool args : same (find_pool args).
Proof. unfold find_pool. keeps_tac. Qed.

Lemma same_acquire pool : same (acquire_subsystem_lock busy pool).
Proof. unfold acquire_subsystem_lock. keeps_tac. Qed.
Hint Resolve same_find_pool same_acquire : keeps.

Lemma same_pool_finder args : same (pool_finder busy args).
Proof. unfold pool_finder, finder. apply same_with_err. keeps_tac. Qed.
Hint Resolve same_pool_finder : keeps.

Lemma same_with_pool pool : same (with_pool busy pool).
Proof. unfold with_pool. keeps_tac. Qed.

Lemma same_verify st l : same (verify st l).
Proof. unfold verify, verify_pool. keeps_tac. Qed.

Lemma same_lock_pool_of l : same (lock_pool_of busy l).
Proof. unfold lock_pool_of. keeps_tac. Qed.

Lemma same_create_ptpl l : same (create_ptpl ptpl l).
Proof. unfold create_ptpl, lvs. keeps_tac. Qed.

Lemma wp_same {A} (m : ST World Code A) Q w : same m → (∀ r, Q r w) → wp m Q w.
Proof. intros Hm HQ. apply (keeps_wp eq); [done|]. intros w' r <-. apply HQ. Qed.

Lemma wp_lvol {A} (m : ST spdk LvsError A) Q w : wp m (λ r s', Q (map_err code r) (set_sp s' w)) (sp w) → wp (lvol m) Q w.
Proof. unfold wp, lvol, lvs, ST.with_err, on_spdk. by destruct (m (sp w)). Qed.

Lemma wp_lvs {A} (m : ST World LvsError A) Q w : wp m (λ r w', Q (map_err code r) w') w → wp (lvs m) Q w.
Proof. unfold wp, lvs, ST.with_err. by destruct (m w). Qed.

Lemma find_spec uuid w :
  wp (find_replica uuid) (λ r w', w' = w ∧ ∀ l, r = Ok l → ∃ i, lvols (sp w) !! l = Some i ∧ is_snapshot i = false) w ∧
  wp (find_snapshot uuid) (λ r w', w' = w ∧ ∀ l, r = Ok l → ∃ i, lvols (sp w) !! l = Some i ∧ is_snapshot i = true ∧ parse_uuid uuid = Some (bdev_uuid i)) w.
Proof.
  unfold find_replica, find_snapshot, spdk_get. split; do 2 wp_step; unfold lookup_by_uuid_str;
    (destruct (parse_uuid uuid) as [u|] eqn:Hu; simpl; [|wp_step; done]); (destruct (lvol_get_by_uuid (sp w) u) as [l|] eqn:Hl; [|wp_step; done]);
    destruct (by_uuid_some _ _ _ Hl) as (i & Hi & <-); wp_step; apply wp_lvol, (wp_info l i); try done; simpl;
    destruct (is_snapshot i) eqn:Hs; wp_step; (split; [by destruct w|]); intros l' [=]; subst; eauto.
Qed.

(** What a request leaves behind. *)
Definition settled {A} w (r : outcome Code A) w' : Prop := sound (sp w') ∧ (tidy (sp w) → is_ok r = true → tidy (sp w')).

Lemma safe_settled {A} w (r : outcome Code A) w' : sound (sp w) → safe (sp w) (sp w') → settled w r w'.
Proof. intros Hs Hsafe. destruct (Hsafe Hs). split; auto. Qed.

Lemma wp_on_spdk {A} (m : ST spdk LvsError A) Q w : wp m (λ r s', Q r (set_sp s' w)) (sp w) → wp (on_spdk m) Q w.
Proof. unfold wp, on_spdk. by destruct (m (sp w)). Qed.

(** A new replica that is made ready by [m], or destroyed. *)
Lemma or_destroy_safe l (m : ST spdk LvsError unit) w :
  keeps tame m → sound (sp w) → plain (sp w) l →
  wp (or_destroy l (on_spdk m)) (λ r w', safe (sp w) (sp w') ∧ (r = Ok tt → plain (sp w') l)) w.
Proof.
  intros Hm Hs Hp. specialize (Hm (sp w)). unfold wp, or_destroy, on_spdk. destruct (m (sp w)) as [s1 r]. simpl in Hm.
  pose proof (tame_safe _ _ Hm) as Hsafe. pose proof (tame_plain _ _ _ Hm Hp) as Hp1. destruct (Hsafe Hs) as [Hs1 _].
  destruct r as [[]|e|]; [by split|simpl|by split; [|intros [=]]].
  change (wp (ST.try (on_spdk (destroy l));; ST.fail (A := unit) e) (λ r w', safe (sp w) (sp w') ∧ (r = Ok tt → plain (sp w') l)) (set_sp s1 w)).
  wp_step. apply wp_try. unfold on_spdk. simpl. pose proof (destroy_plain_safe l s1 Hs1 Hp1) as Hd. unfold wp in Hd. destruct (destroy l s1) as [s2 r2].
  assert (safe (sp w) s2) by (by etrans). destruct r2 as [n|e2|]; [wp_step|wp_step|]; by split.
Qed.

Lemma create_lvol_safe st opts w :
  sound (sp w) →
  wp (create_lvol_with_opts st opts) (λ r w', safe (sp w) (sp w') ∧ ∀ l, r = Ok l → plain (sp w') l) w.
Proof.
  intros Hs. unfold create_lvol_with_opts, base_bdev. do 2 wp_step. apply wp_store_of; [|done]. intros p Hp. wp_step. unfold spdk_get. wp_step.
  destruct (store_base (sp w) st) as [base|]; wp_steps; [|done].
  destruct (negb _ && bool_decide (is_Some (lookup_lvol_by_uuid_str _ _ _))); [by wp_step|]. case_bool_decide; [by wp_step|].
  destruct (negb _ && _); [by wp_step|]. destruct (capacity st (sp w) <? ra_size opts); [by wp_step|]. wp_steps.
  destruct (into_cstring (ra_name opts)) as [cname| |]; [|done..]. wp_steps. destruct (into_cstring (ra_uuid opts)) as [cuuid| |]; [|done..].
  wp_step. apply wp_spdk_call. intros s1 a Hc. destruct (lvol_create_law _ _ _ _ _ Hc) as [_ Ha].
  assert (Hfail : lvols s1 = lvols (sp w) → safe (sp w) s1) by (intros; by apply tame_safe, tame_eq).
  destruct a as [rc|[l|e]]; [wp_step; by split; [apply Hfail|]| |wp_step; by split; [apply Hfail|]].
  destruct Ha as (Hnone & i & Hl & _ & _ & _ & Hattr).
  assert (Hp1 : plain s1 l).
  { exists i. rewrite Hl, lookup_insert_eq. split_and!; [done| |by apply Hattr]. unfold is_snapshot, blob_xattr. cbn [snapshot_attr_name]. by rewrite Hattr. }
  assert (Hsafe1 : safe (sp w) s1).
  { apply (insert_safe _ _ l i Hnone Hl); [|by rewrite Hattr|intros u; by rewrite Hattr].
    unfold is_discarded_snapshot, blob_xattr. cbn [snapshot_attr_name]. by rewrite Hattr. }
  destruct (Hsafe1 Hs) as [Hs1 _].
  assert (Hwipe : ∀ w2, safe (sp w) (sp w2) → sound (sp w2) → plain (sp w2) l →
    wp ((if ra_wipe_super opts then or_destroy l (on_spdk (wipe_super l)) else mret tt);; mret l)
      (λ r w', safe (sp w) (sp w') ∧ ∀ l, r = Ok l → plain (sp w') l) w2).
  { intros w2 Hsafe2 Hs2 Hp2. wp_step. destruct (ra_wipe_super opts); [|wp_steps; split; [done|intros ? [=]; by subst]].
    eapply wp_mono; [apply or_destroy_safe; [apply tame_wipe|done|done]|]. intros r w3 [Hsafe3 Hp3]. assert (safe (sp w) (sp w3)) by (by etrans).
    destruct r as [[]|e|]; [wp_step; split; [done|intros ? [=]; subst; auto]|by split..]. }
  destruct (ra_entity_id opts) as [id|]; wp_step; [|wp_step; by apply Hwipe].
  eapply wp_mono; [apply (or_destroy_safe l (set l (EntityId id)) (set_sp s1 w)); [apply tame_set|done|done]|].
  intros r w3 [Hsafe3 Hp3]. assert (Hsafe : safe (sp w) (sp w3)) by (by etrans). destruct (Hsafe Hs) as [Hs3 _].
  destruct r as [[]|e|]; [by apply Hwipe; [| |apply Hp3]|by split..].
Qed.

Lemma create_replica_settled args w : sound (sp w) → wp (create_replica busy ptpl args) (settled w) w.
Proof.
  intros Hs. assert (Hsame : ∀ r : outcome Code nat, settled w r w) by (intros r; by apply safe_settled).
  unfold create_replica, pool_create_replica. wp_step. apply wp_same; [apply same_with_err, keeps_lift; typeclasses eauto|]. intros [p0|e|]; [|done..].
  wp_step. apply wp_same; [apply same_pool_finder|]. intros [st|e|]; [|done..].
  wp_step. apply wp_same; [apply same_with_err, keeps_lift; typeclasses eauto|]. intros [p|e|]; [|done..].
  wp_step. apply wp_lvs. eapply wp_mono; [by apply create_lvol_safe|]. intros r w1 [Hsafe1 Hp1]. destruct (Hsafe1 Hs) as [Hs1 Ht1].
  destruct r as [l|e|]; simpl; [|by apply safe_settled..]. destruct (Hp1 l eq_refl) as (i & Hi & Hns & Hx).
  destruct p; [wp_step; by apply safe_settled|].
  wp_step. apply wp_same; [apply same_create_ptpl|]. intros [[]|e|]; [|by apply safe_settled..]. wp_step. apply wp_try. unfold on_spdk.
  pose proof (tame_share l (cr_allowed_hosts args) (sp w1)) as Htame. destruct (share_nvmf l (cr_allowed_hosts args) (sp w1)) as [s2 r2]. simpl in Htame.
  assert (Hsafe2 : safe (sp w) s2) by (etrans; [exact Hsafe1|by apply tame_safe]). destruct (Hsafe2 Hs) as [Hs2 _].
  destruct r2 as [uri|e|]; [wp_step; by apply safe_settled| |by apply safe_settled].
  wp_step. apply wp_try. unfold on_spdk. simpl. destruct (tame_lookup _ _ _ _ Htame Hi) as (i2 & Hi2 & Hlike).
  pose proof (destroy_replica_served l i2 s2 Hs2 Hi2 ltac:(by rewrite (like_snapshot _ _ Hlike))) as Hd. unfold wp in Hd.
  destruct (destroy_replica l s2) as [s3 r3]. destruct Hd as [Hs3 _]. destruct r3 as [n|e3|]; [wp_step|wp_step|]; split; try done; by intros _ [=].
Qed.

(** An operation on a replica that leaves snapshots and clones alone. *)
Lemma tame_settled {A} (m : nat → ST World Code A) uuid w :
  sound (sp w) → (∀ l, keeps (λ w w', tame (sp w) (sp w')) (m l)) → wp (l ← find_replica uuid; m l) (settled w) w.
Proof.
  intros Hs Hm. wp_step. eapply wp_mono; [apply find_spec|]. intros r w' [-> _]. destruct r as [l|e|]; [|by apply safe_settled..].
  apply (keeps_wp _ _ _ _ (Hm l)). intros w2 r2 Ht. by apply safe_settled; [|apply tame_safe].
Qed.

#[local] Instance tame_world_preorder : PreOrder (λ w w', tame (sp w) (sp w')).
Proof. split; [intros w; reflexivity|]. intros w1 w2 w3 H1 H2. by etrans. Qed.

Lemma tame_lvol {A} (m : ST spdk LvsError A) : keeps tame m → keeps (λ w w', tame (sp w) (sp w')) (lvol m).
Proof. intros Hm w. specialize (Hm (sp w)). unfold lvol, lvs, ST.with_err, on_spdk. by destruct (m (sp w)). Qed.

Lemma tame_same {A} (m : ST World Code A) : same m → keeps (λ w w', tame (sp w) (sp w')) m.
Proof. intros Hm w. by rewrite <- (Hm w). Qed.

Lemma share_tame l proto hosts : keeps (λ w w', tame (sp w) (sp w')) (share busy ptpl l proto hosts).
Proof.
  unfold share. apply keeps_bind; [typeclasses eauto|apply tame_same, same_lock_pool_of|intros _].
  apply keeps_bind; [typeclasses eauto|apply tame_same, same_with_err, keeps_lift; typeclasses eauto|intros p].
  apply keeps_bind; [typeclasses eauto|by apply tame_same|intros sh]. case_bool_decide; [apply tame_lvol, tame_update|].
  destruct p; [apply keeps_fail; typeclasses eauto|].
  apply keeps_bind; [typeclasses eauto|apply tame_same, same_create_ptpl|intros _].
  apply keeps_bind; [typeclasses eauto|apply tame_lvol, tame_share|intros _; apply keeps_ret; typeclasses eauto].
Qed.

Lemma unshare_tame l : keeps (λ w w', tame (sp w) (sp w')) (lock_pool_of busy l;; lvol (unshare l true)).
Proof. apply keeps_bind; [typeclasses eauto|apply tame_same, same_lock_pool_of|intros _; apply tame_lvol, tame_unshare]. Qed.

Lemma clone_settled now su cn cu w :
  sound (sp w) → (∀ u, parse_uuid su = Some u → u = su) → wp (create_snapshot_clone now su cn cu) (settled w) w.
Proof.
  intros Hs Hcan. assert (Hsame : ∀ r : outcome Code nat, settled w r w) by (intros r; by apply safe_settled).
  unfold create_snapshot_clone, spdk_get. do 2 wp_step. destruct (uuid_known cu (sp w)); [by wp_step|]. wp_step.
  eapply wp_mono; [apply find_spec|]. intros r w' [-> Hf]. destruct r as [l|e|]; [|done..]. destruct (Hf l eq_refl) as (i & Hi & Hsnap & Hu).
  wp_step. apply wp_lvol, (wp_info l i); [done|]. simpl. destruct (is_discarded_snapshot i); [wp_step; by destruct w|].
  destruct (prepare_clone now cn cu su) as [p|] eqn:Hp; [|wp_step; by destruct w].
  apply wp_lvol. eapply wp_mono; [apply (create_clone_safe l i p su); [done|done|done| |by apply Hcan]|].
  - unfold prepare_clone in Hp. by repeat case_bool_decide; simplify_eq.
  - intros r s' Hsafe. by apply safe_settled.
Qed.

Lemma snapshot_settled now args w : sound (sp w) → wp (create_replica_snapshot now args) (settled w) w.
Proof.
  intros Hs. assert (Hsame : ∀ r : outcome Code nat, settled w r w) by (intros r; by apply safe_settled).
  unfold create_replica_snapshot. wp_step. eapply wp_mono; [apply find_spec|]. intros r w' [-> Hf]. destruct r as [l|e|]; [|done..].
  destruct (Hf l eq_refl) as (i & Hi & _). wp_step. apply wp_lvol, (wp_info l i); [done|]. simpl.
  destruct (prepare _ _ _ _ _ _) as [p|] eqn:Hp; [|wp_step; by destruct w]. wp_step. unfold spdk_get. wp_step. destruct (uuid_known _ _); [wp_step; by destruct w|].
  apply wp_lvol. eapply wp_mono; [apply create_snapshot_safe; [|done]|].
  - unfold prepare in Hp. by repeat case_bool_decide; simplify_eq.
  - intros r s' Hsafe. by apply safe_settled.
Qed.

Lemma destroy_replica_settled uuid pool w : sound (sp w) → wp (destroy_replica_rpc busy uuid pool) (settled w) w.
Proof.
  intros Hs. assert (Hsame : ∀ r : outcome Code unit, settled w r w) by (intros r; by apply safe_settled).
  unfold destroy_replica_rpc. wp_step. apply wp_same; [apply same_with_pool|]. intros [st|e|]; [|done..].
  wp_step. eapply wp_mono; [apply find_spec|]. intros r w' [-> Hf]. destruct r as [l|e|]; [|done..]. destruct (Hf l eq_refl) as (i & Hi & Hns).
  wp_step. apply wp_same; [apply same_verify|]. intros [[]|e|]; [|done..]. wp_step. apply wp_lvol.
  eapply wp_mono; [by apply (destroy_replica_served l i)|]. intros [n|e|] s' [Hs' Ht']; simpl; [wp_step| |]; split; try done; by intros _ [=].
Qed.

Lemma destroy_snapshot_settled uuid pool w : sound (sp w) → wp (destroy_snapshot_rpc busy uuid pool) (settled w) w.
Proof.
  intros Hs. assert (Hsame : ∀ r : outcome Code unit, settled w r w) by (intros r; by apply safe_settled).
  unfold destroy_snapshot_rpc. wp_step. apply wp_same; [apply same_with_pool|]. intros [st|e|]; [|done..].
  wp_step. eapply wp_mono; [apply find_spec|]. intros r w' [-> Hf]. destruct r as [l|e|]; [|done..]. destruct (Hf l eq_refl) as (i & Hi & Hsnap & _).
  wp_step. apply wp_same; [apply same_verify|]. intros [[]|e|]; [|done..]. apply wp_lvol.
  eapply wp_mono; [by apply (destroy_snapshot_safe l i)|]. intros r s' Hsafe. by apply safe_settled.
Qed.

Lemma wp_forget {A} (m : ST World Code A) w : wp m (settled w) w → wp (m;; mret tt) (settled w) w.
Proof. intros Hm. wp_step. eapply wp_mono; [exact Hm|]. by intros [a|e|] w'. Qed.

Lemma serve_settled r w : canonical r → sound (sp w) → wp (serve r) (settled w) w.
Proof.
  intros Hc Hs. destruct r; simpl.
  - by apply wp_forget, create_replica_settled.
  - by apply destroy_replica_settled.
  - apply tame_settled; [done|]. intros l. apply share_tame.
  - apply tame_settled; [done|]. intros l. apply unshare_tame.
  - apply tame_settled; [done|]. intros l. apply tame_lvol, tame_resize.
  - apply tame_settled; [done|]. intros l. apply tame_lvol, tame_set.
  - by apply wp_forget, snapshot_settled.
  - by apply destroy_snapshot_settled.
  - by apply wp_forget, clone_settled.
  - apply wp_lvol. eapply wp_mono; [by apply gc_safe|]. intros o s' Hsafe. by apply safe_settled.
Qed.

(** C23.  Whatever requests are served, and whether they succeed or fail:
    every clone has the snapshot it was made of on its pool, for as long as the
    clone exists, provided that clones are requested by the canonical uuid of
    the snapshot.  And as long as no request fails, a snapshot that was deleted
    while it had clones is there only as long as there is a clone of it. *)
Theorem clones_keep_their_snapshot rs w w' ok :
  Forall canonical rs → sound (sp w) → serve_all rs w = (w', ok) →
  sound (sp w') ∧ (ok = true → tidy (sp w) → tidy (sp w')).
Proof.
  revert w w' ok. induction rs as [|r rs IH]; intros w w' ok Hc Hs; simpl; [intros; by simplify_eq|].
  inversion_clear Hc as [|? ? Hr Hrs]. destruct (serve r w) as [w1 o] eqn:Hserve. destruct (serve_all rs w1) as [w2 b] eqn:Hall. intros [= <- <-].
  destruct (wp_elim _ _ _ _ _ (serve_settled r w Hr Hs) Hserve) as [Hs1 Ht1]. destruct (IH w1 w2 b Hrs Hs1 Hall) as [Hs2 Ht2].
  split; [done|]. intros Hok Ht. apply andb_true_iff in Hok as [Ho Hb]. auto.
Qed.

End Requests.

End ServiceProps.
