(* ===== verification/LvsSample.v ===== *)
(** * A model of SPDK

    A concrete instance of the interfaces for lvols and pools, with one disk,
    one encrypting bdev and one store, for which the laws hold.  The theorems
    about logical volumes are applied to it. *)

From Stdlib Require Import Ascii String.
From S2P Require Import Prelude Text Wp Errors NexusChild NexusErrors LvsErrors LvsLvol LvsLvolProps LvsMoves LvsStore LvsStoreProps LvsStall LvsReplica PoolService PoolServiceProps.
Import LvsErr Lvol LvolProps LvolMoves Lvs LvsProps LvsStall LvsReplica Service ServiceProps.

#[local] Open Scope Z_scope.

Module LvsSample.

(** ** UUIDs: 36 characters, in lower case when canonical *)

Definition lower_ascii (a : ascii) : ascii :=
  if (65 <=? byte a) && (byte a <=? 90) then ascii_of_N (N_of_ascii a + 32) else a.

Fixpoint lower (s : string) : string :=
  match s with EmptyString => EmptyString | String a s => String (lower_ascii a) (lower s) end.

Lemma lower_idemp s : lower (lower s) = lower s.
Proof.
  induction s as [|a s IH]; simpl; [done|]. rewrite IH. f_equal. by destruct a as [[] [] [] [] [] [] [] []].
Qed.

Definition parse (u : string) : option string :=
  let c := lower u in if (strlen c =? 36) && negb (has NUL c) && utf8_valid c then Some c else None.

(** ** Lvols *)

Definition valid (m : gmap nat lvol_info) : Prop :=
  map_Forall (λ l i, parse (bdev_uuid i) = Some (bdev_uuid i) ∧ map_Forall (λ l' i', bdev_uuid i = bdev_uuid i' → l = l') m) m.

Record vmap := mkVmap { vm : gmap nat lvol_info; vm_ok : valid vm }.

#[global] Instance valid_dec m : Decision (valid m).
Proof. unfold valid. apply _. Defined.

Definition checked (m : gmap nat lvol_info) : option vmap :=
  match decide (valid m) with left H => Some (mkVmap m H) | right _ => None end.

Lemma checked_some m v : checked m = Some v → vm v = m.
Proof. unfold checked. case_decide; intros; by simplify_eq. Qed.

(** Nothing, a disk, or an encrypting bdev on the disk; with a store or not. *)
Inductive layout := Bare | OnDisk (store : bool) | OnCrypto (store : bool).

Record sample := mkSample {
  lv : vmap;
  on_disk : gmap nat (gmap string string);
  parents : gmap nat nat;
  pools : layout;
  (** A store is found on the disk. *)
  image : bool;
  timeouts : gmap nat Z;
  s_resets : list nat;
  s_reads : list nat
}.

Definition set_lv (m : vmap) (s : sample) : sample :=
  mkSample m (on_disk s) (parents s) (pools s) (image s) (timeouts s) (s_resets s) (s_reads s).
Definition set_disk (d : gmap nat (gmap string string)) (s : sample) : sample :=
  mkSample (lv s) d (parents s) (pools s) (image s) (timeouts s) (s_resets s) (s_reads s).
Definition set_parents (p : gmap nat nat) (s : sample) : sample :=
  mkSample (lv s) (on_disk s) p (pools s) (image s) (timeouts s) (s_resets s) (s_reads s).
Definition set_pools (p : layout) (s : sample) : sample :=
  mkSample (lv s) (on_disk s) (parents s) p (image s) (timeouts s) (s_resets s) (s_reads s).
Definition set_timeouts (t : gmap nat Z) (s : sample) : sample :=
  mkSample (lv s) (on_disk s) (parents s) (pools s) (image s) t (s_resets s) (s_reads s).
Definition set_pending (rs rd : list nat) (s : sample) : sample :=
  mkSample (lv s) (on_disk s) (parents s) (pools s) (image s) (timeouts s) rs rd.

Definition find_uuid (m : gmap nat lvol_info) (ok : lvol_info → bool) (u : string) : option nat :=
  fst <$> List.find (λ li, ok (snd li) && bool_decide (bdev_uuid (snd li) = u)) (map_to_list m).

Definition s_lvols (s : sample) : gmap nat lvol_info := vm (lv s).

(** A new lvol with its attributes, if its uuid is free. *)
Definition add_lvol (st : nat) (n : string) (u : option string) (xs : list (string * string)) (s : sample) : option (nat * sample) :=
  c ← (u ≫= parse);
  let l := fresh (dom (s_lvols s) : gset nat) in
  m ← checked (<[l := mkInfo st n c (attrs_of xs)]> (s_lvols s));
  Some (l, set_lv m s).

Definition with_lvols (f : gmap nat lvol_info → gmap nat lvol_info) (s : sample) : sample * Z :=
  match checked (f (s_lvols s)) with Some m => (set_lv m s, 0) | None => (s, -5) end.

Definition take_snapshot (l : nat) (n : string) (xs : list (string * string)) (s : sample) : sample * (nat + Errno) :=
  match s_lvols s !! l with
  | None => (s, inr ENOENT)
  | Some i =>
      match add_lvol (store i) n (attrs_of xs !! "uuid"%string) xs s with
      | None => (s, inr EINVAL)
      | Some (sn, s) =>
          let p := match parents s !! l with Some k => <[sn := k]> (parents s) | None => delete sn (parents s) end in
          (set_parents (<[l := sn]> p) s, inl sn)
      end
  end.

Definition make_clone (l : nat) (n : string) (xs : list (string * string)) (s : sample) : sample * (nat + Errno) :=
  match s_lvols s !! l with
  | None => (s, inr ENOENT)
  | Some i =>
      match add_lvol (store i) n (attrs_of xs !! "uuid"%string) xs s with
      | None => (s, inr EINVAL)
      | Some (c, s) => (set_parents (<[c := l]> (parents s)) s, inl c)
      end
  end.

#[export] Instance sample_spdk : Spdk := {|
  spdk := sample;
  lvols := s_lvols;
  lvol_bdevs s := elements (dom (s_lvols s) : gset nat);
  durable s l := default ∅ (on_disk s !! l);
  size_in_bytes _ _ := 2^24;
  cluster_size _ _ := 2^22;
  num_clusters _ _ := 4;
  allocated_clusters _ _ := 1;
  ancestor_clusters _ _ := inl 0;
  blob_parent s l := parents s !! l;
  is_thin _ _ := true;
  is_read_only _ _ := false;
  clear_with_unmap _ _ := true;
  bdev_shared _ _ := false;
  parse_uuid := parse;
  lvol_get_by_uuid s u := find_uuid (s_lvols s) (λ _, true) u;
  lvs_lvol_get_by_uuid s st u := find_uuid (s_lvols s) (λ i, bool_decide (store i = st)) u;
  count_real_clones s st a u :=
    Z.of_nat (size (filter (λ li : nat * lvol_info, store li.2 = st ∧ xattrs li.2 !! a = Some u) (s_lvols s)));
  get_real_clones s st a u :=
    elements (dom (filter (λ li : nat * lvol_info, store li.2 = st ∧ xattrs li.2 !! a = Some u) (s_lvols s)) : gset nat);
  blob_set_xattr l n v := with_lvols (alter (set_attr n v) l);
  blob_sync_md l s := (set_disk (<[l := from_option xattrs ∅ (s_lvols s !! l)]> (on_disk s)) s, 0);
  vbdev_lvol_destroy l := with_lvols (delete l);
  vbdev_lvol_resize _ _ s := (s, 0);
  vbdev_lvol_create_snapshot_ext := take_snapshot;
  vbdev_lvol_create_clone_ext := make_clone;
  bdev_write_zeroes _ _ _ s := (s, Ok tt);
  bdev_share_nvmf _ _ s := (s, Ok "nvmf://host/nqn"%string);
  bdev_unshare _ s := (s, Ok tt);
  bdev_update_properties _ _ s := (s, Ok tt)
|}.

Lemma find_uuid_some m ok u l : find_uuid m ok u = Some l → ∃ i, m !! l = Some i ∧ ok i = true ∧ bdev_uuid i = u.
Proof.
  unfold find_uuid. destruct (List.find _ _) as [[l' i]|] eqn:Hf; [|done]. simpl. intros; simplify_eq. apply find_some in Hf as [Hin Hok].
  apply andb_true_iff in Hok as [Hok Hu]. apply bool_decide_eq_true in Hu. exists i. split_and!; [|done|done].
  apply elem_of_map_to_list. by apply list_elem_of_In.
Qed.

Lemma find_uuid_none m ok u : find_uuid m ok u = None → ∀ l i, m !! l = Some i → ok i = true → bdev_uuid i ≠ u.
Proof.
  unfold find_uuid. destruct (List.find _ _) as [[l' i']|] eqn:Hf; [done|]. intros _ l i Hl Hok Hu.
  pose proof (find_none _ _ Hf (l, i)) as Hn. simpl in Hn. rewrite Hok, Hu, bool_decide_eq_true_2 in Hn by done.
  discriminate Hn. apply list_elem_of_In, elem_of_map_to_list, Hl.
Qed.

Lemma with_lvols_law f s s' rc :
  with_lvols f s = (s', rc) → s_lvols s' = (if rc =? 0 then f (s_lvols s) else s_lvols s) ∧ on_disk s' = on_disk s.
Proof.
  unfold with_lvols. destruct (checked (f (s_lvols s))) as [m|] eqn:Hm; intros; simplify_eq; simpl; [|done].
  by rewrite <- (checked_some _ _ Hm).
Qed.

Lemma add_lvol_law st n u xs s l s' :
  add_lvol st n u xs s = Some (l, s') →
  s_lvols s !! l = None ∧ parents s' = parents s ∧
  ∃ c, u ≫= parse = Some c ∧ s_lvols s' = <[l := mkInfo st n c (attrs_of xs)]> (s_lvols s).
Proof.
  unfold add_lvol. destruct (u ≫= parse) as [c|] eqn:Hc; [|done]. simpl. destruct (checked _) as [m|] eqn:Hm; [|done]. simpl. intros; simplify_eq.
  split_and!; [|done|].
  - apply not_elem_of_dom, is_fresh.
  - exists c. split; [done|]. by rewrite <- (checked_some _ _ Hm).
Qed.

Lemma created_law st n xs c i :
  attrs_of xs !! "uuid"%string ≫= parse = Some c → i = mkInfo st n c (attrs_of xs) → created_with st n xs i.
Proof.
  intros Hc ->. split_and!; try done. intros v Hv. simpl in Hc. by rewrite Hv in Hc.
Qed.

#[export] Instance sample_laws : SpdkLaws.
Proof.
  split.
  - intros s. simpl. apply NoDup_elements.
  - intros s l. simpl. rewrite elem_of_elements. apply elem_of_dom.
  - intros u c. simpl. unfold parse. destruct (_ && _ && _) eqn:Hu; [|done]. intros; simplify_eq. rewrite lower_idemp, Hu.
    apply andb_true_iff in Hu as [Hu Hv]. apply andb_true_iff in Hu as [Hl Hn]. apply Z.eqb_eq in Hl. apply negb_true_iff in Hn. done.
  - intros s l i Hi. apply (vm_ok (lv s) l i Hi).
  - intros s l l' i i' Hi Hi' Hu. destruct (vm_ok (lv s) l i Hi) as [_ Hf]. by apply (Hf l' i').
  - intros s u l Hl. destruct (find_uuid_some _ _ _ _ Hl) as (i & ? & _ & ?). eauto.
  - intros s u Hn l i Hi. by apply (find_uuid_none _ _ _ Hn l i Hi).
  - intros s st u l Hl. destruct (find_uuid_some _ _ _ _ Hl) as (i & ? & Hs%bool_decide_eq_true & ?). eauto.
  - intros s st u Hn l i Hi Hst. apply (find_uuid_none _ _ _ Hn l i Hi). by apply bool_decide_eq_true.
  - done.
  - intros l n v s s' rc H. destruct (with_lvols_law _ _ _ _ H) as [Hl Hd]. split; [exact Hl|]. intros l'. simpl. by rewrite Hd.
  - intros l s s' rc [= <- <-]. split; [done|]. intros l'. simpl. destruct (Nat.eqb_spec l' l) as [->|Hne].
    + by rewrite lookup_insert_eq.
    + by rewrite lookup_insert_ne.
  - intros l s s' rc H. by destruct (with_lvols_law _ _ _ _ H).
  - intros l n s s' rc [= <- <-]. done.
  - intros l n xs s s' sn. simpl. unfold take_snapshot. destruct (s_lvols s !! l) as [i|] eqn:Hi; [|done].
    destruct (add_lvol _ _ _ _ _) as [[sn' s1]|] eqn:Ha; [|done]. intros; simplify_eq. destruct (add_lvol_law _ _ _ _ _ _ _ Ha) as (Hn & Hp & c & Hc & Hl).
    assert (Hne : sn ≠ l) by (intros ->; congruence). split_and!; [done| | | |].
    + exists i. eexists. split_and!; [done|exact Hl|by eapply created_law].
    + simpl. apply lookup_insert_eq.
    + simpl. rewrite lookup_insert_ne by done. rewrite Hp. destruct (parents s !! l); [apply lookup_insert_eq|apply lookup_delete_eq].
    + intros l' Hl' Hsn. simpl. rewrite lookup_insert_ne by done. rewrite Hp. destruct (parents s !! l); [by rewrite lookup_insert_ne|by rewrite lookup_delete_ne].
  - intros l n xs s s' e. simpl. unfold take_snapshot. destruct (s_lvols s !! l); [|intros; by simplify_eq].
    destruct (add_lvol _ _ _ _ _) as [[sn' s1]|]; intros; by simplify_eq.
  - intros l n xs s s' sn. simpl. unfold make_clone. destruct (s_lvols s !! l) as [i|] eqn:Hi; [|done].
    destruct (add_lvol _ _ _ _ _) as [[c' s1]|] eqn:Ha; [|done]. intros; simplify_eq. destruct (add_lvol_law _ _ _ _ _ _ _ Ha) as (Hn & Hp & c & Hc & Hl).
    split_and!; [done| | |].
    + exists i. eexists. split_and!; [done|exact Hl|by eapply created_law].
    + simpl. apply lookup_insert_eq.
    + intros l' Hl'. simpl. rewrite lookup_insert_ne by done. by rewrite Hp.
  - intros l n xs s s' e. simpl. unfold make_clone. destruct (s_lvols s !! l); [|intros; by simplify_eq].
    destruct (add_lvol _ _ _ _ _) as [[sn' s1]|]; intros; by simplify_eq.
  - done.
  - done.
  - done.
  - done.
Qed.

(** ** Pools *)

Notation SDA := "/dev/sda"%string.
Notation SDA_URI := "aio:///dev/sda"%string.
Notation CRYPTO := "crypto_p"%string.
Notation POOL_UUID := "11111111-1111-1111-1111-111111111111"%string.

Definition disk_bdev : bdev_info := mkBdev "aio" false (2^30) true None (Some SDA_URI) (Some SDA_URI).
Definition crypto_bdev : bdev_info := mkBdev "crypto" false (2^30) true (Some SDA) None None.

Definition s_bdevs (s : sample) : gmap string bdev_info :=
  match pools s with
  | Bare => ∅
  | OnDisk _ => {[SDA := disk_bdev]}
  | OnCrypto _ => {[SDA := disk_bdev; CRYPTO := crypto_bdev]}
  end.

Definition s_stores (s : sample) : gmap nat store_info :=
  match pools s with
  | OnDisk true => {[1%nat := mkStore "p" POOL_UUID (Some SDA)]}
  | OnCrypto true => {[1%nat := mkStore "p" POOL_UUID (Some CRYPTO)]}
  | _ => ∅
  end.

(** The bdev on top, without a store, and what it is with one. *)
Definition free_top (s : sample) : option (string * layout) :=
  match pools s with OnDisk false => Some (SDA, OnDisk true) | OnCrypto false => Some (CRYPTO, OnCrypto true) | _ => None end.

Definition without_store (l : layout) : layout :=
  match l with Bare => Bare | OnDisk _ => OnDisk false | OnCrypto _ => OnCrypto false end.

Definition s_parse (u : string) : outcome Bdev.Error string :=
  if bool_decide (u = SDA_URI) then Ok SDA else Err (Bdev.UriSchemeUnsupported u).

Definition s_import (b : string) (s : sample) : sample * answer nat :=
  match free_top s with
  | Some (top, l) => if bool_decide (b = top) && image s then (set_pools l s, inr (inl 1%nat)) else (s, inr (inr EILSEQ))
  | None => (s, inr (inr EILSEQ))
  end.

Definition s_create (b n : string) (u : option string) (cs ratio : Z) (s : sample) : sample * answer nat :=
  match free_top s with
  | Some (top, l) =>
      if bool_decide (b = top) && bool_decide (n = "p"%string) &&
         match u with Some u => bool_decide (parse u = Some POOL_UUID) | None => true end
      then (set_pools l s, inr (inl 1%nat)) else (s, inl (-22))
  | None => (s, inl (-22))
  end.

Definition s_unload (st : nat) (s : sample) : sample * Z :=
  if (st =? 1)%nat then (set_pools (without_store (pools s)) s, 0) else (s, -2).

Definition s_bdev_create (u : string) (s : sample) : sample * outcome Bdev.Error string :=
  if bool_decide (u = SDA_URI)
  then match pools s with Bare => (set_pools (OnDisk false) s, Ok SDA) | _ => (s, Err (Bdev.BdevExists SDA)) end
  else (s, Err (Bdev.NotFound u)).

Definition s_bdev_destroy (u : string) (s : sample) : sample * outcome Bdev.Error unit :=
  if bool_decide (u = SDA_URI)
  then match pools s with Bare => (s, Err (Bdev.NotFound SDA)) | _ => (set_pools Bare s, Ok tt) end
  else (s, Err (Bdev.NotFound u)).

Definition s_crypto_create (c b k : string) (s : sample) : sample * outcome Bdev.Error unit :=
  match pools s with
  | OnDisk false => if bool_decide (c = CRYPTO) && bool_decide (b = SDA) then (set_pools (OnCrypto false) s, Ok tt) else (s, Err (Bdev.NotFound c))
  | _ => (s, Err (Bdev.NotFound c))
  end.

Definition s_crypto_destroy (c : string) (k : option string) (s : sample) : sample * outcome Bdev.Error unit :=
  match pools s with
  | OnCrypto _ => if bool_decide (c = CRYPTO) then (set_pools (OnDisk false) s, Ok tt) else (s, Err (Bdev.NotFound c))
  | _ => (s, Err (Bdev.NotFound c))
  end.

Definition s_lvol_create (st : nat) (o : lvol_opts) (s : sample) : sample * answer nat :=
  match add_lvol st (o_name o) (o_uuid o) [] s with Some (l, s) => (s, inr (inl l)) | None => (s, inl (-22)) end.

#[export] Instance sample_pools : Pools := {|
  bdevs := s_bdevs;
  stores := s_stores;
  store_list s := elements (dom (s_stores s) : gset nat);
  lvs_lvols s st := elements (dom (filter (λ li : nat * lvol_info, store li.2 = st) (s_lvols s)) : gset nat);
  total_clusters _ _ := 256;
  free_clusters _ _ := 128;
  stall_timeout s st := default 0 (timeouts s !! st);
  resets := s_resets;
  reads := s_reads;
  uuid_in_use s u := bool_decide (is_Some (find_uuid (s_lvols s) (λ _, true) u));
  url_ok u := bool_decide (u = SDA_URI);
  url_error _ := "relative URL without a base"%string;
  url_scheme _ := Some "aio"%string;
  uri_parse := s_parse;
  lvs_by_name s n := if bool_decide (n = "p"%string) && bool_decide (is_Some (s_stores s !! 1%nat)) then Some 1%nat else None;
  lvs_by_uuid s u := if bool_decide (u = POOL_UUID) && bool_decide (is_Some (s_stores s !! 1%nat)) then Some 1%nat else None;
  bdev_create := s_bdev_create;
  bdev_destroy := s_bdev_destroy;
  crypto_create := s_crypto_create;
  crypto_destroy := s_crypto_destroy;
  vbdev_lvs_import := s_import;
  vbdev_lvs_create := s_create;
  vbdev_lvs_unload := s_unload;
  vbdev_lvs_destruct := s_unload;
  vbdev_lvs_set_timeout st t s := (set_timeouts (<[st := t]> (timeouts s)) s, 0);
  vbdev_lvs_bs_bdev_reset st s := (set_pending (s_resets s ++ [st]) (s_reads s) s, 0);
  bs_read_super st s := set_pending (s_resets s) (s_reads s ++ [st]) s;
  bdev_rescan _ _ s := (s, 0);
  elapse _ s := s;
  spdk_lvs_grow_live _ s := (s, 0);
  vbdev_lvol_create_with_opts := s_lvol_create
|}.

Lemma with_lvols_pools f s : same_pools s (fst (with_lvols f s)).
Proof. unfold with_lvols. by destruct (checked _). Qed.

Lemma add_lvol_pools st n u xs s l s' : add_lvol st n u xs s = Some (l, s') → same_pools s s'.
Proof.
  unfold add_lvol. destruct (u ≫= parse); [|done]. simpl. destruct (checked _); [|done]. simpl. intros; by simplify_eq.
Qed.

Lemma set_parents_pools p s : same_pools s (set_parents p s).
Proof. done. Qed.

Lemma sample_call s s' : lvol_call s s' → same_pools s s'.
Proof.
  intros []; simpl; try done; try apply with_lvols_pools.
  - unfold take_snapshot. destruct (s_lvols s !! l); [|done]. destruct (add_lvol _ _ _ _ _) as [[sn s1]|] eqn:Ha; [|done]. exact (add_lvol_pools _ _ _ _ _ _ _ Ha).
  - unfold make_clone. destruct (s_lvols s !! l); [|done]. destruct (add_lvol _ _ _ _ _) as [[sn s1]|] eqn:Ha; [|done]. exact (add_lvol_pools _ _ _ _ _ _ _ Ha).
Qed.

(** The disks in the three layouts. *)
Notation d_sda := (mkDisk "aio" None (Some SDA_URI)).
Notation d_crypto_p := (mkDisk "crypto" (Some SDA) None).

Lemma disks_layout s : disks s =
  match pools s with Bare => ∅ | OnDisk _ => {[SDA := d_sda]} | OnCrypto _ => {[SDA := d_sda; CRYPTO := d_crypto_p]} end.
Proof. unfold disks. simpl. unfold s_bdevs. by destruct (pools s). Qed.

Lemma store_one s st i : s_stores s !! st = Some i → st = 1%nat ∧ store_name i = "p"%string.
Proof.
  unfold s_stores. destruct (pools s) as [|[]|[]]; rewrite ?lookup_empty, ?lookup_singleton_Some; try done; by intros [<- <-].
Qed.

Lemma import_sample b s s' a :
  s_import b s = (s', a) →
  disks s' = disks s ∧ match a with inr (inl st) => ∃ i, stored s s' st i ∧ base_of i = Some b | _ => stores s' = stores s end.
Proof.
  unfold s_import, free_top. rewrite !disks_layout.
  destruct (pools s) as [|[]|[]] eqn:Hp; try (intros; simplify_eq; by rewrite Hp).
  all: case_bool_decide as Hb; simpl; [destruct (image s)|]; intros; simplify_eq; simpl; rewrite ?Hp; try done.
  all: split; [done|]; eexists; unfold stored; simpl; unfold s_stores; simpl; rewrite Hp; split; [split|]; done.
Qed.

Lemma create_sample b n u cs ratio s s' a :
  s_create b n u cs ratio s = (s', a) →
  disks s' = disks s ∧
  match a with
  | inr (inl st) => ∃ i, stored s s' st i ∧ base_of i = Some b ∧ store_name i = n ∧ ∀ u', u = Some u' → parse u' = Some (store_uuid i)
  | _ => stores s' = stores s
  end.
Proof.
  unfold s_create, free_top. rewrite !disks_layout.
  destruct (pools s) as [|[]|[]] eqn:Hp; try (intros; simplify_eq; by rewrite Hp).
  all: case_bool_decide as Hb; simpl; [case_bool_decide as Hn; simpl; [destruct (match u with Some _ => _ | None => _ end) eqn:Hu|]|];
    intros; simplify_eq; simpl; rewrite ?Hp; try done.
  all: split; [done|]; eexists; unfold stored; simpl; unfold s_stores; simpl; rewrite Hp; split_and!; [done|done|done|done|].
  all: intros u' ->; by apply bool_decide_eq_true in Hu.
Qed.

Lemma unload_sample st s s' rc :
  s_unload st s = (s', rc) → disks s' = disks s ∧ (stores s' = delete st (stores s) ∨ rc ≠ 0 ∧ stores s' = stores s).
Proof.
  unfold s_unload. rewrite !disks_layout. destruct (Nat.eqb_spec st 1) as [->|Hst]; intros; simplify_eq; simpl; [|split; [done|by right]].
  split; [by destruct (pools s)|left]. unfold s_stores. simpl. by destruct (pools s) as [|[]|[]].
Qed.

Lemma bdev_create_sample u n s s' r :
  s_parse u = Ok n → s_bdev_create u s = (s', r) →
  stores s' = stores s ∧
  match r with
  | Ok n' => n' = n ∧ ∃ drv uri, drv ≠ "crypto"%string ∧ disks s' = <[n := mkDisk drv None uri]> (disks s)
  | _ => disks s' = disks s
  end.
Proof.
  unfold s_parse, s_bdev_create. case_bool_decide; [|done]. intros [= <-]. rewrite !disks_layout.
  destruct (pools s) eqn:Hp; intros; simplify_eq; simpl; unfold s_stores; simpl; rewrite ?Hp; try done.
  split; [done|]. split; [done|]. exists "aio"%string, (Some SDA_URI). done.
Qed.

Lemma bdev_destroy_sample u n s s' r :
  s_parse u = Ok n → unused n s → s_bdev_destroy u s = (s', r) →
  stores s' = stores s ∧ disks s' = delete n (disks s).
Proof.
  unfold s_parse, s_bdev_destroy. case_bool_decide; [|done]. intros [= <-] [Hst Hcr]. rewrite !disks_layout in *.
  specialize (Hst 1%nat). unfold store_base in Hst. simpl in Hst. unfold s_stores in *. simpl.
  destruct (pools s) as [|[]|b] eqn:Hp; intros; simplify_eq; simpl in *; unfold s_stores; simpl; rewrite ?Hp; try done.
  exfalso. eapply (Hcr CRYPTO d_crypto_p); [|done]. done.
Qed.

Lemma crypto_create_sample c b k s s' r :
  s_crypto_create c b k s = (s', r) →
  stores s' = stores s ∧ match r with Ok _ => ∃ uri, disks s' = <[c := mkDisk "crypto" (Some b) uri]> (disks s) | _ => disks s' = disks s end.
Proof.
  unfold s_crypto_create. rewrite !disks_layout. simpl. unfold s_stores.
  destruct (pools s) as [|[]|[]] eqn:Hp; try (intros; simplify_eq; simpl; by rewrite Hp).
  case_bool_decide; simpl; [case_bool_decide; simpl|]; intros; simplify_eq; simpl; rewrite ?Hp; try done. split; [done|]. by exists None.
Qed.

Lemma crypto_destroy_sample c k s s' r :
  unused c s → s_crypto_destroy c k s = (s', r) →
  stores s' = stores s ∧ (disks s' = delete c (disks s) ∨ r ≠ Ok tt ∧ disks s' = disks s) ∧
  (∀ d, disks s !! c = Some d → d_driver d = "crypto"%string → disks s' = delete c (disks s)).
Proof.
  intros [Hst _]. specialize (Hst 1%nat). unfold store_base in Hst. simpl in Hst. unfold s_stores in *. unfold s_crypto_destroy. rewrite !disks_layout. simpl. unfold s_stores.
  destruct (pools s) as [|x|x] eqn:Hp.
  - intros; simplify_eq. rewrite Hp. split_and!; [done|by right|done].
  - intros; simplify_eq. rewrite Hp. split_and!; [done|by right|]. intros d Hd Hdrv. apply lookup_singleton_Some in Hd as [<- <-]. done.
  - case_bool_decide as Hc; intros; simplify_eq; simpl; rewrite ?Hp.
    + destruct x; [done|]. split_and!; [done|by left|done].
    + split_and!; [done|by right|]. intros d Hd Hdrv. destruct (decide (c = SDA)) as [->|Hne]; [|].
      * exfalso. revert Hdrv. rewrite lookup_insert_eq in Hd. by simplify_eq.
      * rewrite lookup_insert_ne, lookup_singleton_ne in Hd by congruence. done.
Qed.

#[export] Instance sample_pool_laws : PoolLaws.
Proof.
  split.
  - apply sample_call.
  - done.
  - intros s n st. simpl. split.
    + case_bool_decide as Hn; [|done]. case_bool_decide as Hs; [|done]. simpl. intros [= <-]. destruct Hs as [i Hi]. exists i. split; [done|]. subst.
      by apply (store_one s 1).
    + intros (i & Hi & <-). destruct (store_one s st i Hi) as [-> ->]. rewrite !bool_decide_eq_true_2 by eauto. done.
  - intros s st b. unfold store_base. rewrite disks_layout. simpl. unfold s_stores. destruct (pools s) as [|[]|[]]; try done;
      (destruct (decide (st = 1%nat)) as [->|Hne]; [|by rewrite lookup_singleton_ne by congruence]); rewrite lookup_singleton_eq; intros [= <-]; by eexists.
  - intros s c d b. rewrite disks_layout. destruct (pools s) as [|x|x]; [done| |].
    + intros Hd. apply lookup_singleton_Some in Hd as [<- <-]. done.
    + intros Hd. destruct (decide (c = SDA)) as [->|Hne]; [rewrite lookup_insert_eq in Hd; simplify_eq; done|].
      rewrite lookup_insert_ne in Hd by congruence. apply lookup_singleton_Some in Hd as [<- <-]. intros [= <-]. by eexists.
  - intros s n b u. simpl. unfold s_bdevs, s_parse. destruct (pools s) as [|x|x]; [done| |].
    + intros Hd. apply lookup_singleton_Some in Hd as [<- <-]. intros [= <-]. done.
    + intros Hd. destruct (decide (n = SDA)) as [->|Hne]; [rewrite lookup_insert_eq in Hd; simplify_eq; intros [= <-]; done|].
      rewrite lookup_insert_ne in Hd by congruence. apply lookup_singleton_Some in Hd as [<- <-]. done.
  - apply import_sample.
  - apply create_sample.
  - intros st o s s' a. simpl. unfold s_lvol_create. destruct (add_lvol _ _ _ _ _) as [[l s1]|] eqn:Ha; intros; simplify_eq; [|done].
    split; [by eapply add_lvol_pools|]. destruct (add_lvol_law _ _ _ _ _ _ _ Ha) as (Hn & _ & c & Hc & Hl). split; [done|].
    eexists. split_and!; [exact Hl|done|done| |done]. intros u Hu. rewrite Hu in Hc. done.
  - apply unload_sample.
  - apply unload_sample.
  - intros st t s s' rc [= <- <-]. split_and!; [done|done|]. intros st'. simpl. destruct (Nat.eqb_spec st' st) as [->|Hne].
    + by rewrite lookup_insert_eq.
    + by rewrite lookup_insert_ne.
  - apply bdev_create_sample.
  - intros u n s s' r Hp Hu Hd. destruct (bdev_destroy_sample u n s s' r Hp Hu Hd). auto.
  - apply crypto_create_sample.
  - intros c k s s' r Hu Hd. destruct (crypto_destroy_sample c k s s' r Hu Hd) as (? & ? & _). auto.
Qed.

#[export] Instance sample_stall_laws : StallLaws.
Proof.
  split.
  - intros s st i Hi. destruct (store_one s st i Hi) as [_ ->]. done.
  - done.
  - intros st s s' rc [= <- <-]. done.
  - done.
Qed.

Lemma sample_cleanup : cleanup_works.
Proof.
  split_and!.
  - intros u n s Hp Hu. destruct (bdev_destroy u s) as [s' r] eqn:Hd. by destruct (bdev_destroy_sample u n s s' r Hp Hu Hd).
  - intros c k s d Hd Hdrv Hu. destruct (crypto_destroy c k s) as [s' r] eqn:Hc. destruct (crypto_destroy_sample c k s s' r Hu Hc) as (_ & _ & H). by eapply H.
  - intros st s. simpl. unfold s_unload. destruct (Nat.eqb_spec st 1) as [->|Hst]; simpl; unfold s_stores; simpl.
    + by destruct (pools s) as [|[]|[]].
    + destruct (pools s) as [|[]|[]]; rewrite ?delete_empty, ?delete_singleton_ne by congruence; done.
Qed.

(** ** The theorems, applied *)

Definition no_lvols : vmap := mkVmap ∅ (map_Forall_empty _).

Definition start : @spdk sample_spdk := mkSample no_lvols ∅ ∅ Bare false ∅ [] [].

Notation REPLICA := "22222222-2222-2222-2222-222222222222"%string.
Notation SNAPSHOT := "aaaaaaaa-3333-3333-3333-333333333333"%string.
Notation SNAPSHOT_UPPER := "AAAAAAAA-3333-3333-3333-333333333333"%string.
Notation CLONE := "44444444-4444-4444-4444-444444444444"%string.

(** A pool with a replica. *)
Definition replica_info : lvol_info := mkInfo 1 "r" REPLICA ∅.
Definition one_replica : @spdk sample_spdk :=
  mkSample (default no_lvols (checked {[7%nat := replica_info]})) ∅ ∅ (OnDisk true) true {[1%nat := 30]} [] [].

Lemma run_eq {S E A} (m : ST S E A) s r : snd (m s) = r → m s = (fst (m s), r).
Proof. intros <-. by destruct (m s). Qed.

Lemma one_replica_info : lvols one_replica !! 7%nat = Some replica_info.
Proof. vm_compute. reflexivity. Qed.

Lemma replica_terminated : terminated replica_info.
Proof. intros p v Hv. by destruct p. Qed.

Definition hosts : PropValue := AllowedHosts ["nqn.b"; "nqn.a"]%string.

Lemma property_round_trip_witness :
  ∃ p', get 7 PnAllowedHosts (fst (set 7 hosts one_replica)) = (fst (set 7 hosts one_replica), Ok p') ∧ same_prop p' hosts.
Proof.
  destruct (property_round_trip 7 hosts one_replica (fst (set 7 hosts one_replica)) (Ok tt) replica_info one_replica_info
    ltac:(vm_compute; reflexivity) replica_terminated) as (_ & _ & i' & _ & _ & _ & Hok).
  - split_and!; [done| |done]. repeat constructor; done.
  - apply run_eq. vm_compute. reflexivity.
  - apply (Hok eq_refl).
Defined.

Definition snapshot_params : SnapshotParams :=
  default no_params (prepare "2024-01-01 00:00:00 UTC" "snap" "entity" "txn" SNAPSHOT REPLICA).

Lemma snapshot_round_trip_witness :
  ∃ si d, is_snapshot si = true ∧ snap_param d = snapshot_params ∧ source_uuid d = REPLICA ∧
    ∃ sn, (sn, d) ∈ list_all_snapshots None (fst (create_snapshot 7 snapshot_params one_replica)).
Proof.
  destruct (snapshot_round_trip 7 replica_info "2024-01-01 00:00:00 UTC" "snap" "entity" "txn" SNAPSHOT snapshot_params one_replica
    (fst (create_snapshot 7 snapshot_params one_replica)) (fresh ({[7%nat]} : gset nat)) one_replica_info)
    as (si & d & _ & _ & Hs & _ & _ & _ & Hp & Hu & _ & Hin & _).
  - vm_compute. reflexivity.
  - done.
  - done.
  - done.
  - done.
  - apply run_eq. vm_compute. reflexivity.
  - eauto 10.
Defined.

(** Creating an encrypted pool on a disk. *)
Definition pool_args_p : PoolArgs := mkPoolArgs "p" [SDA_URI] (Some POOL_UUID) None (Some "key"%string) (Some CRYPTO).
Definition pool_env : PoolEnv := mkPoolEnv 30 5.
Definition world (s : @spdk sample_spdk) : World := mkWorld s ∅ [].

Lemma pool_created_witness :
  pool_there pool_env (world start) (fst (create_or_import pool_env 0 (λ _, Ok 100) pool_args_p (world start))) pool_args_p 1.
Proof.
  apply (pool_created pool_env 0 (λ _, Ok 100) pool_args_p). left. apply run_eq. vm_compute. reflexivity.
Defined.

(** The metadata parameters are refused after both bdevs were created. *)
Lemma failed_pool_leaves_nothing_witness :
  disks (sp (fst (create_or_import pool_env 0 (λ _, Err MaxExpansionParse) pool_args_p (world start)))) = disks start.
Proof.
  apply (failed_pool_leaves_nothing pool_env 0 (λ _, Err MaxExpansionParse) pool_args_p SDA_URI SDA (world start) _ MaxExpansionParse).
  - done.
  - done.
  - done.
  - intros c [= <-]. done.
  - apply sample_cleanup.
  - left. apply run_eq. vm_compute. reflexivity.
Defined.

(** I/O stalls on the pool. *)
Definition watched_world : World := mkWorld one_replica {["p"%string := mkPoolInfo false []]} [].

Lemma stall_detection_healthy_witness : healthy pool_env (fst (lvstore_timeout_cb (E := LvsError) 1 watched_world)).
Proof.
  apply (stall_detection_healthy pool_env watched_world).
  - done.
  - done.
  - split.
    + intros st i p Hi _ _. destruct (store_one one_replica st i Hi) as [-> _]. done.
    + intros st i p _ Hp Hst. simpl in Hp. apply lookup_singleton_Some in Hp as [_ <-]. done.
    + intros n p Hp. simpl in Hp. apply lookup_singleton_Some in Hp as [_ <-]. done.
  - apply rtc_once, step_timeout. by eexists.
Defined.

Definition replica_args : ReplicaArgs := mkReplicaArgs "r2" (2^24) CLONE true (Some "entity"%string) None true.

Lemma replica_created_witness :
  let w' := fst (create_lvol_with_opts 1 replica_args (world one_replica)) in
  fresh_replica 1 replica_args (world one_replica) (fresh ({[7%nat]} : gset nat)) (sp w') ∧
  has_entity "entity" (fresh ({[7%nat]} : gset nat)) (sp w').
Proof.
  cbv zeta. destruct (replica_created 1 replica_args (world one_replica)
    (fst (create_lvol_with_opts 1 replica_args (world one_replica))) (Ok (fresh ({[7%nat]} : gset nat)))) as [H1 H2].
  - apply run_eq. vm_compute. reflexivity.
  - split; [exact H1|]. by apply H2.
Defined.

(** A snapshot, a clone of it, and both deleted, the snapshot first. *)
Definition free (_ : string) : bool := false.
Definition no_ptpl_error (_ : nat) : option string := None.
Notation NOW := "2024-01-01 00:00:00 UTC"%string.

Definition snapshot_and_clone (su : string) : list request :=
  [CreateReplicaSnapshot NOW (mkCreateSnapshot REPLICA SNAPSHOT "snap" "entity" "txn"); CreateSnapshotClone NOW su "clone" CLONE].

Definition life_of_clone : list request :=
  snapshot_and_clone SNAPSHOT ++ [DestroySnapshot SNAPSHOT None; DestroyReplica CLONE None].

Lemma one_replica_sound : sound one_replica ∧ tidy one_replica.
Proof.
  assert (H : ∀ l i, lvols one_replica !! l = Some i → i = replica_info).
  { intros l i Hi. destruct (decide (l = 7%nat)) as [->|Hne]; [rewrite one_replica_info in Hi; congruence|].
    assert (He : lvols one_replica = {[7%nat := replica_info]}) by (vm_compute; reflexivity). rewrite He, lookup_singleton_ne in Hi by congruence. done. }
  split; [split|].
  - intros c ci u Hc. rewrite (H c ci Hc). done.
  - intros l i Hi. by rewrite (H l i Hi).
  - intros sn si Hsn. by rewrite (H sn si Hsn).
Qed.

Lemma clones_keep_their_snapshot_witness :
  let w' := fst (serve_all free no_ptpl_error life_of_clone (world one_replica)) in
  sound (sp w') ∧ tidy (sp w') ∧ lvols (sp w') = lvols one_replica.
Proof.
  destruct (clones_keep_their_snapshot free no_ptpl_error life_of_clone (world one_replica)
    (fst (serve_all free no_ptpl_error life_of_clone (world one_replica))) true) as [Hs Ht].
  - unfold life_of_clone. repeat constructor; simpl; try done. intros u Hu. vm_compute in Hu. by simplify_eq.
  - apply one_replica_sound.
  - rewrite (surjective_pairing (serve_all _ _ _ _)) at 1. f_equal.
  - split_and!; [exact Hs|apply Ht; [done|apply one_replica_sound]|]. vm_compute. reflexivity.
Defined.

(** When the clone is requested by the uuid of the snapshot in upper case, the
    snapshot is found, but the clone is not counted as one of its clones: the
    snapshot is destroyed while the clone exists. *)
Lemma orphaned_clone :
  let '(w', ok) := serve_all free no_ptpl_error (snapshot_and_clone SNAPSHOT_UPPER ++ [DestroySnapshot SNAPSHOT None]) (world one_replica) in
  ok = true ∧ find_uuid (lvols (sp w')) (λ _, true) SNAPSHOT = None ∧
  match find_uuid (lvols (sp w')) (λ _, true) CLONE with Some c => blob_parent (sp w') c ≠ None | None => False end.
Proof. vm_compute. by split_and!. Qed.

End LvsSample.
