(* ===== verification/NexusPersist.v ===== *)
(** * The persisted state of a nexus

    [bdev/nexus/nexus_persistence.rs] with the part of [persistent_store.rs]
    and [store/etcd.rs] it calls, and the retirement of a child's record
    ([child_retire_persist] in [bdev/nexus/nexus_bdev_children.rs]).  The etcd
    server and the JSON encoding are interfaces. *)

From S2P Require Import Prelude Errors NexusChild NexusIo NexusErrors.
Import NexusErr.

(** ** etcd

    [et_get] is the content of the store.  [et_put] and [et_txn] are the calls
    of the client library; [et_sleep] is what other clients do while the nexus
    sleeps between two attempts. *)

Class Etcd (S V : Type) := {
  et_get : S → string → option V;
  et_put : string → V → ST S StoreError unit;
  et_txn : string → V → V → ST S StoreError (bool * option (list V));
  et_sleep : S → S;
}.

(** A put that succeeds has stored the value; one that fails may have.  A
    transaction compares and puts atomically; if the comparison fails it
    answers with the value of the key, if there is one. *)
Class EtcdLaws (S V : Type) `{!Etcd S V} : Prop := {
  et_put_ok k v s s' : et_put k v s = (s', Ok tt) → et_get s' k = Some v;
  et_put_total k v s s' : et_put k v s ≠ (s', Panicked);
  et_txn_ok k old v s s' r :
    et_txn k old v s = (s', Ok (true, r)) → et_get s k = Some old ∧ et_get s' k = Some v;
  et_txn_no k old v s s' r :
    et_txn k old v s = (s', Ok (false, r)) →
    et_get s k ≠ Some old ∧ et_get s' k = et_get s k ∧ r = Some (option_list (et_get s k));
  et_txn_err k old v s s' e :
    et_txn k old v s = (s', Err e) →
    et_get s' k = et_get s k ∨ et_get s k = Some old ∧ et_get s' k = Some v;
  et_txn_total k old v s s' : et_txn k old v s ≠ (s', Panicked);
}.

Module Persist.

Record ChildInfo := mkChildInfo { uuid : string; healthy : bool }.

#[global] Instance ChildInfo_eq_dec : EqDecision ChildInfo.
Proof. solve_decision. Defined.

Record NexusInfo := mkNexusInfo {
  clean_shutdown : bool;
  do_self_shutdown : bool;
  children : list ChildInfo;
  shared : option bool;
}.

#[global] Instance NexusInfo_eq_dec : EqDecision NexusInfo.
Proof. solve_decision. Defined.

Definition info_default : NexusInfo := mkNexusInfo false false [] None.

Definition is_shared (i : NexusInfo) : bool := default true (shared i).

Definition set_clean_shutdown (b : bool) (i : NexusInfo) : NexusInfo :=
  mkNexusInfo b (do_self_shutdown i) (children i) (shared i).
Definition set_do_self_shutdown (b : bool) (i : NexusInfo) : NexusInfo :=
  mkNexusInfo (clean_shutdown i) b (children i) (shared i).
Definition set_info_children (cs : list ChildInfo) (i : NexusInfo) : NexusInfo :=
  mkNexusInfo (clean_shutdown i) (do_self_shutdown i) cs (shared i).
Definition set_shared (s : option bool) (i : NexusInfo) : NexusInfo :=
  mkNexusInfo (clean_shutdown i) (do_self_shutdown i) (children i) s.

Inductive PersistOp :=
| Create
| AddChild (child_uri : string) (h : bool)
| RemoveChild (child_uri : string)
| Update (child_uri : string) (h : bool)
| UpdateCond (child_uri : string) (h : bool) (predicate : NexusInfo → bool)
| Shutdown
| SetShared (sh : bool).


(** The JSON encoding of [NexusInfo] and its decoding. *)
Class Json (V : Type) := {
  json_eq : EqDecision V;
  to_json : NexusInfo → V;
  from_json : V → option NexusInfo;
}.
#[global] Existing Instance json_eq.

Class JsonLaws (V : Type) `{!Json V} : Prop := from_to_json i : from_json (to_json i) = Some i.

(** The nexus as far as it is persisted: its I/O mode on all channels, whether
    it asked for its own shutdown, and the store. *)
Record World (S : Type) := mkWorld {
  nexus_info : NexusInfo;
  io_mode : Nx.IoMode;
  self_shutdown : bool;
  store : S;
}.
Arguments mkWorld {S}.
Arguments nexus_info {S}.
Arguments io_mode {S}.
Arguments self_shutdown {S}.
Arguments store {S}.

Section Persist.
Context {S V : Type} `{!Etcd S V, !Json V}.
(** [PersistentStore::enabled], [PersistentStore::retries], the key, and
    [NexusChild::uuid]. *)
Variable enabled : bool.
Variable retries : Z.
Variable key : string.
Variable uuid_of : string → option string.

Local Abbreviation W := (World S).
Local Abbreviation M := (ST W Error).

Definition set_info (i : NexusInfo) (w : W) : W := mkWorld i (io_mode w) (self_shutdown w) (store w).
Definition set_nexus_io_mode (m : Nx.IoMode) (w : W) : W :=
  mkWorld (nexus_info w) m (self_shutdown w) (store w).
Definition try_self_shutdown (w : W) : W := mkWorld (nexus_info w) (io_mode w) true (store w).
Definition set_store (s : S) (w : W) : W := mkWorld (nexus_info w) (io_mode w) (self_shutdown w) s.

(** [Etcd::put_kv_cas] *)
Definition put_kv_cas (new_value expected_value : V) : ST S StoreError (option V) := λ s,
  match et_txn key expected_value new_value s with
  | (s, Ok (succeeded, resp)) =>
      (s, if negb succeeded then
            match resp with
            | Some (v :: _) => Ok (Some v)
            | Some [] => Ok None
            | None => Err Txn
            end
          else Ok None)
  | (s, Err e) => (s, Err e)
  | (s, Panicked) => (s, Panicked)
  end.

(** The number of attempts: the counter is a [u16] that is decremented before
    it is compared to zero. *)
Definition tries : nat := Z.to_nat (if retries =? 0 then 2^16 else retries).

(** [Nexus::save] *)
Fixpoint save_loop (more : nat) (i : NexusInfo) : ST S Error unit :=
  match more with
  | O => λ s, (s, Panicked)
  | Datatypes.S more => λ s,
      match et_put key (to_json i) s with
      | (s, Ok _) => (s, Ok tt)
      | (s, Err e) =>
          match more with
          | O => (s, Err (SaveStateFailed e))
          | _ => save_loop more i (et_sleep s)
          end
      | (s, Panicked) => (s, Panicked)
      end
  end.

Definition save (i : NexusInfo) : ST S Error unit := save_loop tries i.

(** [Nexus::save_txn]; besides the result it returns the [do_self_shutdown]
    marker that is to be copied from the store. *)
Fixpoint save_txn_loop (more : nat) (new_value expected_value : V)
    : ST S Error (option bool * outcome Error unit) :=
  match more with
  | O => λ s, (s, Panicked)
  | Datatypes.S more => λ s,
      match put_kv_cas new_value expected_value s with
      | (s, Ok (Some current_value)) =>
          match from_json current_value with
          | None => (s, Panicked)
          | Some val =>
              if bool_decide (current_value = new_value) then (s, Ok (None, Ok tt))
              else (s, Ok (Some (do_self_shutdown val), Err (SaveStateFailed Txn)))
          end
      | (s, Ok None) => (s, Ok (None, Ok tt))
      | (s, Err e) =>
          match more with
          | O => (s, Ok (None, Err (SaveStateFailed e)))
          | _ => save_txn_loop more new_value expected_value (et_sleep s)
          end
      | (s, Panicked) => (s, Panicked)
      end
  end.

Definition save_txn (new_info expected : NexusInfo) : M unit := λ w,
  match save_txn_loop tries (to_json new_info) (to_json expected) (store w) with
  | (s, Ok (marker, r)) =>
      let w := set_store s w in
      (match marker with
       | Some b => set_info (set_do_self_shutdown b (nexus_info w)) w
       | None => w
       end, r)
  | (s, Err e) => (set_store s w, Err e)
  | (s, Panicked) => (set_store s w, Panicked)
  end.

Definition update_child (u : string) (h : bool) (cs : list ChildInfo) : list ChildInfo :=
  (λ c, if bool_decide (uuid c = u) then mkChildInfo (uuid c) h else c) <$> cs.

(** Update in place, or add at the end. *)
Definition put_child (ci : ChildInfo) (cs : list ChildInfo) : list ChildInfo :=
  match list_find (λ r, uuid r = uuid ci) cs with
  | Some (idx, _) => <[idx := ci]> cs
  | None => cs ++ [ci]
  end.

(** The children of the nexus, given by URI and health. *)
Fixpoint child_infos (kids : list (string * bool)) : outcome Error (list ChildInfo) :=
  match kids with
  | [] => Ok []
  | (uri, h) :: kids =>
      u ← of_option (uuid_of uri);
      cs ← child_infos kids;
      Ok (mkChildInfo u h :: cs)
  end.

(** What an operation does to the information in memory. *)
Definition apply_op (kids : list (string * bool)) (op : PersistOp) (i : NexusInfo)
    : outcome Error NexusInfo :=
  match op with
  | Create =>
      _ ← assert (match children i with [] => true | _ => false end);
      _ ← assert (negb (clean_shutdown i));
      _ ← assert (negb (do_self_shutdown i));
      cs ← child_infos kids;
      Ok (set_info_children cs i)
  | AddChild uri h =>
      u ← of_option (uuid_of uri);
      Ok (set_info_children (put_child (mkChildInfo u h) (children i)) i)
  | RemoveChild uri =>
      u ← of_option (uuid_of uri);
      Ok (set_info_children (filter (λ c, uuid c ≠ u) (children i)) i)
  | Update uri h | UpdateCond uri h _ =>
      u ← of_option (uuid_of uri);
      Ok (set_info_children (update_child u h (children i)) i)
  | Shutdown => Ok (set_clean_shutdown true i)
  | SetShared sh => Ok (set_shared (Some sh) i)
  end.

Definition only_child_unhealthy (i : NexusInfo) : bool :=
  match children i with [c] => negb (healthy c) | _ => false end.

(** The end of [persist] for all operations but [UpdateCond]. *)
Definition save_and_resume (op : PersistOp) : M unit := λ w,
  match save (nexus_info w) (store w) with
  | (s, Ok _) => (set_nexus_io_mode Nx.Normal (set_store s w), Ok tt)
  | (s, Err e) =>
      let w := set_store s w in
      (match op with Shutdown => w | _ => try_self_shutdown w end, Err e)
  | (s, Panicked) => (set_store s w, Panicked)
  end.

Definition persist (kids : list (string * bool)) (op : PersistOp) : M unit := λ w,
  if negb enabled then (w, Ok tt)
  else
    let w := set_nexus_io_mode Nx.Freeze w in
    match op with
    | UpdateCond _ _ predicate =>
        if negb (predicate (nexus_info w)) then (set_nexus_io_mode Nx.Normal w, Ok tt)
        else
          match apply_op kids op (nexus_info w) with
          | Ok i =>
              match save_txn i (nexus_info w) (set_info i w) with
              | (w, Ok _) => (set_nexus_io_mode Nx.Normal w, Ok tt)
              | (w, Err e) => (try_self_shutdown w, Err e)
              | (w, Panicked) => (w, Panicked)
              end
          | Err e => (w, Err e)
          | Panicked => (w, Panicked)
          end
    | _ =>
        match apply_op kids op (nexus_info w) with
        | Ok i =>
            match op with
            | Create =>
                if only_child_unhealthy i then (set_info i w, Err NexusCreate)
                else save_and_resume op (set_info (set_shared (Some false) (set_clean_shutdown false i)) w)
            | _ => save_and_resume op (set_info i w)
            end
        | Err e => (w, Err e)
        | Panicked => (w, Panicked)
        end
    end.

(** [child_retire_persist]: the child's URI and health, if the device is that of
    a child. *)
Definition num_healthy (i : NexusInfo) : nat := length (filter (λ c, healthy c = true) (children i)).

Definition retire_predicate (i : NexusInfo) : bool :=
  match num_healthy i with O | Datatypes.S O => false | _ => true end.

Definition child_retire_persist (kids : list (string * bool)) (child : option (string * bool)) : M unit :=
  match child with
  | None => mret tt
  | Some (uri, h) => persist kids (UpdateCond uri h retire_predicate)
  end.

End Persist.
End Persist.

(** ** Properties *)

Module PersistProps.
Import Persist.

Section PersistProps.
Context {S V : Type} `{!Etcd S V, !EtcdLaws S V, !Json V, !JsonLaws V}.
Variables (retries : Z) (key : string) (uuid_of : string → option string).
Implicit Types (s : S) (w : World S) (i : NexusInfo).

Local Abbreviation save_loop := (save_loop key).
Local Abbreviation save_txn_loop := (save_txn_loop key).
Local Abbreviation persist := (persist true retries key uuid_of).

(** The number of uuids is not changed by an update, and so on: the records of
    the children have distinct uuids. *)
Definition distinct i : Prop := NoDup (uuid <$> children i).

Lemma save_loop_spec n i s s' r :
  save_loop (Datatypes.S n) i s = (s', r) →
  r ≠ Panicked ∧ (r = Ok tt → et_get s' key = Some (to_json i)).
Proof.
  revert s. induction n as [|n IH]; intros s; cbn [Persist.save_loop].
  all: destruct (et_put key (to_json i) s) as [s1 [[]|e|]] eqn:E;
    [|..|by destruct (et_put_total _ _ _ _ E)].
  all: try (intros [= <- <-]; split; [done|]; intros _; by eapply et_put_ok).
  - intros [= <- <-]. done.
  - apply IH.
Qed.

Lemma tries_pos : 0 ≤ retries → ∃ n, tries retries = Datatypes.S n.
Proof.
  intros Hr. unfold tries. set (x := if retries =? 0 then 2^16 else retries).
  assert (0 < x) by (unfold x; destruct (Z.eqb_spec retries 0); lia).
  exists (Z.to_nat (x - 1)). lia.
Qed.

(** A transaction that reports success has stored the new value, as long as
    the key is in the store. *)
Lemma save_txn_loop_ok n new old s s' m :
  save_txn_loop n new old s = (s', Ok (m, Ok tt)) → m = None ∧ (et_get s' key = Some new ∨ et_get s' key = None).
Proof.
  revert s. induction n as [|n IH]; intros s; cbn [Persist.save_txn_loop]; [done|].
  unfold put_kv_cas. destruct (et_txn key old new s) as [s1 [[[] resp]|e|]] eqn:E; simpl.
  - intros [= <- <-]. split; [done|]. left. by eapply et_txn_ok.
  - destruct (et_txn_no _ _ _ _ _ _ E) as (Hne & Hs1 & ->). rewrite <- Hs1.
    destruct (et_get s1 key) as [v|] eqn:Hv; simpl; [|intros [= <- <-]; by auto].
    destruct (from_json v) as [val|]; [|done]. case_bool_decide as Hc; [|done].
    intros [= <- <-]. split; [done|]. left. by rewrite Hv, Hc.
  - destruct n as [|n]; [done|]. apply IH.
  - by destruct (et_txn_total _ _ _ _ _ E).
Qed.

(** A value that is neither the expected nor the new one stays. *)
Lemma save_txn_loop_foreign n new old s s' o v val :
  (∀ s, et_get (et_sleep s) key = et_get s key) → et_get s key = Some v → from_json v = Some val →
  v ≠ old → v ≠ new → save_txn_loop (Datatypes.S n) new old s = (s', o) →
  et_get s' key = Some v ∧ ∃ m e, o = Ok (m, Err (SaveStateFailed e)).
Proof.
  intros Hsleep Hv Hval Hold Hnew. revert s Hv.
  induction n as [|n IH]; intros s Hv; cbn [Persist.save_txn_loop]; unfold put_kv_cas.
  all: destruct (et_txn key old new s) as [s1 [[[] resp]|e|]] eqn:E; simpl;
    [by destruct (et_txn_ok _ _ _ _ _ _ E); congruence| | |by destruct (et_txn_total _ _ _ _ _ E)].
  all: try (destruct (et_txn_no _ _ _ _ _ _ E) as (_ & Hs1 & ->); rewrite Hv in *; simpl;
    rewrite Hval, bool_decide_false by done; intros [= <- <-]; split; [done|by eauto]).
  all: destruct (et_txn_err _ _ _ _ _ _ E) as [Hs1|[? _]]; [|congruence].
  - intros [= <- <-]. split; [by rewrite Hs1|by eauto].
  - apply IH. by rewrite Hsleep, Hs1.
Qed.

Lemma save_and_resume_spec op w w' r :
  0 ≤ retries → save_and_resume retries key op w = (w', r) →
  r ≠ Panicked ∧ nexus_info w' = nexus_info w ∧
  (r = Ok tt → io_mode w' = Nx.Normal ∧ et_get (store w') key = Some (to_json (nexus_info w))) ∧
  (∀ e, r = Err e → io_mode w' = io_mode w ∧ (op ≠ Shutdown → self_shutdown w' = true)).
Proof.
  intros Hr. unfold save_and_resume, save. destruct (tries_pos Hr) as [n ->].
  destruct (save_loop (Datatypes.S n) (nexus_info w) (store w)) as [s1 o] eqn:E.
  destruct (save_loop_spec _ _ _ _ _ E) as [Hp Hok].
  destruct o as [[]|e|]; [| |done]; intros [= <- <-].
  - split_and!; try done. intros _. split; [done|by apply Hok].
  - split; [done|]. split; [by destruct op|]. split; [done|].
    intros e' _. split; [by destruct op|]. by destruct op.
Qed.

(** C12. When [persist] reports success, I/O flows again, and the information in
    memory is what the store holds under the key of the nexus.  There are two
    exceptions, both for a conditional update: nothing was to be persisted because
    the condition did not hold, or the store has no value under the key, which the
    transaction does not tell from success. *)
Theorem persist_ok_is_stored (kids : list (string * bool)) (op : PersistOp) (w w' : World S) :
  0 ≤ retries → persist kids op w = (w', Ok tt) →
  io_mode w' = Nx.Normal ∧
  (et_get (store w') key = Some (to_json (nexus_info w')) ∨
   ∃ uri h p, op = UpdateCond uri h p ∧
     (p (nexus_info w) = false ∧ nexus_info w' = nexus_info w ∨ et_get (store w') key = None)).
Proof.
  intros Hr. unfold Persist.persist. simpl.
  assert (Hsave : ∀ op w1, save_and_resume retries key op w1 = (w', Ok tt) →
    io_mode w' = Nx.Normal ∧ et_get (store w') key = Some (to_json (nexus_info w'))).
  { intros op1 w1 E. destruct (save_and_resume_spec _ _ _ _ Hr E) as (_ & -> & H & _). auto. }
  destruct op as [|uri h|uri|uri h|uri h p| |sh].
  5:{ destruct (p (nexus_info w)) eqn:Hp; simpl.
      2:{ intros [= <-]. split; [done|]. right. by eauto 10. }
      destruct (uuid_of uri) as [u|]; [|done]. simpl. unfold save_txn.
      match goal with |- context [save_txn_loop ?n ?a ?b ?s] =>
        destruct (save_txn_loop n a b s) as [s1 [[m r]|e|]] eqn:E end; try done.
      destruct r as [[]|e|]; [| |done]; [|by destruct m].
      destruct (save_txn_loop_ok _ _ _ _ _ _ E) as [-> Hs].
      intros [= <-]. split; [done|]. destruct Hs as [Hs|Hs]; [by left|]. right. by eauto 10. }
  all: match goal with |- context [apply_op ?a ?b ?c ?d] => destruct (apply_op a b c d) as [i1|e1|] end;
    try done; try (intros E; destruct (Hsave _ _ E); by auto).
  destruct (only_child_unhealthy i1); [done|]. intros E. destruct (Hsave _ _ E). by auto.
Qed.

(** C13. When [persist] fails, the nexus is on its way to shut itself down and
    its I/Os stay frozen, so none is acknowledged on the strength of a state
    that is not in the store; only a nexus that is being created or destroyed
    is left to its caller. *)
Theorem persist_error_stops_nexus (kids : list (string * bool)) (op : PersistOp) (w w' : World S)
    (e : Error) :
  0 ≤ retries → persist kids op w = (w', Err e) →
  io_mode w' = Nx.Freeze ∧
  (self_shutdown w' = true ∨ op = Shutdown ∨
   op = Create ∧ e = NexusCreate ∧ only_child_unhealthy (nexus_info w') = true).
Proof.
  intros Hr. unfold Persist.persist. simpl.
  assert (Hsave : ∀ op w1, io_mode w1 = Nx.Freeze → save_and_resume retries key op w1 = (w', Err e) →
    io_mode w' = Nx.Freeze ∧ (self_shutdown w' = true ∨ op = Shutdown)).
  { intros op1 w1 Hm E. destruct (save_and_resume_spec _ _ _ _ Hr E) as (_ & _ & _ & H).
    destruct (H e eq_refl) as [-> Hs]. split; [done|].
    destruct op1; auto; left; by apply Hs. }
  assert (Hnone : ∀ op0 i, apply_op uuid_of kids op0 i ≠ Err e).
  { intros op0 i. destruct op0; simpl; try done; try (by destruct (uuid_of _)).
    destruct (children i); [|done]. destruct (clean_shutdown i); [done|].
    destruct (do_self_shutdown i); [done|]. simpl. clear Hsave.
    assert (Hk : ∀ e, child_infos uuid_of kids ≠ Err e).
    { intros e0. induction kids as [|[u h] kids IH]; [done|]. simpl. destruct (uuid_of u); [|done]. simpl.
      destruct (child_infos uuid_of kids); [done| |done]. by apply IH. }
    destruct (child_infos uuid_of kids) eqn:E; [done| |done]. by destruct (Hk e0). }
  destruct op as [|uri h|uri|uri h|uri h p| |sh].
  5:{ destruct (p (nexus_info w)); simpl; [|done].
      destruct (uuid_of uri) as [u|]; [|done]. simpl. unfold save_txn.
      match goal with |- context [save_txn_loop ?n ?a ?b ?s] =>
        destruct (save_txn_loop n a b s) as [s1 [[m r]|e1|]] eqn:E end; try done.
      - destruct r as [[]|e1|]; [by destruct m| |by destruct m]. intros [= <- <-].
        split; [by destruct m|left; by destruct m].
      - intros [= <- <-]. by auto. }
  all: match goal with |- context [apply_op ?a ?b ?c ?d] => destruct (apply_op a b c d) as [i1|e1|] eqn:Ha end;
    try (intros [= <- <-]; by destruct (Hnone _ _ Ha)); try done.
  all: try (intros E; apply Hsave in E as [? [?|?]]; by auto).
  destruct (only_child_unhealthy i1) eqn:Ho.
  - intros [= <- <-]. split; [done|]. right. right. done.
  - intros E. apply Hsave in E as [? [?|?]]; by auto.
Qed.

Lemma update_child_healthy u h cs :
  NoDup (uuid <$> cs) →
  (length (filter (λ c, healthy c = true) cs) ≤
   Datatypes.S (length (filter (λ c, healthy c = true) (update_child u h cs))))%nat.
Proof.
  assert (Hsame : ∀ cs, u ∉ uuid <$> cs → update_child u h cs = cs).
  { clear cs. induction cs as [|c cs IH]; [done|]. csimpl. rewrite not_elem_of_cons.
    intros [Hne Hn]. unfold update_child in *. csimpl. rewrite bool_decide_false by done. by rewrite IH. }
  induction cs as [|c cs IH]; [simpl; lia|]. csimpl. intros [Hni Hnd]%NoDup_cons.
  specialize (IH Hnd). unfold update_child in *. csimpl. case_bool_decide as Hu.
  - subst u. rewrite Hsame by done. rewrite !filter_cons. simpl. repeat case_decide; simpl; lia.
  - rewrite !filter_cons. case_decide; simpl; lia.
Qed.

(** C14. Retiring a child never leaves the persisted information without a
    healthy child: the last one keeps its mark, for the control plane to
    recreate the nexus from. *)
Theorem retire_keeps_a_healthy_child (kids : list (string * bool)) (child : option (string * bool))
    (w w' : World S) (r : outcome Error unit) :
  distinct (nexus_info w) → (0 < num_healthy (nexus_info w))%nat →
  child_retire_persist true retries key uuid_of kids child w = (w', r) →
  (0 < num_healthy (nexus_info w'))%nat.
Proof.
  intros Hd Hn. unfold child_retire_persist. destruct child as [[uri h]|]; [|by intros [= <- <-]].
  unfold Persist.persist. simpl. destruct (retire_predicate (nexus_info w)) eqn:Hp; simpl; [|by intros [= <- <-]].
  destruct (uuid_of uri) as [u|]; simpl; [|by intros [= <- <-]].
  set (i1 := set_info_children _ _).
  assert (Hi1 : (0 < num_healthy i1)%nat).
  { pose proof (update_child_healthy u h (children (nexus_info w)) Hd) as Hle. unfold i1, num_healthy. simpl.
    unfold retire_predicate, num_healthy in Hp.
    destruct (length _) as [|[|n]]; [done|done|]. lia. }
  unfold save_txn. simpl. destruct (Persist.save_txn_loop _ _ _ _ _) as [s1 [[m o]|e|]].
  - destruct o as [[]|e|]; intros [= <- <-]; by destruct m.
  - by intros [= <- <-].
  - by intros [= <- <-].
Qed.

(** If the store holds a value that this nexus has not written (the control
    plane has asked for its shutdown), retiring a child does not overwrite it:
    the value stays, the call fails and the nexus shuts itself down. *)
Theorem foreign_state_is_not_overwritten (kids : list (string * bool)) (uri u : string) (h : bool)
    (p : NexusInfo → bool) (w w' : World S) (r : outcome Error unit) (v : V) (val : NexusInfo) :
  0 ≤ retries → (∀ s, et_get (et_sleep s) key = et_get s key) →
  p (nexus_info w) = true → uuid_of uri = Some u →
  et_get (store w) key = Some v → from_json v = Some val →
  val ≠ nexus_info w → val ≠ set_info_children (update_child u h (children (nexus_info w))) (nexus_info w) →
  persist kids (UpdateCond uri h p) w = (w', r) →
  et_get (store w') key = Some v ∧ self_shutdown w' = true ∧ io_mode w' = Nx.Freeze ∧ ∃ e, r = Err e.
Proof.
  intros Hr Hsleep Hp Hu Hv Hval Hne1 Hne2. unfold Persist.persist. simpl. rewrite Hp, Hu. simpl.
  unfold save_txn. destruct (tries_pos Hr) as [n ->]. simpl store. simpl nexus_info.
  set (i1 := set_info_children _ _) in *.
  assert (Hj : ∀ i, v = to_json i → val = i) by (intros i ->; rewrite from_to_json in Hval; congruence).
  destruct (save_txn_loop (Datatypes.S n) (to_json i1) (to_json (nexus_info w)) (store w)) as [s1 o] eqn:E.
  destruct (save_txn_loop_foreign _ _ _ _ _ _ v val Hsleep Hv Hval ltac:(intros ?; by apply Hne1, Hj)
    ltac:(intros ?; by apply Hne2, Hj) E) as (Hs1 & m & e & ->).
  intros [= <- <-]. destruct m; simpl; eauto 10.
Qed.

(** If the key is not in the store at all, the transaction fails its
    comparison and is nevertheless reported as a success: the child is retired
    with nothing persisted. *)
Theorem retire_with_missing_key_reports_success (kids : list (string * bool)) (uri u : string) (h : bool)
    (p : NexusInfo → bool) (w : World S) :
  0 ≤ retries → p (nexus_info w) = true → uuid_of uri = Some u → et_get (store w) key = None →
  (∀ old new, ∃ s' x, et_txn key old new (store w) = (s', Ok x)) →
  ∃ w', persist kids (UpdateCond uri h p) w = (w', Ok tt) ∧ et_get (store w') key = None ∧
    io_mode w' = Nx.Normal ∧ self_shutdown w' = self_shutdown w.
Proof.
  intros Hr Hp Hu Hk Htx. unfold Persist.persist. simpl. rewrite Hp, Hu. simpl.
  unfold save_txn. destruct (tries_pos Hr) as [n ->]. simpl store. simpl nexus_info.
  cbn [Persist.save_txn_loop]. unfold put_kv_cas.
  set (i1 := set_info_children _ _).
  destruct (Htx (to_json (nexus_info w)) (to_json i1)) as (s' & [[] resp] & E); rewrite E.
  - destruct (et_txn_ok _ _ _ _ _ _ E). congruence.
  - destruct (et_txn_no _ _ _ _ _ _ E) as (_ & Hs & ->). rewrite Hk in *. simpl.
    eexists. split; [done|]. by split_and!.
Qed.

End PersistProps.
End PersistProps.

(** ** A store that fails now and then *)

Module PersistSample.
Import Persist.

(** The replies to come: answered, executed with the reply lost, not executed. *)
Inductive Reply := Answered | Lost | Down.

Definition Server : Type := gmap string NexusInfo * list Reply.

Definition reply {A} (s : Server) (do : gmap string NexusInfo → gmap string NexusInfo * A)
    : Server * outcome StoreError A :=
  match s.2 with
  | [] | Answered :: _ => let '(m, a) := do s.1 in ((m, tail s.2), Ok a)
  | Lost :: rs => ((fst (do s.1), rs), Err OpTimeout)
  | Down :: rs => ((s.1, rs), Err OpTimeout)
  end.

#[global] Instance server : Etcd Server NexusInfo := {
  et_get s k := s.1 !! k;
  et_put k v s := reply s (λ m, (<[k := v]> m, tt));
  et_txn k old v s := reply s (λ m,
    if bool_decide (m !! k = Some old) then (<[k := v]> m, (true, None))
    else (m, (false, Some (option_list (m !! k)))));
  et_sleep s := s;
}.

#[global] Instance server_laws : EtcdLaws Server NexusInfo.
Proof.
  split.
  - intros k v [m [|[] rs]] s' E; try discriminate E; injection E as <-; apply lookup_insert_eq.
  - intros k v [m [|[] rs]] s' E; discriminate E.
  - intros k old v [m [|[] rs]] s' r E; cbv [et_txn server reply snd fst] in E; try discriminate E;
      case_bool_decide; try discriminate E; injection E as <- _; (split; [done|apply lookup_insert_eq]).
  - intros k old v [m [|[] rs]] s' r E; cbv [et_txn server reply snd fst] in E; try discriminate E;
      case_bool_decide; try discriminate E; injection E as <- <-; by split_and!.
  - intros k old v [m [|[] rs]] s' e E; cbv [et_txn server reply snd fst] in E.
    + by case_bool_decide.
    + by case_bool_decide.
    + injection E as <- _. case_bool_decide; [right; split; [done|apply lookup_insert_eq]|by left].
    + injection E as <- _. by left.
  - intros k old v [m [|[] rs]] s' E; cbv [et_txn server reply snd fst] in E; try discriminate E;
      by case_bool_decide.
Qed.

#[global] Instance json : Json NexusInfo := { to_json i := i; from_json v := Some v }.

#[global] Instance json_laws : JsonLaws NexusInfo.
Proof. done. Qed.

Definition uuid_of (uri : string) : option string := Some uri.

Definition info : NexusInfo :=
  mkNexusInfo false false [mkChildInfo "a" true; mkChildInfo "b" true] (Some true).

(** The first reply is lost, the second attempt finds the new value. *)
Definition nexus (stored : NexusInfo) : World Server :=
  mkWorld info Nx.Normal false ({["nexus" := stored]}, [Lost]).

Definition retired : World Server :=
  (child_retire_persist true 5 "nexus" uuid_of [] (Some ("b"%string, false)) (nexus info)).1.

Lemma retire_run :
  child_retire_persist true 5 "nexus" uuid_of [] (Some ("b"%string, false)) (nexus info) = (retired, Ok tt).
Proof. vm_compute. reflexivity. Qed.

Lemma persist_ok_is_stored_witness :
  io_mode retired = Nx.Normal ∧ et_get (store retired) "nexus" = Some (to_json (nexus_info retired)).
Proof.
  destruct (PersistProps.persist_ok_is_stored 5 "nexus" uuid_of [] (UpdateCond "b" false retire_predicate)
    (nexus info) retired) as [H1 H2]; [lia|exact retire_run|]. split; [exact H1|].
  destruct H2 as [H2|(uri & h & p & [= <- <- <-] & [[Hp _]|Hn])]; [exact H2|by vm_compute in Hp|by vm_compute in Hn].
Defined.

Definition down : World Server := mkWorld info Nx.Normal false ({["nexus" := info]}, [Down; Down]).
Definition stopped : World Server := (persist true 2 "nexus" uuid_of [] (SetShared false) down).1.

Lemma persist_error_stops_nexus_witness :
  persist true 2 "nexus" uuid_of [] (SetShared false) down = (stopped, Err (SaveStateFailed OpTimeout)) ∧
  io_mode stopped = Nx.Freeze ∧
  (self_shutdown stopped = true ∨ SetShared false = Shutdown ∨
   SetShared false = Create ∧ SaveStateFailed OpTimeout = NexusCreate ∧
   only_child_unhealthy (nexus_info stopped) = true).
Proof.
  assert (E : persist true 2 "nexus" uuid_of [] (SetShared false) down
    = (stopped, Err (SaveStateFailed OpTimeout))) by (vm_compute; reflexivity).
  split; [exact E|].
  apply (PersistProps.persist_error_stops_nexus 2 "nexus" uuid_of [] (SetShared false) down stopped
    (SaveStateFailed OpTimeout)); [lia|exact E].
Defined.

Lemma retire_keeps_a_healthy_child_witness : (0 < num_healthy (nexus_info retired))%nat.
Proof.
  apply (PersistProps.retire_keeps_a_healthy_child 5 "nexus" uuid_of [] (Some ("b"%string, false))
    (nexus info) retired (Ok tt)); [by apply (bool_decide_unpack _)|vm_compute; lia|exact retire_run].
Defined.

(** The control plane has set the marker. *)
Definition marked : NexusInfo := set_do_self_shutdown true info.

Lemma foreign_state_is_not_overwritten_witness :
  ∃ w', persist true 5 "nexus" uuid_of [] (UpdateCond "b" false retire_predicate) (nexus marked)
        = (w', Err (SaveStateFailed Txn)) ∧
    et_get (store w') "nexus" = Some marked ∧ self_shutdown w' = true ∧ io_mode w' = Nx.Freeze.
Proof.
  destruct (persist true 5 "nexus" uuid_of [] (UpdateCond "b" false retire_predicate) (nexus marked))
    as [w' r] eqn:E.
  destruct (PersistProps.foreign_state_is_not_overwritten 5 "nexus" uuid_of [] "b" "b" false retire_predicate
    (nexus marked) w' r marked marked) as (H1 & H2 & H3 & H4);
    [lia|done|reflexivity|reflexivity|reflexivity|reflexivity|discriminate|discriminate|exact E|].
  exists w'. assert (Hr : r = Err (SaveStateFailed Txn)) by (vm_compute in E; congruence).
  rewrite Hr. split; [reflexivity|]. split; [exact H1|]. split; [exact H2|exact H3].
Defined.

Lemma retire_with_missing_key_reports_success_witness :
  ∃ w', persist true 5 "nexus" uuid_of [] (UpdateCond "b" false retire_predicate)
          (mkWorld info Nx.Normal false (∅, [])) = (w', Ok tt) ∧
    et_get (store w') "nexus" = None.
Proof.
  destruct (PersistProps.retire_with_missing_key_reports_success 5 "nexus" uuid_of [] "b" "b" false
    retire_predicate (mkWorld info Nx.Normal false (∅, []))) as (w' & H1 & H2 & _);
    [lia|reflexivity|reflexivity|reflexivity| |exists w'; split; [exact H1|exact H2]].
  intros old new. cbv [et_txn server reply snd fst store]. case_bool_decide; by eauto.
Defined.

End PersistSample.
