(* ===== verification/NvmfTarget.v ===== *)
(** * The NVMe-oF target

    [subsys/nvmf/target.rs], with [Nvmf::init] and [Nvmf::fini] of
    [subsys/nvmf/mod.rs] and [create_and_add_transports] of
    [subsys/nvmf/transport.rs]: the target is brought up and taken down in
    stages, and each stage sends the next one as a future to a reactor.

    [tasks] are the futures and messages that have been sent and have not been
    run; they are run in any order.  What SPDK answers is [Env].  The calls of
    [spdk_subsystem_init_next] and [spdk_subsystem_fini_next], with which the
    engine reports that it is up or down, are counted. *)

From S2P Require Import Prelude.
#[local] Open Scope Z_scope.

Module Target.

Inductive TargetState :=
| Init | PollGroupInit | AddTransport | AddListener | Running | ShutdownSubsystems | DestroyPgs | Shutdown
| ShutdownCompleted | Invalid.

Inductive Task :=
| CreatePg                  (** on a reactor: [create_poll_group] *)
| PgCreated                 (** on the first one: the poll group is counted *)
| NextState
| AddTransports
| StartDiscovery
| StopAll
| DestroyPg                 (** on the thread of a poll group *)
| PgDestroyed
| TgtDestroyed.

#[global] Instance Task_eq_dec : EqDecision Task.
Proof. solve_decision. Defined.

Record Env := mkEnv {
  cores : nat;
  tgt_create : bool;
  new_thread : nat → bool;       (** [Mthread::new] on a core *)
  add_tcp : bool;
  tgt_listen : Z → bool -> bool; (** on a port, with or without RDMA *)
  nexus_port : Z;
  replica_port : Z;
  want_rdma : bool;
  discovery : bool;              (** the discovery subsystem can be created *)
}.

Record World := mkWorld {
  poll_group_count : nat;
  next_state_ : TargetState;
  rdma : bool;
  pgs : nat;                     (** [NVMF_PGS] *)
  tasks : list Task;
  init_next : list Z;
  fini_next : nat;
}.

Section Target.
Variable env : Env.

Local Abbreviation M := (ST World unit).

Definition set_state (s : TargetState) (w : World) : World :=
  mkWorld (poll_group_count w) s (rdma w) (pgs w) (tasks w) (init_next w) (fini_next w).
Definition send (t : Task) (w : World) : World :=
  mkWorld (poll_group_count w) (next_state_ w) (rdma w) (pgs w) (tasks w ++ [t]) (init_next w) (fini_next w).
Definition set_count (n : nat) (w : World) : World :=
  mkWorld n (next_state_ w) (rdma w) (pgs w) (tasks w) (init_next w) (fini_next w).
Definition set_pgs (n : nat) (w : World) : World :=
  mkWorld (poll_group_count w) (next_state_ w) (rdma w) n (tasks w) (init_next w) (fini_next w).
Definition set_rdma (b : bool) (w : World) : World :=
  mkWorld (poll_group_count w) (next_state_ w) b (pgs w) (tasks w) (init_next w) (fini_next w).
Definition set_tasks (l : list Task) (w : World) : World :=
  mkWorld (poll_group_count w) (next_state_ w) (rdma w) (pgs w) l (init_next w) (fini_next w).
Definition call_init_next (rc : Z) (w : World) : World :=
  mkWorld (poll_group_count w) (next_state_ w) (rdma w) (pgs w) (tasks w) (init_next w ++ [rc]) (fini_next w).
Definition call_fini_next (w : World) : World :=
  mkWorld (poll_group_count w) (next_state_ w) (rdma w) (pgs w) (tasks w) (init_next w) (S (fini_next w)).

(** [init_poll_groups]: on each core for which there is a thread *)
Definition init_poll_groups : M unit :=
  ST.modify (λ w, set_tasks (tasks w ++ (const CreatePg <$> filter (λ c, new_thread env c = true) (seq 0 (cores env)))) w).

(** [destroy_pgs] *)
Definition destroy_pgs : M unit := ST.modify (λ w, set_tasks (tasks w ++ replicate (pgs w) DestroyPg) w).

(** [running]: the discovery subsystem is unwrapped. *)
Definition running : M unit := if discovery env then ST.modify (send StartDiscovery) else ST.panic.

(** [next_state] in the states that do not call it again *)
Definition next_state1 : M unit :=
  w ← ST.get;
  match next_state_ w with
  | PollGroupInit => ST.modify (set_state AddTransport);; init_poll_groups
  | AddTransport => ST.modify (set_state AddListener);; ST.modify (send AddTransports)
  | Running => running
  | ShutdownSubsystems => ST.modify (set_state DestroyPgs);; ST.modify (send StopAll)
  | DestroyPgs => ST.modify (set_state Shutdown);; destroy_pgs
  | Shutdown => ST.modify (set_state ShutdownCompleted);; ST.modify (send TgtDestroyed)
  | Invalid => ST.modify (call_init_next 1)
  | ShutdownCompleted | Init | AddListener => mret tt
  end.

(** [init] *)
Definition init : M unit := if tgt_create env then next_state1 else ST.panic.

(** [listen] and [listen_rdma]; without RDMA the target goes on with TCP. *)
Definition listens (r : bool) : bool := tgt_listen env (nexus_port env) r && tgt_listen env (replica_port env) r.

(** A target that cannot listen is made [Invalid], and then the error is
    unwrapped. *)
Definition listen : M unit :=
  if listens false then
    (if want_rdma env && listens true then ST.modify (set_rdma true) else mret tt);;
    next_state1
  else ST.modify (set_state Invalid);; ST.panic.

Definition next_state : M unit :=
  w ← ST.get;
  match next_state_ w with
  | Init => ST.modify (set_state PollGroupInit);; init
  | AddListener => ST.modify (set_state Running);; listen
  | _ => next_state1
  end.


(** A future or message is run. *)
Definition run_task (t : Task) : M unit :=
  match t with
  | CreatePg => ST.modify (send PgCreated)
  | PgCreated =>
      ST.modify (λ w, set_count (S (poll_group_count w)) (set_pgs (S (pgs w)) w));;
      w ← ST.get;
      if Nat.eqb (poll_group_count w) (cores env) then ST.modify (send NextState) else mret tt
  | NextState => next_state
  | AddTransports => (if add_tcp env then mret tt else ST.modify (set_state Invalid));; next_state
  | StartDiscovery => ST.modify (call_init_next 0)
  | StopAll => ST.modify (send NextState)
  | DestroyPg => ST.modify (send PgDestroyed)
  | PgDestroyed =>
      ST.modify (λ w, set_count (pred (poll_group_count w)) w);;
      w ← ST.get;
      if Nat.eqb (poll_group_count w) 0 then next_state else mret tt
  | TgtDestroyed => ST.modify call_fini_next
  end.

Definition start : World := mkWorld 0 Init false 0 [] [] 0.


End Target.
End Target.

(** ** Properties *)

Module TargetProps.
Import Target.

Section TargetProps.
Variable env : Env.
Hypothesis some_core : (0 < cores env)%nat.












#[local] Arguments Nat.eqb : simpl never.







End TargetProps.
End TargetProps.

Module TargetSample.
Import Target TargetProps.

Definition env (thread : nat → bool) (port_ok : bool) : Env := mkEnv 2 true thread true (λ _ _, port_ok) 8420 4421 false true.

(** The tasks are run in the order in which they were sent. *)
Fixpoint drain (e : Env) (fuel : nat) (w : World) : World * outcome unit unit :=
  match fuel, tasks w with
  | S fuel, t :: l =>
      match run_task e t (set_tasks l w) with
      | (w, Ok _) => drain e fuel w
      | r => r
      end
  | _, _ => (w, Ok tt)
  end.




(** Without a thread on one of the cores the number of poll groups is never
    reached: nothing is left to do, and nothing is reported. *)
Lemma missing_thread_hangs :
  let w := fst (drain (env (Nat.eqb 0) true) 20 (fst (next_state (env (Nat.eqb 0) true) start))) in tasks w = [] ∧ init_next w = [].
Proof. vm_compute. split; reflexivity. Qed.

(** A port that cannot be listened on panics, although the state for a target
    that cannot be configured has been set. *)
Lemma listen_failure_panics :
  let r := drain (env (λ _, true) false) 20 (fst (next_state (env (λ _, true) false) start)) in
  snd r = Panicked ∧ next_state_ (fst r) = Invalid.
Proof. vm_compute. split; reflexivity. Qed.

End TargetSample.
