(* ===== verification/NvmfSubsystem.v ===== *)
(** * NVMe-oF subsystems

    [subsys/nvmf/subsystem.rs], [subsys/nvmf/transport.rs], [target/nvmf.rs] and
    the sharing of a bdev in [core/bdev.rs]: a subsystem is created for the bdev
    that is shared, configured, started, and stopped and destroyed when the bdev
    is unshared.

    SPDK's NVMe-oF target is the interface [Nvmf]: what can be observed of its
    subsystems, the calls that change them, and in [NvmfLaws] the documented
    effect of these calls.  A subsystem is the address of its
    [spdk_nvmf_subsystem].  Serial and model numbers are handed over but not
    tracked, and host events are left out. *)

From Stdlib Require Import Ascii.
From S2P Require Import Prelude Text Wp Errors.
#[local] Open Scope Z_scope.

Module Subsys.

Inductive NvmfTgtTransport := Tcp | Rdma.

#[global] Instance NvmfTgtTransport_eq_dec : EqDecision NvmfTgtTransport.
Proof. solve_decision. Defined.

(** [TransportId] of a listener *)
Record TransportId := mkTrid { trtype : NvmfTgtTransport; ipv6 : bool; traddr : string; trsvcid : string }.

#[global] Instance TransportId_eq_dec : EqDecision TransportId.
Proof. solve_decision. Defined.

Inductive ss_state := Inactive | Active | Paused.

Record ss_info := mkSs {
  nqn : string;
  ns : option string;
  hosts : list string;
  any_host : bool;
  listeners : list TransportId;
  state : ss_state;
  ana_reporting : bool;
  cntlid_range : option (Z * Z);
}.

(** The changes of state that can be asked for. *)
Inductive ss_op := OpStart | OpStop | OpPause | OpResume.

(** Calls return 0 or an error number; a change of state is refused at once, or
    ends with a status. *)
Class Nvmf := {
  tgt : Type;
  subsystems : tgt → gmap nat ss_info;
  tgt_find_subsystem : tgt → string → option nat;
  tgt_subsystems : tgt → list nat;
  ids_exhausted : tgt → bool;
  has_rdma_xprt : tgt → bool;
  destroy_in_progress : tgt → nat → bool;
  claimed_by : tgt → string → option string;
  driver_of : tgt → string → string;
  serial_of : tgt → string → string;
  subsystem_create : string → tgt → tgt * option nat;
  subsystem_set_sn : nat → string → tgt → tgt * Z;
  subsystem_set_mn : nat → string → tgt → tgt * Z;
  subsystem_add_ns : nat → string → option string → tgt → tgt * Z;
  subsystem_remove_ns : nat → Z → tgt → tgt * Z;
  subsystem_destroy : nat → tgt → tgt * Z;
  subsystem_set_allow_any : nat → bool → tgt → tgt;
  subsystem_add_host : nat → string → tgt → tgt * Z;
  subsystem_remove_host : nat → string → tgt → tgt * Z;
  subsystem_disconnect_host : nat → string → tgt → tgt * Z;
  subsystem_set_ana_reporting : nat → bool → tgt → tgt * Z;
  subsystem_set_cntlid_range : nat → Z → Z → tgt → tgt * Z;
  subsystem_add_listener : nat → TransportId → tgt → tgt * Z;
  subsystem_set_ana_state : nat → TransportId → Z → tgt → tgt * Z;
  subsystem_change : ss_op → nat → tgt → tgt * (Z + Z);
  pass_time : Z → tgt → tgt;
  (** [Errno::from_raw] of what [FfiResult::to_result] hands over *)
  ffi_errno : Z → Errno;
}.

(** [NEXUS_NVMF_ANA_ENABLE], the address of the node and the replica port. *)
Record NvmfEnv := mkNvmfEnv { ana_enable : bool; tgt_ipv6 : bool; tgt_addr : string; replica_port : string }.

Definition NVME_NQN_PREFIX : string := "nqn.2019-05.io.openebs".
Definition NVME_CONTROLLER_MODEL_ID : string := "Mayastor NVMe controller".
Definition NEXUS_MODULE_NAME : string := "NEXUS_CAS_MODULE".
Definition NVMF_TARGET_MODULE : string := "NVMe-oF Target".

Definition make_nqn (id : string) : string := (NVME_NQN_PREFIX +:+ String ":" id)%string.

(** [Display for TransportId] *)
Definition show_trid (t : TransportId) : string :=
  let trstring := match trtype t with Rdma => "+rdma+tcp"%string | Tcp => ""%string end in
  if ipv6 t then ("nvmf" +:+ trstring +:+ "://[" +:+ traddr t +:+ "]:" +:+ trsvcid t)%string
  else ("nvmf" +:+ trstring +:+ "://" +:+ traddr t +:+ ":" +:+ trsvcid t)%string.

Section Ops.
Context `{NV : Nvmf}.
Variable env : NvmfEnv.

Local Abbreviation M := (ST tgt Nvmf.Error).

Definition call {A} (f : tgt → tgt * A) : M A := λ t, let '(t, a) := f t in (t, Ok a).

(** [FfiResult::to_result] on a return code *)
Definition to_result (rc : Z) (err : Errno → Nvmf.Error) : M unit :=
  if rc =? 0 then mret tt else ST.fail (err (ffi_errno rc)).

(** A call that returns a code. *)
Definition try_call (f : tgt → tgt * Z) (err : Errno → Nvmf.Error) : M unit :=
  rc ← call f; to_result rc err.

Definition get_nqn (ss : nat) (t : tgt) : string := from_option nqn ""%string (subsystems t !! ss).

(** [Error::Subsystem] about subsystem [ss] *)
Definition subsystem_err (ss : nat) (msg : string) (f : tgt → tgt * Z) : M unit :=
  rc ← call f;
  n ← ST.gets (get_nqn ss);
  to_result rc (λ e, Nvmf.Subsystem e n msg).

(** ** Creation and destruction *)

(** [NvmfSubsystem::new]: SPDK does not say why it cannot create one. *)
Definition new (uuid : string) : M nat :=
  cnqn ← ST.lift (into_cstring (make_nqn uuid));
  o ← call (subsystem_create cnqn);
  match o with
  | None =>
      t ← ST.get;
      if bool_decide (is_Some (tgt_find_subsystem t cnqn)) then ST.fail (Nvmf.SubsystemExt EEXIST cnqn)
      else if ids_exhausted t then ST.fail (Nvmf.SubsystemExt EMLINK cnqn)
      else ST.fail (Nvmf.SubsystemExt ENOMEM cnqn)
  | Some ss =>
      t ← ST.get;
      try_call (subsystem_set_sn ss (serial_of t uuid)) (λ e, Nvmf.Subsystem e uuid "failed to set serial");;
      try_call (subsystem_set_mn ss NVME_CONTROLLER_MODEL_ID) (λ e, Nvmf.Subsystem e uuid "failed to set model number");;
      mret ss
  end.

Definition EALREADY_rc : Z := 114.
Definition EBUSY_rc : Z := 16.

(** [destroy_unsafe] *)
Definition destroy_unsafe (ss : nat) : M Z :=
  t ← ST.get;
  if destroy_in_progress t ss then mret (- EALREADY_rc) else call (subsystem_destroy ss).

(** [shutdown_unsafe]: that the namespace cannot be removed is only logged. *)
Definition shutdown_unsafe (ss : nat) : M Z :=
  call (subsystem_remove_ns ss 1);;
  destroy_unsafe ss.

Definition add_namespace (ss : nat) (bdev : string) (ptpl : option string) : M unit :=
  ns_id ← call (subsystem_add_ns ss bdev ptpl);
  if ns_id <? 1 then ST.fail (Nvmf.Namespace bdev "failed to add namespace ID") else mret tt.

(** ** Configuration *)

(** [Self::cstr] *)
Definition cstr (host : string) : outcome Nvmf.Error string :=
  if has NUL host then Err (Nvmf.HostCstrNul host) else Ok host.

Definition allow_any (ss : nat) (enable : bool) : M unit := ST.modify (subsystem_set_allow_any ss enable).

Definition allowed_hosts (ss : nat) (t : tgt) : list string := from_option hosts [] (subsystems t !! ss).

Definition allow_host (ss : nat) (host : string) : M unit :=
  h ← ST.lift (cstr host);
  subsystem_err ss "failed to add allowed host" (subsystem_add_host ss h).

Fixpoint allow_hosts (ss : nat) (hs : list string) : M unit :=
  match hs with
  | [] => mret tt
  | h :: hs => allow_host ss h;; allow_hosts ss hs
  end.

Definition disallow_host (ss : nat) (host : string) : M unit :=
  h ← ST.lift (cstr host);
  subsystem_err ss "failed to remove allowed host" (subsystem_remove_host ss h).

Definition disconnect_host (ss : nat) (host : string) : M unit :=
  h ← ST.lift (cstr host);
  try_call (subsystem_disconnect_host ss h) (λ e, Nvmf.Subsystem e host "Failed to disconnect host").

Fixpoint drop_hosts (ss : nat) (hs : list string) : M unit :=
  match hs with
  | [] => mret tt
  | h :: hs => disallow_host ss h;; disconnect_host ss h;; drop_hosts ss hs
  end.

(** [set_allowed_hosts]: an empty list changes nothing. *)
Definition set_allowed_hosts (ss : nat) (hs : list string) : M unit :=
  match hs with
  | [] => mret tt
  | _ =>
      connected ← ST.gets (allowed_hosts ss);
      allow_hosts ss (filter (λ h, h ∉ connected) hs);;
      drop_hosts ss (filter (λ h, h ∉ hs) connected)
  end.

Definition set_ana_reporting (ss : nat) (enable : bool) : M unit :=
  if ana_enable env then subsystem_err ss "failed to set ANA reporting" (subsystem_set_ana_reporting ss enable)
  else mret tt.

Definition set_cntlid_range (ss : nat) (lo hi : Z) : M unit :=
  subsystem_err ss "failed to set controller ID range" (subsystem_set_cntlid_range ss lo hi).

(** [TransportId::new] for the replica port *)
Definition trid_replica (tr : NvmfTgtTransport) : TransportId := mkTrid tr (tgt_ipv6 env) (tgt_addr env) (replica_port env).

Definition add_listener (ss : nat) (tr : NvmfTgtTransport) : M unit :=
  try_call (subsystem_add_listener ss (trid_replica tr)) (λ e, Nvmf.Transport e "Failed to add listener").

(** ** State *)

Definition show_op (op : ss_op) : string :=
  match op with OpStart => "start" | OpStop => "stop" | OpPause => "pause" | OpResume => "resume" end.

(** [change_state]: a busy subsystem is tried three more times, 100 ms apart. *)
Fixpoint change_state (retries : nat) (op : ss_op) (ss : nat) : M unit :=
  r ← call (subsystem_change op ss);
  n ← ST.gets (get_nqn ss);
  match r with
  | inr status => to_result status (λ e, Nvmf.Subsystem e n (show_op op))
  | inl rc =>
      if rc =? - EBUSY_rc then
        match retries with
        | O => ST.fail (Nvmf.SubsystemBusy n (show_op op))
        | S retries => ST.modify (pass_time 100);; change_state retries op ss
        end
      else ST.fail (Nvmf.Subsystem (errno_from_raw (- rc)) n (show_op op))
  end.

Definition stop (ss : nat) : M unit := change_state 3 OpStop ss.
Definition pause (ss : nat) : M unit := change_state 3 OpPause ss.
Definition resume (ss : nat) : M unit := change_state 3 OpResume ss.

(** [start]: a subsystem that cannot be started is destroyed. *)
Definition start (ss : nat) (need_rdma : bool) : M string :=
  add_listener ss Tcp;;
  t ← ST.get;
  (if need_rdma && has_rdma_xprt t then ST.try (E := Nvmf.Error) (add_listener ss Rdma);; mret tt else mret tt);;
  r ← ST.try (change_state 3 OpStart ss);
  match r with
  | Err e => shutdown_unsafe ss;; ST.fail e
  | _ => ST.gets (get_nqn ss)
  end.

Definition stop_for_destroy (ss : nat) : M unit :=
  change_state 3 OpStop ss;;
  shutdown_unsafe ss;;
  mret tt.

(** [set_ana_state] on every listener *)
Fixpoint set_ana_states (ss : nat) (trids : list TransportId) (ana_state : Z) : M unit :=
  match trids with
  | [] => mret tt
  | t :: trids =>
      subsystem_err ss "failed to set_ana_state of the subsystem" (subsystem_set_ana_state ss t ana_state);;
      set_ana_states ss trids ana_state
  end.

Definition listeners_to_vec (ss : nat) (t : tgt) : option (list TransportId) :=
  match from_option listeners [] (subsystems t !! ss) with [] => None | l => Some l end.

Definition set_ana_state (ss : nat) (ana_state : Z) : M unit :=
  trids ← ST.gets (λ t, default [] (listeners_to_vec ss t));
  set_ana_states ss trids ana_state.

(** [stop_all]: errors are only logged. *)
Fixpoint stop_each (sss : list nat) : M unit :=
  match sss with
  | [] => mret tt
  | ss :: sss => ST.try (E := Nvmf.Error) (stop ss);; stop_each sss
  end.

Definition stop_all : M unit := sss ← ST.gets tgt_subsystems; stop_each sss.

(** ** Lookup and addresses *)

Definition nqn_lookup {E} (uuid : string) : ST tgt E (option nat) :=
  cnqn ← ST.lift (into_cstring (make_nqn uuid));
  ST.gets (λ t, tgt_find_subsystem t cnqn).

Definition uri_endpoints (ss : nat) (t : tgt) : option (list string) :=
  map (λ tr, show_trid tr +:+ String "/" (get_nqn ss t))%string <$> listeners_to_vec ss t.

(** [s.starts_with(p)] *)
Fixpoint starts_with (p s : string) : bool :=
  match p, s with
  | EmptyString, _ => true
  | String a p, String b s => bool_decide (a = b) && starts_with p s
  | _, _ => false
  end.

(** [target::nvmf::get_uri]: an RDMA endpoint, or the last one. *)
Definition get_uri {E} (uuid : string) : ST tgt E (option string) :=
  o ← nqn_lookup uuid;
  match o with
  | None => mret None
  | Some ss =>
      t ← ST.get;
      uris ← ST.lift (of_option (uri_endpoints ss t));
      mret (match list_find (λ u, starts_with "nvmf+rdma+tcp" u = true) uris with
            | Some (_, u) => Some u
            | None => last uris
            end)
  end.

(** ** Sharing a bdev *)

Record NvmfShareProps := mkShareProps {
  props_range : option (Z * Z);
  props_ana : bool;
  props_hosts : list string;
  props_ptpl : option string;
}.

Definition host_any (hs : list string) : bool := match hs with [] => true | _ => false end.

(** [NvmfSubsystem::try_from_with] *)
Definition try_from_with (bdev : string) (ptpl : option string) : M nat :=
  t ← ST.get;
  if bool_decide (is_Some (claimed_by t bdev)) then ST.fail (Nvmf.CreateTarget "already shared")
  else
    ss ← new bdev;
    set_ana_reporting ss false;;
    allow_any ss false;;
    r ← ST.try (add_namespace ss bdev ptpl);
    match r with
    | Err e => destroy_unsafe ss;; ST.fail e
    | _ => mret ss
    end.

Local Abbreviation C := (ST tgt CoreError).

(** [Bdev::share_nvmf] *)
Definition share_nvmf (bdev : string) (props : NvmfShareProps) : C string :=
  ST.with_err ShareNvmf (
    t ← ST.get;
    let is_nexus_bdev := bool_decide (driver_of t bdev = NEXUS_MODULE_NAME) in
    ss ← try_from_with bdev (props_ptpl props);
    (match props_range props with Some (lo, hi) => set_cntlid_range ss lo hi | None => mret tt end);;
    set_ana_reporting ss (props_ana props);;
    allow_any ss (host_any (props_hosts props));;
    set_allowed_hosts ss (props_hosts props);;
    start ss is_nexus_bdev).

(** [Bdev::shared]: whether the bdev is claimed by the target *)
Definition shared (t : tgt) (bdev : string) : bool := bool_decide (claimed_by t bdev = Some NVMF_TARGET_MODULE).

(** [is_shared] *)
Definition is_shared {E} (bdev : string) : ST tgt E bool :=
  t ← ST.get;
  if shared t bdev then mret true
  else o ← nqn_lookup bdev; mret (bool_decide (is_Some o)).

Definition update_properties (bdev : string) (hs : list string) : C unit :=
  t ← ST.get;
  if shared t bdev then
    o ← nqn_lookup bdev;
    match o with
    | None => mret tt
    | Some ss => ST.with_err ShareNvmf (allow_any ss (host_any hs);; set_allowed_hosts ss hs)
    end
  else mret tt.

Definition unshare (bdev : string) : C unit :=
  b ← is_shared bdev;
  if b : bool then
    o ← nqn_lookup bdev;
    match o with
    | None => mret tt
    | Some ss => ST.with_err UnshareNvmf (stop_for_destroy ss)
    end
  else mret tt.

Definition share_uri (bdev : string) : C (option string) :=
  t ← ST.get;
  if shared t bdev then get_uri bdev else mret (Some ("bdev:///" +:+ bdev)%string).

(** [Bdev::allowed_hosts] *)
Definition bdev_allowed_hosts (bdev : string) : C (list string) :=
  t ← ST.get;
  if shared t bdev then
    o ← nqn_lookup bdev;
    match o with Some ss => ST.gets (allowed_hosts ss) | None => mret [] end
  else mret [].

End Ops.

End Subsys.
