(* ===== verification/NvmfProps.v ===== *)
(** * NVMe-oF subsystems: properties

    [NvmfLaws] is what SPDK documents of subsystems.  Shown is what sharing and
    unsharing a bdev leave behind when they succeed and when they fail, and which
    hosts may connect. *)

From Stdlib Require Import Ascii.
From S2P Require Import Prelude Text Wp Errors NvmfSubsystem.
Import Subsys.
#[local] Open Scope Z_scope.

Module NvmfProps.

Definition fresh_ss (n : string) : ss_info := mkSs n None [] false [] Inactive false None.
Definition set_ns (b : option string) (i : ss_info) : ss_info :=
  mkSs (nqn i) b (hosts i) (any_host i) (listeners i) (state i) (ana_reporting i) (cntlid_range i).
Definition set_hosts (hs : list string) (i : ss_info) : ss_info :=
  mkSs (nqn i) (ns i) hs (any_host i) (listeners i) (state i) (ana_reporting i) (cntlid_range i).
Definition set_any (b : bool) (i : ss_info) : ss_info :=
  mkSs (nqn i) (ns i) (hosts i) b (listeners i) (state i) (ana_reporting i) (cntlid_range i).
Definition set_listeners (l : list TransportId) (i : ss_info) : ss_info :=
  mkSs (nqn i) (ns i) (hosts i) (any_host i) l (state i) (ana_reporting i) (cntlid_range i).
Definition set_state (s : ss_state) (i : ss_info) : ss_info :=
  mkSs (nqn i) (ns i) (hosts i) (any_host i) (listeners i) s (ana_reporting i) (cntlid_range i).
Definition set_ana (b : bool) (i : ss_info) : ss_info :=
  mkSs (nqn i) (ns i) (hosts i) (any_host i) (listeners i) (state i) b (cntlid_range i).
Definition set_range (r : option (Z * Z)) (i : ss_info) : ss_info :=
  mkSs (nqn i) (ns i) (hosts i) (any_host i) (listeners i) (state i) (ana_reporting i) r.

Definition add_host (h : string) (i : ss_info) : ss_info :=
  if decide (h ∈ hosts i) then i else set_hosts (hosts i ++ [h]) i.
Definition remove_host (h : string) (i : ss_info) : ss_info := set_hosts (filter (λ x, x ≠ h) (hosts i)) i.

Definition op_target (op : ss_op) : ss_state :=
  match op with OpStart | OpResume => Active | OpStop => Inactive | OpPause => Paused end.

(** A call that succeeds changes one subsystem by [f]; one that fails changes
    nothing. *)
Definition effect `{Nvmf} (ss : nat) (f : ss_info → ss_info) (ok : bool) (t t' : tgt) : Prop :=
  subsystems t' = if ok then alter f ss (subsystems t) else subsystems t.

Class NvmfLaws `{NV : Nvmf} : Prop := {
  find_law t n ss : tgt_find_subsystem t n = Some ss ↔ ∃ i, subsystems t !! ss = Some i ∧ nqn i = n;
  claim_law t b :
    claimed_by t b = Some NVMF_TARGET_MODULE ↔ ∃ ss i, subsystems t !! ss = Some i ∧ ns i = Some b;
  create_law n t t' o : subsystem_create n t = (t', o) →
    match o with
    | Some ss => subsystems t !! ss = None ∧ subsystems t' = <[ss := fresh_ss n]> (subsystems t)
    | None => subsystems t' = subsystems t
    end;
  set_sn_law ss x t t' rc : subsystem_set_sn ss x t = (t', rc) → subsystems t' = subsystems t;
  set_mn_law ss x t t' rc : subsystem_set_mn ss x t = (t', rc) → subsystems t' = subsystems t;
  add_ns_law ss b p t t' id : subsystem_add_ns ss b p t = (t', id) → effect ss (set_ns (Some b)) (1 <=? id) t t';
  remove_ns_law ss t t' rc : subsystem_remove_ns ss 1 t = (t', rc) → effect ss (set_ns None) (rc =? 0) t t';
  destroy_law ss t t' rc : subsystem_destroy ss t = (t', rc) →
    subsystems t' = if rc =? 0 then delete ss (subsystems t) else subsystems t;
  allow_any_law ss b t : effect ss (set_any b) true t (subsystem_set_allow_any ss b t);
  add_host_law ss h t t' rc : subsystem_add_host ss h t = (t', rc) → effect ss (add_host h) (rc =? 0) t t';
  remove_host_law ss h t t' rc : subsystem_remove_host ss h t = (t', rc) → effect ss (remove_host h) (rc =? 0) t t';
  disconnect_law ss h t t' rc : subsystem_disconnect_host ss h t = (t', rc) → subsystems t' = subsystems t;
  ana_law ss b t t' rc : subsystem_set_ana_reporting ss b t = (t', rc) → effect ss (set_ana b) (rc =? 0) t t';
  range_law ss lo hi t t' rc :
    subsystem_set_cntlid_range ss lo hi t = (t', rc) → effect ss (set_range (Some (lo, hi))) (rc =? 0) t t';
  listener_law ss x t t' rc : subsystem_add_listener ss x t = (t', rc) →
    effect ss (λ i, set_listeners (listeners i ++ [x]) i) (rc =? 0) t t';
  ana_state_law ss x a t t' rc : subsystem_set_ana_state ss x a t = (t', rc) → subsystems t' = subsystems t;
  change_law op ss t t' r : subsystem_change op ss t = (t', r) →
    effect ss (set_state (op_target op)) (match r with inr status => status =? 0 | inl _ => false end) t t';
  time_law ms t : subsystems (pass_time ms t) = subsystems t;
}.

Section Props.
Context `{NL : NvmfLaws}.
Variable env : NvmfEnv.
Implicit Types (t : tgt) (ss : nat) (i : ss_info).

(** The subsystem [ss] has been added to [m0], and [P] holds of it. *)
Definition owns (m0 : gmap nat ss_info) ss (P : ss_info → Prop) t : Prop := ∃ i, subsystems t = <[ss := i]> m0 ∧ P i.

(** Whether it succeeds or not, the computation leaves a subsystem of which [Q]
    holds, or of which [R] holds after an error. *)
Definition own_wp {E A} m0 ss (m : ST tgt E A) (Q R : ss_info → Prop) t : Prop :=
  wp m (λ r t', match r with Ok _ => owns m0 ss Q t' | Err _ => owns m0 ss R t' | Panicked => False end) t.

Lemma own_bind {E A B} m0 ss (m : ST tgt E A) (k : A → ST tgt E B) (P Q R : ss_info → Prop) t :
  own_wp m0 ss m P R t → (∀ a t', owns m0 ss P t' → own_wp m0 ss (k a) Q R t') → own_wp m0 ss (m ≫= k) Q R t.
Proof.
  intros Hm Hk. unfold own_wp. apply wp_bind. eapply wp_mono; [exact Hm|]. intros [a|e|] t' H; [by apply Hk|done..].
Qed.

Lemma own_then {E A B} m0 ss (m : ST tgt E A) (k : A → ST tgt E B) (P R : ss_info → Prop) Q t :
  own_wp m0 ss m P R t → (∀ a t', owns m0 ss P t' → wp (k a) Q t') → (∀ e t', owns m0 ss R t' → Q (Err e) t') →
  wp (m ≫= k) Q t.
Proof.
  intros Hm Hk Hr. apply wp_bind. eapply wp_mono; [exact Hm|]. intros [a|e|] t' H; [by apply Hk|by apply Hr|done].
Qed.

Lemma own_mono {E A} m0 ss (m : ST tgt E A) (P Q R R' : ss_info → Prop) t :
  own_wp m0 ss m P R t → (∀ i, P i → Q i) → (∀ i, R i → R' i) → own_wp m0 ss m Q R' t.
Proof.
  intros Hm HQ HR. eapply wp_mono; [exact Hm|]. intros [a|e|] t'; [|..|done]; intros (i & ? & ?); exists i; auto.
Qed.

Lemma own_same {E A} m0 ss (m : ST tgt E A) P R t :
  owns m0 ss P t → (∀ t' r, m t = (t', r) → subsystems t' = subsystems t ∧ r ≠ Panicked) →
  (∀ i, P i → R i) → own_wp m0 ss m P R t.
Proof.
  intros (i & Ht & HP) Hm HR. apply wp_intro. intros t' r E'. destruct (Hm _ _ E') as [Hs Hr].
  destruct r; [..|done]; exists i; rewrite Hs; auto.
Qed.

(** One call with an effect on the subsystem, the code of which is checked. *)
Lemma own_effect {A} m0 ss (f : tgt → tgt * A) g (ok : A → bool) (k : A → ST tgt Nvmf.Error unit) (P Q R : ss_info → Prop) t :
  owns m0 ss P t → (∀ t t' a, f t = (t', a) → effect ss g (ok a) t t') →
  (∀ a t, if ok a then k a t = (t, Ok tt) else ∃ e, k a t = (t, Err e)) →
  (∀ i, P i → Q (g i) ∧ R i) → own_wp m0 ss (call f ≫= k) Q R t.
Proof.
  intros (i & Ht & HP) Hf Hk HQ. apply wp_bind. unfold call. apply wp_intro. intros t' r.
  destruct (f t) as [t1 a] eqn:Ef. intros [= <- <-]. apply Hf in Ef. unfold effect in Ef. rewrite Ht in Ef.
  unfold wp. specialize (Hk a t1). destruct (ok a).
  - rewrite Hk. exists (g i). split; [|by apply HQ]. by rewrite Ef, alter_insert_eq.
  - destruct Hk as [e ->]. exists i. split; [done|by apply HQ].
Qed.

Lemma to_result_ok rc err t :
  if rc =? 0 then to_result rc err t = (t, Ok tt) else ∃ e, to_result rc err t = (t, Err e).
Proof. unfold to_result. destruct (rc =? 0); [done|]. by eexists. Qed.

Lemma own_subsystem_err m0 ss msg f g (P Q R : ss_info → Prop) t :
  owns m0 ss P t → (∀ t t' rc, f t = (t', rc) → effect ss g (rc =? 0) t t') → (∀ i, P i → Q (g i) ∧ R i) →
  own_wp m0 ss (subsystem_err ss msg f) Q R t.
Proof.
  intros Ht Hf HQ. unfold subsystem_err. eapply (own_effect _ _ _ g (λ rc, rc =? 0)); [done..| |done].
  intros rc t'. apply to_result_ok.
Qed.

Lemma own_try_call m0 ss f g err (P Q R : ss_info → Prop) t :
  owns m0 ss P t → (∀ t t' rc, f t = (t', rc) → effect ss g (rc =? 0) t t') → (∀ i, P i → Q (g i) ∧ R i) →
  own_wp m0 ss (try_call f err) Q R t.
Proof. intros Ht Hf HQ. eapply (own_effect _ _ _ g (λ rc, rc =? 0)); [done..| |done]. intros rc t'. apply to_result_ok. Qed.

(** ** Hosts *)

(** The same subsystem but for its hosts. *)
Definition upto i j : Prop := set_hosts [] i = set_hosts [] j.

Definition has_hosts i (H : string → Prop) j : Prop := upto i j ∧ ∀ h, h ∈ hosts j ↔ H h.

Lemma upto_refl i : upto i i.
Proof. done. Qed.

Lemma upto_set i j hs : upto i j → upto i (set_hosts hs j).
Proof. done. Qed.

Lemma upto_add i j h : upto i j → upto i (add_host h j).
Proof. unfold add_host. by destruct (decide _). Qed.

Lemma elem_add_host h x i : x ∈ hosts (add_host h i) ↔ x ∈ hosts i ∨ x = h.
Proof. unfold add_host. destruct (decide _); simpl; [naive_solver|]. rewrite elem_of_app, list_elem_of_singleton. done. Qed.

(** A host whose name holds a NUL is refused before SPDK is called. *)
Lemma own_cstr m0 ss h (k : string → ST tgt Nvmf.Error unit) (P Q R : ss_info → Prop) t :
  owns m0 ss P t → (∀ i, P i → R i) → own_wp m0 ss (k h) Q R t → own_wp m0 ss (ST.lift (cstr h) ≫= k) Q R t.
Proof.
  intros (i & Ht & HP) HR Hk. apply wp_bind. wp_step. unfold cstr. destruct (has NUL h); [|done]. exists i. auto.
Qed.

Lemma own_allow_hosts m0 ss i hs (H : string → Prop) t :
  owns m0 ss (has_hosts i H) t → own_wp m0 ss (allow_hosts ss hs) (has_hosts i (λ h, H h ∨ h ∈ hs)) (upto i) t.
Proof.
  revert H t. induction hs as [|h hs IH]; intros H t Ht; simpl.
  - destruct Ht as (j & Hj & ? & HH). exists j. split; [done|]. split; [done|]. intros x. rewrite HH. set_solver.
  - eapply own_bind.
    + unfold allow_host. eapply own_cstr; [exact Ht|by intros ? [??]|].
      eapply own_subsystem_err with (Q := has_hosts i (λ x, H x ∨ x = h)); [exact Ht|intros; by eapply add_host_law|].
      intros j [Hu HH]. split; [|done]. split; [by apply upto_add|]. intros x. by rewrite elem_add_host, HH.
    + intros _ t' Ht'. eapply own_mono; [apply IH, Ht'| |done].
      intros j [? HH]. split; [done|]. intros x. rewrite HH. set_solver.
Qed.

Lemma own_drop_hosts m0 ss i hs (H : string → Prop) t :
  owns m0 ss (has_hosts i H) t → own_wp m0 ss (drop_hosts ss hs) (has_hosts i (λ h, H h ∧ h ∉ hs)) (upto i) t.
Proof.
  revert H t. induction hs as [|h hs IH]; intros H t Ht; simpl.
  - destruct Ht as (j & Hj & ? & HH). exists j. split; [done|]. split; [done|]. intros x. rewrite HH. set_solver.
  - eapply own_bind; [|intros _ t1 Ht1; eapply own_bind].
    + unfold disallow_host. eapply own_cstr; [exact Ht|by intros ? [??]|].
      eapply own_subsystem_err with (Q := has_hosts i (λ x, H x ∧ x ≠ h)); [exact Ht|intros; by eapply remove_host_law|].
      intros j [Hu HH]. split; [|done]. split; [done|]. intros x. simpl. rewrite list_elem_of_filter, HH. tauto.
    + unfold disconnect_host. eapply own_cstr; [exact Ht1|by intros ? [??]|].
      eapply own_same; [exact Ht1| |by intros ? [??]]. intros t2 r. unfold try_call, call, to_result, mbind, ST_bind.
      destruct (subsystem_disconnect_host ss h t1) as [t3 rc] eqn:E. apply disconnect_law in E.
      destruct (rc =? 0); by intros [= <- <-].
    + intros _ t2 Ht2. eapply own_mono; [apply IH, Ht2| |done].
      intros j [? HH]. split; [done|]. intros x. rewrite HH. set_solver.
Qed.

(** The hosts after [set_allowed_hosts] *)
Definition hosts_after (old hs : list string) (h : string) : Prop := match hs with [] => h ∈ old | _ => h ∈ hs end.

Lemma own_set_allowed_hosts m0 ss i hs t :
  owns m0 ss (eq i) t → own_wp m0 ss (set_allowed_hosts ss hs) (has_hosts i (hosts_after (hosts i) hs)) (upto i) t.
Proof.
  intros (j & Ht & <-). unfold set_allowed_hosts. destruct hs as [|h hs].
  { exists i. split; [done|]. split; [done|]. done. }
  unfold own_wp. wp_step. wp_step. unfold allowed_hosts. rewrite Ht, lookup_insert_eq. simpl from_option.
  set (l := h :: hs). eapply own_bind.
  - apply own_allow_hosts with (i := i) (H := λ x, x ∈ hosts i). exists i. by repeat split.
  - intros _ t' Ht'. eapply own_mono; [apply own_drop_hosts, Ht'| |done].
    intros j [? HH]. split; [done|]. intros x. rewrite HH, !list_elem_of_filter. simpl. fold l.
    destruct (decide (x ∈ hosts i)), (decide (x ∈ l)); tauto.
Qed.

(** ** Starting and stopping *)

Lemma own_change_state m0 ss n op (P : ss_info → Prop) t :
  owns m0 ss P t → own_wp m0 ss (change_state n op ss) (λ j, ∃ i, P i ∧ j = set_state (op_target op) i) P t.
Proof.
  revert t. induction n as [|n IH]; intros t (i & Ht & HP); cbn [change_state]; apply wp_bind; unfold call; apply wp_intro.
  all: intros t' r; destruct (subsystem_change op ss t) as [t1 a] eqn:E; intros [= <- <-].
  all: apply change_law in E; unfold effect in E; rewrite Ht in E; wp_step; wp_step.
  all: destruct a as [rc|status]; [destruct (rc =? - EBUSY_rc)|].
  all: try (exists i; by split).
  1,3: unfold to_result; destruct (status =? 0); wp_step; [exists (set_state (op_target op) i)|exists i]; split;
    [by rewrite E, alter_insert_eq|by eauto|done..].
  wp_step. wp_step. apply IH. exists i. split; [by rewrite time_law|done].
Qed.

(** Stopping a subsystem first of all, and then it may or may not be possible to
    destroy it. *)
Lemma shutdown_wp m0 ss (P : ss_info → Prop) t :
  m0 !! ss = None → owns m0 ss P t →
  wp (shutdown_unsafe ss) (λ r t', (∃ rc, r = Ok rc) ∧
    (subsystems t' = m0 ∨ owns m0 ss (λ j, ∃ i, P i ∧ (j = i ∨ j = set_ns None i)) t')) t.
Proof.
  intros Hss (i & Ht & HP). apply wp_bind. unfold call. apply wp_intro. intros t' r.
  destruct (subsystem_remove_ns ss 1 t) as [t1 rc] eqn:E. intros [= <- <-]. apply remove_ns_law in E.
  unfold effect in E. rewrite Ht, alter_insert_eq in E.
  assert (∃ j, subsystems t1 = <[ss := j]> m0 ∧ (j = i ∨ j = set_ns None i)) as (j & Hj & Hij).
  { destruct (rc =? 0); eauto. }
  unfold destroy_unsafe. wp_step. wp_step. destruct (destroy_in_progress t1 ss).
  { wp_step. split; [by eexists|]. right. exists j. eauto. }
  apply wp_intro. intros t' r. unfold call. destruct (subsystem_destroy ss t1) as [t2 rc2] eqn:E2. intros [= <- <-].
  apply destroy_law in E2. split; [by eexists|]. rewrite Hj in E2. destruct (rc2 =? 0).
  - left. by rewrite E2, delete_insert_eq, delete_id.
  - right. exists j. eauto.
Qed.

Lemma start_wp m0 ss i rdma t :
  m0 !! ss = None → owns m0 ss (eq i) t →
  wp (start env ss rdma) (λ r t',
    match r with
    | Ok n => n = nqn i ∧ ∃ ls, trid_replica env Tcp ∈ ls ∧
        subsystems t' = <[ss := set_state Active (set_listeners ls i)]> m0
    | Err _ => subsystems t' = m0 ∨ owns m0 ss (λ j, state j = state i) t'
    | Panicked => False
    end) t.
Proof.
  intros Hss Ht. set (P := λ j, ∃ ls, trid_replica env Tcp ∈ ls ∧ j = set_listeners ls i).
  unfold start. apply wp_bind. eapply wp_mono.
  { eapply (own_try_call m0 ss _ _ _ (eq i) P (eq i)); [exact Ht|intros; by eapply listener_law|].
    intros j <-. split; [|done]. eexists. split; [|done]. set_solver. }
  intros [a|e|] t1 H1; [|right; destruct H1 as (? & ? & <-); by eexists|done].
  wp_step. wp_step. apply wp_bind.
  assert (wp (if rdma && has_rdma_xprt t1 then ST.try (E' := Nvmf.Error) (add_listener env ss Rdma);; mret tt else mret tt)
    (λ r t', r = Ok tt ∧ owns m0 ss P t') t1) as Hr.
  { destruct (_ && _); [|done]. apply wp_bind. apply wp_try.
    pose proof (own_try_call m0 ss _ _ (λ e, Nvmf.Transport e "Failed to add listener") P P P t1 H1
      (λ t t' rc E, listener_law ss (trid_replica env Rdma) t t' rc E)) as H.
    unfold own_wp, wp in H. unfold add_listener. destruct (try_call _ _ t1) as [t2 [?|?|]]; wp_steps; [..|destruct H].
    1,2: split; [done|]; apply H.
    all: intros j (ls & Hin & ->); split; [eexists; split; [|done]; set_solver|by eexists]. }
  eapply wp_mono; [exact Hr|]. intros r t2 [-> H2]. apply wp_bind. apply wp_try.
  pose proof (own_change_state m0 ss 3 OpStart P t2 H2) as H. unfold own_wp, wp in H.
  destruct (change_state 3 OpStart ss t2) as [t3 [a'|e|]]; cbv beta iota; [|..|done].
  - destruct H as (j & Hj & k & (ls & Hin & ->) & ->). wp_step. unfold get_nqn. rewrite Hj, lookup_insert_eq. eauto.
  - apply wp_bind. eapply wp_mono; [apply (shutdown_wp m0 ss P t3 Hss H)|].
    intros r t4 [(rc & ->) H4]. wp_steps. destruct H4 as [|(j & Hj & k & (ls & ? & ->) & Hk)]; [by left|right].
    exists j. split; [done|]. by destruct Hk as [->| ->].
Qed.

(** ** Sharing *)

(** Nothing was added but, maybe, a subsystem that nobody can connect to. *)
Definition idle_leftover (m0 : gmap nat ss_info) t : Prop :=
  subsystems t = m0 ∨ ∃ ss, m0 !! ss = None ∧ owns m0 ss (λ j, state j = Inactive) t.

Lemma nqn_nul id : has NUL (make_nqn id) = has NUL id.
Proof. done. Qed.

Lemma new_wp id t :
  wp (new id) (λ r t',
    match r with
    | Ok ss => subsystems t !! ss = None ∧ owns (subsystems t) ss (eq (fresh_ss (make_nqn id))) t'
    | Err _ => idle_leftover (subsystems t) t'
    | Panicked => has NUL id = true ∧ subsystems t' = subsystems t
    end) t.
Proof.
  unfold new. wp_step. wp_step. unfold into_cstring. rewrite nqn_nul. destruct (has NUL id); [done|].
  apply wp_bind, wp_intro. intros t' r. unfold call. destruct (subsystem_create _ t) as [t1 o] eqn:E. intros [= <- <-].
  apply create_law in E. destruct o as [ss|].
  - destruct E as [Hss E]. do 2 wp_step. set (i := fresh_ss _) in *.
    assert (own_wp (subsystems t) ss
      (try_call (subsystem_set_sn ss (serial_of t1 id)) (λ e, Nvmf.Subsystem e id "failed to set serial");;
       try_call (subsystem_set_mn ss NVME_CONTROLLER_MODEL_ID) (λ e, Nvmf.Subsystem e id "failed to set model number"))
      (eq i) (eq i) t1) as H.
    { assert (owns (subsystems t) ss (eq i) t1) as H1 by by exists i.
      eapply (own_bind _ _ _ _ (eq i)); [|intros _ t2 H2]; (eapply (own_try_call _ _ _ (λ i, i)); [eassumption| |by intros ? <-]);
        intros t3 t4 rc E3; unfold effect; [apply set_sn_law in E3|apply set_mn_law in E3];
        rewrite alter_id by done; by destruct (rc =? 0). }
    unfold own_wp, wp in *. revert H. unfold mbind, ST_bind.
    destruct (try_call _ _ t1) as [t2 [[]|e|]]; [|intros (j & Hj & <-); right; exists ss; split; [done|]; by exists i|done].
    destruct (try_call _ _ t2) as [t3 [[]|e|]]; [by intros H|intros (j & Hj & <-); right; exists ss; split; [done|]; by exists i|done].
  - do 2 wp_step. destruct (bool_decide _), (ids_exhausted t1); wp_step; by left.
Qed.

(** A subsystem for [bdev] that is not started. *)
Definition prepared (bdev : string) i : Prop :=
  nqn i = make_nqn bdev ∧ ns i = Some bdev ∧ hosts i = [] ∧ state i = Inactive.

Lemma own_set_ana m0 ss b (P Q R : ss_info → Prop) t :
  owns m0 ss P t → (∀ i, P i → Q i ∧ Q (set_ana b i) ∧ R i) → own_wp m0 ss (set_ana_reporting env ss b) Q R t.
Proof.
  intros Ht HQ. unfold set_ana_reporting. destruct (ana_enable env).
  - eapply own_subsystem_err; [exact Ht|intros; by eapply ana_law|]. intros i Hi. by apply HQ in Hi as (? & ? & ?).
  - destruct Ht as (i & ? & Hi). exists i. split; [done|]. by apply HQ.
Qed.

Lemma own_allow_any m0 ss b (P Q R : ss_info → Prop) t :
  owns m0 ss P t → (∀ i, P i → Q (set_any b i)) → own_wp m0 ss (allow_any ss b) Q R t.
Proof.
  intros (i & Ht & Hi) HQ. unfold own_wp, allow_any. wp_step. exists (set_any b i). split; [|by apply HQ].
  rewrite (allow_any_law ss b t), Ht. apply alter_insert_eq.
Qed.

Lemma try_from_with_wp bdev ptpl t :
  wp (try_from_with env bdev ptpl) (λ r t',
    match r with
    | Ok ss => subsystems t !! ss = None ∧ owns (subsystems t) ss (prepared bdev) t'
    | Err _ => idle_leftover (subsystems t) t'
    | Panicked => has NUL bdev = true ∧ subsystems t' = subsystems t
    end) t.
Proof.
  unfold try_from_with. do 2 wp_step. destruct (bool_decide _); [wp_step; by left|].
  apply wp_bind. eapply wp_mono; [apply new_wp|]. intros [ss|e|] t1; [|done..]. intros [Hss H1].
  set (P := λ i, nqn i = make_nqn bdev ∧ hosts i = [] ∧ state i = Inactive).
  assert (own_wp (subsystems t) ss (set_ana_reporting env ss false;; allow_any ss false) P P t1) as H.
  { eapply own_bind; [eapply (own_set_ana _ _ _ _ P); [exact H1|by intros ? <-]|]. intros _ t2 H2.
    by eapply own_allow_any. }
  assert (∀ m0 t, m0 !! ss = None → owns m0 ss P t → idle_leftover m0 t) as idle.
  { intros m0 t' Hm (j & Hj & _ & _ & Hs). right. exists ss. split; [done|]. by exists j. }
  unfold own_wp, wp in *. revert H. unfold mbind, ST_bind.
  destruct (set_ana_reporting env ss false t1) as [t2 [[]|e|]]; [|by apply idle|done].
  destruct (allow_any ss false t2) as [t3 [[]|e|]]; [|by apply idle|done]. intros H3.
  unfold ST.try, add_namespace, call, mbind, ST_bind. destruct H3 as (i & Hi & Hn & Hh & Hs).
  destruct (subsystem_add_ns ss bdev ptpl t3) as [t4 id] eqn:E. apply add_ns_law in E. unfold effect in E.
  rewrite Hi, alter_insert_eq in E. destruct (Z.ltb_spec id 1), (Z.leb_spec 1 id); try lia; simpl.
  - unfold destroy_unsafe, ST.get, mbind, ST_bind. destruct (destroy_in_progress t4 ss); simpl.
    { apply idle; [done|]. exists i. by repeat split. }
    unfold call. destruct (subsystem_destroy ss t4) as [t5 rc] eqn:E5. apply destroy_law in E5. simpl. rewrite E in E5.
    destruct (rc =? 0); [left; by rewrite E5, delete_insert_eq, delete_id|]. apply idle; [done|]. exists i. by repeat split.
  - split; [done|]. eexists. by split; [exact E|].
Qed.

(** What a client asked for when it shared [bdev]. *)
Definition serves (bdev : string) (props : NvmfShareProps) i : Prop :=
  nqn i = make_nqn bdev ∧ ns i = Some bdev ∧ state i = Active ∧
  any_host i = host_any (props_hosts props) ∧ (∀ h, h ∈ hosts i ↔ h ∈ props_hosts props) ∧
  trid_replica env Tcp ∈ listeners i.

(** The subsystem after it is configured, and before it is started. *)
Definition configured (bdev : string) (props : NvmfShareProps) i : Prop :=
  nqn i = make_nqn bdev ∧ ns i = Some bdev ∧ state i = Inactive ∧
  any_host i = host_any (props_hosts props) ∧ ∀ h, h ∈ hosts i ↔ h ∈ props_hosts props.

Lemma configured_upto bdev props i j :
  prepared bdev i → any_host i = host_any (props_hosts props) →
  has_hosts i (hosts_after (hosts i) (props_hosts props)) j → configured bdev props j.
Proof.
  intros (? & ? & Hh & ?) ? [Hu HH]. unfold upto, set_hosts in Hu. unfold configured.
  injection Hu as <- <- <- _ <- _ _. repeat split; try done; rewrite HH.
  all: unfold hosts_after; rewrite Hh; by destruct (props_hosts props).
Qed.

Definition share_post (bdev : string) (props : NvmfShareProps) t {E} (r : outcome E string) t' : Prop :=
  match r with
  | Ok n => n = make_nqn bdev ∧ ∃ ss, subsystems t !! ss = None ∧ owns (subsystems t) ss (serves bdev props) t'
  | Err _ => idle_leftover (subsystems t) t'
  | Panicked => has NUL bdev = true ∧ subsystems t' = subsystems t
  end.

Lemma share_wp bdev props t : wp (share_nvmf env bdev props) (share_post bdev props t) t.
Proof.
  unfold share_nvmf, ST.with_err, wp.
  match goal with |- context [?m t] =>
    assert (wp m (share_post bdev props t) t) as H; [|unfold wp in H; by destruct (m t) as [t' [n|e|]]] end.
  do 2 wp_step. apply wp_bind. eapply wp_mono; [apply try_from_with_wp|]. intros [ss|e|] t1; [|done..]. intros [Hss H1].
  assert (∀ (e : Nvmf.Error) t', owns (subsystems t) ss (λ j, state j = Inactive) t' → share_post bdev props t (Err e) t') as idle.
  { intros e t' H. right. eauto. }
  assert (∀ i, prepared bdev i → state i = Inactive) as Hi by by intros ? (_ & _ & _ & ?).
  eapply (own_then _ _ _ _ (prepared bdev)); [|intros _ t2 H2|exact idle].
  { destruct (props_range props) as [[lo hi]|]; [|by destruct H1 as (i & ? & ?); exists i].
    eapply own_subsystem_err; [exact H1|intros; by eapply range_law|]. auto. }
  eapply (own_then _ _ _ _ (prepared bdev)); [eapply own_set_ana; [exact H2|intros i Hp; by split_and!; [..|apply Hi]]|intros _ t3 H3|exact idle].
  eapply (own_then _ _ _ _ (λ i, prepared bdev i ∧ any_host i = host_any (props_hosts props))); [|intros _ t4 H4|exact idle].
  { eapply own_allow_any; [exact H3|]. done. }
  eapply (own_then _ _ _ _ (configured bdev props)); [|intros _ t5|exact idle].
  { destruct H4 as (i & Ht4 & (? & ? & Hh & ?) & ?).
    eapply own_mono; [apply (own_set_allowed_hosts _ _ i); by exists i|intros j; by apply configured_upto|].
    intros j Hu. unfold upto, set_hosts in Hu. injection Hu as _ _ _ _ <- _ _; done. }
  intros (i & H5 & Hn & Hns & Hst & Hany & Hh).
  pose proof (start_wp (subsystems t) ss i (bool_decide (driver_of t bdev = NEXUS_MODULE_NAME)) t5 Hss) as Hs.
  unfold wp in *. destruct (start env ss _ t5) as [t6 [n|e|]].
  - destruct Hs as (-> & ls & Hin & Hs); [by exists i|]. split; [done|]. exists ss. split; [done|].
    eexists. split; [exact Hs|]. by repeat split; try apply Hh.
  - destruct Hs as [|(j & Hj & Hsj)]; [by exists i|by left|]. right. exists ss. split; [done|]. exists j. split; [done|]. congruence.
  - destruct Hs. by exists i.
Qed.

(** C30.  A bdev that was shared is served by one new subsystem, which is
    started, listens on TCP and lets in exactly the hosts that were asked for, or
    any host if none was named.  When sharing fails the subsystems are those of
    before, one that serves the bdev already included, with at most one new
    subsystem among them, which is inactive.  Sharing panics only on a name with a
    NUL byte. *)
Theorem shared_bdev_is_served bdev props t t' r :
  share_nvmf env bdev props t = (t', r) →
  match r with
  | Ok n => n = make_nqn bdev ∧ ∃ ss i, subsystems t !! ss = None ∧ subsystems t' = <[ss := i]> (subsystems t) ∧ serves bdev props i
  | Err _ => subsystems t' = subsystems t ∨
      ∃ ss i, subsystems t !! ss = None ∧ subsystems t' = <[ss := i]> (subsystems t) ∧ state i = Inactive
  | Panicked => has NUL bdev = true ∧ subsystems t' = subsystems t
  end.
Proof.
  intros E. pose proof (wp_elim _ _ _ _ _ (share_wp bdev props t) E) as H. destruct r as [n|e|]; simpl in H; [|..|done].
  - destruct H as (-> & ss & Hss & i & ? & ?). eauto 8.
  - destruct H as [|(ss & Hss & i & ? & ?)]; [by left|]. right. eauto 8.
Qed.

Lemma lookup_wp {E} bdev t (Q : outcome E (option nat) → tgt → Prop) :
  (has NUL bdev = true → Q Panicked t) →
  (has NUL bdev = false → Q (Ok (tgt_find_subsystem t (make_nqn bdev))) t) → wp (nqn_lookup bdev) Q t.
Proof.
  intros Hp Ho. unfold nqn_lookup. do 2 wp_step. unfold into_cstring. rewrite nqn_nul. destruct (has NUL bdev); [auto|].
  wp_step. auto.
Qed.

Lemma owns_found bdev t ss :
  tgt_find_subsystem t (make_nqn bdev) = Some ss →
  ∃ i, nqn i = make_nqn bdev ∧ subsystems t !! ss = Some i ∧ owns (delete ss (subsystems t)) ss (eq i) t.
Proof.
  intros (i & Hi & Hn)%find_law. exists i. split; [done|]. split; [done|]. exists i. split; [|done].
  by rewrite insert_delete_id.
Qed.

(** Nobody can connect to [bdev], and the other subsystems are those of [m0]. *)
Definition not_served (m0 : gmap nat ss_info) (bdev : string) t : Prop :=
  (∀ ss i, subsystems t !! ss = Some i → nqn i = make_nqn bdev → state i = Inactive) ∧
  ∀ ss i, nqn i ≠ make_nqn bdev → (subsystems t !! ss = Some i ↔ m0 !! ss = Some i).

Lemma not_found bdev t : tgt_find_subsystem t (make_nqn bdev) = None → not_served (subsystems t) bdev t.
Proof.
  intros Hf. split; [|done]. intros ss i Hi Hn. assert (tgt_find_subsystem t (make_nqn bdev) = Some ss) by (apply find_law; eauto).
  congruence.
Qed.

Lemma stop_for_destroy_wp bdev ss t :
  tgt_find_subsystem t (make_nqn bdev) = Some ss →
  wp (stop_for_destroy ss) (λ r t', match r with Ok _ => not_served (subsystems t) bdev t' | Err _ => True | Panicked => False end) t.
Proof.
  intros Hf. destruct (owns_found _ _ _ Hf) as (i & Hn & Hi & Ho). unfold stop_for_destroy.
  eapply own_then; [apply (own_change_state _ _ 3 OpStop _ _ Ho)| |done]. intros _ t1 H1. apply wp_bind.
  eapply wp_mono; [apply (shutdown_wp _ _ _ _ (lookup_delete_eq _ _) H1)|]. intros r t2 [(rc & ->) H2]. wp_step.
  assert (∀ o, o ≠ ss → (∀ j, subsystems t2 !! o = Some j ↔ subsystems t !! o = Some j)) as Hoth.
  { intros o Ho'. destruct H2 as [-> |(j & -> & _)]; intros k; [|rewrite lookup_insert_ne by done]; by rewrite lookup_delete_ne. }
  assert (∀ j, subsystems t2 !! ss = Some j → nqn j = make_nqn bdev ∧ state j = Inactive) as Hss.
  { destruct H2 as [-> |(j & -> & k & (l & <- & ->) & Hj)]; intros k'; [by rewrite lookup_delete_eq|].
    rewrite lookup_insert_eq. intros [= <-]. by destruct Hj as [->| ->]. }
  split.
  - intros o j Hj Hnj. destruct (decide (o = ss)) as [->|Hne]; [by apply Hss|].
    apply Hoth in Hj; [|done]. assert (tgt_find_subsystem t (make_nqn bdev) = Some o) by (apply find_law; eauto). congruence.
  - intros o j Hnj. destruct (decide (o = ss)) as [->|Hne]; [|by apply Hoth].
    split; intros Hj; [by destruct (Hss _ Hj)|]. congruence.
Qed.

(** A bdev that was unshared cannot be reached any more, and the other
    subsystems are untouched. *)
Theorem unshared_bdev_is_not_served bdev t t' :
  unshare bdev t = (t', Ok tt) → not_served (subsystems t) bdev t'.
Proof.
  intros E. refine (wp_elim _ (λ r t', r = Ok tt → not_served (subsystems t) bdev t') _ _ _ _ E eq_refl).
  assert (∀ t1, subsystems t1 = subsystems t → tgt_find_subsystem t1 (make_nqn bdev) = None → not_served (subsystems t) bdev t1) as Hno.
  { intros t1 <-. apply not_found. }
  assert (wp (o ← nqn_lookup bdev; match o with None => mret tt | Some ss => ST.with_err UnshareNvmf (stop_for_destroy ss) end)
    (λ r t', r = Ok tt → not_served (subsystems t) bdev t') t) as Hstop.
  { apply wp_bind, lookup_wp; [done|]. intros _. destruct (tgt_find_subsystem t _) as [ss|] eqn:Hf; [|wp_step; auto].
    pose proof (stop_for_destroy_wp _ _ _ Hf) as H. unfold wp, ST.with_err in *.
    by destruct (stop_for_destroy ss t) as [t1 [[]|e|]]. }
  unfold unshare, is_shared. apply wp_bind. wp_step. wp_step. destruct (shared t bdev); [exact Hstop|].
  apply wp_bind, lookup_wp; [done|]. intros _. wp_step. destruct (bool_decide _) eqn:Eb; [exact Hstop|].
  wp_step. intros _. apply Hno; [done|]. apply bool_decide_eq_false in Eb. by apply eq_None_not_Some.
Qed.

(** Changing the hosts of a shared bdev: exactly the hosts that are named may
    connect.  An empty list lets any host in, and leaves the list of hosts as it
    was. *)
Theorem updated_hosts_are_allowed bdev hs t t' ss i :
  shared t bdev = true → tgt_find_subsystem t (make_nqn bdev) = Some ss → subsystems t !! ss = Some i →
  update_properties bdev hs t = (t', Ok tt) →
  ∃ j, subsystems t' = <[ss := j]> (subsystems t) ∧ any_host j = host_any hs ∧ (hs ≠ [] → ∀ h, h ∈ hosts j ↔ h ∈ hs) ∧
    state j = state i ∧ ns j = ns i.
Proof.
  intros Hs Hf Hi E. destruct (owns_found _ _ _ Hf) as (i' & Hn & Hi' & Ho). simplify_eq.
  refine (wp_elim _ (λ r t', r = Ok tt → ∃ j, subsystems t' = <[ss := j]> (subsystems t) ∧ any_host j = host_any hs ∧
    (hs ≠ [] → ∀ h, h ∈ hosts j ↔ h ∈ hs) ∧ state j = state i ∧ ns j = ns i) _ _ _ _ E eq_refl).
  unfold update_properties. do 2 wp_step. rewrite Hs. apply wp_bind, lookup_wp; [done|]. intros _. rewrite Hf.
  assert (own_wp (delete ss (subsystems t)) ss (allow_any ss (host_any hs);; set_allowed_hosts ss hs)
    (λ j, any_host j = host_any hs ∧ (hs ≠ [] → ∀ h, h ∈ hosts j ↔ h ∈ hs) ∧ state j = state i ∧ ns j = ns i) (λ _, True) t) as H.
  { eapply (own_bind _ _ _ _ (eq (set_any (host_any hs) i))); [eapply own_allow_any; [exact Ho|by intros ? <-]|].
    intros _ t1 H1. eapply own_mono; [apply own_set_allowed_hosts, H1| |done].
    intros j [Hu HH]. unfold upto, set_hosts, set_any in Hu. injection Hu as _ <- <- _ <- _ _. split_and!; try done.
    intros Hne h. rewrite HH. by destruct hs. }
  unfold own_wp, wp, ST.with_err in *. match type of H with let '(_, _) := ?x in _ => destruct x as [t1 [[]|e|]] end; try done.
  destruct H as (j & Hj & ?). intros _. exists j. split; [|done]. by rewrite Hj, insert_delete_eq.
Qed.

End Props.

End NvmfProps.
