(* ===== verification/NexusShare.v ===== *)
(** * Sharing a nexus

    [bdev/nexus/nexus_share.rs]: a nexus is published as an NVMe-oF subsystem or
    as an NBD device.  That I/O may flow is recorded in the persistent store
    before it can, and the record is taken back only after it cannot any more, so
    that after a crash replicas are trusted to be in sync only if they are.

    A nexus is [tg], the NVMe-oF target, the persisted state of [NexusPersist],
    and the target it was published with.  [points] is the history: after each
    call that leaves the engine, whether clients can reach the nexus, and the
    record in the store.  The engine may crash at any of these points. *)

From S2P Require Import Prelude Text Wp Errors NexusErrors NexusChild NexusIo NvmfSubsystem NvmfProps NexusPersist.
Import NexusErr.
#[local] Open Scope Z_scope.

Module NxShare.
Import Persist.

Inductive NexusTarget := NbdDisk (uri : string) | NexusNvmfTarget.

Inductive Protocol := Off | Nvmf_.

#[global] Instance Protocol_eq_dec : EqDecision Protocol.
Proof. solve_decision. Defined.

(** [From<&NexusTarget> for Protocol] *)
Definition protocol_of (t : NexusTarget) : Protocol := match t with NexusNvmfTarget => Nvmf_ | NbdDisk _ => Off end.

Section Share.
Context `{NV : Subsys.Nvmf} {S V : Type} `{!Etcd S V, !Json V}.
Variable env : Subsys.NvmfEnv.
(** The store and the name of the nexus; the range of controller ids; the answer
    of [create_ptpl] and of [NbdDisk::create]. *)
Variables (enabled : bool) (retries : Z) (key : string) (uuid_of : string → option string).
Variables (name : string) (cntlids : Z * Z).

Record World := mkW {
  tg : Subsys.tgt;
  pw : Persist.World S;
  nexus_target : option NexusTarget;
  nbd : option string;
  points : list (bool * option V);
}.

Local Abbreviation M := (ST World Error).

(** Clients can reach the nexus: its subsystem is not stopped, or there is an
    NBD device. *)
Definition served (t : Subsys.tgt) : bool :=
  match Subsys.tgt_find_subsystem t (Subsys.make_nqn name) with
  | Some ss =>
      match Subsys.state <$> Subsys.subsystems t !! ss with
      | Some Subsys.Active | Some Subsys.Paused => true
      | Some Subsys.Inactive | None => false
      end
  | None => false
  end.

Definition live (w : World) : bool := served (tg w) || bool_decide (is_Some (nbd w)).

(** A point of the history. *)
Definition mark (w : World) : World :=
  mkW (tg w) (pw w) (nexus_target w) (nbd w) (points w ++ [(live w, et_get (store (pw w)) key)]).

Definition set_target (t : option NexusTarget) (w : World) : World := mkW (tg w) (pw w) t (nbd w) (points w).
Definition set_nbd (d : option string) (w : World) : World := mark (mkW (tg w) (pw w) (nexus_target w) d (points w)).

Definition on_tgt {A} (err : CoreError → Error) (m : ST Subsys.tgt CoreError A) : M A := λ w,
  let '(t, r) := m (tg w) in (mark (mkW t (pw w) (nexus_target w) (nbd w) (points w)), map_err err r).

(** [Nexus::persist] *)
Definition persist (op : PersistOp) : M unit := λ w,
  let '(p, r) := Persist.persist enabled retries key uuid_of [] op (pw w) in
  (mark (mkW (tg w) p (nexus_target w) (nbd w) (points w)), r).

Definition unwrap {A} (o : option A) : M A := ST.lift (of_option o).

Definition share_uri : M string := o ← on_tgt ShareNvmfNexus (Subsys.share_uri name); unwrap o.

(** [Share::share_nvmf] of a nexus *)
Definition share_nvmf (props : Subsys.NvmfShareProps) : M string :=
  w ← ST.get;
  if Subsys.shared (tg w) name then share_uri
  else
    persist (SetShared true);;
    on_tgt ShareNvmfNexus (Subsys.share_nvmf env name props);;
    share_uri.

Definition update_properties (hs : list string) : M unit :=
  on_tgt UpdateShareProperties (Subsys.update_properties name hs).

(** [Nexus::get_share_uri] *)
Definition get_share_uri : M (option string) :=
  w ← ST.get;
  match nexus_target w with
  | Some (NbdDisk u) => mret (Some u)
  | Some NexusNvmfTarget => on_tgt ShareNvmfNexus (Subsys.share_uri name)
  | None => mret None
  end.

Definition share_ext (ptpl : outcome CoreError (option string)) (nbd_create : outcome unit string) (protocol : Protocol)
    (allowed_hosts : list string) : M string :=
  w ← ST.get;
  match nexus_target w with
  | Some target =>
      if bool_decide (protocol_of target = protocol) then
        update_properties allowed_hosts;;
        u ← get_share_uri;
        unwrap u
      else ST.fail AlreadyShared
  | None =>
      match protocol with
      | Off =>
          persist (SetShared true);;
          uri ← ST.lift (map_err (λ _, ShareNbdNexus) nbd_create);
          ST.modify (set_nbd (Some uri));;
          ST.modify (set_target (Some (NbdDisk uri)));;
          mret uri
      | Nvmf_ =>
          p ← ST.lift (map_err ShareNvmfNexus ptpl);
          uri ← share_nvmf (Subsys.mkShareProps (Some cntlids) true allowed_hosts p);
          ST.modify (set_target (Some NexusNvmfTarget));;
          mret uri
      end
  end.

(** [Share::unshare] of a nexus *)
Definition unshare : M unit := on_tgt UnshareNexus (Subsys.unshare name).

(** [unshare_nexus_internal]: the record is changed only if the subsystem is
    really gone, and that it cannot be changed is only logged. *)
Definition unshare_nexus_internal (persist_clean : bool) : M unit :=
  w ← ST.get;
  ST.modify (set_target None);;
  (match nexus_target w with Some (NbdDisk _) => ST.modify (set_nbd None) | _ => mret tt end);;
  unshare;;
  if persist_clean then
    o ← on_tgt UnshareNexus (Subsys.nqn_lookup name);
    match o with
    | Some _ => mret tt
    | None => ST.try (E := Error) (persist (SetShared false));; mret tt
    end
  else mret tt.

Definition unshare_nexus : M unit := unshare_nexus_internal true.

End Share.

End NxShare.
