(* ===== verification/NexusShareProps.v ===== *)
(** * Sharing a nexus: properties

    Whenever clients can reach a nexus, the persistent store says so. *)

From S2P Require Import Prelude Text Wp Errors NexusErrors NexusChild NexusIo NvmfSubsystem NvmfProps NexusPersist NexusShare.
Import NexusErr.
#[local] Open Scope Z_scope.

(** ** Calls that start no subsystem *)

Module NoStart.
Import Subsys NvmfProps.

Section NoStart.
Context `{NL : NvmfLaws}.

(** A subsystem that is running was running before. *)
Definition no_start (t t' : tgt) : Prop :=
  ∀ ss i', subsystems t' !! ss = Some i' → state i' ≠ Inactive →
    ∃ i, subsystems t !! ss = Some i ∧ state i ≠ Inactive ∧ nqn i = nqn i'.

#[global] Instance no_start_preorder : PreOrder no_start.
Proof.
  split; [intros t ss i; eauto|]. intros t1 t2 t3 H1 H2 ss i3 H3 Hs.
  destruct (H2 _ _ H3 Hs) as (i2 & E2 & Hs2 & Hn2). destruct (H1 _ _ E2 Hs2) as (i1 & E1 & Hs1 & Hn1).
  exists i1. split_and!; congruence.
Qed.

Lemma no_start_same t t' : subsystems t' = subsystems t → no_start t t'.
Proof. intros H ss i. rewrite H. eauto. Qed.

Lemma no_start_effect ss f ok t t' :
  effect ss f ok t t' → (∀ i, nqn (f i) = nqn i ∧ (state (f i) = state i ∨ state (f i) = Inactive)) → no_start t t'.
Proof.
  unfold effect. intros H Hf o i'. rewrite H. destruct ok; [|eauto].
  destruct (decide (o = ss)) as [->|Hne]; [|rewrite lookup_alter_ne by done; eauto].
  rewrite lookup_alter_eq, fmap_Some. intros (i & Hi & ->) Hs. exists i. destruct (Hf i) as [? [?|?]]; split_and!; congruence.
Qed.

Lemma keeps_call {A} (f : tgt → tgt * A) : (∀ t t' a, f t = (t', a) → no_start t t') → keeps no_start (call f).
Proof. intros H t. unfold call. destruct (f t) as [t' a] eqn:E. simpl. eauto. Qed.

Lemma keeps_effect {A} ss g (ok : A → bool) (f : tgt → tgt * A) :
  (∀ t t' a, f t = (t', a) → effect ss g (ok a) t t') →
  (∀ i, nqn (g i) = nqn i ∧ (state (g i) = state i ∨ state (g i) = Inactive)) → keeps no_start (call f).
Proof. intros H Hg. apply keeps_call. intros t t' a E. eapply no_start_effect; [by apply H|done]. Qed.

Lemma keeps_to_result rc err : keeps no_start (to_result rc err).
Proof. unfold to_result. keeps_tac. Qed.
#[local] Hint Resolve keeps_to_result : keeps.

Lemma keeps_subsystem_err ss msg f : keeps no_start (call f) → keeps no_start (subsystem_err ss msg f).
Proof. intros H. unfold subsystem_err. keeps_tac. Qed.

Lemma keeps_change_state n op ss : op = OpStop → keeps no_start (change_state n op ss).
Proof.
  intros ->. assert (keeps no_start (call (subsystem_change OpStop ss))) as Hc.
  { eapply keeps_effect; [by apply change_law|]. auto. }
  induction n as [|n IH]; cbn [change_state]; keeps_tac; auto.
  intros t. apply no_start_same. simpl. apply time_law.
Qed.

Lemma keeps_destroy ss : keeps no_start (destroy_unsafe ss).
Proof.
  unfold destroy_unsafe. keeps_tac. apply keeps_call. intros t t' rc E. apply destroy_law in E.
  intros o i'. rewrite E. destruct (rc =? 0); [|eauto]. rewrite lookup_delete_Some. intros [? ?]. eauto.
Qed.

Lemma keeps_stop_for_destroy ss : keeps no_start (stop_for_destroy ss).
Proof.
  unfold stop_for_destroy, shutdown_unsafe. keeps_tac; auto using keeps_change_state, keeps_destroy.
  eapply keeps_effect; [by apply remove_ns_law|]. auto.
Qed.

Lemma keeps_lookup {E} bdev : keeps no_start (nqn_lookup (E := E) bdev).
Proof. unfold nqn_lookup. keeps_tac. Qed.

Lemma keeps_unshare bdev : keeps no_start (unshare bdev).
Proof.
  unfold unshare, is_shared. keeps_tac; auto using keeps_lookup, keeps_with_err, keeps_stop_for_destroy.
Qed.

Lemma keeps_allow_hosts ss hs : keeps no_start (allow_hosts ss hs).
Proof.
  induction hs as [|h hs IH]; simpl; keeps_tac; auto. unfold allow_host. keeps_tac. apply keeps_subsystem_err.
  eapply keeps_effect; [by apply add_host_law|]. intros i. unfold add_host. destruct (decide _); auto.
Qed.

Lemma keeps_drop_hosts ss hs : keeps no_start (drop_hosts ss hs).
Proof.
  induction hs as [|h hs IH]; simpl; keeps_tac; auto.
  - unfold disallow_host. keeps_tac. apply keeps_subsystem_err. eapply keeps_effect; [by apply remove_host_law|]. auto.
  - unfold disconnect_host, try_call. keeps_tac. apply keeps_call. intros t t' rc E. apply no_start_same. by eapply disconnect_law.
Qed.

Lemma keeps_set_allowed_hosts ss hs : keeps no_start (set_allowed_hosts ss hs).
Proof.
  unfold set_allowed_hosts. destruct hs as [|h hs]; [auto with keeps|]. keeps_tac; auto using keeps_allow_hosts, keeps_drop_hosts.
Qed.

Lemma keeps_update bdev hs : keeps no_start (update_properties bdev hs).
Proof.
  unfold update_properties. keeps_tac; auto using keeps_lookup. apply keeps_with_err.
  keeps_tac; auto using keeps_set_allowed_hosts. intros t. eapply no_start_effect; [apply allow_any_law|]. auto.
Qed.

Lemma keeps_share_uri bdev : keeps no_start (share_uri bdev).
Proof. unfold share_uri, get_uri. keeps_tac; auto using keeps_lookup. Qed.

End NoStart.
End NoStart.

(** ** The marker in the store *)

Module ShareProps.
Import Persist NxShare.

(** A put that fails has stored the value or not; and what other clients do in
    the meantime leaves the marker alone. *)
Class EtcdOwned (S V : Type) `{!Etcd S V, !Json V} (key : string) : Prop := {
  put_err v s s' e : et_put key v s = (s', Err e) → et_get s' key = et_get s key ∨ et_get s' key = Some v;
  sleep_keeps s v i : et_get s key = Some v → from_json v = Some i → is_shared i = true →
    ∃ v' i', et_get (et_sleep s) key = Some v' ∧ from_json v' = Some i' ∧ is_shared i' = true;
}.

Section ShareProps.
Context `{NL : NvmfProps.NvmfLaws} {S V : Type} `{!Etcd S V, !EtcdLaws S V, !Json V, !JsonLaws V}.
Variables (env : Subsys.NvmfEnv) (retries : Z) (key : string) (uuid_of : string → option string).
Variables (name : string) (cntlids : Z * Z).
Context `{!EtcdOwned S V key}.
Implicit Types (s : S) (w : World (S := S) (V := V)).

(** A record says that clients can reach the nexus. *)
Definition says_shared (o : option V) : Prop := ∃ v i, o = Some v ∧ from_json v = Some i ∧ is_shared i = true.

Definition recorded s : Prop := says_shared (et_get s key).

Lemma stored_recorded s i : et_get s key = Some (to_json i) → is_shared i = true → recorded s.
Proof. intros H Hi. exists (to_json i), i. by rewrite from_to_json. Qed.

(** The operations on the record that the other parts of the nexus make. *)
Definition benign (op : PersistOp) : Prop := match op with Create | SetShared false => False | _ => True end.

Lemma save_loop_recorded n i s s' r :
  is_shared i = true → recorded s → save_loop key n i s = (s', r) → recorded s'.
Proof.
  intros Hi. revert s. induction n as [|n IH]; intros s Hs; cbn [save_loop]; [by intros [= <- <-]|].
  destruct (et_put key (to_json i) s) as [s1 [[]|e|]] eqn:E.
  - intros [= <- <-]. eapply stored_recorded; [by eapply et_put_ok|done].
  - assert (recorded s1) as H1.
    { destruct (put_err _ _ _ _ E) as [Hg|Hg]; [by unfold recorded; rewrite Hg|by eapply stored_recorded]. }
    destruct n as [|n]; [by intros [= <- <-]|]. apply IH. destruct H1 as (v & j & ? & ? & ?). by eapply sleep_keeps.
  - by destruct (et_put_total _ _ _ _ E).
Qed.

Lemma save_txn_recorded n i old s s' r :
  is_shared i = true → recorded s → save_txn_loop key n (to_json i) old s = (s', r) → recorded s'.
Proof.
  intros Hi. revert s. induction n as [|n IH]; intros s Hs; cbn [save_txn_loop]; [by intros [= <- <-]|].
  unfold put_kv_cas. destruct (et_txn key old (to_json i) s) as [s1 [[[] resp]|e|]] eqn:E; simpl.
  - intros [= <- <-]. eapply stored_recorded; [by eapply et_txn_ok|done].
  - destruct (et_txn_no _ _ _ _ _ _ E) as (_ & Hg & ->). assert (recorded s1) by (unfold recorded; by rewrite Hg).
    destruct (et_get s key) as [v|]; simpl; [destruct (from_json v); [case_bool_decide|]|]; by intros [= <- <-].
  - assert (recorded s1) as H1.
    { destruct (et_txn_err _ _ _ _ _ _ E) as [Hg|[_ Hg]]; [by unfold recorded; rewrite Hg|by eapply stored_recorded]. }
    destruct n as [|n]; [by intros [= <- <-]|]. apply IH. destruct H1 as (v & j & ? & ? & ?). by eapply sleep_keeps.
  - by destruct (et_txn_total _ _ _ _ _ E).
Qed.

Lemma apply_benign op i i' :
  benign op → apply_op uuid_of [] op i = Ok i' → is_shared i = true → is_shared i' = true.
Proof.
  destruct op as [|uri h|uri|uri h|uri h p| |[]]; try done; intros _; unfold apply_op, of_option, mbind, outcome_bind.
  1-4: destruct (uuid_of uri); [|done]. all: by intros [= <-].
Qed.

(** Both copies of the marker stay when they say that the nexus is shared. *)
Lemma persist_keeps_marker op p p' r :
  benign op → is_shared (nexus_info p) = true → recorded (store p) →
  Persist.persist true retries key uuid_of [] op p = (p', r) →
  is_shared (nexus_info p') = true ∧ recorded (store p').
Proof.
  intros Hb Hi Hs. unfold Persist.persist. cbn [negb]. cbv zeta.
  change (nexus_info (set_nexus_io_mode Nx.Freeze p)) with (nexus_info p).
  assert (∀ q, is_shared (nexus_info q) = true → recorded (store q) → save_and_resume retries key op q = (p', r) →
    is_shared (nexus_info p') = true ∧ recorded (store p')) as Hsave.
  { intros q Hq Hsq. unfold save_and_resume, save. destruct (save_loop key _ _ _) as [s1 o] eqn:E.
    apply save_loop_recorded in E; [|done..]. destruct o; [| |by intros [= <- <-]]; [intros [= <- <-]; done|].
    destruct op; by intros [= <- <-]. }
  assert (∀ i, apply_op uuid_of [] op (nexus_info p) = Ok i → is_shared i = true) as Hop by (intros; by eapply apply_benign).
  destruct op as [|uri h|uri|uri h|uri h pr| |sh]; try done.
  4:{ destruct (pr (nexus_info p)); cbn [negb]; [|by intros [= <- <-]].
      destruct (apply_op uuid_of [] _ _) as [i|e|] eqn:Ea; [|by intros [= <- <-]..]. specialize (Hop _ eq_refl).
      unfold save_txn. destruct (save_txn_loop key _ _ _ _) as [s1 o] eqn:E. apply save_txn_recorded in E; [|done..].
      destruct o as [[[b|] [[]|e|]]|e|]; by intros [= <- <-]. }
  all: destruct (apply_op uuid_of [] _ _) as [i|e|] eqn:Ea; [|by intros [= <- <-]..]; specialize (Hop _ eq_refl); by apply Hsave.
Qed.

Lemma persist_sets_marker p p' :
  0 ≤ retries → Persist.persist true retries key uuid_of [] (SetShared true) p = (p', Ok tt) →
  is_shared (nexus_info p') = true ∧ recorded (store p').
Proof.
  intros Hr. unfold Persist.persist. simpl. intros E.
  destruct (PersistProps.save_and_resume_spec retries key _ _ _ _ Hr E) as (_ & Hi & Hok & _).
  rewrite Hi. split; [done|]. destruct (Hok eq_refl) as [_ Hg]. by eapply stored_recorded.
Qed.

(** ** The history *)

(** Were the engine to crash here, the record would say that I/O may have been in
    flight. *)
Definition safe (pt : bool * option V) : Prop := fst pt = true → says_shared (snd pt).

Local Abbreviation live := (live (S := S) (V := V) name).
Local Abbreviation W := (World (S := S) (V := V)).

(** What holds between two calls. *)
Definition marked (w : W) : Prop := recorded (store (pw w)) ∧ is_shared (nexus_info (pw w)) = true.

Definition good w : Prop :=
  Forall safe (points w) ∧ (live w = true → marked w) ∧ ∀ u, nbd w = Some u → nexus_target w = Some (NbdDisk u).

Lemma mark_good t p tr d pts :
  Forall safe pts → (live (mkW t p tr d pts) = true → recorded (store p) ∧ is_shared (nexus_info p) = true) →
  (∀ u, d = Some u → tr = Some (NbdDisk u)) → good (mark key name (mkW t p tr d pts)).
Proof.
  intros Hp Hl Hn. split_and!; [|done..]. simpl. apply Forall_app. split; [done|]. apply Forall_singleton.
  intros H. by apply Hl.
Qed.

(** A subsystem of the nexus that runs ran before. *)
Lemma served_no_start t t' : NoStart.no_start t t' → served name t' = true → served name t = true.
Proof.
  intros H. unfold served. destruct (Subsys.tgt_find_subsystem t' _) as [ss|] eqn:Hf; [|done].
  apply NvmfProps.find_law in Hf as (i' & Hi' & Hn'). rewrite Hi'. simpl. intros Hs.
  destruct (H _ _ Hi') as (i & Hi & Hst & Hn); [by destruct (Subsys.state i')|].
  assert (Subsys.tgt_find_subsystem t (Subsys.make_nqn name) = Some ss) as -> by (apply NvmfProps.find_law; exists i; split; congruence).
  rewrite Hi. simpl. by destruct (Subsys.state i).
Qed.

Lemma on_tgt_quiet {A} err (m : ST Subsys.tgt CoreError A) w :
  keeps NoStart.no_start m → good w → wp (on_tgt key name err m) (λ _ w', good w' ∧ pw w' = pw w ∧ nexus_target w' = nexus_target w ∧ nbd w' = nbd w) w.
Proof.
  intros Hm (Hp & Hl & Hn). unfold wp, on_tgt. specialize (Hm (tg w)). destruct (m (tg w)) as [t r]. split; [|done].
  apply mark_good; [done| |done]. intros Hlive. apply Hl. unfold NxShare.live in *. simpl in *.
  apply orb_true_iff in Hlive as [Hs| ->]; [|apply orb_true_r]. by rewrite (served_no_start _ _ Hm Hs).
Qed.

Lemma on_tgt_marked {A} err (m : ST Subsys.tgt CoreError A) w :
  good w → marked w → wp (on_tgt key name err m) (λ _ w', good w' ∧ nbd w' = nbd w) w.
Proof.
  intros (Hp & Hl & Hn) Hm. unfold wp, on_tgt. destruct (m (tg w)) as [t r]. split; [|done]. by apply mark_good.
Qed.

Local Abbreviation persist := (persist true retries key uuid_of name).

Lemma persist_benign op w : benign op → good w → wp (persist op) (λ _ w', good w') w.
Proof.
  intros Hb (Hp & Hl & Hn). unfold wp, NxShare.persist. destruct (Persist.persist _ _ _ _ _ _ _) as [p r] eqn:E.
  apply mark_good; [done| |done]. intros Hlive. destruct (Hl Hlive) as [Hr Hi].
  destruct (persist_keeps_marker _ _ _ _ Hb Hi Hr E). done.
Qed.

Lemma persist_shared w :
  0 ≤ retries → good w → wp (persist (SetShared true)) (λ r w', good w' ∧ nbd w' = nbd w ∧ (r = Ok tt → marked w')) w.
Proof.
  intros Hr Hg. pose proof (persist_benign (SetShared true) w I Hg) as Hb. unfold wp, NxShare.persist in *.
  destruct (Persist.persist _ _ _ _ _ _ _) as [p r] eqn:E. split; [done|]. split; [done|]. intros ->.
  by apply persist_sets_marker in E as [? ?].
Qed.

(** As long as nobody can reach the nexus the marker may be anything. *)
Lemma persist_unreachable op w : live w = false → good w → wp (persist op) (λ _ w', good w') w.
Proof.
  intros Hl (Hp & _ & Hn). unfold wp, NxShare.persist. destruct (Persist.persist _ _ _ _ _ _ _) as [p r].
  apply mark_good; [done| |done]. intros H. change (live w = true) in H. congruence.
Qed.

Lemma share_uri_good w : good w → wp (share_uri key name) (λ _ w', good w' ∧ nbd w' = nbd w) w.
Proof.
  intros Hg. unfold share_uri. apply wp_bind. eapply wp_mono; [apply on_tgt_quiet; [apply NoStart.keeps_share_uri|done]|].
  intros [o|e|] w' (? & ? & ? & ?); [|done..]. by unfold unwrap; wp_step.
Qed.

Lemma set_target_good w tr : good w → nbd w = None → good (set_target tr w).
Proof. intros (? & ? & _) Hn. split_and!; [done..|]. simpl. congruence. Qed.

Lemma share_nvmf_good props w :
  0 ≤ retries → good w → wp (share_nvmf env true retries key uuid_of name props) (λ _ w', good w' ∧ nbd w' = nbd w) w.
Proof.
  intros Hr Hg. unfold share_nvmf. do 2 wp_step. destruct (Subsys.shared (tg w) name); [by apply share_uri_good|].
  apply wp_bind. eapply wp_mono; [by apply persist_shared|]. intros [[]|e|] w1 (H1 & Hn1 & Hm); [|done..].
  apply wp_bind. eapply wp_mono; [apply on_tgt_marked; auto|]. intros [u|e|] w2 (H2 & Hn2); [|split; congruence..].
  eapply wp_mono; [by apply share_uri_good|]. intros r w3 [? ?]. split; [done|congruence].
Qed.

Lemma good_nbd w : good w → (∀ u, nexus_target w ≠ Some (NbdDisk u)) → nbd w = None.
Proof. intros (_ & _ & H) Hne. destruct (nbd w) as [u|]; [|done]. destruct (Hne u). by apply H. Qed.

Lemma share_nbd_good uri w :
  good w → marked w → good (set_target (Some (NbdDisk uri)) (set_nbd key name (Some uri) w)).
Proof.
  intros (Hp & _ & _) [Hr Hi]. split_and!; simpl; [|done|by intros u [= ->]].
  apply Forall_app. split; [done|]. apply Forall_singleton. by intros _.
Qed.

Lemma share_ext_good ptpl nc protocol hs w :
  0 ≤ retries → good w → wp (share_ext env true retries key uuid_of name cntlids ptpl nc protocol hs) (λ _ w', good w') w.
Proof.
  intros Hr Hg. unfold share_ext. do 2 wp_step. destruct (nexus_target w) as [target|] eqn:Ht.
  - destruct (bool_decide _); [|by wp_step]. apply wp_bind. unfold update_properties.
    eapply wp_mono; [apply on_tgt_quiet; [apply NoStart.keeps_update|done]|]. intros [[]|e|] w1 (H1 & _ & Ht1 & _); [|done..].
    apply wp_bind. unfold get_share_uri. do 2 wp_step. rewrite Ht1, Ht.
    destruct target as [u|]; [by repeat wp_step|].
    eapply wp_mono; [apply on_tgt_quiet; [apply NoStart.keeps_share_uri|done]|]. intros [o|e|] w2 (H2 & _); [|done..].
    by unfold unwrap; wp_step.
  - assert (nbd w = None) as Hn by (apply good_nbd; [done|congruence]). destruct protocol.
    + apply wp_bind. eapply wp_mono; [by apply persist_shared|]. intros [[]|e|] w1 (H1 & Hn1 & Hm); [|done..].
      wp_step. wp_step. destruct nc as [uri|e|]; [|done..]. cbn [map_err]. do 5 wp_step. apply share_nbd_good; auto.
    + do 2 wp_step. destruct ptpl as [p|e|]; [|done..]. cbn [map_err]. apply wp_bind.
      eapply wp_mono; [by apply share_nvmf_good|]. intros [u|e|] w1 (H1 & Hn1); [|done..].
      do 3 wp_step. apply set_target_good; [done|congruence].
Qed.

Lemma lookup_gone t : wp (Subsys.nqn_lookup (E := CoreError) name) (λ r t', t' = t ∧ (r = Ok None → served name t = false)) t.
Proof.
  apply NvmfProps.lookup_wp; [by intros _|]. intros _. split; [done|]. intros [= H]. unfold served. by rewrite H.
Qed.

Lemma unshare_good clean w : good w → wp (unshare_nexus_internal true retries key uuid_of name clean) (λ _ w', good w') w.
Proof.
  intros Hg. unfold unshare_nexus_internal. do 4 wp_step. apply wp_bind.
  eapply wp_mono with (P := λ r w', r = Ok tt ∧ good w' ∧ nbd w' = None).
  { pose proof Hg as (Hp & Hl & Hn). destruct (nexus_target w) as [[u|]|] eqn:Ht; wp_step; (split; [done|]).
    - split; [|done]. apply mark_good; [done| |done]. intros H. apply Hl. unfold NxShare.live in *. simpl in *.
      by rewrite orb_false_r in H; rewrite H.
    - assert (nbd w = None) as HN by (apply good_nbd; [exact Hg|congruence]).
      split; [apply set_target_good; [exact Hg|]|]; done.
    - assert (nbd w = None) as HN by (apply good_nbd; [exact Hg|congruence]).
      split; [apply set_target_good; [exact Hg|]|]; done. }
  intros r w1 (-> & H1 & Hn1). apply wp_bind. unfold unshare.
  eapply wp_mono; [apply on_tgt_quiet; [apply NoStart.keeps_unshare|done]|]. intros [[]|e|] w2 (H2 & _ & _ & Hn2); [|done..].
  destruct clean; [|by wp_step]. apply wp_bind.
  pose proof (on_tgt_quiet UnshareNexus (Subsys.nqn_lookup name) w2 (NoStart.keeps_lookup name) H2) as Hq.
  pose proof (lookup_gone (tg w2)) as Hlk. unfold wp, on_tgt in *.
  destruct (Subsys.nqn_lookup (E := CoreError) name (tg w2)) as [t' r]. destruct Hlk as [-> Hgone].
  destruct Hq as (H3 & _ & _ & Hn3). destruct r as [[ss|]|e|]; simpl; [done| |done..].
  unfold mbind, ST_bind, ST.try. pose proof (persist_unreachable (SetShared false)) as Hp. unfold wp in Hp.
  match goal with |- context [NxShare.persist _ _ _ _ _ _ ?w3] => specialize (Hp w3) end.
  destruct (NxShare.persist _ _ _ _ _ _ _) as [w4 [[]|e|]]; apply Hp; try done.
  all: unfold NxShare.live; simpl; rewrite Hgone by done; by rewrite Hn2, Hn1.
Qed.

(** ** Any sequence of requests *)

Inductive request :=
| Share (ptpl : outcome CoreError (option string)) (nbd_create : outcome unit string) (protocol : Protocol) (hs : list string)
| UpdateHosts (hs : list string)
| Unshare (persist_clean : bool)
| Record_ (op : PersistOp).

Definition handle (q : request) (w : W) : W :=
  match q with
  | Share ptpl nc protocol hs => fst (share_ext env true retries key uuid_of name cntlids ptpl nc protocol hs w)
  | UpdateHosts hs => fst (update_properties key name hs w)
  | Unshare clean => fst (unshare_nexus_internal true retries key uuid_of name clean w)
  | Record_ op => fst (persist op w)
  end.

Definition allowed (q : request) : Prop := match q with Record_ op => benign op | _ => True end.

Lemma handle_good q w : 0 ≤ retries → allowed q → good w → good (handle q w).
Proof.
  intros Hr Hq Hg.
  assert (∀ A (m : ST W Error A), wp m (λ _ w', good w') w → good (fst (m w))) as Hwp.
  { intros A m. unfold wp. by destruct (m w). }
  destruct q as [ptpl nc protocol hs|hs|clean|op]; simpl; apply Hwp.
  - by apply share_ext_good.
  - eapply wp_mono; [apply on_tgt_quiet; [apply NoStart.keeps_update|done]|]. by intros r w' [? _].
  - by apply unshare_good.
  - by apply persist_benign.
Qed.

(** C15.  Whatever requests to share and unshare the nexus, to change its hosts
    and to record changes of its children come in, and whatever SPDK and the store
    answer: at every point at which clients can reach the nexus, over NVMe-oF or
    NBD, the record in the store says that it is shared.  So the engine may crash
    anywhere, and the replicas of a nexus that was reachable are not taken to be
    in sync. *)
Theorem reachable_nexus_is_recorded qs w :
  0 ≤ retries → Forall allowed qs → live w = false → nbd w = None → points w = [] →
  Forall safe (points (foldl (λ w q, handle q w) w qs)).
Proof.
  intros Hr Hqs Hl Hn Hp. assert (good w) as Hg.
  { split_and!; [by rewrite Hp|congruence|congruence]. }
  clear Hl Hn Hp. revert w Hg. induction Hqs as [|q qs Hq Hqs IH]; intros w Hg; simpl; [apply Hg|].
  apply IH. by apply handle_good.
Qed.

End ShareProps.

End ShareProps.
