(* ===== verification/NvmfSample.v ===== *)
(** * A model of the NVMe-oF target

    A concrete instance of the interface of [NvmfSubsystem] for which the laws
    hold: it knows the bdevs vol, which is a nexus, and other, and refuses the
    calls it is told to refuse.  The theorems on sharing are applied to it. *)

From Stdlib Require Import Ascii.
From S2P Require Import Prelude Text Wp Errors NexusErrors NexusChild NexusIo NvmfSubsystem NvmfProps NexusPersist NexusShare NexusShareProps.
#[local] Open Scope Z_scope.

Module NvmfSample.
Import Subsys NvmfProps.

(** The subsystems by number, which determines the name, and the calls that are
    refused. *)
Record mem := mkMem { body : gmap nat ss_info; refused : list string }.

Definition name_of (k : nat) : option string :=
  match k with O => Some (make_nqn "vol") | S O => Some (make_nqn "other") | _ => None end.

Definition number_of (n : string) : option nat :=
  if bool_decide (n = make_nqn "vol") then Some O else if bool_decide (n = make_nqn "other") then Some (S O) else None.

Definition named (n : string) (i : ss_info) : ss_info :=
  mkSs n (ns i) (hosts i) (any_host i) (listeners i) (state i) (ana_reporting i) (cntlid_range i).

Definition with_name (k : nat) (i : ss_info) : option ss_info := n ← name_of k; Some (named n i).

Definition mem_subsystems (t : mem) : gmap nat ss_info := map_imap with_name (body t).

Definition find (t : mem) (n : string) : option nat :=
  k ← number_of n;
  if bool_decide (is_Some (body t !! k)) then Some k else None.

Definition claim (t : mem) (b : string) : option string :=
  if bool_decide (map_Exists (λ _ i, ns i = Some b) (mem_subsystems t)) then Some NVMF_TARGET_MODULE else None.

(** A call that can be refused. *)
Definition try_do (what : string) (ss : nat) (f : ss_info → ss_info) (t : mem) : mem * Z :=
  if bool_decide (what ∈ refused t) then (t, -5) else (mkMem (alter f ss (body t)) (refused t), 0).

Definition create (n : string) (t : mem) : mem * option nat :=
  match number_of n with
  | Some k => match body t !! k with
              | None => (mkMem (<[k := fresh_ss n]> (body t)) (refused t), Some k)
              | Some _ => (t, None)
              end
  | None => (t, None)
  end.

#[global] Instance target : Nvmf := {
  tgt := mem;
  subsystems := mem_subsystems;
  tgt_find_subsystem := find;
  tgt_subsystems t := fst <$> map_to_list (body t);
  ids_exhausted _ := false;
  has_rdma_xprt _ := false;
  destroy_in_progress _ _ := false;
  claimed_by := claim;
  driver_of _ b := if bool_decide (b = "vol"%string) then NEXUS_MODULE_NAME else "lvol"%string;
  serial_of _ b := b;
  subsystem_create := create;
  subsystem_set_sn _ _ t := (t, 0);
  subsystem_set_mn _ _ t := (t, 0);
  subsystem_add_ns ss b _ t := let '(t, rc) := try_do "ns" ss (set_ns (Some b)) t in (t, if rc =? 0 then 1 else 0);
  subsystem_remove_ns ss _ := try_do "remove_ns" ss (set_ns None);
  subsystem_destroy ss t :=
    if bool_decide ("destroy"%string ∈ refused t) then (t, -16) else (mkMem (delete ss (body t)) (refused t), 0);
  subsystem_set_allow_any ss b t := mkMem (alter (set_any b) ss (body t)) (refused t);
  subsystem_add_host ss h := try_do "host" ss (add_host h);
  subsystem_remove_host ss h := try_do "remove_host" ss (remove_host h);
  subsystem_disconnect_host _ _ t := (t, 0);
  subsystem_set_ana_reporting ss b := try_do "ana" ss (set_ana b);
  subsystem_set_cntlid_range ss lo hi := try_do "range" ss (set_range (Some (lo, hi)));
  subsystem_add_listener ss x := try_do "listener" ss (λ i, set_listeners (listeners i ++ [x]) i);
  subsystem_set_ana_state _ _ _ t := (t, 0);
  subsystem_change op ss t := let '(t, rc) := try_do (show_op op) ss (set_state (op_target op)) t in (t, inr rc);
  pass_time _ t := t;
  ffi_errno rc := errno_from_raw (Z.abs rc);
}.

Lemma named_alter f k t :
  (∀ n i, f (named n i) = named n (f i)) → mem_subsystems (mkMem (alter f k (body t)) (refused t)) = alter f k (mem_subsystems t).
Proof.
  intros Hf. apply map_eq. intros j. unfold mem_subsystems. simpl. rewrite map_lookup_imap.
  destruct (decide (j = k)) as [->|Hne]; [rewrite !lookup_alter_eq|by rewrite !lookup_alter_ne, map_lookup_imap by done].
  rewrite map_lookup_imap.
  destruct (body t !! k) as [i|]; simpl; [|done]. unfold with_name. destruct (name_of k); simpl; [|done]. by rewrite Hf.
Qed.

Lemma try_do_effect what ss f t t' rc :
  (∀ n i, f (named n i) = named n (f i)) → try_do what ss f t = (t', rc) → effect ss f (rc =? 0) t t' ∧ (rc = 0 ∨ rc = -5).
Proof.
  intros Hf. unfold try_do. destruct (bool_decide _); intros [= <- <-]; (split; [|auto]); [done|].
  unfold effect. simpl. by apply named_alter.
Qed.

Lemma number_name n k : number_of n = Some k ↔ name_of k = Some n.
Proof.
  unfold number_of. case_bool_decide as H1; [|case_bool_decide as H2].
  - subst. split; [by intros [= <-]|]. destruct k as [|[|k]]; simpl; by intros [=].
  - subst. split; [by intros [= <-]|]. destruct k as [|[|k]]; simpl; by intros [=].
  - split; [done|]. destruct k as [|[|k]]; simpl; intros [=]; congruence.
Qed.

#[global] Instance target_laws : NvmfLaws.
Proof.
  assert (∀ h n i, add_host h (named n i) = named n (add_host h i)) as Hadd.
  { intros h n i. unfold add_host, named. simpl. by destruct (decide _). }
  split; simpl.
  - intros t n ss. unfold find, mem_subsystems. setoid_rewrite map_lookup_imap. split.
    + destruct (number_of n) as [k|] eqn:E; simpl; [|done]. case_bool_decide as Hb; [|done]. intros [= <-].
      destruct Hb as [i Hi]. apply number_name in E. exists (named n i). rewrite Hi. simpl. unfold with_name. by rewrite E.
    + intros (i & Hi & <-). destruct (body t !! ss) as [j|] eqn:Ej; simpl in Hi; [|done]. unfold with_name in Hi.
      destruct (name_of ss) as [m|] eqn:Em; simpl in Hi; [|done]. injection Hi as <-. simpl. apply number_name in Em. rewrite Em.
      simpl. rewrite bool_decide_true; [done|by eexists].
  - intros t b. unfold claim. case_bool_decide as H; by split.
  - intros n t t' o. unfold create. destruct (number_of n) as [k|] eqn:E; [|by intros [= <- <-]].
    destruct (body t !! k) as [j|] eqn:Ej; intros [= <- <-]; [done|]. apply number_name in E. unfold mem_subsystems. simpl.
    rewrite map_lookup_imap, Ej. split; [done|]. erewrite map_imap_insert_Some; [done|]. unfold with_name. by rewrite E.
  - by intros ss x t t' rc [= <- <-].
  - by intros ss x t t' rc [= <- <-].
  - intros ss b p t t' id. destruct (try_do _ _ _ t) as [t1 rc] eqn:E. intros [= <- <-].
    apply try_do_effect in E as [H [-> | ->]]; [exact H|exact H|done].
  - intros ss t t' rc E. by apply try_do_effect in E as [? _].
  - intros ss t t' rc. destruct (bool_decide _); intros [= <- <-]; [done|]. unfold mem_subsystems. simpl.
    apply map_eq. intros j. rewrite map_lookup_imap. destruct (decide (j = ss)) as [->|Hne].
    + by rewrite !lookup_delete_eq.
    + by rewrite !lookup_delete_ne, map_lookup_imap by done.
  - intros ss b t. unfold effect. by apply named_alter.
  - intros ss h t t' rc E. by apply try_do_effect in E as [? _].
  - intros ss h t t' rc E. by apply try_do_effect in E as [? _].
  - by intros ss h t t' rc [= <- <-].
  - intros ss b t t' rc E. by apply try_do_effect in E as [? _].
  - intros ss lo hi t t' rc E. by apply try_do_effect in E as [? _].
  - intros ss x t t' rc E. by apply try_do_effect in E as [? _].
  - by intros ss x a t t' rc [= <- <-].
  - intros op ss t t' r. destruct (try_do _ _ _ t) as [t1 rc] eqn:E. intros [= <- <-]. by apply try_do_effect in E as [? _].
  - done.
Qed.

Definition env : NvmfEnv := mkNvmfEnv true false "10.0.0.1" "8420".
Definition empty_target : @tgt target := mkMem ∅ [].

Definition two_hosts : NvmfShareProps := mkShareProps (Some (1, 65519)) true ["a"; "b"] None.

Lemma shared_bdev_is_served_witness :
  ∃ t' ss i, share_nvmf env "vol" two_hosts empty_target = (t', Ok (make_nqn "vol")) ∧
    subsystems t' = <[ss := i]> (subsystems empty_target) ∧ serves env "vol" two_hosts i.
Proof.
  destruct (share_nvmf env "vol" two_hosts empty_target) as [t' r] eqn:E.
  pose proof (shared_bdev_is_served env "vol" two_hosts empty_target t' r E) as H.
  assert (snd (share_nvmf env "vol" two_hosts empty_target) = Ok (make_nqn "vol")) as Hr by (vm_compute; reflexivity).
  rewrite E in Hr. simpl in Hr. subst r. destruct H as (_ & ss & i & _ & Hs & Hi). exists t', ss, i. split; [reflexivity|]. split; assumption.
Defined.

(** A share that fails once the subsystem has its namespace leaves it behind
    without a listener: a host with a NUL byte, for example.  From then on the
    bdev is reported as shared, and asking for its URI panics. *)
Definition bad_host : NvmfShareProps := mkShareProps None false [nul] None.

Definition after_bad_host : @tgt target := fst (share_nvmf env "other" bad_host empty_target).

Lemma failed_share_then_uri_panics :
  snd (share_nvmf env "other" bad_host empty_target) = Err (ShareNvmf (Nvmf.HostCstrNul nul)) ∧
  shared after_bad_host "other" = true ∧ snd (share_uri "other" after_bad_host) = Panicked.
Proof. split_and!; vm_compute; reflexivity. Qed.

(** [start] destroys a subsystem that it cannot start, but not one to which it
    cannot add the listener. *)
Definition no_listener : @tgt target := mkMem ∅ ["listener"%string].

Lemma start_leaves_subsystem :
  is_ok (snd (share_nvmf env "other" two_hosts no_listener)) = false ∧
  shared (fst (share_nvmf env "other" two_hosts no_listener)) "other" = true.
Proof. split; vm_compute; reflexivity. Qed.

(** ** The nexus *)

Import Persist PersistSample NxShare ShareProps.

#[global] Instance server_owned : EtcdOwned Server NexusInfo "nexus".
Proof.
  split; [|by eauto]. intros v [m [|[] rs]] s' e E; try discriminate E; injection E as <- _; [right; apply lookup_insert_eq|by left].
Qed.

Definition unshared : NexusInfo := mkNexusInfo false false [mkChildInfo "a" true] (Some false).

Definition nexus (rs : list Reply) (refuse : list string) : World (S := Server) (V := NexusInfo) :=
  mkW (mkMem ∅ refuse : @tgt target) (mkWorld unshared Nx.Normal false ({["nexus" := unshared]}, rs)) None None [].

Definition session : list request :=
  [Share (Ok None) (Err tt) Nvmf_ ["a"]; UpdateHosts ["b"]; Record_ (Update "a" false); Unshare true;
   Share (Ok None) (Ok "file:///dev/nbd0"%string) Off []; Unshare true].

Definition run (qs : list request) (w : World (S := Server) (V := NexusInfo)) : World :=
  foldl (λ w q, handle env 3 "nexus" uuid_of "vol" (1, 65519) q w) w qs.

(** The nexus is published, and the reply to the first put is lost; it is
    published over NBD afterwards. *)
Lemma reachable_nexus_is_recorded_witness :
  Forall safe (points (run session (nexus [Lost] []))) ∧
  fst <$> points (run session (nexus [Lost] [])) =
    [false; true; true; true; true; false; false; false; false; true; false; false; false; false].
Proof.
  split; [|vm_compute; reflexivity].
  apply (reachable_nexus_is_recorded env 3 "nexus" uuid_of "vol" (1, 65519) session (nexus [Lost] []));
    [lia|repeat constructor|reflexivity|reflexivity|reflexivity].
Defined.

(** The service for bdevs shares the bdev of a nexus without the nexus knowing:
    clients can reach it, and the record says that it is not shared.  Sharing the
    nexus afterwards does not correct the record, either. *)
Definition bdev_shared_first : World (S := Server) (V := NexusInfo) :=
  mkW (fst (Subsys.share_nvmf env "vol" two_hosts empty_target)) (pw (nexus [] [])) None None [].

Definition then_shared : World (S := Server) (V := NexusInfo) * outcome NexusErr.Error string :=
  share_ext env true 3 "nexus" uuid_of "vol" (1, 65519) (Ok None) (Err tt) Nvmf_ [] bdev_shared_first.

Lemma bdev_share_is_not_recorded :
  live "vol" bdev_shared_first = true ∧ is_ok (snd then_shared) = true ∧
  is_shared <$> et_get (store (pw (fst then_shared))) "nexus" = Some false.
Proof. split_and!; vm_compute; reflexivity. Qed.

(** After an unshare that failed the nexus is still served; sharing it again
    reports success, but the hosts of the new request are not let in. *)
Lemma reshare_ignores_hosts :
  let w := run [Share (Ok None) (Err tt) Nvmf_ ["a"]; Unshare true; Share (Ok None) (Err tt) Nvmf_ ["b"]]
             (nexus [] ["stop"%string]) in
  allowed_hosts O (tg w) = ["a"%string] ∧ nexus_target w = Some NexusNvmfTarget.
Proof. split; vm_compute; reflexivity. Qed.

End NvmfSample.
