(* ===== verification/NexusReservations.v ===== *)
(** * NVMe reservations of a child

    The reservation part of [bdev/nexus/nexus_child.rs] with its parameters
    ([NexusNvmeParams] in [bdev/nexus/nexus_bdev.rs]).  The commands are those of
    the trait [BlockDeviceHandle] ([core/block_device.rs]), an interface here;
    its default implementation, for devices without reservations, is an
    instance. *)

From S2P Require Import Prelude Errors NexusChild.
Import Child.

(** ** Commands *)

(** An entry of the reservation report. *)
Record RegCtrlr := mkRegCtrlr { rcsts_status : Z; rkey : Z; hostid : list Z }.

(** The reservation report in a buffer of 4096 bytes: the header, the entries
    that fit in the buffer, and whether they are aligned in it. *)
Record Report := mkReport {
  rtype : Z;
  regctl : Z;
  reg_ctrlr_ext : list RegCtrlr;
  aligned : bool;
}.

(** The constants of the command set that are used. *)
Inductive register_action := REPLACE_KEY.
Inductive register_cptpl := CLEAR_POWER_ON | PERSIST_POWER_LOSS.
Inductive acquire_action := ACQUIRE | PREEMPT.

Class ResvHandle (D : Type) := {
  nvme_resv_register : Z → Z → register_action → register_cptpl → ST D CoreError unit;
  nvme_resv_acquire : Z → Z → acquire_action → Z → ST D CoreError unit;
  nvme_resv_release : Z → Z → Z → ST D CoreError unit;
  nvme_resv_report : ST D CoreError Report;
  host_id : ST D CoreError (list Z);
}.

(** The defaults of the trait. *)
Definition unsupported {D A} : ST D CoreError A := λ d, (d, Err (NotSupported EOPNOTSUPP)).

Definition no_reservations {D} : ResvHandle D := {|
  nvme_resv_register _ _ _ _ := unsupported;
  nvme_resv_acquire _ _ _ _ := unsupported;
  nvme_resv_release _ _ _ := unsupported;
  nvme_resv_report := unsupported;
  host_id := unsupported;
|}.

Module Resv.

Inductive NvmeReservation :=
| Reserved
| WriteExclusive
| ExclusiveAccess
| WriteExclusiveRegsOnly
| ExclusiveAccessRegsOnly
| WriteExclusiveAllRegs
| ExclusiveAccessAllRegs.

#[global] Instance NvmeReservation_eq_dec : EqDecision NvmeReservation.
Proof. solve_decision. Defined.

Definition as_u8 (r : NvmeReservation) : Z :=
  match r with
  | Reserved => 0
  | WriteExclusive => 1
  | ExclusiveAccess => 2
  | WriteExclusiveRegsOnly => 3
  | ExclusiveAccessRegsOnly => 4
  | WriteExclusiveAllRegs => 5
  | ExclusiveAccessAllRegs => 6
  end.

Definition try_from (value : Z) : option NvmeReservation :=
  match value with
  | 0 => Some Reserved
  | 1 => Some WriteExclusive
  | 2 => Some ExclusiveAccess
  | 3 => Some WriteExclusiveRegsOnly
  | 4 => Some ExclusiveAccessRegsOnly
  | 5 => Some WriteExclusiveAllRegs
  | 6 => Some ExclusiveAccessAllRegs
  | _ => None
  end.

Inductive NexusNvmePreemption := ArgKey | HolderPolicy.

Record NexusNvmeParams := mkParams {
  min_cntlid : Z;
  max_cntlid : Z;
  resv_key : Z;
  preempt_key : option Z;
  resv_type : NvmeReservation;
  preempt_policy : NexusNvmePreemption;
}.

Definition reservations_enabled (p : NexusNvmeParams) : bool :=
  negb (resv_key p =? 0) || (match preempt_key p with Some _ => true | None => false end)
  || (match preempt_policy p with ArgKey => false | _ => true end).

Definition reservations_valid (p : NexusNvmeParams) : bool :=
  negb ((resv_key p =? 0) ||
        (match preempt_policy p with HolderPolicy => true | _ => false end
         && match preempt_key p with Some _ => true | None => false end)).

(** [shared]: types that give access to all registrants. *)
Definition is_shared (r : NvmeReservation) : bool :=
  match r with ExclusiveAccessAllRegs | WriteExclusiveAllRegs => true | _ => false end.

Section Resv.
Context {D : Type} `{!ResvHandle D}.
(** Whether a directory for persistence through power loss is configured. *)
Variable ptpl_dir : bool.
(** The result of [get_io_handle_nonblock], and of [dma_malloc]. *)
Variable handle : outcome CoreError unit.
Variable dma_malloc : bool.

Local Abbreviation M := (ST D ChildError).

(** Lift a command, mapping its error. *)
Definition cmd {A} (f : CoreError → ChildError) (m : ST D CoreError A) : M A := λ d,
  match m d with (d, r) => (d, map_err f r) end.

Definition open_handle : M unit := λ d, (d, map_err HandleOpen handle).

Definition resv_register (new_key : Z) : ST D CoreError unit :=
  nvme_resv_register 0 new_key REPLACE_KEY (if ptpl_dir then PERSIST_POWER_LOSS else CLEAR_POWER_ON).

Definition resv_acquire (current_key : Z) (preempt : option Z) (t : NvmeReservation) : M unit :=
  cmd ResvAcquire
    (nvme_resv_acquire current_key (default 0 preempt)
       (match preempt with Some _ => PREEMPT | None => ACQUIRE end) (as_u8 t)).

Definition resv_release (current_key : Z) (t : NvmeReservation) (action : Z) : ST D CoreError unit :=
  nvme_resv_release current_key (as_u8 t) action.

(** The first registered controller that holds the reservation. *)
Definition report_holder (r : Report) : option RegCtrlr :=
  snd <$> list_find (λ c, rcsts_status c = 1) (take (Z.to_nat (regctl r)) (reg_ctrlr_ext r)).

Definition alloc : M unit := λ d, (d, if dma_malloc then Ok tt else Err HandleDmaMalloc).

Definition resv_holder : M (option (Z * Z * list Z)) :=
  _ ← alloc;
  r ← cmd ResvReport nvme_resv_report;
  if negb (aligned r) then mret None
  else
    match report_holder r with
    | Some c => mret (Some (rtype r, rkey c, hostid c))
    | None => mret None
    end.

Definition throw {A} (e : ChildError) : M A := λ d, (d, Err e).

(** The check of a report once it has been read. *)
Definition check_report (args : NexusNvmeParams) (r : Report) : M unit :=
  _ ← (if negb (as_u8 (resv_type args) =? rtype r) then
         match try_from (rtype r) with
         | None => throw (ResvType (rtype r))
         | Some t =>
             if negb (is_shared (resv_type args)) || negb (is_shared t)
             then throw (ResvType (rtype r)) else mret tt
         end
       else mret tt);
  if is_shared (resv_type args) then mret tt
  else if negb (aligned r) then throw (ResvNoHolder (rtype r))
  else
    match report_holder r with
    | None => throw (ResvNoHolder (rtype r))
    | Some owner =>
        my ← cmd NvmeHostId host_id;
        if negb (rkey owner =? resv_key args) || negb (bool_decide (hostid owner = my))
        then throw (Holder (hostid owner) (rtype r) (rkey owner))
        else mret tt
    end.

(** A device that cannot report is not checked. *)
Definition report_or_skip (k : Report → M unit) : M unit := λ d,
  match nvme_resv_report d with
  | (d, Err (NotSupported _)) => (d, Ok tt)
  | (d, Err e) => (d, Err (ResvReport e))
  | (d, Panicked) => (d, Panicked)
  | (d, Ok r) => k r d
  end.

Definition resv_check_holder (args : NexusNvmeParams) : M unit :=
  _ ← open_handle;
  _ ← alloc;
  report_or_skip (check_report args).

(** Registering is skipped on devices without reservations; then the rest is,
    too. *)
Definition register_or_skip (key : Z) (k : M unit) : M unit := λ d,
  match resv_register key d with
  | (d, Ok _) => k d
  | (d, Err (NotSupported _)) => (d, Ok tt)
  | (d, Err e) => (d, Err (ResvRegisterKey e))
  | (d, Panicked) => (d, Panicked)
  end.

Definition reservation_acquire_argkey (params : NexusNvmeParams) : M unit :=
  _ ← open_handle;
  register_or_skip (resv_key params)
    (resv_acquire (resv_key params) (preempt_key params) (resv_type params)).

Definition reservation_preempt_holder (args : NexusNvmeParams) : M unit :=
  _ ← open_handle;
  register_or_skip (resv_key args) (
    h ← resv_holder;
    match h with
    | None => resv_acquire (resv_key args) None (resv_type args)
    | Some (rt, pkey, hid) =>
        my ← cmd NvmeHostId host_id;
        match try_from rt with
        | None => throw (ResvType rt)
        | Some t =>
            if bool_decide (t = resv_type args) && bool_decide (hid = my) && (pkey =? resv_key args)
            then mret tt
            else if negb (is_shared t) then
              _ ← resv_acquire (resv_key args) (Some pkey) (resv_type args);
              if negb (negb (bool_decide (t = resv_type args)) && bool_decide (hid = my)) then
                resv_acquire (resv_key args) None (resv_type args)
              else
                _ ← cmd ResvRegisterKey (resv_register (resv_key args));
                resv_acquire (resv_key args) None (resv_type args)
            else
              match resv_type args with
              | WriteExclusive | ExclusiveAccess | WriteExclusiveRegsOnly | ExclusiveAccessRegsOnly =>
                  _ ← cmd ResvRelease (resv_release (resv_key args) t 0);
                  resv_acquire (resv_key args) None (resv_type args)
              | _ => mret tt
              end
        end
    end).

(** [env]: the environment variable [NEXUS_NVMF_RESV_ENABLE] is set. *)
Definition reservation_acquire (env : bool) (params : NexusNvmeParams) : M unit :=
  if negb env then mret tt
  else if negb (reservations_enabled params) then mret tt
  else
    _ ← match preempt_policy params with
        | ArgKey => reservation_acquire_argkey params
        | HolderPolicy => reservation_preempt_holder params
        end;
    resv_check_holder params.

End Resv.
End Resv.

(** ** Properties *)

Module ResvProps.
Import Resv.

Section ResvProps.
Context {D : Type} `{!ResvHandle D}.
Variables (ptpl_dir : bool) (handle : outcome CoreError unit) (dma_malloc : bool).
Implicit Types d : D.

(** What a report that passes the check says. *)
Definition held_by_us (args : NexusNvmeParams) (r : Report) (my : list Z) : Prop :=
  rtype r = as_u8 (resv_type args) ∧ aligned r = true ∧
  ∃ owner, report_holder r = Some owner ∧ rkey owner = resv_key args ∧ hostid owner = my.

Lemma check_report_ok args r d d' :
  check_report args r d = (d', Ok tt) →
  is_shared (resv_type args) = true ∧ (∃ t, try_from (rtype r) = Some t ∧ is_shared t = true) ∨
  is_shared (resv_type args) = false ∧ ∃ my, host_id d = (d', Ok my) ∧ held_by_us args r my.
Proof.
  unfold check_report, mbind, ST_bind.
  assert (Hsame : as_u8 (resv_type args) = rtype r → try_from (rtype r) = Some (resv_type args))
    by (intros <-; by destruct (resv_type args)).
  destruct (Z.eqb_spec (as_u8 (resv_type args)) (rtype r)) as [E|E]; simpl.
  - destruct (is_shared (resv_type args)) eqn:Hs; [intros _; left; eauto|].
    destruct (aligned r) eqn:Ha; [|done]. simpl.
    destruct (report_holder r) as [owner|] eqn:Ho; [|done]. unfold cmd.
    destruct (host_id d) as [d1 [my|e|]]; try done. simpl.
    destruct (Z.eqb_spec (rkey owner) (resv_key args)); [|done]. simpl.
    case_bool_decide; [|done]. intros [= <-]. right. split; [done|]. exists my. split; [done|].
    split_and!; [done|done|]. by exists owner.
  - destruct (try_from (rtype r)) as [t|] eqn:Ht; [|done].
    destruct (is_shared (resv_type args)) eqn:Hs; simpl; [|done].
    destruct (is_shared t) eqn:Hst; simpl; [|done]. intros _. left. eauto.
Qed.

(** C35. When acquiring the reservation of a child succeeds, then either
    reservations are not in use, or the device does not report any, or all
    registrants have access, or the device has just reported that this host
    holds a reservation of the requested type with the requested key. *)
Theorem acquired_reservation_is_held (env : bool) (params : NexusNvmeParams) (d d' : D) :
  reservation_acquire ptpl_dir handle dma_malloc env params d = (d', Ok tt) →
  env = false ∨ reservations_enabled params = false ∨
  (∃ d1 e, nvme_resv_report d1 = (d', Err (NotSupported e))) ∨
  ∃ d1 d2 r, nvme_resv_report d1 = (d2, Ok r) ∧
    (is_shared (resv_type params) = true ∧ (∃ t, try_from (rtype r) = Some t ∧ is_shared t = true) ∨
     is_shared (resv_type params) = false ∧ ∃ my, host_id d2 = (d', Ok my) ∧ held_by_us params r my).
Proof.
  unfold reservation_acquire. destruct env; [|by auto]. simpl.
  destruct (reservations_enabled params); [|by auto]. simpl. intros H. right. right.
  unfold mbind at 1, ST_bind at 1 in H.
  match type of H with context [match ?m d with _ => _ end] => destruct (m d) as [d1 [[]|e|]] end; try done.
  unfold resv_check_holder, open_handle, alloc, mbind, ST_bind in H.
  destruct handle; try done. simpl in H. destruct dma_malloc; [|done].
  unfold report_or_skip in H. destruct (nvme_resv_report d1) as [d2 [r|e|]] eqn:Hr.
  - right. exists d1, d2, r. split; [done|]. by apply check_report_ok.
  - destruct e; try done. injection H as <-. left. eauto.
  - done.
Qed.

(** If this host already holds the reservation of that type with that key,
    preempting the holder issues no command besides registering the key,
    reading the report and reading the host identifier. *)
Theorem holder_is_not_preempted_by_itself (args : NexusNvmeParams) (d d1 d2 d3 : D) (r : Report)
    (my : list Z) :
  handle = Ok tt → dma_malloc = true →
  resv_register ptpl_dir (resv_key args) d = (d1, Ok tt) → nvme_resv_report d1 = (d2, Ok r) →
  host_id d2 = (d3, Ok my) → held_by_us args r my →
  reservation_preempt_holder ptpl_dir handle dma_malloc args d = (d3, Ok tt).
Proof.
  intros -> -> Hreg Hrep Hid (Hrt & Hal & owner & Ho & Hk & Hh).
  unfold reservation_preempt_holder, open_handle, register_or_skip, mbind, ST_bind. simpl.
  rewrite Hreg. unfold resv_holder, alloc, cmd, mbind, ST_bind. rewrite Hrep. simpl.
  rewrite Hal, Ho. simpl. rewrite Hid. simpl. rewrite Hrt.
  assert (try_from (as_u8 (resv_type args)) = Some (resv_type args)) as -> by (by destruct (resv_type args)).
  rewrite !bool_decide_true by done. rewrite Hk, Z.eqb_refl. done.
Qed.

End ResvProps.

(** On a device without reservations, acquiring one succeeds and does
    nothing. *)
Theorem unsupported_reservation_is_ignored {D : Type} (ptpl_dir env : bool) (params : NexusNvmeParams) (d : D) :
  @reservation_acquire D no_reservations ptpl_dir (Ok tt) true env params d = (d, Ok tt).
Proof.
  unfold reservation_acquire. destruct env; [|done]. destruct (reservations_enabled params); [|done].
  by destruct (preempt_policy params).
Qed.

(** A device on which host 1 holds a reservation with key 7. *)
Definition held_device : ResvHandle unit := {|
  nvme_resv_register _ _ _ _ := mret tt;
  nvme_resv_acquire _ _ _ _ := mret tt;
  nvme_resv_release _ _ _ := mret tt;
  nvme_resv_report := mret (mkReport 1 2 [mkRegCtrlr 0 5 [2]; mkRegCtrlr 1 7 [1]] true);
  host_id := mret [1];
|}.

Definition sample_params : NexusNvmeParams := mkParams 1 100 7 None WriteExclusive HolderPolicy.

Lemma acquired_reservation_is_held_witness :
  reservations_enabled sample_params = true ∧
  ∃ r my, held_by_us sample_params r my.
Proof.
  split; [reflexivity|].
  destruct (@acquired_reservation_is_held unit held_device false (Ok tt) true true sample_params tt tt)
    as [E|[E|[(d1 & e & E)|(d1 & d2 & r & Hr & [[E _]|(_ & my & _ & Hh)])]]];
    [vm_compute; reflexivity|discriminate E|discriminate E|discriminate E|discriminate E|].
  exists r, my. exact Hh.
Defined.

Lemma holder_is_not_preempted_by_itself_witness :
  @reservation_preempt_holder unit held_device false (Ok tt) true sample_params tt = (tt, Ok tt).
Proof.
  apply (@holder_is_not_preempted_by_itself unit held_device false (Ok tt) true sample_params tt tt tt tt
    (mkReport 1 2 [mkRegCtrlr 0 5 [2]; mkRegCtrlr 1 7 [1]] true) [1]); try reflexivity.
  split; [reflexivity|]. split; [reflexivity|]. exists (mkRegCtrlr 1 7 [1]). split; [reflexivity|].
  split; reflexivity.
Defined.

End ResvProps.
