(* ===== verification/NexusControl.v ===== *)
(** * Control operations of a nexus

    The operations on children and rebuilds that the control plane calls
    ([bdev/nexus/nexus_bdev_children.rs], [bdev/nexus/nexus_bdev_rebuild.rs],
    and the status in [bdev/nexus/nexus_bdev.rs]), over the nexus of [NexusIo]
    with one channel.  The results of the calls to devices, the store and the
    I/O subsystem are arguments. *)

From S2P Require Import Prelude Errors SegmentMap IoLog RebuildState NexusChild NexusIo NexusIoFacts NexusIoProps IoSubsystem NexusErrors NexusPersist.
Import Child NexusErr.

Module Control.

(** The result of creating a rebuild job. *)
Definition JobResult : Type := outcome Rebuild.RebuildError unit.

Inductive NexusStatus := Faulted | Degraded | Online | ShuttingDown | Shutdown.
Inductive NexusState := Init | Closed | NxOpen | Reconfiguring | NxShuttingDown | NxShutdown.

Section Control.
Context {L : Type} `{!IoLogOps L} {Map : Type}.
Variables (now : Z) (partial_rebuild : bool).
(** [IOLog::finalize], without its panics. *)
Variable finalize : L → Map.
(** The source of the rebuild job of a child. *)
Variable src_of : string → string.

Local Abbreviation W := (Nx.World L).
Local Abbreviation M := (ST W Error).
Implicit Types w : W.

Definition lift {A} (o : outcome Error A) : M A := λ w, (w, o).
Definition get {A} (f : W → A) : M A := λ w, (w, Ok (f w)).

Definition status (s : NexusState) (w : W) : NexusStatus :=
  match s with
  | Init => Degraded
  | Closed => Faulted
  | NxShuttingDown => ShuttingDown
  | NxShutdown => Shutdown
  | NxOpen | Reconfiguring =>
      if forallb is_healthy (Nx.children w) then Online
      else if existsb is_healthy (Nx.children w) then Degraded
      else Faulted
  end.

(** [pause]: the pause state of the I/O subsystem, if there is one. *)
Definition check_nexus_operation (s : NexusState) (pause : option IoSub.NexusPauseState) : outcome Error unit :=
  match s with
  | NxShuttingDown | NxShutdown => Err OperationNotAllowed
  | _ => if bool_decide (pause = Some IoSub.Frozen) then Err OperationNotAllowed else Ok tt
  end.

Definition children_enospc (w : W) : bool :=
  existsb (λ c : NexusChild L, is_enospc (state c)) (Nx.children w).

(** Whether [Nexus::resume] leaves the I/O subsystem frozen. *)
Definition resume_freezes (s : NexusState) (w : W) : bool :=
  match status s w with Faulted => negb (children_enospc w) | _ => false end.

(** *** Lookups; the URI of a child is its name. *)

Definition lookup_child (uri : string) (w : W) : option (nat * NexusChild L) :=
  list_find (λ c, name c = uri) (Nx.children w).

Definition child (uri : string) : M (NexusChild L) := λ w,
  (w, match lookup_child uri w with Some (_, c) => Ok c | None => Err (ChildNotFound uri) end).

Definition get_child_device_name (uri : string) : M string :=
  c ← child uri;
  match get_device_name c with
  | Some d => mret d
  | None => lift (Err (ChildDeviceNotOpen uri))
  end.

Definition update_child (uri : string) (f : NexusChild L → NexusChild L) (w : W) : W :=
  match lookup_child uri w with
  | Some (i, c) => Nx.set_children (<[i := f c]> (Nx.children w)) w
  | None => w
  end.

Definition set_jobs (jobs : list string) (w : W) : W := Nx.set_jobs jobs w.

Definition min_num_blocks (w : W) : outcome Error (option Z) :=
  foldl (λ acc c,
    acc ← acc;
    d ← of_option (device c);
    Ok (Some (match acc with None => bd_num_blocks d | Some n => Z.min n (bd_num_blocks d) end)))
    (Ok None) (filter (λ c, is_healthy c = true) (Nx.children w)).

(** *** Removing and faulting *)

Definition check_child_remove_operation (uri : string) : M unit :=
  _ ← child uri;
  cs ← get Nx.children;
  if bool_decide (length cs = 1%nat) then lift (Err (RemoveLastChild uri))
  else
    match filter (λ c, is_healthy c = true) cs with
    | [c] => if bool_decide (name c = uri) then lift (Err (RemoveLastHealthyChild uri)) else mret tt
    | _ => mret tt
    end.

(** [cancel_rebuild_jobs]: the jobs that copy from the child, and the one that
    copies to it, are stopped; the former are to be restarted.  A stopped job
    leaves the table when its notification is processed, which [gone] says. *)
Definition cancel_rebuild_jobs (gone : string → bool) (uri : string) : M (list string) := λ w,
  let from := filter (λ d, src_of d = uri) (Nx.rebuild_jobs w) in
  let stopped := λ d, bool_decide (src_of d = uri) || bool_decide (d = uri) in
  (set_jobs (filter (λ d, (stopped d && gone d) = false) (Nx.rebuild_jobs w)) w, Ok from).

(** *** Rebuilding *)

Definition find_src_replica (dst : string) (w : W) : option string :=
  let candidates := filter (λ c, is_healthy c = true ∧ name c ≠ dst) (Nx.children w) in
  match list_find (λ c, default false (is_local c) = true) candidates with
  | Some (_, c) => Some (name c)
  | None => name <$> head candidates
  end.

(** [start_rebuild] up to the job being stored; [created]: the result of
    creating it. *)
Definition start_rebuild_job (created : string → JobResult) (uri : string) : M unit := λ w,
  match find_src_replica uri w with
  | None => (w, Err NoRebuildSource)
  | Some _ =>
      match lookup_child uri w with
      | None => (w, Err (ChildNotFound uri))
      | Some (_, c) =>
          if negb (is_opened_unsync c) then (w, Err (ChildNotDegraded uri))
          else if Nx.has_job w c then (w, Err (RebuildJobAlreadyExists uri))
          else
            match created uri with
            | Ok _ => (set_jobs (Nx.rebuild_jobs w ++ [uri]) w, Ok tt)
            | Err e => (w, Err (CreateRebuild e uri))
            | Panicked => (w, Panicked)
            end
      end
  end.

(** [stop_io_log] of the child. *)
Definition take_io_log (uri : string) : M (option Map) := λ w,
  match lookup_child uri w with
  | None => (w, Ok None)
  | Some (i, c) =>
      match stop_io_log (E := Error) (λ l, Ok (finalize l)) c with
      | (c, r) => (Nx.set_children (<[i := c]> (Nx.children w)) w, r)
      end
  end.

(** The result is the map the rebuild starts with; without one it is a full
    rebuild. *)
Definition start_rebuild (created : string → JobResult) (h : string → bool) (uri : string) : M (option Map) :=
  _ ← start_rebuild_job created uri;
  _ ← ST.modify (Nx.reconnect_all now h);
  take_io_log uri.

(** [meanwhile] is what other tasks do to the nexus while an operation waits, at
    the first, the second and so on of the points at which it does. *)
Fixpoint start_rebuild_jobs (created : string → JobResult) (h : string → bool) (meanwhile : nat → W → W) (k : nat)
    (uris : list string) : M unit :=
  match uris with
  | [] => mret tt
  | uri :: uris => λ w,
      match start_rebuild created h uri w with
      | (w, Panicked) => (w, Panicked)
      | (w, _) => start_rebuild_jobs created h meanwhile (S k) uris (meanwhile k w)
      end
  end.

(** *** Operations *)

(** [retire_child_device], which returns no error. *)
Definition retire (dev : string) (reason : FaultReason) : M unit := λ w,
  match Nx.retire_child_device partial_rebuild now dev reason false w with
  | (w, Ok _) => (w, Ok tt)
  | (w, _) => (w, Panicked)
  end.

(** The checks are made before the rebuild jobs are cancelled, which waits for
    them to stop. *)
Definition fault_child (s : NexusState) (pause : option IoSub.NexusPauseState)
    (gone h : string → bool) (created : string → JobResult) (meanwhile : nat → W → W) (uri : string) (reason : FaultReason)
    : M NexusStatus :=
  _ ← lift (check_nexus_operation s pause);
  _ ← check_child_remove_operation uri;
  dev ← get_child_device_name uri;
  cancelled ← cancel_rebuild_jobs gone uri;
  _ ← ST.modify (meanwhile 0%nat);
  _ ← retire dev reason;
  res ← get (status s);
  _ ← start_rebuild_jobs created h meanwhile 1 cancelled;
  mret res.

(** Detach the child's device from the channel and drop its handles, and take
    the child off the list. *)
Definition detach_child (uri : string) (w : W) : W :=
  match lookup_child uri w with
  | Some (_, c) =>
      match get_device_name c with
      | Some d => Nx.disconnect_detached_devices (λ _, true) (Nx.detach_device d w)
      | None => w
      end
  | None => w
  end.

Definition drop_child (uri : string) (w : W) : W :=
  Nx.set_children (filter (λ c, name c ≠ uri) (Nx.children w)) w.

(** [paused], [persisted] and [closed] are the results of pausing, persisting
    and closing, each of which waits, as do cancelling the jobs and resuming.  The
    guard of the cancelled jobs must be consumed by its [resume]: dropping it
    panics. *)
Definition remove_child (s : NexusState) (pause : option IoSub.NexusPauseState)
    (paused : outcome Error unit) (persisted : outcome Error unit) (closed : outcome Bdev.Error unit)
    (gone h : string → bool) (created : string → JobResult) (meanwhile : nat → W → W) (uri : string) : M unit :=
  _ ← lift (check_nexus_operation s pause);
  _ ← check_child_remove_operation uri;
  found ← get (lookup_child uri);
  match found with
  | None => mret tt
  | Some _ =>
      cancelled ← cancel_rebuild_jobs gone uri;
      _ ← ST.modify (meanwhile 0%nat);
      match paused with
      | Err _ => start_rebuild_jobs created h meanwhile 1 cancelled
      | Panicked => lift Panicked
      | Ok _ =>
          _ ← ST.modify (meanwhile 1%nat);
          match persisted with
          | Ok _ =>
              _ ← ST.modify (meanwhile 2%nat);
              found ← get (lookup_child uri);
              _ ← ST.modify (detach_child uri);
              _ ← ST.modify (meanwhile 3%nat);
              _ ← (match found with Some _ => ST.modify (drop_child uri) | None => mret tt end);
              _ ← ST.modify (meanwhile 4%nat);
              _ ← start_rebuild_jobs created h meanwhile 5 cancelled;
              match found with Some _ => lift (map_err (λ e, CloseChild e uri) closed) | None => mret tt end
          | _ => lift Panicked
          end
      end
  end.

(** [NexusChild::online] of the child of the given name. *)
Definition online_the_child (created : outcome Bdev.Error string) (lookup : string → option BlockDevice)
    (dev_open : outcome CoreError unit) (size : Z) (uri : string) : M unit := λ w,
  match lookup_child uri w with
  | None => (w, Err (ChildNotFound uri))
  | Some (i, c) =>
      match online now created lookup dev_open size c with
      | (c, r) =>
          (Nx.set_children (<[i := c]> (Nx.children w)) w,
           map_err (λ e, OnlineChild e uri) (_ ← r; Ok tt))
      end
  end.

(** The last step of [online_child]. *)
Definition rebuild_onlined (s : NexusState) (close : NexusChild L → NexusChild L)
    (job_created : string → JobResult) (h : string → bool) (uri : string) : M NexusStatus := λ w,
  match start_rebuild job_created h uri w with
  | (w, Ok _) => (w, Ok (status s w))
  | (w, Err e) => (update_child uri close w, Err e)
  | (w, Panicked) => (w, Panicked)
  end.

(** [acquired] is the result of acquiring the reservation, [close] what closing
    does to the child. *)
Definition online_child (s : NexusState) (pause : option IoSub.NexusPauseState)
    (created : outcome Bdev.Error string) (lookup : string → option BlockDevice)
    (dev_open : outcome CoreError unit) (size : Z) (acquired : outcome ChildError unit)
    (close : NexusChild L → NexusChild L) (job_created : string → JobResult) (h : string → bool) (uri : string) : M NexusStatus :=
  _ ← lift (check_nexus_operation s pause);
  c ← child uri;
  if bool_decide (state c = Open) then get (status s)
  else
    _ ← online_the_child created lookup dev_open size uri;
    match acquired with
    | Err e => _ ← ST.modify (update_child uri close); lift (Err (OnlineChild e uri))
    | Panicked => lift Panicked
    | Ok _ => rebuild_onlined s close job_created h uri
    end.

(** [on_rebuild_update] for the final state of a job: [persisted] is the result
    of persisting, and [close] what closing does to the child. *)
Definition on_rebuild_update (js : RS.RebuildState) (persisted : outcome Error unit)
    (close : NexusChild L → NexusChild L) (h : string → bool) (uri : string) : M unit := λ w,
  match lookup_child uri w with
  | None => (w, Err (ChildNotFound uri))
  | Some (_, c) =>
      if negb (bool_decide (uri ∈ Nx.rebuild_jobs w)) then (w, Err (RebuildJobNotFound uri))
      else if negb (RS.done js) then (w, Ok tt)
      else
        let '(w, r) :=
          match js with
          | RS.Completed =>
              let w := update_child uri (set_sync_state Synced) w in
              match lookup_child uri w with
              | Some (_, c) =>
                  if is_healthy c then (w, persisted) else (w, Ok tt)
              | None => (w, Ok tt)
              end
          | RS.Stopped => (w, Ok tt)
          | _ => (update_child uri (λ c, close_faulted_end now RebuildFailed (close c)) w, Ok tt)
          end in
        match r with
        | Ok _ =>
            (Nx.reconnect_all now h (set_jobs (filter (λ d, d ≠ uri) (Nx.rebuild_jobs w)) w), Ok tt)
        | Err e => (w, Err e)
        | Panicked => (w, Panicked)
        end
  end.

End Control.
End Control.

(** ** Properties *)

Module ControlFacts.
Import Control.
Section ControlFacts.
Context {L : Type} `{!IoLogOps L, !IoLogLaws L} {Map : Type}.
Variables (now : Z) (partial_rebuild : bool) (finalize : L → Map) (src_of : string → string).
Implicit Types (w : Nx.World L) (c : NexusChild L).

Definition names_distinct w : Prop := NoDup (name <$> Nx.children w).
Definition devices_distinct w : Prop := NoDup (omap NxFacts.dev_name (Nx.children w)).

Lemma control_lookup_child_spec uri w i c :
  lookup_child uri w = Some (i, c) → Nx.children w !! i = Some c ∧ name c = uri.
Proof. intros (? & ? & _)%list_find_Some. done. Qed.

Lemma distinct_names_inj w c c' :
  names_distinct w → c ∈ Nx.children w → c' ∈ Nx.children w → name c = name c' → c = c'.
Proof.
  unfold names_distinct. induction (Nx.children w) as [|x cs IH]; [by intros _ ?%not_elem_of_nil|].
  rewrite fmap_cons, NoDup_cons. intros [Hx Hnd] Hc Hc' E.
  apply elem_of_cons in Hc as [->|Hc], Hc' as [->|Hc']; [done| | |by apply IH].
  - destruct Hx. rewrite E. by apply list_elem_of_fmap_2.
  - destruct Hx. rewrite <- E. by apply list_elem_of_fmap_2.
Qed.

Lemma distinct_devices_inj w c c' dev :
  devices_distinct w → c ∈ Nx.children w → c' ∈ Nx.children w →
  NxFacts.dev_name c = Some dev → NxFacts.dev_name c' = Some dev → c = c'.
Proof.
  unfold devices_distinct. induction (Nx.children w) as [|x cs IH]; [by intros _ ?%not_elem_of_nil|].
  intros Hnd Hc Hc' E E'.
  assert (Hin : ∀ z, z ∈ cs → NxFacts.dev_name z = Some dev → dev ∈ omap NxFacts.dev_name cs)
    by (intros z ? ?; apply list_elem_of_omap; by exists z).
  csimpl in Hnd. apply elem_of_cons in Hc as [->|Hc], Hc' as [->|Hc']; [done| | |].
  - rewrite E in Hnd. apply NoDup_cons in Hnd as [[] _]. eauto.
  - rewrite E' in Hnd. apply NoDup_cons in Hnd as [[] _]. eauto.
  - apply IH; try done. destruct (NxFacts.dev_name x); [by apply NoDup_cons in Hnd as [_ ?]|done].
Qed.

Lemma check_remove_pure uri w w' r : check_child_remove_operation uri w = (w', r) → w' = w.
Proof.
  unfold check_child_remove_operation, child, mbind, ST_bind, get.
  destruct (lookup_child uri w) as [[i c]|]; [|by intros [= <- <-]].
  case_bool_decide; [by intros [= <- <-]|].
  destruct (filter _ _) as [|c1 [|c2 cs]]; [by intros [= <- <-]| |by intros [= <- <-]].
  case_bool_decide; by intros [= <- <-].
Qed.

(** The check leaves another healthy child, if there is one at all. *)
Lemma check_remove_spec uri w w' :
  names_distinct w → check_child_remove_operation uri w = (w', Ok tt) →
  w' = w ∧ (∃ i c, lookup_child uri w = Some (i, c)) ∧
  ((∃ c, c ∈ Nx.children w ∧ is_healthy c = true) →
   ∃ c, c ∈ Nx.children w ∧ is_healthy c = true ∧ name c ≠ uri).
Proof.
  intros Hnd. unfold check_child_remove_operation, child, mbind, ST_bind, get. simpl.
  destruct (lookup_child uri w) as [[i c]|] eqn:Hl; [|done]. simpl.
  case_bool_decide; [done|].
  assert (Hin : ∀ c, c ∈ filter (λ c, is_healthy c = true) (Nx.children w) ↔
    is_healthy c = true ∧ c ∈ Nx.children w) by (intros c0; by rewrite list_elem_of_filter).
  assert (Hndf : NoDup (name <$> filter (λ c, is_healthy c = true) (Nx.children w))).
  { eapply sublist_NoDup; [exact Hnd|]. apply fmap_sublist, sublist_filter. }
  destruct (filter _ (Nx.children w)) as [|c1 [|c2 cs]] eqn:Hf.
  - intros [= <-]. split_and!; [done|by eauto|]. intros (c0 & ? & ?).
    assert (Hc0 : c0 ∈ []) by (apply Hin; done). by apply not_elem_of_nil in Hc0.
  - case_bool_decide; [done|]. intros [= <-]. split_and!; [done|by eauto|]. intros _.
    exists c1. destruct (proj1 (Hin c1)); [left|done].
  - intros [= <-]. split_and!; [done|by eauto|]. intros _.
    assert (Hne : name c1 ≠ name c2).
    { rewrite !fmap_cons, NoDup_cons in Hndf. destruct Hndf as [Hn _]. intros E. apply Hn. rewrite E. left. }
    destruct (decide (name c1 = uri)) as [E|E].
    + exists c2. destruct (proj1 (Hin c2)); [right; left|]. split_and!; try done. congruence.
    + exists c1. destruct (proj1 (Hin c1)); [left|done].
Qed.

(** A healthy child with its handles stays as it is when the channel is
    reconnected. *)
Definition usable c : Prop := is_healthy c = true ∧ device_descriptor c = true.

Lemma connect_where_keeps P h cs cs' ds c :
  Nx.connect_where now P h cs = (cs', ds) → c ∈ cs →
  (P c = true → h (name c) = true ∧ device_descriptor c = true) → c ∈ cs'.
Proof.
  revert cs' ds. induction cs as [|x cs IH]; intros cs' ds; simpl; [by intros _ ?%not_elem_of_nil|].
  destruct (Nx.connect_where now P h cs) as [cs1 ds1]. specialize (IH _ _ eq_refl).
  intros Heq [<-|Hc]%elem_of_cons Hk.
  - destruct (P c) eqn:HP; [|by injection Heq as <- <-; left].
    destruct (Hk eq_refl) as [Hh Hd]. unfold Nx.connect_child in Heq. rewrite Hh, Hd in Heq. simpl in Heq.
    destruct (device c); injection Heq as <- <-; left.
  - assert (Hin : c ∈ cs1) by (by apply IH).
    destruct (P x); [|by injection Heq as <- <-; right].
    destruct (Nx.connect_child now h x) as [x' [d|]]; injection Heq as <- <-; by right.
Qed.

Lemma reconnect_keeps h w c :
  (∀ n, h n = true) → usable c → c ∈ Nx.children w → c ∈ Nx.children (Nx.reconnect_all now h w).
Proof.
  intros Hh [Hhe Hd] Hc. unfold Nx.reconnect_all, Nx.connect_children. simpl.
  destruct (Nx.connect_where now is_healthy h (Nx.children w)) as [cs1 rs] eqn:H1.
  assert (Hc1 : c ∈ cs1) by (eapply connect_where_keeps; [exact H1|done|done]).
  destruct rs as [|r rs]; [done|].
  destruct (Nx.connect_where now _ h cs1) as [cs2 ws] eqn:H2. simpl.
  eapply connect_where_keeps; [exact H2|done|]. intros Hr. exfalso.
  unfold is_rebuilding, is_opened_unsync in Hr. unfold is_healthy in Hhe.
  apply andb_prop in Hhe as [_ Hs%bool_decide_eq_true_1]. rewrite Hs in Hr.
  by rewrite !andb_false_r in Hr.
Qed.

(** Name and sync state, which reconnecting does not change. *)
Definition ident c : string * ChildSyncState := (name c, sync_state c).

Lemma connect_idents P h (cs cs' : list (NexusChild L)) ds :
  Nx.connect_where now P h cs = (cs', ds) → ident <$> cs' = ident <$> cs.
Proof.
  revert cs' ds. induction cs as [|x cs IH]; intros cs' ds; simpl; [by intros [= <- <-]|].
  destruct (Nx.connect_where now P h cs) as [cs1 ds1]. specialize (IH _ _ eq_refl).
  assert (Hx : ident (Nx.connect_child now h x).1 = ident x)
    by (unfold Nx.connect_child; by destruct (_ && _), (device x)).
  destruct (P x); [|intros [= <- <-]; csimpl; by rewrite IH].
  destruct (Nx.connect_child now h x) as [x' [d|]]; simpl in Hx; intros [= <- <-]; csimpl; by rewrite IH, Hx.
Qed.

Lemma reconnect_idents h w :
  ident <$> Nx.children (Nx.reconnect_all now h w) = ident <$> Nx.children w.
Proof.
  unfold Nx.reconnect_all, Nx.connect_children. simpl.
  destruct (Nx.connect_where now is_healthy h (Nx.children w)) as [cs1 rs] eqn:H1.
  apply connect_idents in H1. destruct rs as [|r rs]; [done|].
  destruct (Nx.connect_where now _ h cs1) as [cs2 ws] eqn:H2. simpl. by rewrite (connect_idents _ _ _ _ _ H2).
Qed.

Lemma reconnect_jobs h w : Nx.rebuild_jobs (Nx.reconnect_all now h w) = Nx.rebuild_jobs w.
Proof.
  unfold Nx.reconnect_all, Nx.connect_children. simpl.
  destruct (Nx.connect_where now is_healthy h (Nx.children w)) as [cs1 [|r rs]]; [done|].
  by destruct (Nx.connect_where now _ h cs1).
Qed.

(** Usable children survive, and so do names and sync states. *)
Definition keeps w w' : Prop :=
  (∀ c, usable c → c ∈ Nx.children w → c ∈ Nx.children w') ∧
  ident <$> Nx.children w' = ident <$> Nx.children w.

Lemma control_keeps_refl w : keeps w w.
Proof. by split. Qed.

Lemma control_keeps_trans w1 w2 w3 : keeps w1 w2 → keeps w2 w3 → keeps w1 w3.
Proof. intros [H1 E1] [H2 E2]. split; [auto|congruence]. Qed.

Lemma start_rebuild_job_same created uri w w' r :
  start_rebuild_job created uri w = (w', r) →
  Nx.children w' = Nx.children w ∧
  (r = Ok tt → ∃ i c, lookup_child uri w = Some (i, c) ∧ is_opened_unsync c = true ∧
     Nx.rebuild_jobs w' = Nx.rebuild_jobs w ++ [uri]).
Proof.
  unfold start_rebuild_job. destruct (find_src_replica uri w); [|by intros [= <- <-]].
  destruct (lookup_child uri w) as [[i c]|] eqn:Hl; [|by intros [= <- <-]].
  destruct (is_opened_unsync c) eqn:Ho; simpl; [|by intros [= <- <-]].
  destruct (Nx.has_job w c); [by intros [= <- <-]|].
  destruct (created uri); intros [= <- <-]; split; try done. eauto 10.
Qed.

(** Replacing the child of a name. *)
Lemma insert_keeps w w' i c c' :
  Nx.children w !! i = Some c → Nx.children w' = <[i := c']> (Nx.children w) → ident c' = ident c →
  ¬ usable c → keeps w w'.
Proof.
  intros Hi Hw Hn Hu. split.
  - intros x Hx [k Hk]%list_elem_of_lookup. rewrite Hw. apply (list_elem_of_lookup_2 _ k).
    rewrite list_lookup_insert_ne; [done|]. intros ->. naive_solver.
  - rewrite Hw, list_fmap_insert, Hn. apply list_insert_id. by rewrite list_lookup_fmap, Hi.
Qed.

Lemma names_of_idents (cs : list (NexusChild L)) : name <$> cs = (ident <$> cs).*1.
Proof. induction cs as [|c cs IH]; [done|]. csimpl. by rewrite IH. Qed.

Lemma names_distinct_ident w w' :
  ident <$> Nx.children w' = ident <$> Nx.children w → names_distinct w → names_distinct w'.
Proof. unfold names_distinct. rewrite !names_of_idents. by intros ->. Qed.

(** The child of a name keeps its sync state. *)
Lemma same_sync w w' uri i c i' c' :
  names_distinct w → ident <$> Nx.children w' = ident <$> Nx.children w →
  lookup_child uri w = Some (i, c) → lookup_child uri w' = Some (i', c') →
  sync_state c' = sync_state c.
Proof.
  intros Hnd Hid Hl Hl'. destruct (control_lookup_child_spec _ _ _ _ Hl) as [Hi Hn].
  destruct (control_lookup_child_spec _ _ _ _ Hl') as [Hi' Hn'].
  assert (E' : (ident <$> Nx.children w) !! i' = Some (ident c'))
    by (by rewrite <- Hid, list_lookup_fmap, Hi').
  assert (E : (ident <$> Nx.children w) !! i = Some (ident c)) by (by rewrite list_lookup_fmap, Hi).
  assert (i' = i) as ->.
  { eapply (NoDup_lookup (name <$> Nx.children w)); [done| |].
    - rewrite names_of_idents, list_lookup_fmap, E'. reflexivity.
    - rewrite names_of_idents, list_lookup_fmap, E. simpl. by rewrite Hn, Hn'. }
  rewrite E in E'. by injection E'.
Qed.

Lemma take_io_log_keeps uri w w' r :
  take_io_log finalize uri w = (w', r) →
  (∀ i c, lookup_child uri w = Some (i, c) → ¬ usable c) → keeps w w'.
Proof.
  unfold take_io_log. destruct (lookup_child uri w) as [[i c]|] eqn:Hl; [|intros [= <- <-] _; apply control_keeps_refl].
  intros Heq Hu. destruct (control_lookup_child_spec _ _ _ _ Hl) as [Hi Hn]. specialize (Hu i c eq_refl).
  unfold stop_io_log in Heq. destruct (io_log c); injection Heq as <- <-.
  - by eapply insert_keeps.
  - by eapply (insert_keeps w _ i c c).
Qed.

Lemma not_usable_unsync c : is_opened_unsync c = true → ¬ usable c.
Proof.
  unfold usable, is_opened_unsync, is_healthy. intros [_ H2]%andb_prop [[_ H4]%andb_prop _].
  apply bool_decide_eq_true_1 in H2, H4. congruence.
Qed.

Lemma start_rebuild_keeps created h uri w w' r :
  (∀ n, h n = true) → names_distinct w →
  start_rebuild now finalize created h uri w = (w', r) → keeps w w'.
Proof.
  intros Hh Hnd. unfold start_rebuild, mbind, ST_bind.
  destruct (start_rebuild_job created uri w) as [w1 r1] eqn:H1.
  destruct (start_rebuild_job_same _ _ _ _ _ H1) as [Hcs Hok].
  assert (Hk1 : keeps w w1) by (split; by rewrite Hcs).
  destruct r1 as [[]|e|]; [|by intros [= <- <-]..].
  destruct (Hok eq_refl) as (i & c & Hl & Ho & _). unfold ST.modify.
  assert (Hk2 : keeps w1 (Nx.reconnect_all now h w1))
    by (split; [intros; by apply reconnect_keeps|apply reconnect_idents]).
  intros Ht. eapply control_keeps_trans; [exact Hk1|]. eapply control_keeps_trans; [exact Hk2|].
  eapply take_io_log_keeps; [exact Ht|]. intros i' c' Hl' Hu.
  assert (Hnd1 : names_distinct w1) by (unfold names_distinct; by rewrite Hcs).
  assert (Hl1 : lookup_child uri w1 = Some (i, c)) by (unfold lookup_child; by rewrite Hcs).
  pose proof (same_sync w1 _ uri i c i' c' Hnd1 (proj2 Hk2) Hl1 Hl') as Hs.
  apply (not_usable_unsync c Ho). unfold usable, is_healthy, is_opened_unsync in *.
  apply andb_prop in Ho as [_ Ho%bool_decide_eq_true_1]. destruct Hu as [[_ Hu%bool_decide_eq_true_1]%andb_prop _].
  congruence.
Qed.

(** What other tasks do keeps the children that can be used, but for [uri], and
    all names. *)
Definition considerate (uri : string) (f : nat → Nx.World L → Nx.World L) : Prop :=
  ∀ k w, names_distinct w → names_distinct (f k w) ∧
    ∀ c, usable c → name c ≠ uri → c ∈ Nx.children w → c ∈ Nx.children (f k w).

Lemma start_rebuild_jobs_keeps created h f uri k uris w w' r :
  (∀ n, h n = true) → considerate uri f → names_distinct w →
  start_rebuild_jobs now finalize created h f k uris w = (w', r) →
  ∀ c, usable c → name c ≠ uri → c ∈ Nx.children w → c ∈ Nx.children w'.
Proof.
  intros Hh Hf. revert k w. induction uris as [|u uris IH]; intros k w Hnd; simpl; [by intros [= <- <-]|].
  destruct (start_rebuild now finalize created h u w) as [w1 r1] eqn:E.
  pose proof (start_rebuild_keeps _ _ _ _ _ _ Hh Hnd E) as [Hk Hid].
  assert (Hnd1 : names_distinct w1) by (by eapply names_distinct_ident).
  destruct (Hf k w1 Hnd1) as [Hnd2 Hk2].
  destruct r1; [intros Ht|intros Ht|intros [= <- <-]; by auto]; intros c Hu Hn Hc; eapply IH; try done; by auto.
Qed.

(** Retiring the device of a child leaves the children of other devices. *)
Lemma control_retire_spec dev reason w w' r c :
  retire now partial_rebuild dev reason w = (w', r) →
  ident <$> Nx.children w' = ident <$> Nx.children w ∧
  (c ∈ Nx.children w → NxFacts.dev_name c ≠ Some dev → c ∈ Nx.children w').
Proof.
  unfold retire, Nx.retire_child_device.
  destruct (Nx.lookup_child_by_device w dev) as [[i x]|] eqn:Hl; [|by intros [= <- <-]].
  destruct (NxFacts.lookup_child_spec _ _ _ _ Hl) as [Hi Hx].
  assert (Hins : ∀ x', ident x' = ident x →
    ident <$> <[i := x']> (Nx.children w) = ident <$> Nx.children w ∧
    (c ∈ Nx.children w → NxFacts.dev_name c ≠ Some dev → c ∈ <[i := x']> (Nx.children w))).
  { intros x' E. split.
    - rewrite list_fmap_insert, E. apply list_insert_id. by rewrite list_lookup_fmap, Hi.
    - intros [k Hk]%list_elem_of_lookup Hc. apply (list_elem_of_lookup_2 _ k).
      rewrite list_lookup_insert_ne; [done|]. intros ->. congruence. }
  assert (Hlog : ident (start_io_log partial_rebuild x).1 = ident x).
  { unfold start_io_log. destruct (negb partial_rebuild); [done|]. case_bool_decide; [done|].
    destruct (io_log x), (device x) as [d|]; try done. by destruct (il_new _ _ _). }
  destruct (start_io_log partial_rebuild x) as [x1 [hl|e|]]; simpl in Hlog.
  - case_bool_decide; intros [= <- <-]; simpl; by apply Hins.
  - intros [= <- <-]. by apply Hins.
  - intros [= <- <-]. by apply Hins.
Qed.

Lemma cancel_same gone uri w w' r :
  cancel_rebuild_jobs src_of gone uri w = (w', r) →
  Nx.children w' = Nx.children w ∧ ∃ l, r = Ok l.
Proof. intros [= <- <-]. split; [done|]. by eexists. Qed.

Lemma fault_child_keeps s pause gone h created f uri reason w w' r c :
  (∀ n, h n = true) → considerate uri f → names_distinct w → devices_distinct w → usable c → c ∈ Nx.children w → name c ≠ uri →
  fault_child now partial_rebuild finalize src_of s pause gone h created f uri reason w = (w', r) →
  c ∈ Nx.children w'.
Proof.
  intros Hh Hf Hnd Hdd Hu Hc Hne. unfold fault_child, mbind, ST_bind, lift.
  destruct (check_nexus_operation s pause) as [[]|e|]; [|by intros [= <- <-]..].
  destruct (check_child_remove_operation uri w) as [w0 [[]|e|]] eqn:Hck.
  2,3: rewrite (check_remove_pure _ _ _ _ Hck); by intros [= <- <-].
  destruct (check_remove_spec _ _ _ Hnd Hck) as (-> & _ & _).
  unfold get_child_device_name, child, mbind, ST_bind.
  destruct (lookup_child uri w) as [[i x]|] eqn:Hl; [|by intros [= <- <-]].
  destruct (get_device_name x) as [dev|] eqn:Hdev; [|by intros [= <- <-]]. simpl.
  destruct (control_lookup_child_spec _ _ _ _ Hl) as [Hi Hn].
  assert (Hcd : NxFacts.dev_name c ≠ Some dev).
  { intros E. apply Hne. rewrite <- Hn. f_equal. apply (distinct_devices_inj w c x dev); try done. by eapply list_elem_of_lookup_2. }
  unfold ST.modify. set (w0 := set_jobs _ w). set (w1 := f 0%nat w0). destruct (Hf 0%nat w0 Hnd) as [Hnd1 Hk1].
  fold w1 in Hnd1, Hk1. destruct (retire now partial_rebuild dev reason w1) as [w2 r2] eqn:Hrt.
  destruct (control_retire_spec dev reason w1 w2 r2 c Hrt) as [Hid Hkeep].
  assert (Hc2 : c ∈ Nx.children w2) by (by apply Hkeep; [apply Hk1|]).
  destruct r2 as [[]|e|]; [|by intros [= <- <-]..].
  destruct (start_rebuild_jobs now finalize created h f 1 _ w2) as [w3 r3] eqn:Hst.
  assert (c ∈ Nx.children w3).
  { eapply (start_rebuild_jobs_keeps _ _ _ _ _ _ _ _ _ Hh Hf) in Hst; [exact Hst|by eapply (names_distinct_ident w1)|done..]. }
  destruct r3; by intros [= <- <-].
Qed.

Lemma detach_child_same uri w : Nx.children (detach_child uri w) = Nx.children w.
Proof.
  unfold detach_child. destruct (lookup_child uri w) as [[j y]|]; [|done]. destruct (get_device_name y); [|done].
  unfold Nx.detach_device. simpl. by repeat case_match.
Qed.

(** A step that keeps the children that can be used, but for [uri]. *)
Definition spares (uri : string) w w' : Prop :=
  names_distinct w' ∧ ∀ c, usable c → name c ≠ uri → c ∈ Nx.children w → c ∈ Nx.children w'.

Lemma spares_trans uri w1 w2 w3 : spares uri w1 w2 → spares uri w2 w3 → spares uri w1 w3.
Proof. intros [H1 H2] [H3 H4]. split; [done|]. auto. Qed.

Lemma drop_child_spares uri w : names_distinct w → spares uri w (drop_child uri w).
Proof.
  intros Hnd. split; [|intros c _ Hn Hc; by apply list_elem_of_filter].
  unfold names_distinct, drop_child. simpl. eapply sublist_NoDup; [exact Hnd|]. apply fmap_sublist, sublist_filter.
Qed.

Lemma remove_child_keeps s pause paused persisted closed gone h created f uri w w' r c :
  (∀ n, h n = true) → considerate uri f → names_distinct w → usable c → c ∈ Nx.children w → name c ≠ uri →
  remove_child now finalize src_of s pause paused persisted closed gone h created f uri w = (w', r) →
  c ∈ Nx.children w'.
Proof.
  intros Hh Hf Hnd Hu Hc Hne. unfold remove_child, mbind, ST_bind, lift, get.
  destruct (check_nexus_operation s pause) as [[]|e|]; [|by intros [= <- <-]..].
  destruct (check_child_remove_operation uri w) as [w0 [[]|e|]] eqn:Hck.
  2,3: rewrite (check_remove_pure _ _ _ _ Hck); by intros [= <- <-].
  destruct (check_remove_spec _ _ _ Hnd Hck) as (-> & (i & x & Hl) & _). rewrite Hl.
  unfold cancel_rebuild_jobs, ST.modify. set (w0 := set_jobs _ w). set (w1 := f 0%nat w0). simpl.
  assert (Hw : ∀ k x, names_distinct x → spares uri x (f k x)) by (intros k y Hy; by apply Hf).
  assert (H1 : spares uri w w1) by (by apply (Hw 0%nat w0)).
  assert (Hjobs : ∀ k y uris w2 r2, spares uri w y → start_rebuild_jobs now finalize created h f k uris y = (w2, r2) → c ∈ Nx.children w2).
  { intros k y uris w2 r2 [Hy1 Hy2] Hst. eapply (start_rebuild_jobs_keeps _ _ _ _ _ _ _ _ _ Hh Hf) in Hst; [exact Hst|done|done|done|by apply Hy2]. }
  destruct paused as [[]|e|]; [|by apply Hjobs|intros [= <- <-]; by apply H1].
  set (w2 := f 1%nat w1). assert (H2 : spares uri w w2) by (eapply spares_trans; [exact H1|apply Hw, H1]).
  destruct persisted as [[]|e|]; [|intros [= <- <-]; by apply H2..].
  set (w3 := f 2%nat w2). assert (H3 : spares uri w w3) by (eapply spares_trans; [exact H2|apply Hw, H2]).
  set (w4 := f 3%nat (detach_child uri w3)).
  assert (Hdet : spares uri w (detach_child uri w3)) by (unfold spares, names_distinct; rewrite detach_child_same; exact H3).
  assert (H4 : spares uri w w4) by (eapply spares_trans; [exact Hdet|apply Hw, Hdet]).
  assert (Hend : ∀ y o, spares uri w y → (let '(z, q) := start_rebuild_jobs now finalize created h f 5 (filter (λ d, src_of d = uri) (Nx.rebuild_jobs w)) (f 4%nat y) in
     match q with Ok _ => (z, o) | Err e => (z, Err e) | Panicked => (z, Panicked) end) = (w', r) → c ∈ Nx.children w').
  { intros y o Hy. destruct (start_rebuild_jobs _ _ _ _ _ _ _ (f 4%nat y)) as [z q] eqn:Hst. intros Hz.
    assert (z = w') as <- by (by destruct q; injection Hz). eapply Hjobs; [|exact Hst]. eapply spares_trans; [exact Hy|apply Hw, Hy]. }
  destruct (lookup_child uri w3) as [p|].
  - apply Hend. eapply spares_trans; [exact H4|apply drop_child_spares, H4].
  - by apply Hend.
Qed.

(** Children whose handles work are connected and do not change. *)
Lemma connect_where_ready P h (cs : list (NexusChild L)) :
  (∀ c, c ∈ cs → P c = true → h (name c) = true ∧ device_descriptor c = true) →
  Nx.connect_where now P h cs = (cs, omap (λ c, if P c then NxFacts.dev_name c else None) cs).
Proof.
  induction cs as [|c cs IH]; intros Hr; [done|]. simpl.
  rewrite IH by (intros x Hx; apply Hr; by right).
  destruct (P c) eqn:HP; [|done]. destruct (Hr c ltac:(left) HP) as [H1 H2].
  unfold Nx.connect_child, NxFacts.dev_name. rewrite H1, H2. simpl. by destruct (device c).
Qed.

(** Every open child has a descriptor and a device. *)
Definition ready w : Prop :=
  ∀ c, c ∈ Nx.children w → is_opened c = true → device_descriptor c = true ∧ ∃ d, device c = Some d.

Lemma healthy_opened c : is_healthy c = true → is_opened c = true.
Proof. unfold is_healthy, is_opened. by intros [? _]%andb_prop. Qed.

Lemma unsync_opened c : is_opened_unsync c = true → is_opened c = true.
Proof. unfold is_opened_unsync, is_opened. by intros [? _]%andb_prop. Qed.

(** Reconnecting with a child to be rebuilt and a source. *)
Lemma reconnect_rebuilding h w c s d :
  (∀ n, h n = true) → ready w → c ∈ Nx.children w → device c = Some d →
  is_opened_unsync c = true → Nx.has_job w c = true → s ∈ Nx.children w → is_healthy s = true →
  let w' := Nx.reconnect_all now h w in
  Nx.children w' = Nx.children w ∧ Nx.rebuild_jobs w' = Nx.rebuild_jobs w ∧ bd_name d ∈ Nx.writers w' ∧
  (names_distinct w → name c ∉ Nx.io_logs w').
Proof.
  intros Hh Hr Hc Hd Ho Hj Hs Hhs. unfold Nx.reconnect_all, Nx.connect_children. simpl.
  destruct (Hr s Hs (healthy_opened s Hhs)) as (_ & ds & Hds).
  rewrite connect_where_ready by (intros x Hx Hp; split; [done|by apply Hr, healthy_opened]).
  set (rs := omap _ (Nx.children w)). assert (Hrs : bd_name ds ∈ rs).
  { apply list_elem_of_omap. exists s. split; [done|]. rewrite Hhs. unfold NxFacts.dev_name. by rewrite Hds. }
  destruct rs as [|r rs']; [by apply not_elem_of_nil in Hrs|].
  rewrite connect_where_ready
    by (intros x Hx [_ Hp]%andb_prop; split; [done|by apply Hr, unsync_opened]).
  simpl. split; [done|]. split; [done|]. split.
  - right. apply elem_of_app. right. apply list_elem_of_omap. exists c. split; [done|].
    unfold is_rebuilding, Nx.has_job in *. simpl. rewrite Hj, Ho. simpl. unfold NxFacts.dev_name. by rewrite Hd.
  - intros Hnd (x & Hx & [[Hreb _] Hin]%list_elem_of_filter)%list_elem_of_fmap.
    simpl in Hin. assert (x = c) as -> by (by apply (distinct_names_inj w)).
    unfold is_rebuilding, Nx.has_job in *. simpl in Hreb. by rewrite Hj, Ho in Hreb.
Qed.

Lemma find_src_spec dst w u :
  find_src_replica dst w = Some u →
  ∃ c, c ∈ Nx.children w ∧ is_healthy c = true ∧ name c = u ∧ u ≠ dst.
Proof.
  unfold find_src_replica. set (cs := filter _ (Nx.children w)).
  assert (Hin : ∀ c, c ∈ cs → c ∈ Nx.children w ∧ is_healthy c = true ∧ name c ≠ dst)
    by (intros c [[? ?] ?]%list_elem_of_filter; done).
  destruct (list_find _ cs) as [[i c]|] eqn:Hf.
  - intros [= <-]. apply list_find_Some in Hf as (Hi & _ & _).
    destruct (Hin c) as (? & ? & ?); [by eapply list_elem_of_lookup_2|]. by exists c.
  - destruct cs as [|c cs]; [done|]. intros [= <-]. destruct (Hin c) as (? & ? & ?); [left|]. by exists c.
Qed.

(** Reconnecting makes no child healthy. *)
Lemma connect_where_healthy P h (cs cs' : list (NexusChild L)) ds c :
  Nx.connect_where now P h cs = (cs', ds) → c ∈ cs' → is_healthy c = true → c ∈ cs.
Proof.
  revert cs' ds. induction cs as [|x cs IH]; intros cs' ds; simpl; [by intros [= <- <-]|].
  destruct (Nx.connect_where now P h cs) as [cs1 ds1]. specialize (IH _ _ eq_refl).
  assert (Hx : (Nx.connect_child now h x).1 = x ∨ is_healthy (Nx.connect_child now h x).1 = false)
    by (unfold Nx.connect_child; destruct (_ && _); [left; by destruct (device x)|by right]).
  destruct (P x).
  - destruct (Nx.connect_child now h x) as [x' [d|]]; simpl in Hx; intros [= <- <-] [->|Hin]%elem_of_cons Hhe.
    all: try (right; by apply IH). all: destruct Hx as [->|Hx]; [left|congruence].
  - intros [= <- <-] [->|Hin]%elem_of_cons Hhe; [left|right; by apply IH].
Qed.

Lemma reconnect_healthy h w c :
  c ∈ Nx.children (Nx.reconnect_all now h w) → is_healthy c = true → c ∈ Nx.children w.
Proof.
  unfold Nx.reconnect_all, Nx.connect_children. simpl.
  destruct (Nx.connect_where now is_healthy h (Nx.children w)) as [cs1 rs] eqn:H1.
  intros Hc Hhe. eapply connect_where_healthy; [exact H1| |done].
  destruct rs as [|r rs]; [done|].
  destruct (Nx.connect_where now _ h cs1) as [cs2 ws] eqn:H2. simpl in Hc.
  by eapply connect_where_healthy.
Qed.

Lemma update_child_elem uri f w c :
  c ∈ Nx.children (update_child uri f w) →
  c ∈ Nx.children w ∨ ∃ x, x ∈ Nx.children w ∧ name x = uri ∧ c = f x.
Proof.
  unfold update_child. destruct (lookup_child uri w) as [[i x]|] eqn:Hl; [|by left].
  destruct (control_lookup_child_spec _ _ _ _ Hl) as [Hi Hn].
  intros [k Hk]%list_elem_of_lookup. simpl in Hk. destruct (decide (k = i)) as [->|Hne].
  - rewrite list_lookup_insert_eq in Hk by (by eapply lookup_lt_Some). injection Hk as <-.
    right. exists x. split; [by eapply list_elem_of_lookup_2|done].
  - left. rewrite list_lookup_insert_ne in Hk by done. by eapply list_elem_of_lookup_2.
Qed.

End ControlFacts.
End ControlFacts.

Module ControlProps.
Import Control ControlFacts.
Section ControlProps.
Context {L : Type} `{!IoLogOps L, !IoLogLaws L} {Map : Type}.
Variables (now : Z) (partial_rebuild : bool) (finalize : L → Map) (src_of : string → string).
Implicit Types (w : Nx.World L) (c : NexusChild L).

(** C10. Faulting or removing a child does not take the last healthy child away:
    whatever the outcome, a nexus that has a healthy child still has one, provided
    that while the operation waits nothing else takes one of the other healthy
    children out of service, and that the channels can be reconnected to the healthy
    children (the check of the last healthy child is made before the operation first
    waits, and is not repeated).  The names and the devices of the children are
    distinct, and open children have a device and a descriptor. *)
Theorem last_healthy_child_is_kept (s : NexusState) (pause : option IoSub.NexusPauseState)
    (paused : outcome Error unit) (persisted : outcome Error unit)
    (closed : outcome Bdev.Error unit) (gone h : string → bool) (created : string → JobResult)
    (meanwhile : nat → Nx.World L → Nx.World L) (uri : string)
    (reason : FaultReason) w w' (r : outcome Error NexusStatus) (r' : outcome Error unit) :
  names_distinct w → devices_distinct w → ready w → (∀ n, h n = true) → considerate uri meanwhile →
  (∃ c, c ∈ Nx.children w ∧ is_healthy c = true) →
  fault_child now partial_rebuild finalize src_of s pause gone h created meanwhile uri reason w = (w', r) ∨
  remove_child now finalize src_of s pause paused persisted closed gone h created meanwhile uri w = (w', r') →
  ∃ c, c ∈ Nx.children w' ∧ is_healthy c = true.
Proof.
  intros Hnd Hdd Hr Hh Hf Hex Hop.
  destruct (check_child_remove_operation uri w) as [w0 rc] eqn:Hck.
  pose proof (check_remove_pure _ _ _ _ Hck) as ->.
  assert (Hcase : (∃ c, c ∈ Nx.children w ∧ is_healthy c = true ∧ name c ≠ uri) ∨ w' = w).
  { destruct rc as [[]|e|].
    - left. by apply (check_remove_spec uri w w Hnd Hck).
    - right. destruct Hop as [Hop|Hop]; revert Hop; unfold fault_child, remove_child, mbind, ST_bind, lift;
        rewrite Hck; by destruct (check_nexus_operation s pause); intros [= <- <-].
    - right. destruct Hop as [Hop|Hop]; revert Hop; unfold fault_child, remove_child, mbind, ST_bind, lift;
        rewrite Hck; by destruct (check_nexus_operation s pause); intros [= <- <-]. }
  destruct Hcase as [(c & Hc & Hhe & Hne)| ->]; [|done]. exists c. split; [|done].
  assert (Hu : usable c) by (split; [done|by apply Hr, healthy_opened]).
  destruct Hop as [Hop|Hop]; [by eapply fault_child_keeps|by eapply remove_child_keeps].
Qed.

(** Starting a rebuild hands over the I/O log: the child was open and out of
    sync, its job is stored, the channel writes to its device and no longer logs
    for it, and the rebuild starts with the map of exactly the log the child
    had, which is taken off the child; nothing else changes in the children. *)
Theorem start_rebuild_hands_over_log (created : string → JobResult) (h : string → bool) (uri : string) w w' (m : option Map) :
  names_distinct w → ready w → (∀ n, h n = true) →
  start_rebuild now finalize created h uri w = (w', Ok m) →
  ∃ i c d, lookup_child uri w = Some (i, c) ∧ device c = Some d ∧ is_opened_unsync c = true ∧
    m = finalize <$> io_log c ∧
    Nx.children w' = <[i := set_io_log None c]> (Nx.children w) ∧
    Nx.rebuild_jobs w' = Nx.rebuild_jobs w ++ [uri] ∧
    bd_name d ∈ Nx.writers w' ∧ uri ∉ Nx.io_logs w'.
Proof.
  intros Hnd Hr Hh. unfold start_rebuild, mbind, ST_bind.
  destruct (start_rebuild_job created uri w) as [w1 [[]|e|]] eqn:H1; [|done|done].
  destruct (start_rebuild_job_same _ _ _ _ _ H1) as [Hcs Hok].
  destruct (Hok eq_refl) as (i & c & Hl & Ho & Hj). destruct (control_lookup_child_spec _ _ _ _ Hl) as [Hi Hn].
  assert (Hc : c ∈ Nx.children w) by (by eapply list_elem_of_lookup_2).
  destruct (Hr c Hc (unsync_opened c Ho)) as (_ & d & Hd).
  assert (Hs : ∃ u, find_src_replica uri w = Some u)
    by (unfold start_rebuild_job in H1; destruct (find_src_replica uri w) as [u|]; [by exists u|done]).
  destruct Hs as (u & (s & Hs & Hhs & _)%find_src_spec).
  destruct (reconnect_rebuilding now h w1 c s d) as (Hcs2 & Hj2 & Hw2 & Hlog); try done.
  { unfold ready. by rewrite Hcs. } { by rewrite Hcs. }
  { unfold Nx.has_job. apply bool_decide_eq_true_2. rewrite Hj, Hn. apply elem_of_app. right. left. }
  { by rewrite Hcs. }
  unfold ST.modify, take_io_log. set (w2 := Nx.reconnect_all now h w1) in *. clearbody w2.
  assert (Hl2 : lookup_child uri w2 = Some (i, c)) by (unfold lookup_child; by rewrite Hcs2, Hcs).
  rewrite Hl2. unfold stop_io_log. intros Ht. exists i, c, d. split; [done|]. split; [done|]. split; [done|].
  assert (Hu : uri ∉ Nx.io_logs w2) by (rewrite <- Hn; apply Hlog; unfold names_distinct; by rewrite Hcs).
  destruct (io_log c) as [l|] eqn:El; injection Ht as <- <-; simpl; rewrite Hcs2, Hcs, Hj2, Hj.
  - done.
  - split; [done|]. split; [|done].
    assert (set_io_log None c = c) as -> by (destruct c; simpl in El; by subst). done.
Qed.

(** C11. A rebuild that ends makes a child healthy only if it has completed and
    the child is open; no other child becomes healthy, and unless the final
    state cannot be saved the job is gone from the table afterwards. *)
Theorem only_completed_rebuild_heals (js : RS.RebuildState) (persisted : outcome Error unit)
    (close : NexusChild L → NexusChild L) (h : string → bool) (uri : string) w w' (r : outcome Error unit) :
  on_rebuild_update now js persisted close h uri w = (w', r) →
  (∀ c', c' ∈ Nx.children w' → is_healthy c' = true →
    c' ∈ Nx.children w ∨
    js = RS.Completed ∧ uri ∈ Nx.rebuild_jobs w ∧
      ∃ c, c ∈ Nx.children w ∧ name c = uri ∧ state c = Open ∧ c' = set_sync_state Synced c) ∧
  (RS.done js = true → r = Ok tt → uri ∉ Nx.rebuild_jobs w').
Proof.
  unfold on_rebuild_update. destruct (lookup_child uri w) as [[i c]|] eqn:Hl; [|intros [= <- <-]; by split; [left|]].
  case_bool_decide as Hj; simpl; [|intros [= <- <-]; by split; [left|]].
  destruct (RS.done js) eqn:Hd; simpl; [|intros [= <- <-]; by split; [left|]].
  set (p := match js with RS.Completed => _ | _ => _ end).
  assert (Hp : ∀ c', c' ∈ Nx.children p.1 → is_healthy c' = true →
    c' ∈ Nx.children w ∨ js = RS.Completed ∧ uri ∈ Nx.rebuild_jobs w ∧
      ∃ c, c ∈ Nx.children w ∧ name c = uri ∧ state c = Open ∧ c' = set_sync_state Synced c).
  { intros c' Hc' Hhe. subst p. destruct js; try done.
    - by left.
    - apply update_child_elem in Hc' as [?|(x & _ & _ & ->)]; [by left|done].
    - assert (Hc2 : c' ∈ Nx.children (update_child uri (set_sync_state Synced) w))
        by (by destruct (lookup_child uri (update_child _ _ w)) as [[? x]|]; [destruct (is_healthy x)|]).
      apply update_child_elem in Hc2 as [?|(x & Hx & Hn & ->)]; [by left|]. right. split; [done|].
      split; [done|]. exists x. split; [done|]. split; [done|]. split; [|done].
      by apply healthy_opened, bool_decide_eq_true_1 in Hhe. }
  destruct p as [w1 [[]|e|]]; intros [= <- <-]; simpl in Hp.
  - split.
    + intros c' Hc' Hhe. apply Hp; [|done]. by apply (reconnect_healthy now h _ c' Hc').
    + intros _ _. rewrite reconnect_jobs. simpl. by intros [? _]%list_elem_of_filter.
  - by split.
  - by split.
Qed.

(** When the removal of a child cannot be saved, [remove_child] returns with
    the guard of the cancelled rebuilds not consumed: dropping it panics. *)
Theorem remove_child_persist_failure_panics (s : NexusState) (pause : option IoSub.NexusPauseState)
    (e : Error) (closed : outcome Bdev.Error unit) (gone h : string → bool) (created : string → JobResult) (f : nat → Nx.World L → Nx.World L) (uri : string) w :
  check_nexus_operation s pause = Ok tt → check_child_remove_operation uri w = (w, Ok tt) →
  (remove_child now finalize src_of s pause (Ok tt) (Err e) closed gone h created f uri w).2 = Panicked.
Proof.
  intros H1 H2. unfold remove_child, mbind, ST_bind, lift, get. rewrite H1, H2.
  revert H2. unfold check_child_remove_operation, child, mbind, ST_bind.
  by destruct (lookup_child uri w) as [[i c]|].
Qed.

End ControlProps.
End ControlProps.

(** ** Sample runs *)

Module ControlSample.
Import Control ControlFacts.

Local Instance log_ops : IoLogOps (IOLog.IOLog (list bool)) := IoLogImpl.ops 4096 [0; 1].
Local Instance log_laws : IoLogLaws (IOLog.IOLog (list bool)) :=
  IoLogImpl.laws 4096 [0; 1] (conj eq_refl eq_refl).

Definition finalize (l : IOLog.IOLog (list bool)) : option (RMap.RebuildMap (list bool)) :=
  match @IOLog.finalize (list bool) _ CoreError l with Ok m => Some m | _ => None end.

Definition src_of (uri : string) : string := "a".

Definition world (cs : list (NexusChild (IOLog.IOLog (list bool)))) (jobs writers : list string) :=
  Nx.mkWorld cs jobs Success false [] writers ["da"] [] [] 0 Nx.Normal [] ∅ [] [] [] [].

Definition a := NxSample.child "a" "da".
Definition b := set_sync_state OutOfSync (NxSample.child "b" "db").

(** [b] is brought back with its log. *)
Definition degraded := world [a; set_io_log (Some NxSample.log_b) b] [] ["da"].

Lemma degraded_names : names_distinct degraded.
Proof. by apply (bool_decide_unpack _). Qed.

Lemma degraded_devices : devices_distinct degraded.
Proof. by apply (bool_decide_unpack _). Qed.

Lemma degraded_ready : ready degraded.
Proof.
  intros c [->|[->|[]%not_elem_of_nil]%elem_of_cons]%elem_of_cons _; (split; [done|]); by eexists.
Qed.

(** While the request waits a job of another child leaves the table. *)
Definition job_gone (_ : nat) (w : Nx.World (IOLog.IOLog (list bool))) := set_jobs [] w.

Lemma last_healthy_child_is_kept_witness :
  ∃ c, c ∈ Nx.children (fault_child 7 true finalize src_of NxOpen (Some IoSub.Unpaused) (λ _, true)
      (λ _, true) (λ _, Ok tt) job_gone "b" Offline degraded).1 ∧ is_healthy c = true.
Proof.
  destruct (fault_child 7 true finalize src_of NxOpen (Some IoSub.Unpaused) (λ _, true)
    (λ _, true) (λ _, Ok tt) job_gone "b" Offline degraded) as [w' r] eqn:E.
  apply (ControlProps.last_healthy_child_is_kept 7 true finalize src_of NxOpen (Some IoSub.Unpaused)
    (Ok tt) (Ok tt) (Ok tt) (λ _, true) (λ _, true) (λ _, Ok tt) job_gone "b" Offline degraded w' r (Ok tt)).
  - exact degraded_names.
  - exact degraded_devices.
  - exact degraded_ready.
  - reflexivity.
  - intros k w Hw. split; [exact Hw|]. intros c _ _ Hc. exact Hc.
  - exists a. split; [left|reflexivity].
  - left. exact E.
Defined.

(** Both children are healthy; while the request to fault [a] waits, an I/O error
    retires [b]: [a] is faulted all the same, and no child is left. *)
Definition both_healthy := world [a; NxSample.child "b" "db"] [] ["da"; "db"].

Definition b_fails (k : nat) (w : Nx.World (IOLog.IOLog (list bool))) :=
  match k with 0%nat => (retire 7 true "db" IoError w).1 | _ => w end.

Lemma racing_fault_leaves_no_healthy_child :
  let '(w', r) := fault_child 7 true finalize src_of NxOpen (Some IoSub.Unpaused) (λ _, true)
      (λ _, true) (λ _, Ok tt) b_fails "a" Offline both_healthy in
  r = Ok Faulted ∧ existsb is_healthy (Nx.children both_healthy) = true ∧ existsb is_healthy (Nx.children w') = false.
Proof. vm_compute. split; [reflexivity|split; reflexivity]. Qed.

Lemma start_rebuild_hands_over_log_witness :
  ∃ w', start_rebuild 7 finalize (λ _, Ok tt) (λ _, true) "b" degraded = (w', Ok (Some (finalize NxSample.log_b))) ∧
    "db"%string ∈ Nx.writers w' ∧ "b"%string ∉ Nx.io_logs w'.
Proof.
  destruct (start_rebuild 7 finalize (λ _, Ok tt) (λ _, true) "b" degraded) as [w' r] eqn:E.
  assert (r = Ok (Some (finalize NxSample.log_b))) as ->
    by (change r with (w', r).2; rewrite <- E; vm_compute; reflexivity).
  exists w'. split; [reflexivity|].
  destruct (ControlProps.start_rebuild_hands_over_log 7 finalize (λ _, Ok tt) (λ _, true) "b" degraded w'
    (Some (finalize NxSample.log_b)) degraded_names degraded_ready (λ _, eq_refl) E)
    as (i & c & d & Hl & Hd & _ & _ & _ & _ & Hw & Hlog).
  split; [|exact Hlog]. vm_compute in Hl. injection Hl as <- <-. injection Hd as <-. exact Hw.
Defined.

Definition rebuilding := world [a; b] ["b"] ["da"; "db"].

Lemma only_completed_rebuild_heals_witness :
  ∃ w', on_rebuild_update 7 RS.Completed (Ok tt) id (λ _, true) "b" rebuilding = (w', Ok tt) ∧
    "b"%string ∉ Nx.rebuild_jobs w'.
Proof.
  destruct (on_rebuild_update 7 RS.Completed (Ok tt) id (λ _, true) "b" rebuilding) as [w' r] eqn:E.
  assert (r = Ok tt) as -> by (change r with (w', r).2; rewrite <- E; vm_compute; reflexivity).
  exists w'. split; [reflexivity|].
  apply (ControlProps.only_completed_rebuild_heals 7 RS.Completed (Ok tt) id (λ _, true) "b" rebuilding w'
    (Ok tt) E); reflexivity.
Defined.

(** Two writes are sent to both children; the first fails on [b]. *)
Definition first_failure : list Nx.event :=
  [Nx.EvNew 0 IoWrite 10 3 false NxSample.accept; Nx.EvNew 1 IoWrite 20 1 false NxSample.accept;
   Nx.EvChild 1 (NvmeError Generic_ABORTED_SQ_DELETION) NxSample.accept].

(** Then [b] is detached, the first write is sent again to [a] only and
    acknowledged; the second fails on [b], too. *)
Definition second_failure : list Nx.event :=
  [Nx.EvDetach "db"; Nx.EvChild 0 Success NxSample.accept;
   Nx.EvChild 1 (NvmeError Generic_ABORTED_SQ_DELETION) NxSample.accept;
   Nx.EvChild 1 Success NxSample.accept].

Definition failed_once := default rebuilding (run_events 1 true 0 7 first_failure rebuilding).
Definition completed_late := (on_rebuild_update 7 RS.Completed (Ok tt) id (λ _, true) "b" failed_once).1.
Definition failed_twice := default rebuilding (run_events 1 true 0 7 second_failure completed_late).
Definition map_of_b : option (RMap.RebuildMap (list bool)) :=
  c ← Nx.children failed_twice !! 1%nat; l ← io_log c; finalize l.

(** The child of a rebuild that has just completed can fail before the
    completion is processed.  It is out of sync then and gets no I/O log, but the
    completion marks it in sync; when another write fails on it a log is started
    that lacks the first one: the map of that log says that the blocks of an
    acknowledged write the child has missed are clean. *)
Theorem late_completion_loses_write :
  run_events 1 true 0 7 first_failure rebuilding = Some failed_once ∧
  on_rebuild_update 7 RS.Completed (Ok tt) id (λ _, true) "b" failed_once = (completed_late, Ok tt) ∧
  run_events 1 true 0 7 second_failure completed_late = Some failed_twice ∧
  Nx.completed failed_twice = [(0%nat, Nx.BioOk)] ∧
  (Nx.targets <$> Nx.bios failed_twice !! 0%nat) = Some ["da"%string] ∧
  (m ← map_of_b; match RMap.is_blk_clean (E := CoreError) m 10 with Ok r => Some r | _ => None end) = Some true.
Proof.
  split; [vm_compute; reflexivity|]. split; [vm_compute; reflexivity|].
  split; [vm_compute; reflexivity|]. split; [vm_compute; reflexivity|].
  split; vm_compute; reflexivity.
Qed.

End ControlSample.
