(* ===== verification/NexusSnapshot.v ===== *)
(** * Snapshots of a nexus

    [bdev/nexus/nexus_bdev_snapshot.rs]: a snapshot of a nexus is a snapshot of
    each of its replicas, taken while its I/O is paused.

    The history is the state: pausing, the commands sent to replicas, and
    resuming.  Pausing, resuming, and the handles of the replicas give their
    answers as arguments.  The tasks that take the snapshots run on the first core
    and look the nexus up again; [nexus_at] is what the task for a replica finds.
    Tasks are independent of each other and are run in the order of their list;
    [spawn] says which can be scheduled, and whose answer arrives. *)

From S2P Require Import Prelude Errors NexusErrors NexusChild NexusIo IoSubsystem LvsLvol NexusPersist NexusReservations NexusControl.
Import NexusErr.
#[local] Open Scope Z_scope.

Module NxSnap.
Import Child.

Record NexusReplicaSnapshotDescriptor := mkDescr {
  replica_uuid : string;
  snapshot_uuid : option string;
  skip : bool;
}.

Record NexusReplicaSnapshotStatus := mkStatus { st_replica_uuid : string; status : Z }.

(** The time of the snapshot is left as text. *)
Record NexusSnapshotStatus := mkSnapStatus {
  snapshot_timestamp : option string;
  replicas_done : list NexusReplicaSnapshotStatus;
  replicas_skipped : list string;
}.

(** [SnapshotExecutorReplicaCtx] *)
Record Ctx := mkCtx { ctx_snapshot_uuid : string; ctx_replica_uuid : string }.

(** What becomes of a task: it cannot be scheduled, it is dropped before or after
    it has run, or it answers. *)
Inductive Spawn := Refused | Lost (ran : bool) | Answered.

Inductive event := EvPause | EvSnapshot (child : string) (params : Lvol.SnapshotParams) | EvResume.

(** The answer of a call: an error, or none. *)
Definition answer {E} (o : option E) : outcome E unit := match o with Some e => Err e | None => Ok tt end.

(** [errno as u32] *)
Definition errno_number (e : Errno) : Z :=
  match e with
  | EPERM => 1 | ENOENT => 2 | EIO => 5 | ENXIO => 6 | EAGAIN => 11 | ENOMEM => 12 | EFAULT => 14 | EBUSY => 16
  | EEXIST => 17 | ENODEV => 19 | EINVAL => 22 | EMFILE => 24 | ENOSPC => 28 | EMLINK => 31 | EPIPE => 32
  | EXFULL => 54 | ENODATA => 61 | EOVERFLOW => 75 | ENOTUNIQ => 76 | EILSEQ => 84 | ENOTSUP | EOPNOTSUPP => 95
  | EINPROGRESS => 115 | ENAVAIL => 119 | ENOMEDIUM => 123 | EMEDIUMTYPE => 124 | ECANCELED => 125
  | EKEYREJECTED => 129 | ERFKILL => 132 | UnknownErrno => 0 | EOTHER n => n
  end.

Section Snapshot.
Context {L : Type}.
(** [NexusChild::uuid] of a URI *)
Variable uuid_of : string → option string.

Local Abbreviation Ch := (NexusChild L).

Definition get_uuid (c : Ch) : option string := uuid_of (name c).

(** The map from uuids to children; the last child wins. *)
Definition nexus_replicas (cs : list Ch) : gmap string Ch :=
  list_to_map (reverse (omap (λ c, u ← get_uuid c; Some (u, c)) cs)).

(** The loop of [ReplicaSnapshotExecutor::new] *)
Fixpoint check_replicas (kids : gmap string Ch) (seen : gset string) (rs : list NexusReplicaSnapshotDescriptor)
    : outcome Error (list Ctx * list string) :=
  match rs with
  | [] => Ok ([], [])
  | r :: rs =>
      match kids !! replica_uuid r with
      | None => Err FailedCreateSnapshot
      | Some c =>
          if bool_decide (replica_uuid r ∈ seen) then Err FailedCreateSnapshot
          else
            let seen := {[replica_uuid r]} ∪ seen in
            if skip r then
              p ← check_replicas kids seen rs;
              Ok (fst p, replica_uuid r :: snd p)
            else if negb (is_healthy c) then Err FailedCreateSnapshot
            else
              match snapshot_uuid r with
              | None => Err FailedCreateSnapshot
              | Some u => p ← check_replicas kids seen rs; Ok (mkCtx u (replica_uuid r) :: fst p, snd p)
              end
      end
  end.

(** [ReplicaSnapshotExecutor::new] *)
Definition executor_new (cs : list Ch) (rs : list NexusReplicaSnapshotDescriptor) : outcome Error (list Ctx * list string) :=
  if negb (Nat.eqb (length cs) (length rs)) then Err FailedCreateSnapshot
  else check_replicas (nexus_replicas cs) ∅ rs.

(** [Nexus::child_by_uuid] *)
Definition child_by_uuid (cs : list Ch) (u : string) : option Ch := snd <$> list_find (λ c, get_uuid c = Some u) cs.

Definition replica_params (snapshot : Lvol.SnapshotParams) (ctx : Ctx) : Lvol.SnapshotParams :=
  Lvol.mkParams (Lvol.sp_entity_id snapshot) (Some (ctx_replica_uuid ctx)) (Lvol.sp_txn_id snapshot) (Lvol.sp_name snapshot)
    (Some (ctx_snapshot_uuid ctx)) (Lvol.sp_create_time snapshot) false.

Section Tasks.
Variable nexus_name : string.
(** What a task finds, whether it gets a handle, and what the replica answers. *)
Variable nexus_at : string → option (list Ch).
Variable get_io_handle : string → option CoreError.
Variable handle_create_snapshot : string → Lvol.SnapshotParams → option CoreError.
Variable spawn : string → Spawn.

Definition task (snapshot : Lvol.SnapshotParams) (ctx : Ctx) : ST (list event) CoreError unit :=
  match nexus_at (ctx_replica_uuid ctx) with
  | None => ST.fail (BdevNotFound nexus_name)
  | Some cs =>
      match child_by_uuid cs (ctx_replica_uuid ctx) with
      | None => ST.fail (BdevNotFound (ctx_replica_uuid ctx))
      | Some c =>
          ST.lift (map_err (λ _, GetIoChannel (ctx_replica_uuid ctx)) (answer (get_io_handle (name c))));;
          ST.modify (λ l, l ++ [EvSnapshot (name c) (replica_params snapshot ctx)]);;
          ST.lift (answer (handle_create_snapshot (name c) (replica_params snapshot ctx)))
      end
  end.

(** The task of a replica: a refusal to schedule it is unwrapped. *)
Definition spawn_task (snapshot : Lvol.SnapshotParams) (ctx : Ctx) : ST (list event) Error (option (outcome CoreError unit)) :=
  match spawn (ctx_replica_uuid ctx) with
  | Refused => ST.panic
  | Lost false => mret None
  | Lost true => ST.try (task snapshot ctx);; mret None
  | Answered => r ← ST.try (task snapshot ctx); mret (Some r)
  end.

Fixpoint spawn_tasks (snapshot : Lvol.SnapshotParams) (ctxs : list Ctx) : ST (list event) Error (list (option (outcome CoreError unit))) :=
  match ctxs with
  | [] => mret []
  | ctx :: ctxs => r ← spawn_task snapshot ctx; rs ← spawn_tasks snapshot ctxs; mret (r :: rs)
  end.

(** [join_all]: an answer that does not arrive is unwrapped. *)
Fixpoint join_all (ctxs : list Ctx) (rs : list (option (outcome CoreError unit))) : outcome Error (list NexusReplicaSnapshotStatus) :=
  match ctxs, rs with
  | ctx :: ctxs, r :: rs =>
      r ← of_option r;
      rest ← join_all ctxs rs;
      Ok (mkStatus (ctx_replica_uuid ctx) (match r with Err e => errno_number (core_to_errno e) | _ => 0 end) :: rest)
  | _, _ => Ok []
  end.

(** [take_snapshot] *)
Definition take_snapshot (snapshot : Lvol.SnapshotParams) (ctxs : list Ctx) : ST (list event) Error (list NexusReplicaSnapshotStatus) :=
  rs ← spawn_tasks snapshot ctxs;
  ST.lift (join_all ctxs rs).

Definition do_nexus_snapshot (cs : list Ch) (snapshot : Lvol.SnapshotParams) (rs : list NexusReplicaSnapshotDescriptor)
    : ST (list event) Error NexusSnapshotStatus :=
  p ← ST.lift (executor_new cs rs);
  done ← take_snapshot snapshot (fst p);
  mret (mkSnapStatus (Lvol.sp_create_time snapshot) done (snd p)).

(** [check_nexus_state] *)
Definition check_nexus_state (s : Control.NexusState) (pause : option IoSub.NexusPauseState) (cs : list Ch) : outcome Error unit :=
  _ ← Control.check_nexus_operation s pause;
  match cs with
  | [] => Err FailedCreateSnapshot
  | _ => match s with Control.NxOpen => Ok tt | _ => Err FailedCreateSnapshot end
  end.

(** [Nexus::create_snapshot]; that the nexus cannot be resumed is only logged. *)
Definition create_snapshot (s : Control.NexusState) (pst : option IoSub.NexusPauseState) (pause resume : option Error)
    (cs : list Ch) (snapshot : Lvol.SnapshotParams) (rs : list NexusReplicaSnapshotDescriptor)
    : ST (list event) Error NexusSnapshotStatus :=
  match Lvol.sp_name snapshot with
  | None => ST.fail FailedCreateSnapshot
  | Some _ =>
      ST.lift (check_nexus_state s pst cs);;
      ST.lift (answer pause);;
      ST.modify (λ l, l ++ [EvPause]);;
      res ← ST.try (do_nexus_snapshot cs snapshot rs);
      (if is_ok (answer resume) then ST.modify (λ l, l ++ [EvResume]) else mret tt);;
      ST.lift res
  end.

End Tasks.
End Snapshot.
End NxSnap.

(** ** Properties *)

Module NxSnapProps.
Import Child NxSnap.

Section Props.
Context {L : Type} (uuid_of : string → option string).
Local Abbreviation Ch := (NexusChild L).
Local Abbreviation get_uuid := (get_uuid (L := L) uuid_of).
Implicit Types (cs : list Ch) (rs : list NexusReplicaSnapshotDescriptor).

(** A context stands for a replica that was not to be skipped, with the uuid
    requested for its snapshot. *)
Definition stands_for rs (ctx : Ctx) : Prop :=
  ∃ r, r ∈ rs ∧ skip r = false ∧ replica_uuid r = ctx_replica_uuid ctx ∧ snapshot_uuid r = Some (ctx_snapshot_uuid ctx).

Lemma stands_for_cons r rs ctx : stands_for rs ctx → stands_for (r :: rs) ctx.
Proof. intros (r' & ? & ?). exists r'. split; [set_solver|done]. Qed.

Lemma check_replicas_spec (kids : gmap string Ch) seen rs ctxs sk :
  check_replicas kids seen rs = Ok (ctxs, sk) →
  (ctx_replica_uuid <$> ctxs) ++ sk ≡ₚ replica_uuid <$> rs ∧ NoDup (replica_uuid <$> rs) ∧
  (∀ u, u ∈ replica_uuid <$> rs → u ∉ seen ∧ is_Some (kids !! u)) ∧
  Forall (λ ctx, stands_for rs ctx ∧ ∃ c, kids !! ctx_replica_uuid ctx = Some c ∧ is_healthy c = true) ctxs.
Proof.
  revert seen ctxs sk. induction rs as [|r rs IH]; intros seen ctxs sk; simpl.
  { intros [= <- <-]. split_and!; [done|constructor|set_solver|done]. }
  destruct (kids !! replica_uuid r) as [c|] eqn:Ek; [|done]. case_bool_decide as Hseen; [done|].
  assert (∀ ctxs' sk', check_replicas kids ({[replica_uuid r]} ∪ seen) rs = Ok (ctxs', sk') →
    (ctx_replica_uuid <$> ctxs') ++ sk' ≡ₚ replica_uuid <$> rs ∧ NoDup (replica_uuid r :: (replica_uuid <$> rs)) ∧
    (∀ u, u ∈ replica_uuid r :: (replica_uuid <$> rs) → u ∉ seen ∧ is_Some (kids !! u)) ∧
    Forall (λ ctx, stands_for (r :: rs) ctx ∧ ∃ c, kids !! ctx_replica_uuid ctx = Some c ∧ is_healthy c = true) ctxs') as Hrs.
  { intros ctxs' sk' E. destruct (IH _ _ _ E) as (Hp & Hnd & Hin & Hall). split_and!; [done|..].
    - constructor; [|done]. intros H. apply Hin in H. set_solver.
    - intros u [->|H]%elem_of_cons; [by eauto|]. apply Hin in H. set_solver.
    - eapply Forall_impl; [exact Hall|]. intros ctx [? ?]. split; [by apply stands_for_cons|done]. }
  destruct (skip r) eqn:Esk; [|destruct (is_healthy c) eqn:Eh; [|done]; simpl; destruct (snapshot_uuid r) as [u|] eqn:Eu; [|done]].
  all: destruct (check_replicas _ _ rs) as [[ctxs' sk']|e|]; simpl; [|done..]; intros [= <- <-].
  all: destruct (Hrs _ _ eq_refl) as (Hp & Hnd & Hin & Hall); split_and!; try done.
  - rewrite <-Hp. symmetry. apply Permutation_middle.
  - simpl. by rewrite Hp.
  - constructor; [|done]. split; [|by eauto]. exists r. split; [left|done].
Qed.

Lemma check_replicas_total (kids : gmap string Ch) seen rs : check_replicas kids seen rs ≠ Panicked.
Proof.
  revert seen. induction rs as [|r rs IH]; intros seen; simpl; [done|]. destruct (kids !! _) as [c|]; [|done].
  destruct (bool_decide _), (skip r), (is_healthy c), (snapshot_uuid r); simpl; try done; specialize (IH ({[replica_uuid r]} ∪ seen)).
  all: by destruct (check_replicas _ _ rs).
Qed.

Lemma nexus_replicas_lookup cs u c : nexus_replicas uuid_of cs !! u = Some c → c ∈ cs ∧ get_uuid c = Some u.
Proof.
  unfold nexus_replicas. intros H%elem_of_list_to_map_2. rewrite elem_of_reverse, list_elem_of_omap in H.
  destruct H as (c' & Hc & E). destruct (NxSnap.get_uuid uuid_of c') as [u'|] eqn:Eu; simpl in E; [|done]. by injection E as -> ->.
Qed.

(** As many different replicas as children, each of which is a child: every
    child has a uuid, and is named once. *)
Lemma executor_new_spec cs rs ctxs sk :
  executor_new uuid_of cs rs = Ok (ctxs, sk) →
  (ctx_replica_uuid <$> ctxs) ++ sk ≡ₚ omap get_uuid cs ∧ length (omap get_uuid cs) = length cs ∧ NoDup (omap get_uuid cs) ∧
  Forall (λ ctx, stands_for rs ctx ∧ ∃ c, c ∈ cs ∧ get_uuid c = Some (ctx_replica_uuid ctx) ∧ is_healthy c = true) ctxs.
Proof.
  unfold executor_new. destruct (Nat.eqb_spec (length cs) (length rs)) as [Hlen|]; simpl; [|done].
  intros E. destruct (check_replicas_spec _ _ _ _ _ E) as (Hp & Hnd & Hin & Hall).
  assert (length (omap get_uuid cs) ≤ length cs)%nat as Hle.
  { clear. induction cs as [|c cs IH]; simpl; [done|]. change (list_omap Ch string get_uuid cs) with (omap get_uuid cs). case_match; simpl; lia. }
  assert (replica_uuid <$> rs ≡ₚ omap get_uuid cs) as Hperm.
  { apply submseteq_length_Permutation; [|rewrite length_fmap; lia]. apply NoDup_submseteq; [done|].
    intros u Hu. apply Hin in Hu as [_ [c Hc]]. apply nexus_replicas_lookup in Hc as [? ?]. apply list_elem_of_omap. eauto. }
  split_and!.
  - by rewrite Hp.
  - rewrite <-Hperm, length_fmap. done.
  - by rewrite <-Hperm.
  - eapply Forall_impl; [exact Hall|]. intros ctx (? & c & Hc & ?). apply nexus_replicas_lookup in Hc as [? ?]. eauto 6.
Qed.

Section Tasks.
Variables (nexus_name : string) (nexus_at : string → option (list Ch)) (get_io_handle : string → option CoreError).
Variable handle_create_snapshot : string → Lvol.SnapshotParams → option CoreError.
Variable spawn : string → Spawn.

Local Abbreviation task := (task uuid_of nexus_name nexus_at get_io_handle handle_create_snapshot).
Local Abbreviation spawn_task := (spawn_task uuid_of nexus_name nexus_at get_io_handle handle_create_snapshot spawn).
Local Abbreviation spawn_tasks := (spawn_tasks uuid_of nexus_name nexus_at get_io_handle handle_create_snapshot spawn).
Local Abbreviation take_snapshot := (take_snapshot uuid_of nexus_name nexus_at get_io_handle handle_create_snapshot spawn).

(** What is sent for a replica, and what is reported. *)
Definition outcome_of (snapshot : Lvol.SnapshotParams) (ctx : Ctx) (sent : list event) (st : NexusReplicaSnapshotStatus) : Prop :=
  st_replica_uuid st = ctx_replica_uuid ctx ∧
  ((sent = [] ∧ (status st = errno_number ENODEV ∨ status st = errno_number ENXIO)) ∨
   ∃ cs c, nexus_at (ctx_replica_uuid ctx) = Some cs ∧ c ∈ cs ∧ get_uuid c = Some (ctx_replica_uuid ctx) ∧
     sent = [EvSnapshot (name c) (replica_params snapshot ctx)] ∧
     status st = match handle_create_snapshot (name c) (replica_params snapshot ctx) with
                 | Some e => errno_number (core_to_errno e) | None => 0 end).

Lemma task_spec snapshot ctx l l' r :
  task snapshot ctx l = (l', r) →
  r ≠ Panicked ∧ ∃ sent, l' = l ++ sent ∧
    outcome_of snapshot ctx sent (mkStatus (ctx_replica_uuid ctx) (match r with Err e => errno_number (core_to_errno e) | _ => 0 end)).
Proof.
  unfold NxSnap.task. destruct (nexus_at _) as [cs|] eqn:En.
  2:{ intros [= <- <-]. split; [done|]. exists []. split; [by rewrite app_nil_r|]. split; [done|]. by left; auto. }
  destruct (child_by_uuid uuid_of cs _) as [c|] eqn:Ec.
  2:{ intros [= <- <-]. split; [done|]. exists []. split; [by rewrite app_nil_r|]. split; [done|]. by left; auto. }
  unfold ST.lift, ST.modify, mbind, ST_bind. destruct (get_io_handle (name c)) as [e|]; simpl; [intros [= <- <-]|].
  { split; [done|]. exists []. split; [by rewrite app_nil_r|]. split; [done|]. by left; auto. }
  intros [= <- <-]. split; [by destruct (handle_create_snapshot _ _)|]. eexists. split; [done|]. split; [done|]. right. exists cs, c.
  unfold child_by_uuid in Ec. apply fmap_Some in Ec as ([i c'] & Hf & ->). apply list_find_Some in Hf as (Hi & Hu & _).
  split_and!; try done; [by eapply list_elem_of_lookup_2|]. by destruct (handle_create_snapshot _ _).
Qed.

Definition no_resume (sent : list event) : Prop := EvResume ∉ sent.

Lemma outcome_no_resume snapshot ctx sent st : outcome_of snapshot ctx sent st → no_resume sent.
Proof. unfold no_resume. intros (_ & [[-> _]|(? & ? & _ & _ & _ & -> & _)]); set_solver. Qed.

Lemma spawn_task_spec snapshot ctx l l' r :
  spawn_task snapshot ctx l = (l', r) →
  ∃ sent, l' = l ++ sent ∧ no_resume sent ∧
  match r with
  | Ok (Some o) => outcome_of snapshot ctx sent (mkStatus (ctx_replica_uuid ctx) (match o with Err e => errno_number (core_to_errno e) | _ => 0 end))
  | Ok None | Panicked => spawn (ctx_replica_uuid ctx) ≠ Answered
  | Err _ => False
  end.
Proof.
  unfold NxSnap.spawn_task. destruct (spawn (ctx_replica_uuid ctx)) as [|[]|].
  1,3: intros [= <- <-]; exists []; rewrite app_nil_r; split_and!; try done; unfold no_resume; set_solver.
  all: unfold mbind, ST_bind, ST.try; destruct (task snapshot ctx l) as [l1 r1] eqn:E; apply task_spec in E as (Hr & sent & -> & Ho);
    pose proof (outcome_no_resume _ _ _ _ Ho) as Hn; destruct r1 as [[]|e|]; [..|done]; intros [= <- <-]; by exists sent.
Qed.

Lemma spawn_tasks_spec snapshot ctxs l l' r :
  spawn_tasks snapshot ctxs l = (l', r) →
  ∃ sent, l' = l ++ sent ∧ no_resume sent ∧
  match r with
  | Ok rs =>
      match join_all ctxs rs with
      | Ok sts => ∃ sents, sent = concat sents ∧ Forall3 (outcome_of snapshot) ctxs sents sts
      | Err _ => False
      | Panicked => ∃ ctx, ctx ∈ ctxs ∧ spawn (ctx_replica_uuid ctx) ≠ Answered
      end
  | Err _ => False
  | Panicked => ∃ ctx, ctx ∈ ctxs ∧ spawn (ctx_replica_uuid ctx) ≠ Answered
  end.
Proof.
  revert l l' r. induction ctxs as [|ctx ctxs IH]; intros l l' r; simpl.
  { intros [= <- <-]. exists []. rewrite app_nil_r. split; [done|]. split; [unfold no_resume; set_solver|].
    simpl. exists []. split; [done|constructor]. }
  unfold mbind, ST_bind. destruct (spawn_task snapshot ctx l) as [l1 r1] eqn:E.
  destruct (spawn_task_spec _ _ _ _ _ E) as (sent & -> & Hn & H1).
  destruct r1 as [o|e|]; [|done|intros [= <- <-]; exists sent; split; [done|]; split; [done|]; exists ctx; split; [set_solver|done]].
  destruct (spawn_tasks snapshot ctxs (l ++ sent)) as [l2 r2] eqn:E2. destruct (IH _ _ _ E2) as (sent2 & -> & Hn2 & H2).
  assert (Hnn : no_resume (sent ++ sent2)) by (unfold no_resume in *; set_solver).
  destruct r2 as [rs|e|]; [|done|]; intros [= <- <-]; (exists (sent ++ sent2); split; [by rewrite app_assoc|]; split; [done|]).
  2:{ destruct H2 as (ctx' & ? & ?). exists ctx'. split; [set_solver|done]. }
  simpl. destruct o as [o|]; simpl; [|exists ctx; split; [set_solver|done]].
  destruct (join_all ctxs rs) as [sts|e|]; simpl; [|done|].
  - destruct H2 as (sents & -> & H3). exists (sent :: sents). split; [done|by constructor].
  - destruct H2 as (ctx' & ? & ?). exists ctx'. split; [set_solver|done].
Qed.

Lemma take_snapshot_spec snapshot ctxs l l' r :
  take_snapshot snapshot ctxs l = (l', r) →
  match r with
  | Ok sts => ∃ sents, l' = l ++ concat sents ∧ Forall3 (outcome_of snapshot) ctxs sents sts
  | Err _ => False
  | Panicked => (∃ ctx, ctx ∈ ctxs ∧ spawn (ctx_replica_uuid ctx) ≠ Answered) ∧ ∃ sent, l' = l ++ sent ∧ no_resume sent
  end.
Proof.
  unfold NxSnap.take_snapshot, mbind, ST_bind. destruct (spawn_tasks snapshot ctxs l) as [l1 r1] eqn:E.
  destruct (spawn_tasks_spec _ _ _ _ _ E) as (sent & -> & Hn & H). destruct r1 as [rs|e|]; [|done|intros [= <- <-]; by eauto].
  unfold ST.lift. intros [= <- <-]. destruct (join_all ctxs rs) as [sts|e|]; [|done|by eauto].
  destruct H as (sents & -> & H). by eauto.
Qed.

(** C19.  A snapshot of a nexus that is reported covers the nexus: every child
    has a uuid and is in the report exactly once, as done or as skipped.  A replica
    that is done was healthy, and is reported with what it answered to the one
    command it was sent, with the uuid requested for it, or with an error if it
    could not be sent; I/O is paused from before the first command to after the
    last.  When an error is reported no replica was sent anything, and a nexus that
    was paused is resumed.  It panics only if the task of some replica cannot be
    scheduled or is dropped, and leaves the nexus paused then. *)
Theorem snapshot_covers_every_replica s pst pause resume cs snapshot rs l r :
  create_snapshot uuid_of nexus_name nexus_at get_io_handle handle_create_snapshot spawn s pst pause resume cs snapshot rs [] = (l, r) →
  match r with
  | Ok st =>
      (st_replica_uuid <$> replicas_done st) ++ replicas_skipped st ≡ₚ omap get_uuid cs ∧
      length (omap get_uuid cs) = length cs ∧ NoDup (omap get_uuid cs) ∧
      ∃ ctxs sents, Forall (λ ctx, stands_for rs ctx ∧ ∃ c, c ∈ cs ∧ get_uuid c = Some (ctx_replica_uuid ctx) ∧ is_healthy c = true) ctxs ∧
        Forall3 (outcome_of snapshot) ctxs sents (replicas_done st) ∧
        l = EvPause :: concat sents ++ (if resume is None then [EvResume] else [])
  | Err _ => l = [] ∨ l = EvPause :: (if resume is None then [EvResume] else [])
  | Panicked => (∃ u, u ∈ omap get_uuid cs ∧ spawn u ≠ Answered) ∧ ∃ sent, l = EvPause :: sent ∧ no_resume sent
  end.
Proof.
  unfold create_snapshot. destruct (Lvol.sp_name snapshot); [|intros [= <- <-]; by left].
  unfold ST.lift, ST.modify, mbind, ST_bind. destruct (check_nexus_state s pst cs) as [[]|e|] eqn:Ec.
  3:{ unfold check_nexus_state, mbind, outcome_bind, Control.check_nexus_operation in Ec. by destruct s, cs; try case_bool_decide. }
  2:{ intros [= <- <-]. by left. }
  destruct pause as [e|]; simpl; [intros [= <- <-]; by left|]. unfold ST.try, do_nexus_snapshot, ST.lift, mbind, ST_bind.
  destruct (executor_new uuid_of cs rs) as [[ctxs sk]|e|] eqn:Ex.
  - destruct (executor_new_spec _ _ _ _ Ex) as (Hp & Hlen & Hnd & Hall).
    simpl fst. destruct (take_snapshot snapshot ctxs [EvPause]) as [l1 r1] eqn:E. pose proof (take_snapshot_spec _ _ _ _ _ E) as H.
    destruct r1 as [sts|e|]; [|done|].
    2:{ intros [= <- <-]. destruct H as ((ctx & Hctx & Hs) & Hsent). split; [|done]. exists (ctx_replica_uuid ctx). split; [|done].
        rewrite <-Hp, elem_of_app. left. by apply list_elem_of_fmap_2. }
    destruct H as (sents & -> & H3). simpl.
    assert (st_replica_uuid <$> sts = ctx_replica_uuid <$> ctxs) as Hu.
    { clear -H3. induction H3 as [|x y z xs ys zs [Hx _] H IH]; [done|]. by rewrite !fmap_cons, Hx, IH. }
    destruct resume; simpl; intros [= <- <-]; simpl; rewrite Hu; (split_and!; [done..|]); exists ctxs, sents; split_and!; try done.
    by rewrite app_nil_r.
  - destruct resume; simpl; intros [= <- <-]; by right.
  - exfalso. revert Ex. unfold executor_new. destruct (negb _); [done|]. apply check_replicas_total.
Qed.

End Tasks.
End Props.
End NxSnapProps.

(** ** A nexus with two replicas *)

Module NxSnapSample.
Import Child NxSnap NxSnapProps.

Definition kid (n : string) : NexusChild unit := mkChild "nexus" Open Synced DestroyNone None [] n None true None.
Definition kids : list (NexusChild unit) := [kid "a"; kid "b"].

Definition params : Lvol.SnapshotParams :=
  Lvol.mkParams (Some "volume"%string) (Some "nexus"%string) (Some "1"%string) (Some "snap"%string) None (Some "now"%string) false.

Definition both : list NexusReplicaSnapshotDescriptor := [mkDescr "b" None true; mkDescr "a" (Some "s1"%string) false].

(** The replica answers that it has no space. *)
Definition run : list event * outcome NexusErr.Error NexusSnapshotStatus :=
  create_snapshot Some "nexus" (λ _, Some kids) (λ _, None) (λ _ _, Some (SnapshotCreate "" ENOSPC)) (λ _, Answered)
    Control.NxOpen None None None kids params both [].

Lemma snapshot_covers_every_replica_witness :
  ∃ st, snd run = Ok st ∧ status <$> replicas_done st = [28] ∧
    (st_replica_uuid <$> replicas_done st) ++ replicas_skipped st ≡ₚ ["a"; "b"]%string.
Proof.
  destruct run as [l r] eqn:E. assert (snd run = r) as Hr by (by rewrite E).
  pose proof (snapshot_covers_every_replica Some "nexus" (λ _, Some kids) (λ _, None) (λ _ _, Some (SnapshotCreate "" ENOSPC)) (λ _, Answered)
    Control.NxOpen None None None kids params both l r E) as H.
  vm_compute in Hr. subst r. destruct H as [H _]. eexists. split; [reflexivity|]. split; [reflexivity|exact H].
Defined.

(** An error number that is not known is reported like success. *)
Lemma unknown_error_is_reported_as_success :
  match snd (create_snapshot Some "nexus" (λ _, Some kids) (λ _, None) (λ _ _, Some (SnapshotCreate "" UnknownErrno)) (λ _, Answered)
    Control.NxOpen None None None kids params both []) with
  | Ok st => status <$> replicas_done st = [0]
  | _ => False
  end.
Proof. reflexivity. Qed.

End NxSnapSample.
