(* ===== verification/BdevUri.v ===== *)
(** * Device URIs

    A block device is named by a URI.  This file has the parsers of every scheme
    ([bdev/dev.rs], [bdev/util/uri.rs], [bdev/aio.rs], [bdev/malloc.rs],
    [bdev/null_bdev.rs], [bdev/uring.rs], [bdev/loopback.rs], [bdev/ftl.rs],
    [bdev/nvme.rs], [bdev/nx.rs], [bdev/lvs.rs], [bdev/nvmx/uri.rs]), the creation,
    destruction and probing of the devices they describe, and the way back from a
    bdev to its URI ([bdev_api.rs], [core/bdev.rs]).  The theorems are in
    [BdevUriProps]. *)

From Stdlib Require Import Ascii String.
From S2P Require Import Prelude Text Wp Errors.

#[local] Open Scope Z_scope.

Module Uri.

(** The crates [url], [uuid], [byte_unit] and [percent_encoding]; the error of a
    parser is its text.  [byte_parse] is [Byte::parse_str] followed by [as_u64],
    and [host_to_path] the text of a URL from its host to its path. *)
Class Crates := {
  url : Type;
  url_parse : string → string + url;
  url_string : url → string;
  scheme : url → string;
  host_str : url → option string;
  port : url → option Z;
  path : url → string;
  path_segments : url → option (list string);
  query_pairs : url → list (string * string);
  host_to_path : url → string;
  append_pair : string → string → url → url;
  uuid_parse : string → string + string;
  byte_parse : string → string + Z;
  percent_decode : string → string + string;
}.

(** ** Values *)

(** [to_digit(10)] *)
Definition digit (a : ascii) : option Z :=
  let b := byte a in if (48 <=? b) && (b <=? 57) then Some (b - 48) else None.

Fixpoint digits (max acc : Z) (s : string) : string + Z :=
  match s with
  | EmptyString => inr acc
  | String a s =>
      match digit a with
      | None => inl "invalid digit found in string"%string
      | Some d =>
          if acc * 10 + d <=? max then digits max (acc * 10 + d) s
          else inl "number too large to fit in target type"%string
      end
  end.

(** [str::parse] of an unsigned integer with the largest value [max] *)
Definition parse_uint (max : Z) (s : string) : string + Z :=
  match s with
  | EmptyString => inl "cannot parse integer from empty string"%string
  | String "+" EmptyString => inl "invalid digit found in string"%string
  | String "+" s => digits max 0 s
  | _ => digits max 0 s
  end.

(** [boolean] *)
Definition boolean (value : string) (empty : bool) : string + bool :=
  if bool_decide (value = "") then inr empty
  else if bool_decide (value = "yes" ∨ value = "on") then inr true
  else if bool_decide (value = "no" ∨ value = "off") then inr false
  else match parse_uint u32_max value with
  | inr n => inr (0 <? n)
  | inl _ =>
      match parse_bool value with
      | Some b => inr b
      | None => inl "provided string was not `true` or `false`"%string
      end
  end.

(** [ProbeErrorCode] of the gRPC interface *)
Inductive ProbeErrorCode :=
| UriNotHandled | DiskNotFound | InvalidDiskUri | DiskNotImportable | PciKernelBound | PciDriverUnsupported | PciNotNvme | ProbeUnknown.

(** What the parsers and probes see of the file system, and the random UUID of a
    null device without one. *)
Record Host := mkHost {
  is_block_device : string → bool;
  exists_ : string → bool;
  pci_driver : string → string + option string;
  is_pci_nvme : string → bool;
  new_v4 : string;
}.

(** ** The devices *)

Record Aio := mkAio { aio_name : string; aio_alias : string; aio_blk_size : Z; aio_uuid : option string; rescan : bool }.
Record Loopback := mkLoopback { lb_name : string; lb_alias : string; lb_uuid : option string }.
Record Malloc := mkMalloc {
  m_name : string; m_alias : string; m_num_blocks : Z; m_blk_size : Z; m_uuid : option string; resizing : bool }.
Record Null := mkNull { n_name : string; n_alias : string; n_num_blocks : Z; n_blk_size : Z; n_uuid : option string }.
Record Uring := mkUring { u_name : string; u_alias : string; u_blk_size : Z; u_uuid : option string }.
Record Ftl := mkFtl { f_name : string; f_alias : string; f_uuid : option string; bbdev_uri : string; cbdev_uri : string }.
Record Nexus := mkNexus { nx_name : string; nx_size : Z; nx_children : list string }.

(** [LvsMode] *)
Inductive LvsMode := Create | Import | CreateOrImport | Purge.
Record LvsUri := mkLvsUri { lu_name : string; lu_disk : string; lu_mode : LvsMode }.
Record LvolUri := mkLvolUri { lv_name : string; lv_size : Z; lv_lvs : LvsUri }.

(** [NvmfDeviceTemplate] *)
Record Template := mkTemplate {
  t_name : string; t_alias : string; t_host : string; t_port : Z; t_subnqn : string; prchk_flags : Z;
  t_uuid : option string; t_hostnqn : option string }.

Section Parse.
Context {C : Crates} (host : Host).
Implicit Types (u : url).

Record NVMe := mkNVMe { pcie_name : string; pcie_url : url }.

Inductive Device :=
| DevAio (d : Aio) | DevLoopback (d : Loopback) | DevFtl (d : Ftl) | DevMalloc (d : Malloc) | DevNull (d : Null)
| DevNvmf (d : Template) | DevPcie (d : NVMe) | DevUring (d : Uring) | DevNexus (d : Nexus) | DevLvol (d : LvolUri).

(** [segments] *)
Definition segments u : list string :=
  match path_segments u with
  | Some [s] => if bool_decide (s = ""%string) then [] else [s]
  | Some l => l
  | None => []
  end.

(** A parser removes the parameters it knows from the query. *)
Notation P := (ST (gmap string string) Bdev.Error).

(** [url.query_pairs().into_owned().collect()]: the last one of a name counts. *)
Definition parameters u : gmap string string := list_to_map (reverse (query_pairs u)).

Definition remove (k : string) : P (option string) := λ m, (delete k m, Ok (m !! k)).

Definition invalid u (message : string) : Bdev.Error := Bdev.InvalidUri (url_string u) message.

(** [reject_unknown_parameters]; the order in the message is that of the map. *)
Definition reject_unknown_parameters u : P unit := λ m,
  if bool_decide (m = ∅) then (m, Ok tt)
  else (m, Err (invalid u ("unrecognized parameter(s): " +:+
              String.concat ", " ((λ kv, kv.1 +:+ "=" +:+ kv.2) <$> map_to_list m))%string)).

(** An integer parameter; [reported] is its name in an error. *)
Definition int_param u (max : Z) (k reported : string) : P (option Z) :=
  v ← remove k;
  match v with
  | None => mret None
  | Some value =>
      match parse_uint max value with
      | inr n => mret (Some n)
      | inl e => ST.fail (Bdev.IntParamParseFailed e (url_string u) reported value)
      end
  end.

(** [uri::uuid(parameters.remove("uuid")).context(UuidParamParseFailed)] *)
Definition uuid_param u : P (option string) :=
  v ← remove "uuid"%string;
  match v with
  | None => mret None
  | Some s => match uuid_parse s with inr x => mret (Some x) | inl e => ST.fail (Bdev.UuidParamParseFailed e (url_string u)) end
  end.

(** A size with a unit. *)
Definition size_param u : P (option Z) :=
  v ← remove "size"%string;
  match v with
  | None => mret None
  | Some s => match byte_parse s with inr x => mret (Some x) | inl e => ST.fail (invalid u ("'size' is invalid: " +:+ e)%string) end
  end.

(** A boolean parameter that sets [flag] *)
Definition flag_param u (k : string) (flag : Z) (flags : Z) : P Z :=
  v ← remove k;
  match v with
  | None => mret flags
  | Some value =>
      match boolean value true with
      | inr b => mret (if b then Z.lor flags flag else flags)
      | inl e => ST.fail (Bdev.BoolParamParseFailed e (url_string u) k value)
      end
  end.

(** [url.path()[1..]] panics on an empty path, and inside of a character. *)
Definition path_tail u : P string :=
  match path u with
  | EmptyString => ST.panic
  | String a s => if byte a <? 0x80 then mret s else ST.panic
  end.

Definition run {A} u (message : string) (m : P A) : outcome Bdev.Error A :=
  match segments u with
  | [] => Err (invalid u message)
  | _ => snd (m (parameters u))
  end.

(** The block size of [Aio] and [Uring]; 0 lets SPDK ask the device. *)
Definition file_blk_size u : P Z :=
  b ← int_param u u32_max "blk_size" "blk_size";
  mret (default (if is_block_device host (path u) then 0 else 512) b).

Definition aio_try_from u : outcome Bdev.Error Aio := run u "no path segments" (
  blk_size ← file_blk_size u;
  uuid ← uuid_param u;
  r ← remove "rescan"%string;
  reject_unknown_parameters u;;
  mret (mkAio (path u) (url_string u) blk_size uuid (bool_decide (is_Some r)))).

Definition uring_try_from u : outcome Bdev.Error Uring := run u "no path segments" (
  blk_size ← file_blk_size u;
  uuid ← uuid_param u;
  reject_unknown_parameters u;;
  mret (mkUring (path u) (url_string u) blk_size uuid)).

Definition loopback_try_from u : outcome Bdev.Error Loopback := run u "no path segments" (
  uuid ← uuid_param u;
  reject_unknown_parameters u;;
  mret (mkLoopback (join "/" (segments u)) (url_string u) uuid)).

(** The size of a malloc or null device: in bytes, in MiB or neither. *)
Definition byte_size u (size_mb size_b : option Z) : P Z :=
  match size_mb, size_b with
  | Some _, Some _ => ST.fail (invalid u "Can't specify both size and size_mb")
  | Some s, None => mret (wrap64 (wrap64 (s * 1024) * 1024))
  | None, Some s => mret s
  | None, None => mret 0
  end.

Definition malloc_try_from u : outcome Bdev.Error Malloc := run u "empty path" (
  b ← int_param u u32_max "blk_size" "blk_size";
  let blk_size := default 512 b in
  size_mb ← int_param u u64_max "size_mb" "size_mb";
  size_b ← size_param u;
  size ← byte_size u size_mb size_b;
  nb ← int_param u u64_max "num_blocks" "num_blocks";
  let num_blocks := default 0 nb in
  uuid ← uuid_param u;
  resize ← remove "resize"%string;
  reject_unknown_parameters u;;
  if negb (blk_size =? 512) && negb (blk_size =? 4096)
  then ST.fail (invalid u "'blk_size' must be one of: 512, 4096")
  else if negb (size =? 0) && negb (num_blocks =? 0)
  then ST.fail (invalid u "'num_blocks' and 'size_mb' are mutually exclusive")
  else if (size =? 0) && (num_blocks =? 0)
  then ST.fail (invalid u "either 'num_blocks' or 'size_mb' must be specified")
  else
    name ← path_tail u;
    mret (mkMalloc name (url_string u) (if num_blocks =? 0 then size / blk_size else num_blocks) blk_size uuid
            (bool_decide (is_Some resize)))).

(** A bad [num_blocks] is reported as [blk_size]. *)
Definition null_try_from u : outcome Bdev.Error Null := run u "no path segments" (
  b ← int_param u u32_max "blk_size" "blk_size";
  let blk_size := default 512 b in
  if negb (blk_size =? 512) && negb (blk_size =? 4096)
  then ST.fail (invalid u "invalid blk_size specified must be one of 512 or 4096")
  else
    size_mb ← int_param u u64_max "size_mb" "size_mb";
    size_b ← size_param u;
    size ← byte_size u size_mb size_b;
    nb ← int_param u u64_max "num_blocks" "blk_size";
    let num_blocks := default 0 nb in
    if negb (size =? 0) && negb (num_blocks =? 0)
    then ST.fail (invalid u "conflicting parameters num_blocks and size/size_mb are mutually exclusive")
    else
      uuid ← uuid_param u;
      reject_unknown_parameters u;;
      name ← path_tail u;
      mret (mkNull name (url_string u) (if num_blocks =? 0 then size / blk_size else num_blocks) blk_size
              (Some (default (new_v4 host) uuid)))).

(** A nested URI of an FTL device. *)
Definition nested_uri u (k : string) : P string :=
  v ← remove k;
  match v with
  | None => ST.fail (invalid u ("No " +:+ k +:+ " parameter found")%string)
  | Some s =>
      match percent_decode s with
      | inr x => mret x
      | inl e => ST.fail (invalid u ("Could not percent decode " +:+ k +:+ "_uri sub-uri - " +:+ e)%string)
      end
  end.

Definition ftl_try_from u : outcome Bdev.Error Ftl := run u "empty path" (
  uuid ← uuid_param u;
  bb ← nested_uri u "bbdev";
  cb ← nested_uri u "cbdev";
  reject_unknown_parameters u;;
  name ← path_tail u;
  mret (mkFtl name (url_string u) uuid bb cb)).

(** The parameters of an NVMe device on PCI are ignored. *)
Definition pcie_try_from u : outcome Bdev.Error NVMe := run u "no path segments" (
  name ← path_tail u; mret (mkNVMe name u)).

Definition nexus_try_from u : outcome Bdev.Error Nexus := run u "empty path" (
  s ← size_param u;
  match s with
  | None => ST.fail (invalid u "'size' is not specified")
  | Some size =>
      c ← remove "children"%string;
      match c with
      | None => ST.fail (invalid u "'children' must be specified")
      | Some c =>
          reject_unknown_parameters u;;
          name ← path_tail u;
          mret (mkNexus name size (split "," c))
      end
  end).

Definition lvs_mode (s : string) : LvsMode :=
  if bool_decide (s = "create"%string) then Create
  else if bool_decide (s = "import"%string) then Import
  else if bool_decide (s = "create_import"%string) then CreateOrImport
  else if bool_decide (s = "purge"%string) then Purge
  else Import.

(** [Lvs::try_from]; unknown parameters are ignored. *)
Definition lvs_try_from (uri : string) : outcome Bdev.Error LvsUri :=
  match url_parse uri with
  | inl e => Err (Bdev.UriParseFailed e uri)
  | inr u => run u "empty path" (
      disk ← remove "disk"%string;
      match disk with
      | None => ST.fail (invalid u "'disk' must be specified")
      | Some disk =>
          mode ← remove "mode"%string;
          match mode with
          | None => ST.fail (invalid u "'mode' must be specified")
          | Some mode => name ← path_tail u; mret (mkLvsUri name disk (lvs_mode mode))
          end
      end)
  end.

Definition lvol_try_from u : outcome Bdev.Error LvolUri := run u "empty path" (
  s ← size_param u;
  match s with
  | None => ST.fail (invalid u "'size' is not specified")
  | Some size =>
      lvs ← remove "lvs"%string;
      match lvs with
      | None => ST.fail (invalid u "'lvs' must be specified")
      | Some lvs =>
          disk ← remove "disk"%string;
          l ← ST.lift (lvs_try_from (lvs +:+ "&disk=" +:+ default "" disk)%string);
          reject_unknown_parameters u;;
          name ← path_tail u;
          mret (mkLvolUri name size l)
      end
  end).

(** [trim_start_matches] and [trim_end_matches] of one character *)
Fixpoint trim_start (c : ascii) (s : string) : string :=
  match s with
  | String a r => if bool_decide (a = c) then trim_start c r else s
  | EmptyString => EmptyString
  end.

Fixpoint trim_end (c : ascii) (s : string) : string :=
  match s with
  | EmptyString => EmptyString
  | String a r =>
      let r := trim_end c r in
      if bool_decide (a = c) then match r with EmptyString => EmptyString | _ => String a r end else String a r
  end.

Definition DEFAULT_NVMF_PORT : Z := 8420.
Definition PRCHK_REFTAG : Z := 2^26.
Definition PRCHK_GUARD : Z := 2^28.

(** [NvmfDeviceTemplate::try_from]; unknown parameters are ignored. *)
Definition nvmf_try_from u : outcome Bdev.Error Template :=
  match host_str u with
  | None => Err (invalid u "missing host")
  | Some h =>
      match segments u with
      | [] => Err (invalid u "no path segment")
      | _ :: _ :: _ => Err (invalid u "too many path segments")
      | [nqn] => snd ((
          f ← flag_param u "reftag" PRCHK_REFTAG 0;
          f ← flag_param u "guard" PRCHK_GUARD f;
          uuid ← uuid_param u;
          hostnqn ← remove "hostnqn"%string;
          mret (mkTemplate (host_to_path u) (url_string u) (trim_end "]" (trim_start "[" h))
                  (default DEFAULT_NVMF_PORT (port u)) nqn f uuid hostnqn)) (parameters u))
      end
  end.

Definition wrap {A} (f : A → Device) (o : outcome Bdev.Error A) : outcome Bdev.Error Device := a ← o; Ok (f a).

(** [parse_url] *)
Definition parse_url u : outcome Bdev.Error Device :=
  let s := scheme u in
  if bool_decide (s = "aio"%string) then wrap DevAio (aio_try_from u)
  else if bool_decide (s = "bdev"%string ∨ s = "loopback"%string) then wrap DevLoopback (loopback_try_from u)
  else if bool_decide (s = "ftl"%string) then wrap DevFtl (ftl_try_from u)
  else if bool_decide (s = "malloc"%string) then wrap DevMalloc (malloc_try_from u)
  else if bool_decide (s = "null"%string) then wrap DevNull (null_try_from u)
  else if bool_decide (s = "nvmf"%string ∨ s = "nvmf+tcp"%string ∨ s = "nvmf+rdma+tcp"%string) then wrap DevNvmf (nvmf_try_from u)
  else if bool_decide (s = "pcie"%string) then wrap DevPcie (pcie_try_from u)
  else if bool_decide (s = "uring"%string) then wrap DevUring (uring_try_from u)
  else if bool_decide (s = "nexus"%string) then wrap DevNexus (nexus_try_from u)
  else if bool_decide (s = "lvol"%string) then wrap DevLvol (lvol_try_from u)
  else Err (Bdev.UriSchemeUnsupported s).

(** [parse] and [try_parse_or_aio] *)
Definition parse (uri : string) : outcome Bdev.Error Device :=
  match url_parse uri with
  | inl e => Err (Bdev.UriParseFailed e uri)
  | inr u => parse_url u
  end.

Definition try_parse_or_aio (uri : string) : outcome Bdev.Error Device :=
  match url_parse uri with
  | inr u => parse_url u
  | inl e =>
      match url_parse ("aio://" +:+ uri)%string with
      | inr u => parse_url u
      | inl _ => Err (Bdev.UriParseFailed e uri)
      end
  end.

(** [GetName] *)
Definition get_name (d : Device) : string :=
  match d with
  | DevAio d => aio_name d
  | DevLoopback d => lb_name d
  | DevFtl d => f_name d
  | DevMalloc d => m_name d
  | DevNull d => n_name d
  | DevNvmf d => t_name d +:+ "n1"
  | DevPcie d => pcie_name d +:+ "n1"
  | DevUring d => u_name d
  | DevNexus d => nx_name d
  | DevLvol d => lv_name d
  end%string.

(** [bdev_get_name], [device_name] *)
Definition bdev_get_name (uri : string) : outcome Bdev.Error string := d ← parse uri; Ok (get_name d).

End Parse.
End Uri.
