(* ===== verification/BdevDevice.v ===== *)
(** * Creating and destroying the devices of URIs

    [CreateDestroy] and [Probe] of the devices of [BdevUri] ([bdev/aio.rs],
    [bdev/malloc.rs], [bdev/null_bdev.rs], [bdev/uring.rs], [bdev/loopback.rs],
    [bdev/ftl.rs], [bdev/nvme.rs], [bdev/nx.rs], [bdev/mod.rs]), the entry points
    [bdev_create] and [bdev_destroy] ([bdev_api.rs]), and the URI of a bdev
    ([core/bdev.rs]). *)

From Stdlib Require Import Ascii String.
From S2P Require Import Prelude Text Wp Errors BdevUri.

#[local] Open Scope Z_scope.

Module Device.
Import Uri.

(** A bdev of SPDK. *)
Record bdev_info := mkBdev { driver : string; uuid : string; aliases : list string; block_len : Z; num_blocks : Z }.

(** The modules of SPDK that make bdevs. *)
Inductive Kind := KAio | KMalloc | KNull | KUring | KFtl | KNvme.

#[global] Instance Kind_eq_dec : EqDecision Kind.
Proof. solve_decision. Defined.

(** What the callback of a deletion or creation sends, if it is not dropped. *)
Inductive answer := Canceled | Done (r : option Errno).

(** SPDK.  A bdev is found by its name or an alias.  Constructors return an errno,
    or the bdev they made. *)
Class Spdk := {
  spdk : Type;
  bdevs : spdk → gmap string bdev_info;
  bdev_get_by_name : spdk → string → option string;
  set_raw_uuid : string → string → spdk → spdk;
  bdev_add_alias : string → string → spdk → spdk * bool;
  bdev_remove_alias : string → string → spdk → spdk;
  create_aio_bdev : string → Z → spdk → spdk * Z;
  bdev_aio_rescan : string → spdk → spdk * Z;
  create_malloc_disk : string → Z → Z → spdk → spdk * Z;
  resize_malloc_disk : string → Z → spdk → spdk * Z;
  bdev_null_create : string → Z → Z → spdk → spdk * Z;
  create_uring_bdev : string → Z → spdk → spdk * option string;
  bdev_ftl_create : string → string → string → spdk → spdk * (Z + answer);
  bdev_nvme_create : string → spdk → spdk * (Z + answer * string);
  bdev_delete : Kind → string → spdk → spdk * answer;
  is_nil : string → bool;
}.

(** The engine's own components behind the other schemes: NVMe-oF controllers,
    nexuses and pools.  Their errors are texts. *)
Class Components `{C : Crates} `{S : Spdk} := {
  nvmf_create : Template → spdk → spdk * outcome Bdev.Error string;
  nvmf_destroy : Template → spdk → spdk * outcome Bdev.Error unit;
  nexus_create : string → Z → list string → spdk → spdk * outcome string unit;
  nexus_exists : string → spdk → bool;
  nexus_destroy : string → spdk → spdk * outcome string unit;
  lvol_create : LvolUri → spdk → spdk * outcome Bdev.Error string;
  lvol_destroy : LvolUri → spdk → spdk * outcome Bdev.Error unit;
}.

Section Ops.
Context `{C : Crates} {SP : Spdk} {CO : Components} (host : Host).
Implicit Types (u : url).

(** The state of SPDK, and the bdevs whose listeners were told that a loopback
    device is gone ([dispatch_loopback_removed]). *)
Record World := mkWorld { lib : spdk; removed : list string }.

Notation M := (ST World Bdev.Error).

Definition call {A} (f : spdk → spdk * A) : M A := λ w,
  let '(s, a) := f (lib w) in (mkWorld s (removed w), Ok a).

(** A call of another component. *)
Definition on_lib {A} (f : spdk → spdk * outcome Bdev.Error A) : M A := r ← call f; ST.lift r.

Definition lookup_by_name (n : string) : M (option string) := ST.gets (λ w, bdev_get_by_name (lib w) n).

Definition add_alias (n alias : string) : M unit := call (bdev_add_alias n alias);; mret tt.

(** [Errno::from_raw(errno.abs())] *)
Definition errno_of (rc : Z) : Errno := errno_from_raw (Z.abs rc).

(** The end of every [create]: the bdev gets its UUID and alias. *)
Definition finish (name : string) (uuid : option string) (alias : string) : M string :=
  b ← lookup_by_name name;
  match b with
  | None => ST.fail (Bdev.NotFound name)
  | Some b =>
      (if uuid is Some x then call (λ s, (set_raw_uuid b x s, tt)) else mret tt);;
      add_alias b alias;;
      mret name
  end.

(** A constructor that returns an errno. *)
Definition construct (name : string) (f : spdk → spdk * Z) (uuid : option string) (alias : string) : M string :=
  ST.lift (into_cstring name);;
  rc ← call f;
  if rc =? 0 then finish name uuid alias else ST.fail (Bdev.CreateBdevFailed (errno_of rc) name).

(** [receiver.await.context(BdevCommandCanceled)?.context(error)] *)
Definition await (a : answer) (name : string) (error : Errno → string → Bdev.Error) : M unit :=
  match a with
  | Canceled => ST.fail (Bdev.BdevCommandCanceled "oneshot canceled" name)
  | Done None => mret tt
  | Done (Some e) => ST.fail (error e name)
  end.

(** [destroy] of a device of one of SPDK's modules *)
Definition delete_by (k : Kind) (name : string) : M unit :=
  b ← lookup_by_name name;
  match b with
  | None => ST.fail (Bdev.NotFound name)
  | Some b => a ← call (bdev_delete k b); await a name Bdev.DestroyBdevFailed
  end.

Definition aio_destroy (d : Aio) : M unit := delete_by KAio (aio_name d).
Definition malloc_destroy (d : Malloc) : M unit := delete_by KMalloc (m_name d).
Definition null_destroy (d : Null) : M unit := delete_by KNull (n_name d).
Definition uring_destroy (d : Uring) : M unit := delete_by KUring (u_name d).

(** A request to grow an existing bdev *)
Definition resized (name : string) (f : spdk → spdk * Z) : M string :=
  ST.lift (into_cstring name);;
  rc ← call f;
  if rc =? 0 then mret name else ST.fail (Bdev.ResizeBdevFailed (errno_of rc) name).

Definition try_rescan (d : Aio) : M string := resized (aio_name d) (bdev_aio_rescan (aio_name d)).

(** [Malloc::try_resize]: SPDK takes the size in MiB. *)
Definition try_resize (d : Malloc) : M string :=
  resized (m_name d) (resize_malloc_disk (m_name d) (wrap64 (m_num_blocks d * m_blk_size d) / (1024 * 1024))).

Definition aio_create (d : Aio) : M string :=
  b ← lookup_by_name (aio_name d);
  match b with
  | Some _ =>
      if rescan d then try_rescan d
      else ST.fail (Bdev.BdevExists (aio_name d))
  | None => construct (aio_name d) (create_aio_bdev (aio_name d) (aio_blk_size d)) (aio_uuid d) (aio_alias d)
  end.

Definition malloc_create (d : Malloc) : M string :=
  b ← lookup_by_name (m_name d);
  match b with
  | Some _ => if resizing d then try_resize d else ST.fail (Bdev.BdevExists (m_name d))
  | None => construct (m_name d) (create_malloc_disk (m_name d) (m_num_blocks d) (m_blk_size d)) (m_uuid d) (m_alias d)
  end.

Definition null_create (d : Null) : M string :=
  b ← lookup_by_name (n_name d);
  match b with
  | Some _ => ST.fail (Bdev.BdevExists (n_name d))
  | None => construct (n_name d) (bdev_null_create (n_name d) (n_num_blocks d) (n_blk_size d)) (n_uuid d) (n_alias d)
  end.

(** A failure of SPDK is reported as a bdev that was not found. *)
Definition uring_create (d : Uring) : M string :=
  b ← lookup_by_name (u_name d);
  match b with
  | Some _ => ST.fail (Bdev.BdevExists (u_name d))
  | None =>
      ST.lift (into_cstring (u_name d));;
      b ← call (create_uring_bdev (u_name d) (u_blk_size d));
      match b with
      | None => ST.fail (Bdev.NotFound (u_name d))
      | Some b =>
          (if u_uuid d is Some x then call (λ s, (set_raw_uuid b x s, tt)) else mret tt);;
          add_alias b (u_alias d);;
          mret b
      end
  end.

(** A loopback device is an alias of an existing bdev. *)
Definition loopback_create (d : Loopback) : M string :=
  b ← lookup_by_name (lb_name d);
  match b with
  | None => ST.fail (Bdev.NotFound (lb_name d))
  | Some b =>
      x ← ST.gets (λ w, from_option uuid ""%string (bdevs (lib w) !! b));
      if bool_decide (is_Some (lb_uuid d) ∧ Some x ≠ lb_uuid d) then ST.fail (Bdev.BdevWrongUuid (lb_name d) x)
      else add_alias b (lb_alias d);; mret (lb_name d)
  end.

Definition loopback_destroy (d : Loopback) : M unit :=
  b ← lookup_by_name (lb_name d);
  match b with
  | None => mret tt
  | Some b =>
      call (λ s, (bdev_remove_alias b (lb_alias d) s, tt));;
      ST.modify (λ w, mkWorld (lib w) (removed w ++ [b]))
  end.

(** A controller whose namespace does not show up panics. *)
Definition pcie_create (d : NVMe) : M string :=
  b ← lookup_by_name (pcie_name d);
  match b with
  | Some _ => ST.fail (Bdev.BdevExists (pcie_name d))
  | None =>
      ST.lift (into_cstring (pcie_name d));;
      r ← call (bdev_nvme_create (pcie_name d));
      match r with
      | inl rc => ST.fail (Bdev.CreateBdevInvalidParams (errno_of rc) (pcie_name d))
      | inr (a, name) =>
          await a (pcie_name d) Bdev.CreateBdevFailed;;
          b ← lookup_by_name (get_name (DevPcie d));
          match b with
          | None => ST.panic
          | Some b => add_alias b (url_string (pcie_url d));; mret name
          end
      end
  end.

(** An alias that the failed deletion has taken away is restored. *)
Definition pcie_destroy (d : NVMe) : M unit :=
  let n := get_name (DevPcie d) in
  b ← lookup_by_name n;
  match b with
  | None => ST.fail (Bdev.NotFound n)
  | Some _ =>
      a ← call (bdev_delete KNvme (pcie_name d));
      (if a is Done None then mret tt
       else b ← lookup_by_name n; if b is Some b then add_alias b (url_string (pcie_url d)) else mret tt);;
      await a (pcie_name d) Bdev.DestroyBdevFailed
  end.

Definition nexus_uri_create (d : Nexus) : M string :=
  r ← call (nexus_create (nx_name d) (nx_size d) (nx_children d));
  ST.lift (map_err (λ e, Bdev.CreateBdevFailedStr (nx_name d) e) r);;
  mret (nx_name d).

Definition nexus_uri_destroy (d : Nexus) : M unit :=
  w ← ST.get;
  if nexus_exists (nx_name d) (lib w) then
    r ← call (nexus_destroy (nx_name d));
    ST.lift (map_err (λ e, Bdev.DestroyBdevFailedStr (nx_name d) e) r)
  else ST.fail (Bdev.NotFound (nx_name d)).

(** *** FTL devices, over the creation and destruction of nested devices *)

Section Nested.
Context (bdev_create : string → M string) (bdev_destroy : string → M unit).

(** When the creation fails later than in the call itself, the nested devices
    stay. *)
Definition ftl_create (d : Ftl) : M string :=
  b ← lookup_by_name (f_name d);
  match b with
  | Some _ => ST.fail (Bdev.BdevExists (f_name d))
  | None =>
      ST.lift (into_cstring (f_name d));;
      base ← bdev_create (bbdev_uri d);
      r ← ST.try (bdev_create (cbdev_uri d));
      match r with
      | Ok cache =>
          r ← call (bdev_ftl_create (f_name d) base cache);
          match r with
          | inl rc =>
              ST.try (E := Bdev.Error) (bdev_destroy (bbdev_uri d));;
              ST.try (E := Bdev.Error) (bdev_destroy (cbdev_uri d));;
              ST.fail (Bdev.CreateBdevFailed (errno_of rc) (f_name d))
          | inr a =>
              await a (f_name d) Bdev.CreateBdevFailed;;
              finish (f_name d) (f_uuid d) (f_alias d)
          end
      | Err e => ST.try (E := Bdev.Error) (bdev_destroy (bbdev_uri d));; ST.fail e
      | Panicked => ST.panic
      end
  end.

(** Of two failures the first one is reported. *)
Definition ftl_destroy (d : Ftl) : M unit :=
  delete_by KFtl (f_name d);;
  r ← ST.try (E := Bdev.Error) (bdev_destroy (bbdev_uri d));
  r' ← ST.try (E := Bdev.Error) (bdev_destroy (cbdev_uri d));
  ST.lift (match r, r' with Ok _, Err e => Err e | _, _ => r end).

Definition create (d : Device) : M string :=
  match d with
  | DevAio d => aio_create d
  | DevLoopback d => loopback_create d
  | DevFtl d => ftl_create d
  | DevMalloc d => malloc_create d
  | DevNull d => null_create d
  | DevNvmf d => on_lib (nvmf_create d)
  | DevPcie d => pcie_create d
  | DevUring d => uring_create d
  | DevNexus d => nexus_uri_create d
  | DevLvol d => on_lib (lvol_create d)
  end.

Definition destroy (d : Device) : M unit :=
  match d with
  | DevAio d => aio_destroy d
  | DevLoopback d => loopback_destroy d
  | DevFtl d => ftl_destroy d
  | DevMalloc d => malloc_destroy d
  | DevNull d => null_destroy d
  | DevNvmf d => on_lib (nvmf_destroy d)
  | DevPcie d => pcie_destroy d
  | DevUring d => uring_destroy d
  | DevNexus d => nexus_uri_destroy d
  | DevLvol d => on_lib (lvol_destroy d)
  end.
End Nested.

(** [bdev_destroy] and [bdev_create]: the nesting of devices is bounded by [fuel];
    a URI that is nested deeper overflows the stack. *)
Fixpoint bdev_destroy (fuel : nat) (uri : string) : M unit :=
  match fuel with
  | O => ST.panic
  | S fuel => d ← ST.lift (parse host uri); destroy (bdev_destroy fuel) d
  end.

Fixpoint bdev_create (fuel : nat) (uri : string) : M string :=
  match fuel with
  | O => ST.panic
  | S fuel => d ← ST.lift (parse host uri); create (bdev_create fuel) (bdev_destroy fuel) d
  end.

(** ** Probing *)

Definition probe_file (file : string) : outcome ProbeErrorCode unit :=
  if exists_ host file then Ok tt else Err DiskNotFound.

Definition probe_pcie (d : NVMe) : outcome ProbeErrorCode unit :=
  match pci_driver host (pcie_name d) with
  | inl _ => Err ProbeUnknown
  | inr None => Err DiskNotFound
  | inr (Some drv) =>
      if bool_decide (drv = ""%string) then Err DiskNotFound
      else if bool_decide (drv = "vfio-pci"%string ∨ drv = "uio_pci_generic"%string) then Ok tt
      else if bool_decide (drv = "nvme"%string) then Err PciKernelBound
      else if is_pci_nvme host (pcie_name d) then Err PciDriverUnsupported
      else Err PciNotNvme
  end.

(** [Probe] with [probe_uri] for nested devices; [import] is the option of that
    name. *)
Definition probe (probe_uri : string → outcome ProbeErrorCode unit) (s : spdk) (import : bool) (d : Device)
    : outcome ProbeErrorCode unit :=
  match d with
  | DevAio d => probe_file (aio_name d)
  | DevUring d => probe_file (u_name d)
  | DevLoopback d => if bdev_get_by_name s (lb_name d) is Some _ then Ok tt else Err DiskNotFound
  | DevMalloc _ => if import then Err DiskNotImportable else Ok tt
  | DevFtl d => probe_uri (bbdev_uri d);; probe_uri (cbdev_uri d)
  | DevPcie d => probe_pcie d
  | DevNvmf _ => Ok tt
  | DevNull _ | DevNexus _ | DevLvol _ => Err UriNotHandled
  end.

Fixpoint probe_uri (fuel : nat) (s : spdk) (import : bool) (uri : string) : outcome ProbeErrorCode unit :=
  match fuel with
  | O => Panicked
  | S fuel =>
      match parse host uri with
      | Ok d => probe (probe_uri fuel s import) s import d
      | Err _ => Err InvalidDiskUri
      | Panicked => Panicked
      end
  end.

(** ** The URI of a bdev *)

(** [bdev_uri_eq]; [parse] does not panic ([UriProps.parse_total]). *)
Definition bdev_uri_eq (name : string) (i : bdev_info) (u : url) : bool :=
  match parse host (url_string u) with
  | Ok d =>
      bool_decide (get_name d = name) &&
      bool_decide (driver i =
        if bool_decide (scheme u = "nvmf" ∨ scheme u = "nvmf+tcp" ∨ scheme u = "nvmf+rdma+tcp" ∨ scheme u = "pcie")%string
        then "nvme"%string else scheme u)
  | _ => false
  end.

(** [bdev_uri_original]: the first alias that is the URI of the bdev *)
Definition bdev_uri_original (name : string) (i : bdev_info) : option url :=
  head (omap (λ a, match url_parse a with inr u => if bdev_uri_eq name i u then Some u else None | inl _ => None end) (aliases i)).

(** [bdev_uri] *)
Definition bdev_uri (name : string) (i : bdev_info) : option url :=
  u ← bdev_uri_original name i;
  Some (if negb (existsb (λ kv, bool_decide (kv.1 = "uuid"%string)) (query_pairs u)) && negb (is_nil (uuid i))
        then append_pair "uuid" (uuid i) u else u).

End Ops.
End Device.
