(* ===== verification/BdevUriProps.v ===== *)
(** * Properties of device URIs

    Parsing a URI does not panic; a device that is created from a URI is a new bdev
    with the geometry the URI asks for, is found again by its URI, and is gone when
    it is destroyed by that URI. *)

From Stdlib Require Import Ascii String.
From S2P Require Import Prelude Text Wp Errors BdevUri BdevDevice.

#[local] Open Scope Z_scope.

Module UriProps.
Import Uri.

(** What is relied on of the crates: the path of a URL is percent-encoded and made
    of its segments, a URL is read back from its text, and sizes fit in 64 bits. *)
Class CrateLaws `{C : Crates} := {
  path_law u l : path_segments u = Some l → path u = String "/" (join "/" l);
  path_nul u : has NUL (path u) = false;
  reparse_law u : url_parse (url_string u) = inr u;
  byte_law s n : byte_parse s = inr n → is_u64 n;
}.

Section Parse.
Context `{CL : CrateLaws} (host : Host).
Implicit Types (u : url) (m : gmap string string).

(** ** Parsing does not panic *)

Definition safe {S E A} (m : ST S E A) : Prop := ∀ s, snd (m s) ≠ Panicked.

Lemma safe_bind {S E A B} (m : ST S E A) (k : A → ST S E B) : safe m → (∀ a, safe (k a)) → safe (m ≫= k).
Proof.
  intros Hm Hk s. unfold mbind, ST_bind. specialize (Hm s). destruct (m s) as [s' [a|e|]]; simpl in *; [apply Hk|done|done].
Qed.

Lemma safe_ret {S E A} (a : A) : safe (mret (M := ST S E) a).
Proof. done. Qed.

Lemma safe_fail {S E A} (e : E) : safe (ST.fail (S := S) (A := A) e).
Proof. done. Qed.

Lemma safe_lift {S E A} (o : outcome E A) : o ≠ Panicked → safe (ST.lift (S := S) o).
Proof. by intros ? s. Qed.

Lemma safe_remove k : safe (remove k).
Proof. done. Qed.

Create HintDb safe.
#[local] Hint Resolve safe_bind safe_ret safe_fail safe_lift safe_remove : safe.

Ltac safe_tac :=
  cbv zeta; repeat match goal with
  | |- safe (_ ≫= _) => apply safe_bind; [|intros ?]
  | |- safe (match ?x with _ => _ end) => destruct x
  | |- safe _ => solve [auto with safe]
  end.

Lemma safe_reject u : safe (reject_unknown_parameters u).
Proof. intros m. unfold reject_unknown_parameters. by case_bool_decide. Qed.

Lemma safe_int u max k r : safe (int_param u max k r).
Proof. unfold int_param. safe_tac. Qed.

Lemma safe_uuid u : safe (uuid_param u).
Proof. unfold uuid_param. safe_tac. Qed.

Lemma safe_size u : safe (size_param u).
Proof. unfold size_param. safe_tac. Qed.

Lemma safe_flag u k f fs : safe (flag_param u k f fs).
Proof. unfold flag_param. safe_tac. Qed.

Lemma safe_nested u k : safe (nested_uri u k).
Proof. unfold nested_uri. safe_tac. Qed.

Lemma safe_byte_size u a b : safe (byte_size u a b).
Proof. unfold byte_size. safe_tac. Qed.
#[local] Hint Resolve safe_reject safe_int safe_uuid safe_size safe_flag safe_nested safe_byte_size : safe.

Lemma safe_file_blk_size u : safe (file_blk_size host u).
Proof. unfold file_blk_size. safe_tac. Qed.
#[local] Hint Resolve safe_file_blk_size : safe.

Lemma segments_path u : segments u ≠ [] → ∃ s, path u = String "/" s.
Proof.
  unfold segments. destruct (path_segments u) as [l|] eqn:Hl; [|done]. intros _. rewrite (path_law _ _ Hl). eauto.
Qed.

Lemma safe_tail u : segments u ≠ [] → safe (path_tail u).
Proof. intros (s & Hs)%segments_path m. unfold path_tail. by rewrite Hs. Qed.

Lemma run_safe {A} u msg (m : ST (gmap string string) Bdev.Error A) : (segments u ≠ [] → safe m) → run u msg m ≠ Panicked.
Proof. intros Hm. unfold run. destruct (segments u) eqn:Hs; [done|]. by apply Hm. Qed.

Ltac run_tac := intros; apply run_safe; intros ?Hs; pose proof (safe_tail _ Hs); safe_tac.

Lemma lvs_total s : lvs_try_from s ≠ Panicked.
Proof. unfold lvs_try_from. destruct (url_parse s) as [|u]; [done|]. run_tac. Qed.
#[local] Hint Resolve lvs_total : safe.

Lemma nvmf_total u : nvmf_try_from u ≠ Panicked.
Proof.
  unfold nvmf_try_from. destruct (host_str u); [|done]. destruct (segments u) as [|? [|]]; [done| |done].
  match goal with |- snd (?m _) ≠ _ => assert (safe m) as Hm by safe_tac; apply Hm end.
Qed.

Lemma wrap_total {A} (f : A → Device) o : o ≠ Panicked → wrap f o ≠ Panicked.
Proof. by destruct o. Qed.

Lemma parse_url_total u : parse_url host u ≠ Panicked.
Proof.
  unfold parse_url. repeat case_bool_decide; try done; apply wrap_total; try apply nvmf_total; run_tac.
Qed.

Lemma parse_total uri : parse host uri ≠ Panicked.
Proof. unfold parse. destruct (url_parse uri); [done|apply parse_url_total]. Qed.

(** ** The geometry a URI asks for *)

Definition int_of (max : Z) m (k : string) : option Z :=
  v ← m !! k; match parse_uint max v with inr n => Some n | inl _ => None end.

Definition size_of m : option Z := v ← m !! "size"%string; match byte_parse v with inr n => Some n | inl _ => None end.

(** Blocks of 512 or 4096 bytes; their number is given, or is how many of them fit
    into a size in bytes or MiB.  A size in MiB is taken modulo 2^64 bytes. *)
Definition geometry m (bs nb : Z) : Prop :=
  bs = default 512 (int_of u32_max m "blk_size") ∧ (bs = 512 ∨ bs = 4096) ∧
  match int_of u64_max m "num_blocks", int_of u64_max m "size_mb", size_of m with
  | Some n, None, None => nb = n
  | None, Some mb, None => nb = wrap64 (mb * 2^20) / bs
  | None, None, Some b => nb = b / bs
  | None, None, None => nb = 0
  | _, Some mb, Some b => False
  | Some n, Some mb, None => n = 0 ∧ nb = wrap64 (mb * 2^20) / bs ∨ wrap64 (mb * 2^20) = 0 ∧ nb = n
  | Some n, None, Some b => n = 0 ∧ nb = b / bs ∨ b = 0 ∧ nb = n
  end.

Lemma wp_remove k m Q : Q (Ok (m !! k)) (delete k m) → wp (remove k) Q m.
Proof. done. Qed.

Lemma wp_int u max k r m Q :
  (m !! k = None ∨ is_Some (int_of max m k) → Q (Ok (int_of max m k)) (delete k m)) → (∀ e, Q (Err e) (delete k m)) →
  wp (int_param u max k r) Q m.
Proof.
  unfold int_of. intros Ho He. apply wp_bind, wp_remove. destruct (m !! k) as [v|]; [|by apply Ho; left]. simpl in *.
  destruct (parse_uint max v) as [e|n]; [apply He|]. apply Ho. eauto.
Qed.

Lemma wp_size u m Q :
  (m !! "size"%string = None ∨ is_Some (size_of m) → Q (Ok (size_of m)) (delete "size"%string m)) →
  (∀ e, Q (Err e) (delete "size"%string m)) → wp (size_param u) Q m.
Proof.
  unfold size_of. intros Ho He. apply wp_bind, wp_remove. destruct (m !! _) as [v|]; [|by apply Ho; left]. simpl in *.
  destruct (byte_parse v) as [e|n]; [apply He|]. apply Ho. eauto.
Qed.

Lemma wp_uuid u m Q : (∀ o, Q (Ok o) (delete "uuid"%string m)) → (∀ e, Q (Err e) (delete "uuid"%string m)) → wp (uuid_param u) Q m.
Proof.
  intros Ho He. apply wp_bind, wp_remove. destruct (m !! _) as [v|]; [|by apply Ho].
  destruct (uuid_parse v); [apply He|apply Ho].
Qed.

Lemma wp_reject u m Q : Q (Ok tt) m → (∀ e, Q (Err e) m) → wp (reject_unknown_parameters u) Q m.
Proof. intros Ho He. unfold wp, reject_unknown_parameters. case_bool_decide; auto. Qed.

Lemma wp_tail u m Q : segments u ≠ [] → (∀ s, path u = String "/" s → Q (Ok s) m) → wp (path_tail u) Q m.
Proof. intros (s & Hs)%segments_path HQ. unfold path_tail. rewrite Hs. by apply HQ. Qed.

(** The size in bytes from which the number of blocks is computed. *)
Lemma wp_byte_size u a b m Q :
  (∀ e, Q (Err e) m) →
  (∀ z, match a, b with
        | Some mb, None => z = wrap64 (mb * 2^20)
        | None, Some b => z = b
        | None, None => z = 0
        | Some _, Some _ => False
        end → Q (Ok z) m) →
  wp (byte_size u a b) Q m.
Proof.
  intros He Ho. unfold byte_size. destruct a as [mb|], b as [b|]; [apply He|..]; apply Ho; [|done..].
  unfold wrap64. rewrite Z.mul_mod_idemp_l by lia. f_equal. lia.
Qed.

Lemma int_of_delete max k k' m : k ≠ k' → int_of max (delete k m) k' = int_of max m k'.
Proof. intros. unfold int_of. by rewrite lookup_delete_ne. Qed.

Lemma size_of_delete k m : k ≠ "size"%string → size_of (delete k m) = size_of m.
Proof. intros. unfold size_of. by rewrite lookup_delete_ne. Qed.

(** The last step of both parsers *)
Lemma geometry_intro m bs size nb z :
  bs = default 512 (int_of u32_max m "blk_size") → (bs = 512 ∨ bs = 4096) →
  match int_of u64_max m "size_mb", size_of m with
  | Some mb, None => size = wrap64 (mb * 2^20)
  | None, Some b => size = b
  | None, None => size = 0
  | Some _, Some _ => False
  end → nb = default 0 (int_of u64_max m "num_blocks") → (size = 0 ∨ nb = 0) →
  z = (if nb =? 0 then size / bs else nb) → geometry m bs z.
Proof.
  intros Hbs Hb Hs Hn Hx Hz. split_and!; [done|done|].
  destruct (int_of u64_max m "num_blocks") as [n|], (int_of u64_max m "size_mb") as [mb|], (size_of m) as [b|]; simpl in *; subst;
    try done; case_match eqn:Hq; try done; try (rewrite Z.eqb_eq in Hq; subst); try (rewrite Z.eqb_neq in Hq);
    rewrite ?Z.div_0_l by lia; try lia; try (left; by auto); try (right; split; [lia|done]).
Qed.

Lemma run_wp {A} u msg (m : ST (gmap string string) Bdev.Error A) (d : A) (G : Prop) :
  (segments u ≠ [] → wp m (λ r _, r = Ok d → G) (parameters u)) → run u msg m = Ok d → G.
Proof.
  intros Hm. unfold run. destruct (segments u) eqn:Hs; [done|]. specialize (Hm ltac:(done)). unfold wp in Hm.
  destruct (m (parameters u)). exact Hm.
Qed.

(** The condition of the next step *)
Ltac wp_case H := lazymatch goal with |- wp (if ?b then _ else _) _ _ => destruct b eqn:H end.

Lemma malloc_geometry u d : malloc_try_from u = Ok d → path u = String "/" (m_name d) ∧ m_alias d = url_string u ∧
  geometry (parameters u) (m_blk_size d) (m_num_blocks d).
Proof.
  apply run_wp. intros Hne.
  apply wp_bind, wp_int; [intros _|done]. cbv zeta. apply wp_bind, wp_int; [intros _|done]. apply wp_bind, wp_size; [intros _|done].
  apply wp_bind, wp_byte_size; [done|]. intros size Hsize. apply wp_bind, wp_int; [intros _|done].
  apply wp_bind, wp_uuid; [intros o|done]. apply wp_bind, wp_remove. apply wp_bind, wp_reject; [|done].
  rewrite ?int_of_delete, ?size_of_delete, ?int_of_delete in * by done.
  wp_case Hb; [done|]. wp_case Hc; [done|]. wp_case Hd; [done|]. apply wp_bind, wp_tail; [done|].
  intros nm Hp. apply wp_ret. intros [= <-]. simpl. split_and!; [done|done|].
  eapply (geometry_intro _ _ size _ _ eq_refl); [|exact Hsize|reflexivity| |reflexivity]; lia.
Qed.

Lemma null_geometry u d : null_try_from host u = Ok d → path u = String "/" (n_name d) ∧ n_alias d = url_string u ∧
  geometry (parameters u) (n_blk_size d) (n_num_blocks d).
Proof.
  apply run_wp. intros Hne.
  apply wp_bind, wp_int; [intros _|done]. cbv zeta. wp_case Hb; [done|].
  apply wp_bind, wp_int; [intros _|done]. apply wp_bind, wp_size; [intros _|done].
  apply wp_bind, wp_byte_size; [done|]. intros size Hsize. apply wp_bind, wp_int; [intros _|done]. wp_case Hc; [done|].
  apply wp_bind, wp_uuid; [intros o|done]. apply wp_bind, wp_reject; [|done].
  rewrite ?int_of_delete, ?size_of_delete, ?int_of_delete in * by done.
  apply wp_bind, wp_tail; [done|].
  intros nm Hp. apply wp_ret. intros [= <-]. simpl. split_and!; [done|done|].
  eapply (geometry_intro _ _ size _ _ eq_refl); [|exact Hsize|reflexivity| |reflexivity]; lia.
Qed.

Lemma wp_file_blk_size u m Q : (∀ z m', Q (Ok z) m') → (∀ e m', Q (Err e) m') → wp (file_blk_size host u) Q m.
Proof. intros Ho He. unfold file_blk_size. apply wp_bind, wp_int; [|by intros; apply He]. intros _. apply Ho. Qed.

Lemma aio_names u d : aio_try_from host u = Ok d → aio_name d = path u ∧ aio_alias d = url_string u.
Proof.
  apply run_wp. intros _. apply wp_bind, wp_file_blk_size; [intros z m|done]. apply wp_bind, wp_uuid; [intros o|done].
  apply wp_bind, wp_remove, wp_bind, wp_reject; [|done]. apply wp_ret. by intros [= <-].
Qed.

Lemma uring_names u d : uring_try_from host u = Ok d → u_name d = path u ∧ u_alias d = url_string u.
Proof.
  apply run_wp. intros _. apply wp_bind, wp_file_blk_size; [intros z m|done]. apply wp_bind, wp_uuid; [intros o|done].
  apply wp_bind, wp_reject; [|done]. apply wp_ret. by intros [= <-].
Qed.

End Parse.

(** ** Creation and destruction *)
Import Device.

(** The driver of a bdev that SPDK makes for a URI *)
Definition kind_driver (k : Kind) : string :=
  match k with KAio => "aio" | KMalloc => "malloc" | KNull => "null" | KUring => "uring" | KFtl => "ftl" | KNvme => "nvme" end.

(** A new bdev [n]; the aliases it has from SPDK are not URLs. *)
Definition made `{C : Crates} {SP : Spdk} (k : Kind) (n : string) (s s' : spdk) (i : bdev_info) : Prop :=
  bdevs s' = <[n := i]> (bdevs s) ∧ driver i = kind_driver k ∧ Forall (λ a, ∃ e, url_parse a = inl e) (aliases i).

Definition set_uuid (x : string) (i : bdev_info) : bdev_info := mkBdev (driver i) x (aliases i) (block_len i) (num_blocks i).
Definition with_alias (a : string) (i : bdev_info) : bdev_info :=
  mkBdev (driver i) (uuid i) (aliases i ++ [a]) (block_len i) (num_blocks i).

(** What is relied on of SPDK: a bdev is found by its name, constructors
    make what they are asked for or nothing, and a deletion that succeeded
    deletes. *)
Class SpdkLaws `{C : Crates} {SP : Spdk} := {
  find_law s n i : bdevs s !! n = Some i → bdev_get_by_name s n = Some n;
  uuid_law b x s : bdevs (set_raw_uuid b x s) = alter (set_uuid x) b (bdevs s);
  alias_law b a s s' ok : bdev_add_alias b a s = (s', ok) → bdevs s' = if ok then alter (with_alias a) b (bdevs s) else bdevs s;
  aio_law n bs s s' rc : bdev_get_by_name s n = None → create_aio_bdev n bs s = (s', rc) →
    if rc =? 0 then ∃ i, made KAio n s s' i ∧ (bs ≠ 0 → block_len i = bs) else bdevs s' = bdevs s;
  malloc_law n nb bs s s' rc : bdev_get_by_name s n = None → create_malloc_disk n nb bs s = (s', rc) →
    if rc =? 0 then ∃ i, made KMalloc n s s' i ∧ block_len i = bs ∧ num_blocks i = nb else bdevs s' = bdevs s;
  null_law n nb bs s s' rc : bdev_get_by_name s n = None → bdev_null_create n nb bs s = (s', rc) →
    if rc =? 0 then ∃ i, made KNull n s s' i ∧ block_len i = bs ∧ num_blocks i = nb else bdevs s' = bdevs s;
  uring_law n bs s s' o : bdev_get_by_name s n = None → create_uring_bdev n bs s = (s', o) →
    if o is Some b then b = n ∧ ∃ i, made KUring n s s' i ∧ (bs ≠ 0 → block_len i = bs) else bdevs s' = bdevs s;
  delete_law k b s s' a : k ≠ KNvme → bdev_delete k b s = (s', a) →
    bdevs s' = delete b (bdevs s) ∨ a ≠ Done None ∧ bdevs s' = bdevs s;
  rescan_law n s s' rc : bdev_aio_rescan n s = (s', rc) → dom (bdevs s') = dom (bdevs s);
  resize_law n mb s s' rc : resize_malloc_disk n mb s = (s', rc) → dom (bdevs s') = dom (bdevs s);
}.

Section Create.
Context `{CL : CrateLaws} {SP : Spdk} {CO : Components} {SL : SpdkLaws} (host : Host).
Implicit Types (u : url) (w : World) (i : bdev_info).

(** The devices that one of SPDK's modules makes, with what they ask for. *)
Definition kind_of (d : Uri.Device) : option Kind :=
  match d with
  | DevAio _ => Some KAio | DevMalloc _ => Some KMalloc | DevNull _ => Some KNull | DevUring _ => Some KUring | _ => None
  end.

Definition grows (d : Uri.Device) : bool :=
  match d with DevAio d => rescan d | DevMalloc d => resizing d | _ => false end.

Definition dev_uuid (d : Uri.Device) : option string :=
  match d with
  | DevAio d => aio_uuid d | DevMalloc d => m_uuid d | DevNull d => n_uuid d | DevUring d => u_uuid d | _ => None
  end.

Definition sized (d : Uri.Device) u i : Prop :=
  match d with
  | DevMalloc _ | DevNull _ => geometry (parameters u) (block_len i) (num_blocks i)
  | DevAio d => aio_blk_size d ≠ 0 → block_len i = aio_blk_size d
  | DevUring d => u_blk_size d ≠ 0 → block_len i = u_blk_size d
  | _ => True
  end.

Lemma find_none s n : bdev_get_by_name s n = None → bdevs s !! n = None.
Proof. intros H. destruct (bdevs s !! n) eqn:E; [|done]. by rewrite (find_law _ _ _ E) in H. Qed.

Lemma wp_call {A} (f : spdk → spdk * A) w (Q : outcome Bdev.Error A → World → Prop) :
  (∀ s a, f (lib w) = (s, a) → Q (Ok a) (mkWorld s (removed w))) → wp (call f) Q w.
Proof. intros H. unfold wp, call. destruct (f (lib w)) eqn:E. auto. Qed.

(** The bdev [n] that was made is [i], up to its UUID and aliases. *)
Definition finished (m0 : gmap string bdev_info) (n : string) i (x : option string) (alias : string) w : Prop :=
  ∃ i', bdevs (lib w) = <[n := i']> m0 ∧ driver i' = driver i ∧ block_len i' = block_len i ∧ num_blocks i' = num_blocks i ∧
    (∀ y, x = Some y → uuid i' = y) ∧ (aliases i' = aliases i ++ [alias] ∨ aliases i' = aliases i).

Lemma dressed_wp n i x alias m0 w (b : string) (Q : outcome Bdev.Error string → World → Prop) :
  bdevs (lib w) = <[n := i]> m0 → b = n → (∀ w', finished m0 n i x alias w' → Q (Ok n) w') →
  wp ((if x is Some y then call (λ s, (set_raw_uuid b y s, tt)) else mret tt);; add_alias b alias;; mret n) Q w.
Proof.
  intros Hm -> HQ.
  assert (∀ w' i', bdevs (lib w') = <[n := i']> m0 → driver i' = driver i → block_len i' = block_len i → num_blocks i' = num_blocks i →
    (∀ y, x = Some y → uuid i' = y) → aliases i' = aliases i → wp (E := Bdev.Error) (add_alias n alias;; mret n) Q w') as Hk.
  { intros w' i' Hw' Hd Hb Hn Hu Ha. wp_step. unfold add_alias. wp_step. apply wp_call. intros s ok Hs. wp_step.
    wp_step. apply HQ. apply alias_law in Hs. rewrite Hw' in Hs. destruct ok; [|by exists i'; split_and!; auto].
    rewrite alter_insert_eq in Hs. exists (with_alias alias i'). simpl. split_and!; auto. left. by rewrite Ha. }
  destruct x as [y|]; wp_step.
  - apply wp_call. intros s [] [= <-]. apply (Hk _ (set_uuid y i)); simpl; try done; [|by intros ? [= ->]].
    rewrite uuid_law, Hm. apply alter_insert_eq.
  - wp_step. by apply (Hk w i).
Qed.

Lemma finish_wp n i x alias m0 w (Q : outcome Bdev.Error string → World → Prop) :
  bdevs (lib w) = <[n := i]> m0 → (∀ w', finished m0 n i x alias w' → Q (Ok n) w') → wp (finish n x alias) Q w.
Proof.
  intros Hm HQ. unfold finish, lookup_by_name. wp_step. wp_step.
  rewrite (find_law _ n i) by (rewrite Hm; apply lookup_insert_eq). by eapply dressed_wp.
Qed.

(** A constructor leaves a bdev of the kind [k] of which [P] holds, or nothing. *)
Definition created (k : Kind) (n : string) (P : bdev_info → Prop) (x : option string) (alias : string) w
    (r : outcome Bdev.Error string) w' : Prop :=
  match r with
  | Ok n' => n' = n ∧ ∃ i, driver i = kind_driver k ∧ P i ∧ Forall (λ a, ∃ e, url_parse a = inl e) (aliases i) ∧
                           finished (bdevs (lib w)) n i x alias w'
  | Err _ => bdevs (lib w') = bdevs (lib w)
  | Panicked => False
  end.

Lemma construct_wp k n f P x alias w :
  has NUL n = false →
  (∀ s' rc, f (lib w) = (s', rc) → if rc =? 0 then ∃ i, made k n (lib w) s' i ∧ P i else bdevs s' = bdevs (lib w)) →
  wp (construct n f x alias) (created k n P x alias w) w.
Proof.
  intros Hn Hf. unfold construct. wp_step. wp_step. unfold into_cstring. rewrite Hn. wp_step. apply wp_call.
  intros s rc Hs. apply Hf in Hs. destruct (rc =? 0); [|by wp_step].
  destruct Hs as (i & (Hm & Hd & Ha) & HP). eapply finish_wp; [exact Hm|]. intros w' Hw'. simpl. split; [done|].
  by exists i.
Qed.

Definition dev_alias (d : Uri.Device) : string :=
  match d with
  | DevAio d => aio_alias d | DevMalloc d => m_alias d | DevNull d => n_alias d | DevUring d => u_alias d | _ => ""
  end.

(** The name a URI gives to the bdev of a kind *)
Definition uri_name (k : Kind) u : string :=
  match k with KAio | KUring => path u | _ => match path u with String _ s => s | EmptyString => EmptyString end end.

Lemma wrap_ok {A} (f : A → Uri.Device) (o : outcome Bdev.Error A) d : wrap f o = Ok d → ∃ a, o = Ok a ∧ d = f a.
Proof. destruct o; [|done..]. intros [= <-]. eauto. Qed.

(** What a device of one of the kinds has from its URI *)
Lemma local_device host' u d k :
  parse_url host' u = Ok d → kind_of d = Some k →
  scheme u = kind_driver k ∧ get_name d = uri_name k u ∧ dev_alias d = url_string u ∧ has NUL (get_name d) = false.
Proof.
  unfold parse_url. pose proof (path_nul u) as Hnul.
  repeat case_bool_decide; try done; intros (a & Ha & ->)%wrap_ok Hk; simpl in *; try done; injection Hk as <-; simpl.
  - apply aio_names in Ha as [-> ->]. done.
  - apply malloc_geometry in Ha as (Hp & -> & _). by rewrite Hp in *.
  - apply null_geometry in Ha as (Hp & -> & _). by rewrite Hp in *.
  - apply uring_names in Ha as [-> ->]. done.
Qed.

(** A device may exist already, if it is to be rescanned or resized. *)
Definition outcome_of (d : Uri.Device) u (k : Kind) w (r : outcome Bdev.Error string) w' : Prop :=
  bdev_get_by_name (lib w) (get_name d) = None ∧
    created k (get_name d) (λ i, sized d u i) (dev_uuid d) (url_string u) w r w' ∨
  is_Some (bdev_get_by_name (lib w) (get_name d)) ∧
    match r with
    | Ok n => n = get_name d ∧ grows d = true ∧ dom (bdevs (lib w')) = dom (bdevs (lib w))
    | Err _ => if grows d then dom (bdevs (lib w')) = dom (bdevs (lib w)) else w' = w
    | Panicked => False
    end.

Lemma created_mono k n (P P' : bdev_info → Prop) x a w r w' : (∀ i, P i → P' i) → created k n P x a w r w' → created k n P' x a w r w'.
Proof. intros HP. destruct r; simpl; [|done..]. intros (-> & i & ? & ? & ? & ?). eauto 8. Qed.

Lemma resized_wp n f d u k w :
  has NUL n = false → n = get_name d → grows d = true → is_Some (bdev_get_by_name (lib w) (get_name d)) →
  (∀ s' rc, f (lib w) = (s', rc) → dom (bdevs s') = dom (bdevs (lib w))) → wp (resized n f) (outcome_of d u k w) w.
Proof.
  intros Hn -> Hg Hs Hf. unfold resized. wp_step. wp_step. unfold into_cstring. rewrite Hn. wp_step. apply wp_call.
  intros s rc E. apply Hf in E. destruct (rc =? 0); right; [by split|]. by rewrite Hg.
Qed.

(** The size of a parsed malloc or null device is that of its URI. *)
Lemma geom_malloc u d : parse_url host u = Ok (DevMalloc d) → geometry (parameters u) (m_blk_size d) (m_num_blocks d).
Proof.
  unfold parse_url. repeat case_bool_decide; try done; intros (a & Ha & Hd)%wrap_ok; try done. injection Hd as ->.
  by apply malloc_geometry in Ha as (_ & _ & ?).
Qed.

Lemma geom_null u d : parse_url host u = Ok (DevNull d) → geometry (parameters u) (n_blk_size d) (n_num_blocks d).
Proof.
  unfold parse_url. repeat case_bool_decide; try done; intros (a & Ha & Hd)%wrap_ok; try done. injection Hd as ->.
  by apply null_geometry in Ha as (_ & _ & ?).
Qed.

Lemma create_local bc bd u d k w :
  parse_url host u = Ok d → kind_of d = Some k → wp (create bc bd d) (outcome_of d u k w) w.
Proof.
  intros Hp Hk. destruct (local_device _ _ _ _ Hp Hk) as (Hsch & Hname & Hal & Hnul).
  assert (∀ e, is_Some (bdev_get_by_name (lib w) (get_name d)) → grows d = false →
    wp (ST.fail e) (outcome_of d u k w) w) as Hex.
  { intros e Hs Hg. wp_step. right. by rewrite Hg. }
  destruct d as [d|d|d|d|d|d|d|d|d|d]; try done; injection Hk as <-; simpl in *.
  - unfold aio_create, lookup_by_name. wp_step. wp_step. destruct (bdev_get_by_name _ _) eqn:Hf.
    + destruct (rescan d) eqn:Hr; [|by eapply Hex; eauto]. apply resized_wp; simpl; [done|done|done|rewrite Hf; eauto|]. intros. by eapply rescan_law.
    + eapply wp_mono; [eapply (construct_wp KAio); [done|]|].
      { intros s' rc E. pose proof (aio_law _ _ _ _ _ Hf E) as Hl. exact Hl. }
      intros r w' Hc. left. by rewrite Hal in Hc.
  - unfold malloc_create, lookup_by_name. wp_step. wp_step. destruct (bdev_get_by_name _ _) eqn:Hf.
    + destruct (resizing d) eqn:Hr; [|by eapply Hex; eauto]. apply resized_wp; simpl; [done|done|done|rewrite Hf; eauto|]. intros. by eapply resize_law.
    + eapply wp_mono; [eapply (construct_wp KMalloc); [done|]; intros s' rc E; exact (malloc_law _ _ _ _ _ _ Hf E)|].
      intros r w' Hc. left. rewrite Hal in Hc. split; [done|]. eapply created_mono; [|exact Hc].
      intros i [Hb Hn]. simpl. rewrite Hb, Hn. by apply geom_malloc.
  - unfold null_create, lookup_by_name. wp_step. wp_step. destruct (bdev_get_by_name _ _) eqn:Hf; [by eapply Hex; eauto|].
    eapply wp_mono; [eapply (construct_wp KNull); [done|]; intros s' rc E; exact (null_law _ _ _ _ _ _ Hf E)|].
    intros r w' Hc. left. rewrite Hal in Hc. split; [done|]. eapply created_mono; [|exact Hc].
    intros i [Hb Hn]. simpl. rewrite Hb, Hn. by apply geom_null.
  - unfold uring_create, lookup_by_name. wp_step. wp_step. destruct (bdev_get_by_name _ _) eqn:Hf; [by eapply Hex; eauto|].
    wp_step. wp_step. unfold into_cstring. rewrite Hnul. wp_step. apply wp_call. intros s o E.
    pose proof (uring_law _ _ _ _ _ Hf E) as Hl. destruct o as [b|]; [|by wp_step; left].
    destruct Hl as (-> & i & (Hm & Hd & Ha) & HP). eapply dressed_wp; [exact Hm|done|]. intros w' Hw'. left. split; [done|].
    split; [done|]. exists i. rewrite <- Hal. by split_and!.
Qed.



Lemma sized_same d u i i' : block_len i' = block_len i → num_blocks i' = num_blocks i → sized d u i → sized d u i'.
Proof. unfold sized. by intros -> ->. Qed.

Lemma scheme_kind host' u d k d' :
  parse_url host u = Ok d → kind_of d = Some k → parse_url host' u = Ok d' → kind_of d' = Some k ∧ get_name d' = get_name d.
Proof.
  intros Hp Hk Hp'. destruct (local_device _ _ _ _ Hp Hk) as (Hsch & Hn & _).
  assert (kind_of d' = Some k) as Hk'; [|by destruct (local_device _ _ _ _ Hp' Hk') as (_ & -> & _)].
  destruct d; try done; injection Hk as <-; unfold parse_url in Hp'; rewrite Hsch in Hp'; simpl in Hp';
    repeat case_bool_decide; try naive_solver; apply wrap_ok in Hp' as (? & _ & ->); done.
Qed.

Lemma destroy_local bd d k : kind_of d = Some k → destroy bd d = delete_by k (get_name d).
Proof. by destruct d; intros [= <-]. Qed.

(** A bdev that was made from a URI is deleted by it. *)
Lemma destroyed host' fuel u d k n i m0 w w' :
  parse_url host u = Ok d → kind_of d = Some k → n = get_name d → m0 !! n = None → bdevs (lib w) = <[n := i]> m0 →
  bdev_destroy host' (S fuel) (url_string u) w = (w', Ok tt) → bdevs (lib w') = m0.
Proof.
  intros Hp Hk -> Hnone Hm Hb.
  assert (wp (bdev_destroy host' (S fuel) (url_string u)) (λ r w', r = Ok tt → bdevs (lib w') = m0) w) as Hw;
    [|exact (wp_elim _ _ _ _ _ Hw Hb eq_refl)]. clear Hb. simpl. wp_step. wp_step.
  unfold parse. rewrite reparse_law. destruct (parse_url host' u) as [d'|e|] eqn:Hp'; [|done..].
  destruct (scheme_kind _ _ _ _ _ Hp Hk Hp') as [Hk' Hn]. rewrite (destroy_local _ _ _ Hk'), Hn.
  unfold delete_by, lookup_by_name. wp_step. wp_step. rewrite (find_law _ _ i) by (rewrite Hm; apply lookup_insert_eq).
  wp_step. apply wp_call. intros s a Hd. apply delete_law in Hd; [|by destruct d; naive_solver].
  unfold await. destruct a as [|[e|]]; wp_step; try done. intros _. simpl. destruct Hd as [Hd|[? _]]; [|done].
  rewrite Hd, Hm. by apply delete_insert_id.
Qed.

Lemma omap_none {A B} (f : A → option B) l : Forall (λ a, f a = None) l → omap f l = [].
Proof. induction 1 as [|a l Ha _ IH]; [done|]. cbn. rewrite Ha. exact IH. Qed.

(** The URI of the bdev is the one it was made from. *)
Lemma original_uri u d k n i al :
  parse_url host u = Ok d → kind_of d = Some k → n = get_name d → driver i = kind_driver k →
  Forall (λ a, ∃ e, url_parse a = inl e) al → (aliases i = al ++ [url_string u] ∨ aliases i = al) →
  url_string u ∈ aliases i → bdev_uri_original host n i = Some u.
Proof.
  intros Hp Hk -> Hd Hal Ha Hin. unfold bdev_uri_original.
  assert (aliases i = al ++ [url_string u]) as ->.
  { destruct Ha as [|Ha]; [done|]. rewrite Ha in Hin. rewrite Forall_forall in Hal. destruct (Hal _ Hin) as [e He].
    by rewrite reparse_law in He. }
  rewrite omap_app. rewrite (omap_none _ al) by (eapply Forall_impl; [exact Hal|]; by intros a [e ->]).
  simpl. rewrite reparse_law. unfold bdev_uri_eq, parse. rewrite reparse_law, Hp. destruct (local_device _ _ _ _ Hp Hk) as (-> & _).
  rewrite bool_decide_eq_true_2 by done. rewrite Hd. by destruct d; try done; injection Hk as <-.
Qed.

(** C27.  A device that is created from a URI of the schemes [aio], [malloc],
    [null] and [uring] is one new bdev: it has the name and UUID of the URI, blocks
    of the size and in the number the URI asks for, and, once it has its alias, the
    URI it was created from is found again from it; destroying that URI gives the
    bdevs of before.  A bdev that exists is only resized, and only if the URI says
    so.  When the creation fails there is no bdev more or less than before.
    Nothing panics, and a URI that is not valid has no effect. *)
Theorem uri_device_round_trip fuel uri w w1 r :
  bdev_create host (S fuel) uri w = (w1, r) →
  match parse host uri with
  | Panicked => False
  | Err e => w1 = w ∧ r = Err e
  | Ok d => ∀ k, kind_of d = Some k → ∃ u, url_parse uri = inr u ∧
      match r with
      | Ok n => n = get_name d ∧
          (bdev_get_by_name (lib w) n = None →
            ∃ i, bdevs (lib w1) = <[n := i]> (bdevs (lib w)) ∧ driver i = scheme u ∧ sized d u i ∧
              (∀ y, dev_uuid d = Some y → uuid i = y) ∧
              (url_string u ∈ aliases i → bdev_uri_original host n i = Some u) ∧
              ∀ host' fuel' w2, bdev_destroy host' (S fuel') (url_string u) w1 = (w2, Ok tt) → bdevs (lib w2) = bdevs (lib w)) ∧
          (is_Some (bdev_get_by_name (lib w) n) → grows d = true ∧ dom (bdevs (lib w1)) = dom (bdevs (lib w)))
      | Err _ => dom (bdevs (lib w1)) = dom (bdevs (lib w)) ∧ (grows d = false → bdevs (lib w1) = bdevs (lib w))
      | Panicked => False
      end
  end.
Proof.
  simpl. unfold mbind, ST_bind, ST.lift at 1. destruct (parse host uri) as [d|e|] eqn:Hp;
    [|by intros [= <- <-]|by apply parse_total in Hp].
  intros Hc k Hk. unfold parse in Hp. destruct (url_parse uri) as [|u] eqn:Hu; [done|]. exists u. split; [done|].
  destruct (local_device _ _ _ _ Hp Hk) as (Hsch & _).
  destruct (wp_elim _ _ _ _ _ (create_local _ _ _ _ _ w Hp Hk) Hc) as [[Hn Hr]|[Hs Hr]].
  - destruct r as [n|e|]; simpl in Hr; [|by rewrite Hr|done].
    destruct Hr as (-> & i & Hd & Hz & Hal & i' & Hm & Hd' & Hb & Hnb & Hx & Ha).
    split_and!; [done| |by rewrite Hn; intros [? ?]]. intros _. exists i'. split_and!; [done|congruence| |done| |].
    + by apply (sized_same d u i).
    + eapply original_uri; try done. congruence.
    + intros host' fuel' w2. eapply destroyed; try done. by apply find_none.
  - destruct r as [n|e|]; [|by destruct (grows d); [|subst]|done]. destruct Hr as (-> & Hg & Hdom).
    split_and!; [done| |done]. intros Hnone. rewrite Hnone in Hs. by destruct Hs.
Qed.

End Create.

(** ** Nested devices

    The URIs inside of a URI are shorter than it, so the fuel of [bdev_create]
    and [bdev_destroy] does not matter once it exceeds the length of the URI. *)
Section Nested.
Context `{C : Crates} {SP : Spdk} {CO : Components} (host : Host).
Hypothesis query_shorter : ∀ uri u k v, url_parse uri = inr u → (k, v) ∈ query_pairs u → (String.length v < String.length uri)%nat.
Hypothesis decode_shorter : ∀ s x, percent_decode s = inr x → (String.length x ≤ String.length s)%nat.

Definition nested (d : Uri.Device) (uri : string) : Prop :=
  match d with DevFtl d => uri = bbdev_uri d ∨ uri = cbdev_uri d | _ => False end.

Lemma parameter_pair u k v : parameters u !! k = Some v → (k, v) ∈ query_pairs u.
Proof. intros H%elem_of_list_to_map_2. by rewrite elem_of_reverse in H. Qed.

Lemma wp_nested u k m (Q : outcome Bdev.Error string → _ → Prop) :
  (∀ e, Q (Err e) (delete k m)) → (∀ v x, m !! k = Some v → percent_decode v = inr x → Q (Ok x) (delete k m)) → wp (nested_uri u k) Q m.
Proof.
  intros He Ho. apply wp_bind, wp_remove. destruct (m !! k) as [v|] eqn:Hv; [|by apply He].
  destruct (percent_decode v) as [|x] eqn:Hx; [by apply He|by eapply Ho].
Qed.

Lemma nested_shorter uri d x : parse host uri = Ok d → nested d x → (String.length x < String.length uri)%nat.
Proof.
  unfold parse. destruct (url_parse uri) as [|u] eqn:Hu; [done|]. intros Hp Hn. destruct d as [| |d| | | | | | |]; try done.
  assert (ftl_try_from u = Ok d) as Hf.
  { unfold parse_url in Hp. repeat case_bool_decide; try done; apply wrap_ok in Hp as (a & Ha & Hd); try done. by injection Hd as ->. }
  assert (∀ k v x, parameters u !! k = Some v → percent_decode v = inr x → (String.length x < String.length uri)%nat) as Hlen.
  { intros k v y Hv%parameter_pair Hy. apply decode_shorter in Hy. apply (query_shorter _ _ _ _ Hu) in Hv. lia. }
  revert Hf Hn. unfold ftl_try_from, run. destruct (segments u); [done|].
  match goal with |- snd (?m ?p) = _ → ?G => assert (wp m (λ r _, r = Ok d → G) p) as Hw; [|unfold wp in Hw; destruct (m p); exact Hw] end.
  apply wp_bind, wp_uuid; [intros o|done]. apply wp_bind, wp_nested; [done|]. intros v1 x1 Hv1 Hx1.
  apply wp_bind, wp_nested; [done|]. intros v2 x2 Hv2 Hx2. apply wp_bind, wp_reject; [|done]. rewrite !lookup_delete_ne in * by done.
  apply wp_bind. unfold wp, path_tail. destruct (path u) as [|a0 s0]; [done|]. simpl. destruct (_ <? _); [|done].
  intros [= <-] [->| ->]; simpl; eauto.
Qed.

Lemma bind_ext {S E A B} (m m' : ST S E A) (k k' : A → ST S E B) s :
  m s = m' s → (∀ a s', k a s' = k' a s') → (m ≫= k) s = (m' ≫= k') s.
Proof. intros Hm Hk. unfold mbind, ST_bind. rewrite Hm. destruct (m' s) as [? []]; auto. Qed.

Lemma try_ext {S E E' A} (m m' : ST S E A) s : m s = m' s → ST.try (E' := E') m s = ST.try m' s.
Proof. intros H. unfold ST.try. by rewrite H. Qed.

Lemma destroy_ext bd bd' d : (∀ x w, nested d x → bd x w = bd' x w) → ∀ w, destroy bd d w = destroy bd' d w.
Proof.
  intros H w. destruct d; try done. simpl in *. unfold ftl_destroy. apply bind_ext; [done|intros _ w1].
  apply bind_ext; [apply try_ext; auto|intros r w2]. apply bind_ext; [apply try_ext; auto|done].
Qed.

Lemma create_ext bc bc' bd bd' d :
  (∀ x w, nested d x → bc x w = bc' x w ∧ bd x w = bd' x w) → ∀ w, create bc bd d w = create bc' bd' d w.
Proof.
  intros H w. destruct d; try done. simpl in *. unfold ftl_create. apply bind_ext; [done|intros [b|] w1]; [done|].
  apply bind_ext; [done|intros _ w2]. apply bind_ext; [by apply H; left|intros base w3].
  apply bind_ext; [apply try_ext; by apply H; right|]. intros [cache|e|] w4; [|apply bind_ext; [apply try_ext; by apply H; left|done]|done].
  apply bind_ext; [done|]. intros [rc|a] w5; [|done].
  apply bind_ext; [apply try_ext; by apply H; left|intros _ w6]. apply bind_ext; [apply try_ext; by apply H; right|done].
Qed.

Lemma destroy_fuel_enough n m uri w :
  (String.length uri < n)%nat → (String.length uri < m)%nat → bdev_destroy host n uri w = bdev_destroy host m uri w.
Proof.
  revert m uri w. induction n as [|n IH]; intros [|m] uri w ? ?; try lia. simpl. unfold mbind, ST_bind, ST.lift.
  destruct (parse host uri) as [d| |] eqn:Hp; [|done..]. apply destroy_ext. intros x w' Hx%(nested_shorter _ _ _ Hp). apply IH; lia.
Qed.

Lemma create_fuel_enough n m uri w :
  (String.length uri < n)%nat → (String.length uri < m)%nat → bdev_create host n uri w = bdev_create host m uri w.
Proof.
  revert m uri w. induction n as [|n IH]; intros [|m] uri w ? ?; try lia. simpl. unfold mbind, ST_bind, ST.lift.
  destruct (parse host uri) as [d| |] eqn:Hp; [|done..]. apply create_ext. intros x w' Hx%(nested_shorter _ _ _ Hp).
  split; [apply IH|apply destroy_fuel_enough]; lia.
Qed.

End Nested.
End UriProps.
