(* ===== verification/BdevUriSample.v ===== *)
(** * Device URIs at work

    Concrete URLs and a concrete SPDK, for which the laws of [BdevUriProps] hold;
    and runs that show what the code does at the edges. *)

From Stdlib Require Import Ascii String.
From S2P Require Import Prelude Text Wp Errors BdevUri BdevDevice BdevUriProps.

#[local] Open Scope Z_scope.

Module UriSample.
Import Uri Device UriProps.

(** ** Some URLs *)

Inductive sample_url := Disk | Huge | Tiny | Zero | Layered | Pci | Loop | Ring.

Definition all_urls : list sample_url := [Disk; Huge; Tiny; Zero; Layered; Pci; Loop; Ring].

#[global] Instance sample_url_eq_dec : EqDecision sample_url.
Proof. solve_decision. Defined.

Definition text (u : sample_url) : string :=
  match u with
  | Disk => "malloc:///m0?size_mb=64&blk_size=4096&uuid=u0"
  | Huge => "malloc:///m0?size_mb=17592186044417"
  | Tiny => "malloc:///m0?num_blocks=1&resize=1"
  | Zero => "null:///n0"
  | Layered => "ftl:///f0?bbdev=malloc:///m0%3Fsize_mb=64%26blk_size=4096%26uuid=u0&cbdev=null:///n0"
  | Pci => "pcie:///0000:01:00.0"
  | Loop => "loopback:///m0"
  | Ring => "uring:///dev/sda"
  end.

Definition sample_scheme (u : sample_url) : string :=
  match u with
  | Disk | Huge | Tiny => "malloc" | Zero => "null" | Layered => "ftl" | Pci => "pcie" | Loop => "loopback" | Ring => "uring"
  end.

Definition sample_segments (u : sample_url) : list string :=
  match u with
  | Disk | Huge | Tiny | Loop => ["m0"] | Zero => ["n0"] | Layered => ["f0"] | Pci => ["0000:01:00.0"] | Ring => ["dev"; "sda"]
  end%string.

Definition sample_query (u : sample_url) : list (string * string) :=
  match u with
  | Disk => [("size_mb", "64"); ("blk_size", "4096"); ("uuid", "u0")]
  | Huge => [("size_mb", "17592186044417")]
  | Tiny => [("num_blocks", "1"); ("resize", "1")]
  | Layered => [("bbdev", "malloc:///m0?size_mb=64&blk_size=4096&uuid=u0"); ("cbdev", "null:///n0")]
  | _ => []
  end%string.

#[global] Instance sample_crates : Crates := {
  url := sample_url;
  url_parse s := match list_find (λ u, s = text u) all_urls with Some (_, u) => inr u | None => inl "no URL"%string end;
  url_string := text;
  scheme := sample_scheme;
  host_str _ := None;
  port _ := None;
  path u := String "/" (join "/" (sample_segments u));
  path_segments u := Some (sample_segments u);
  query_pairs := sample_query;
  host_to_path u := String "/" (join "/" (sample_segments u));
  append_pair _ _ u := u;
  uuid_parse := inr;
  byte_parse _ := inl "no size"%string;
  percent_decode := inr;
}.

#[global] Instance sample_crate_laws : CrateLaws.
Proof. by split; [intros u l [= <-]|intros []|intros []|]. Qed.

(** ** An SPDK, with the answers to a request for an FTL or NVMe bdev *)

Section Lib.
Variables (ftl : Z + answer) (nvme : answer * string).

Definition new_bdev (drv : string) (bs nb : Z) : bdev_info := mkBdev drv "nil" [] bs nb.

Definition sample_find (s : gmap string bdev_info) (n : string) : option string :=
  match s !! n with
  | Some _ => Some n
  | None => fst <$> head (filter (λ x : string * bdev_info, n ∈ aliases x.2) (map_to_list s))
  end.

Definition sample_add_alias (b a : string) (s : gmap string bdev_info) : gmap string bdev_info * bool :=
  match sample_find s a with None => (alter (with_alias a) b s, true) | Some _ => (s, false) end.

Definition sample_remove_alias (b a : string) (s : gmap string bdev_info) : gmap string bdev_info :=
  alter (λ i, mkBdev (driver i) (uuid i) (filter (.≠ a) (aliases i)) (block_len i) (num_blocks i)) b s.

Definition sample_delete (k : Kind) (b : string) (s : gmap string bdev_info) : gmap string bdev_info * answer :=
  match s !! b with
  | Some i => if bool_decide (driver i = kind_driver k) then (delete b s, Done None) else (s, Done (Some ENODEV))
  | None => (s, Done (Some ENODEV))
  end.

Definition sample_resize (n : string) (mb : Z) (s : gmap string bdev_info) : gmap string bdev_info * Z :=
  (alter (λ i, mkBdev (driver i) (uuid i) (aliases i) (block_len i) (mb * 2^20 / block_len i)) n s, 0).

Definition sample_spdk : Spdk := {|
  spdk := gmap string bdev_info;
  bdevs s := s;
  bdev_get_by_name := sample_find;
  set_raw_uuid b x := alter (set_uuid x) b;
  bdev_add_alias := sample_add_alias;
  bdev_remove_alias := sample_remove_alias;
  create_aio_bdev n bs s := (<[n := new_bdev "aio" bs 0]> s, 0);
  bdev_aio_rescan n s := (s, 0);
  create_malloc_disk n nb bs s := (<[n := new_bdev "malloc" bs nb]> s, 0);
  resize_malloc_disk := sample_resize;
  bdev_null_create n nb bs s := (<[n := new_bdev "null" bs nb]> s, 0);
  create_uring_bdev n bs s := (s, None);
  bdev_ftl_create n _ _ s := (s, ftl);
  bdev_nvme_create n s := (s, inr nvme);
  bdev_delete := sample_delete;
  is_nil x := bool_decide (x = "nil"%string);
|}.

#[local] Existing Instance sample_spdk.

Lemma sample_spdk_laws : SpdkLaws.
Proof.
  split; simpl; try done.
  - intros s n i H. unfold sample_find. by rewrite H.
  - intros b a s s' ok. unfold sample_add_alias. by destruct (sample_find s a); intros [= <- <-].
  - intros n bs s s' rc _ [= <- <-]. simpl. by eexists (new_bdev _ _ _).
  - intros n nb bs s s' rc _ [= <- <-]. simpl. by eexists (new_bdev _ _ _).
  - intros n nb bs s s' rc _ [= <- <-]. simpl. by eexists (new_bdev _ _ _).
  - intros n bs s s' o _ [= <- <-]. done.
  - intros k b s s' a _. unfold sample_delete. destruct (s !! b); [case_bool_decide|]; intros [= <- <-]; auto.
  - by intros n s s' rc [= <- <-].
  - intros n mb s s' rc [= <- <-]. apply dom_alter_L.
Qed.

(** The other components refuse. *)
Definition sample_components : Components := {|
  nvmf_create _ s := (s, Panicked);
  nvmf_destroy _ s := (s, Panicked);
  nexus_create _ _ _ s := (s, Err ""%string);
  nexus_exists _ _ := false;
  nexus_destroy _ s := (s, Err ""%string);
  lvol_create _ s := (s, Panicked);
  lvol_destroy _ s := (s, Panicked);
|}.
End Lib.

Definition host : Host := mkHost (λ _, false) (λ _, true) (λ _, inr None) (λ _, false) "random".

(** An SPDK that creates FTL bdevs asynchronously and fails, and has a controller
    without namespaces. *)
#[local] Instance S0 : Spdk := sample_spdk (inr (Done (Some EIO))) (Done None, ""%string).
#[local] Instance L0 : SpdkLaws := sample_spdk_laws _ _.
#[local] Instance C0 : Components := sample_components _ _.

Definition empty : World := mkWorld (SP := S0) ∅ [].
Definition made_disk : World := fst (bdev_create (SP := S0) host 1 (text Disk) empty).
Definition gone_disk : World := fst (bdev_destroy (SP := S0) host 1 (text Disk) made_disk).

Definition disk_bdev : bdev_info := mkBdev "malloc" "u0" [text Disk] 4096 16384.

Lemma pair_eq {A B} (p : A * B) b : snd p = b → p = (fst p, b).
Proof. by destruct p; intros <-. Qed.

Lemma uri_device_round_trip_witness :
  bdevs (lib made_disk) = <["m0"%string := disk_bdev]> ∅ ∧ bdevs (lib gone_disk) = ∅ ∧
  geometry (parameters Disk) 4096 16384.
Proof.
  pose proof (uri_device_round_trip host 0 (text Disk) empty made_disk (Ok "m0"%string) (pair_eq _ _ ltac:(by vm_compute))) as H.
  assert (match parse host (text Disk) with Ok d => kind_of d | _ => None end = Some KMalloc) as Hk by by vm_compute.
  assert (∀ d, parse host (text Disk) = Ok d → sized d Disk disk_bdev = geometry (parameters Disk) 4096 16384) as Hz.
  { intros d Hd. rewrite Hd in Hk. destruct d; first [discriminate Hk|reflexivity]. }
  destruct (parse host (text Disk)) as [d|e|] eqn:Hp; [|done..].
  destruct (H KMalloc Hk) as (u & Hu & _ & Hn & _). change (inr Disk = inr (A := string) u) in Hu. injection Hu as <-.
  destruct (Hn ltac:(by vm_compute)) as (i & Hm & _ & Hs & _ & _ & Hd).
  assert (bdevs (lib made_disk) = <["m0"%string := disk_bdev]> ∅) as Hm' by by vm_compute.
  assert (i = disk_bdev) as ->. { rewrite Hm in Hm'. apply (f_equal (.!! "m0"%string)) in Hm'. rewrite !lookup_insert_eq in Hm'. congruence. }
  split_and!; [done| |by rewrite <- (Hz d)]. apply (Hd host 0%nat gone_disk), pair_eq. by vm_compute.
Defined.

(** ** The edges *)

(** 2^44 + 1 MiB are 1 MiB. *)
Lemma size_in_mib_wraps :
  match parse host (text Huge) with Ok (DevMalloc d) => Some (m_num_blocks d, m_blk_size d) | _ => None end = Some (2048, 512).
Proof. by vm_compute. Qed.

(** A resize is rounded down to MiB. *)
Definition resized_disk : World := fst (bdev_create (SP := S0) host 1 (text Tiny) made_disk).

Lemma resize_rounds_down : num_blocks <$> bdevs (lib resized_disk) !! "m0"%string = Some 0.
Proof. by vm_compute. Qed.

(** A null device needs no size. *)
Definition null_disk : World := fst (bdev_create (SP := S0) host 1 (text Zero) empty).

Lemma null_device_without_blocks : num_blocks <$> bdevs (lib null_disk) !! "n0"%string = Some 0.
Proof. by vm_compute. Qed.

(** An FTL device that fails after the call has returned leaves the devices below
    it behind. *)
Definition failed_ftl : World * outcome Bdev.Error string := bdev_create (SP := S0) host 2 (text Layered) empty.

Lemma late_ftl_failure_leaves_devices :
  snd failed_ftl = Err (Bdev.CreateBdevFailed EIO "f0") ∧
  is_Some (bdevs (lib (fst failed_ftl)) !! "m0"%string) ∧ is_Some (bdevs (lib (fst failed_ftl)) !! "n0"%string).
Proof. split_and!; [by vm_compute|vm_compute; eauto|vm_compute; eauto]. Qed.

(** An NVMe controller without a namespace panics. *)
Lemma controller_without_namespace_panics : snd (bdev_create (SP := S0) host 1 (text Pci) empty) = Panicked.
Proof. by vm_compute. Qed.

(** Two users of a loopback device share one alias, which the first one to leave
    takes away. *)
Definition two_users : World := fst (bdev_create (SP := S0) host 1 (text Loop) (fst (bdev_create (SP := S0) host 1 (text Loop) made_disk))).
Definition one_user : World := fst (bdev_destroy (SP := S0) host 1 (text Loop) two_users).

Lemma loopback_alias_is_shared :
  bdev_get_by_name (lib two_users) (text Loop) = Some "m0"%string ∧ bdev_get_by_name (lib one_user) (text Loop) = None.
Proof. split; by vm_compute. Qed.

(** What SPDK refuses to create is reported as not found. *)
Lemma uring_failure_is_not_found : snd (bdev_create (SP := S0) host 1 (text Ring) empty) = Err (Bdev.NotFound "/dev/sda").
Proof. by vm_compute. Qed.

End UriSample.
