(* ===== verification/LvsUri.v ===== *)
(** * Volumes from URIs

    [bdev/lvs.rs]: a URI of the scheme [lvol] names a volume and the pool it is on,
    which is created, imported or wiped first, as its mode says.  The parsers are
    in [BdevUri]; this is what such a device does when it is created and destroyed,
    on the pools of [LvsStore]. *)

From Stdlib Require Import Ascii String.
From S2P Require Import Prelude Text Wp Errors NexusErrors LvsErrors LvsLvol LvsStore BdevUri.
Import LvsErr Lvol Lvs.

#[local] Open Scope Z_scope.

Module LvsUri.

Section Ops.
Context `{PO : Pools} (env : PoolEnv).

(** The rounds and the metadata ratio of pool creation, the text of an error, and
    the wipe of the first 8 MiB of a bdev: opening it or writing may fail. *)
Variables (rounds : nat) (md_ratio : Z → outcome LvsError Z) (to_string : LvsError → string)
          (wipe : string → spdk → spdk * option Bdev.Error).

Notation M := (ST World Bdev.Error).

Definition or_str {A} (err : string → Bdev.Error) (m : ST World LvsError A) : M A := ST.with_err (λ e, err (to_string e)) m.

Definition pool_args (u : Uri.LvsUri) : PoolArgs := mkPoolArgs (Uri.lu_name u) [Uri.lu_disk u] None None None None.

(** [Lvs::wipe_super]: the bdev stays, for the creation of the pool. *)
Definition wipe_super (args : PoolArgs) : M unit :=
  disk ← ST.lift (map_err (λ _, Bdev.InvalidUri "" "") (parse_disk (pa_disks args)));
  r ← spdk_call (bdev_create disk);
  bdev ← ST.lift r;
  b ← lookup_bdev bdev;
  match b with
  | None => ST.fail (Bdev.NotFound bdev)
  | Some _ => o ← spdk_call (wipe bdev); match o with Some e => ST.fail e | None => mret tt end
  end.

(** [Lvs::create]: a fresh pool is refused if the import does anything else than
    fail as an import. *)
Definition lvs_create (u : Uri.LvsUri) : M nat :=
  let args := pool_args u in
  let failed := or_str (λ e, Bdev.CreateBdevFailedStr (Uri.lu_name u) e) in
  match Uri.lu_mode u with
  | Uri.Create =>
      r ← ST.try (import_from_args env rounds args);
      match r with
      | Err (Import _ _ _) => failed (create_or_import env rounds md_ratio args)
      | _ => ST.fail (Bdev.BdevExists (Uri.lu_name u))
      end
  | Uri.Import => failed (import_from_args env rounds args)
  | Uri.CreateOrImport => failed (create_or_import env rounds md_ratio args)
  | Uri.Purge => wipe_super args;; failed (create_or_import env rounds md_ratio args)
  end.

(** [Lvs::destroy_lvol]: a volume that does not exist is fine. *)
Definition destroy_lvol (u : Uri.LvsUri) (name : string) : M unit :=
  st ← lookup (Uri.lu_name u);
  match st with
  | None => ST.fail (Bdev.NotFound (Uri.lu_name u))
  | Some st =>
      l ← spdk_get (λ s, snd <$> list_find (λ l, bdev_name <$> lvols s !! l = Some name) (lvs_lvols s st));
      match l with
      | None => mret tt
      | Some l => or_str (λ e, Bdev.DestroyBdevFailedStr (Uri.lu_name u) e) (on_spdk (destroy l));; mret tt
      end
  end.

(** [Lvs::destroy] *)
Definition lvs_destroy (u : Uri.LvsUri) : M unit :=
  st ← lookup (Uri.lu_name u);
  match st with
  | None => ST.fail (Bdev.NotFound (Uri.lu_name u))
  | Some st => or_str (λ e, Bdev.DestroyBdevFailedStr (Uri.lu_name u) e) (destroy_pool st)
  end.

(** [CreateDestroy for Lvol]: a volume of the name is replaced. *)
Definition lvol_create (u : Uri.LvolUri) : M string :=
  st ← lvs_create (Uri.lv_lvs u);
  ST.try (E := Bdev.Error) (destroy_lvol (Uri.lv_lvs u) (Uri.lv_name u));;
  or_str (λ e, Bdev.CreateBdevFailedStr (Uri.lv_name u) e)
    (create_lvol_with_opts st (mkReplicaArgs (Uri.lv_name u) (Uri.lv_size u) "" false None None true));;
  mret (Uri.lv_name u).

Definition lvol_destroy (u : Uri.LvolUri) : M unit :=
  destroy_lvol (Uri.lv_lvs u) (Uri.lv_name u);; lvs_destroy (Uri.lv_lvs u).

(** ** Facts *)

(** A pool that is to be created but can be imported is refused, and stays
    imported. *)
Lemma refused_pool_stays_imported u w w' st :
  Uri.lu_mode u = Uri.Create → import_from_args env rounds (pool_args u) w = (w', Ok st) →
  lvs_create u w = (w', Err (Bdev.BdevExists (Uri.lu_name u))).
Proof. intros Hm Hi. unfold lvs_create, mbind, ST_bind, ST.try. by rewrite Hm, Hi. Qed.

(** The error of a pool that can be neither imported nor created is taken for an
    existing pool. *)
Lemma other_errors_are_exists u w w' e :
  Uri.lu_mode u = Uri.Create → import_from_args env rounds (pool_args u) w = (w', Err e) → (∀ s n r, e ≠ Import s n r) →
  lvs_create u w = (w', Err (Bdev.BdevExists (Uri.lu_name u))).
Proof. intros Hm Hi He. unfold lvs_create, mbind, ST_bind, ST.try. rewrite Hm, Hi. destruct e; try done. by destruct (He source name reason). Qed.

End Ops.
End LvsUri.
