(* ===== verification/Crypto.v ===== *)
(** * Encrypting bdevs and their keys

    [bdev/crypto.rs]: an encrypting bdev is made on a base bdev with a key.  Keys
    are shared by name and live as long as a bdev uses them; who uses which key is
    recorded in a map.  What is proved: the key of every encrypting bdev that exists
    is there, in every order of creations and destructions that the callers can
    make. *)

From Stdlib Require Import Ascii String.
From S2P Require Import Prelude Text Wp Errors.

#[local] Open Scope Z_scope.

Module Crypto.

Inductive Cipher := AesCbc | AesXts.

#[global] Instance Cipher_eq_dec : EqDecision Cipher.
Proof. solve_decision. Defined.

(** [Display for Cipher] *)
Definition show_cipher (c : Cipher) : string := match c with AesCbc => "AES_CBC" | AesXts => "AES_XTS" end.

Record EncryptionKey := mkKey {
  cipher : Cipher;
  key_name : string;
  key : string;
  key_len : Z;
  key2 : option string;
  key2_len : option Z;
}.

(** SPDK's keys and encrypting bdevs.  [delete_crypto_disk] answers by a
    callback. *)
Class Accel := {
  spdk : Type;
  (** The cipher and key material by name *)
  keys : spdk → gmap string (string * string * option string);
  (** The key of each encrypting bdev *)
  disks : spdk → gmap string string;
  crypto_key_create : string → string → string → option string → spdk → spdk * Z;
  crypto_key_destroy : string → spdk → spdk * Z;
  create_crypto_disk : string → string → string → spdk → spdk * Z;
  delete_crypto_disk : string → spdk → spdk * Z;
  (** Which key [find_key_for_crypto_vbdev] meets first in the hash map *)
  iteration : gmap string (gset string) → list (string * gset string);
}.

Section Ops.
Context {AC : Accel}.

(** SPDK, and [KEY_CRYPTO_VBDEV_MAP] *)
Record World := mkWorld { lib : spdk; users : gmap string (gset string) }.

Notation M := (ST World Bdev.Error).

Definition call {A} (f : spdk → spdk * A) : M A := λ w, let '(s, a) := f (lib w) in (mkWorld s (users w), Ok a).
Definition set_users (x : gmap string (gset string)) (w : World) : World := mkWorld (lib w) x.

(** [create_crypto_key]: a key of the name that exists is used as it is. *)
Definition create_crypto_key (k : EncryptionKey) : M unit :=
  ST.lift (into_cstring (key k));;
  ST.lift (into_cstring (key_name k));;
  ST.lift (match key2 k with Some k2 => into_cstring k2 | None => Ok ""%string end);;
  w ← ST.get;
  match keys (lib w) !! key_name k with
  | Some _ => mret tt
  | None =>
      ret ← call (crypto_key_create (key_name k) (show_cipher (cipher k)) (key k) (key2 k));
      if ret =? 0 then mret tt else ST.fail (Bdev.CreateBdevFailed (errno_from_raw (Z.abs ret)) "Key create failed")
  end.

(** [add_key_user] *)
Definition add_key_user (k : EncryptionKey) (vbdev : string) : M unit :=
  create_crypto_key k;;
  ST.modify (λ w, set_users (<[key_name k := {[vbdev]} ∪ default ∅ (users w !! key_name k)]> (users w)) w).

(** [remove_key_user]: a key that cannot be destroyed keeps its entry. *)
Definition remove_key_user (k vbdev : string) : M unit :=
  w ← ST.get;
  match users w !! k with
  | None => mret tt
  | Some us =>
      let us := us ∖ {[vbdev]} in
      ST.modify (set_users (<[k := us]> (users w)));;
      if bool_decide (us = ∅) then
        w ← ST.get;
        err ← match keys (lib w) !! k with None => mret 0 | Some _ => call (crypto_key_destroy k) end;
        if err =? 0 then ST.modify (λ w, set_users (delete k (users w)) w) else mret tt
      else mret tt
  end.

(** [find_key_for_crypto_vbdev] *)
Definition find_key_for_crypto_vbdev (vbdev : string) (w : World) : option string :=
  fst <$> (snd <$> list_find (λ x : string * gset string, vbdev ∈ x.2) (iteration (users w))).

(** [purge_empty_keys] *)
Definition purge_empty_keys (w : World) : World := set_users (filter (λ x : string * gset string, x.2 ≠ ∅) (users w)) w.

(** [create_crypto_vbdev_on_base_bdev]: the errno of SPDK is negative, and is not
    turned around. *)
Definition create_crypto_vbdev_on_base_bdev (vbdev base : string) (k : EncryptionKey) : M unit :=
  add_key_user k vbdev;;
  ST.lift (into_cstring vbdev);;
  ST.lift (into_cstring base);;
  ret ← call (create_crypto_disk vbdev base (key_name k));
  if ret =? 0 then mret tt else ST.fail (Bdev.CreateBdevFailed (errno_from_raw ret) vbdev).

(** [destroy_crypto_vbdev] up to the await, and after it *)
Definition destroy_start (vbdev : string) : M Z :=
  ST.lift (into_cstring vbdev);; call (delete_crypto_disk vbdev).

Definition destroy_end (vbdev : string) (key_name : option string) (errno : Z) : M unit :=
  if negb (errno =? 0) then ST.fail (Bdev.DestroyBdevFailed (errno_from_raw errno) vbdev)
  else
    w ← ST.get;
    match (match key_name with Some k => Some k | None => find_key_for_crypto_vbdev vbdev w end) with
    | None => mret tt
    | Some k => remove_key_user k vbdev
    end.

Definition destroy_crypto_vbdev (vbdev : string) (key_name : option string) : M unit :=
  errno ← destroy_start vbdev; destroy_end vbdev key_name errno.

(** ** Requests of several callers

    A destruction waits for its callback; meanwhile other requests are served.  A
    caller does not create a bdev whose destruction it waits for. *)

Record Pending := mkPending { p_vbdev : string; p_key : option string; p_errno : Z }.

Inductive request :=
| Create (vbdev base : string) (k : EncryptionKey)
| DestroyStart (vbdev : string) (key_name : option string)
| DestroyEnd (i : nat).

(** The requests that are served; one that is not possible is left out. *)
Definition serve (r : request) (s : World * list Pending) : World * list Pending :=
  let '(w, ps) := s in
  match r with
  | Create v b k =>
      if bool_decide (v ∈ p_vbdev <$> ps) then s else (fst (create_crypto_vbdev_on_base_bdev v b k w), ps)
  | DestroyStart v k =>
      match destroy_start v w with
      | (w', Ok e) => (w', ps ++ [mkPending v k e])
      | (w', _) => (w', ps)
      end
  | DestroyEnd i =>
      match ps !! i with
      | Some p => (fst (destroy_end (p_vbdev p) (p_key p) (p_errno p) w), delete i ps)
      | None => s
      end
  end.

End Ops.
End Crypto.

(** ** Keys in use are kept *)

Module CryptoProps.
Import Crypto.

Class AccelLaws {AC : Accel} := {
  key_create_law n c k k2 s s' rc : crypto_key_create n c k k2 s = (s', rc) →
    disks s' = disks s ∧ keys s' = if rc =? 0 then <[n := (c, k, k2)]> (keys s) else keys s;
  key_destroy_law n s s' rc : crypto_key_destroy n s = (s', rc) →
    disks s' = disks s ∧ keys s' = if rc =? 0 then delete n (keys s) else keys s;
  disk_create_law v b k s s' rc : create_crypto_disk v b k s = (s', rc) →
    keys s' = keys s ∧ disks s' = if rc =? 0 then <[v := k]> (disks s) else disks s;
  (** Once the callback reports success the bdev is gone. *)
  disk_delete_law v s s' rc : delete_crypto_disk v s = (s', rc) →
    keys s' = keys s ∧ disks s' = if rc =? 0 then delete v (disks s) else disks s;
}.

Section Props.
Context `{AL : AccelLaws}.
Implicit Types (w : World) (ps : list Pending) (v : string).

(** An encrypting bdev is recorded as a user of its key, and the key is there. *)
Definition keyed w : Prop :=
  ∀ v k, disks (lib w) !! v = Some k → is_Some (keys (lib w) !! k) ∧ ∃ us, users w !! k = Some us ∧ v ∈ us.

Lemma wp_crypto_call {A} (f : spdk → spdk * A) w (Q : outcome Bdev.Error A → World → Prop) :
  (∀ s a, f (lib w) = (s, a) → Q (Ok a) (mkWorld s (users w))) → wp (call f) Q w.
Proof. intros H. unfold wp, call. destruct (f (lib w)) eqn:E. auto. Qed.

Lemma wp_cstring (s : string) (Q : outcome Bdev.Error string → World → Prop) w :
  Q (Ok s) w → Q Panicked w → wp (ST.lift (into_cstring s)) Q w.
Proof. intros. apply wp_lift. unfold into_cstring. by destruct (has NUL s). Qed.

Lemma create_key_wp k w :
  keyed w → wp (create_crypto_key k) (λ r w', keyed w' ∧ users w' = users w ∧ disks (lib w') = disks (lib w) ∧
    (r = Ok tt → is_Some (keys (lib w') !! key_name k))) w.
Proof.
  intros H. unfold create_crypto_key. wp_step. apply wp_cstring; [|done]. wp_step. apply wp_cstring; [|done].
  wp_step. wp_step. destruct (match key2 k with Some k2 => into_cstring k2 | None => Ok ""%string end) as [x|e|]; [|done..].
  wp_step. wp_step. destruct (keys (lib w) !! key_name k) as [m|] eqn:Hk; [wp_step; eauto 6|].
  wp_step. apply wp_crypto_call. intros s rc E. apply key_create_law in E as [Hd Hks].
  assert (keyed (mkWorld s (users w))) as Hkeyed.
  { intros v k' Hv. simpl in *. rewrite Hd in Hv. destruct (H _ _ Hv) as [Hs ?]. split; [|done]. rewrite Hks. destruct (rc =? 0); [|done].
    destruct (decide (key_name k = k')) as [->|]; [rewrite lookup_insert_eq|rewrite lookup_insert_ne]; eauto. }
  destruct (rc =? 0); wp_step; simpl; split_and!; try done. intros _. rewrite Hks, lookup_insert_eq. eauto.
Qed.

(** Adding users keeps what is keyed. *)
Lemma add_user_keyed w k v :
  keyed w → keyed (set_users (<[k := {[v]} ∪ default ∅ (users w !! k)]> (users w)) w).
Proof.
  intros H v' k' Hv. destruct (H _ _ Hv) as [Hk (us & Hus & Hin)]. split; [done|]. simpl.
  destruct (decide (k = k')) as [->|]; [rewrite lookup_insert_eq|rewrite lookup_insert_ne]; eauto.
  eexists. split; [done|]. rewrite Hus. set_solver.
Qed.

Lemma wp_post {A} (m : ST World Bdev.Error A) (Q : World → Prop) w : wp m (λ _ w', Q w') w → Q (fst (m w)).
Proof. unfold wp. by destruct (m w). Qed.

Lemma create_wp v b k w :
  keyed w → wp (create_crypto_vbdev_on_base_bdev v b k)
    (λ _ w', keyed w' ∧ ∀ v', v ≠ v' → disks (lib w) !! v' = None → disks (lib w') !! v' = None) w.
Proof.
  intros H. unfold create_crypto_vbdev_on_base_bdev, add_key_user. wp_step. wp_step.
  eapply wp_mono; [by apply create_key_wp|]. intros [[]|e|] w1 (H1 & _ & Hd1 & Hk); [|by rewrite Hd1..]. specialize (Hk eq_refl).
  wp_step. pose proof (add_user_keyed w1 (key_name k) v H1) as H2. set (w2 := set_users _ w1) in *.
  assert (∃ us, users w2 !! key_name k = Some us ∧ v ∈ us) as Hu.
  { simpl. rewrite lookup_insert_eq. eexists. split; [done|]. set_solver. }
  change (lib w1) with (lib w2) in Hk, Hd1. clearbody w2. rewrite <- Hd1.
  wp_step. apply wp_cstring; [|done]. wp_step. apply wp_cstring; [|done]. wp_step. apply wp_crypto_call. intros s rc E.
  apply disk_create_law in E as [Hks Hd]. destruct (rc =? 0); wp_step; unfold keyed; simpl; rewrite Hks, Hd; [|done].
  split; [|by intros v' Hne ?; rewrite lookup_insert_ne]. intros v' k' Hv.
  destruct (decide (v = v')) as [->|]; [rewrite lookup_insert_eq in Hv; by simplify_eq|rewrite lookup_insert_ne in Hv by done; by apply H2].
Qed.

Lemma remove_wp k v w : keyed w → disks (lib w) !! v = None → wp (remove_key_user k v) (λ _ w', keyed w' ∧ disks (lib w') = disks (lib w)) w.
Proof.
  intros H Hv. unfold remove_key_user. wp_step. wp_step. destruct (users w !! k) as [us|] eqn:Hus; [|by wp_step].
  wp_step. wp_step. set (w1 := set_users _ w).
  assert (∀ v' k', disks (lib w) !! v' = Some k' → is_Some (keys (lib w) !! k') ∧
    ∃ us', users w1 !! k' = Some us' ∧ v' ∈ us') as Hk1.
  { intros v' k' Hv'. destruct (H _ _ Hv') as (Hs & us' & Hus' & Hin). split; [done|]. simpl.
    destruct (decide (k = k')) as [->|]; [rewrite lookup_insert_eq|rewrite lookup_insert_ne]; eauto.
    eexists. split; [done|]. assert (v' ≠ v) by congruence. assert (us' = us) as -> by congruence. set_solver. }
  case_bool_decide as Hemp; [|by wp_step].
  assert (∀ v' k', disks (lib w) !! v' = Some k' → k' ≠ k) as Hne.
  { intros v' k' Hv' ->. destruct (Hk1 _ _ Hv') as (_ & us' & Hus' & Hin). simpl in Hus'. rewrite lookup_insert_eq in Hus'. set_solver. }
  wp_step. wp_step. wp_step.
  assert (∀ s rc, (∀ k', k' ≠ k → keys s !! k' = keys (lib w) !! k') → disks s = disks (lib w) →
    wp (if rc =? 0 then ST.modify (λ w, set_users (delete k (users w)) w) else mret tt)
       (λ (_ : outcome Bdev.Error unit) w', keyed w' ∧ disks (lib w') = disks (lib w)) (mkWorld s (users w1))) as Hend.
  { intros s rc Hks Hd. destruct (rc =? 0); wp_step; split; try done; intros v' k' Hv'; simpl in *; rewrite Hd in Hv';
      rewrite Hks by eauto; destruct (Hk1 _ _ Hv') as (? & us' & ? & ?); [|eauto]. split; [done|].
    exists us'. by rewrite lookup_delete_ne by (apply not_eq_sym; eauto). }
  destruct (keys (lib w1) !! k) as [m|] eqn:Hm; [|wp_step; by apply (Hend (lib w) 0)].
  apply wp_crypto_call. intros s rc E. apply key_destroy_law in E as [Hd Hks]. apply Hend; [|done]. intros k' Hk'. rewrite Hks.
  destruct (rc =? 0); [by rewrite lookup_delete_ne|done].
Qed.

Lemma destroy_start_wp v w :
  keyed w → wp (destroy_start v) (λ r w', keyed w' ∧ (∀ v', disks (lib w) !! v' = None → disks (lib w') !! v' = None) ∧
                                          (r = Ok 0 → disks (lib w') !! v = None)) w.
Proof.
  intros H. unfold destroy_start. wp_step. apply wp_cstring; [|done]. apply wp_crypto_call. intros s rc E.
  apply disk_delete_law in E as [Hks Hd]. unfold keyed. simpl. rewrite Hks, Hd. destruct (Z.eqb_spec rc 0) as [->|]; split_and!.
  - intros v' k' [_ Hv']%lookup_delete_Some. by apply H.
  - intros v' ?. by apply lookup_delete_None; right.
  - intros _. apply lookup_delete_eq.
  - exact H.
  - done.
  - by intros [= ->].
Qed.

Lemma destroy_end_wp v k e w :
  keyed w → (e = 0 → disks (lib w) !! v = None) → wp (destroy_end v k e) (λ _ w', keyed w' ∧ disks (lib w') = disks (lib w)) w.
Proof.
  intros H Hv. unfold destroy_end. destruct (Z.eqb_spec e 0); simpl; [|by wp_step]. wp_step. wp_step.
  destruct (match k with Some k => Some k | None => _ end); [|by wp_step]. by apply remove_wp; [|apply Hv].
Qed.

(** What is pending has been deleted. *)
Definition served (s : World * list Pending) : Prop :=
  keyed (fst s) ∧ Forall (λ p, p_errno p = 0 → disks (lib (fst s)) !! p_vbdev p = None) (snd s).

Lemma serve_served r s : served s → served (serve r s).
Proof.
  destruct s as [w ps]. intros [H Hps]. destruct r as [v b k|v k|i]; simpl.
  - case_bool_decide as Hin; [done|]. destruct (wp_post _ _ _ (create_wp v b k w H)) as [H' Hd]. split; [done|]. simpl in *.
    apply Forall_forall. intros p Hp He. apply Hd; [|by eapply Forall_forall in Hps; eauto].
    intros ->. apply Hin. by apply list_elem_of_fmap_2.
  - pose proof (destroy_start_wp v w H) as Hw. unfold wp in Hw. destruct (destroy_start v w) as [w' r]. destruct Hw as (H' & Hd & Hv).
    assert (Forall (λ p, p_errno p = 0 → disks (lib w') !! p_vbdev p = None) ps) as Hps'.
    { eapply Forall_impl; [exact Hps|]. intros p Hp He. by apply Hd, Hp. }
    destruct r as [e| |]; split; try done. apply Forall_app. split; [done|]. constructor; [|done]. simpl. intros ->. by apply Hv.
  - destruct (ps !! i) as [p|] eqn:Hp; [|done]. pose proof (Forall_lookup_1 _ _ _ _ Hps Hp) as Hpd.
    destruct (wp_post _ _ _ (destroy_end_wp _ (p_key p) _ w H Hpd)) as [H' Hd]. split; [done|]. simpl in *. rewrite Hd.
    by apply Forall_delete.
Qed.

(** C28.  Whatever requests to create and destroy encrypting bdevs are made and
    however SPDK answers them, with destructions that wait while others are served:
    the key of every encrypting bdev exists, and the bdev is recorded as its user,
    as long as no bdev is created while its destruction is being waited for. *)
Theorem keys_in_use_are_kept rs w v k :
  (∀ v, disks (lib w) !! v = None) →
  disks (lib (fst (foldl (λ s r, serve r s) (w, []) rs))) !! v = Some k →
  is_Some (keys (lib (fst (foldl (λ s r, serve r s) (w, []) rs))) !! k) ∧
  ∃ us, users (fst (foldl (λ s r, serve r s) (w, []) rs)) !! k = Some us ∧ v ∈ us.
Proof.
  intros Hw. assert (served (foldl (λ s r, serve r s) (w, []) rs)) as [H _]; [|by apply H].
  assert (served (w, [])) as H0. { split; [|done]. intros ?? Hv. simpl in Hv. by rewrite Hw in Hv. }
  generalize dependent ((w, []) : World * list Pending). induction rs as [|r rs IH]; intros s Hs; [done|]. by apply IH, serve_served.
Qed.

End Props.
End CryptoProps.

(** ** A concrete SPDK, and what happens at the edges *)

Module CryptoSample.
Import Crypto CryptoProps.

Record lib_state := mkLib { ks : gmap string (string * string * option string); ds : gmap string string }.

Definition s_key_create n c k k2 (s : lib_state) : lib_state * Z := (mkLib (<[n := (c, k, k2)]> (ks s)) (ds s), 0).
Definition s_key_destroy n (s : lib_state) : lib_state * Z := (mkLib (delete n (ks s)) (ds s), 0).
Definition s_create (v b k : string) (s : lib_state) : lib_state * Z :=
  match ds s !! v with Some _ => (s, -17) | None => (mkLib (ks s) (<[v := k]> (ds s)), 0) end.
Definition s_delete v (s : lib_state) : lib_state * Z :=
  match ds s !! v with Some _ => (mkLib (ks s) (delete v (ds s)), 0) | None => (s, -19) end.

#[local] Instance sample_accel : Accel := {|
  spdk := lib_state; keys := ks; disks := ds;
  crypto_key_create := s_key_create; crypto_key_destroy := s_key_destroy;
  create_crypto_disk := s_create; delete_crypto_disk := s_delete;
  iteration := map_to_list;
|}.

#[local] Instance sample_accel_laws : AccelLaws.
Proof.
  split; simpl.
  - by intros n c k k2 s s' rc [= <- <-].
  - by intros n s s' rc [= <- <-].
  - intros v b k s s' rc. unfold s_create. by destruct (ds s !! v); intros [= <- <-].
  - intros v s s' rc. unfold s_delete. by destruct (ds s !! v); intros [= <- <-].
Qed.

Definition empty : World := mkWorld (mkLib ∅ ∅) ∅.
Definition key_a : EncryptionKey := mkKey AesXts "k" "aa" 2 (Some "bb"%string) (Some 2).
Definition key_b : EncryptionKey := mkKey AesXts "k" "cc" 2 (Some "dd"%string) (Some 2).

Definition requests : list request :=
  [Create "c1" "b1" key_a; Create "c2" "b2" key_a; DestroyStart "c1" None; Create "c1" "b1" key_a; DestroyEnd 0].
Definition after : World := fst (foldl (λ s r, serve r s) (empty, []) requests).

Lemma keys_in_use_are_kept_witness : disks (lib after) !! "c2"%string = Some "k"%string ∧ is_Some (keys (lib after) !! "k"%string).
Proof. split; [by vm_compute|]. apply (keys_in_use_are_kept requests empty "c2" "k"); [intros v; apply lookup_empty|by vm_compute]. Defined.

(** Another key of the same name is not created; the bdev is encrypted with the
    first one. *)
Definition two_keys : World := fst (create_crypto_vbdev_on_base_bdev "c2" "b2" key_b (fst (create_crypto_vbdev_on_base_bdev "c1" "b1" key_a empty))).

Lemma key_of_other_material_is_used :
  disks (lib two_keys) !! "c2"%string = Some "k"%string ∧
  keys (lib two_keys) !! "k"%string = Some ("AES_XTS"%string, "aa"%string, Some "bb"%string).
Proof. by vm_compute. Qed.

(** A creation that fails leaves its user behind and reports an unknown errno. *)
Definition busy : World := mkWorld (mkLib ∅ {["c1"%string := "other"%string]}) ∅.

Lemma failed_creation_keeps_user :
  snd (create_crypto_vbdev_on_base_bdev "c1" "b1" key_a busy) = Err (Bdev.CreateBdevFailed UnknownErrno "c1") ∧
  users (fst (create_crypto_vbdev_on_base_bdev "c1" "b1" key_a busy)) !! "k"%string = Some {["c1"%string]}.
Proof. split; by vm_compute. Qed.

(** The bdev that is gone already is an error, and stays a user. *)
Definition vanished : World := mkWorld (mkLib ∅ ∅) {["k"%string := {["c1"%string]}]}.

Lemma vanished_bdev_stays_user :
  snd (destroy_crypto_vbdev "c1" None vanished) = Err (Bdev.DestroyBdevFailed UnknownErrno "c1") ∧
  users (fst (destroy_crypto_vbdev "c1" None vanished)) = users vanished.
Proof. split; by vm_compute. Qed.

(** A bdev that is created again while its destruction is being waited for loses
    its key. *)
Definition recreated : World :=
  fst (destroy_end "c1" None 0 (fst (create_crypto_vbdev_on_base_bdev "c1" "b1" key_a
    (fst (destroy_start "c1" (fst (create_crypto_vbdev_on_base_bdev "c1" "b1" key_a empty))))))).

Lemma recreated_bdev_loses_its_key : disks (lib recreated) !! "c1"%string = Some "k"%string ∧ keys (lib recreated) !! "k"%string = None.
Proof. split; by vm_compute. Qed.

End CryptoSample.
