(* ===== verification/BlockDevice.v ===== *)
(** * Local block devices

    [bdev/device.rs]: I/O on a bdev of SPDK through the interface of block devices,
    with contexts from a pool and callbacks, and the events of bdevs; and
    [core/handle.rs]: I/O on a handle that is awaited.

    What is proved: the callback of every I/O that was accepted is called once, with
    its device and with the status SPDK reports, and that of a refused I/O never. *)

From Stdlib Require Import Ascii String.
From S2P Require Import Prelude Text Wp Errors DeviceEvents IoLog RebuildCopy.

#[local] Open Scope Z_scope.

Module BlockDev.

(** [IoCtx]; a callback is known by its argument. *)
Record IoCtx := mkIoCtx { device : string; cb : nat }.

(** The pool of contexts, the I/Os at SPDK by their context, and the callbacks made. *)
Record World := mkWorld {
  capacity : nat;
  ctxs : gmap nat IoCtx;
  inflight : list nat;
  called : list (string * nat * IoCompletionStatus);
}.

Notation M := (ST World CoreError).

(** [io_type_to_err] *)
Definition io_type_to_err (t : IoType) (source : Errno) (offset len : Z) : CoreError :=
  match t with
  | IoRead => ReadDispatch source offset len
  | IoWrite => WriteDispatch source offset len
  | IoCompare => CompareDispatch source offset len
  | IoUnmap | IoWriteZeros => UnmapDispatch source offset len
  | IoReset => ResetDispatch source
  | _ => NotSupported source
  end.

(** [alloc_bdev_io_ctx] *)
Definition alloc_bdev_io_ctx (t : IoType) (c : IoCtx) (offset len : Z) : M nat := λ w,
  if (size (ctxs w) <? capacity w)%nat then
    let id := fresh (dom (ctxs w)) in
    (mkWorld (capacity w) (<[id := c]> (ctxs w)) (inflight w) (called w), Ok id)
  else (w, Err (io_type_to_err t ENOMEM offset len)).

(** [free_bdev_io_ctx] *)
Definition free_bdev_io_ctx (id : nat) (w : World) : World :=
  mkWorld (capacity w) (delete id (ctxs w)) (inflight w) (called w).

Definition at_spdk (id : nat) (w : World) : World := mkWorld (capacity w) (ctxs w) (inflight w ++ [id]) (called w).

(** A submission, which SPDK answers with [rc]; an I/O that it refuses keeps its
    context. *)
Definition submit (t : IoType) (dev : string) (cb : nat) (offset len rc : Z) (refused : Errno → CoreError) : M unit :=
  id ← alloc_bdev_io_ctx t (mkIoCtx dev cb) offset len;
  if rc <? 0 then ST.fail (refused (errno_from_raw (- rc))) else ST.modify (at_spdk id).

Definition readv_blocks (dev : string) (cb : nat) (offset len rc : Z) : M unit :=
  submit IoRead dev cb offset len rc (λ e, ReadDispatch e offset len).
Definition writev_blocks (dev : string) (cb : nat) (offset len rc : Z) : M unit :=
  submit IoWrite dev cb offset len rc (λ e, WriteDispatch e offset len).
Definition comparev_blocks (dev : string) (cb : nat) (offset len rc : Z) : M unit :=
  submit IoCompare dev cb offset len rc (λ e, CompareDispatch e offset len).
Definition reset (dev : string) (cb : nat) (rc : Z) : M unit := submit IoReset dev cb 0 0 rc (λ _, ResetDispatch ENOMEM).
Definition unmap_blocks (dev : string) (cb : nat) (offset len rc : Z) : M unit :=
  submit IoUnmap dev cb offset len rc (λ _, UnmapDispatch ENOMEM offset len).
(** An error is that of an unmap. *)
Definition write_zeroes (dev : string) (cb : nat) (offset len rc : Z) : M unit :=
  submit IoWriteZeros dev cb offset len rc (λ _, UnmapDispatch ENOMEM offset len).
Definition flush_io (dev : string) (cb : nat) (rc : Z) : M unit := submit IoFlush dev cb 0 0 rc (λ _, FlushDispatch ENOMEM).

(** NVMe commands are for NVMe devices. *)
Definition nvme_admin_custom (opcode : Z) : outcome CoreError unit := Err (NvmeAdminDispatch ENXIO opcode).
Definition nvme_admin (opcode : Z) : outcome CoreError unit := Err (NvmeAdminDispatch ENXIO opcode).
Definition nvme_identify_ctrlr : outcome CoreError unit := Err (NvmeAdminDispatch ENXIO 6).

(** [create_snapshot]: [replica] is the answer of the replica of the bdev, if it is
    one: a text and an errno if it fails. *)
Definition create_snapshot (replica : option (option (string * Errno))) : outcome CoreError Z :=
  match replica with
  | None => Err (NotSupported ENXIO)
  | Some (Some (reason, e)) => Err (SnapshotCreate reason e)
  | Some None => Ok 0
  end.

(** [From<ReadOptions> for u32], with the two flags of SPDK *)
Definition read_flags (unwritten_fail current_unwritten_fail : Z) (o : ReadOptions) : Z :=
  match o with ReadNone => 0 | UnwrittenFail => unwritten_fail | CurrentUnwrittenFail => current_unwritten_fail end.

(** [bdev_io_completion]: the context of an I/O is freed after its callback. *)
Definition bdev_io_completion (id : nat) (success : bool) (status : NvmeStatus) : M unit :=
  w ← ST.get;
  c ← ST.lift (of_option (ctxs w !! id));
  let st := if success then Success else io_completion_from status in
  ST.modify (λ w, mkWorld (capacity w) (ctxs w) (inflight w) (called w ++ [(device c, cb c, st)]));;
  ST.modify (free_bdev_io_ctx id).

(** ** Requests and completions in any order *)

Inductive Op :=
| OpRead (offset len : Z) | OpWrite (offset len : Z) | OpCompare (offset len : Z) | OpReset | OpUnmap (offset len : Z)
| OpWriteZeroes (offset len : Z) | OpFlush.

Definition perform (op : Op) (dev : string) (cb : nat) (rc : Z) : M unit :=
  match op with
  | OpRead o n => readv_blocks dev cb o n rc
  | OpWrite o n => writev_blocks dev cb o n rc
  | OpCompare o n => comparev_blocks dev cb o n rc
  | OpReset => reset dev cb rc
  | OpUnmap o n => unmap_blocks dev cb o n rc
  | OpWriteZeroes o n => write_zeroes dev cb o n rc
  | OpFlush => flush_io dev cb rc
  end.

Inductive event :=
| Submit (op : Op) (dev : string) (cb : nat) (rc : Z)
| Complete (i : nat) (success : bool) (status : NvmeStatus).

(** One event; SPDK completes only what it has.  [accepted] are the I/Os whose
    submission succeeded. *)
Definition handle (ev : event) (s : World * list (string * nat)) : outcome CoreError (World * list (string * nat)) :=
  let '(w, accepted) := s in
  match ev with
  | Submit op dev cb rc =>
      match perform op dev cb rc w with
      | (w', Ok _) => Ok (w', accepted ++ [(dev, cb)])
      | (w', Err _) => Ok (w', accepted)
      | (_, Panicked) => Panicked
      end
  | Complete i success status =>
      match inflight w !! i with
      | None => Ok s
      | Some id =>
          match bdev_io_completion id success status (mkWorld (capacity w) (ctxs w) (delete i (inflight w)) (called w)) with
          | (w', Ok _) => Ok (w', accepted)
          | (_, _) => Panicked
          end
      end
  end.

Fixpoint run (evs : list event) (s : World * list (string * nat)) : outcome CoreError (World * list (string * nat)) :=
  match evs with
  | [] => Ok s
  | ev :: evs => s ← handle ev s; run evs s
  end.

Definition start (cap : nat) : World := mkWorld cap ∅ [] [].

(** ** Events of bdevs *)

Inductive BdevEvent := Remove | Resize | Media.

Definition event_type (e : BdevEvent) : DeviceEventType :=
  match e with Remove => DeviceRemoved | Resize => DeviceResized | Media => MediaManagement end.

Section Events.
Context (alive : Dispatcher.sink → bool).
Notation Map := (gmap string Dispatcher.t).

(** [add_event_listener] *)
Definition add_event_listener (name : string) (s : Dispatcher.sink) (m : Map) : Map :=
  <[name := Dispatcher.add_listener alive s (default [] (m !! name))]> m.

(** [dispatch_bdev_event]: the listeners that hear of the event *)
Definition dispatch_bdev_event (e : DeviceEventType) (name : string) (m : Map) : list (Dispatcher.sink * DeviceEventType * string) * Map :=
  match m !! name with
  | None => ([], m)
  | Some d => let '(l, d) := Dispatcher.dispatch_event alive d in ((λ s, (s, e, name)) <$> l, <[name := d]> m)
  end.

Definition bdev_event_callback (e : BdevEvent) (name : string) (m : Map) := dispatch_bdev_event (event_type e) name m.
Definition dispatch_loopback_removed (name : string) (m : Map) := dispatch_bdev_event LoopbackRemoved name m.
End Events.

(** ** Handles

    An operation is submitted, which SPDK answers with an errno, and completed.
    The bdev I/O is given back before its status is read; [reused] is the status
    of another I/O that got it in between. *)

Definition NVME_SUCCESS : NvmeStatus := NvmeStatusOther 0 0.

Record Answer := mkAnswer { errno : Z; success : bool; nvme_status : NvmeStatus; reused : option NvmeStatus }.

(** [io_completion_cb] *)
Definition io_completion_cb (a : Answer) : NvmeStatus :=
  if success a then NVME_SUCCESS else default (nvme_status a) (reused a).

Definition handle_write_at (a : Answer) (offset len : Z) : outcome CoreError Z :=
  if negb (errno a =? 0) then Err (WriteDispatch (errno_from_raw (Z.abs (errno a))) offset len)
  else
    let s := io_completion_cb a in
    if bool_decide (s = NVME_SUCCESS) then Ok len else Err (WriteFailed (NvmeError s) offset len).

Definition handle_read_at (a : Answer) (offset len : Z) : outcome CoreError Z :=
  if negb (errno a =? 0) then Err (ReadDispatch (errno_from_raw (Z.abs (errno a))) offset len)
  else
    let s := io_completion_cb a in
    if bool_decide (s = NVME_SUCCESS) then Ok len
    else if bool_decide (s = UNWRITTEN_BLOCK) then Err (ReadingUnallocatedBlock offset len)
    else Err (ReadFailed (NvmeError s) offset len).

Definition handle_reset (a : Answer) : outcome CoreError unit :=
  if negb (errno a =? 0) then Err (ResetDispatch (errno_from_raw (Z.abs (errno a))))
  else if bool_decide (io_completion_cb a = NVME_SUCCESS) then Ok tt else Err ResetFailed.

Definition handle_write_zeroes_at (a : Answer) (offset len : Z) : outcome CoreError unit :=
  if negb (errno a =? 0) then Err (WriteZeroesDispatch (errno_from_raw (Z.abs (errno a))) offset len)
  else if bool_decide (io_completion_cb a = NVME_SUCCESS) then Ok tt else Err (WriteZeroesFailed offset len).

Definition handle_nvme_admin (a : Answer) (opcode : Z) : outcome CoreError unit :=
  if negb (errno a =? 0) then Err (NvmeAdminDispatch (errno_from_raw (Z.abs (errno a))) opcode)
  else if bool_decide (io_completion_cb a = NVME_SUCCESS) then Ok tt else Err (NvmeAdminFailed EIO opcode).

(** [BdevHandle::open]: every failure to open is reported as a missing bdev. *)
Definition handle_open {D} (name : string) (claim : bool) (open_by_name : outcome CoreError D) (claimed : D → bool) (io_channel : D → bool)
    : outcome CoreError D :=
  match open_by_name with
  | Ok d =>
      if claim && negb (claimed d) then Err (BdevNotFound name)
      else if io_channel d then Ok d else Err (GetIoChannel name)
  | Err _ => Err (BdevNotFound name)
  | Panicked => Panicked
  end.

End BlockDev.

Module BlockDevProps.
Import BlockDev.

(** The callback of the I/O with a context *)
Definition owner (w : World) (id : nat) : option (string * nat) := (λ c, (device c, cb c)) <$> ctxs w !! id.

(** Every I/O at SPDK has its own context, and the accepted I/Os are those whose
    callback was made and those at SPDK. *)
Definition inv (s : World * list (string * nat)) : Prop :=
  let '(w, accepted) := s in
  NoDup (inflight w) ∧ Forall (λ id, is_Some (ctxs w !! id)) (inflight w) ∧
  (fst <$> called w) ++ omap (owner w) (inflight w) ≡ₚ accepted.

Lemma omap_ext_in {A B} (f g : A → option B) (l : list A) : (∀ x, x ∈ l → f x = g x) → omap f l = omap g l.
Proof.
  induction l as [|x l IH]; intros H; [done|]. cbn. rewrite (H x) by set_solver.
  assert (omap f l = omap g l) as E by (apply IH; set_solver). cbn in E. by rewrite E.
Qed.

Lemma owner_insert w id c (ids : list nat) :
  id ∉ ids → omap (λ i, (λ c, (device c, cb c)) <$> <[id := c]> (ctxs w) !! i) ids = omap (owner w) ids.
Proof. intros Hn. apply omap_ext_in. intros i Hi. unfold owner. by rewrite lookup_insert_ne by (intros ->; done). Qed.

Lemma owner_delete w id (ids : list nat) :
  id ∉ ids → omap (λ i, (λ c, (device c, cb c)) <$> delete id (ctxs w) !! i) ids = omap (owner w) ids.
Proof. intros Hn. apply omap_ext_in. intros i Hi. unfold owner. by rewrite lookup_delete_ne by (intros ->; done). Qed.

Lemma submit_inv t dev cb off len rc refused w acc :
  inv (w, acc) →
  match submit t dev cb off len rc refused w with
  | (w', Ok _) => inv (w', acc ++ [(dev, cb)])
  | (w', Err _) => inv (w', acc)
  | (_, Panicked) => False
  end.
Proof.
  intros (Hnd & Hctx & Hacc). unfold submit, mbind, ST_bind, alloc_bdev_io_ctx. destruct (_ <? _)%nat; [|done].
  set (id := fresh (dom (ctxs w))). assert (ctxs w !! id = None) as Hid by apply not_elem_of_dom, is_fresh.
  assert (id ∉ inflight w) as Hin.
  { intros Hin. rewrite Forall_forall in Hctx. destruct (Hctx _ Hin). congruence. }
  assert (Forall (λ i, is_Some (<[id := mkIoCtx dev cb]> (ctxs w) !! i)) (inflight w)) as Hctx'.
  { eapply Forall_impl; [exact Hctx|]. intros i Hi. apply lookup_insert_is_Some'. by right. }
  destruct (rc <? 0); simpl.
  - split_and!; [done|done|]. unfold owner. simpl. by rewrite owner_insert.
  - split_and!.
    + apply NoDup_app. split_and!; [done|set_solver|apply NoDup_singleton].
    + apply Forall_app. split; [done|]. constructor; [|done]. rewrite lookup_insert_eq. eauto.
    + unfold owner. simpl. rewrite omap_app. rewrite owner_insert by done. simpl. rewrite lookup_insert_eq. simpl.
      by rewrite app_assoc, Hacc.
Qed.

Lemma perform_inv op dev cb rc w acc :
  inv (w, acc) →
  match perform op dev cb rc w with
  | (w', Ok _) => inv (w', acc ++ [(dev, cb)])
  | (w', Err _) => inv (w', acc)
  | (_, Panicked) => False
  end.
Proof. intros H. destruct op; by apply submit_inv. Qed.

Lemma complete_inv i id success status w acc :
  inv (w, acc) → inflight w !! i = Some id →
  match bdev_io_completion id success status (mkWorld (capacity w) (ctxs w) (delete i (inflight w)) (called w)) with
  | (w', Ok _) => inv (w', acc)
  | _ => False
  end.
Proof.
  intros (Hnd & Hctx & Hacc) Hi. unfold bdev_io_completion, mbind, ST_bind, ST.get, ST.lift, ST.modify, of_option. simpl.
  destruct (Forall_lookup_1 _ _ _ _ Hctx Hi) as [c Hc]. rewrite Hc. simpl.
  assert (inflight w ≡ₚ id :: delete i (inflight w)) as Hp by by apply delete_Permutation.
  assert (id ∉ delete i (inflight w)) as Hn. { rewrite Hp in Hnd. by apply NoDup_cons in Hnd as [? _]. }
  split_and!.
  - rewrite Hp in Hnd. by apply NoDup_cons in Hnd as [_ ?].
  - rewrite Hp in Hctx. apply Forall_cons in Hctx as [_ Hctx]. rewrite Forall_forall in *. intros j Hj.
    rewrite lookup_delete_ne; [by apply Hctx|]. by intros ->.
  - unfold owner. simpl. rewrite owner_delete by done. rewrite fmap_app. simpl. rewrite <- Hacc.
    assert (omap (owner w) (inflight w) ≡ₚ (device c, cb c) :: omap (owner w) (delete i (inflight w))) as ->.
    { rewrite Hp at 1. cbn. unfold owner at 1. by rewrite Hc. }
    by rewrite <- app_assoc.
Qed.

Lemma run_inv evs s : inv s → ∃ s', run evs s = Ok s' ∧ inv s'.
Proof.
  revert s. induction evs as [|ev evs IH]; intros [w acc] H; [by eexists|]. simpl.
  destruct ev as [op dev cb rc|i success status]; simpl.
  - pose proof (perform_inv op dev cb rc w acc H) as Hp. destruct (perform op dev cb rc w) as [w' [x|e|]]; [by apply IH|by apply IH|done].
  - destruct (inflight w !! i) as [id|] eqn:Hi; [|by apply IH].
    pose proof (complete_inv i id success status w acc H Hi) as Hp.
    destruct (bdev_io_completion _ _ _ _) as [w' [x|e|]]; [by apply IH|done|done].
Qed.

Lemma owners_length w (ids : list nat) : Forall (λ id, is_Some (ctxs w !! id)) ids → length (omap (owner w) ids) = length ids.
Proof. induction 1 as [|id ids [c Hc] _ IH]; [done|]. cbn. unfold owner at 1. rewrite Hc. simpl. f_equal. exact IH. Qed.

(** C38.  Whatever I/O is submitted to local devices, whether SPDK accepts it, and
    in whatever order it completes what it has: the engine does not panic, and the
    I/Os that were accepted are those whose callback was called, each once, and
    those that SPDK still has; the callback of an I/O that was refused is not
    called. *)
Theorem local_io_calls_back_once cap evs :
  ∃ w accepted, run evs (start cap, []) = Ok (w, accepted) ∧
    (fst <$> called w) ++ omap (owner w) (inflight w) ≡ₚ accepted ∧ length (omap (owner w) (inflight w)) = length (inflight w).
Proof.
  destruct (run_inv evs (start cap, [])) as ([w acc] & Hr & Hnd & Hctx & Hacc).
  { split_and!; [apply NoDup_nil_2|constructor|done]. }
  exists w, acc. split_and!; [done|done|]. by apply owners_length.
Qed.

(** *** The edges *)

(** An I/O that SPDK refuses keeps its context: with a pool of one context no I/O
    is possible after the first refusal, although none is in flight. *)
Lemma refused_io_leaks_context :
  ∃ w1, readv_blocks "d" 0 0 8 (-12) (start 1) = (w1, Err (ReadDispatch ENOMEM 0 8)) ∧ inflight w1 = [] ∧
        ∀ dev cb off len, writev_blocks dev cb off len 0 w1 = (w1, Err (WriteDispatch ENOMEM off len)).
Proof. by eexists. Qed.

(** A write that failed is reported as done if another I/O gets its bdev I/O before
    its status is read. *)
Lemma failed_write_reported_done :
  handle_write_at (mkAnswer 0 false (NvmeStatusOther 2 128) (Some NVME_SUCCESS)) 0 4096 = Ok 4096.
Proof. done. Qed.

(** A listener hears of the events of its device as long as it lives. *)
Lemma listener_is_told alive name s m e :
  alive s = true → In (s, event_type e, name) (fst (bdev_event_callback alive e name (add_event_listener alive name s m))).
Proof.
  intros Hs. unfold bdev_event_callback, dispatch_bdev_event, add_event_listener. rewrite lookup_insert_eq. simpl.
  apply (in_map (λ s, (s, event_type e, name))). by apply (Dispatcher.added_is_called alive).
Qed.

End BlockDevProps.
