(* ===== verification/Lvm.v ===== *)
(** * The LVM backend

    [lvm/]: pools that are volume groups and replicas that are logical volumes,
    managed by the command line tools of LVM ([lvm/cli.rs], [lvm/vg_pool.rs],
    [lvm/lv_replica.rs], [lvm/property.rs], [lvm/error.rs], [lvm/dm_setup.rs]).
    What the engine knows of a volume is stored in its tags.

    The tools and the bdevs of SPDK are an interface; the JSON of reports is decoded
    by a crate, so a report is a list of rows with the fields as text. *)

From Stdlib Require Import Ascii String.
From stdpp Require Import pretty.
From S2P Require Import Prelude Text Wp Errors NvmfSubsystem BdevUri.

#[local] Open Scope Z_scope.

Module Lvm.

(** ** Properties and tags *)

Inductive Protocol := Off | Nvmf_.

#[global] Instance Protocol_eq_dec : EqDecision Protocol.
Proof. solve_decision. Defined.

Inductive Property :=
| PLvm
| PUnknown (key value : string)
| LvName (s : string)
| LvShare (p : Protocol)
| LvAllowedHosts (hosts : list string)
| LvEntityId (s : string).

#[global] Instance Property_eq_dec : EqDecision Property.
Proof. solve_decision. Defined.

Inductive PropertyType := TLvm | TUnknown | TLvName | TLvShare | TLvAllowedHosts | TLvEntityId.

#[global] Instance PropertyType_eq_dec : EqDecision PropertyType.
Proof. solve_decision. Defined.

(** [Property::type_], [PropertyType::value] and [Property::key] *)
Definition type_ (p : Property) : PropertyType :=
  match p with
  | PLvm => TLvm | PUnknown _ _ => TUnknown | LvName _ => TLvName | LvShare _ => TLvShare
  | LvAllowedHosts _ => TLvAllowedHosts | LvEntityId _ => TLvEntityId
  end.

Definition type_value (t : PropertyType) : string :=
  match t with
  | TLvm => "mayastor" | TUnknown => "" | TLvName => "mayastor.lv.name" | TLvShare => "mayastor.lv.share"
  | TLvAllowedHosts => "mayastor.lv.allowed_hosts" | TLvEntityId => "mayastor.lv.entity_id"
  end.

Definition key (p : Property) : string := match p with PUnknown k _ => k | p => type_value (type_ p) end.

(** [FromStr for PropertyType] *)
Definition type_from_str (k : string) : option PropertyType :=
  snd <$> list_find (λ t, k = type_value t) [TLvm; TLvName; TLvShare; TLvAllowedHosts; TLvEntityId].

Definition protocol_str (p : Protocol) : string := match p with Off => "off" | Nvmf_ => "nvmf" end.
Definition protocol_from (s : string) : Protocol := if bool_decide (s = "nvmf"%string) then Nvmf_ else Off.

Definition value (p : Property) : option string :=
  match p with
  | PLvm => None
  | LvName s | LvEntityId s => Some s
  | LvShare p => Some (protocol_str p)
  | LvAllowedHosts hs => Some (join "," hs)
  | PUnknown _ v => Some v
  end.

Definition tag (p : Property) : string :=
  match value p with None => key p | Some v => (key p +:+ String "=" v)%string end.

Definition add (p : Property) : string := ("--addtag=" +:+ tag p)%string.
Definition del (p : Property) : string := ("--deltag=" +:+ tag p)%string.

Definition new_known (k v : string) : option Property :=
  t ← type_from_str k;
  match t with
  | TLvm => Some PLvm
  | TLvName => Some (LvName v)
  | TLvShare => Some (LvShare (protocol_from v))
  | TLvAllowedHosts => Some (LvAllowedHosts (List.filter (λ s, negb (bool_decide (s = ""%string))) (split "," v)))
  | TLvEntityId => Some (LvEntityId v)
  | TUnknown => None
  end.

(** [Property::new]: a tag with more than one [=] is not known. *)
Definition new (t : string) : Property :=
  match split "=" t with
  | [k; v] => default (PUnknown k v) (new_known k v)
  | _ => default (PUnknown t "") (new_known t "")
  end.

(** [comma_separated]: empty parts at the start are skipped. *)
Fixpoint skip_empty (l : list string) : list string :=
  match l with x :: l' => if bool_decide (x = ""%string) then skip_empty l' else l | [] => [] end.
Definition comma_separated (s : string) : list string := skip_empty (split "," s).
Definition tags_of (s : string) : list Property := new <$> comma_separated s.

(** ** Errors *)

Inductive Error :=
| ReportMissing (command : string)
| JsonParsing (command error : string)
| LvmBinErr (command error : string)
| LvmBinSpawnErr (command : string)
| DisksMismatch (args vg : list string)
| InvalidPoolType (value : Z)
| NotFound (query : string)
| VgUuidSet
| LvNotFound (query : string)
| ThinProv
| ReactorSpawn
| ReactorSpawnChannel
| BdevImport (source : Bdev.Error)
| BdevExport (source : Bdev.Error)
| BdevOpen (source : CoreError)
| BdevShare (source : CoreError)
| BdevShareUri
| BdevUnshare (source : CoreError)
| BdevMissing
| UpdateProps (source : CoreError) (name : string)
| NoSpace (error : string)
| Exists (error : string)
| SnapshotNotSup
| GrowNotSup
| Internal (error : string).

Definition to_errno (e : Error) : Errno :=
  match e with
  | ReportMissing _ | JsonParsing _ _ | LvmBinErr _ _ | LvmBinSpawnErr _ => EIO
  | DisksMismatch _ _ | InvalidPoolType _ => EINVAL
  | NotFound _ => ENOENT
  | VgUuidSet => EINVAL
  | LvNotFound _ => ENOENT
  | ThinProv => ENOTSUP
  | ReactorSpawn => EXFULL
  | ReactorSpawnChannel => EPIPE
  | BdevImport _ | BdevExport _ | BdevOpen _ => EIO
  | BdevShare _ | BdevShareUri | BdevUnshare _ => EFAULT
  | BdevMissing => ENODEV
  | UpdateProps _ _ => EIO
  | NoSpace _ => ENOSPC
  | Exists _ => EEXIST
  | SnapshotNotSup | GrowNotSup => ENOTSUP
  | Internal _ => EPIPE
  end.

(** ** Queries *)

Record CmnQueryArgs := mkQuery { q_name : option string; q_uuid : option string; q_tag : option string }.

Definition any : CmnQueryArgs := mkQuery None None None.
Definition ours_query : CmnQueryArgs := mkQuery None None (Some (tag PLvm)).
Definition ours_if (spdk : bool) : CmnQueryArgs := if spdk then ours_query else any.
Definition named (n : string) (q : CmnQueryArgs) : CmnQueryArgs := mkQuery (Some n) (q_uuid q) (q_tag q).
Definition uuided (u : string) (q : CmnQueryArgs) : CmnQueryArgs := mkQuery (q_name q) (Some u) (q_tag q).
Definition named_opt (n : option string) (q : CmnQueryArgs) : CmnQueryArgs := match n with Some n => named n q | None => q end.
Definition uuid_opt (u : option string) (q : CmnQueryArgs) : CmnQueryArgs := match u with Some u => uuided u q | None => q end.

Definition alnum (a : ascii) : bool :=
  let b := byte a in
  (48 <=? b) && (b <=? 57) || (65 <=? b) && (b <=? 90) || (97 <=? b) && (b <=? 122) ||
  bool_decide (a = "_" ∨ a = "-" ∨ a = "." ∨ a = "+")%char.

Fixpoint str_forall (f : ascii → bool) (s : string) : bool :=
  match s with EmptyString => true | String a s => f a && str_forall f s end.

(** [is_alphanumeric] *)
Definition is_alphanumeric (name value : string) : outcome Error unit :=
  if str_forall alnum value then Ok tt
  else Err (NotFound (name +:+ "('" +:+ value +:+ "') invalid: must be [a-zA-Z0-9.-_+]")).

Definition select (o : option string) (name prefix : string) : outcome Error string :=
  match o with
  | None => Ok ""%string
  | Some v => is_alphanumeric name v;; Ok (prefix +:+ v +:+ ",")%string
  end.

(** The selection of volume groups *)
Definition vg_query (q : CmnQueryArgs) : outcome Error string :=
  a ← select (q_name q) "vg_name" "vg_name=";
  b ← select (q_uuid q) "vg_uuid" "vg_uuid=";
  c ← select (q_tag q) "vg_tag" "vg_tags=";
  Ok (a +:+ b +:+ c)%string.

(** The selection of logical volumes: the name of one is the UUID of the replica,
    and the name of the replica is a tag.  The tag to select by is not checked. *)
Record QueryArgs := mkLvQuery { q_vg : CmnQueryArgs; q_lv : CmnQueryArgs; regular_lv : bool }.

Definition lv_query (q : QueryArgs) : outcome Error string :=
  v ← vg_query (q_vg q);
  a ← (if regular_lv q then select (q_name (q_lv q)) "lv_name" "lv_name="
       else match q_name (q_lv q) with
            | None => Ok ""%string
            | Some n => is_alphanumeric "name" n;; Ok ("lv_tags=" +:+ tag (LvName n) +:+ ",")%string
            end);
  b ← (if regular_lv q then select (q_uuid (q_lv q)) "lv_uuid" "lv_uuid=" else select (q_uuid (q_lv q)) "lv_name" "lv_name=");
  Ok (v +:+ a +:+ b +:+ match q_tag (q_lv q) with Some t => "lv_tags=" +:+ t +:+ "," | None => "" end)%string.

(** The arguments with the selection, if there is one *)
Definition with_select (args : list string) (sel : string) : list string :=
  if bool_decide (sel = ""%string) then args else args ++ [Uri.trim_end "," ("--select=" +:+ sel)%string].

(** ** Running the tools *)

(** ASCII white space, as the text of the tools has it *)
Definition is_ws (a : ascii) : bool := let b := byte a in (b =? 32) || (9 <=? b) && (b <=? 13).

Fixpoint trim_start (s : string) : string :=
  match s with String a r => if is_ws a then trim_start r else s | EmptyString => EmptyString end.

Fixpoint trim_end (s : string) : string :=
  match s with
  | EmptyString => EmptyString
  | String a r =>
      let r := trim_end r in
      if is_ws a then match r with EmptyString => EmptyString | _ => String a r end else String a r
  end.

(** A row of [vgs]: one per volume group and disk. *)
Record vg_row := mkVgRow {
  r_vg_name : string; r_vg_uuid : string; r_vg_size : string; r_vg_free : string; r_vg_tags : string; r_pv_name : string }.

(** A row of [lvs] *)
Record lv_row := mkLvRow {
  r_lv_name : string; r_lv_uuid : string; r_lv_size : string; r_lv_path : string; r_lv_tags : string;
  r_lvg_name : string; r_lvg_uuid : string; r_lvg_tags : string; r_extent_size : string }.

(** What the engine reads of a bdev of SPDK *)
Record bdev_info := mkBdev {
  b_name : string; b_share_uri : option string; b_uri : option string; b_hosts : list string; b_shared : Protocol;
  b_size : Z; b_block_len : Z }.

(** How a command ended: it could not be run, it failed, or it succeeded *)
Inductive answer := NoSpawn | Failed (stderr : string) | Done (stdout : string).

(** The tools and the decoding of their reports, the file system, and the bdevs *)
Class Tools := {
  sys : Type;
  run_cmd : string → list string → option string → sys → sys * answer;
  vg_json : string → string + list (list vg_row);
  lv_json : string → string + list (list lv_row);
  ptpl_dir : option string;
  create_dir_all : string → sys → sys * option string;
  remove_file : string → sys → sys * option string;
  remove_dir_all : string → sys → sys * option string;
  path_exists : sys → string → bool;
  read_dir : sys → string → option (list string);
  bdev_by_name : sys → string → option bdev_info;
  bdev_create : string → sys → sys * outcome Bdev.Error string;
  (** [uri::parse], and [destroy] of what is parsed *)
  bdev_destroy : string → sys → sys * option (outcome Bdev.Error unit);
  bdev_share : string → Subsys.NvmfShareProps → sys → sys * outcome CoreError string;
  bdev_update : string → list string → sys → sys * outcome CoreError unit;
  bdev_unshare_ : string → sys → sys * outcome CoreError unit;
  notify_blockcnt_change : string → Z → sys → sys * Z;
}.

Section Cli.
Context {T : Tools}.

Local Abbreviation M := (ST sys Error).

Definition call {A} (f : sys → sys * A) : M A := λ s, let '(s, a) := f s in (s, Ok a).

(** [LvmCmd::output] *)
Definition output (cmd : string) (args : list string) (input : option string) : M string :=
  a ← call (run_cmd cmd args input);
  match a with
  | NoSpawn => ST.fail (LvmBinSpawnErr cmd)
  | Failed e => ST.fail (LvmBinErr cmd (trim_start e))
  | Done out => mret out
  end.

(** [LvmCmd::run] *)
Definition run (cmd : string) (args : list string) : M unit := output cmd args None;; mret tt.

Fixpoint decode_all {R V} (decode : R → outcome Error V) (l : list R) : outcome Error (list V) :=
  match l with [] => Ok [] | r :: l => v ← decode r; vs ← decode_all decode l; Ok (v :: vs) end.

(** [LvmCmd::output_json] and [LvmCmd::report]: all reports are decoded, the first is used. *)
Definition report {R V} (json : string → string + list (list R)) (decode : R → outcome Error V) (cmd : string) (args : list string)
    : M (list V) :=
  out ← output cmd args None;
  match json out with
  | inl e => ST.fail (JsonParsing cmd e)
  | inr rs =>
      reports ← ST.lift (decode_all (decode_all decode) rs);
      match reports with r :: _ => mret r | [] => ST.fail (ReportMissing cmd) end
  end.

(** [number_from_string] *)
Definition number (cmd s : string) : outcome Error Z :=
  match Uri.parse_uint u64_max s with inr n => Ok n | inl e => Err (JsonParsing cmd e) end.

(** ** The device mapper *)

Inductive DmState := Suspended | Active | ReadOnly | DmUnknown (s : string).

Definition upper (a : ascii) : ascii :=
  let b := byte a in if (97 <=? b) && (b <=? 122) then ascii_of_N (Z.to_N (b - 32)) else a.

Fixpoint to_uppercase (s : string) : string :=
  match s with EmptyString => EmptyString | String a s => String (upper a) (to_uppercase s) end.

(** [From<String> for DmState] *)
Definition dm_state_of (s : string) : DmState :=
  let state := to_uppercase s in
  if bool_decide (state = "SUSPENDED"%string) then Suspended
  else if bool_decide (state = "ACTIVE"%string) then Active
  else if bool_decide (state = "READ-ONLY"%string) then ReadOnly
  else DmUnknown state.

Definition dm_suspend (path : string) : M unit := run "dmsetup" ["suspend"; path]%string.
Definition dm_resume (path : string) : M unit := run "dmsetup" ["resume"; path]%string.
Definition dm_table (path : string) : M string := out ← output "dmsetup" ["table"; path]%string None; mret (trim_end out).
Definition dm_load (path table : string) : M unit := output "dmsetup" ["load"; path]%string (Some table);; mret tt.
Definition dm_remove (path : string) : M unit := output "dmsetup" ["remove"; path]%string None;; mret tt.
Definition dm_state (path : string) : M DmState :=
  out ← output "dmsetup" ["info"; "-C"; "-osuspended"; "--noheadings"; path]%string None;
  mret (dm_state_of (trim_end out)).

(** ** Files of reservations *)

Definition is_slash (a : ascii) : bool := bool_decide (a = "/"%char).

Fixpoint ends_in_slash (s : string) : bool :=
  match s with EmptyString => false | String a EmptyString => is_slash a | String _ s => ends_in_slash s end.

(** [PathBuf::join]: an absolute path replaces. *)
Definition path_join (a b : string) : string :=
  if Subsys.starts_with "/" b || bool_decide (a = ""%string) then b
  else if ends_in_slash a then (a +:+ b)%string else (a +:+ "/" +:+ b)%string.

(** What is before the last [c], if there is one *)
Fixpoint before_last (c : ascii) (s : string) : option string :=
  match s with
  | EmptyString => None
  | String a r =>
      match before_last c r with
      | Some p => Some (String a p)
      | None => if bool_decide (a = c) then Some ""%string else None
      end
  end.

(** [with_extension] of a file name; a leading dot starts no extension. *)
Definition with_extension (file ext : string) : string :=
  match before_last "." file with
  | None | Some EmptyString => (file +:+ "." +:+ ext)%string
  | Some stem => (stem +:+ "." +:+ ext)%string
  end.

(** [subpath] of a volume group and of a logical volume *)
Definition vg_subpath (vg : string) : string := path_join "pool/vg/" vg.
Definition lv_subpath (vg uuid : string) : string := path_join (path_join (vg_subpath vg) "lv/") (with_extension uuid "json").

Definition ptpl_path (sub : string) : option string := (λ base, path_join base sub) <$> ptpl_dir.

Definition io (f : sys → sys * option string) : ST sys string unit := λ s,
  let '(s, e) := f s in (s, match e with Some e => Err e | None => Ok tt end).

Definition create_parent (path : string) : ST sys string unit :=
  match before_last "/" path with Some parent => io (create_dir_all parent) | None => mret tt end.

(** [PtplFileOps for LvolPtpl] and [for VgPtpl] *)
Definition lv_ptpl_create (vg uuid : string) : ST sys string (option string) :=
  match ptpl_path (lv_subpath vg uuid) with
  | None => mret None
  | Some path =>
      (match ptpl_path (vg_subpath vg) with Some p => create_parent p | None => mret tt end);;
      create_parent path;;
      mret (Some path)
  end.

Definition lv_ptpl_destroy (vg uuid : string) : ST sys string unit :=
  match ptpl_path (lv_subpath vg uuid) with None => mret tt | Some path => io (remove_file path) end.

Definition vg_ptpl_destroy (vg : string) : ST sys string unit :=
  match ptpl_path (vg_subpath vg) with
  | None => mret tt
  | Some path => s ← ST.get; if path_exists s path then io (remove_dir_all path) else mret tt
  end.

(** [.ok()]: run and forget the result *)
Definition ok_ {E A} (m : ST sys E A) : M unit := ST.try m;; mret tt.

End Cli.

End Lvm.
