(* ===== verification/LvmVolumes.v ===== *)
(** * Volume groups and logical volumes

    [lvm/vg_pool.rs], [lvm/lv_replica.rs] and the factories of [lvm/mod.rs], on the
    tools of [Lvm].  A bdev that a handle refers to is read again after each call;
    if it is gone what was read last stays. *)

From Stdlib Require Import Ascii String.
From stdpp Require Import pretty.
From S2P Require Import Prelude Text Wp Errors NexusErrors NvmfSubsystem BdevUri Lvm.

#[local] Open Scope Z_scope.

Module LvmVol.
Import Lvm.

Record VolumeGroup := mkVg {
  vg_name : string; vg_uuid : string; vg_size : Z; vg_free : Z; vg_tags : list Property; vg_disks : list string }.

Record BdevOpts := mkOpts {
  share_uri : option string; open_uri : string; allowed_hosts : list string; o_share : Protocol; o_size : Z }.

Record LogicalVolume := mkLv {
  lv_uuid : string; lv_name : string; lvg_name : string; lvg_uuid : string; vg_extent_size : Z; lv_path : string; lv_size : Z;
  lv_tags : list Property; lvg_tags : list Property;
  share : Protocol; name : option string; entity_id : option string; bdev : option BdevOpts; tags_dirty : bool }.

(** What the backend uses of [PoolArgs] and [ReplicaArgs] *)
Record PoolArgs := mkPoolArgs { pa_name : string; pa_disks : list string; pa_uuid : option string; no_spdk : bool }.
Record ReplicaArgs := mkReplicaArgs { ra_name : string; ra_size : Z; ra_uuid : string; ra_thin : bool; ra_entity_id : option string }.

Definition set_bdev (b : option BdevOpts) (lv : LogicalVolume) : LogicalVolume :=
  mkLv (lv_uuid lv) (lv_name lv) (lvg_name lv) (lvg_uuid lv) (vg_extent_size lv) (lv_path lv) (lv_size lv) (lv_tags lv)
       (lvg_tags lv) (share lv) (name lv) (entity_id lv) b (tags_dirty lv).
Definition set_share (p : Protocol) (lv : LogicalVolume) : LogicalVolume :=
  mkLv (lv_uuid lv) (lv_name lv) (lvg_name lv) (lvg_uuid lv) (vg_extent_size lv) (lv_path lv) (lv_size lv) (lv_tags lv)
       (lvg_tags lv) p (name lv) (entity_id lv) (bdev lv) (tags_dirty lv).
Definition set_dirty (lv : LogicalVolume) : LogicalVolume :=
  mkLv (lv_uuid lv) (lv_name lv) (lvg_name lv) (lvg_uuid lv) (vg_extent_size lv) (lv_path lv) (lv_size lv) (lv_tags lv)
       (lvg_tags lv) (share lv) (name lv) (entity_id lv) (bdev lv) true.

(** [property] and [properties] *)
Definition property (t : PropertyType) (tags : list Property) : option Property :=
  snd <$> list_find (λ p, key p = type_value t) tags.
Definition properties (t : PropertyType) (tags : list Property) : list Property :=
  List.filter (λ p, bool_decide (key p = type_value t)) tags.

Definition ours (lv : LogicalVolume) : bool := bool_decide (PLvm ∈ lv_tags lv).
Definition vg_ours (lv : LogicalVolume) : bool := bool_decide (PLvm ∈ lvg_tags lv).

(** [LogicalVolume::size] *)
Definition size (lv : LogicalVolume) : Z :=
  match bdev lv with None => lv_size lv | Some b => Z.min (lv_size lv) (o_size b) end.

Definition share_proto (lv : LogicalVolume) : option Protocol := (λ _, share lv) <$> bdev lv.

(** [build_set_property_args] and [build_set_properties_args] *)
Definition build_set_property_args (tags : list Property) (p : Property) : list string :=
  let existing := properties (type_ p) tags in
  (del <$> List.filter (λ old, negb (bool_decide (old = p))) existing) ++
  (if bool_decide (p ∈ existing) then [] else [add p]).

Definition build_set_properties_args (tags : list Property) (ps : list Property) : list string :=
  ps ≫= build_set_property_args tags.

(** [matches] *)
Definition matches (vg : VolumeGroup) (q : CmnQueryArgs) : bool :=
  from_option (λ n, bool_decide (vg_name vg = n)) true (q_name q) &&
  from_option (λ t, existsb (λ p, bool_decide (key p = t)) (vg_tags vg)) true (q_tag q) &&
  from_option (λ u, bool_decide (vg_uuid vg = u)) true (q_uuid q).

(** The rows of one volume group are merged. *)
Fixpoint merge (acc : list VolumeGroup) (vg : VolumeGroup) : list VolumeGroup :=
  match acc with
  | [] => [vg]
  | e :: acc =>
      if bool_decide (vg_name e = vg_name vg)
      then mkVg (vg_name e) (vg_uuid e) (vg_size e) (vg_free e) (vg_tags e) (vg_disks e ++ vg_disks vg) :: acc
      else e :: merge acc vg
  end.

(** [unwrap_or_else(|e| e.to_string())] on a query *)
Definition query_text (q : outcome Error string) : string :=
  match q with
  | Ok s => s
  | Err (NotFound s) => ("LVM VolumeGroup " +:+ s +:+ " not found")%string
  | _ => ""%string
  end.

Section Ops.
Context {T : Tools}.

Local Abbreviation M := (ST sys Error).
Local Abbreviation V := (ST (sys * LogicalVolume) Error).

(** ** Volume groups: reading *)

Definition decode_vg (r : vg_row) : outcome Error VolumeGroup :=
  size ← number "vgs" (r_vg_size r);
  free ← number "vgs" (r_vg_free r);
  Ok (mkVg (r_vg_name r) (r_vg_uuid r) size free (tags_of (r_vg_tags r)) (comma_separated (r_pv_name r))).

Definition vgs_args : list string :=
  ["--units=b"; "--nosuffix"; "-q"; "--options=vg_name,vg_uuid,vg_size,vg_free,vg_tags,pv_name"; "--report-format=json"]%string.

(** [VolumeGroup::list] *)
Definition vg_list (q : CmnQueryArgs) : M (list VolumeGroup) :=
  sel ← ST.lift (vg_query q);
  vgs ← report vg_json decode_vg "vgs" (with_select vgs_args sel);
  mret (foldl merge [] (List.filter (λ vg, matches vg q) vgs)).

(** [VolumeGroup::lookup] *)
Definition vg_lookup (q : CmnQueryArgs) : M VolumeGroup :=
  vgs ← vg_list q;
  match vgs with vg :: _ => mret vg | [] => ST.fail (NotFound (query_text (vg_query q))) end.

(** [import_inner] *)
Definition import_inner (args : PoolArgs) : M VolumeGroup :=
  vg ← vg_lookup (named (pa_name args) any);
  if bool_decide (is_Some (pa_uuid args)) then ST.fail VgUuidSet
  else if negb (bool_decide (vg_disks vg = pa_disks args)) then ST.fail (DisksMismatch (pa_disks args) (vg_disks vg))
  else
    let tagged := bool_decide (PLvm ∈ vg_tags vg) in
    let retag l := mkVg (vg_name vg) (vg_uuid vg) (vg_size vg) (vg_free vg) l (vg_disks vg) in
    if no_spdk args then
      if negb tagged then mret vg
      else
        run "vgchange" [pa_name args; del PLvm];;
        mret (retag (List.filter (λ t, negb (bool_decide (t = PLvm))) (vg_tags vg)))
    else if tagged then mret vg
    else run "vgchange" [pa_name args; "-q"%string; add PLvm];; mret (retag (vg_tags vg ++ [PLvm])).

Fixpoint dm_remove_all (paths : list string) : M unit :=
  match paths with [] => mret tt | p :: ps => dm_remove p;; dm_remove_all ps end.

Definition vg_create_cmd (args : PoolArgs) : M unit :=
  run "vgcreate" (pa_name args :: (if negb (no_spdk args) then [add PLvm] else []) ++ pa_disks args).

(** [VolumeGroup::create]; the remains of a broken group are removed once. *)
Definition vg_create (args : PoolArgs) : M VolumeGroup :=
  r ← ST.try (vg_lookup (named (pa_name args) any));
  match r with
  | Ok _ => import_inner args
  | Err (NotFound _) =>
      run "pvcreate" (pa_disks args);;
      r ← ST.try (vg_create_cmd args);
      (match r with
       | Err (LvmBinErr c e) =>
           if Subsys.starts_with ("/dev/" +:+ pa_name args +:+ ": already exists in filesystem")%string e then
             s ← ST.get;
             match read_dir s ("/dev/" +:+ pa_name args)%string with
             | None => ST.fail (LvmBinErr c e)
             | Some paths => dm_remove_all paths;; vg_create_cmd args
             end
           else ST.fail (LvmBinErr c e)
       | r => ST.lift r
       end);;
      vg_lookup (uuid_opt (pa_uuid args) (named (pa_name args) (ours_if (negb (no_spdk args)))))
  | Err e => ST.fail e
  | Panicked => ST.panic
  end.

Definition quoted (s : string) : string := (String "034" (s +:+ String "034" ""))%string.

(** [create_lvoli]: the errors of the tool are told apart by their text. *)
Definition create_lvoli (vg : VolumeGroup) (args : ReplicaArgs) (sh : Protocol) (spdk : bool) : M unit :=
  let ins_space := ("Volume group " +:+ quoted (vg_name vg) +:+ " has insufficient free space")%string in
  let eexists := ("Logical Volume " +:+ quoted (ra_uuid args) +:+ " already exists in volume group " +:+ quoted (vg_name vg))%string in
  if ra_thin args then ST.fail ThinProv
  else
    let entity := default ""%string (ra_entity_id args) in
    r ← ST.try (run "lvcreate" (
      ["-L" +:+ pretty (ra_size args) +:+ "b"; "-n"; ra_uuid args; add (LvName (ra_name args)); add (LvShare sh)]%string
      ++ (if bool_decide (entity = ""%string) then [] else [add (LvEntityId entity)])
      ++ (if spdk then [add PLvm] else []) ++ [vg_name vg]));
    match r with
    | Err (LvmBinErr c e) =>
        if Subsys.starts_with ins_space e then ST.fail (NoSpace e)
        else if Subsys.starts_with eexists e then ST.fail (Exists e)
        else ST.fail (LvmBinErr c e)
    | r => ST.lift r
    end.

(** ** Logical volumes: the bdev *)

Definition opts_of (b : bdev_info) : BdevOpts :=
  mkOpts (b_share_uri b) (default ""%string (b_uri b)) (b_hosts b) (b_shared b) (b_size b).

(** [BdevOpts::update_from] *)
Definition update_from (o to : BdevOpts) : BdevOpts :=
  mkOpts (share_uri to) (open_uri o) (allowed_hosts to) (o_share to) (o_size o).

(** [LogicalVolume::bdev], and what its handle reads later *)
Definition get_bdev (uri : string) : M bdev_info :=
  s ← ST.get; match bdev_by_name s uri with Some b => mret b | None => ST.fail BdevMissing end.
Definition reread (uri : string) (b : bdev_info) : M bdev_info := ST.gets (λ s, default b (bdev_by_name s uri)).

(** A method on a volume: what it changed in the volume before an error stays. *)
Definition on_sys {A} (m : M A) : V A := λ sv, let '(s, r) := m sv.1 in ((s, sv.2), r).
Definition this : V LogicalVolume := ST.gets snd.
Definition upd (f : LogicalVolume → LogicalVolume) : V unit := ST.modify (λ sv, (sv.1, f sv.2)).
Definition with_lv {A} (lv : LogicalVolume) (m : V A) : M (A * LogicalVolume) := λ s,
  let '((s, lv), r) := m (s, lv) in (s, a ← r; Ok (a, lv)).

(** A call of a component that answers with a result of its own error type *)
Definition comp {E A} (err : E → Error) (f : sys → sys * outcome E A) : M A :=
  r ← call f; ST.lift (map_err err r).

Definition default_props : Subsys.NvmfShareProps := Subsys.mkShareProps None false [] None.

(** [bdev_share_nvmf] and [bdev_unshare] *)
Definition bdev_share_nvmf (uri : string) (b : bdev_info) (props : option Subsys.NvmfShareProps) : M string :=
  match b_shared b with
  | Nvmf_ =>
      comp BdevShare (bdev_update (b_name b) (from_option Subsys.props_hosts [] props));;
      b ← reread uri b;
      match b_share_uri b with Some u => mret u | None => ST.fail BdevShareUri end
  | Off => comp BdevShare (bdev_share (b_name b) (default default_props props))
  end.

Definition bdev_unshare (uri : string) (b : bdev_info) : M (option string) :=
  (match b_shared b with Nvmf_ => comp BdevUnshare (bdev_unshare_ (b_name b)) | Off => mret tt end);;
  b ← reread uri b;
  mret (b_share_uri b).

(** [bdev_sync_props] *)
Definition bdev_sync_props (lv : LogicalVolume) (uri : string) (b : bdev_info) (protocol : Protocol) (hosts : list string) : M unit :=
  match protocol with
  | Nvmf_ =>
      p ← ST.with_err (λ e, BdevShare (Ptpl e)) (lv_ptpl_create (lvg_name lv) (lv_name lv));
      bdev_share_nvmf uri b (Some (Subsys.mkShareProps None false hosts p));; mret tt
  | Off => bdev_unshare uri b;; mret tt
  end.

Definition disk_uri (lv : LogicalVolume) : string := ("aio://" +:+ lv_path lv +:+ "?uuid=" +:+ lv_name lv)%string.

(** [import_bdev] *)
Definition import_bdev : V unit :=
  lv ← this;
  let uri := disk_uri lv in
  let hosts := match property TLvAllowedHosts (lv_tags lv) with Some (LvAllowedHosts hs) => hs | _ => [] end in
  b ← on_sys (
    s ← ST.get;
    (if bool_decide (is_Some (bdev_by_name s uri)) then mret tt else comp BdevImport (bdev_create uri);; mret tt);;
    b ← get_bdev uri;
    bdev_sync_props lv uri b (share lv) hosts;;
    reread uri b);
  upd (set_bdev (Some (opts_of b))).

(** [LogicalVolume::import] *)
Definition import : V unit :=
  lv ← this; if negb (ours lv) || negb (vg_ours lv) then mret tt else import_bdev.

(** [export_bdev]; a URI that does not parse panics. *)
Definition export_bdev : V unit :=
  lv ← this;
  match bdev lv with
  | None => mret tt
  | Some o =>
      let uri := open_uri o in
      on_sys (
        s ← ST.get;
        (match bdev_by_name s uri with Some b => bdev_unshare uri b;; mret tt | None => mret tt end);;
        r ← call (bdev_destroy uri);
        match r with
        | None | Some Panicked => ST.panic
        | Some (Ok _) | Some (Err (Bdev.NotFound _)) => mret tt
        | Some (Err e) => ST.fail (BdevExport e)
        end);;
      upd (set_bdev None)
  end.

(** ** Logical volumes: reading *)

(** A row, with [import_attrs] *)
Definition decode_lv (r : lv_row) : outcome Error LogicalVolume :=
  ext ← number "lvs" (r_extent_size r);
  size ← number "lvs" (r_lv_size r);
  let tags := tags_of (r_lv_tags r) in
  Ok (mkLv (r_lv_uuid r) (r_lv_name r) (r_lvg_name r) (r_lvg_uuid r) ext (r_lv_path r) size tags (tags_of (r_lvg_tags r))
        (match property TLvShare tags with Some (LvShare p) => p | _ => Off end)
        (match property TLvName tags with Some (LvName n) => Some n | _ => None end)
        (match property TLvEntityId tags with Some (LvEntityId n) => Some n | _ => None end) None false).

Definition lvs_args : list string :=
  ["--report-format=json"; "--options=lv_name,lv_uuid,lv_size,lv_path,lv_tags,vg_name,vg_uuid,vg_tags,vg_extent_size";
   "--units=b"; "--nosuffix"; "-q"]%string.

(** [LogicalVolume::fetch] *)
Definition lv_fetch (q : QueryArgs) : M (list LogicalVolume) :=
  sel ← ST.lift (lv_query q);
  report lv_json decode_lv "lvs" (with_select lvs_args sel).

(** [LogicalVolume::list]: all are imported, and the last error is reported. *)
Fixpoint import_each (lvs : list LogicalVolume) (g_error : option Error) : M (list LogicalVolume) :=
  match lvs with
  | [] => match g_error with Some e => ST.fail e | None => mret [] end
  | lv :: lvs =>
      r ← ST.try (with_lv lv import);
      match r with
      | Ok (_, lv) => rest ← import_each lvs g_error; mret (lv :: rest)
      | Err e => import_each lvs (Some e)
      | Panicked => ST.panic
      end
  end.

Definition lv_list (q : QueryArgs) : M (list LogicalVolume) := lvs ← lv_fetch q; import_each lvs None.

(** [LogicalVolume::lookup] *)
Definition lv_lookup (q : QueryArgs) : M LogicalVolume :=
  lvs ← lv_list q;
  match lvs with lv :: _ => mret lv | [] => ST.fail (LvNotFound (query_text (lv_query q))) end.

(** [LogicalVolume::create]: one that exists is taken if it is what is asked for. *)
Definition lv_create (pool : VolumeGroup) (args : ReplicaArgs) (sh : Protocol) (spdk : bool) : M LogicalVolume :=
  r ← ST.try (create_lvoli pool args sh spdk);
  error ← (match r with
           | Ok _ => mret None
           | Err (Exists e) => mret (Some (Exists e))
           | Err e => ST.fail e
           | Panicked => ST.panic
           end);
  lv ← lv_lookup (mkLvQuery (uuided (vg_uuid pool) (ours_if spdk)) (uuided (ra_uuid args) (ours_if spdk)) false);
  match error with
  | None => mret lv
  | Some e =>
      if bool_decide (name lv = Some (ra_name args)) && bool_decide (lv_name lv = ra_uuid args) && (size lv =? ra_size args) &&
         bool_decide (entity_id lv = ra_entity_id args) && bool_decide (default Off (share_proto lv) = sh)
      then mret lv else ST.fail e
  end.

(** [VolumeGroup::create_lvol] *)
Definition create_lvol (vg : VolumeGroup) (args : ReplicaArgs) : M LogicalVolume :=
  lv_create vg args Off (bool_decide (PLvm ∈ vg_tags vg)).

(** ** Volume groups: import, export and removal *)

Definition list_lvs (vg : VolumeGroup) : M (list LogicalVolume) :=
  lv_list (mkLvQuery (named (vg_name vg) (uuided (vg_uuid vg) ours_query)) ours_query false).

Definition list_foreign_lvs (vg : VolumeGroup) : M (list LogicalVolume) :=
  lvs ← lv_list (mkLvQuery (named (vg_name vg) (uuided (vg_uuid vg) any)) any false);
  mret (List.filter (λ lv, negb (ours lv)) lvs).

(** [VolumeGroup::import] *)
Definition vg_import (args : PoolArgs) : M VolumeGroup := vg ← import_inner args; list_lvs vg;; mret vg.

Fixpoint export_each (lvs : list LogicalVolume) : M unit :=
  match lvs with [] => mret tt | lv :: lvs => with_lv lv export_bdev;; export_each lvs end.

(** [VolumeGroup::export] *)
Definition vg_export (vg : VolumeGroup) : M unit :=
  lvs ← list_lvs vg;
  export_each lvs;;
  run "vgchange" [vg_name vg; del PLvm].

(** [destroy_] *)
Definition destroy_ (vg : VolumeGroup) (purge_always : bool) : M unit :=
  vg_export vg;;
  foreign_lvs ← list_foreign_lvs vg;
  (if purge_always || bool_decide (foreign_lvs = [])
   then run "vgremove" ["--select=vg_name=" +:+ vg_name vg; "-y"]%string;; run "pvremove" (vg_disks vg)
   else mret tt);;
  ok_ (vg_ptpl_destroy (vg_name vg)).

Definition vg_destroy (vg : VolumeGroup) : M unit := destroy_ vg false.
Definition vg_purge (vg : VolumeGroup) : M unit := destroy_ vg true.

Fixpoint export_pools (vgs : list VolumeGroup) : M unit :=
  match vgs with [] => mret tt | vg :: vgs => ok_ (vg_export vg);; export_pools vgs end.

(** [export_all] *)
Definition export_all : M unit :=
  r ← ST.try (vg_list ours_query);
  match r with Ok pools => export_pools pools | _ => mret tt end.

(** ** Logical volumes: changes *)

(** [set_properties]: the tags that were read are kept as they are. *)
Definition set_properties (ps : list Property) : V unit :=
  lv ← this;
  match build_set_properties_args (lv_tags lv) ps with
  | [] => mret tt
  | args =>
      r ← ST.try (on_sys (run "lvchange" (args ++ [lv_path lv])));
      match r with Err e => upd set_dirty;; ST.fail e | r => ST.lift r end
  end.

(** [sync_share_opts] and [sync_share_protocol] *)
Definition sync_share_opts : V unit :=
  lv ← this;
  match bdev lv with
  | None => mret tt
  | Some o => set_properties [LvShare (o_share o); LvAllowedHosts (allowed_hosts o)]
  end.

Definition sync_share_protocol (p : Protocol) : V unit := set_properties [LvShare p];; upd (set_share p).

(** [bdev_mut_uri] *)
Definition bdev_mut : V BdevOpts :=
  lv ← this; match bdev lv with Some o => mret o | None => ST.fail BdevMissing end.

(** [LogicalVolume::share_nvmf] *)
Definition share_nvmf (props : option Subsys.NvmfShareProps) : V string :=
  o ← bdev_mut;
  let uri := open_uri o in
  p ← on_sys (
    b ← get_bdev uri;
    nqn ← bdev_share_nvmf uri b props;
    b ← reread uri b;
    mret (nqn, opts_of b));
  upd (set_bdev (Some (update_from o p.2)));;
  sync_share_opts;;
  mret p.1.

(** [update_share_props] *)
Definition update_share_props (hosts : list string) : V unit :=
  o ← bdev_mut;
  let uri := open_uri o in
  to ← on_sys (
    b ← get_bdev uri;
    comp (λ e, UpdateProps e (b_name b)) (bdev_update (b_name b) hosts);;
    b ← reread uri b;
    mret (opts_of b));
  upd (set_bdev (Some (update_from o to)));;
  sync_share_opts.

(** [LogicalVolume::unshare] *)
Definition unshare (persist : bool) : V unit :=
  o ← bdev_mut;
  let uri := open_uri o in
  sh ← on_sys (b ← get_bdev uri; bdev_unshare uri b);
  upd (set_bdev (Some (mkOpts sh (open_uri o) (allowed_hosts o) Off (o_size o))));;
  if persist then sync_share_protocol Off else mret tt.

(** [set_entity_id] of [ReplicaOps] *)
Definition set_entity_id (id : string) : V unit := set_properties [LvEntityId id].

(** [resize_lv] *)
Definition resize_lv (size : Z) (lv : LogicalVolume) : M unit :=
  r ← ST.try (run "lvresize" [lv_path lv; "-L" +:+ pretty size +:+ "b"; "-y"]%string);
  match r with
  | Err (LvmBinErr c e) =>
      if Subsys.starts_with "Insufficient free space" e then ST.fail (NoSpace e) else ST.fail (LvmBinErr c e)
  | r => ST.lift r
  end.

(** [resize_bdev] *)
Definition resize_bdev (size : Z) : V unit :=
  lv ← this;
  match bdev lv with
  | None => mret tt
  | Some o =>
      n ← on_sys (
        b ← get_bdev (open_uri o);
        blk_cnt ← ST.lift (u64_div size (b_block_len b));
        rc ← call (notify_blockcnt_change (b_name b) blk_cnt);
        b ← reread (open_uri o) b;
        mret (rc, b_size b));
      if negb (n.1 =? 0) then ST.fail BdevShareUri
      else upd (set_bdev (Some (mkOpts (share_uri o) (open_uri o) (allowed_hosts o) (o_share o) n.2)))
  end.

(** [LogicalVolume::resize] *)
Definition resize (size : Z) : V unit :=
  lv ← this;
  on_sys (resize_lv size lv);;
  r ← ST.try (resize_bdev size);
  match r with
  | Err e => on_sys (ok_ (resize_lv (lv_size lv) lv));; ST.fail e
  | r => ST.lift r
  end.

(** [LogicalVolume::destroy] *)
Definition lv_destroy (lv : LogicalVolume) : M unit :=
  with_lv lv export_bdev;;
  run "lvremove" [lv_path lv; "-y"]%string;;
  ok_ (lv_ptpl_destroy (lvg_name lv) (lv_name lv)).

(** ** Logical volumes: the device mapper *)

Definition suspend (lv : LogicalVolume) : M DmState := dm_suspend (lv_path lv);; dm_state (lv_path lv).
Definition resume (lv : LogicalVolume) : M DmState := dm_resume (lv_path lv);; dm_state (lv_path lv).

(** [sz]: in sectors *)
Definition sz (lv : LogicalVolume) : M Z :=
  out ← output "blockdev" ["--getsz"; lv_path lv]%string None;
  match Uri.parse_uint u64_max (trim_end out) with inr n => mret n | inl e => ST.fail (Internal e) end.

Definition bork (lv : LogicalVolume) : M string :=
  current ← dm_table (lv_path lv);
  n ← sz lv;
  dm_load (lv_path lv) ("0 " +:+ pretty n +:+ " error")%string;;
  ok_ (resume lv);;
  mret current.

Definition unbork (table : string) (lv : LogicalVolume) : M DmState := dm_load (lv_path lv) table;; resume lv.

(** ** The factories *)

Inductive FindPoolArgs :=
| FindUuid (uuid : string)
| FindUuidOrName (id : string)
| FindNameUuid (name : string) (uuid : option string).

(** [PoolLvmFactory::find] and [list]; [lvm] is whether the feature is enabled. *)
Definition find_pool (lvm : bool) (args : FindPoolArgs) : M (option VolumeGroup) :=
  if negb lvm then mret None
  else
    let q := match args with
             | FindUuid u | FindUuidOrName u => uuided u ours_query
             | FindNameUuid n u => uuid_opt u (named n ours_query)
             end in
    r ← ST.try (vg_lookup q);
    match r with
    | Ok vg => mret (Some vg)
    | Err (NotFound _) => mret None
    | Err e => ST.fail e
    | Panicked => ST.panic
    end.

Definition list_pools (lvm other_backend : bool) (n u : option string) : M (list VolumeGroup) :=
  if negb lvm || other_backend then mret [] else vg_list (uuid_opt u (named_opt n ours_query)).

(** [ReplLvmFactory::find] and [list] *)
Definition find_replica (uuid : string) : M (option LogicalVolume) :=
  r ← ST.try (lv_lookup (mkLvQuery any (uuided uuid ours_query) false));
  match r with
  | Ok lv => mret (Some lv)
  | Err (NotFound _) => mret None
  | Err e => ST.fail e
  | Panicked => ST.panic
  end.

Definition list_replicas (lvm : bool) (n u pool_name pool_uuid : option string) : M (list LogicalVolume) :=
  if negb lvm then mret []
  else lv_list (mkLvQuery (uuid_opt pool_uuid (named_opt pool_name ours_query)) (uuid_opt u (named_opt n ours_query)) false).

(** [From<LvmError> for Status] *)
Definition status_code (e : Error) : NexusErrors.Code :=
  match e with
  | InvalidPoolType _ | VgUuidSet | DisksMismatch _ _ => NexusErrors.InvalidArgument
  | NotFound _ | LvNotFound _ => NexusErrors.NotFound
  | NoSpace _ => NexusErrors.ResourceExhausted
  | SnapshotNotSup => NexusErrors.FailedPrecondition
  | _ => NexusErrors.Internal
  end.

End Ops.

End LvmVol.
