(* ===== verification/LvmProps.v ===== *)
(** * The LVM backend: tags and foreign volumes

    What is documented of the tools as laws, and what follows for the backend:
    properties that are set are read back, and a pool with volumes of others is not
    removed with its own. *)

From Stdlib Require Import Ascii String.
From stdpp Require Import pretty.
From S2P Require Import Prelude Text Wp Errors NexusErrors NvmfSubsystem BdevUri Lvm LvmVolumes.

#[local] Open Scope Z_scope.

Module LvmProps.
Import Lvm LvmVol.

(** ** Tags *)

(** The values that a tag can hold: LVM allows no comma, and the tag is split at each [=]. *)
Definition plain (s : string) : Prop := has "=" s = false ∧ has "," s = false.

Definition storable (p : Property) : Prop :=
  match p with
  | PLvm | LvShare _ | LvAllowedHosts [] => True
  | LvName s | LvEntityId s => plain s
  | LvAllowedHosts [h] => plain h ∧ h ≠ ""%string
  | LvAllowedHosts _ => False
  | PUnknown k v => plain k ∧ plain v ∧ type_from_str k = None
  end.

(** A tag as this backend writes it, or of others *)
Definition canonical (t : string) : Prop := tag (new t) = t ∨ type_ (new t) = TUnknown.

Lemma split_pair k v : has "=" k = false → has "=" v = false → split "=" (k +:+ String "=" v)%string = [k; v].
Proof. intros Hk Hv. by rewrite split_app, split_none. Qed.

Lemma key_plain p : storable p → plain (key p).
Proof. destruct p; try (intros _; split; reflexivity). cbn. naive_solver. Qed.

Lemma value_plain p v : storable p → value p = Some v → plain v.
Proof.
  destruct p as [|k v'|s|pr|hs|s]; intros Hp [= <-]; try done; [naive_solver|by destruct pr|].
  destruct hs as [|h [|]]; [done|naive_solver|done].
Qed.

(** A stored property is read back. *)
Lemma new_tag p : storable p → new (tag p) = p.
Proof.
  intros Hp. pose proof (key_plain p Hp) as [Hk _]. pose proof (value_plain p) as Hv. unfold tag, new.
  destruct (value p) as [v|] eqn:E; [|by destruct p].
  destruct (Hv v Hp eq_refl) as [He _]. rewrite split_pair by done.
  destruct p as [|k v'|s|[]|hs|s]; cbn in E; simplify_eq; try done.
  - destruct Hp as (_ & _ & Hn). unfold new_known. cbn [key]. by rewrite Hn.
  - destruct hs as [|h [|]]; [done| |done]. destruct Hp as [[_ Hc] Hne].
    change (key _) with "mayastor.lv.allowed_hosts"%string. unfold new_known. cbn [join default].
    change (type_from_str _) with (Some TLvAllowedHosts). cbn [mbind option_bind]. rewrite split_none by done. cbn.
    by rewrite bool_decide_false.
Qed.

Lemma tag_plain p : storable p → has "," (tag p) = false ∧ tag p ≠ ""%string.
Proof.
  intros Hp. pose proof (key_plain p Hp) as [_ Hk]. pose proof (value_plain p) as Hv. unfold tag.
  destruct (value p) as [v|] eqn:E.
  - destruct (Hv v Hp eq_refl) as [_ Hc]. split; [|by destruct (key p)]. rewrite has_app, Hk. cbn. done.
  - by destruct p.
Qed.

Lemma skip_empty_none l : Forall (.≠ ""%string) l → skip_empty l = l.
Proof. destruct 1 as [|x l Hx]; [done|]. cbn. by rewrite bool_decide_false. Qed.

(** Properties that are stored together are read back together. *)
Lemma tags_round_trip ps : Forall storable ps → tags_of (join "," (tag <$> ps)) = ps.
Proof.
  intros Hp. destruct ps as [|p ps]; [done|]. unfold tags_of, comma_separated.
  rewrite split_join; [|done|].
  - rewrite skip_empty_none by (apply Forall_fmap; eapply Forall_impl; [done|]; intros; by apply tag_plain).
    rewrite <-list_fmap_compose. rewrite <-(list_fmap_id (p :: ps)) at 2.
    apply list_fmap_ext. intros i x Hx. apply new_tag. by eapply Forall_lookup_1.
  - apply Forall_fmap. eapply Forall_impl; [done|]. intros. by apply tag_plain.
Qed.

(** ** The laws of the tools *)

Inductive field := FVgName | FVgUuid | FVgTags | FLvName | FLvUuid | FLvTags.

Definition field_name (f : field) : string :=
  match f with
  | FVgName => "vg_name" | FVgUuid => "vg_uuid" | FVgTags => "vg_tags"
  | FLvName => "lv_name" | FLvUuid => "lv_uuid" | FLvTags => "lv_tags"
  end.

(** A condition of a selection; a list of tags is selected by one of them. *)
Definition cond : Type := field * string.

Definition meets (r : lv_row) (c : cond) : bool :=
  let '(f, v) := c in
  match f with
  | FVgName => bool_decide (r_lvg_name r = v)
  | FVgUuid => bool_decide (r_lvg_uuid r = v)
  | FVgTags => bool_decide (v ∈ comma_separated (r_lvg_tags r))
  | FLvName => bool_decide (r_lv_name r = v)
  | FLvUuid => bool_decide (r_lv_uuid r = v)
  | FLvTags => bool_decide (v ∈ comma_separated (r_lv_tags r))
  end.

Definition cond_text (c : cond) : string := (field_name c.1 +:+ String "=" c.2)%string.
Definition selection (cs : list cond) : list string :=
  match cs with [] => [] | _ => ["--select=" +:+ join "," (cond_text <$> cs)]%string end.

(** What identifies a volume, and what is stored in it *)
Definition vol : Type := string * string * string * string * string.
Definition vol_of (r : lv_row) : vol := (r_lvg_name r, r_lvg_uuid r, r_lv_name r, r_lv_path r, r_lv_tags r).

(** How a command changes the tags of the volume at [path] *)
Definition retagged (path : string) (adds dels : list string) (r r' : lv_row) : Prop :=
  (r_lv_name r', r_lv_uuid r', r_lv_size r', r_lv_path r', r_lvg_name r', r_lvg_uuid r', r_lvg_tags r', r_extent_size r') =
  (r_lv_name r, r_lv_uuid r, r_lv_size r, r_lv_path r, r_lvg_name r, r_lvg_uuid r, r_lvg_tags r, r_extent_size r) ∧
  if bool_decide (r_lv_path r = path) then
    ∀ t, t ∈ comma_separated (r_lv_tags r') ↔ t ∈ comma_separated (r_lv_tags r) ∧ t ∉ dels ∨ t ∈ adds
  else r_lv_tags r' = r_lv_tags r.

(** [lvchange] takes the changes in any order. *)
Inductive tag_args : list string → list string → list string → Prop :=
| tag_args_nil : tag_args [] [] []
| tag_args_add t l adds dels : tag_args l adds dels → tag_args (("--addtag=" +:+ t)%string :: l) (t :: adds) dels
| tag_args_del t l adds dels : tag_args l adds dels → tag_args (("--deltag=" +:+ t)%string :: l) adds (t :: dels).

(** The commands that change logical volumes *)
Definition lv_commands : list string := ["lvcreate"; "lvchange"; "lvresize"; "lvremove"; "vgremove"; "vgchange"]%string.

Class LvmLaws {T : Tools} := {
  lv_rows : sys → list lv_row;
  (** Other commands leave the volumes as they are; [vgchange] changes the tags of the group. *)
  other_commands : ∀ c args i s, c ∉ lv_commands → lv_rows (run_cmd c args i s).1 = lv_rows s;
  vgchange_law : ∀ args i s, vol_of <$> lv_rows (run_cmd "vgchange" args i s).1 = vol_of <$> lv_rows s;
  (** A report that is decoded has the volumes that meet the conditions. *)
  lvs_law : ∀ cs s out rows rest, Forall (λ c, has "," c.2 = false) cs →
    (run_cmd "lvs" (lvs_args ++ selection cs) None s).2 = Done out → lv_json out = inr (rows :: rest) →
    rows = List.filter (λ r, forallb (meets r) cs) (lv_rows s);
  (** [lvchange] that succeeds has changed the tags. *)
  lvchange_law : ∀ args adds dels path s out, args ≠ [] → tag_args args adds dels →
    Forall (λ t, has "," t = false ∧ t ≠ ""%string ∧ t ∉ dels) adds →
    (run_cmd "lvchange" (args ++ [path]) None s).2 = Done out →
    Forall2 (retagged path adds dels) (lv_rows s) (lv_rows (run_cmd "lvchange" (args ++ [path]) None s).1);
  (** Files and bdevs are not volumes. *)
  files_law : ∀ p s, lv_rows (create_dir_all p s).1 = lv_rows s ∧ lv_rows (remove_file p s).1 = lv_rows s ∧
    lv_rows (remove_dir_all p s).1 = lv_rows s;
  bdevs_law : ∀ n hs props x s, lv_rows (bdev_create n s).1 = lv_rows s ∧ lv_rows (bdev_destroy n s).1 = lv_rows s ∧
    lv_rows (bdev_share n props s).1 = lv_rows s ∧ lv_rows (bdev_update n hs s).1 = lv_rows s ∧
    lv_rows (bdev_unshare_ n s).1 = lv_rows s ∧ lv_rows (notify_blockcnt_change n x s).1 = lv_rows s;
}.

(** ** Selections *)

Lemma trim_end_snoc c s : Uri.trim_end c (s +:+ String c "")%string = Uri.trim_end c s.
Proof.
  induction s as [|a s IH]; simpl; [by rewrite bool_decide_true|]. by rewrite IH.
Qed.

Lemma trim_end_id c s : has c s = false → Uri.trim_end c s = s.
Proof.
  induction s as [|a s IH]; [done|]. cbn [has Uri.trim_end]. intros [Ha Hs]%orb_false_iff. rewrite IH by done.
  by rewrite Ha.
Qed.

Lemma trim_end_app c a s : has c s = false → s ≠ ""%string → Uri.trim_end c (a +:+ s)%string = (a +:+ s)%string.
Proof.
  intros Hs Hne. induction a as [|x a IH]; [by apply trim_end_id|]. simpl. rewrite IH.
  case_bool_decide; [|done]. by destruct a, s.
Qed.

(** The text that the code builds: each condition ends in a comma. *)
Definition conds_text (cs : list cond) : string := foldr (λ c s, cond_text c +:+ String "," s)%string ""%string cs.

Lemma cond_text_plain c : has "," c.2 = false → has "," (cond_text c) = false ∧ cond_text c ≠ ""%string.
Proof.
  intros Hc. unfold cond_text. split; [|by destruct c as [[] ?]]. rewrite has_app. cbn. rewrite Hc.
  by destruct c as [[] ?].
Qed.

Lemma trim_conds a cs : cs ≠ [] → Forall (λ c, has "," c.2 = false) cs →
  Uri.trim_end "," (a +:+ conds_text cs)%string = (a +:+ join "," (cond_text <$> cs))%string.
Proof.
  intros Hne Hcs. revert a. induction Hcs as [|c cs Hc Hcs IH]; [done|]; intros a. apply cond_text_plain in Hc as [Hp Hn].
  destruct cs as [|c' cs].
  - change (conds_text [c]) with (cond_text c +:+ String "," "")%string. cbn [fmap list_fmap join].
    rewrite <-app_assoc_str, trim_end_snoc. by apply trim_end_app.
  - specialize (IH ltac:(done) (a +:+ cond_text c +:+ String "," "")%string).
    change (conds_text (c :: c' :: cs)) with (cond_text c +:+ String "," (conds_text (c' :: cs)))%string.
    transitivity (Uri.trim_end "," ((a +:+ cond_text c +:+ String "," "") +:+ conds_text (c' :: cs)))%string.
    { by rewrite !app_assoc_str. }
    rewrite IH. change (join "," (cond_text <$> c :: c' :: cs)) with (cond_text c +:+ String "," (join "," (cond_text <$> c' :: cs)))%string.
    by rewrite !app_assoc_str.
Qed.

Lemma with_select_conds args cs : Forall (λ c, has "," c.2 = false) cs → with_select args (conds_text cs) = args ++ selection cs.
Proof.
  intros Hcs. unfold with_select, selection. destruct cs as [|c cs]; [by rewrite app_nil_r|].
  rewrite bool_decide_false; [|by destruct c as [[] ?]]. by rewrite trim_conds.
Qed.

Definition opt_cond (f : field) (o : option string) : list cond := option_list ((λ v, (f, v)) <$> o).

Definition vg_conds (q : CmnQueryArgs) : list cond :=
  opt_cond FVgName (q_name q) ++ opt_cond FVgUuid (q_uuid q) ++ opt_cond FVgTags (q_tag q).

(** The conditions of a query on replicas *)
Definition lv_conds (q : QueryArgs) : list cond :=
  vg_conds (q_vg q) ++
  (if regular_lv q then opt_cond FLvName (q_name (q_lv q)) ++ opt_cond FLvUuid (q_uuid (q_lv q))
   else opt_cond FLvTags ((λ n, tag (LvName n)) <$> q_name (q_lv q)) ++ opt_cond FLvName (q_uuid (q_lv q))) ++
  opt_cond FLvTags (q_tag (q_lv q)).

Lemma alnum_no_comma v : str_forall alnum v = true → has "," v = false.
Proof.
  induction v as [|a v IH]; [done|]. cbn [str_forall has]. intros [Ha Hv]%andb_prop.
  rewrite IH by done. rewrite bool_decide_false; [done|]. intros ->. done.
Qed.

Lemma conds_text_app a b : conds_text (a ++ b) = (conds_text a +:+ conds_text b)%string.
Proof.
  induction a as [|c a IH]; [done|].
  change (conds_text ((c :: a) ++ b)) with (cond_text c +:+ String "," (conds_text (a ++ b)))%string.
  rewrite IH. change (conds_text (c :: a)) with (cond_text c +:+ String "," (conds_text a))%string. by rewrite app_assoc_str.
Qed.

Lemma select_conds o n f t : select o n (field_name f +:+ "=")%string = Ok t →
  t = conds_text (opt_cond f o) ∧ Forall (λ c, has "," c.2 = false) (opt_cond f o).
Proof.
  unfold select, is_alphanumeric. destruct o as [v|]; [|by intros [= <-]].
  destruct (str_forall alnum v) eqn:E; [|done]. intros [= <-]. split; [|by repeat constructor; apply alnum_no_comma].
  cbn. unfold cond_text. cbn. by rewrite !app_assoc_str.
Qed.

Lemma vg_query_conds q t : vg_query q = Ok t → t = conds_text (vg_conds q) ∧ Forall (λ c, has "," c.2 = false) (vg_conds q).
Proof.
  unfold vg_query, vg_conds. intros H.
  destruct (select (q_name q) _ _) as [a| |] eqn:Ea; [|done..]. cbn in H.
  destruct (select (q_uuid q) _ _) as [b| |] eqn:Eb; [|done..]. cbn in H.
  destruct (select (q_tag q) _ _) as [c| |] eqn:Ec; [|done..]. cbn in H. simplify_eq.
  apply (select_conds _ _ FVgName) in Ea as [-> ?]. apply (select_conds _ _ FVgUuid) in Eb as [-> ?].
  apply (select_conds _ _ FVgTags) in Ec as [-> ?]. rewrite !conds_text_app. split; [done|]. by rewrite !Forall_app.
Qed.

Lemma tag_cond o : match o with Some t => "lv_tags=" +:+ t +:+ "," | None => "" end%string = conds_text (opt_cond FLvTags o).
Proof. destruct o; [|done]. cbn. unfold cond_text. cbn. by rewrite !app_assoc_str. Qed.

(** The selection that the code builds says what the query asks for. *)
Lemma lv_query_conds q t : from_option (λ t, has "," t = false) True (q_tag (q_lv q)) →
  lv_query q = Ok t → t = conds_text (lv_conds q) ∧ Forall (λ c, has "," c.2 = false) (lv_conds q).
Proof.
  unfold lv_query, lv_conds. intros Htag H. destruct (vg_query (q_vg q)) as [v| |] eqn:Ev; [|done..]. cbn in H.
  apply vg_query_conds in Ev as [-> Hv]. rewrite tag_cond in H.
  assert (Forall (λ c, has "," c.2 = false) (opt_cond FLvTags (q_tag (q_lv q)))) as Ht.
  { destruct (q_tag (q_lv q)); repeat constructor. done. }
  destruct (regular_lv q).
  - destruct (select (q_name (q_lv q)) _ _) as [a| |] eqn:Ea; [|done..]. cbn in H.
    destruct (select (q_uuid (q_lv q)) _ _) as [b| |] eqn:Eb; [|done..]. cbn in H. simplify_eq.
    apply (select_conds _ _ FLvName) in Ea as [-> ?]. apply (select_conds _ _ FLvUuid) in Eb as [-> ?].
    rewrite !conds_text_app, !app_assoc_str. split; [done|]. by rewrite !Forall_app.
  - destruct (match q_name (q_lv q) with None => _ | Some n => _ end) as [a| |] eqn:Ea; [|done..]. cbn in H.
    destruct (select (q_uuid (q_lv q)) _ _) as [b| |] eqn:Eb; [|done..]. cbn in H. simplify_eq.
    apply (select_conds _ _ FLvName) in Eb as [-> ?].
    assert (a = conds_text (opt_cond FLvTags ((λ n, tag (LvName n)) <$> q_name (q_lv q))) ∧
            Forall (λ c, has "," c.2 = false) (opt_cond FLvTags ((λ n, tag (LvName n)) <$> q_name (q_lv q)))) as [-> ?].
    { destruct (q_name (q_lv q)) as [n|]; [|by simplify_eq]. unfold is_alphanumeric in Ea.
      destruct (str_forall alnum n) eqn:En; [|done]. cbn in Ea. simplify_eq. split.
      - rewrite <-tag_cond. done.
      - repeat constructor. cbn [snd]. unfold tag. cbn [value]. rewrite has_app. cbn. by apply alnum_no_comma. }
    rewrite !conds_text_app, !app_assoc_str. split; [done|]. by rewrite !Forall_app.
Qed.

(** ** Properties that are set *)

Definition known (p : Property) : Prop := type_ p ≠ TUnknown.

Lemma type_from_str_known k : type_from_str k = None → ∀ ty, ty ≠ TUnknown → k ≠ type_value ty.
Proof. intros Hk ty Hty ->. by destruct ty. Qed.

Lemma new_key t ty : ty ≠ TUnknown → key (new t) = type_value ty ↔ type_ (new t) = ty.
Proof.
  intros Hty. assert (∀ k v, key (default (PUnknown k v) (new_known k v)) = type_value ty ↔ type_ (default (PUnknown k v) (new_known k v)) = ty) as Hd.
  { intros k v. unfold new_known. destruct (type_from_str k) as [ty'|] eqn:E.
    - unfold type_from_str in E. apply fmap_Some in E as ((n & ty'') & (Hn & _ & _)%list_find_Some & ->).
      cbn [snd mbind option_bind]. destruct n as [|[|[|[|[|n]]]]]; cbn in Hn; simplify_eq; destruct ty; try done; split; done.
    - cbn. pose proof (type_from_str_known k E ty Hty). split; [done|]. intros <-. done. }
  unfold new. destruct (split "=" t) as [|k [|v [|]]]; apply Hd.
Qed.

Lemma elem_properties p tags q : known p → (∃ ts, tags = new <$> ts) → q ∈ properties (type_ p) tags ↔ q ∈ tags ∧ type_ q = type_ p.
Proof.
  intros Hp [ts ->]. unfold properties. rewrite list_elem_of_In, filter_In, <-list_elem_of_In, bool_decide_eq_true.
  split; intros [Hq Hk]; (split; [done|]); apply list_elem_of_fmap in Hq as (t & -> & _); by apply new_key in Hk || apply new_key.
Qed.

Definition dels_of (tags : list Property) (p : Property) : list string :=
  tag <$> List.filter (λ old, negb (bool_decide (old = p))) (properties (type_ p) tags).
Definition adds_of (tags : list Property) (p : Property) : list string :=
  if bool_decide (p ∈ properties (type_ p) tags) then [] else [tag p].

Lemma tag_args_inv adds dels : tag_args [] adds dels → adds = [] ∧ dels = [].
Proof. by inversion 1. Qed.

Lemma tag_args_app a1 d1 l1 a2 d2 l2 : tag_args l1 a1 d1 → tag_args l2 a2 d2 → tag_args (l1 ++ l2) (a1 ++ a2) (d1 ++ d2).
Proof. induction 1; intros; cbn; [done|constructor; auto..]. Qed.

Lemma set_args tags ps : tag_args (build_set_properties_args tags ps) (ps ≫= adds_of tags) (ps ≫= dels_of tags).
Proof.
  unfold build_set_properties_args. induction ps as [|p ps IH]; [constructor|]. cbn. apply tag_args_app; [|done].
  unfold build_set_property_args, adds_of, dels_of. rewrite <-(app_nil_r (tag <$> _)). apply (tag_args_app [] _ _ _ []).
  - induction (List.filter _ _); [constructor|]. cbn. by apply tag_args_del.
  - case_bool_decide; [constructor|]. apply tag_args_add. constructor.
Qed.

Lemma elem_dels ts ps t : Forall known ps → t ∈ ps ≫= dels_of (new <$> ts) ↔
  ∃ p q, p ∈ ps ∧ q ∈ new <$> ts ∧ type_ q = type_ p ∧ q ≠ p ∧ t = tag q.
Proof.
  intros Hps. rewrite list_elem_of_bind. unfold dels_of. split.
  - intros (p & Ht & Hp). apply list_elem_of_fmap in Ht as (q & -> & Hq).
    rewrite list_elem_of_In, filter_In, <-list_elem_of_In, negb_true_iff, bool_decide_eq_false in Hq. destruct Hq as [Hq Hne].
    apply elem_properties in Hq as [Hq Hty]; [|by eapply Forall_forall|by eexists]. eauto 10.
  - intros (p & q & Hp & Hq & Hty & Hne & ->). exists p. split; [|done]. apply list_elem_of_fmap. exists q. split; [done|].
    rewrite list_elem_of_In, filter_In, <-list_elem_of_In, negb_true_iff, bool_decide_eq_false. split; [|done].
    apply elem_properties; [by eapply Forall_forall|by eexists|done].
Qed.

Lemma elem_adds ts ps t : Forall known ps → t ∈ ps ≫= adds_of (new <$> ts) ↔ ∃ p, p ∈ ps ∧ p ∉ new <$> ts ∧ t = tag p.
Proof.
  intros Hps. rewrite list_elem_of_bind. unfold adds_of.
  assert (∀ p, p ∈ ps → p ∈ properties (type_ p) (new <$> ts) ↔ p ∈ new <$> ts) as Hiff.
  { intros p Hp. rewrite elem_properties; [naive_solver|by eapply Forall_forall|by eexists]. }
  split.
  - intros (p & Ht & Hp). case_bool_decide as E; [by apply not_elem_of_nil in Ht|]. apply list_elem_of_singleton in Ht as ->.
    exists p. by rewrite Hiff in E.
  - intros (p & Hp & Hn & ->). exists p. split; [|done]. rewrite <-Hiff in Hn by done. rewrite bool_decide_false by done.
    by apply list_elem_of_singleton.
Qed.

(** A tag as the backend writes it is the tag of what is read from it. *)
Lemma canonical_known ts q : Forall canonical ts → q ∈ new <$> ts → known q → tag q ∈ ts ∧ new (tag q) = q.
Proof.
  intros Hts (t & -> & Ht)%list_elem_of_fmap Hk. rewrite Forall_forall in Hts. destruct (Hts t Ht) as [Hc|Hc]; [|done].
  by rewrite Hc.
Qed.

Section SetTags.
Context (ts : list string) (ps : list Property).
Hypothesis Hts : Forall canonical ts.
Hypothesis Hps : Forall storable ps.
Hypothesis Hknown : Forall known ps.
Hypothesis Htypes : NoDup (type_ <$> ps).

Lemma same_type p q : p ∈ ps → q ∈ ps → type_ p = type_ q → p = q.
Proof.
  intros [i Hi]%list_elem_of_lookup [j Hj]%list_elem_of_lookup Ht.
  assert (i = j) as ->; [|by simplify_eq]. eapply (NoDup_lookup (type_ <$> ps)); [done|..]; rewrite list_lookup_fmap.
  - by rewrite Hi.
  - rewrite Hj. cbn. by rewrite Ht.
Qed.

Lemma adds_not_dels t : t ∈ ps ≫= adds_of (new <$> ts) → t ∉ ps ≫= dels_of (new <$> ts).
Proof.
  rewrite elem_adds, elem_dels by done. intros (p & Hp & Hn & ->) (p' & q & Hp' & Hq & Hty & Hne & E).
  assert (known q) as Hkq. { unfold known. rewrite Hty. by eapply Forall_forall in Hknown. }
  destruct (canonical_known ts q Hts Hq Hkq) as [_ Hnq]. rewrite <-E, new_tag in Hnq by (by eapply Forall_forall in Hps). by subst.
Qed.

Lemma adds_are_tags : Forall (λ t, has "," t = false ∧ t ≠ ""%string ∧ t ∉ ps ≫= dels_of (new <$> ts)) (ps ≫= adds_of (new <$> ts)).
Proof.
  apply Forall_forall. intros t Ht. pose proof (adds_not_dels t Ht). apply elem_adds in Ht as (p & Hp & _ & ->); [|done].
  destruct (tag_plain p); [by eapply Forall_forall in Hps|done].
Qed.

Context (ts' : list string).
Hypothesis Hts' : ∀ t, t ∈ ts' ↔ t ∈ ts ∧ t ∉ ps ≫= dels_of (new <$> ts) ∨ t ∈ ps ≫= adds_of (new <$> ts).

Lemma set_canonical : Forall canonical ts'.
Proof.
  apply Forall_forall. intros t [[Ht _]|Ht]%Hts'; [by eapply Forall_forall in Hts|].
  apply elem_adds in Ht as (p & Hp & _ & ->); [|done]. left. rewrite new_tag; [done|]. by eapply Forall_forall in Hps.
Qed.

Lemma set_tags q : q ∈ new <$> ts' ↔ q ∈ new <$> ts ∧ type_ q ∉ type_ <$> ps ∨ q ∈ ps.
Proof.
  split.
  - intros (t & -> & Ht)%list_elem_of_fmap. apply Hts' in Ht as [[Ht Hd]|Ht].
    + destruct (decide (type_ (new t) ∈ type_ <$> ps)) as [(p & Hty & Hp)%list_elem_of_fmap|Hty].
      * right. destruct (decide (new t = p)) as [<-|Hne]; [done|]. exfalso. apply Hd, elem_dels; [done|].
        assert (new t ∈ new <$> ts) as Hin by (by apply list_elem_of_fmap_2).
        exists p, (new t). split_and!; try done. destruct (proj1 (Forall_forall _ _) Hts t Ht) as [Hc|Hc]; [done|].
        eapply Forall_forall in Hknown; [|done]. unfold known in Hknown. congruence.
      * left. split; [by apply list_elem_of_fmap_2|done].
    + right. apply elem_adds in Ht as (p & Hp & _ & ->); [|done]. rewrite new_tag; [done|]. by eapply Forall_forall in Hps.
  - intros [[(t & -> & Ht)%list_elem_of_fmap Hty]|Hq].
    + apply list_elem_of_fmap_2, Hts'. left. split; [done|]. rewrite elem_dels by done.
      intros (p & q & Hp & Hq & Hqt & _ & ->). assert (known q). { unfold known. rewrite Hqt. by eapply Forall_forall in Hknown. }
      destruct (canonical_known ts q Hts Hq) as [_ Hnq]; [done|]. apply Hty. rewrite Hnq, Hqt. by apply list_elem_of_fmap_2.
    + destruct (decide (q ∈ new <$> ts)) as [Hin|Hin].
      * destruct (canonical_known ts q Hts Hin) as [Ht Hn]; [by eapply Forall_forall in Hknown|].
        rewrite <-Hn. apply list_elem_of_fmap_2, Hts'. left. split; [done|]. rewrite elem_dels by done.
        intros (p & q' & Hp & Hq' & Hty & Hne & E). assert (known q'). { unfold known. rewrite Hty. by eapply Forall_forall in Hknown. }
        destruct (canonical_known ts q' Hts Hq') as [_ Hn']; [done|]. rewrite <-E, Hn in Hn'. subst q'. by apply Hne, same_type.
      * rewrite <-(new_tag q) by (by eapply Forall_forall in Hps). apply list_elem_of_fmap_2, Hts'. right. apply elem_adds; [done|].
        exists q. by split_and!.
Qed.

End SetTags.

(** ** Volumes that stay *)

Section Laws.
Context {T : Tools} {L : LvmLaws}.

Definition vols (s : sys) : list vol := vol_of <$> lv_rows s.
Definition same_vols (s s' : sys) : Prop := vols s' = vols s.
Definition same_vols_v (s s' : sys * LogicalVolume) : Prop := same_vols s.1 s'.1.

#[local] Instance same_vols_preorder : PreOrder same_vols.
Proof. split; [done|]. unfold same_vols. by intros ??? -> ->. Qed.
#[local] Instance same_vols_v_preorder : PreOrder same_vols_v.
Proof. split; [done|]. unfold same_vols_v, same_vols. by intros ??? -> ->. Qed.

Lemma keeps_tool_call {A} (f : sys → sys * A) : (∀ s, same_vols s (f s).1) → keeps same_vols (call f).
Proof. intros Hf s. specialize (Hf s). unfold call. by destruct (f s). Qed.

Lemma keeps_comp {E A} err (f : sys → sys * outcome E A) : (∀ s, same_vols s (f s).1) → keeps same_vols (comp err f).
Proof. intros Hf. apply keeps_bind; [apply _|by apply keeps_tool_call|]. auto with keeps. Qed.

Lemma keeps_output c args i : c ∉ lv_commands ∨ c = "vgchange"%string → keeps same_vols (output c args i).
Proof.
  intros Hc. apply keeps_bind; [apply _| |intros []; auto with keeps]. apply keeps_tool_call. intros s.
  unfold same_vols, vols. destruct Hc as [Hc| ->]; [by rewrite other_commands|apply vgchange_law].
Qed.

Lemma keeps_run c args : c ∉ lv_commands ∨ c = "vgchange"%string → keeps same_vols (run c args).
Proof. intros Hc. unfold run. keeps_tac. by apply keeps_output. Qed.

Lemma keeps_io f : (∀ s, same_vols s (f s).1) → keeps same_vols (io f).
Proof. intros Hf s. specialize (Hf s). unfold io. by destruct (f s) as [? []]. Qed.

Lemma keeps_on_sys {A} (m : ST sys Error A) : keeps same_vols m → keeps same_vols_v (on_sys m).
Proof. intros Hm [s lv]. specialize (Hm s). unfold on_sys. cbn. by destruct (m s). Qed.

Lemma keeps_with_lv {A} lv (m : ST (sys * LogicalVolume) Error A) : keeps same_vols_v m → keeps same_vols (with_lv lv m).
Proof. intros Hm s. specialize (Hm (s, lv)). unfold with_lv. by destruct (m (s, lv)) as [[] ?]. Qed.

Lemma keeps_upd f : keeps same_vols_v (upd f).
Proof. done. Qed.

Lemma keeps_ok_ {E A} (m : ST sys E A) : keeps same_vols m → keeps same_vols (ok_ m).
Proof. intros Hm. unfold ok_. keeps_tac. Qed.

Lemma bdev_vols n hs props x s :
  same_vols s (bdev_create n s).1 ∧ same_vols s (bdev_destroy n s).1 ∧ same_vols s (bdev_share n props s).1 ∧
  same_vols s (bdev_update n hs s).1 ∧ same_vols s (bdev_unshare_ n s).1 ∧ same_vols s (notify_blockcnt_change n x s).1.
Proof. unfold same_vols, vols. by destruct (bdevs_law n hs props x s) as (-> & -> & -> & -> & -> & ->). Qed.

Lemma file_vols p s :
  same_vols s (create_dir_all p s).1 ∧ same_vols s (remove_file p s).1 ∧ same_vols s (remove_dir_all p s).1.
Proof. unfold same_vols, vols. by destruct (files_law p s) as (-> & -> & ->). Qed.

Lemma keeps_bdev_unshare uri b : keeps same_vols (bdev_unshare uri b).
Proof. unfold bdev_unshare, reread. keeps_tac. apply keeps_comp. intros s. by apply (bdev_vols _ [] default_props 0). Qed.

Lemma keeps_bdev_share uri b props : keeps same_vols (bdev_share_nvmf uri b props).
Proof.
  unfold bdev_share_nvmf, reread. keeps_tac; apply keeps_comp; intros s.
  - by apply (bdev_vols _ [] _ 0).
  - by apply (bdev_vols _ _ default_props 0).
Qed.

Lemma keeps_create_parent p : keeps same_vols (create_parent p).
Proof. unfold create_parent. keeps_tac. apply keeps_io. intros. apply file_vols. Qed.

Lemma keeps_ptpl_create vg u : keeps same_vols (lv_ptpl_create vg u).
Proof. unfold lv_ptpl_create. keeps_tac; apply keeps_create_parent. Qed.

Lemma keeps_vg_ptpl vg : keeps same_vols (vg_ptpl_destroy vg).
Proof. unfold vg_ptpl_destroy. keeps_tac. apply keeps_io. intros. apply file_vols. Qed.

Lemma keeps_import : keeps same_vols_v import.
Proof.
  unfold import, import_bdev, this. keeps_tac; [|apply keeps_upd]. apply keeps_on_sys.
  unfold get_bdev, reread, bdev_sync_props. keeps_tac.
  - apply keeps_comp. intros s. by apply (bdev_vols _ [] default_props 0).
  - apply keeps_bdev_unshare.
  - apply keeps_with_err, keeps_ptpl_create.
  - apply keeps_bdev_share.
Qed.

Lemma keeps_export_bdev : keeps same_vols_v export_bdev.
Proof.
  unfold export_bdev, this. keeps_tac; [|apply keeps_upd]. apply keeps_on_sys. keeps_tac.
  - apply keeps_bdev_unshare.
  - apply keeps_tool_call. intros s. by apply (bdev_vols _ [] default_props 0).
Qed.

Lemma keeps_import_each lvs e : keeps same_vols (import_each lvs e).
Proof.
  revert e. induction lvs as [|lv lvs IH]; intros e; cbn [import_each]; keeps_tac.
  apply keeps_try, keeps_with_lv, keeps_import.
Qed.

Lemma keeps_lv_list q : keeps same_vols (lv_list q).
Proof.
  unfold lv_list, lv_fetch, report. keeps_tac; [|apply keeps_import_each].
  apply keeps_output. left. vm_compute. set_solver.
Qed.

Lemma keeps_export_each lvs : keeps same_vols (export_each lvs).
Proof. induction lvs; cbn [export_each]; keeps_tac. apply keeps_with_lv, keeps_export_bdev. Qed.

Lemma keeps_vg_export vg : keeps same_vols (vg_export vg).
Proof.
  unfold vg_export, list_lvs. keeps_tac; [apply keeps_lv_list|apply keeps_export_each|].
  apply keeps_run. by right.
Qed.

Lemma decode_all_ok {R V} (f : R → outcome Error V) l vs : decode_all f l = Ok vs → Forall2 (λ r v, f r = Ok v) l vs.
Proof.
  revert vs. induction l as [|r l IH]; intros vs H; cbn in H; [simplify_eq; constructor|].
  destruct (f r) as [v| |] eqn:E; [|done..]. cbn in H.
  destruct (decode_all f l) as [vs'| |]; [|done..]. cbn in H. simplify_eq. constructor; auto.
Qed.

(** What is fetched are the volumes that meet the conditions. *)
Lemma fetched q s : from_option (λ t, has "," t = false) True (q_tag (q_lv q)) →
  wp (lv_fetch q) (λ r s', same_vols s s' ∧ ∀ lvs, r = Ok lvs →
    Forall2 (λ r lv, decode_lv r = Ok lv) (List.filter (λ r, forallb (meets r) (lv_conds q)) (lv_rows s)) lvs) s.
Proof.
  intros Htag. assert (keeps same_vols (lv_fetch q)) as Hk.
  { unfold lv_fetch, report. keeps_tac. apply keeps_output. left. vm_compute. set_solver. }
  apply wp_intro. intros s' r E. split; [specialize (Hk s); by rewrite E in Hk|]. intros lvs ->. revert E.
  unfold lv_fetch, report, output, call, mbind, ST_bind, ST.lift. destruct (lv_query q) as [t| |] eqn:Eq; [|done..].
  apply lv_query_conds in Eq as [-> Hcs]; [|done]. rewrite with_select_conds by done.
  pose proof (lvs_law (lv_conds q) s) as Hlaw.
  destruct (run_cmd _ _ None s) as [s1 [|e|out]] eqn:Er; [done..|]. cbn. specialize (Hlaw out).
  destruct (lv_json out) as [e|[|rows rest]] eqn:Ej; [done..|]. cbn.
  destruct (decode_all decode_lv rows) as [vs| |] eqn:Ed; [|done..]. cbn.
  destruct (decode_all (decode_all decode_lv) rest) as [vss| |]; [|done..]. cbn. intros [= -> ->].
  rewrite <-(Hlaw rows rest) by done. by apply decode_all_ok.
Qed.

(** Importing a volume does not change what was read of its tags. *)
Definition same_tags (lv lv' : LogicalVolume) : Prop := lv_tags lv' = lv_tags lv.

Lemma wp_on_sys {A} (m : ST sys Error A) Q s lv : (∀ s' r, m s = (s', r) → Q r (s', lv)) → wp (on_sys m) Q (s, lv).
Proof. intros HQ. unfold wp, on_sys. cbn. destruct (m s). auto. Qed.

Lemma import_tags lv s s' u lv' : with_lv lv import s = (s', Ok (u, lv')) → same_tags lv lv'.
Proof.
  assert (wp import (λ r sv, same_tags lv sv.2) (s, lv)) as H.
  { unfold import, import_bdev, this. wp_step. wp_step. case_match; [done|]. wp_step. wp_step. wp_step.
    apply wp_on_sys. intros s1 [b| |] _; [|done..]. unfold upd. by wp_step. }
  unfold with_lv. unfold wp in H. destruct (import (s, lv)) as [[s1 lv1] [a| |]]; [|done..]. by intros [= _ _ <-].
Qed.

Lemma import_each_error lvs e s lvs' : (import_each lvs (Some e) s).2 ≠ Ok lvs'.
Proof.
  revert e s lvs'. induction lvs as [|lv lvs IH]; intros e s lvs'; cbn [import_each]; [done|].
  unfold mbind at 1, ST_bind at 1, ST.try. destruct (with_lv lv import s) as [s1 [[u lv1]|e'|]]; [|apply IH|done].
  unfold mbind, ST_bind. specialize (IH e s1). destruct (import_each lvs (Some e) s1) as [s2 [rest| |]]; [|done..].
  by destruct (IH rest).
Qed.

Lemma imported lvs s s' lvs' : import_each lvs None s = (s', Ok lvs') → Forall2 same_tags lvs lvs'.
Proof.
  revert s s' lvs'. induction lvs as [|lv lvs IH]; intros s s' lvs'; cbn [import_each].
  - intros [= _ <-]. constructor.
  - unfold mbind at 1, ST_bind at 1, ST.try. destruct (with_lv lv import s) as [s1 [[u lv1]|e|]] eqn:E; [..|done]; cbn.
    + apply import_tags in E. unfold mbind, ST_bind. destruct (import_each lvs None s1) as [s2 [rest| |]] eqn:E2; [|done..].
      intros [= _ <-]. constructor; [done|]. eapply IH, E2.
    + intros H. destruct (import_each_error lvs e s1 lvs'). by rewrite H.
Qed.

(** A volume of [vg] that is not of the engine *)
Definition foreign (vg : VolumeGroup) (v : vol) : Prop :=
  ∃ n p t, v = (vg_name vg, vg_uuid vg, n, p, t) ∧ PLvm ∉ tags_of t.

Lemma decoded_tags r lv : decode_lv r = Ok lv → lv_tags lv = tags_of (r_lv_tags r).
Proof.
  unfold decode_lv. destruct (number _ (r_extent_size r)); [|done..]. cbn.
  destruct (number _ (r_lv_size r)); [|done..]. by intros [= <-].
Qed.

(** No foreign volume is overlooked. *)
Lemma foreign_listed vg s v : foreign vg v → v ∈ vols s →
  wp (list_foreign_lvs vg) (λ r s', same_vols s s' ∧ r ≠ Ok []) s.
Proof.
  intros (n & p & t & -> & Ht) (r & Hv & Hr)%list_elem_of_fmap. unfold list_foreign_lvs, lv_list. wp_step. wp_step.
  eapply wp_mono; [by apply fetched|]. intros r1 s1 [Hs1 Hf]. destruct r1 as [lvs| |]; [|done..]. specialize (Hf lvs eq_refl).
  assert (∃ lv, lv ∈ lvs ∧ lv_tags lv = tags_of t) as (lv & Hlv & Hlt).
  { unfold vol_of in Hv. simplify_eq. assert (r ∈ List.filter (λ r, forallb (meets r) (lv_conds
      (mkLvQuery (named (vg_name vg) (uuided (vg_uuid vg) any)) any false))) (lv_rows s)) as Hin.
    { apply list_elem_of_In, filter_In. rewrite <-list_elem_of_In. split; [done|]. cbn. rewrite !bool_decide_true by done. done. }
    apply list_elem_of_lookup in Hin as [i Hi]. eapply Forall2_lookup_l in Hf as (lv & Hl & Hd); [|done].
    exists lv. split; [by eapply list_elem_of_lookup_2|]. by apply decoded_tags in Hd. }
  apply wp_intro. intros s2 r2 E2. pose proof (keeps_import_each lvs None s1) as Hk. rewrite E2 in Hk.
  assert (same_vols s s2) as Hs2 by (by etrans).
  destruct r2 as [lvs'| |]; [|done..]. wp_step. split; [done|]. intros [= Hnil].
  apply list_elem_of_lookup in Hlv as [i Hi]. eapply Forall2_lookup_l in Hi as (lv' & Hi' & Hsame); [|by eapply imported].
  assert (lv' ∈ List.filter (λ lv, negb (ours lv)) lvs') as Hin; [|rewrite Hnil in Hin; by apply not_elem_of_nil in Hin].
  apply list_elem_of_In, filter_In. rewrite <-list_elem_of_In. split; [by eapply list_elem_of_lookup_2|].
  unfold ours. rewrite Hsame, Hlt. by rewrite bool_decide_false.
Qed.

(** C29. Destroying a pool keeps the volumes of others: while the volume group has a
    logical volume without the tag of the engine, whatever the tools and bdevs answer
    none of its volumes is removed or changed. *)
Theorem foreign_volumes_survive vg s s' r v :
  foreign vg v → v ∈ vols s → vg_destroy vg s = (s', r) → vols s' = vols s.
Proof.
  intros Hf Hv. change (vols s' = vols s) with (same_vols s s'). apply (wp_elim _ (λ _ s', same_vols s s')).
  unfold vg_destroy, destroy_. wp_step. apply (keeps_wp same_vols); [apply keeps_vg_export|].
  intros s1 [[]| |] Hs1; [|done..]. wp_step.
  eapply wp_mono; [apply (foreign_listed vg s1 v); [done|by rewrite Hs1]|]. intros [lvs| |] s2 [Hs2 Hne]; [|by etrans..].
  rewrite bool_decide_false by (intros ->; done). cbn [orb]. wp_step. wp_step.
  apply (keeps_wp same_vols); [apply keeps_ok_, keeps_vg_ptpl|]. intros s3 _ Hs3. by do 2 (etrans; [done|]).
Qed.

(** ** Properties are read back *)

Lemma property_unique ty tags p : (∀ q, q ∈ tags → key q = type_value ty → q = p) → p ∈ tags → key p = type_value ty →
  property ty tags = Some p.
Proof.
  intros Hu Hp Hk. unfold property. destruct (list_find _ tags) as [[i q]|] eqn:E.
  - apply list_find_Some in E as (Hi & Hq & _). cbn. f_equal. apply Hu; [by eapply list_elem_of_lookup_2|done].
  - apply list_find_None in E. eapply Forall_forall in E; [|done]. done.
Qed.

Lemma set_properties_run ps lv s s' lv' : set_properties ps (s, lv) = ((s', lv'), Ok tt) →
  (build_set_properties_args (lv_tags lv) ps = [] ∧ s' = s) ∨
  (build_set_properties_args (lv_tags lv) ps ≠ [] ∧ ∃ out,
     run_cmd "lvchange" (build_set_properties_args (lv_tags lv) ps ++ [lv_path lv]) None s = (s', Done out)).
Proof.
  unfold set_properties, this, mbind, ST_bind, ST.gets. cbn [fst snd]. intros H.
  destruct (build_set_properties_args (lv_tags lv) ps) as [|a args]; [injection H as <- _; by left|]. right. split; [done|]. revert H.
  unfold ST.try, on_sys, run, output, call, mbind, ST_bind. cbn [fst snd].
  destruct (run_cmd _ _ None s) as [s1 [|e|out]]; cbn; [done..|]. intros [= <- _]. eauto.
Qed.

Lemma set_properties_rows ps lv s s' lv' r :
  r ∈ lv_rows s → r_lv_path r = lv_path lv → lv_tags lv = tags_of (r_lv_tags r) →
  Forall canonical (comma_separated (r_lv_tags r)) →
  Forall storable ps → Forall known ps → set_properties ps (s, lv) = ((s', lv'), Ok tt) →
  ∃ r', r' ∈ lv_rows s' ∧ r_lv_name r' = r_lv_name r ∧ r_lv_path r' = r_lv_path r ∧
    (∀ t, t ∈ comma_separated (r_lv_tags r') ↔
       t ∈ comma_separated (r_lv_tags r) ∧ t ∉ ps ≫= dels_of (lv_tags lv) ∨ t ∈ ps ≫= adds_of (lv_tags lv)) ∧
    (∀ r0, r0 ∈ lv_rows s → r_lv_path r0 ≠ lv_path lv → r0 ∈ lv_rows s').
Proof.
  intros Hr Hpath Htags Hcan Hps Hkn Hset. pose proof (set_args (lv_tags lv) ps) as Hargs.
  apply set_properties_run in Hset as [[Hnil ->]|[Hne [out Hrun]]].
  - rewrite Hnil in Hargs. apply tag_args_inv in Hargs as [-> ->]. exists r. split_and!; try done. set_solver.
  - pose proof (lvchange_law _ _ _ (lv_path lv) s out Hne Hargs) as Hlaw. rewrite Hrun in Hlaw.
    specialize (Hlaw ltac:(rewrite Htags; by apply adds_are_tags) eq_refl). cbn in Hlaw.
    apply list_elem_of_lookup in Hr as [i Hi]. destruct (Forall2_lookup_l _ _ _ _ _ Hlaw Hi) as (r' & Hi' & Hsame & Hre).
    rewrite bool_decide_true in Hre by done. simplify_eq. exists r'. split_and!; try done; [by eapply list_elem_of_lookup_2|].
    intros r0 [j Hj]%list_elem_of_lookup Hne0. destruct (Forall2_lookup_l _ _ _ _ _ Hlaw Hj) as (r1 & Hj' & Hsame1 & Hre1).
    rewrite bool_decide_false in Hre1 by done. assert (r1 = r0) as ->; [|by eapply list_elem_of_lookup_2].
    destruct r0, r1. cbn in *. by simplify_eq.
Qed.

(** A property that was set is read back: after [set_properties] succeeds, the
    volume is listed with each of the properties as the only one of its type, with its
    other properties as before, and no other volume has changed. *)
Theorem properties_are_read_back ps lv s s' lv' r :
  r ∈ lv_rows s → r_lv_path r = lv_path lv → lv_tags lv = tags_of (r_lv_tags r) →
  Forall canonical (comma_separated (r_lv_tags r)) →
  Forall storable ps → Forall known ps → NoDup (type_ <$> ps) →
  set_properties ps (s, lv) = ((s', lv'), Ok tt) →
  (∃ r', r' ∈ lv_rows s' ∧ r_lv_name r' = r_lv_name r ∧ r_lv_path r' = r_lv_path r ∧
     Forall canonical (comma_separated (r_lv_tags r')) ∧
     (∀ q, q ∈ tags_of (r_lv_tags r') ↔ q ∈ tags_of (r_lv_tags r) ∧ type_ q ∉ type_ <$> ps ∨ q ∈ ps) ∧
     (∀ p, p ∈ ps → property (type_ p) (tags_of (r_lv_tags r')) = Some p)) ∧
  (∀ r0, r0 ∈ lv_rows s → r_lv_path r0 ≠ lv_path lv → r0 ∈ lv_rows s').
Proof.
  intros Hr Hpath Htags Hcan Hps Hkn Hty Hset.
  assert (∃ r', r' ∈ lv_rows s' ∧ r_lv_name r' = r_lv_name r ∧ r_lv_path r' = r_lv_path r ∧
    (∀ t, t ∈ comma_separated (r_lv_tags r') ↔
       t ∈ comma_separated (r_lv_tags r) ∧ t ∉ ps ≫= dels_of (lv_tags lv) ∨ t ∈ ps ≫= adds_of (lv_tags lv)) ∧
    (∀ r0, r0 ∈ lv_rows s → r_lv_path r0 ≠ lv_path lv → r0 ∈ lv_rows s')) as (r' & Hr' & Hn' & Hp' & Ht' & Hother).
  { by eapply set_properties_rows. }
  split; [|done]. exists r'. rewrite Htags in Ht'. pose proof (set_tags _ ps Hcan Hps Hkn Hty _ Ht') as Hq.
  split_and!; try done; [by eapply set_canonical|].
  intros p Hp. assert (p ∈ tags_of (r_lv_tags r')) as Hin by (apply Hq; by right).
  assert (known p) as Hk by (by eapply Forall_forall in Hkn).
  apply property_unique; [|done|by apply list_elem_of_fmap in Hin as (t & -> & _); apply new_key].
  intros q Hqin Hkq. pose proof Hqin as (t & -> & _)%list_elem_of_fmap. apply new_key in Hkq; [|done].
  apply Hq in Hqin as [[_ Hno]|Hqin]; [|by apply (same_type ps)].
  destruct Hno. rewrite Hkq. by apply list_elem_of_fmap_2.
Qed.

End Laws.

(** ** The rows of a report of volume groups *)

(** The first row of each volume group, and the disks of all its rows *)
Fixpoint firsts (seen : list string) (l : list VolumeGroup) : list VolumeGroup :=
  match l with
  | [] => []
  | v :: l => if decide (vg_name v ∈ seen) then firsts seen l else v :: firsts (vg_name v :: seen) l
  end.

Definition disks_in (l : list VolumeGroup) (n : string) : list string := filter (λ v, vg_name v = n) l ≫= vg_disks.

Definition set_disks (ds : list string) (v : VolumeGroup) : VolumeGroup :=
  mkVg (vg_name v) (vg_uuid v) (vg_size v) (vg_free v) (vg_tags v) ds.

Definition grouped (l : list VolumeGroup) : list VolumeGroup := (λ v, set_disks (disks_in l (vg_name v)) v) <$> firsts [] l.

Lemma firsts_names seen l n : n ∈ vg_name <$> firsts seen l ↔ n ∈ vg_name <$> l ∧ n ∉ seen.
Proof.
  revert seen. induction l as [|v l IH]; intros seen; [set_solver|]. cbn [firsts]. case_decide; [set_solver|].
  rewrite !fmap_cons, !elem_of_cons, IH, not_elem_of_cons. destruct (decide (n = vg_name v)) as [->|]; naive_solver.
Qed.

Lemma firsts_nodup seen l : NoDup (vg_name <$> firsts seen l).
Proof.
  revert seen. induction l as [|v l IH]; intros seen; [constructor|]. cbn [firsts]. case_decide; [done|].
  cbn. constructor; [|done]. rewrite firsts_names. set_solver.
Qed.

Lemma firsts_snoc seen l v : firsts seen (l ++ [v]) = firsts seen l ++ (if decide (vg_name v ∈ seen ++ (vg_name <$> l)) then [] else [v]).
Proof.
  revert seen. induction l as [|w l IH]; intros seen; cbn [firsts app].
  - change (vg_name <$> []) with (@nil string). rewrite app_nil_r. by destruct (decide (vg_name v ∈ seen)).
  - rewrite fmap_cons. destruct (decide (vg_name w ∈ seen)) as [Hw|Hw]; rewrite IH; [|cbn [app]; f_equal]; f_equal;
      apply decide_ext; rewrite ?elem_of_cons, ?elem_of_app, ?elem_of_cons;
      (destruct (decide (vg_name v = vg_name w)) as [E|]; [rewrite E in *|]; tauto).
Qed.

Lemma disks_snoc l v n : disks_in (l ++ [v]) n = disks_in l n ++ (if decide (vg_name v = n) then vg_disks v else []).
Proof.
  unfold disks_in. rewrite filter_app, bind_app. f_equal. rewrite filter_cons. case_decide; [|done]. cbn. by rewrite app_nil_r.
Qed.

Lemma merge_new acc v : vg_name v ∉ vg_name <$> acc → merge acc v = acc ++ [v].
Proof. induction acc as [|e acc IH]; [done|]. cbn. intros Hn. rewrite bool_decide_false by set_solver. f_equal. set_solver. Qed.

Lemma merge_old acc v : NoDup (vg_name <$> acc) → vg_name v ∈ vg_name <$> acc →
  merge acc v = (λ e, if decide (vg_name e = vg_name v) then set_disks (vg_disks e ++ vg_disks v) e else e) <$> acc.
Proof.
  induction acc as [|e acc IH]; cbn; [set_solver|]. intros [Hn Hnd]%NoDup_cons Hv. case_bool_decide as E.
  - rewrite decide_True by done. f_equal. rewrite <-(list_fmap_id acc) at 1. apply list_fmap_ext. intros i x Hx.
    rewrite decide_False; [done|]. intros Ex. apply Hn. rewrite E, <-Ex. by eapply list_elem_of_fmap_2, list_elem_of_lookup_2.
  - rewrite decide_False by done. f_equal. apply IH; [done|set_solver].
Qed.

(** The list of pools is what grouping the rows of the report gives: one pool per
    name, in the order of the report, with the attributes of its first row and the disks
    of all of them. *)
Theorem rows_are_grouped l : foldl merge [] l = grouped l.
Proof.
  induction l as [|v l IH] using rev_ind; [done|]. rewrite foldl_app. cbn [foldl]. rewrite IH. clear IH.
  assert (∀ l' : list VolumeGroup, vg_name <$> ((λ v, set_disks (disks_in l (vg_name v)) v) <$> l') = vg_name <$> l') as Hn.
  { intros l'. by rewrite <-list_fmap_compose. }
  unfold grouped at 2. rewrite firsts_snoc, fmap_app. cbn [app]. destruct (decide (vg_name v ∈ vg_name <$> l)) as [Hin|Hin].
  - rewrite app_nil_r, merge_old; unfold grouped.
    + rewrite <-list_fmap_compose. apply list_fmap_ext. intros i x Hx. cbn. rewrite disks_snoc.
      unfold compose. cbn. destruct (decide (vg_name x = vg_name v)), (decide (vg_name v = vg_name x)); try congruence; [done|].
      by rewrite app_nil_r.
    + rewrite Hn. apply firsts_nodup.
    + rewrite Hn. apply firsts_names. split; [done|]. apply not_elem_of_nil.
  - rewrite merge_new; unfold grouped; [|rewrite Hn, firsts_names; naive_solver]. f_equal.
    + apply list_fmap_ext. intros i x Hx. rewrite disks_snoc, decide_False, app_nil_r; [done|]. intros E. apply Hin. rewrite E.
      apply (firsts_names []). by eapply list_elem_of_fmap_2, list_elem_of_lookup_2.
    + cbn. rewrite disks_snoc, decide_True by done. f_equal.
      assert (disks_in l (vg_name v) = []) as ->; [|by destruct v].
      unfold disks_in. destruct (filter (λ w, vg_name w = vg_name v) l) as [|x xs] eqn:E; [done|].
      assert (x ∈ filter (λ w, vg_name w = vg_name v) l) as [Hx Hxl]%list_elem_of_filter by (rewrite E; apply list_elem_of_here).
      destruct Hin. rewrite <-Hx. by apply list_elem_of_fmap_2.
Qed.

End LvmProps.
