(* ===== verification/LvmSample.v ===== *)
(** * A concrete LVM

    An instance of the tools for which the laws of [LvmProps] hold, the witnesses of
    its theorems and runs that show what the backend does not do.  A report is a text
    with one line per volume; a command that the text cannot describe fails. *)

From Stdlib Require Import Ascii String.
From stdpp Require Import pretty.
From S2P Require Import Prelude Text Wp Errors NexusErrors NvmfSubsystem BdevUri Lvm LvmVolumes LvmProps.

#[local] Open Scope Z_scope.

Module LvmSample.
Import Lvm LvmVol LvmProps.

Record state := mkState { rows : list lv_row; bdevs : list bdev_info }.

#[global] Instance lv_row_eq_dec : EqDecision lv_row.
Proof. solve_decision. Defined.

(** ** Reports *)

Definition print_row (r : lv_row) : string :=
  join ";" [r_lv_name r; r_lv_uuid r; r_lv_size r; r_lv_path r; r_lv_tags r; r_lvg_name r; r_lvg_uuid r; r_lvg_tags r; r_extent_size r].

Definition parse_row (s : string) : option lv_row :=
  match split ";" s with [a; b; c; d; e; f; g; h; i] => Some (mkLvRow a b c d e f g h i) | _ => None end.

Definition print_rows (l : list lv_row) : string := match l with [] => "none" | _ => join "|" (print_row <$> l) end.

Definition parse_rows (s : string) : string + list (list lv_row) :=
  if bool_decide (s = "none"%string) then inr [[]]
  else match mapM parse_row (split "|" s) with Some l => inr [l] | None => inl "not a report"%string end.

(** ** Arguments *)

Fixpoint strip (p s : string) : option string :=
  match p, s with
  | EmptyString, _ => Some s
  | String a p, String b s => if bool_decide (a = b) then strip p s else None
  | _, EmptyString => None
  end.

Definition fields : list field := [FVgName; FVgUuid; FVgTags; FLvName; FLvUuid; FLvTags].

Definition parse_cond (s : string) : option cond :=
  head (omap (λ f, (λ v, (f, v)) <$> strip (field_name f +:+ "=")%string s) fields).

Definition parse_conds (args : list string) : list cond :=
  match omap (strip "--select=") args with s :: _ => omap parse_cond (split "," s) | [] => [] end.

Lemma strip_app p s : strip p (p +:+ s)%string = Some s.
Proof. induction p as [|a p IH]; [done|]. simpl. by rewrite bool_decide_true. Qed.

Lemma parse_cond_text c : parse_cond (cond_text c) = Some c.
Proof. by destruct c as [[] v]. Qed.

Lemma parse_selection cs : Forall (λ c, has "," c.2 = false) cs → parse_conds (lvs_args ++ selection cs) = cs.
Proof.
  intros Hcs. unfold parse_conds. rewrite omap_app. destruct cs as [|c cs]; [done|].
  change (omap (strip "--select=") lvs_args) with (@nil string). cbn [app selection omap list_omap].
  rewrite strip_app, split_join; [|done|].
  - clear. induction (c :: cs) as [|c' l IH]; [done|]. cbn [fmap list_fmap omap list_omap]. rewrite parse_cond_text. f_equal. apply IH.
  - apply Forall_fmap. eapply Forall_impl; [done|]. intros. by apply cond_text_plain.
Qed.

Definition parse_adds (args : list string) : list string := omap (strip "--addtag=") args.
Definition parse_dels (args : list string) : list string := omap (strip "--deltag=") args.

Lemma parse_tag_args args adds dels : tag_args args adds dels → parse_adds args = adds ∧ parse_dels args = dels.
Proof. induction 1 as [|t l a d _ [IHa IHd]|t l a d _ [IHa IHd]]; [done|..]; split; cbn; by f_equal. Qed.

(** ** The tools *)

Definition set_tags_text (t : string) (r : lv_row) : lv_row :=
  mkLvRow (r_lv_name r) (r_lv_uuid r) (r_lv_size r) (r_lv_path r) t (r_lvg_name r) (r_lvg_uuid r) (r_lvg_tags r) (r_extent_size r).
Definition set_group_tags (t : string) (r : lv_row) : lv_row :=
  mkLvRow (r_lv_name r) (r_lv_uuid r) (r_lv_size r) (r_lv_path r) (r_lv_tags r) (r_lvg_name r) (r_lvg_uuid r) t (r_extent_size r).

Definition new_tags (args : list string) (ts : list string) : list string :=
  filter (λ t, t ∉ parse_dels args) ts ++ filter (λ t, t ∉ ts) (parse_adds args).

Definition retag (args : list string) (path : string) (r : lv_row) : lv_row :=
  if bool_decide (r_lv_path r = path) then set_tags_text (join "," (new_tags args (comma_separated (r_lv_tags r)))) r else r.

Definition tags_ok (r : lv_row) : Prop := Forall (.≠ ""%string) (comma_separated (r_lv_tags r)).

Definition run_ (c : string) (args : list string) (i : option string) (s : state) : state * answer :=
  if bool_decide (c = "lvs"%string) then
    let l := List.filter (λ r, forallb (meets r) (parse_conds args)) (rows s) in
    (s, if bool_decide (parse_rows (print_rows l) = inr [l]) then Done (print_rows l) else Failed "not printable")
  else if bool_decide (c = "lvchange"%string) then
    match reverse args with
    | path :: rargs =>
        if bool_decide (Forall tags_ok (rows s)) then (mkState (retag (reverse rargs) path <$> rows s) (bdevs s), Done "")
        else (s, Failed "bad tags")
    | [] => (s, Failed "no volume")
    end
  else if bool_decide (c = "vgchange"%string) then
    (mkState (set_group_tags (join "," (parse_adds args)) <$> rows s) (bdevs s), Done "")
  else if bool_decide (c = "vgremove"%string) then (mkState [] (bdevs s), Done "")
  else (s, Done "").

Definition with_bdev (n : string) (f : bdev_info → bdev_info) (s : state) : state :=
  mkState (rows s) ((λ b, if bool_decide (b_name b = n) then f b else b) <$> bdevs s).

Definition shared_as (p : Protocol) (hs : list string) (b : bdev_info) : bdev_info :=
  mkBdev (b_name b) (Some (match p with Nvmf_ => "nvmf://" +:+ b_name b | Off => "bdev:///" +:+ b_name b end)%string) (b_uri b) hs p
         (b_size b) (b_block_len b).

#[global] Instance tools : Tools := {|
  sys := state;
  run_cmd := run_;
  vg_json _ := inr [];
  lv_json := parse_rows;
  ptpl_dir := None;
  create_dir_all _ s := (s, None);
  remove_file _ s := (s, None);
  remove_dir_all _ s := (s, None);
  path_exists _ _ := false;
  read_dir _ _ := None;
  bdev_by_name s n := snd <$> list_find (λ b, b_name b = n) (bdevs s);
  bdev_create uri s := (mkState (rows s) (bdevs s ++ [mkBdev uri (Some ("bdev:///" +:+ uri)%string) (Some uri) [] Off (2^30) 512]), Ok uri);
  bdev_destroy uri s := (mkState (rows s) (filter (λ b, b_name b ≠ uri) (bdevs s)), Some (Ok tt));
  bdev_share n props s := (with_bdev n (shared_as Nvmf_ (Subsys.props_hosts props)) s, Ok ("nvmf://" +:+ n)%string);
  bdev_update n hs s := (with_bdev n (shared_as Nvmf_ hs) s, Ok tt);
  bdev_unshare_ n s := (with_bdev n (shared_as Off []) s, Ok tt);
  notify_blockcnt_change n x s := (s, 0);
|}.

Lemma split_parts c s : Forall (λ x, has c x = false) (split c s).
Proof.
  induction s as [|a s IH]; [by repeat constructor|]. cbn. case_bool_decide as E; [by constructor|].
  destruct (split c s) as [|x l]; [by repeat constructor; simpl; rewrite bool_decide_false|]. inversion_clear IH. constructor; [|done]. cbn.
  by rewrite bool_decide_false.
Qed.

Lemma skip_empty_incl l x : x ∈ skip_empty l → x ∈ l.
Proof. induction l as [|y l IH]; [done|]. cbn. case_bool_decide; [right; auto|done]. Qed.

Lemma comma_parts s : Forall (λ x, has "," x = false) (comma_separated s).
Proof. apply Forall_forall. intros x Hx%skip_empty_incl. by eapply Forall_forall in Hx; [|apply split_parts]. Qed.

Lemma comma_join l : Forall (λ t, has "," t = false ∧ t ≠ ""%string) l → comma_separated (join "," l) = l.
Proof.
  intros Hl. destruct l as [|x l]; [done|]. unfold comma_separated.
  rewrite split_join; [|done|by eapply Forall_impl; [done|]; naive_solver].
  apply skip_empty_none. eapply Forall_impl; [done|]. naive_solver.
Qed.

Lemma retag_law args adds dels path r : tag_args args adds dels → tags_ok r →
  Forall (λ t, has "," t = false ∧ t ≠ ""%string ∧ t ∉ dels) adds → retagged path adds dels r (retag args path r).
Proof.
  intros Ha Hok Hadds. apply parse_tag_args in Ha as [Ea Ed]. unfold retagged, retag. case_bool_decide; [|by split].
  split; [done|]. intros t. cbn [r_lv_tags set_tags_text]. rewrite comma_join.
  - unfold new_tags. rewrite Ea, Ed, elem_of_app, !list_elem_of_filter. destruct (decide (t ∈ comma_separated (r_lv_tags r))); [|naive_solver].
    split; [naive_solver|]. intros [?|Ht]; [naive_solver|]. left. split; [|done].
    eapply Forall_forall in Hadds; [|done]. naive_solver.
  - unfold new_tags. rewrite Ea. apply Forall_app. split; apply Forall_forall; intros x [Hx1 Hx2]%list_elem_of_filter.
    + split; [by eapply Forall_forall in Hx2; [|apply comma_parts]|]. unfold tags_ok in Hok. by eapply Forall_forall in Hok.
    + eapply Forall_forall in Hadds; [|done]. naive_solver.
Qed.

#[global] Program Instance laws : LvmLaws := {| lv_rows := rows |}.
Next Obligation.
  intros c args i s Hc. cbn. unfold run_. case_bool_decide; [done|].
  assert (∀ x, x ∈ lv_commands → c ≠ x) as Hx by (intros x Hx ->; done).
  rewrite !bool_decide_false by (apply Hx; unfold lv_commands; set_solver). done.
Qed.
Next Obligation.
  intros args i s. change (vol_of <$> (set_group_tags (join "," (parse_adds args)) <$> rows s) = vol_of <$> rows s).
  by rewrite <-list_fmap_compose.
Qed.
Next Obligation.
  intros cs s out l rest Hcs. unfold run_cmd, lv_json, tools, run_. rewrite bool_decide_true by done.
  rewrite parse_selection by done. cbn [snd].
  case_bool_decide as E; [|done]. intros [= <-] E2. rewrite E in E2. by simplify_eq.
Qed.
Next Obligation.
  intros args adds dels path s out Hne Ha Hadds. unfold run_cmd, tools, run_.
  rewrite (bool_decide_false (_ = "lvs"%string)), (bool_decide_true (_ = "lvchange"%string)) by done.
  rewrite reverse_app. change (reverse [path]) with [path]. cbn [app]. rewrite reverse_involutive.
  case_bool_decide as Hok; [|done]. intros _. cbn [fst rows].
  apply Forall2_fmap_r, Forall_Forall2_diag. eapply Forall_impl; [done|]. intros r Hr. by apply retag_law.
Qed.
Next Obligation. done. Qed.
Next Obligation. done. Qed.

(** ** Witnesses *)

Definition ours_row : lv_row :=
  mkLvRow "r1" "lv-uuid-1" "1073741824" "/dev/pool/r1" "mayastor,mayastor.lv.name=one,mayastor.lv.share=off" "pool" "vg-uuid" "mayastor" "4194304".
Definition foreign_row : lv_row :=
  mkLvRow "data" "lv-uuid-2" "4194304" "/dev/pool/data" "backup" "pool" "vg-uuid" "mayastor" "4194304".
Definition sample : @sys tools := mkState [ours_row; foreign_row] [].
Definition pool_ : VolumeGroup := mkVg "pool" "vg-uuid" (2^32) (2^31) [PLvm] ["/dev/sda"%string].

Lemma foreign_volumes_survive_witness :
  is_ok (vg_destroy pool_ sample).2 = true ∧ vols (vg_destroy pool_ sample).1 = vols sample ∧ length (lv_rows sample) = 2%nat.
Proof.
  split; [vm_compute; reflexivity|]. split; [|reflexivity].
  apply (foreign_volumes_survive pool_ sample _ (vg_destroy pool_ sample).2 (vol_of foreign_row)).
  - exists "data"%string, "/dev/pool/data"%string, "backup"%string. split; [reflexivity|]. vm_compute. set_solver.
  - apply list_elem_of_fmap_2. apply list_elem_of_further, list_elem_of_here.
  - by destruct (vg_destroy pool_ sample).
Defined.

Definition the_lv : LogicalVolume :=
  match decode_lv ours_row with Ok lv => lv | _ => mkLv "" "" "" "" 0 "" 0 [] [] Off None None None false end.

Definition share_props : list Property := [LvShare Nvmf_; LvAllowedHosts ["nqn.host"%string]].

Definition after_share : @sys tools := (set_properties share_props (sample, the_lv)).1.1.

Lemma properties_are_read_back_witness :
  (∃ r', r' ∈ lv_rows after_share ∧ r_lv_path r' = "/dev/pool/r1"%string ∧
     property TLvShare (tags_of (r_lv_tags r')) = Some (LvShare Nvmf_) ∧ LvName "one" ∈ tags_of (r_lv_tags r')) ∧
  foreign_row ∈ lv_rows after_share.
Proof.
  destruct (properties_are_read_back share_props the_lv sample after_share the_lv ours_row)
    as [(r' & Hr & _ & Hp & _ & Hq & Hps) Hother].
  - apply list_elem_of_here.
  - reflexivity.
  - vm_compute. reflexivity.
  - change (Forall canonical ["mayastor"; "mayastor.lv.name=one"; "mayastor.lv.share=off"]%string).
    apply Forall_cons. split; [left; vm_compute; reflexivity|]. apply Forall_cons. split; [left; vm_compute; reflexivity|].
    apply Forall_singleton. left. vm_compute. reflexivity.
  - apply Forall_cons. split; [exact I|]. apply Forall_singleton. split; [split; reflexivity|discriminate].
  - apply Forall_cons. split; [discriminate|]. apply Forall_singleton. discriminate.
  - apply (bool_decide_unpack _). vm_compute. exact I.
  - vm_compute. reflexivity.
  - split; [|apply Hother; [apply list_elem_of_further, list_elem_of_here|vm_compute; congruence]].
    exists r'. split; [exact Hr|]. split; [exact Hp|]. split; [apply (Hps (LvShare Nvmf_)); apply list_elem_of_here|].
    apply Hq. left. split.
    + change (LvName "one" ∈ [PLvm; LvName "one"; LvShare Off]). apply list_elem_of_further, list_elem_of_here.
    + change (TLvName ∉ [TLvShare; TLvAllowedHosts]). rewrite !elem_of_cons, elem_of_nil. intros [|[|]]; done.
Defined.

(** ** Runs *)

(** What the volume at [path] is stored with *)
Definition share_tag (s : state) : option Property :=
  head (rows s) ≫= λ r, property TLvShare (tags_of (r_lv_tags r)).

Definition share_then_unshare : ST (sys * LogicalVolume) Error unit :=
  import;; share_nvmf None;; unshare true.

(** A volume that is shared and unshared through one object stays recorded as shared:
    its tags are not read again, and [Off] is taken to be stored already. *)
Lemma unshare_after_share_is_not_recorded :
  let '((s, lv), r) := share_then_unshare (sample, the_lv) in
  (is_ok r, share lv, share_tag s) = (true, Off, Some (LvShare Nvmf_)).
Proof. vm_compute. reflexivity. Qed.

(** After sharing, the volume still reports the protocol that was read before. *)
Lemma shared_volume_reports_off :
  let '((s, lv), r) := (import;; share_nvmf None) (sample, the_lv) in
  (is_ok r, share_proto lv, share_tag s) = (true, Some Off, Some (LvShare Nvmf_)).
Proof. vm_compute. reflexivity. Qed.

(** A replica that does not exist is an error, where [None] is meant. *)
Lemma missing_replica_is_an_error : match (find_replica "r9" sample).2 with Err (LvNotFound _) => True | _ => False end.
Proof. vm_compute. exact I. Qed.

(** Two hosts are not read back: the tags of a report are separated by commas as well. *)
Lemma two_hosts_are_not_read_back :
  tags_of (tag (LvAllowedHosts ["a"; "b"]%string)) = [LvAllowedHosts ["a"%string]; PUnknown "b" ""].
Proof. vm_compute. reflexivity. Qed.

(** A name with an equals sign is lost. *)
Lemma name_with_equals_is_lost : property TLvName (tags_of (tag (LvName "a=b"))) = None.
Proof. vm_compute. reflexivity. Qed.

End LvmSample.
