(* ===== verification/Nic.v ===== *)
(** * The address of the target

    [core/nic.rs] and the parts of [core/env.rs] that choose the address on which
    the NVMe-oF target listens: parsing of addresses, subnets and MAC addresses, the
    list of network interfaces and the choice among them.  An IPv4 address is a
    number of 32 bits, an IPv6 address one of 128 bits.  The parser of addresses is
    that of the standard library. *)

From Stdlib Require Import Ascii String.
From S2P Require Import Prelude Text BdevUri.

#[local] Open Scope Z_scope.

Module Nic.

Inductive IpAddr := V4 (bits : Z) | V6 (bits : Z).

#[global] Instance IpAddr_eq_dec : EqDecision IpAddr.
Proof. solve_decision. Defined.

(** [SIpAddr] *)
Inductive SIpAddr := SV4 (bits : Z) | SV6 (bits scope : Z).

Definition sip (a : SIpAddr) : IpAddr := match a with SV4 b => V4 b | SV6 b _ => V6 b end.

(** ** Parsing of addresses, as in [core::net::parser] *)

Definition P (A : Type) : Type := string → option (A * string).

Definition hex_digit (a : ascii) : option Z :=
  let b := byte a in
  if (48 <=? b) && (b <=? 57) then Some (b - 48)
  else if (97 <=? b) && (b <=? 102) then Some (b - 87)
  else if (65 <=? b) && (b <=? 70) then Some (b - 55)
  else None.

(** [to_digit(radix)] *)
Definition to_digit (radix : Z) (a : ascii) : option Z := d ← hex_digit a; if d <? radix then Some d else None.

Definition read_given_char (c : ascii) : P unit := λ s,
  match s with String a r => if bool_decide (a = c) then Some (tt, r) else None | EmptyString => None end.

(** The digits of a number of at most [room] digits and value at most [max] *)
Fixpoint read_digits (radix max : Z) (room : nat) (acc : Z) (n : nat) (s : string) : option (Z * nat * string) :=
  match s with
  | EmptyString => Some (acc, n, s)
  | String a r =>
      match to_digit radix a with
      | None => Some (acc, n, s)
      | Some d =>
          match room with
          | O => None
          | S room => if max <? acc * radix + d then None else read_digits radix max room (acc * radix + d) (S n) r
          end
      end
  end.

Definition leading_zero (s : string) : bool := match s with String a _ => bool_decide (a = "0"%char) | EmptyString => false end.

(** [read_number] *)
Definition read_number (radix max : Z) (digits : nat) (allow_zero_prefix : bool) : P Z := λ s,
  match read_digits radix max digits 0 0 s with
  | None | Some (_, O, _) => None
  | Some (v, n, r) => if negb allow_zero_prefix && leading_zero s && (1 <? Z.of_nat n) then None else Some (v, r)
  end.

(** [read_separator]: the separator is before every element but the first. *)
Definition read_separator {A} (sep : ascii) (index : nat) (inner : P A) : P A := λ s,
  match index with
  | O => inner s
  | _ => match read_given_char sep s with Some (_, r) => inner r | None => None end
  end.

(** [read_ipv4_addr] *)
Fixpoint read_octets (n index : nat) (acc : Z) : P Z := λ s,
  match n with
  | O => Some (acc, s)
  | S n =>
      match read_separator "." index (read_number 10 255 3 false) s with
      | Some (o, r) => read_octets n (S index) (acc * 256 + o) r
      | None => None
      end
  end.

Definition read_ipv4_addr : P Z := read_octets 4 0 0.

(** [read_groups]: at most [limit] groups from the one at [index] on, and whether they
    ended in an IPv4 address *)
Fixpoint read_groups (room index : nat) (s : string) : list Z * bool * string :=
  match room with
  | O => ([], false, s)
  | S room =>
      match (if bool_decide (room = O) then None else read_separator ":" index read_ipv4_addr s) with
      | Some (v4, r) => ([v4 / 2^16; v4 mod 2^16], true, r)
      | None =>
          match read_separator ":" index (read_number 16 65535 4 true) s with
          | None => ([], false, s)
          | Some (g, r) => let '(gs, b, r) := read_groups room (S index) r in (g :: gs, b, r)
          end
      end
  end.

Definition of_groups (gs : list Z) : Z := foldl (λ acc g, acc * 2^16 + g) 0 gs.

(** [read_ipv6_addr] *)
Definition read_ipv6_addr : P Z := λ s,
  let '(head, head_ipv4, r) := read_groups 8 0 s in
  if bool_decide (length head = 8%nat) then Some (of_groups head, r)
  else if head_ipv4 then None
  else
    match read_given_char ":" r with
    | None => None
    | Some (_, r) =>
        match read_given_char ":" r with
        | None => None
        | Some (_, r) =>
            let '(tail, _, r) := read_groups (7 - length head) 0 r in
            Some (of_groups (head ++ repeat 0 (8 - length head - length tail) ++ tail), r)
        end
    end.

(** [parse_ip] *)
Definition parse_ip (s : string) : outcome string IpAddr :=
  match read_ipv4_addr s with
  | Some (v, EmptyString) => Ok (V4 v)
  | Some _ => Err "invalid IP address syntax"%string
  | None =>
      match read_ipv6_addr s with
      | Some (v, EmptyString) => Ok (V6 v)
      | _ => Err "invalid IP address syntax"%string
      end
  end.

(** [split_once] *)
Fixpoint split_once (c : ascii) (s : string) : option (string * string) :=
  match s with
  | EmptyString => None
  | String a r =>
      if bool_decide (a = c) then Some (""%string, r)
      else match split_once c r with Some (x, y) => Some (String a x, y) | None => None end
  end.

(** [!0 << (w - bits)]: a shift by the whole width is one by zero, as in a release build. *)
Definition mask_of (w bits : Z) : Z := (2^w - 1) * 2^((w - bits) mod w) mod 2^w.

(** [parse_ip_subnet] *)
Definition parse_ip_subnet (addr_str : string) : outcome string (IpAddr * Z) :=
  match split_once "/" addr_str with
  | None => Err ("Invalid subnet: '" +:+ addr_str +:+ "'")%string
  | Some (addr, bits) =>
      match Uri.parse_uint u32_max bits with
      | inl e => Err ("Invalid subnet '" +:+ addr_str +:+ "': " +:+ e)%string
      | inr bits =>
          ip ← parse_ip addr;
          match ip with
          | V4 a =>
              if 32 <? bits then Err ("Invalid subnet '" +:+ addr_str +:+ "': suffix too large")%string
              else let mask := mask_of 32 bits in Ok (V4 (Z.land a mask), mask)
          | V6 a =>
              if 128 <? bits then Err ("Invalid subnet '" +:+ addr_str +:+ "': suffix too large")%string
              else let mask := mask_of 128 bits in Ok (V6 (Z.land a mask), mask)
          end
      end
  end.

(** ** MAC addresses *)

Definition MacAddr : Type := list Z.

(** [u8::from_str_radix(p, 16)] of two characters: a sign is allowed. *)
Definition hex_byte (p : string) : option Z :=
  match p with
  | String a (String b EmptyString) =>
      if bool_decide (a = "+"%char) then hex_digit b
      else x ← hex_digit a; y ← hex_digit b; Some (x * 16 + y)
  | _ => None
  end.

(** [MacAddr::parse] *)
Definition mac_parse (s : string) : option MacAddr :=
  let parts := split ":" s in
  if bool_decide (length parts = 6%nat) then mapM hex_byte parts else None.

Definition hex_char (d : Z) : ascii := ascii_of_N (Z.to_N (if d <? 10 then 48 + d else 87 + d)).
Definition show_byte (b : Z) : string := String (hex_char (b / 16)) (String (hex_char (b mod 16)) EmptyString).

(** [Display for MacAddr] *)
Definition mac_show (m : MacAddr) : string := join ":" (show_byte <$> m).

(** [FromStr for MacAddr] *)
Definition mac_from_str (s : string) : outcome string MacAddr :=
  match mac_parse s with Some m => Ok m | None => Err ("Invalid MAC address: '" +:+ s +:+ "'")%string end.

(** ** Interfaces *)

Record InetConfig (A : Type) := mkInet { addr : option A; netmask : option A }.
Arguments mkInet {A} _ _.
Arguments addr {A} _.
Arguments netmask {A} _.

(** An IPv6 socket address keeps its scope. *)
Record Interface := mkNic { name : string; inet : InetConfig Z; inet6 : InetConfig (Z * Z); mac : option MacAddr }.

Definition new (n : string) : Interface := mkNic n (mkInet None None) (mkInet None None) None.

(** [Interface::ip] *)
Definition ip (n : Interface) (prefer_ipv4 : bool) : option SIpAddr :=
  let v4 := SV4 <$> addr (inet n) in
  let v6 := (λ a, SV6 a.1 a.2) <$> addr (inet6 n) in
  if prefer_ipv4 then match v4 with Some a => Some a | None => v6 end
  else match v6 with Some a => Some a | None => v4 end.

Definition only_v4 (n : Interface) : Interface := mkNic (name n) (inet n) (mkInet None None) (mac n).
Definition only_v6 (n : Interface) : Interface := mkNic (name n) (mkInet None None) (inet6 n) (mac n).

(** [matched_ip_kind] *)
Definition matched_ip_kind (n : Interface) (a : IpAddr) : option Interface :=
  match a with
  | V4 b => if bool_decide (addr (inet n) = Some b) then Some (only_v4 n) else None
  | V6 b => if bool_decide (fst <$> addr (inet6 n) = Some b) then Some (only_v6 n) else None
  end.

(** [matched_subnet_kind]; another mask ends the search. *)
Definition matched_subnet_kind (n : Interface) (net_addr : IpAddr) (net_mask : Z) : option Interface :=
  match net_addr with
  | V4 net =>
      match addr (inet n), netmask (inet n) with
      | Some a, Some m =>
          if negb (m =? net_mask) then None else if Z.land a m =? net then Some (only_v4 n) else None
      | _, _ => None
      end
  | V6 net =>
      match addr (inet6 n), netmask (inet6 n) with
      | Some a, Some m =>
          if negb (m.1 =? net_mask) then None else if Z.land a.1 m.1 =? net then Some (only_v6 n) else None
      | _, _ => None
      end
  end.

(** [bool::cmp] *)
Definition bcmp (a b : bool) : comparison :=
  match a, b with false, true => Lt | true, false => Gt | _, _ => Eq end.

Definition segment0 (ip : Z) : Z := ip / 2^112.
Definition is_unique_local (ip : Z) : bool := Z.land (segment0 ip) 0xfe00 =? 0xfc00.
Definition is_unicast_link_local (ip : Z) : bool := Z.land (segment0 ip) 0xffc0 =? 0xfe80.
Definition is_unspecified (ip : Z) : bool := ip =? 0.
Definition is_multicast (ip : Z) : bool := ip / 2^120 =? 0xff.

Definition is_some {A} (o : option A) : bool := match o with Some _ => true | None => false end.

(** [Interface::sort] *)
Definition compare (n o : Interface) (prefer_ipv4 : bool) : comparison :=
  if prefer_ipv4 then bcmp (is_some (addr (inet n))) (is_some (addr (inet o)))
  else if negb (eqb (is_some (addr (inet6 n))) (is_some (addr (inet6 o))))
  then bcmp (is_some (addr (inet6 n))) (is_some (addr (inet6 o)))
  else
    match addr (inet6 n), addr (inet6 o) with
    | Some _, None => Gt
    | None, Some _ => Lt
    | Some (a, _), Some (b, _) =>
        if negb (eqb (is_unique_local a) (is_unique_local b)) then bcmp (is_unique_local a) (is_unique_local b)
        else if negb (eqb (is_unicast_link_local a) (is_unicast_link_local b))
        then bcmp (is_unicast_link_local a) (is_unicast_link_local b)
        else if negb (eqb (is_unspecified a) (is_unspecified b)) then bcmp (is_unspecified b) (is_unspecified a)
        else if negb (eqb (is_multicast a) (is_multicast b)) then bcmp (is_multicast b) (is_multicast a)
        else Eq
    | None, None => Eq
    end.

(** ** The interfaces of the system *)

(** A socket address is of one family. *)
Inductive sockaddr := SockIn (ip : Z) | SockIn6 (ip scope : Z) | SockLink (mac : option MacAddr) | SockOther.

(** An entry of [getifaddrs] *)
Record ifaddr := mkIfaddr { if_name : string; if_addr : option sockaddr; if_mask : option sockaddr }.

(** The body of the loop of [find_all_nics] *)
Definition nic_of (a : ifaddr) : option Interface :=
  let n := new (if_name a) in
  n ← (match if_addr a with
       | Some (SockIn i) => Some (mkNic (name n) (mkInet (Some i) None) (inet6 n) (mac n))
       | Some (SockIn6 i scope) => if 0 <? scope then None else Some (mkNic (name n) (inet n) (mkInet (Some (i, scope)) None) (mac n))
       | Some (SockLink m) => Some (mkNic (name n) (inet n) (inet6 n) m)
       | _ => Some n
       end);
  let n := match if_mask a with
           | Some (SockIn i) => mkNic (name n) (mkInet (addr (inet n)) (Some i)) (inet6 n) (mac n)
           | Some (SockIn6 i scope) => mkNic (name n) (inet n) (mkInet (addr (inet6 n)) (Some (i, scope))) (mac n)
           | _ => n
           end in
  if is_some (addr (inet n)) || is_some (addr (inet6 n)) then Some n else None.

Definition find_all_nics (l : list ifaddr) : list Interface := omap nic_of l.

(** ** The choice *)

(** [prefer_ipv4] of the endpoint of the gRPC server *)
Definition prefer_ipv4 (grpc : IpAddr) : bool := match grpc with V4 _ => true | V6 b => is_unspecified b end.

(** A stable sort *)
Fixpoint insert_by {A} (cmp : A → A → comparison) (x : A) (l : list A) : list A :=
  match l with
  | [] => [x]
  | y :: l' => match cmp x y with Gt => y :: insert_by cmp x l' | _ => x :: l end
  end.
Definition sort_by {A} (cmp : A → A → comparison) (l : list A) : list A := foldr (insert_by cmp) [] l.

Definition map_ok (filter : bool) (n : Interface) : option Interface := if filter then Some n else None.

(** The predicate of the argument *)
Definition selector (iface : string) : outcome string (Interface → option Interface) :=
  let '(cls, arg) := default ("name"%string, iface) (split_once ":" iface) in
  if bool_decide (cls = "name"%string) then Ok (λ n, map_ok (bool_decide (name n = arg)) n)
  else if bool_decide (cls = "mac"%string) then
    m ← mac_from_str arg; Ok (λ n, map_ok (bool_decide (mac n = Some m)) n)
  else if bool_decide (cls = "ip"%string) then
    a ← parse_ip arg; Ok (λ n, matched_ip_kind n a)
  else if bool_decide (cls = "subnet"%string) then
    p ← parse_ip_subnet arg; Ok (λ n, matched_subnet_kind n p.1 p.2)
  else Err ("Invalid NVMF target interface: '" +:+ iface +:+ "'")%string.

(** [detect_nvmf_tgt_iface_ip] *)
Definition detect_nvmf_tgt_iface_ip (grpc : IpAddr) (system : list ifaddr) (iface : string) : outcome string SIpAddr :=
  let p4 := prefer_ipv4 grpc in
  pred ← selector iface;
  let nics := sort_by (λ a b, compare a b p4) (omap pred (find_all_nics system)) in
  match last nics with
  | None => Err ("Network interface matching '" +:+ iface +:+ "' not found")%string
  | Some res =>
      match ip res p4 with
      | Some a => Ok a
      | None => Err ("Network interface '" +:+ name res +:+ "' has no IP address configured")%string
      end
  end.

(** [parse_grpc_ip] *)
Definition parse_grpc_ip (src : string) : outcome string SIpAddr :=
  let '(i, scope) := default (src, ""%string) (split_once "%" src) in
  match parse_ip i with
  | Ok (V4 b) => Ok (SV4 b)
  | Ok (V6 b) =>
      if bool_decide (scope = ""%string) then Ok (SV6 b 0)
      else Err ("Ip '" +:+ src +:+ "' has a scope_id '" +:+ scope +:+ "' which is not currently supported")%string
  | Err e => Err ("Invalid ip '" +:+ src +:+ "': " +:+ e)%string
  | Panicked => Panicked
  end.

Definition V4_LOCALHOST : Z := 127 * 2^24 + 1.
Definition V6_LOCALHOST : Z := 1.

(** [detect_pod_ip]; [my_pod_ip] is the environment variable. *)
Definition detect_pod_ip (grpc : IpAddr) (my_pod_ip : option string) : outcome string SIpAddr :=
  match my_pod_ip with
  | Some v => parse_grpc_ip v
  | None => Ok (if prefer_ipv4 grpc then SV4 V4_LOCALHOST else SV6 V6_LOCALHOST 0)
  end.

(** [get_nvmf_tgt_ip]: the first address that is found is kept. *)
Definition get_nvmf_tgt_ip (grpc : IpAddr) (system : list ifaddr) (interface my_pod_ip : option string)
    (cell : option SIpAddr) : option SIpAddr * outcome string SIpAddr :=
  match cell with
  | Some a => (cell, Ok a)
  | None =>
      match (match interface with Some i => detect_nvmf_tgt_iface_ip grpc system i | None => detect_pod_ip grpc my_pod_ip end) with
      | Ok a => (Some a, Ok a)
      | r => (None, r)
      end
  end.

(** ** Other arguments *)

(** [delay_compat] *)
Definition delay_compat (s : string) : outcome string bool :=
  if bool_decide (s ∈ ["1"; "true"]%string) then Ok true
  else if bool_decide (s ∈ [""; "0"; "false"]%string) then Ok false
  else Err "Must be one of: 1,true,0,false"%string.

(** [parse_crdt]: the command retry delays *)
Definition parse_crdt_val (s : string) : outcome string Z :=
  match Uri.parse_uint 65535 s with
  | inl e => Err e
  | inr u => if 100 <? u then Err "Command Retry Delay value is too big"%string else Ok u
  end.

Definition parse_crdt (src : string) : outcome string (list Z) :=
  match split "," src with
  | [one] => a ← parse_crdt_val one; Ok [a; 0; 0]
  | [one; two; three] => a ← parse_crdt_val one; b ← parse_crdt_val two; c ← parse_crdt_val three; Ok [a; b; c]
  | _ => Err "Command Retry Delay argument must be an integer or a comma-separated list of three intergers"%string
  end.

Definition NVME_NQN_PREFIX : string := "nqn.2019-05.io.openebs".

(** [make_hostnqn]; [hostnqn] is the environment variable. *)
Definition make_hostnqn (hostnqn node_name : option string) : option string :=
  match hostnqn with
  | Some n => Some n
  | None => (λ n, NVME_NQN_PREFIX +:+ ":node-name:" +:+ n)%string <$> node_name
  end.

End Nic.
