(* ===== verification/NicProps.v ===== *)
(** * The address of the target: the choice is the best match

    The comparison of interfaces is the order of a score; the interface that is used
    is the last of those with the highest score among the matching ones. *)

From Stdlib Require Import Ascii String Sorted.
From S2P Require Import Prelude Text BdevUri Nic.

#[local] Open Scope Z_scope.

Module NicProps.
Import Nic.

(** ** The order of interfaces *)

(** The preferences, the most important first *)
Definition score (prefer_ipv4 : bool) (n : Interface) : Z :=
  if prefer_ipv4 then Z.b2z (is_some (addr (inet n)))
  else match addr (inet6 n) with
       | None => 0
       | Some (a, _) =>
           16 + 8 * Z.b2z (is_unique_local a) + 4 * Z.b2z (is_unicast_link_local a) +
           2 * Z.b2z (negb (is_unspecified a)) + Z.b2z (negb (is_multicast a))
       end.

Lemma compare_score n o p : compare n o p = Z.compare (score p n) (score p o).
Proof.
  unfold compare, score. destruct p; [by destruct (addr (inet n)), (addr (inet o))|].
  destruct (addr (inet6 n)) as [[a ?]|], (addr (inet6 o)) as [[b ?]|]; cbn [is_some negb eqb bcmp].
  - by destruct (is_unique_local a), (is_unique_local b), (is_unicast_link_local a), (is_unicast_link_local b),
      (is_unspecified a), (is_unspecified b), (is_multicast a), (is_multicast b).
  - by destruct (is_unique_local a), (is_unicast_link_local a), (is_unspecified a), (is_multicast a).
  - by destruct (is_unique_local b), (is_unicast_link_local b), (is_unspecified b), (is_multicast b).
  - done.
Qed.

(** ** Sorting by a score *)

Section Sort.
Context {A : Type} (cmp : A → A → comparison) (f : A → Z).
Hypothesis Hcmp : ∀ x y, cmp x y = Z.compare (f x) (f y).

Definition le_f (x y : A) : Prop := f x ≤ f y.

Lemma insert_elem x l y : y ∈ insert_by cmp x l ↔ y = x ∨ y ∈ l.
Proof.
  induction l as [|z l IH]; cbn; [set_solver|]. destruct (cmp x z); rewrite ?elem_of_cons, ?IH; set_solver.
Qed.

Lemma insert_sorted x l : StronglySorted le_f l → StronglySorted le_f (insert_by cmp x l).
Proof.
  induction 1 as [|z l Hl IH Hz]; cbn; [by repeat constructor|]. rewrite Hcmp. destruct (Z.compare_spec (f x) (f z)).
  - constructor; [by constructor|]. constructor; [unfold le_f; lia|]. eapply Forall_impl; [done|]. unfold le_f. intros; lia.
  - constructor; [by constructor|]. constructor; [unfold le_f; lia|]. eapply Forall_impl; [done|]. unfold le_f. intros; lia.
  - constructor; [done|]. apply Forall_forall. intros y [->|Hy]%insert_elem; [unfold le_f; lia|]. by eapply Forall_forall in Hz.
Qed.

Lemma sort_sorted l : StronglySorted le_f (sort_by cmp l).
Proof. induction l; cbn; [constructor|]. by apply insert_sorted. Qed.

Lemma last_insert x l n : StronglySorted le_f l → last l = Some n → last (insert_by cmp x l) = Some (if f n <? f x then x else n).
Proof.
  induction 1 as [|z l Hl IH Hz]; [done|]. intros Hn. cbn [insert_by]. rewrite Hcmp.
  assert (n = z ∧ l = [] ∨ last l = Some n ∧ f z ≤ f n) as Hcase.
  { destruct l as [|w l]; [left; by injection Hn as ->|right]. split; [done|].
    rewrite Forall_forall in Hz. apply Hz, last_Some_elem_of. done. }
  destruct (Z.compare_spec (f x) (f z)) as [E|E|E].
  - change (last (x :: z :: l)) with (last (z :: l)). rewrite Hn. destruct (Z.ltb_spec (f n) (f x)); [|done].
    destruct Hcase as [[-> _]|[_ ?]]; lia.
  - change (last (x :: z :: l)) with (last (z :: l)). rewrite Hn. destruct (Z.ltb_spec (f n) (f x)); [|done].
    destruct Hcase as [[-> _]|[_ ?]]; lia.
  - destruct Hcase as [[-> ->]|[Hl' _]].
    + cbn. destruct (Z.ltb_spec (f z) (f x)); [done|lia].
    + specialize (IH Hl'). destruct (insert_by cmp x l) as [|w l'] eqn:Ei; [done|]. exact IH.
Qed.

Lemma sort_some x l : last (sort_by cmp (x :: l)) ≠ None.
Proof.
  rewrite last_None. cbn. intros E. assert (x ∈ insert_by cmp x (sort_by cmp l)) as Hx by (apply insert_elem; by left).
  unfold sort_by in Hx. rewrite E in Hx. by apply not_elem_of_nil in Hx.
Qed.

(** The last of the sorted list is the last of the highest. *)
Lemma last_sorted l n : last (sort_by cmp l) = Some n →
  ∃ l1 l2, l = l1 ++ n :: l2 ∧ Forall (λ m, f m ≤ f n) l1 ∧ Forall (λ m, f m < f n) l2.
Proof.
  revert n. induction l as [|x l IH]; intros n; [done|]. cbn [sort_by foldr]. change (foldr (insert_by cmp) [] l) with (sort_by cmp l).
  destruct (last (sort_by cmp l)) as [m|] eqn:Em.
  - rewrite (last_insert x _ m) by (apply sort_sorted || done). destruct (IH m eq_refl) as (l1 & l2 & -> & H1 & H2).
    destruct (Z.ltb_spec (f m) (f x)); intros [= <-].
    + exists [], (l1 ++ m :: l2). split; [done|]. split; [constructor|]. apply Forall_app. split; [|constructor; [done|]].
      * eapply Forall_impl; [done|]. cbn. intros; lia.
      * eapply Forall_impl; [done|]. cbn. intros; lia.
    + exists (x :: l1), l2. split; [done|]. split; [constructor; [lia|done]|done].
  - destruct l as [|y l]; [|by apply sort_some in Em]. intros [= <-]. exists [], []. by split.
Qed.

End Sort.

(** ** Every candidate has an address *)

Definition has_ip (n : Interface) : Prop := is_Some (addr (inet n)) ∨ is_Some (addr (inet6 n)).

Lemma has_ip_ip n p : has_ip n → is_Some (ip n p).
Proof. unfold has_ip, ip. intros [[a Ha]|[a Ha]]; rewrite Ha; destruct p; cbn; [eauto| |by destruct (addr (inet n)); cbn; eauto|eauto]. by destruct (addr (inet6 n)); cbn; eauto. Qed.

Lemma found_has_ip l n : n ∈ find_all_nics l → has_ip n.
Proof.
  unfold find_all_nics. rewrite list_elem_of_omap. intros (a & _ & Ha). unfold nic_of in Ha.
  destruct (match if_addr a with Some _ => _ | None => _ end) as [n1|]; [|done]. cbn in Ha.
  destruct (_ || _) eqn:Hb in Ha; [|done]. injection Ha as <-. unfold has_ip. apply orb_true_iff in Hb as [Hb|Hb]; revert Hb.
  - destruct (addr (inet _)); [by left; eexists|done].
  - destruct (addr (inet6 _)); [by right; eexists|done].
Qed.

Definition in_subnet (a : SIpAddr) (net : IpAddr) (mask : Z) : Prop :=
  match a, net with
  | SV4 b, V4 x => Z.land b mask = x
  | SV6 b _, V6 x => Z.land b mask = x
  | _, _ => False
  end.

(** The subnet of an argument that has one *)
Definition subnet_of (iface : string) : option (IpAddr * Z) :=
  match split_once ":" iface with
  | Some (cls, arg) =>
      if bool_decide (cls = "subnet"%string) then match parse_ip_subnet arg with Ok p => Some p | _ => None end else None
  | None => None
  end.

Lemma selected_subnet iface pred net mask n n' : selector iface = Ok pred → subnet_of iface = Some (net, mask) →
  pred n = Some n' → matched_subnet_kind n net mask = Some n'.
Proof.
  unfold selector, subnet_of. destruct (split_once ":" iface) as [[cls arg]|]; [|done]. cbn [from_option id].
  destruct (decide (cls = "subnet"%string)) as [->|Hne]; [|by rewrite (bool_decide_false (_ = "subnet"%string))].
  rewrite !(bool_decide_false (_ = "name"%string)), !(bool_decide_false (_ = "mac"%string)), !(bool_decide_false (_ = "ip"%string)) by done.
  rewrite !bool_decide_true by done. destruct (parse_ip_subnet arg) as [[]| |]; [|done..]. cbn. by intros [= <-] [= <- <-].
Qed.

Lemma matched_subnet n net mask n' : matched_subnet_kind n net mask = Some n' → ∀ p, ∃ a, ip n' p = Some a ∧
  in_subnet a net mask.
Proof.
  unfold matched_subnet_kind. intros H p. destruct net as [x|x].
  - destruct (addr (inet n)) as [a|] eqn:Ea, (netmask (inet n)) as [m|]; [|done..].
    destruct (Z.eqb_spec m mask) as [E|]; [|done]. rewrite E in H. cbn in H. destruct (Z.eqb_spec (Z.land a mask) x); [|done]. simplify_eq.
    exists (SV4 a). unfold ip. cbn. rewrite Ea. by destruct p.
  - destruct (addr (inet6 n)) as [[a s]|] eqn:Ea, (netmask (inet6 n)) as [[m ?]|]; [|done..]. cbn in H.
    destruct (Z.eqb_spec m mask) as [E|]; [|done]. rewrite E in H. cbn in H. destruct (Z.eqb_spec (Z.land a mask) x); [|done]. simplify_eq.
    exists (SV6 a s). unfold ip. cbn. rewrite Ea. by destruct p.
Qed.

Lemma selected_has_ip iface pred n n' : selector iface = Ok pred → has_ip n → pred n = Some n' → has_ip n'.
Proof.
  unfold selector. destruct (default _ _) as [cls arg]. intros Hs Hn Hp.
  assert (∀ b, map_ok b n = Some n' → has_ip n') as Hmap by (intros []; cbn; naive_solver).
  repeat case_bool_decide; simplify_eq; eauto.
  - destruct (mac_from_str arg); [|done..]. cbn in Hs. simplify_eq. eauto.
  - destruct (parse_ip arg) as [a| |]; [|done..]. cbn in Hs. simplify_eq. unfold matched_ip_kind in Hp. unfold has_ip.
    destruct a; case_bool_decide as E; simplify_eq; cbn; [left; rewrite E; eauto|right].
    destruct (addr (inet6 n)); [eauto|done].
  - destruct (parse_ip_subnet arg) as [[net mask]| |]; [|done..]. cbn in Hs. simplify_eq. cbn in Hp.
    destruct (matched_subnet _ _ _ _ Hp true) as (a & Ha & _). unfold has_ip. unfold ip in Ha.
    destruct (addr (inet n')), (addr (inet6 n')); cbn in Ha; eauto; done.
Qed.

(** C39. The address of the target is the preferred one of the interface that matches
    best: when interfaces match the argument an address is found, it is that of the last
    of the matching interfaces with the highest score, and for a subnet it lies in it; an
    error means that the argument is not valid or that nothing matches. *)
Theorem target_address_is_best grpc system iface :
  match selector iface with
  | Panicked => False
  | Err e => detect_nvmf_tgt_iface_ip grpc system iface = Err e
  | Ok pred =>
      match omap pred (find_all_nics system) with
      | [] => is_ok (detect_nvmf_tgt_iface_ip grpc system iface) = false
      | candidates => ∃ l1 n l2 a, candidates = l1 ++ n :: l2 ∧
          Forall (λ m, score (prefer_ipv4 grpc) m ≤ score (prefer_ipv4 grpc) n) l1 ∧
          Forall (λ m, score (prefer_ipv4 grpc) m < score (prefer_ipv4 grpc) n) l2 ∧
          ip n (prefer_ipv4 grpc) = Some a ∧ detect_nvmf_tgt_iface_ip grpc system iface = Ok a ∧
          ∀ net mask, subnet_of iface = Some (net, mask) → in_subnet a net mask
      end
  end.
Proof.
  assert (selector iface ≠ Panicked) as Hnp.
  { unfold selector, mac_from_str, parse_ip_subnet, parse_ip. destruct (default _ _) as [cls arg]. repeat (case_match || case_bool_decide; simplify_eq; cbn); done. }
  unfold detect_nvmf_tgt_iface_ip. destruct (selector iface) as [pred|e|] eqn:Es; [|done..]. cbn [mbind outcome_bind].
  destruct (omap pred (find_all_nics system)) as [|c cs] eqn:Ec; [done|].
  destruct (last (sort_by _ (c :: cs))) as [n|] eqn:El.
  - eapply last_sorted in El as (l1 & l2 & Hl & H1 & H2); [|intros; apply compare_score].
    assert (n ∈ omap pred (find_all_nics system)) as Hn by (rewrite Ec, Hl; set_solver).
    apply list_elem_of_omap in Hn as (m & Hm & Hp). destruct (has_ip_ip n (prefer_ipv4 grpc)) as [a Ha].
    { eapply selected_has_ip; [done|by eapply found_has_ip|done]. }
    rewrite Ha. exists l1, n, l2, a. rewrite <-Hl. split_and!; try done. intros net mask Hsub.
    eapply selected_subnet in Hp; [|done..]. destruct (matched_subnet _ _ _ _ Hp (prefer_ipv4 grpc)) as (a' & Ha' & Hin). by simplify_eq.
  - exfalso. eapply sort_some; [|done]. intros. apply compare_score.
Qed.

(** ** MAC addresses *)

Definition is_byte (b : Z) : Prop := 0 ≤ b < 256.

Lemma show_byte_ok b : is_byte b → hex_byte (show_byte b) = Some b ∧ has ":" (show_byte b) = false.
Proof.
  intros Hb. assert (Forall (λ n, hex_byte (show_byte (Z.of_nat n)) = Some (Z.of_nat n) ∧ has ":" (show_byte (Z.of_nat n)) = false) (seq 0 256)) as H.
  { apply (bool_decide_unpack _). vm_compute. exact I. }
  rewrite Forall_forall in H. specialize (H (Z.to_nat b)). rewrite Z2Nat.id in H by (unfold is_byte in Hb; lia).
  apply H, elem_of_seq. unfold is_byte in Hb. lia.
Qed.

(** A MAC address is read back from its text. *)
Lemma mac_round_trip m : length m = 6%nat → Forall is_byte m → mac_parse (mac_show m) = Some m.
Proof.
  intros Hl Hm. unfold mac_parse, mac_show. rewrite split_join.
  - rewrite length_fmap, bool_decide_true by done. clear Hl. induction Hm as [|b m Hb Hm IH]; [done|].
    rewrite fmap_cons. cbn [mapM]. rewrite (proj1 (show_byte_ok b Hb)), IH. done.
  - by destruct m.
  - apply Forall_fmap. eapply Forall_impl; [done|]. intros b Hb. by apply show_byte_ok.
Qed.

(** The entries of the system have one address each, and those without an IP address are
    left out, so that no interface has a MAC address and an interface that is specified
    by one is never found. *)
Lemma no_nic_has_a_mac l n : n ∈ find_all_nics l → mac n = None.
Proof.
  unfold find_all_nics. rewrite list_elem_of_omap. intros (a & _ & Ha). unfold nic_of in Ha.
  destruct (if_addr a) as [[i|i s|m|]|]; try destruct (0 <? s); try done;
    destruct (if_mask a) as [[]|]; cbn in Ha; by simplify_eq.
Qed.

Lemma mac_is_never_found grpc system m :
  is_ok (detect_nvmf_tgt_iface_ip grpc system ("mac:" +:+ m)%string) = false.
Proof.
  unfold detect_nvmf_tgt_iface_ip, selector. change (split_once ":" ("mac:" +:+ m)) with (Some ("mac"%string, m)).
  cbn [from_option id]. rewrite (bool_decide_false (_ = "name"%string)), bool_decide_true by done.
  destruct (mac_from_str m) as [x| |]; [|done..]. cbn [mbind outcome_bind].
  assert (omap (λ n, map_ok (bool_decide (mac n = Some x)) n) (find_all_nics system) = []) as ->; [|done].
  assert (∀ n, n ∈ find_all_nics system → mac n = None) as Hn by apply no_nic_has_a_mac.
  induction (find_all_nics system) as [|n l IH]; [done|]. cbn. rewrite bool_decide_false; [|rewrite Hn; [done|apply list_elem_of_here]].
  apply IH. intros n' Hn'. apply Hn. by apply list_elem_of_further.
Qed.

(** The subnet of all addresses gets the mask of a single one. *)
Lemma subnet_of_all_has_full_mask : parse_ip_subnet "10.0.0.1/0" = Ok (V4 (10 * 2^24 + 1), 2^32 - 1).
Proof. vm_compute. reflexivity. Qed.

Lemma mask_is_prefix bits : 0 < bits ≤ 32 → mask_of 32 bits = 2^32 - 2^(32 - bits).
Proof.
  intros Hb. assert (Forall (λ n, mask_of 32 (Z.of_nat n) = 2^32 - 2^(32 - Z.of_nat n)) (seq 1 32)) as H.
  { apply (bool_decide_unpack _). vm_compute. exact I. }
  rewrite Forall_forall in H. specialize (H (Z.to_nat bits)). rewrite Z2Nat.id in H by lia. apply H, elem_of_seq. lia.
Qed.

(** Delays that are accepted are three and at most 100. *)
Lemma crdt_bounds s l : parse_crdt s = Ok l → length l = 3%nat ∧ Forall (λ x, x ≤ 100) l.
Proof.
  assert (∀ x v, parse_crdt_val x = Ok v → v ≤ 100) as Hv.
  { intros x v. unfold parse_crdt_val. destruct (Uri.parse_uint 65535 x) as [|u]; [done|]. destruct (Z.ltb_spec 100 u); [done|]. intros [= <-]. lia. }
  unfold parse_crdt. destruct (split "," s) as [|a [|b [|c [|]]]]; try done; intros H.
  - destruct (parse_crdt_val a) as [x| |] eqn:Ea; [|done..]. cbn in H. simplify_eq. split; [done|]. repeat constructor; eauto; lia.
  - destruct (parse_crdt_val a) as [x| |] eqn:Ea; [|done..]. cbn in H. destruct (parse_crdt_val b) as [y| |] eqn:Eb; [|done..].
    cbn in H. destruct (parse_crdt_val c) as [z| |] eqn:Ec; [|done..]. cbn in H. simplify_eq. split; [done|]. repeat constructor; eauto.
Qed.

End NicProps.
