(* ===== verification/Inject.v ===== *)
(** * Fault injection

    The faults tests inject into I/O ([core/fault_injection]): their URIs, the
    choice of the I/Os they hit, the list of injections, and the injections into
    the function table of a bdev.  The theorems are in [InjectProps]. *)

From Stdlib Require Import Ascii String.
From S2P Require Import Prelude Text Wp Errors IoLog BdevUri BlockDevice.

#[local] Open Scope Z_scope.

Module Inject.
Import BlockDev.

(** ** What is injected *)

(** [FaultDomain], [FaultIoOperation], [FaultIoStage] and [FaultMethod] *)
Inductive FaultDomain := NexusChild | BlockDevice | BdevIo.
Inductive FaultIoOperation := Read | Write | ReadWrite.
Inductive FaultIoStage := Submission | Completion.
Inductive FaultMethod := Status (s : IoCompletionStatus) | Data.

#[global] Instance FaultDomain_eq_dec : EqDecision FaultDomain.
Proof. solve_decision. Defined.
#[global] Instance FaultIoOperation_eq_dec : EqDecision FaultIoOperation.
Proof. solve_decision. Defined.
#[global] Instance FaultIoStage_eq_dec : EqDecision FaultIoStage.
Proof. solve_decision. Defined.
#[global] Instance FaultMethod_eq_dec : EqDecision FaultMethod.
Proof. solve_decision. Defined.

(** The crates [url] and [rand], and the codes of [spdk_rs::NvmeStatus]. *)
Class Crates := {
  url : Type;
  url_parse : string → string + url;
  host_str : url → option string;
  port : url → option Z;
  path : url → string;
  query_pairs : url → list (string * string);
  rng : Type;
  from_seed : rng;
  next_u32 : rng → rng * Z;
  DATA_TRANSFER_ERROR : NvmeStatus;
  as_sct_sc_codes : NvmeStatus → Z * Z;
  nvme_from : Z * Z → NvmeStatus;
}.

(** [FaultInjectionError]; the source of [InvalidUri] is a text. *)
Inductive Error :=
| InjectionsDisabled
| NotInjectionUri (uri : string)
| InvalidUri (source uri : string)
| UnknownParameter (name value : string)
| BadParameterValue (name value : string)
| BadDurations (name : string) (begin end_ : Z)
| DeviceNotFound (name : string)
| InvalidInjection (name msg : string).

#[global] Instance outcome_fmap {E} : FMap (outcome E) := λ A B f o, a ← o; Ok (f a).

(** ** Numbers as text *)

Definition digit_char (d : Z) : ascii :=
  ascii_of_N (Z.to_N (if d <? 10 then 48 + d else 87 + d)).

Definition char_digit (a : ascii) : option Z :=
  let b := byte a in
  if (48 <=? b) && (b <=? 57) then Some (b - 48)
  else if (97 <=? b) && (b <=? 102) then Some (b - 87) else None.

Fixpoint show_go (fuel : nat) (r n : Z) (acc : string) : string :=
  match fuel with
  | O => acc
  | Datatypes.S f =>
      let acc := String (digit_char (n mod r)) acc in
      if n / r =? 0 then acc else show_go f r (n / r) acc
  end.

(** A number in base [r]; there are at most as many digits as bits. *)
Definition show (r n : Z) : string := show_go (Datatypes.S (Z.to_nat (Z.log2 n))) r n "".

(** [{n}] and [{n:x}] *)
Definition dec : Z → string := show 10.
Definition hex : Z → string := show 16.

Fixpoint hex_digits (max acc : Z) (s : string) : option Z :=
  match s with
  | EmptyString => Some acc
  | String a s =>
      match char_digit a with
      | Some d => if acc * 16 + d <=? max then hex_digits max (acc * 16 + d) s else None
      | None => None
      end
  end.

(** [i32::from_str_radix(s, 16)] of a text of hexadecimal digits and dots *)
Definition i32_from_hex (s : string) : option Z :=
  match s with EmptyString => None | _ => hex_digits (2^31 - 1) 0 s end.

(** ** Durations, in nanoseconds *)

Definition MAX_DURATION : Z := u64_max * 1000000000 + 999999999.
Definition from_millis (ms : Z) : Z := ms * 1000000.
Definition as_millis (d : Z) : Z := d / 1000000.

Section Injection.
Context {C : Crates}.

(** ** The method *)

Definition FAULT_DATA_TRANSFER : FaultMethod := Status (NvmeError DATA_TRANSFER_ERROR).

(** [Display] of the domain, the operation, the stage and the method *)
Definition show_domain (d : FaultDomain) : string :=
  match d with NexusChild => "child" | BlockDevice => "block" | BdevIo => "bdev_io" end.
Definition show_op (o : FaultIoOperation) : string :=
  match o with Read => "r" | Write => "w" | ReadWrite => "rw" end.
Definition show_stage (s : FaultIoStage) : string :=
  match s with Submission => "submit" | Completion => "compl" end.

Definition show_method (m : FaultMethod) : string :=
  match m with
  | Status (NvmeError s) =>
      if bool_decide (s = DATA_TRANSFER_ERROR) then "status"
      else let '(sct, sc) := as_sct_sc_codes s in "status-nvme-" +:+ hex (wrap32 sct) +:+ "-" +:+ hex (wrap32 sc)
  | Status (LvolError NoSpace) => "status-lvol-nospace"
  | Status (IoSubmissionError SubmitRead) => "status-submit-read"
  | Status (IoSubmissionError SubmitWrite) => "status-submit-write"
  | Status AdminCommandError => "status-admin"
  | Data => "data"
  | Status Success => "invalid"
  end.

(** The captures of [^status-nvme-([0-9a-f.]+)-([0-9a-f.]+)$]; the classes have no
    hyphen. *)
Fixpoint all_hex (s : string) : bool :=
  match s with
  | EmptyString => true
  | String a s => (bool_decide (is_Some (char_digit a)) || bool_decide (a = "."%char)) && all_hex s
  end.

Definition nvme_re (s : string) : option (string * string) :=
  match split "-" s with
  | ["status"; "nvme"; a; b] =>
      if all_hex a && all_hex b && negb (bool_decide (a = ""%string)) && negb (bool_decide (b = ""%string))
      then Some (a, b) else None
  | _ => None
  end%string.

(** [FaultMethod::parse] *)
Definition parse (s : string) : option FaultMethod :=
  let nvme :=
    '(a, b) ← nvme_re s;
    sct ← i32_from_hex a;
    sc ← i32_from_hex b;
    Some (Status (NvmeError (nvme_from (sct, sc)))) in
  match nvme with
  | Some m => Some m
  | None =>
      if bool_decide (s = "status-lvol-nospace") then Some (Status (LvolError NoSpace))
      else if bool_decide (s = "status-submit-read") then Some (Status (IoSubmissionError SubmitRead))
      else if bool_decide (s = "status-submit-write") then Some (Status (IoSubmissionError SubmitWrite))
      else if bool_decide (s = "status-admin") then Some (Status AdminCommandError)
      else None
  end%string.

(** ** The injection *)

(** [InjectionState] *)
Record InjectionState := mkState { started : option Z; hits : Z; state_rng : rng }.

Definition default_state : InjectionState := mkState None 0 from_seed.

(** [tick], at the time [t] *)
Definition tick (t : Z) (s : InjectionState) : InjectionState :=
  match started s with
  | None => mkState (Some t) 1 (state_rng s)
  | Some _ => mkState (started s) (wrap64 (hits s + 1)) (state_rng s)
  end.

(** [now], at the time [t] *)
Definition now (t : Z) (s : InjectionState) : Z :=
  match started s with None => MAX_DURATION | Some b => Z.max 0 (t - b) end.

Record Injection := mkInjection {
  uri_ : option string;
  domain : FaultDomain;
  device_name : string;
  io_operation : FaultIoOperation;
  io_stage : FaultIoStage;
  method : FaultMethod;
  time_range : Z * Z;
  block_range : Z * Z;
  retries : Z;
  state : InjectionState;
}.

(** [Default for Injection] *)
Definition default : Injection :=
  mkInjection None BlockDevice "" ReadWrite Submission FAULT_DATA_TRANSFER (0, MAX_DURATION) (0, u64_max) u64_max default_state.

Definition with_uri (u : option string) (n : string) (i : Injection) : Injection :=
  mkInjection u (domain i) n (io_operation i) (io_stage i) (method i) (time_range i) (block_range i) (retries i) (state i).
Definition with_domain (d : FaultDomain) (i : Injection) : Injection :=
  mkInjection (uri_ i) d (device_name i) (io_operation i) (io_stage i) (method i) (time_range i) (block_range i) (retries i) (state i).
Definition with_op (o : FaultIoOperation) (i : Injection) : Injection :=
  mkInjection (uri_ i) (domain i) (device_name i) o (io_stage i) (method i) (time_range i) (block_range i) (retries i) (state i).
Definition with_stage (s : FaultIoStage) (i : Injection) : Injection :=
  mkInjection (uri_ i) (domain i) (device_name i) (io_operation i) s (method i) (time_range i) (block_range i) (retries i) (state i).
Definition with_method (m : FaultMethod) (i : Injection) : Injection :=
  mkInjection (uri_ i) (domain i) (device_name i) (io_operation i) (io_stage i) m (time_range i) (block_range i) (retries i) (state i).
Definition with_time_range (t : Z * Z) (i : Injection) : Injection :=
  mkInjection (uri_ i) (domain i) (device_name i) (io_operation i) (io_stage i) (method i) t (block_range i) (retries i) (state i).
Definition with_block_range (b : Z * Z) (i : Injection) : Injection :=
  mkInjection (uri_ i) (domain i) (device_name i) (io_operation i) (io_stage i) (method i) (time_range i) b (retries i) (state i).
Definition with_retries (r : Z) (i : Injection) : Injection :=
  mkInjection (uri_ i) (domain i) (device_name i) (io_operation i) (io_stage i) (method i) (time_range i) (block_range i) r (state i).
Definition with_state (s : InjectionState) (i : Injection) : Injection :=
  mkInjection (uri_ i) (domain i) (device_name i) (io_operation i) (io_stage i) (method i) (time_range i) (block_range i) (retries i) s.

(** ** Parsing *)

Definition parse_domain (k v : string) : outcome Error FaultDomain :=
  if bool_decide (v ∈ ["child"; "nexus_child"; "NexusChild"]) then Ok NexusChild
  else if bool_decide (v ∈ ["block"; "block_device"; "BlockDevice"]) then Ok BlockDevice
  else if bool_decide (v ∈ ["bdev_io"; "BdevIo"]) then Ok BdevIo
  else Err (UnknownParameter k v).

Definition parse_fault_io_type (k v : string) : outcome Error FaultIoOperation :=
  if bool_decide (v ∈ ["read"; "r"; "Read"]) then Ok Read
  else if bool_decide (v ∈ ["write"; "w"; "Write"]) then Ok Write
  else if bool_decide (v ∈ ["read_write"; "rw"; "ReadWrite"]) then Ok ReadWrite
  else Err (UnknownParameter k v).

Definition parse_fault_io_stage (k v : string) : outcome Error FaultIoStage :=
  if bool_decide (v ∈ ["submit"; "s"; "submission"; "Submission"]) then Ok Submission
  else if bool_decide (v ∈ ["compl"; "c"; "completion"; "Completion"]) then Ok Completion
  else Err (UnknownParameter k v).

Definition parse_method (k v : string) : outcome Error FaultMethod :=
  if bool_decide (v ∈ ["status"; "Status"]) then Ok FAULT_DATA_TRANSFER
  else if bool_decide (v ∈ ["data"; "Data"]) then Ok Data
  else match parse v with Some m => Ok m | None => Err (UnknownParameter k v) end.

Definition parse_num (k v : string) : outcome Error Z :=
  match Uri.parse_uint u64_max v with inr n => Ok n | inl _ => Err (BadParameterValue k v) end.

Definition parse_timer (k v : string) : outcome Error Z := from_millis <$> parse_num k v.

(** One round of the loop over the parameters *)
Definition set_param (r : Injection) (k v : string) : outcome Error Injection :=
  if bool_decide (k = "domain") then (λ d, with_domain d r) <$> parse_domain k v
  else if bool_decide (k = "op") then (λ o, with_op o r) <$> parse_fault_io_type k v
  else if bool_decide (k = "stage") then (λ s, with_stage s r) <$> parse_fault_io_stage k v
  else if bool_decide (k = "method") then (λ m, with_method m r) <$> parse_method k v
  else if bool_decide (k = "begin_at") then (λ t, with_time_range (t, snd (time_range r)) r) <$> parse_timer k v
  else if bool_decide (k = "end_at") then (λ t, with_time_range (fst (time_range r), t) r) <$> parse_timer k v
  else if bool_decide (k = "offset") then (λ n, with_block_range (n, snd (block_range r)) r) <$> parse_num k v
  else if bool_decide (k ∈ ["num_blk"; "num_blocks"]) then (λ n, with_block_range (fst (block_range r), n) r) <$> parse_num k v
  else if bool_decide (k = "retries") then (λ n, with_retries n r) <$> parse_num k v
  else Err (UnknownParameter k v).

Fixpoint set_params (r : Injection) (l : list (string * string)) : outcome Error Injection :=
  match l with [] => Ok r | (k, v) :: l => r ← set_param r k v; set_params r l end.

Definition saturating_add (a b : Z) : Z := Z.min u64_max (a + b).

(** [Injection::from_uri] *)
Definition from_uri (uri : string) : outcome Error Injection :=
  if negb (String.prefix "inject://" uri) then Err (NotInjectionUri uri)
  else match url_parse uri with
  | inl e => Err (InvalidUri e uri)
  | inr p =>
      let name := (from_option id "" (host_str p) +:+
                   match port p with Some n => ":" +:+ dec n | None => "" end +:+ path p)%string in
      r ← set_params (with_uri (Some uri) name default) (query_pairs p);
      let '(b, e) := block_range r in
      let r := with_block_range (b, saturating_add b e) r in
      let '(tb, te) := time_range r in
      if te <? tb then Err (BadDurations (device_name r) tb te) else Ok r
  end.

(** The parameters [Injection::as_uri] prints *)
Definition uri_params (i : Injection) : list (string * string) :=
  [("domain", show_domain (domain i)); ("op", show_op (io_operation i)); ("stage", show_stage (io_stage i))] ++
  (if bool_decide (method i = method default) then [] else [("method", show_method (method i))]) ++
  (if fst (time_range i) =? 0 then [] else [("begin_at", dec (as_millis (fst (time_range i))))]) ++
  (if snd (time_range i) =? MAX_DURATION then [] else [("end_at", dec (as_millis (snd (time_range i))))]) ++
  (if fst (block_range i) =? 0 then [] else [("offset", dec (fst (block_range i)))]) ++
  (if snd (block_range i) =? u64_max then []
   else [("num_blk", dec (wrap64 (snd (block_range i) - fst (block_range i))))]) ++
  (if retries i =? u64_max then [] else [("retries", dec (retries i))]).

Definition show_param (p : string * string) : string := (fst p +:+ "=" +:+ snd p)%string.

(** [Injection::as_uri] *)
Definition as_uri (i : Injection) : string :=
  ("inject://" +:+ device_name i +:+ "?" +:+ join "&" (show_param <$> uri_params i))%string.

(** [Injection::uri] *)
Definition uri (i : Injection) : string := match uri_ i with Some s => s | None => as_uri i end.

(** ** The builder: a field is [None] until it is set *)

Record InjectionBuilder := mkBuilder {
  b_domain : option FaultDomain;
  b_device_name : option string;
  b_io_operation : option FaultIoOperation;
  b_io_stage : option FaultIoStage;
  b_method : option FaultMethod;
  b_time_range : option (Z * Z);
  b_block_range : option (Z * Z);
  b_retries : option Z;
}.

Definition with_offset (offset num_blocks : Z) (b : InjectionBuilder) : InjectionBuilder :=
  mkBuilder (b_domain b) (b_device_name b) (b_io_operation b) (b_io_stage b) (b_method b) (b_time_range b)
    (Some (offset, wrap64 (offset + num_blocks))) (b_retries b).

Definition with_method_nvme_error (err : NvmeStatus) (b : InjectionBuilder) : InjectionBuilder :=
  mkBuilder (b_domain b) (b_device_name b) (b_io_operation b) (b_io_stage b) (Some (Status (NvmeError err)))
    (b_time_range b) (b_block_range b) (b_retries b).

Definition validate (b : InjectionBuilder) : outcome string unit :=
  match b_device_name b with
  | Some (String _ _) => Ok tt
  | _ => Err "Device not configured"%string
  end.

Definition build (b : InjectionBuilder) : outcome string Injection :=
  validate b;;
  let d := default in
  Ok (mkInjection None (from_option id (domain d) (b_domain b)) (from_option id (device_name d) (b_device_name b))
        (from_option id (io_operation d) (b_io_operation b)) (from_option id (io_stage d) (b_io_stage b))
        (from_option id (method d) (b_method b)) (from_option id (time_range d) (b_time_range b))
        (from_option id (block_range d) (b_block_range b)) (from_option id (retries d) (b_retries b)) default_state).

Definition build_uri (b : InjectionBuilder) : outcome string string := as_uri <$> build b.

(** ** The context of an I/O *)

(** [InjectIoDevice]: a block device is known by its name. *)
Inductive InjectIoDevice := NoDevice | Device (device_name : string) | DeviceName (name : string).

(** A buffer, and whether its address is set *)
Record IoVec := mkIoVec { is_initialized : bool; bytes : list Z }.

(** [InjectIoCtx]; [iovs] is [None] for the null pointer. *)
Record InjectIoCtx := mkCtx {
  ctx_domain : FaultDomain;
  dev : InjectIoDevice;
  range : Z * Z;
  io_type : IoType;
  iovs : option (list IoVec);
}.

(** [InjectIoCtx::new]; [IoType::Invalid] is 0. *)
Definition ctx_new (d : FaultDomain) : InjectIoCtx := mkCtx d NoDevice (0, 0) (IoOther 0) None.

Definition with_iovs (d : FaultDomain) (dv : InjectIoDevice) (t : IoType) (offset num_blocks : Z) (l : list IoVec) : InjectIoCtx :=
  mkCtx d dv (offset, wrap64 (offset + num_blocks)) t (Some l).

Definition is_valid (c : InjectIoCtx) : bool := match dev c with NoDevice => false | _ => true end.
Definition domain_ok (c : InjectIoCtx) (d : FaultDomain) : bool := bool_decide (ctx_domain c = d).
Definition device_name_ok (c : InjectIoCtx) (name : string) : bool :=
  match dev c with NoDevice => false | Device n | DeviceName n => bool_decide (n = name) end.
Definition io_type_ok (c : InjectIoCtx) (op : FaultIoOperation) : bool :=
  match op with
  | Read => bool_decide (io_type c = IoRead)
  | Write => bool_decide (io_type c = IoWrite)
  | ReadWrite => bool_decide (io_type c = IoRead) || bool_decide (io_type c = IoWrite)
  end.
Definition block_range_ok (c : InjectIoCtx) (r : Z * Z) : bool := (fst r <? snd (range c)) && (fst (range c) <? snd r).

(** [iovs_mut]: the first buffer is looked at before their number is, which is a
    read outside of the slice when there is none. *)
Definition iovs_mut {E} (c : InjectIoCtx) : outcome E (option (list IoVec)) :=
  match iovs c with
  | None => Ok None
  | Some [] => Panicked
  | Some (v :: l) => Ok (if negb (is_initialized v) || bool_decide (bytes v = []) then None else Some (v :: l))
  end.

(** ** Injecting *)

Fixpoint fill_bytes (g : rng) (l : list Z) : rng * list Z :=
  match l with
  | [] => (g, [])
  | _ :: l => let '(g, x) := next_u32 g in let '(g, l) := fill_bytes g l in (g, wrap8 x :: l)
  end.

Fixpoint fill_iovs (g : rng) (l : list IoVec) : rng * list IoVec :=
  match l with
  | [] => (g, [])
  | v :: l =>
      let '(g, b) := fill_bytes g (bytes v) in
      let '(g, l) := fill_iovs g l in (g, mkIoVec (is_initialized v) b :: l)
  end.

(** [FaultMethod::inject_data_errors] *)
Definition inject_data_errors {E} (s : InjectionState) (c : InjectIoCtx) : outcome E (InjectionState * InjectIoCtx) :=
  o ← iovs_mut c;
  match o with
  | None => Ok (s, c)
  | Some l =>
      let '(g, l) := fill_iovs (state_rng s) l in
      Ok (mkState (started s) (hits s) g, mkCtx (ctx_domain c) (dev c) (range c) (io_type c) (Some l))
  end.

(** [FaultMethod::inject] *)
Definition method_inject {E} (m : FaultMethod) (s : InjectionState) (c : InjectIoCtx)
    : outcome E (InjectionState * InjectIoCtx * option IoCompletionStatus) :=
  match m with
  | Status st => Ok (s, c, Some st)
  | Data => '(s, c) ← inject_data_errors s c; Ok (s, c, Some Success)
  end.

(** [is_active], at the time [t] *)
Definition is_active (t : Z) (i : Injection) : bool :=
  if retries i <=? hits (state i) then false
  else let d := now t (state i) in (fst (time_range i) <=? d) && (d <? snd (time_range i)).

(** The first test of [Injection::inject] *)
Definition applies (i : Injection) (stage : FaultIoStage) (c : InjectIoCtx) : bool :=
  negb (negb (is_valid c) || negb (domain_ok c (domain i)) || negb (bool_decide (stage = io_stage i)) ||
        negb (io_type_ok c (io_operation i)) || negb (device_name_ok c (device_name i)) ||
        negb (block_range_ok c (block_range i))).

(** [Injection::inject]; the clock is read by [tick] and by [is_active]. *)
Definition inject {E} (clock : Z * Z) (stage : FaultIoStage) (c : InjectIoCtx) (i : Injection)
    : outcome E (Injection * InjectIoCtx * option IoCompletionStatus) :=
  if negb (applies i stage c) then Ok (i, c, None)
  else
    let i := with_state (tick (fst clock) (state i)) i in
    if negb (is_active (snd clock) i) then Ok (i, c, None)
    else '(s, c, r) ← method_inject (method i) (state i) c; Ok (with_state s i, c, r).

(** ** The list of injections *)

(** [BdevInfo] *)
Record BdevInfo := mkBdevInfo { fn_table : Z; fn_table_orig : Z; inj : Injection }.

(** The injections, whether they are enabled, those of bdevs by function table,
    and the bdevs: their names and aliases, and the function table of each. *)
Record World := mkWorld {
  enabled : bool;
  items : list Injection;
  injected : gmap Z BdevInfo;
  bdev_names : gmap string nat;
  fn_tables : gmap nat Z;
}.

Notation M := (ST World Error).

(** [add_bdev_io_injection] *)
Definition add_bdev_io_injection (i : Injection) : M unit := λ w,
  let invalid msg := (w, Err (InvalidInjection (device_name i) msg)) in
  if negb (bool_decide (io_stage i = Submission)) then invalid "bdev I/O supports only submission injections"%string
  else match method i with
  | Status (NvmeError _) =>
      match bdev_names w !! device_name i with
      | None => (w, Err (DeviceNotFound (device_name i)))
      | Some b =>
          if bool_decide (Exists (λ x : Z * BdevInfo, device_name (inj x.2) = device_name i) (map_to_list (injected w)))
          then invalid "bdev I/O does not support multiple injections per bdev"%string
          else match fn_tables w !! b with
          | None => (w, Panicked)
          | Some orig =>
              let p := fresh (dom (injected w) ∪ list_to_set (snd <$> map_to_list (fn_tables w)) ∪
                              list_to_set (fn_table_orig ∘ snd <$> map_to_list (injected w))) in
              (mkWorld (enabled w) (items w) (<[p := mkBdevInfo p orig i]> (injected w)) (bdev_names w) (<[b := p]> (fn_tables w)), Ok tt)
          end
      end
  | _ => invalid "bdev I/O supports only NVME error injection"%string
  end.

Definition set_items (l : list Injection) (w : World) : World :=
  mkWorld (enabled w) l (injected w) (bdev_names w) (fn_tables w).

(** [Injections::add] *)
Definition add (i : Injection) : M unit :=
  (if bool_decide (domain i = BdevIo) then add_bdev_io_injection i else mret tt);;
  ST.modify (λ w, set_items (items w ++ [i]) w).

(** [add_fault_injection], with [enable_fault_injections] *)
Definition add_fault_injection (i : Injection) : M unit :=
  ST.modify (λ w, mkWorld true (items w) (injected w) (bdev_names w) (fn_tables w));; add i.

(** [remove_fault_injection] *)
Definition remove_fault_injection (u : string) : M unit :=
  ST.modify (λ w, set_items (List.filter (λ i, negb (bool_decide (uri i = u))) (items w)) w).

(** [list_fault_injections] *)
Definition list_fault_injections : M (list Injection) := ST.gets items.

(** [Injections::inject]; [clock] has what the [n]-th injection reads. *)
Fixpoint find_map {E} (clock : nat → Z * Z) (n : nat) (stage : FaultIoStage) (c : InjectIoCtx) (l : list Injection)
    : outcome E (list Injection * InjectIoCtx * option IoCompletionStatus) :=
  match l with
  | [] => Ok ([], c, None)
  | i :: l =>
      '(i, c, r) ← inject (clock n) stage c i;
      match r with
      | Some s => Ok (i :: l, c, Some s)
      | None => '(l, c, r) ← find_map clock (Datatypes.S n) stage c l; Ok (i :: l, c, r)
      end
  end.

Definition inject_all {E} (clock : nat → Z * Z) (stage : FaultIoStage) (c : InjectIoCtx)
    : ST World E (InjectIoCtx * option IoCompletionStatus) := λ w,
  match find_map clock 0 stage c (items w) with
  | Ok (l, c, r) => (set_items l w, Ok (c, r))
  | Err e => (w, Err e)
  | Panicked => (w, Panicked)
  end.

(** [inject_submission_error]; the result has the buffers as they are left. *)
Definition inject_submission_error (clock : nat → Z * Z) (c : InjectIoCtx) : ST World CoreError InjectIoCtx :=
  w ← ST.get;
  if negb (enabled w) || negb (is_valid c) then mret c
  else
    '(c, r) ← inject_all clock Submission c;
    match r with
    | None | Some Success => mret c
    | Some _ => ST.fail (io_type_to_err (io_type c) ENXIO (fst (range c)) (wrap64 (snd (range c) - fst (range c))))
    end.

(** [inject_completion_error] *)
Definition inject_completion_error (clock : nat → Z * Z) (c : InjectIoCtx) (status : IoCompletionStatus)
    : ST World CoreError (InjectIoCtx * IoCompletionStatus) :=
  w ← ST.get;
  if negb (enabled w) || negb (is_valid c) || negb (bool_decide (status = Success)) then mret (c, status)
  else
    '(c, r) ← inject_all clock Completion c;
    mret (c, match r with Some s => s | None => Success end).

(** ** Injections of bdevs *)

(** What becomes of an I/O of a bdev: it is completed with a status, passed on to
    a function table, or its submission waits for ever for the lock of the map of
    injections, which it holds. *)
Inductive Submitted := Completed (sct sc : Z) | Passed (table : Z) | Deadlocked.

(** [inject_submit_request] for a bdev with the function table [t] *)
Definition inject_submit_request (clock : Z * Z) (t : Z) (ty : IoType) (offset num_blocks : Z) (l : list IoVec)
    : M Submitted := λ w,
  match injected w !! t with
  | None => (w, Panicked)
  | Some e =>
      if negb (fn_table e =? t) then (w, Panicked)
      else
        match inject clock Submission (with_iovs BdevIo (DeviceName (device_name (inj e))) ty offset num_blocks l) (inj e) with
        | Ok (i, _, r) =>
            let w := mkWorld (enabled w) (items w) (<[t := mkBdevInfo t (fn_table_orig e) i]> (injected w)) (bdev_names w) (fn_tables w) in
            match r with
            | Some (NvmeError err) => let '(sct, sc) := as_sct_sc_codes err in (w, Ok (Completed sct sc))
            | Some _ => (w, Panicked)
            | None => (w, Ok (if bool_decide (is_Some (injected w !! fn_table_orig e)) then Deadlocked else Passed (fn_table_orig e)))
            end
        | Err e => (w, Err e)
        | Panicked => (w, Panicked)
        end
  end.

(** An I/O of a bdev goes through its function table; there is none of a bdev that
    does not exist. *)
Definition submit_request (clock : Z * Z) (b : nat) (ty : IoType) (offset num_blocks : Z) (l : list IoVec) : M Submitted := λ w,
  match fn_tables w !! b with
  | None => (w, Panicked)
  | Some t =>
      if bool_decide (is_Some (injected w !! t)) then inject_submit_request clock t ty offset num_blocks l w
      else (w, Ok (Passed t))
  end.

End Injection.
End Inject.
