(* ===== verification/InjectProps.v ===== *)
(** * Theorems on fault injection

    Which I/Os an injection hits, in comparison with a definition by counting; the
    round trip of injections and their URIs; and that injections of bdevs do not
    panic. *)

From Stdlib Require Import Ascii String.
From S2P Require Import Prelude Text Wp Errors IoLog BdevUri BlockDevice Inject.

#[local] Open Scope Z_scope.

Module InjectProps.
Import Inject.

Section Hits.
Context {C : Crates}.
Implicit Types (i : Injection).

(** ** Which I/Os are hit *)

(** An I/O, with the times at which it finds the injection *)
Record Io := mkIo { clock : Z * Z; stage : FaultIoStage; ctx : InjectIoCtx }.

Fixpoint run (i : Injection) (ios : list Io) : outcome Error (Injection * list (option IoCompletionStatus)) :=
  match ios with
  | [] => Ok (i, [])
  | io :: ios =>
      '(i, _, r) ← inject (clock io) (stage io) (ctx io) i;
      '(i, l) ← run i ios;
      Ok (i, r :: l)
  end.

Definition hit i (io : Io) : bool := applies i (stage io) (ctx io).
Definition fault (m : FaultMethod) : IoCompletionStatus := match m with Status s => s | Data => Success end.

(** The number of I/Os the injection applies to among the first [k + 1] *)
Definition seen i (ios : list Io) (k : nat) : Z := Z.of_nat (length (List.filter (hit i) (take (Datatypes.S k) ios))).

(** With the first of them at [b], and [h] before them, the result of the [k]-th *)
Definition expected_at i (b h : Z) (ios : list Io) (k : nat) (io : Io) : option IoCompletionStatus :=
  let d := Z.max 0 (snd (clock io) - b) in
  if hit i io && (h + seen i ios k <? retries i) && (fst (time_range i) <=? d) && (d <? snd (time_range i))
  then Some (fault (method i)) else None.

(** The results of an injection: the time is that since the first I/O it applies to. *)
Definition expected i (ios : list Io) : list (option IoCompletionStatus) :=
  let b := match List.filter (hit i) ios with io :: _ => fst (clock io) | [] => 0 end in
  imap (expected_at i b 0 ios) ios.

Definition buffers_ok i (ios : list Io) : Prop := method i = Data → Forall (λ io, iovs (ctx io) ≠ Some []) ios.

Lemma buffers_cons i io ios : buffers_ok i (io :: ios) → (method i = Data → iovs (ctx io) ≠ Some []) ∧ buffers_ok i ios.
Proof. intros H. split; intros Hd; by destruct (proj1 (Forall_cons _ _ _) (H Hd)). Qed.

Lemma seen_skip i x ios k : hit i x = false → seen i (x :: ios) (Datatypes.S k) = seen i ios k.
Proof. intros H. unfold seen. change (take (Datatypes.S (Datatypes.S k)) (x :: ios)) with (x :: take (Datatypes.S k) ios). cbn [List.filter]. by rewrite H. Qed.

Lemma seen_hit i x ios k : hit i x = true → seen i (x :: ios) (Datatypes.S k) = 1 + seen i ios k.
Proof. intros H. unfold seen. change (take (Datatypes.S (Datatypes.S k)) (x :: ios)) with (x :: take (Datatypes.S k) ios). cbn [List.filter]. rewrite H. cbn [length]. lia. Qed.

Lemma seen_head i x ios : seen i (x :: ios) 0 = if hit i x then 1 else 0.
Proof. unfold seen. cbn. by destruct (hit i x). Qed.

Lemma expected_skip i b h x ios k io : hit i x = false → expected_at i b h (x :: ios) (Datatypes.S k) io = expected_at i b h ios k io.
Proof. intros H. unfold expected_at. by rewrite seen_skip. Qed.

Lemma expected_hit i b h x ios k io : hit i x = true → expected_at i b h (x :: ios) (Datatypes.S k) io = expected_at i b (h + 1) ios k io.
Proof. intros H. unfold expected_at. rewrite (seen_hit _ _ _ _ H). by rewrite Z.add_assoc. Qed.

Lemma imap_skip i b h x ios : hit i x = false → imap (expected_at i b h (x :: ios)) (x :: ios) = None :: imap (expected_at i b h ios) ios.
Proof.
  intros H. cbn [imap]. f_equal; [unfold expected_at; by rewrite H|].
  apply imap_ext. intros k io _. by apply expected_skip.
Qed.

Lemma imap_hit i b h x ios : hit i x = true →
  imap (expected_at i b h (x :: ios)) (x :: ios) = expected_at i b (h + 1) [] 0 x :: imap (expected_at i b (h + 1) ios) ios.
Proof.
  intros H. cbn [imap]. f_equal; [unfold expected_at; rewrite seen_head, H; unfold seen; cbn; by rewrite Z.add_0_r|].
  apply imap_ext. intros k io _. by apply expected_hit.
Qed.

Lemma method_inject_ok i s c : (method i = Data → iovs c ≠ Some []) →
  ∃ g c', method_inject (E := Error) (method i) s c = Ok (mkState (started s) (hits s) g, c', Some (fault (method i))).
Proof.
  intros H. destruct (method i); cbn; [by destruct s; eauto|].
  unfold inject_data_errors, iovs_mut. destruct (iovs c) as [[|v l]|]; [by destruct (H eq_refl)| |cbn; destruct s; eauto].
  cbn. destruct (negb _ || _); cbn; [destruct s; eauto|]. destruct (fill_bytes _ _), (fill_iovs _ _). cbn. eauto.
Qed.

(** One I/O the injection applies to, once it has been counted *)
Lemma inject_hit i io b h g : hit i io = true → (method i = Data → iovs (ctx io) ≠ Some []) →
  tick (fst (clock io)) (state i) = mkState (Some b) h g →
  ∃ g' c, inject (E := Error) (clock io) (stage io) (ctx io) i = Ok (with_state (mkState (Some b) h g') i, c, expected_at i b h [] 0 io).
Proof.
  intros H Hm Ht. unfold inject. fold (hit i io). rewrite H, Ht. cbn [negb].
  assert (expected_at i b h [] 0 io = if is_active (snd (clock io)) (with_state (mkState (Some b) h g) i) then Some (fault (method i)) else None) as ->.
  { unfold expected_at, is_active, now. rewrite H. cbn. rewrite Z.add_0_r. rewrite Z.ltb_antisym. destruct (retries i <=? h); [done|]. cbn. done. }
  destruct (is_active _ _); cbn [negb]; [|eauto].
  destruct (method_inject_ok i (mkState (Some b) h g) (ctx io) Hm) as (g' & c & E). cbn in E |- *. rewrite E. cbn. eauto.
Qed.

Lemma run_started i b h g ios : state i = mkState (Some b) h g → 0 ≤ h → h + Z.of_nat (length ios) < 2^64 → buffers_ok i ios →
  ∃ i', run i ios = Ok (i', imap (expected_at i b h ios) ios).
Proof.
  revert i h g. induction ios as [|io ios IH]; intros i h g Hs H0 Hl Hb; [cbn; eauto|].
  destruct (buffers_cons _ _ _ Hb) as [Hd Hb'].
  cbn [length] in Hl. destruct (hit i io) eqn:H.
  - rewrite imap_hit by done. cbn [run].
    destruct (inject_hit i io b (h + 1) g H) as (g' & c & ->); [exact Hd|..].
    { unfold tick. rewrite Hs. cbn. rewrite wrap64_small; [done|unfold is_u64; lia]. }
    cbn. destruct (IH (with_state (mkState (Some b) (h + 1) g') i) (h + 1) g') as (i' & E); [done|lia|lia|exact Hb'|].
    cbn in E. rewrite E. cbn. eauto.
  - rewrite imap_skip by done. cbn [run]. unfold inject. fold (hit i io). rewrite H. cbn.
    destruct (IH i h g) as (i' & ->); [done|lia|lia|done|]. cbn. eauto.
Qed.

Lemma faults_bounded i b h ios : 0 ≤ h →
  h + Z.of_nat (length (List.filter (λ r : option IoCompletionStatus, bool_decide (is_Some r)) (imap (expected_at i b h ios) ios))) < Z.max (h + 1) (retries i).
Proof.
  revert h. induction ios as [|x ios IH]; intros h H0; [cbn; lia|].
  destruct (hit i x) eqn:H; [|rewrite imap_skip by done; exact (IH h H0)].
  rewrite imap_hit by done. cbn [List.filter]. specialize (IH (h + 1)).
  destruct (bool_decide (is_Some (expected_at i b (h + 1) [] 0 x))) eqn:E; cbn [length]; [|lia].
  apply bool_decide_eq_true in E. unfold expected_at in E. unfold seen in E. cbn in E. rewrite Z.add_0_r in E.
  destruct (h + 1 <? retries i) eqn:E'; [lia|]. rewrite andb_false_r in E. cbn in E. by destruct E.
Qed.

Lemma run_expected i ios : state i = default_state → Z.of_nat (length ios) < 2^64 → buffers_ok i ios →
  ∃ i', run i ios = Ok (i', expected i ios).
Proof.
  intros Hs Hl Hb. induction ios as [|io ios IH]; [cbn; eauto|].
  destruct (buffers_cons _ _ _ Hb) as [Hd Hb'].
  cbn [length] in Hl. unfold expected. cbn [List.filter]. destruct (hit i io) eqn:H.
  - rewrite imap_hit by done. cbn [run].
    destruct (inject_hit i io (fst (clock io)) 1 from_seed H) as (g & c & ->); [exact Hd|by rewrite Hs|].
    cbn. destruct (run_started (with_state (mkState (Some (fst (clock io))) 1 g) i) (fst (clock io)) 1 g ios) as (i' & E); [done|lia|lia|exact Hb'|].
    cbn in E. rewrite E. cbn. eauto.
  - rewrite imap_skip by done. cbn [run]. unfold inject. fold (hit i io). rewrite H. cbn.
    destruct IH as (i' & ->); [lia|done|]. cbn. eauto.
Qed.

(** C40. An injection faults exactly the I/Os it applies to (by validity, domain,
    stage, operation, device and blocks) whose number among these is less than
    [retries] and whose time since the first of these is in the time range, with
    the status of its method; so it faults fewer I/Os than [retries].  This is for
    fewer than 2^64 I/Os, which come with buffers if data is to be corrupted. *)
Theorem injected_faults_are_reference i ios :
  state i = default_state → Z.of_nat (length ios) < 2^64 → buffers_ok i ios →
  (∃ i', run i ios = Ok (i', expected i ios)) ∧
  Z.of_nat (length (List.filter (λ r, bool_decide (is_Some r)) (expected i ios))) < Z.max 1 (retries i).
Proof. intros Hs Hl Hb. split; [by apply run_expected|exact (faults_bounded i _ 0 ios (Z.le_refl 0))]. Qed.

Lemma no_fault (l : list (option IoCompletionStatus)) :
  length (List.filter (λ r, bool_decide (is_Some r)) l) = 0%nat → l = replicate (length l) None.
Proof. induction l as [|[s|] l IH]; [done|done|]. cbn. intros H. f_equal. by apply IH. Qed.

(** An injection with a single retry never faults anything. *)
Lemma single_retry_never_faults i ios : state i = default_state → retries i = 1 → Z.of_nat (length ios) < 2^64 → buffers_ok i ios →
  ∃ i', run i ios = Ok (i', replicate (length ios) None).
Proof.
  intros Hs Hr Hl Hb. destruct (run_expected i ios Hs Hl Hb) as [i' ->]. exists i'. do 2 f_equal.
  pose proof (faults_bounded i (match List.filter (hit i) ios with io :: _ => fst (clock io) | [] => 0 end) 0 ios (Z.le_refl 0)) as H.
  rewrite Hr in H. etransitivity; [apply no_fault; unfold expected; lia|]. unfold expected. by rewrite length_imap.
Qed.

End Hits.
(** ** Numbers are read back *)

Section Digits.
Context {X : Type} (read : Z → string → X) (r max : Z).
Hypothesis base : 2 ≤ r ≤ 16.
Hypothesis step : ∀ acc d s, 0 ≤ d < r → 0 ≤ acc → acc * r + d ≤ max → read acc (String (digit_char d) s) = read (acc * r + d) s.

Lemma read_show_go f n s : 0 ≤ n ≤ max → n < 2 ^ Z.of_nat f → (0 < f)%nat → read 0 (show_go f r n s) = read n s.
Proof.
  revert n s. induction f as [|f IH]; [lia|]. intros n s Hn Hf _. cbn [show_go].
  pose proof (Z.div_mod n r). pose proof (Z.mod_pos_bound n r). pose proof (Z.div_pos n r).
  destruct (Z.eqb_spec (n / r) 0) as [E|E].
  - rewrite step by lia. f_equal. lia.
  - rewrite Nat2Z.inj_succ, Z.pow_succ_r in Hf by lia.
    assert (n / r < 2 ^ Z.of_nat f) by nia.
    rewrite IH; [rewrite step by nia; f_equal; lia|nia|done|].
    destruct f; [|lia]. change (2 ^ Z.of_nat 0) with 1 in *. lia.
Qed.

Lemma read_show n : 0 ≤ n ≤ max → read 0 (show r n) = read n "".
Proof.
  intros H. unfold show. apply read_show_go; [done| |lia].
  rewrite Nat2Z.inj_succ, Z2Nat.id by apply Z.log2_nonneg.
  destruct (Z.eq_dec n 0) as [->|]; [done|]. apply Z.log2_spec. lia.
Qed.
End Digits.

(** A digit, by cases *)
Ltac digits_by d H :=
  let n := fresh in
  assert (∃ n : nat, d = Z.of_nat n ∧ (n < 16)%nat) as (n & -> & ?) by (exists (Z.to_nat d); lia);
  do 16 (destruct n as [|n]; [try lia; done|]); lia.

Lemma digit_dec d : 0 ≤ d < 10 → Uri.digit (digit_char d) = Some d.
Proof. intros H. digits_by d H. Qed.

Lemma digit_hex d : 0 ≤ d < 16 → char_digit (digit_char d) = Some d.
Proof. intros H. digits_by d H. Qed.

Lemma digit_not_plus d : 0 ≤ d < 10 → digit_char d ≠ "+"%char.
Proof. intros H. digits_by d H. Qed.

(** Lower-case letters, digits, hyphens and underscores stand for themselves in a URI. *)
Definition plain_char (a : ascii) : bool :=
  let b := byte a in
  ((97 <=? b) && (b <=? 122)) || ((48 <=? b) && (b <=? 57)) || (b =? 45) || (b =? 95).

Fixpoint plain (s : string) : bool := match s with EmptyString => true | String a s => plain_char a && plain s end.

Lemma plain_app a b : plain (a +:+ b)%string = plain a && plain b.
Proof. induction a as [|x a IH]; [done|]. rewrite app_cons_str. cbn [plain]. rewrite IH. by rewrite andb_assoc. Qed.

Lemma digit_plain d : 0 ≤ d < 16 → plain_char (digit_char d) = true.
Proof. intros H. digits_by d H. Qed.

Lemma show_shape (P : ascii → Prop) r n : 2 ≤ r ≤ 16 → 0 ≤ n → (∀ d, 0 ≤ d < r → P (digit_char d)) →
  ∃ d s, show r n = String (digit_char d) s ∧ 0 ≤ d < r ∧ Forall P (list_ascii_of_string (show r n)).
Proof.
  intros Hr Hn HP. unfold show. generalize (Z.to_nat (Z.log2 n)) as f.
  assert (Forall P (list_ascii_of_string "")) as Hs by constructor. revert Hs. generalize ""%string as s.
  intros s Hs f. revert n s Hn Hs. induction f as [|f IH]; intros n s Hn Hs;
    pose proof (Z.mod_pos_bound n r); pose proof (Z.div_pos n r).
  - cbn. exists (n mod r), s. destruct (_ =? _); (split; [done|]); (split; [lia|]); constructor; auto with lia.
  - rewrite (eq_refl : show_go (Datatypes.S (Datatypes.S f)) r n s =
      if n / r =? 0 then String (digit_char (n mod r)) s else show_go (Datatypes.S f) r (n / r) (String (digit_char (n mod r)) s)).
    destruct (_ =? _); [|apply IH; [lia|]; constructor; auto with lia].
    exists (n mod r), s. split; [done|]. split; [lia|]. constructor; auto with lia.
Qed.

Lemma plain_forall s : plain s = true ↔ Forall (λ a, plain_char a = true) (list_ascii_of_string s).
Proof. induction s as [|a s IH]; cbn; [done|]. rewrite andb_true_iff, IH. by rewrite Forall_cons. Qed.

Lemma show_plain r n : 2 ≤ r ≤ 16 → 0 ≤ n → plain (show r n) = true.
Proof.
  intros Hr Hn. apply plain_forall. destruct (show_shape (λ a, plain_char a = true) r n Hr Hn) as (? & ? & _ & _ & H); [|done].
  intros d Hd. apply digit_plain. lia.
Qed.

Lemma parse_dec n : is_u64 n → Uri.parse_uint u64_max (dec n) = inr n.
Proof.
  intros Hn. destruct (show_shape (λ _, True) 10 n) as (d & s & E & Hd & _); [lia|by destruct Hn|done|].
  assert (Uri.parse_uint u64_max (dec n) = Uri.digits u64_max 0 (dec n)) as ->.
  { unfold dec. rewrite E. pose proof (digit_not_plus d Hd). cbn. generalize dependent (digit_char d). intros a Ha.
    destruct a as [[] [] [] [] [] [] [] []]; try done; by destruct s. }
  unfold dec. rewrite (read_show (Uri.digits u64_max) 10 u64_max); [done|lia| |unfold is_u64, u64_max in *; lia].
  intros acc x t Hx Ha Hm. cbn. rewrite digit_dec by lia. by rewrite (proj2 (Z.leb_le _ _) Hm).
Qed.

Lemma parse_hex n : 0 ≤ n < 2^31 → i32_from_hex (hex n) = Some n.
Proof.
  intros Hn. destruct (show_shape (λ _, True) 16 n) as (d & s & E & Hd & _); [lia|lia|done|].
  assert (i32_from_hex (hex n) = hex_digits (2^31 - 1) 0 (hex n)) as -> by (unfold hex; by rewrite E).
  unfold hex. rewrite (read_show (hex_digits (2^31 - 1)) 16 (2^31 - 1)); [done|lia| |lia].
  intros acc x t Hx Ha Hm. cbn [hex_digits]. rewrite digit_hex by lia. by rewrite (proj2 (Z.leb_le _ _) Hm).
Qed.

Lemma hex_all n : 0 ≤ n → all_hex (hex n) = true ∧ hex n ≠ ""%string ∧ has "-" (hex n) = false.
Proof.
  intros Hn. destruct (show_shape (λ a, is_Some (char_digit a)) 16 n) as (d & s & E & _ & H); [lia|done| |].
  { intros d Hd. rewrite digit_hex by lia. eauto. }
  unfold hex. split; [|split; [by rewrite E|]]; clear E; induction (show 16 n) as [|a t IH]; cbn; try done;
    apply Forall_cons in H as [Ha Ht]; rewrite (IH Ht).
  - by rewrite bool_decide_eq_true_2.
  - rewrite orb_false_r. destruct (decide (a = "-"%char)) as [->|]; [by destruct Ha|]. by rewrite bool_decide_eq_false_2.
Qed.
(** ** The round trip of URIs *)

(** What is relied on of the crate [url]: a URL whose host and query are plain is
    taken apart into them. *)
Class CrateLaws `{C : Crates} := {
  url_law name ps : plain name = true → name ≠ ""%string → Forall (λ p, plain (fst p) = true ∧ plain (snd p) = true) ps → ps ≠ [] →
    ∃ u, url_parse ("inject://" +:+ name +:+ "?" +:+ join "&" (show_param <$> ps))%string = inr u ∧
      host_str u = Some name ∧ port u = None ∧ path u = ""%string ∧ query_pairs u = ps;
}.

Section RoundTrip.
Context `{CL : CrateLaws}.
Implicit Types (i r : Injection).

Lemma show_hex_wrap z : 0 ≤ z < 2^31 → hex (wrap32 z) = hex z.
Proof. intros H. rewrite wrap32_small; [done|lia]. Qed.

(** A method that has a text: the codes of an NVMe status stand for it. *)
Definition printable (m : FaultMethod) : Prop :=
  match m with
  | Status Success => False
  | Status (NvmeError s) =>
      nvme_from (as_sct_sc_codes s) = s ∧ 0 ≤ fst (as_sct_sc_codes s) < 2^31 ∧ 0 ≤ snd (as_sct_sc_codes s) < 2^31
  | _ => True
  end.

Lemma parse_nvme s : s ≠ DATA_TRANSFER_ERROR → printable (Status (NvmeError s)) → parse (show_method (Status (NvmeError s))) = Some (Status (NvmeError s)).
Proof.
  intros H [L B]. unfold show_method. rewrite bool_decide_eq_false_2 by done.
  destruct (as_sct_sc_codes s) as [sct sc]. cbn [fst snd] in B. destruct B as [B1 B2]. rewrite !show_hex_wrap by done.
  destruct (hex_all sct) as (A1 & A2 & A3); [lia|]. destruct (hex_all sc) as (A4 & A5 & A6); [lia|].
  unfold parse, nvme_re.
  assert (split "-" ("status-nvme-" +:+ hex sct +:+ "-" +:+ hex sc) = ["status"; "nvme"; hex sct; hex sc])%string as ->.
  { change ("status-nvme-" +:+ hex sct +:+ "-" +:+ hex sc)%string with
      ("status" +:+ String "-" ("nvme" +:+ String "-" (hex sct +:+ String "-" (hex sc))))%string.
    rewrite !split_app by done. by rewrite split_none. }
  rewrite A1, A4, !bool_decide_eq_false_2 by done. cbn [andb negb].
  unfold mbind, option_bind. cbv beta iota. rewrite !parse_hex by done. by rewrite L.
Qed.

Lemma method_back k m : printable m → parse_method k (show_method m) = Ok m.
Proof.
  intros H. destruct m as [[| s | [] | [] |] |]; try done. destruct (decide (s = DATA_TRANSFER_ERROR)) as [->|Hs].
  - unfold show_method. by rewrite bool_decide_eq_true_2.
  - unfold parse_method. rewrite (parse_nvme s Hs H). unfold show_method. rewrite (bool_decide_eq_false_2 (s = _)) by done.
    destruct (as_sct_sc_codes s) as [a b]. by rewrite !bool_decide_eq_false_2 by (rewrite !elem_of_cons, elem_of_nil; naive_solver).
Qed.

Lemma num_back k n : is_u64 n → parse_num k (dec n) = Ok n.
Proof. intros H. unfold parse_num. by rewrite parse_dec. Qed.

Lemma timer_back k n : is_u64 n → parse_timer k (dec (as_millis (from_millis n))) = Ok (from_millis n).
Proof.
  intros H. assert (as_millis (from_millis n) = n) as -> by (unfold as_millis, from_millis; by rewrite Z.div_mul).
  unfold parse_timer. by rewrite num_back.
Qed.

(** The fields of an injection a URI can hold: times in milliseconds, the last of
    which may be missing, and numbers of 64 bits *)
Definition valid i : Prop :=
  plain (device_name i) = true ∧ device_name i ≠ ""%string ∧ printable (method i) ∧
  (∃ n, is_u64 n ∧ fst (time_range i) = from_millis n) ∧
  (snd (time_range i) = MAX_DURATION ∨ ∃ n, is_u64 n ∧ snd (time_range i) = from_millis n) ∧
  fst (time_range i) ≤ snd (time_range i) ∧
  0 ≤ fst (block_range i) ∧ fst (block_range i) ≤ snd (block_range i) ∧ is_u64 (snd (block_range i)) ∧ is_u64 (retries i).

Lemma set_params_app r l l' r' r'' : set_params r l = Ok r' → set_params r' l' = Ok r'' → set_params r (l ++ l') = Ok r''.
Proof.
  revert r. induction l as [|[k v] l IH]; intros r; cbn; [by intros [= ->]|]. destruct (set_param r k v); cbn; [apply IH|done..].
Qed.

Lemma plain_method m : plain (show_method m) = true.
Proof.
  destruct m as [[| s | [] | [] |] |]; try done. unfold show_method. destruct (bool_decide _); [done|].
  destruct (as_sct_sc_codes s) as [a b]. rewrite !plain_app. unfold hex, wrap32.
  rewrite !show_plain; [done|lia|by apply Z.mod_pos_bound|lia|by apply Z.mod_pos_bound].
Qed.

Lemma set_some (b : bool) k v (f : Injection → Injection) r :
  (b = true → f r = r) → (b = false → set_param r k v = Ok (f r)) → set_params r (if b then [] else [(k, v)]) = Ok (f r).
Proof. intros H H'. destruct b; cbn; [by rewrite H|]. by rewrite H'. Qed.

(** The parameters that are always there *)
Lemma set_kinds r d o st :
  set_params r [("domain", show_domain d); ("op", show_op o); ("stage", show_stage st)]%string = Ok (with_stage st (with_op o (with_domain d r))).
Proof. by destruct d, o, st. Qed.

(** The other parameters *)
Lemma set_method r m : printable m → set_param r "method" (show_method m) = Ok (with_method m r).
Proof.
  intros H. change (set_param r "method" (show_method m)) with ((λ m, with_method m r) <$> parse_method "method" (show_method m)).
  by rewrite method_back.
Qed.

Lemma set_begin r n : is_u64 n → set_param r "begin_at" (dec (as_millis (from_millis n))) = Ok (with_time_range (from_millis n, snd (time_range r)) r).
Proof.
  intros H. generalize (timer_back "begin_at" n H). generalize (dec (as_millis (from_millis n))) as v. intros v E.
  change (set_param r "begin_at" v) with ((λ t, with_time_range (t, snd (time_range r)) r) <$> parse_timer "begin_at" v). by rewrite E.
Qed.

Lemma set_end r n : is_u64 n → set_param r "end_at" (dec (as_millis (from_millis n))) = Ok (with_time_range (fst (time_range r), from_millis n) r).
Proof.
  intros H. generalize (timer_back "end_at" n H). generalize (dec (as_millis (from_millis n))) as v. intros v E.
  change (set_param r "end_at" v) with ((λ t, with_time_range (fst (time_range r), t) r) <$> parse_timer "end_at" v). by rewrite E.
Qed.

Lemma set_number r k f n : (k, f) ∈ [("offset", λ n, with_block_range (n, snd (block_range r)) r);
    ("num_blk", λ n, with_block_range (fst (block_range r), n) r); ("retries", λ n, with_retries n r)]%string →
  is_u64 n → set_param r k (dec n) = Ok (f n).
Proof.
  intros Hk H. assert (set_param r k (dec n) = f <$> parse_num k (dec n)) as ->; [|by rewrite num_back].
  generalize (dec n) as v. intros v. rewrite !elem_of_cons, elem_of_nil in Hk. by destruct Hk as [[= -> ->]|[[= -> ->]|[[= -> ->]|[]]]].
Qed.

Lemma with_retries_id n r : retries r = n → with_retries n r = r.
Proof. by destruct r; cbn; intros ->. Qed.
Lemma with_block_range_id b r : block_range r = b → with_block_range b r = r.
Proof. by destruct r; cbn; intros ->. Qed.

Lemma params_back u i : valid i →
  set_params (with_uri u (device_name i) default) (uri_params i) =
    Ok (mkInjection u (domain i) (device_name i) (io_operation i) (io_stage i) (method i) (time_range i)
      (fst (block_range i), if snd (block_range i) =? u64_max then u64_max else snd (block_range i) - fst (block_range i)) (retries i) default_state).
Proof.
  intros (_ & _ & Hm & (n & Hn & Et) & He & _ & Hb0 & Hb & Hbe & Hr). unfold uri_params.
  destruct i as [iu idom iname iop ist im [tb te] [bb be] ir istate]. cbn [fst snd method time_range block_range retries domain device_name io_operation io_stage] in *.
  eapply set_params_app; [apply set_kinds|].
  eapply set_params_app; [apply (set_some _ _ _ (with_method im))|].
  { intros H. apply bool_decide_eq_true in H. rewrite H; reflexivity. } { intros _. by apply set_method. }
  eapply set_params_app; [apply (set_some _ _ _ (λ r, with_time_range (tb, snd (time_range r)) r))|].
  { intros H. apply Z.eqb_eq in H. rewrite H; reflexivity. } { intros _. rewrite Et. by apply set_begin. }
  eapply set_params_app; [apply (set_some _ _ _ (λ r, with_time_range (fst (time_range r), te) r))|].
  { intros H. apply Z.eqb_eq in H. rewrite H; reflexivity. }
  { intros H. apply Z.eqb_neq in H. destruct He as [?|(m & Hm' & ->)]; [done|]. by apply set_end. }
  eapply set_params_app; [apply (set_some _ _ _ (λ r, with_block_range (bb, snd (block_range r)) r))|].
  { intros H. apply Z.eqb_eq in H. rewrite H; reflexivity. } { intros _. apply (set_number _ _ (λ n, with_block_range (n, _) _)); [by left|unfold is_u64 in *; lia]. }
  eapply set_params_app; [apply (set_some _ _ _ (λ r, with_block_range (fst (block_range r), if be =? u64_max then u64_max else be - bb) r))|].
  { intros H. apply with_block_range_id. rewrite H. reflexivity. } { intros H. rewrite H. rewrite wrap64_small by (unfold is_u64 in *; lia).
    apply (set_number _ _ (λ n, with_block_range (_, n) _)); [by right; left|unfold is_u64 in *; lia]. }
  etransitivity; [apply (set_some _ _ _ (with_retries ir))|reflexivity].
  { intros H. apply Z.eqb_eq in H. apply with_retries_id. rewrite H. reflexivity. } { intros _. apply (set_number _ _ (λ n, with_retries n _)); [by do 2 right; left|done]. }
Qed.

Lemma uri_params_plain i : valid i → Forall (λ p, plain (fst p) = true ∧ plain (snd p) = true) (uri_params i).
Proof.
  intros (_ & _ & _ & (n & Hn & Et) & He & Ht & Hb0 & Hb & Hbe & Hr). unfold uri_params, is_u64 in *.
  assert (∀ z, 0 ≤ z → plain (dec z) = true) as Hd by (intros z Hz; apply show_plain; lia).
  assert (∀ z, 0 ≤ z → 0 ≤ as_millis z) as Hms by (intros z Hz; apply Z.div_pos; lia).
  assert (0 ≤ fst (time_range i)) by (rewrite Et; unfold from_millis; lia).
  repeat apply Forall_app_2; try (destruct (_ =? _)); try (destruct (bool_decide _)); repeat constructor; cbn -[dec];
    try apply plain_method; try (apply Hd; try apply Hms; try apply wrap64_bound; lia).
  - by destruct (domain i).
  - by destruct (io_operation i).
  - by destruct (io_stage i).
Qed.

(** The URI of an injection is parsed to it again. *)
Lemma injection_uri_round_trip i : valid i → state i = default_state →
  from_uri (as_uri i) = Ok (with_uri (Some (as_uri i)) (device_name i) i).
Proof.
  intros V Hs. pose proof V as (Hp & Hne & _ & _ & _ & Ht & Hb0 & Hb & Hbe & _).
  destruct (url_law (device_name i) (uri_params i) Hp Hne (uri_params_plain i V)) as (u & Eu & E1 & E2 & E3 & E4); [done|].
  unfold from_uri. fold (as_uri i) in Eu. rewrite Eu.
  assert (String.prefix "inject://" (as_uri i) = true) as ->. { unfold as_uri. generalize (device_name i +:+ "?" +:+ join "&" (show_param <$> uri_params i))%string. intros []; reflexivity. } cbn [negb].
  rewrite E1, E2, E3, E4. cbn [from_option id]. rewrite app_empty_str, app_nil_str.
  rewrite (params_back (Some (as_uri i)) i V). unfold mbind, outcome_bind. cbv beta iota zeta.
  destruct i as [iu idom iname iop ist im [tb te] [bb be] ir istate].
  unfold with_block_range, with_uri. cbn [fst snd uri_ domain device_name io_operation io_stage method time_range block_range retries state] in *.
  rewrite (proj2 (Z.ltb_ge te tb) Ht). subst istate. do 3 f_equal. unfold saturating_add, is_u64, u64_max in *.
  destruct (Z.eqb_spec be (2^64 - 1)); lia.
Qed.
End RoundTrip.

(** ** Injections of bdevs *)

Section Bdevs.
Context {C : Crates}.
Implicit Types (w : World) (i : Injection) (b : nat) (t : Z).

Inductive Op :=
| Add (i : Injection)
| Remove (u : string)
| Submit (clock : Z * Z) (b : nat) (ty : IoType) (offset num_blocks : Z) (l : list IoVec).

Definition exec (w : World) (o : Op) : World :=
  match o with
  | Add i => fst (add_fault_injection i w)
  | Remove u => fst (remove_fault_injection u w)
  | Submit c b ty o n l => fst (submit_request c b ty o n l w)
  end.

Definition nvme_fault i : Prop := ∃ s, method i = Status (NvmeError s).

(** Each bdev has its own function table [t], or one that stands before it. *)
Definition in_place w b t : Prop :=
  (fn_tables w !! b = Some t ∧ injected w !! t = None) ∨
  (∃ p e, fn_tables w !! b = Some p ∧ injected w !! p = Some e ∧ injected w !! t = None ∧
     fn_table e = p ∧ fn_table_orig e = t ∧ nvme_fault (inj e) ∧ bdev_names w !! device_name (inj e) = Some b).

Record wf (w0 w : World) : Prop := {
  wf_names : bdev_names w = bdev_names w0;
  wf_place : ∀ b t, fn_tables w0 !! b = Some t → in_place w b t;
  wf_old : ∀ b, fn_tables w0 !! b = None → fn_tables w !! b = None;
}.

Lemma nvme_inject clock st c i s : method i = Status (NvmeError s) →
  ∃ i' r, inject (E := Error) clock st c i = Ok (i', c, r) ∧ (r = None ∨ r = Some (NvmeError s)) ∧
    method i' = method i ∧ device_name i' = device_name i.
Proof.
  intros H. unfold inject. destruct (negb _); [eauto 10|]. destruct (negb _); [eauto 10|].
  cbn. rewrite H. cbn. eauto 10.
Qed.

(** What a submission does to a bdev *)
Lemma submit_in_place clock b ty o n l w t : in_place w b t → ∃ w' r, submit_request clock b ty o n l w = (w', Ok r) ∧
  (r = Passed t ∨ ∃ p e s, injected w !! p = Some e ∧ method (inj e) = Status (NvmeError s) ∧ r = Completed (fst (as_sct_sc_codes s)) (snd (as_sct_sc_codes s))) ∧
  (w' = w ∨ ∃ p e i', fn_tables w !! b = Some p ∧ injected w !! p = Some e ∧ method i' = method (inj e) ∧ device_name i' = device_name (inj e) ∧
     w' = mkWorld (enabled w) (items w) (<[p := mkBdevInfo p (fn_table_orig e) i']> (injected w)) (bdev_names w) (fn_tables w)).
Proof.
  intros [(E & N)|(p & e & E & Ee & N & Ep & Et & (s & Hs) & Hn)]; unfold submit_request; rewrite E.
  { rewrite bool_decide_eq_false_2 by (rewrite N; by intros []). eauto 10. }
  rewrite bool_decide_eq_true_2 by eauto. unfold inject_submit_request. rewrite Ee, Ep, Z.eqb_refl. cbn [negb].
  destruct (nvme_inject clock Submission (with_iovs BdevIo (DeviceName (device_name (inj e))) ty o n l) (inj e) s Hs) as (i' & r & -> & [->| ->] & Hm & Hd).
  - rewrite bool_decide_eq_false_2.
    + rewrite Et. eexists _, _. split; [done|]. split; [by left|]. right. exists p, e, i'. by rewrite Et.
    + cbn. rewrite Et, lookup_insert_ne by (intros ->; congruence). rewrite N. by intros [].
  - destruct (as_sct_sc_codes s) as [a c] eqn:Ec. eexists _, _. split; [done|]. split; [right; exists p, e, s; by rewrite Ec|].
    right. by exists p, e, i'.
Qed.

Lemma submit_wf clock b ty o n l w0 w : wf w0 w → wf w0 (fst (submit_request clock b ty o n l w)).
Proof.
  intros W. destruct (fn_tables w0 !! b) as [t|] eqn:Hb.
  2: { unfold submit_request. by rewrite (wf_old _ _ W b Hb). }
  destruct (submit_in_place clock b ty o n l w t (wf_place _ _ W b t Hb)) as (w' & r & -> & _ & [-> | (p & e & i' & Ep & Ee & Hm & Hd & ->)]); [done|].
  destruct W as [W1 W2 W3]. split; [done| |done]. intros b' t' Hb'. cbn.
  destruct (W2 b' t' Hb') as [(A & N)|(q & f & A & Af & N & Aq & At & (s & Hs) & An)]; [left|right].
  - split; [done|]. cbn. rewrite lookup_insert_ne; [done|congruence].
  - cbn. exists q. assert (injected w !! t' = None → (<[p:=mkBdevInfo p (fn_table_orig e) i']> (injected w)) !! t' = None) as Hi
      by (intros; rewrite lookup_insert_ne; [done|congruence]).
    destruct (decide (q = p)) as [->|]; [|exists f; rewrite lookup_insert_ne by done; split_and!; eauto; by exists s].
    eexists. rewrite lookup_insert_eq. simplify_eq. split_and!; eauto; cbn; [exists s; congruence|congruence].
Qed.

Lemma remove_wf u w0 w : wf w0 w → wf w0 (fst (remove_fault_injection u w)).
Proof. by intros []. Qed.

Lemma add_bdev_wf i w0 w : (∀ n n' b, bdev_names w0 !! n = Some b → bdev_names w0 !! n' = Some b → n = n') →
  wf w0 w → wf w0 (fst (add_bdev_io_injection i w)).
Proof.
  intros Hinj W. unfold add_bdev_io_injection. destruct (negb _); [done|]. destruct (method i) as [[]|] eqn:Hm; try done.
  destruct (bdev_names w !! device_name i) as [b|] eqn:Hn; [|done]. case_bool_decide as Hx; [done|].
  destruct (fn_tables w !! b) as [orig|] eqn:Hb; [|done]. cbn.
  set (X := _ ∪ _ ∪ _). pose proof (is_fresh X) as HX. set (p := fresh X) in *.
  assert (injected w !! p = None) as Hp by (apply not_elem_of_dom; set_solver).
  assert (∀ b' t', fn_tables w !! b' = Some t' → t' ≠ p) as Ht.
  { intros b' t' E ->. apply HX. apply elem_of_union_l, elem_of_union_r, elem_of_list_to_set, list_elem_of_fmap. exists (b', p). by rewrite elem_of_map_to_list. }
  assert (∀ q e, injected w !! q = Some e → fn_table_orig e ≠ p) as He.
  { intros q e E Eq. apply HX. apply elem_of_union_r, elem_of_list_to_set, list_elem_of_fmap. exists (q, e). by rewrite elem_of_map_to_list. }
  destruct W as [W1 W2 W3]. split; [done| |].
  - intros b' t' Hb'. pose proof (W2 b' t' Hb') as HP. destruct (decide (b' = b)) as [->|Hne].
    + right. destruct HP as [(A & N)|(q & e & A & Ae & N & _ & At & _ & An)].
      * exists p. eexists. cbn. rewrite !lookup_insert_eq. rewrite lookup_insert_ne by (intros ->; by eapply Ht).
        split_and!; eauto; cbn; [congruence|by eexists].
      * destruct Hx. apply Exists_exists. exists (q, e). rewrite elem_of_map_to_list. split; [done|]. cbn. rewrite W1 in An, Hn. by eapply Hinj.
    + destruct HP as [(A & N)|(q & e & A & Ae & N & Aq & At & AF & An)]; [left|right; exists q, e]; cbn; rewrite lookup_insert_ne by done.
      * rewrite lookup_insert_ne by (intros ->; by eapply Ht). done.
      * rewrite !lookup_insert_ne by (intros ->; try (by eapply Ht); by eapply He). split_and!; eauto.
  - intros b' Hb'. cbn. rewrite lookup_insert_ne; [by apply W3|]. intros ->. by rewrite (W3 _ Hb') in Hb.
Qed.

Lemma add_wf i w0 w : (∀ n n' b, bdev_names w0 !! n = Some b → bdev_names w0 !! n' = Some b → n = n') →
  wf w0 w → wf w0 (fst (add_fault_injection i w)).
Proof.
  intros Hinj W. set (w1 := mkWorld true (items w) (injected w) (bdev_names w) (fn_tables w)).
  assert (wf w0 w1) as W1 by (by destruct W).
  assert (fst (add_fault_injection i w) = fst (add i w1)) as -> by done. unfold add.
  destruct (bool_decide _); [|by destruct W1].
  pose proof (add_bdev_wf i w0 w1 Hinj W1) as W2.
  unfold mbind, ST_bind. destruct (add_bdev_io_injection i w1) as [w2 [[]| |]]; [|done|done]. by destruct W2.
Qed.

(** Whatever injections are added and removed and whatever I/O is submitted, as
    long as no bdev has two names, an I/O of a bdev reaches the function table
    the bdev had, or is completed with the status of an injection. *)
Lemma bdev_io_is_passed_or_failed w0 ops b t clock ty o n l :
  injected w0 = ∅ → (∀ n n' b, bdev_names w0 !! n = Some b → bdev_names w0 !! n' = Some b → n = n') →
  fn_tables w0 !! b = Some t →
  let w := foldl exec w0 ops in
  ∃ w' r, submit_request clock b ty o n l w = (w', Ok r) ∧
    (r = Passed t ∨ ∃ p e s, injected w !! p = Some e ∧ method (inj e) = Status (NvmeError s) ∧
       r = Completed (fst (as_sct_sc_codes s)) (snd (as_sct_sc_codes s))).
Proof.
  intros H0 Hinj Hb w. assert (wf w0 w) as W.
  { subst w. assert (wf w0 w0) as W by (split; [done| |done]; intros ???; left; by rewrite H0).
    revert W. generalize w0 at 2 4 as w. induction ops as [|op ops IH]; intros w W; [done|]. cbn. apply IH.
    destruct op; cbn [exec]; [by apply add_wf|by apply remove_wf|by apply submit_wf]. }
  destruct (submit_in_place clock b ty o n l w t (wf_place _ _ W b t Hb)) as (w' & r & E & Hr & _). eauto.
Qed.
End Bdevs.
End InjectProps.
