(* ===== verification/InjectSample.v ===== *)
(** * Fault injection at work

    A reader of plain URLs for which the laws of [InjectProps] hold, and runs that
    show what injections do. *)

From Stdlib Require Import Ascii String.
From S2P Require Import Prelude Text Wp Errors IoLog BdevUri BlockDevice Inject InjectProps.

#[local] Open Scope Z_scope.

Module InjectSample.
Import Inject InjectProps.

(** ** The crates *)

(** The text before and after the first [c] *)
Fixpoint cut (c : ascii) (s : string) : string * string :=
  match s with
  | EmptyString => ("", "")
  | String a s => if bool_decide (a = c) then ("", s) else let '(x, y) := cut c s in (String a x, y)
  end%string.

Fixpoint skip (n : nat) (s : string) : string :=
  match n, s with Datatypes.S n, String _ s => skip n s | _, _ => s end.

Definition sample_parse (s : string) : string + string * list (string * string) :=
  if String.prefix "inject://" s then
    let '(h, q) := cut "?" (skip 9 s) in inr (h, cut "=" <$> split "&" q)
  else inl "relative URL without a base"%string.

Definition sample_codes (s : NvmeStatus) : Z * Z :=
  match s with
  | UNWRITTEN_BLOCK => (2, 135) | NO_SPACE => (0, 129) | Generic_CAPACITY_EXCEEDED => (0, 129) | Generic_INVALID_OPCODE => (0, 1)
  | Generic_RESERVATION_CONFLICT => (0, 131) | Generic_ABORTED_SQ_DELETION => (0, 8) | Media_COMPARE_FAILURE => (2, 133)
  | NvmeStatusOther sct sc => (sct, sc)
  end.

#[global] Instance sample_crates : Crates := {
  url := string * list (string * string);
  url_parse := sample_parse;
  host_str u := Some (fst u);
  port _ := None;
  path _ := ""%string;
  query_pairs := snd;
  rng := Z;
  from_seed := 0;
  next_u32 g := (g + 1, 7 * g);
  DATA_TRANSFER_ERROR := NvmeStatusOther 0 4;
  as_sct_sc_codes := sample_codes;
  nvme_from c := NvmeStatusOther (fst c) (snd c);
}.

Lemma cut_app c a b : has c a = false → cut c (a +:+ String c b)%string = (a, b).
Proof.
  induction a as [|x a IH]; intros H.
  { rewrite app_empty_str. cbn [cut]. by rewrite bool_decide_eq_true_2. }
  rewrite app_cons_str. cbn [cut has] in *. apply orb_false_iff in H as [-> H]. by rewrite (IH H).
Qed.

Lemma plain_has c s : plain_char c = false → plain s = true → has c s = false.
Proof.
  intros Hc. induction s as [|a s IH]; [done|]. cbn. rewrite andb_true_iff. intros [Ha Hs]. rewrite (IH Hs), orb_false_r.
  apply bool_decide_eq_false_2. intros ->. by rewrite Ha in Hc.
Qed.

#[global] Instance sample_laws : CrateLaws.
Proof.
  split. intros name ps Hn _ Hp Hps. exists (name, ps). split; [|done].
  assert (∀ x, sample_parse ("inject://" +:+ x) = let '(h, q) := cut "?" x in inr (h, cut "=" <$> split "&" q))%string as Hs by (by intros []).
  unfold url_parse, sample_crates. rewrite Hs.
  change (name +:+ "?" +:+ join "&" (show_param <$> ps))%string with (name +:+ String "?" (join "&" (show_param <$> ps)))%string.
  rewrite cut_app by (by apply plain_has). do 2 f_equal. rewrite split_join.
  - rewrite <- list_fmap_compose. induction Hp as [|[k v] ps [Hk Hv] Hp IH]; [done|]. cbn [fmap list_fmap]. f_equal.
    + unfold compose, show_param. cbn [fst snd]. change (k +:+ "=" +:+ v)%string with (k +:+ String "=" v)%string.
      apply cut_app. by apply plain_has.
    + destruct ps; [done|by apply IH].
  - by destruct ps.
  - apply Forall_fmap. eapply Forall_impl; [exact Hp|]. intros [k v] [Hk Hv]. unfold compose, show_param. cbn [fst snd] in *.
    by rewrite !has_app, (plain_has "&" k), (plain_has "&" v) by done.
Qed.

(** ** Hits *)

Definition write (device : string) (offset : Z) : InjectIoCtx :=
  with_iovs BlockDevice (Device device) IoWrite offset 8 [mkIoVec true [1; 2]].

Definition three : Injection := with_retries 3 (with_uri None "d0" default).

(** Three retries fault two of the writes to the device. *)
Definition writes : list Io :=
  [mkIo (1, 2) Submission (write "d0" 0); mkIo (3, 4) Submission (write "d1" 0); mkIo (5, 6) Submission (write "d0" 8);
   mkIo (7, 8) Submission (write "d0" 16)].

Lemma injected_faults_are_reference_witness :
  (∃ i', run three writes = Ok (i', [Some (NvmeError DATA_TRANSFER_ERROR); None; Some (NvmeError DATA_TRANSFER_ERROR); None])) ∧
  buffers_ok three writes.
Proof.
  assert (buffers_ok three writes) as H by done. split; [|exact H].
  destruct (injected_faults_are_reference three writes eq_refl eq_refl H) as [[i' E] _]. exists i'. rewrite E. vm_compute. reflexivity.
Defined.

(** The URI of the test [injection_uri_creation] *)
Definition full : Injection :=
  mkInjection None BlockDevice "dev0" Read Completion (Status (NvmeError (NvmeStatusOther 0 129))) (5000000000, 10000000000) (123, 456) 789 default_state.

Lemma full_uri : as_uri full =
  "inject://dev0?domain=block&op=r&stage=compl&method=status-nvme-0-81&begin_at=5000&end_at=10000&offset=123&num_blk=333&retries=789"%string.
Proof. vm_compute. reflexivity. Qed.

Lemma full_valid : valid full.
Proof.
  unfold valid, is_u64. cbn. split_and!; try done; try lia; [exists 5000; done|right; exists 10000; done].
Qed.

Lemma full_round_trip : from_uri (as_uri full) = Ok (with_uri (Some (as_uri full)) "dev0" full).
Proof. exact (injection_uri_round_trip full full_valid eq_refl). Qed.

(** ** Bdevs *)

Definition on_bdev (name : string) : Injection := with_domain BdevIo (with_uri (Some "inject://x"%string) name default).

(** A bdev with an alias *)
Definition world : World := mkWorld false [] ∅ {[ "b0" := 0%nat; "alias" := 0%nat ]} {[ 0%nat := 100 ]}.

Definition io (w : World) : outcome Error Submitted := snd (submit_request (1, 1) 0 IoRead 0 8 [mkIoVec true [0]] w).

(** An injection of a bdev stays when it is removed from the list, and another one
    is not accepted. *)
Lemma removed_bdev_injection_stays :
  let w := foldl exec world [Add (on_bdev "b0"); Remove "inject://x"] in
  items w = [] ∧ io w = Ok (Completed 0 4) ∧
  snd (add_fault_injection (on_bdev "b0") w) = Err (InvalidInjection "b0" "bdev I/O does not support multiple injections per bdev").
Proof. vm_compute. done. Qed.

(** With injections under the name and the alias of a bdev, an I/O that neither hits
    waits for the lock it holds. *)
Lemma aliased_bdev_deadlocks :
  let quiet n := with_block_range (1000, 1001) (on_bdev n) in
  io (foldl exec world [Add (quiet "b0"); Add (quiet "alias")]) = Ok Deadlocked.
Proof. vm_compute. done. Qed.

(** A failed addition leaves injections enabled. *)
Lemma failed_addition_enables : snd (add_fault_injection (on_bdev "nope") world) = Err (DeviceNotFound "nope") ∧
  enabled (fst (add_fault_injection (on_bdev "nope") world)) = true.
Proof. vm_compute. done. Qed.

End InjectSample.
