(* ===== verification/Locks.v ===== *)
(** * Locks of the gRPC services

    The lock manager ([core/lock.rs]) with its global lock, the locks of the
    subsystems and those of their resources, the ways requests acquire them
    ([serialized] of [grpc/v1/nexus.rs], [grpc/v1/snapshot.rs] and
    [grpc/v0/mayastor_grpc.rs], [acquire_subsystem_lock] of [grpc/mod.rs]), and
    requests that run side by side.  Requests that use a resource exclude each
    other, they do not deadlock, and they leave no lock behind. *)

From Stdlib Require Import Ascii String Sorted.
From S2P Require Import Prelude Text.

#[local] Open Scope Z_scope.

Module Locks.

(** ** The lock manager *)

(** [ProtectedSubsystems] *)
Definition NEXUS : string := "nexus".
Definition POOL : string := "pool".
Definition REPLICA : string := "replica".

(** A lock: [mgr_lock], [subsystem_lock] or one of [object_locks] *)
Inductive LockId := Global | Subsystem (id : string) | Object (id : string) (i : nat).

#[global] Instance LockId_eq_dec : EqDecision LockId.
Proof. solve_decision. Defined.

#[global] Instance LockId_countable : Countable LockId.
Proof.
  refine (inj_countable'
    (λ l, match l with Global => inl () | Subsystem s => inr (inl s) | Object s i => inr (inr (s, i)) end)
    (λ x, match x with inl _ => Global | inr (inl s) => Subsystem s | inr (inr (s, i)) => Object s i end) _).
  by intros [].
Defined.

(** A mutex with [LockStats], and the request that has its guard *)
Record Mutex := mkMutex { num_acquires : Z; holder : option nat }.

(** [ResourceLockManagerConfig]: the subsystems and the numbers of their locks *)
Definition Config : Type := list (string * Z).

(** [ResourceLockManagerConfig::with_subsystem] *)
Definition with_subsystem {E} (id : string) (num_objects : Z) (c : Config) : outcome E Config :=
  if bool_decide (Exists (λ x : string * Z, x.1 = id) c) then Panicked else Ok (c ++ [(id, num_objects)]).

Record ResourceLockManager := mkManager { subsystems : Config; mutexes : gmap LockId Mutex }.

(** The locks of a [ResourceSubsystem] *)
Definition locks_of (s : string * Z) : list LockId := Subsystem s.1 :: (Object s.1 <$> seq 0 (Z.to_nat s.2)).

(** [ResourceLockManager::initialize], the first time *)
Definition initialize (c : Config) : ResourceLockManager :=
  mkManager c (list_to_map ((λ l, (l, mkMutex 0 None)) <$> (Global :: (c ≫= locks_of)))).

(** The locks of the engine ([bin/io-engine.rs]) *)
Definition engine_config {E} : outcome E Config :=
  c ← with_subsystem POOL 32 []; c ← with_subsystem NEXUS 512 c; with_subsystem REPLICA 1024 c.

(** [ResourceLockManager::get_subsystem] *)
Definition get_subsystem {E} (m : ResourceLockManager) (id : string) : outcome E (string * Z) :=
  match list_find (λ x : string * Z, x.1 = id) (subsystems m) with Some (_, s) => Ok s | None => Panicked end.

(** How a lock is waited for: [wait_timeout] is given, [try_lock] is set, or neither *)
Inductive Mode := Timeout | Try | Forever.

Definition mode (wait_timeout : option Z) (try_lock : bool) : Mode :=
  match wait_timeout with Some _ => Timeout | None => if try_lock then Try else Forever end.

(** The lock a request is to acquire, and how *)
Definition Plan : Type := list (LockId * Mode).

Section Hash.
(** [DefaultHasher] *)
Context (hash : string → Z).

(** [ResourceLockManager::lock], [ResourceSubsystem::lock] and
    [ResourceSubsystem::lock_resource]: the remainder panics without locks. *)
Definition lock (wait_timeout : option Z) (try_lock : bool) : LockId * Mode := (Global, mode wait_timeout try_lock).
Definition lock_subsystem (s : string * Z) (wait_timeout : option Z) (try_lock : bool) : LockId * Mode :=
  (Subsystem s.1, mode wait_timeout try_lock).
Definition lock_resource {E} (s : string * Z) (id : string) (wait_timeout : option Z) (try_lock : bool) : outcome E (LockId * Mode) :=
  if s.2 =? 0 then Panicked else Ok (Object s.1 (Z.to_nat (hash id mod s.2)), mode wait_timeout try_lock).

(** What [serialized] acquires for a nexus *)
Definition serialized {E} (m : ResourceLockManager) (timeout : Z) (nexus_uuid : string) (global_operation : bool) : outcome E Plan :=
  s ← get_subsystem m NEXUS;
  r ← lock_resource s nexus_uuid (Some timeout) false;
  Ok ((if global_operation then [lock (Some timeout) false] else []) ++ [r]).

(** [acquire_subsystem_lock] *)
Definition acquire_subsystem_lock {E} (s : string * Z) (resource : option string) : outcome E Plan :=
  match resource with
  | Some id => r ← lock_resource s id None true; Ok [r]
  | None => Ok [lock_subsystem s None true]
  end.
End Hash.

(** ** Requests side by side *)

(** The answer to a request: its own, or that a lock was not acquired in time, was
    held by another, or that the method panicked *)
Inductive Answer := Reply (r : Z) | DeadlineExceeded | Aborted | Cancelled.

(** A request waits for a lock, runs with its guards, or was answered. *)
Inductive Phase :=
| Waiting (l : LockId) (m : Mode) (todo : Plan) (guards : list LockId)
| Running (guards : list LockId)
| Answered (a : Answer).

Definition proceed (todo : Plan) (guards : list LockId) : Phase :=
  match todo with [] => Running guards | (l, m) :: todo => Waiting l m todo guards end.

Record World := mkWorld { manager : ResourceLockManager; requests : list Phase }.

(** The guards of a request are dropped. *)
Definition release (l : LockId) (ms : gmap LockId Mutex) : gmap LockId Mutex :=
  alter (λ x, mkMutex (num_acquires x) None) l ms.

Definition drop_guards (guards : list LockId) (m : ResourceLockManager) : ResourceLockManager :=
  mkManager (subsystems m) (foldr release (mutexes m) guards).

Definition answer (t : nat) (guards : list LockId) (a : Answer) (w : World) : World :=
  mkWorld (drop_guards guards (manager w)) (<[t := Answered a]> (requests w)).

(** What can happen: the future of a request is polled, its timer expires, or its
    method ends, with a result or by a panic. *)
Inductive Event := Poll (t : nat) | Expire (t : nat) | Finish (t : nat) (r : option Z).

(** [acquire_lock]: the mutex is taken when it is free, also by a request whose
    timer has expired. *)
Definition acquire (t : nat) (l : LockId) (m : Mode) (todo : Plan) (guards : list LockId) (w : World) : option World :=
  match mutexes (manager w) !! l with
  | None => None
  | Some x =>
      match holder x, m with
      | None, _ =>
          Some (mkWorld (mkManager (subsystems (manager w)) (<[l := mkMutex (wrap64 (num_acquires x + 1)) (Some t)]> (mutexes (manager w))))
                  (<[t := proceed todo (l :: guards)]> (requests w)))
      | Some _, Try => Some (answer t guards Aborted w)
      | Some _, _ => None
      end
  end.

Definition step (e : Event) (w : World) : option World :=
  match e with
  | Poll t => match requests w !! t with Some (Waiting l m todo g) => acquire t l m todo g w | _ => None end
  | Expire t =>
      match requests w !! t with
      | Some (Waiting l Timeout _ g) =>
          match mutexes (manager w) !! l with
          | Some x => match holder x with Some _ => Some (answer t g DeadlineExceeded w) | None => None end
          | None => None
          end
      | _ => None
      end
  | Finish t r =>
      match requests w !! t with
      | Some (Running g) => Some (answer t g (match r with Some r => Reply r | None => Cancelled end) w)
      | _ => None
      end
  end.

Fixpoint run (es : list Event) (w : World) : option World :=
  match es with [] => Some w | e :: es => step e w ≫= run es end.

(** Requests with their plans, before any of them was polled *)
Definition start (m : ResourceLockManager) (plans : list Plan) : World := mkWorld m ((λ p, proceed p []) <$> plans).

End Locks.

(** ** Theorems *)

Module LocksProps.
Import Locks.

Definition rank (l : LockId) : nat := match l with Global => 0 | Subsystem _ => 1 | Object _ _ => 2 end.

Definition guards_of (p : Phase) : list LockId :=
  match p with Waiting _ _ _ g | Running g => g | Answered _ => [] end.
Definition answered (p : Phase) : Prop := match p with Answered _ => True | _ => False end.

(** Locks are acquired in the order of their ranks, and exist. *)
Definition before (l l' : LockId) : Prop := (rank l < rank l')%nat.
Definition plan_ok (ms : gmap LockId Mutex) (p : Plan) : Prop := StronglySorted before p.*1 ∧ Forall (λ l, is_Some (ms !! l)) p.*1.

(** The guards and the locks that are still to be acquired are those of the plan. *)
Definition follows (ms : gmap LockId Mutex) (p : Plan) (ph : Phase) : Prop :=
  match ph with
  | Waiting l m todo g => plan_ok ms ((l, m) :: todo) ∧ Forall (λ l', before l' l ∧ is_Some (ms !! l')) g ∧ p.*1 ⊆ g ++ l :: todo.*1
  | Running g => Forall (λ l', is_Some (ms !! l')) g ∧ p.*1 ⊆ g
  | Answered _ => True
  end.

Record inv (plans : list Plan) (w : World) : Prop := {
  inv_follows : Forall2 (follows (mutexes (manager w))) plans (requests w);
  inv_holder : ∀ l x t, mutexes (manager w) !! l = Some x →
    (holder x = Some t ↔ ∃ p, requests w !! t = Some p ∧ l ∈ guards_of p);
}.

Lemma follows_dom ms ms' p ph : (∀ l, is_Some (ms !! l) → is_Some (ms' !! l)) → follows ms p ph → follows ms' p ph.
Proof.
  intros H. assert (∀ ls, Forall (λ l, is_Some (ms !! l)) ls → Forall (λ l, is_Some (ms' !! l)) ls) as HF.
  { intros ls Hls. eapply Forall_impl; [exact Hls|]. auto. }
  destruct ph as [l m todo g|g|]; cbn; [|naive_solver|done]. intros ([Hs Hd] & Hg & Hp). split_and!; [by split; [|apply HF]| |done].
  eapply Forall_impl; [exact Hg|]. naive_solver.
Qed.

Lemma proceed_follows ms p l m todo g : follows ms p (Waiting l m todo g) → follows ms p (proceed todo (l :: g)).
Proof.
  intros ([Hs Hd] & Hg & Hp). cbn in Hs, Hd. apply StronglySorted_inv in Hs as [Hs Hl]. apply Forall_cons in Hd as [Hd1 Hd].
  destruct todo as [|[l' m'] todo]; cbn in *.
  - split; [|intros x Hx; apply Hp in Hx; rewrite elem_of_app, elem_of_cons, elem_of_nil in Hx; rewrite elem_of_cons; tauto]. apply Forall_cons. split; [done|]. eapply Forall_impl; [exact Hg|]. naive_solver.
  - split_and!; [by split|..].
    + apply Forall_cons. apply Forall_cons in Hl as [Hl _]. split; [done|]. eapply Forall_impl; [exact Hg|].
      intros x [Hx ?]. split; [|done]. unfold before in *. lia.
    + intros x Hx. apply Hp in Hx. rewrite elem_of_app, !elem_of_cons in Hx. rewrite !elem_of_cons, elem_of_app, elem_of_cons. tauto.
Qed.

Lemma guards_proceed todo g : guards_of (proceed todo g) = g.
Proof. by destruct todo as [|[]]. Qed.

Lemma release_lookup g ms l : foldr release ms g !! l = if bool_decide (l ∈ g) then (λ x, mkMutex (num_acquires x) None) <$> ms !! l else ms !! l.
Proof.
  induction g as [|l' g IH]; [done|]. cbn. unfold release at 1. destruct (decide (l' = l)) as [->|Hne].
  - rewrite lookup_alter_eq, IH. rewrite (bool_decide_eq_true_2 (l ∈ l :: g)) by (by left).
    destruct (bool_decide (l ∈ g)), (ms !! l); done.
  - rewrite lookup_alter_ne, IH by done. rewrite (bool_decide_ext (l ∈ l' :: g) (l ∈ g)); [done|]. rewrite elem_of_cons. split; [intros [->|]|]; tauto.
Qed.

Lemma insert_right {A B} (P : A → B → Prop) (l : list A) (k : list B) t b :
  Forall2 P l k → (∀ a, l !! t = Some a → P a b) → Forall2 P l (<[t := b]> k).
Proof.
  intros H Hb. destruct (l !! t) as [a|] eqn:E.
  - rewrite <- (list_insert_id l t a E). apply Forall2_insert; auto.
  - rewrite list_insert_ge; [done|]. rewrite <- (Forall2_length _ _ _ H). by apply lookup_ge_None.
Qed.

Lemma answer_inv plans w t p a : inv plans w → requests w !! t = Some p → inv plans (answer t (guards_of p) a w).
Proof.
  intros [Hf Hh] Ht. split; cbn.
  - eapply Forall2_impl with (P := follows (mutexes (manager w))).
    2: { intros q ph. apply follows_dom. intros l [x Hx]. rewrite release_lookup, Hx. destruct (bool_decide _); eauto. }
    by apply insert_right.
  - intros l x t' Hl. rewrite release_lookup in Hl.
    assert (t' = t ∨ t' ≠ t) as [->|Hne] by (destruct (decide (t' = t)); auto).
    + rewrite list_lookup_insert_eq by (by eapply lookup_lt_Some). split.
      * case_bool_decide as Hg; [destruct (mutexes (manager w) !! l); cbn in Hl; simplify_eq; done|].
        intros Hx. apply (Hh _ _ t Hl) in Hx as (p' & ? & ?). by simplify_eq.
      * intros (p' & [= <-] & Hin). by apply elem_of_nil in Hin.
    + rewrite list_lookup_insert_ne by done. case_bool_decide as Hg; [|by apply Hh].
      destruct (mutexes (manager w) !! l) as [y|] eqn:El; cbn in Hl; simplify_eq. split; [done|].
      intros Hin. apply (Hh _ _ t' El) in Hin. assert (holder y = Some t) by (apply (Hh _ _ t El); eauto). congruence.
Qed.

Lemma inv_at plans w t ph : inv plans w → requests w !! t = Some ph → ∃ p, plans !! t = Some p ∧ follows (mutexes (manager w)) p ph.
Proof. intros H Ht. destruct (Forall2_lookup_r _ _ _ _ _ (inv_follows _ _ H) Ht) as (p & ? & ?). eauto. Qed.

Lemma acquire_inv plans w t l m todo g x : inv plans w → requests w !! t = Some (Waiting l m todo g) →
  mutexes (manager w) !! l = Some x → holder x = None →
  inv plans (mkWorld (mkManager (subsystems (manager w)) (<[l := mkMutex (wrap64 (num_acquires x + 1)) (Some t)]> (mutexes (manager w))))
               (<[t := proceed todo (l :: g)]> (requests w))).
Proof.
  intros H Ht Hl Hx. destruct (inv_at _ _ _ _ H Ht) as (p & Hp & Hf). destruct H as [HF Hh]. split; cbn.
  - eapply Forall2_impl with (P := follows (mutexes (manager w))).
    2: { intros q ph. apply follows_dom. intros l' Hl'. apply lookup_insert_is_Some'. by right. }
    apply insert_right; [done|]. intros q Hq. simplify_eq. by eapply proceed_follows.
  - intros l' x' t' Hl'. pose proof (lookup_lt_Some _ _ _ Ht) as Hlt.
    destruct (decide (t' = t)) as [->|Hne].
    + rewrite list_lookup_insert_eq by done. destruct (decide (l' = l)) as [->|Hn].
      * rewrite lookup_insert_eq in Hl'. simplify_eq. split; [|done]. intros _. eexists. split; [done|]. rewrite guards_proceed. by left.
      * rewrite lookup_insert_ne in Hl' by done. rewrite (Hh _ _ t Hl'). split.
        -- intros (q & Hq & Hin). simplify_eq. eexists. split; [done|]. rewrite guards_proceed. by right.
        -- intros (q & [= <-] & Hin). rewrite guards_proceed, elem_of_cons in Hin. destruct Hin as [?|?]; [done|]. eauto.
    + rewrite list_lookup_insert_ne by done. destruct (decide (l' = l)) as [->|Hn].
      * rewrite lookup_insert_eq in Hl'. simplify_eq. cbn. split; [congruence|]. intros Hin. apply (Hh _ _ t' Hl) in Hin. congruence.
      * rewrite lookup_insert_ne in Hl' by done. by apply Hh.
Qed.

Lemma step_inv plans e w w' : inv plans w → step e w = Some w' → inv plans w'.
Proof.
  intros H. destruct e as [t|t|t r]; cbn; destruct (requests w !! t) as [[l m todo g|g|a]|] eqn:Ht; try done.
  - unfold acquire. destruct (mutexes (manager w) !! l) as [x|] eqn:Hl; [|done]. destruct (holder x) eqn:Hx; [destruct m; try done|].
    + intros [= <-]. by apply (answer_inv plans w t (Waiting l Try todo g)).
    + intros [= <-]. by eapply acquire_inv.
  - destruct m; try done. destruct (mutexes (manager w) !! l) as [x|]; [|done]. destruct (holder x); [|done].
    intros [= <-]. by apply (answer_inv plans w t (Waiting l Timeout todo g)).
  - intros [= <-]. by apply (answer_inv plans w t (Running g)).
Qed.

Lemma run_keeps_inv plans es w w' : inv plans w → run es w = Some w' → inv plans w'.
Proof.
  revert w. induction es as [|e es IH]; intros w H; cbn; [by intros [= <-]|].
  destruct (step e w) as [w1|] eqn:E; cbn; [|done]. apply IH. by eapply step_inv.
Qed.

Lemma start_inv m plans : Forall (plan_ok (mutexes m)) plans → (∀ l x, mutexes m !! l = Some x → holder x = None) → inv plans (start m plans).
Proof.
  intros Hp Hm. split; cbn.
  - apply Forall2_fmap_r, Forall_Forall2_diag. eapply Forall_impl; [exact Hp|]. intros p [Hs Hd]. destruct p as [|[l md] p]; cbn.
    + by split.
    + by split_and!.
  - intros l x t Hl. rewrite (Hm _ _ Hl). split; [done|]. intros (ph & Hph & Hin). rewrite list_lookup_fmap in Hph.
    destruct (plans !! t); cbn in Hph; simplify_eq. rewrite guards_proceed in Hin. by apply elem_of_nil in Hin.
Qed.

(** A request that waits is not alone in vain: something can happen. *)
Lemma waiting_steps plans w n : inv plans w → ∀ t l m todo g, requests w !! t = Some (Waiting l m todo g) → (2 - rank l < n)%nat →
  ∃ e w', step e w = Some w'.
Proof.
  intros H. induction n as [|n IH]; [lia|]. intros t l m todo g Ht Hn.
  destruct (inv_at _ _ _ _ H Ht) as (p & _ & [Hs Hd] & _). cbn in Hd. apply Forall_cons in Hd as [[x Hx] _].
  destruct (holder x) as [t'|] eqn:Hh.
  - apply (inv_holder _ _ H _ _ _ Hx) in Hh as (ph & Ht' & Hin). destruct ph as [l' m' todo' g'|g'|a]; cbn in Hin.
    + destruct (inv_at _ _ _ _ H Ht') as (p' & _ & _ & Hg & _). rewrite Forall_forall in Hg. destruct (Hg _ Hin) as [Hb _].
      eapply IH; [exact Ht'|]. unfold before in Hb. destruct l, l'; cbn in *; lia.
    + exists (Finish t' None). eexists. cbn. by rewrite Ht'.
    + by apply elem_of_nil in Hin.
  - exists (Poll t). eexists. cbn. rewrite Ht. unfold acquire. by rewrite Hx, Hh.
Qed.

Lemma stuck_answered plans w : inv plans w → (∀ e, step e w = None) →
  Forall answered (requests w) ∧ ∀ l x, mutexes (manager w) !! l = Some x → holder x = None.
Proof.
  intros H Hstuck. assert (Forall answered (requests w)) as Ha.
  { apply Forall_lookup. intros t [l m todo g|g|a] Ht; [|exfalso|done].
    - destruct (waiting_steps plans w 3 H t l m todo g Ht) as (e & w' & E); [destruct l; cbn; lia|]. by rewrite Hstuck in E.
    - specialize (Hstuck (Finish t None)). cbn in Hstuck. by rewrite Ht in Hstuck. }
  split; [done|]. intros l x Hx. destruct (holder x) as [t|] eqn:E; [|done].
  apply (inv_holder _ _ H _ _ _ Hx) in E as (ph & Ht & Hin). rewrite Forall_lookup in Ha. specialize (Ha _ _ Ht).
  destruct ph; [done|done|]. by apply elem_of_nil in Hin.
Qed.

(** ** The number of steps *)

Definition weight (p : Phase) : nat := match p with Waiting _ _ todo _ => 2 + length todo | Running _ => 1 | Answered _ => 0 end.
Fixpoint weights (l : list Phase) : nat := match l with [] => 0 | p :: l => weight p + weights l end.
Definition total (w : World) : nat := weights (requests w).

Lemma sum_insert (l : list Phase) t p p' : l !! t = Some p → (weight p' < weight p)%nat →
  (weights (<[t := p']> l) < weights l)%nat.
Proof.
  revert t. induction l as [|q l IH]; intros [|t] Ht Hw; try done; [cbn in *; simplify_eq; lia|].
  change (<[Datatypes.S t := p']> (q :: l)) with (q :: <[t := p']> l). cbn [weights]. specialize (IH t Ht Hw). lia.
Qed.

Lemma step_total e w w' : step e w = Some w' → (total w' < total w)%nat.
Proof.
  unfold total. destruct e as [t|t|t r]; cbn; destruct (requests w !! t) as [[l m todo g|g|a]|] eqn:Ht; try done.
  - unfold acquire. destruct (mutexes (manager w) !! l) as [x|]; [|done]. destruct (holder x); [destruct m; try done|];
      intros [= <-]; cbn; (eapply sum_insert; [exact Ht|]); [cbn; lia|]. destruct todo as [|[]]; cbn; lia.
  - destruct m; try done. destruct (mutexes (manager w) !! l) as [x|]; [|done]. destruct (holder x); [|done].
    intros [= <-]. cbn. eapply sum_insert; [exact Ht|cbn; lia].
  - intros [= <-]. cbn. eapply sum_insert; [exact Ht|cbn; lia].
Qed.

Lemma run_total es w w' : run es w = Some w' → (length es + total w' ≤ total w)%nat.
Proof.
  revert w. induction es as [|e es IH]; intros w; cbn; [intros [= <-]; lia|].
  destruct (step e w) as [w1|] eqn:E; cbn; [|done]. intros Hr. apply IH in Hr. apply step_total in E. lia.
Qed.

(** ** The requests of the services *)

(** A request for a nexus, which may be a global one, or one that tries the lock of
    a subsystem or of a resource in it *)
Inductive Request := ForNexus (timeout : Z) (uuid : string) (global : bool) | ForSubsystem (id : string) (resource : option string).

Section Requests.
Context (hash : string → Z).

Definition plan_of (m : ResourceLockManager) (r : Request) : outcome unit Plan :=
  match r with
  | ForNexus timeout uuid global => serialized hash m timeout uuid global
  | ForSubsystem id resource => s ← get_subsystem m id; acquire_subsystem_lock hash s resource
  end.

(** Requests that exclude each other *)
Definition conflict (r r' : Request) : Prop :=
  match r, r' with
  | ForNexus _ uuid global, ForNexus _ uuid' global' => uuid = uuid' ∨ (global = true ∧ global' = true)
  | ForSubsystem id resource, ForSubsystem id' resource' => id = id' ∧ resource = resource'
  | _, _ => False
  end.

Lemma lock_exists c l : l = Global ∨ l ∈ c ≫= locks_of → mutexes (initialize c) !! l = Some (mkMutex 0 None).
Proof.
  intros H. cbn [initialize mutexes]. assert (l ∈ Global :: (c ≫= locks_of)) as Hin by (by apply elem_of_cons).
  clear H. induction (Global :: (c ≫= locks_of)) as [|l' ls IH]; [by apply elem_of_nil in Hin|]. cbn.
  destruct (decide (l' = l)) as [->|Hne]; [by rewrite lookup_insert_eq|]. rewrite lookup_insert_ne by done.
  apply elem_of_cons in Hin as [?|?]; [congruence|auto].
Qed.

Lemma initially_free c l x : mutexes (initialize c) !! l = Some x → holder x = None.
Proof.
  cbn [initialize mutexes]. intros H. apply elem_of_list_to_map_2, list_elem_of_fmap in H as (? & [= -> ->] & _). done.
Qed.

Lemma found_subsystem {E} c id s : get_subsystem (E := E) (initialize c) id = Ok s → s ∈ c ∧ s.1 = id.
Proof.
  unfold get_subsystem. destruct (list_find _ _) as [[i x]|] eqn:Ef; [|done]. intros [= <-]. apply list_find_Some in Ef as (? & ? & _).
  split; [by eapply list_elem_of_lookup_2|done].
Qed.

Lemma object_exists {E} c s id wt tl r : s ∈ c → Forall (λ x : string * Z, 0 ≤ x.2) c → lock_resource (E := E) hash s id wt tl = Ok r →
  is_Some (mutexes (initialize c) !! r.1) ∧ rank r.1 = 2%nat.
Proof.
  unfold lock_resource. intros Hs Hc. destruct (Z.eqb_spec (s.2) 0); [done|]. intros [= <-]. split; [|done].
  rewrite lock_exists; [eauto|]. right. apply list_elem_of_bind. exists s. split; [|done]. right. cbn. apply list_elem_of_fmap.
  eexists. split; [done|]. apply elem_of_seq. rewrite Forall_forall in Hc. specialize (Hc s Hs).
  pose proof (Z.mod_pos_bound (hash id) (s.2)). lia.
Qed.

Lemma plans_ok c r p : Forall (λ x : string * Z, 0 ≤ x.2) c → plan_of (initialize c) r = Ok p → plan_ok (mutexes (initialize c)) p.
Proof.
  intros Hc. assert (∀ l, rank l = 2%nat → is_Some (mutexes (initialize c) !! l) → ∀ m, plan_ok (mutexes (initialize c)) [(l, m)]) as H1.
  { intros l _ Hl m. split; repeat constructor. done. }
  destruct r as [timeout uuid global|id resource]; cbn [plan_of].
  - unfold serialized. destruct (get_subsystem _ _) as [s| |] eqn:Es; [|done..]. apply found_subsystem in Es as [Hs _]. cbn.
    destruct (lock_resource _ _ _ _ _) as [r| |] eqn:Er; [|done..]. destruct (object_exists c s _ _ _ _ Hs Hc Er) as [Hr Hk].
    cbn. intros [= <-]. destruct r as [l m]. destruct global; [|by apply H1].
    split; [cbn; repeat constructor; unfold before; cbn in Hk |- *; lia|].
    change (Forall (λ l, is_Some (mutexes (initialize c) !! l)) [Global; l]). apply Forall_cons. split; [rewrite lock_exists; eauto|by repeat constructor].
  - destruct (get_subsystem _ _) as [s| |] eqn:Es; [|done..]. apply found_subsystem in Es as [Hs _]. cbn.
    destruct resource as [id'|]; cbn.
    + destruct (lock_resource _ _ _ _ _) as [r| |] eqn:Er; [|done..]. destruct (object_exists c s _ _ _ _ Hs Hc Er) as [Hr Hk].
      cbn. intros [= <-]. destruct r as [l m]. by apply H1.
    + intros [= <-]. split; [cbn; repeat constructor|].
      change (Forall (λ l, is_Some (mutexes (initialize c) !! l)) [Subsystem s.1]). apply Forall_singleton. rewrite lock_exists; [eauto|]. right. apply list_elem_of_bind. exists s. split; [by left|done].
Qed.

Lemma conflict_shares c r r' p p' : conflict r r' → plan_of (initialize c) r = Ok p → plan_of (initialize c) r' = Ok p' →
  ∃ l, l ∈ p.*1 ∧ l ∈ p'.*1.
Proof.
  destruct r as [t u g|id o], r' as [t' u' g'|id' o']; cbn [conflict plan_of]; try done.
  - intros Hc. unfold serialized. destruct (get_subsystem _ _) as [s| |]; [|done..]. unfold lock_resource. cbn. destruct (s.2 =? 0); [done|]. cbn.
    intros [= <-] [= <-]. destruct Hc as [->|[-> ->]]; [eexists; rewrite !fmap_app, !elem_of_app; split; right; by left|].
    exists Global. split; by left.
  - intros [-> ->]. destruct (get_subsystem _ _) as [s| |]; [|done..]. cbn. destruct o' as [i|]; cbn.
    + unfold lock_resource. destruct (s.2 =? 0); [done|]. cbn. intros [= <-] [= <-]. eexists. split; by left.
    + intros [= <-] [= <-]. eexists. split; by left.
Qed.

Lemma plan_length m r p : plan_of m r = Ok p → (1 ≤ length p ≤ 2)%nat.
Proof.
  destruct r as [t u g|id o]; cbn [plan_of].
  - unfold serialized. destruct (get_subsystem _ _); [|done..]. cbn. destruct (lock_resource _ _ _ _ _); [|done..]. cbn.
    intros [= <-]. destruct g; cbn; lia.
  - destruct (get_subsystem _ _) as [s| |]; [|done..]. cbn. destruct o; cbn; [|intros [= <-]; cbn; lia].
    destruct (lock_resource _ _ _ _ _); [|done..]. cbn. intros [= <-]. cbn. lia.
Qed.

(** C17. Requests of the services side by side: whatever the order in which they
    are polled, time out and end, two that conflict (for the same nexus, or both
    global, or for the same resource of a subsystem) never run at the same time;
    every run is finite, with at most three steps per request; and when nothing
    more can happen every request was answered and all locks are free, so
    requests neither deadlock nor leave locks behind. *)
Theorem requests_exclude_and_end c rs plans es w :
  Forall (λ x : string * Z, 0 ≤ x.2) c → Forall2 (λ r p, plan_of (initialize c) r = Ok p) rs plans →
  run es (start (initialize c) plans) = Some w →
  (∀ t t' r r' g g', t ≠ t' → rs !! t = Some r → rs !! t' = Some r' → conflict r r' →
     requests w !! t = Some (Running g) → requests w !! t' = Some (Running g') → False) ∧
  (length es ≤ 3 * length rs)%nat ∧
  ((∀ e, step e w = None) →
     Forall answered (requests w) ∧ ∀ l x, mutexes (manager w) !! l = Some x → holder x = None).
Proof.
  intros Hc Hp Hr.
  assert (Forall (plan_ok (mutexes (initialize c))) plans) as Hok.
  { apply Forall_lookup. intros t p Ht. destruct (Forall2_lookup_r _ _ _ _ _ Hp Ht) as (r & _ & E). by eapply plans_ok. }
  assert (inv plans w) as H by (eapply run_keeps_inv; [|exact Hr]; apply start_inv; [done|apply initially_free]).
  split_and!; [| |exact (stuck_answered plans w H)].
  - intros t t' r r' g g' Hne Ht Ht' Hcf Hg Hg'.
    destruct (Forall2_lookup_l _ _ _ _ _ Hp Ht) as (p & Hpt & E). destruct (Forall2_lookup_l _ _ _ _ _ Hp Ht') as (p' & Hpt' & E').
    destruct (conflict_shares c r r' p p' Hcf E E') as (l & Hl & Hl').
    destruct (inv_at _ _ _ _ H Hg) as (q & Hq & Hd & Hs). destruct (inv_at _ _ _ _ H Hg') as (q' & Hq' & _ & Hs'). simplify_eq.
    apply Hs in Hl. apply Hs' in Hl'. rewrite Forall_forall in Hd. destruct (Hd _ Hl) as [x Hx].
    assert (holder x = Some t) by (apply (inv_holder _ _ H _ _ _ Hx); eauto).
    assert (holder x = Some t') by (apply (inv_holder _ _ H _ _ _ Hx); eauto). congruence.
  - apply run_total in Hr. assert (total (start (initialize c) plans) ≤ 3 * length rs)%nat; [|lia].
    clear -Hp. unfold total. cbn. induction Hp as [|r p rs plans E Hp IH]; [done|]. cbn in *. apply plan_length in E. destruct p as [|[] p]; cbn in *; lia.
Qed.
End Requests.
End LocksProps.

(** ** Requests at work *)

Module LocksSample.
Import Locks LocksProps.

(** A few locks, and a hash *)
Definition config : Config := [(POOL, 2); (NEXUS, 4)].
Definition length_hash (s : string) : Z := strlen s.

(** Two requests for one nexus, a global one for another, and one for a pool *)
Definition rs : list Request :=
  [ForNexus 5 "n1" false; ForNexus 5 "n1" false; ForNexus 5 "other" true; ForSubsystem POOL (Some "p1"%string)].

Definition plans : list Plan :=
  [[(Object NEXUS 2, Timeout)]; [(Object NEXUS 2, Timeout)]; [(Global, Timeout); (Object NEXUS 1, Timeout)]; [(Object POOL 0, Try)]].

Definition events : list Event :=
  [Poll 0; Poll 2; Poll 3; Expire 1; Poll 2; Finish 0 (Some 1); Finish 3 None; Finish 2 (Some 2)].

Lemma requests_exclude_and_end_witness : ∃ w, run events (start (initialize config) plans) = Some w ∧
  requests w = [Answered (Reply 1); Answered DeadlineExceeded; Answered (Reply 2); Answered Cancelled] ∧
  (length events ≤ 3 * length rs)%nat ∧
  ∀ l x, mutexes (manager w) !! l = Some x → holder x = None.
Proof.
  assert (Forall2 (λ r p, plan_of length_hash (initialize config) r = Ok p) rs plans) as Hp.
  { repeat (apply Forall2_cons; split; [vm_compute; reflexivity|]). apply Forall2_nil. done. }
  assert (requests <$> run events (start (initialize config) plans) =
    Some [Answered (Reply 1); Answered DeadlineExceeded; Answered (Reply 2); Answered Cancelled]) as Hq by (vm_compute; reflexivity).
  destruct (run events (start (initialize config) plans)) as [w|] eqn:E; [|discriminate Hq].
  exists w. split; [reflexivity|]. injection Hq as Hr.
  destruct (requests_exclude_and_end length_hash config rs plans events w ltac:(repeat constructor; done) Hp E) as (_ & Hl & Hs).
  split; [exact Hr|]. split; [exact Hl|]. apply Hs.
  intros e. destruct e as [[|[|[|[|t]]]]|[|[|[|[|t]]]]|[|[|[|[|t]]]] r]; cbn; rewrite Hr; reflexivity.
Defined.

(** Pools whose names share a lock are taken for one that is in use. *)
Lemma other_pool_is_aborted :
  plan_of length_hash (initialize config) (ForSubsystem POOL (Some "ab"%string)) = Ok [(Object POOL 0, Try)] ∧
  plan_of length_hash (initialize config) (ForSubsystem POOL (Some "cd"%string)) = Ok [(Object POOL 0, Try)] ∧
  requests <$> run [Poll 0; Poll 1] (start (initialize config) [[(Object POOL 0, Try)]; [(Object POOL 0, Try)]]) =
    Some [Running [Object POOL 0]; Answered Aborted].
Proof. vm_compute. auto. Qed.

(** A global request does not exclude one for a nexus that is not global. *)
Lemma global_does_not_exclude :
  requests <$> run [Poll 0; Poll 0; Poll 1] (start (initialize config)
    [[(Global, Timeout); (Object NEXUS 1, Timeout)]; [(Object NEXUS 2, Timeout)]]) =
  Some [Running [Object NEXUS 1; Global]; Running [Object NEXUS 2]].
Proof. vm_compute. reflexivity. Qed.

Lemma engine_config_is_valid : engine_config (E := unit) = Ok [(POOL, 32); (NEXUS, 512); (REPLICA, 1024)].
Proof. reflexivity. Qed.

End LocksSample.
