(* ===== verification/Reactor.v ===== *)
(** * Reactors

    The loop of a reactor ([core/reactor.rs]) in poll and in interrupt mode, with
    what other cores do to it in between: futures sent, threads scheduled, events
    of its threads, and the request to shut down; and the monitor of the reactors.
    A reactor that sleeps has no work, and the monitor reports the reactors that
    do not answer. *)

From Stdlib Require Import Ascii String.
From S2P Require Import Prelude.

#[local] Open Scope Z_scope.

Module Reactor.

(** [ReactorState] *)
Inductive ReactorState := Init | Running | Shutdown | Delayed | Interrupt.

#[global] Instance ReactorState_eq_dec : EqDecision ReactorState.
Proof. solve_decision. Defined.

(** An SPDK thread: whether it has an fd group, whether that is nested into the one
    of the reactor, its mode, the events that wait for it, and whether it has exited *)
Record Thread := mkThread {
  tid : nat;
  has_fgrp : bool;
  nested : bool;
  in_interrupt : bool;
  events : nat;
  exited : bool;
}.

(** Where the loop of [poll_reactor] is *)
Inductive Pc :=
| Start                      (* before the loop *)
| Loop                       (* at the state *)
| Waiting                    (* in [wait_for_events] *)
| Receive                    (* in [receive_futures] *)
| RunFutures                 (* in [run_futures] *)
| PollThreads                (* the threads are polled *)
| AddIncoming (nest : bool) (failed : bool)   (* in [add_incoming] *)
| DestroyExited
| Exited                     (* the loop was left *)
| Panic.

#[global] Instance Pc_eq_dec : EqDecision Pc.
Proof. solve_decision. Defined.

(** A reactor: [rx] are the futures in its channel, [queue] those that can run and
    [done] those that ran; [eventfd] is the counter of [wakeup_fd].  [writing] is
    the number of senders that have not yet written to it, and [polling] is set
    while the loop goes on by polling. *)
Record Reactor := mkReactor {
  interrupt_enabled : bool;
  developer_delay : bool;
  flags : ReactorState;
  threads : list Thread;
  incoming : list Thread;
  rx : list nat;
  queue : list nat;
  done : list nat;
  eventfd : Z;
  writing : nat;
  polling : bool;
  pc : Pc;
}.

(** [Reactor::new] *)
Definition new (developer_delay interrupt_enabled : bool) : Reactor :=
  mkReactor interrupt_enabled developer_delay Init [] [] [] [] [] 0 0 false Start.

(** ** Updates *)

Definition set_flags (f : ReactorState) (r : Reactor) : Reactor :=
  mkReactor (interrupt_enabled r) (developer_delay r) f (threads r) (incoming r) (rx r) (queue r) (done r) (eventfd r) (writing r) (polling r) (pc r).
Definition set_threads (t : list Thread) (r : Reactor) : Reactor :=
  mkReactor (interrupt_enabled r) (developer_delay r) (flags r) t (incoming r) (rx r) (queue r) (done r) (eventfd r) (writing r) (polling r) (pc r).
Definition set_incoming (t : list Thread) (r : Reactor) : Reactor :=
  mkReactor (interrupt_enabled r) (developer_delay r) (flags r) (threads r) t (rx r) (queue r) (done r) (eventfd r) (writing r) (polling r) (pc r).
Definition set_futures (x q d : list nat) (r : Reactor) : Reactor :=
  mkReactor (interrupt_enabled r) (developer_delay r) (flags r) (threads r) (incoming r) x q d (eventfd r) (writing r) (polling r) (pc r).
Definition set_eventfd (e : Z) (n : nat) (r : Reactor) : Reactor :=
  mkReactor (interrupt_enabled r) (developer_delay r) (flags r) (threads r) (incoming r) (rx r) (queue r) (done r) e n (polling r) (pc r).
Definition goto (p : Pc) (r : Reactor) : Reactor :=
  mkReactor (interrupt_enabled r) (developer_delay r) (flags r) (threads r) (incoming r) (rx r) (queue r) (done r) (eventfd r) (writing r) (polling r) p.
Definition set_polling (b : bool) (r : Reactor) : Reactor :=
  mkReactor (interrupt_enabled r) (developer_delay r) (flags r) (threads r) (incoming r) (rx r) (queue r) (done r) (eventfd r) (writing r) b (pc r).

Definition set_nested (b : bool) (t : Thread) : Thread := mkThread (tid t) (has_fgrp t) b (in_interrupt t) (events t) (exited t).
Definition set_interrupt (b : bool) (t : Thread) : Thread := mkThread (tid t) (has_fgrp t) (nested t) b (events t) (exited t).
Definition set_events (n : nat) (t : Thread) : Thread := mkThread (tid t) (has_fgrp t) (nested t) (in_interrupt t) n (exited t).
Definition set_exited (t : Thread) : Thread := mkThread (tid t) (has_fgrp t) (nested t) (in_interrupt t) (events t) true.

(** ** Modes *)

(** [init_running] *)
Definition init_running (r : Reactor) : Reactor := set_flags (if developer_delay r then Delayed else Running) r.

(** The first phase of [enter_interrupt_mode]; [nest] tells for which threads
    nesting works.  When it fails the ones before are unnested. *)
Fixpoint nest_all (nest : nat → bool) (l : list Thread) : option (list Thread) :=
  match l with
  | [] => Some []
  | t :: l =>
      if has_fgrp t then
        if nest (tid t) then (set_nested true t ::.) <$> nest_all nest l else None
      else (t ::.) <$> nest_all nest l
  end.

(** [enter_interrupt_mode] *)
Definition enter_interrupt_mode (nest : nat → bool) (r : Reactor) : Reactor :=
  if negb (interrupt_enabled r) then r
  else match nest_all nest (threads r) with
  | None => r
  | Some l => set_flags Interrupt (set_threads (set_interrupt true <$> l) r)
  end.

(** [leave_interrupt_mode] *)
Definition leave_interrupt_mode (r : Reactor) : Reactor :=
  if negb (interrupt_enabled r) then r
  else set_flags Running (set_threads ((λ t, set_nested false (set_interrupt false t)) <$> threads r) r).

(** [exit_interrupt_mode] *)
Definition exit_interrupt_mode (r : Reactor) : Reactor := leave_interrupt_mode r.

(** ** What other cores do *)

(** [send_future] puts a future into the channel, and then writes to the eventfd,
    if there is one. *)
Definition send_future (f : nat) (r : Reactor) : Reactor :=
  set_eventfd (eventfd r) (S (writing r)) (set_futures (rx r ++ [f]) (queue r) (done r) r).

(** [Reactors::schedule] for a reactor of another core *)
Definition schedule (t : Thread) (r : Reactor) : Reactor :=
  set_eventfd (eventfd r) (S (writing r)) (set_incoming (incoming r ++ [t]) r).

(** The write of [send_future] and of [wake] *)
Definition wake (r : Reactor) : Reactor :=
  set_eventfd (if interrupt_enabled r then Z.min (2^64 - 2) (eventfd r + 1) else eventfd r) (pred (writing r)) r.

(** [Reactor::shutdown] *)
Definition shutdown (r : Reactor) : Reactor := set_flags Shutdown r.

(** ** The loop *)

(** What code on the core of the reactor does while a callback or a future runs: it
    wakes futures and creates threads, which are scheduled here. *)
Definition Effect : Type := list nat * list Thread.

Definition effect (e : Effect) (r : Reactor) : Reactor :=
  set_incoming (incoming r ++ e.2) (set_futures (rx r) (queue r ++ e.1) (done r) r).

Definition take_event (i : nat) (l : list Thread) : list Thread := alter (λ t, set_events (pred (events t)) t) i l.

(** The end of a round of [poll_once] or of the branch for the interrupt mode *)
Definition begin_incoming (r : Reactor) : Reactor := goto (AddIncoming (bool_decide (flags r = Interrupt) && interrupt_enabled r) false) r.

(** A step of the loop.  [nest] answers attempts to nest fd groups, [which] is the
    thread whose event is taken, if it is not the eventfd, and [e] what is done
    there. *)
Definition core_step (nest : nat → bool) (which : option nat) (e : Effect) (r : Reactor) : option Reactor :=
  match pc r with
  | Start => Some (goto Loop (enter_interrupt_mode nest (init_running r)))
  | Loop =>
      match flags r with
      | Running | Delayed => Some (set_polling true (goto Receive r))
      | Interrupt => Some (set_polling false (goto Waiting r))
      | Shutdown => Some (goto Exited (if interrupt_enabled r then exit_interrupt_mode r else r))
      | Init => Some (goto Panic r)
      end
  | Waiting =>
      if negb (interrupt_enabled r) then Some (goto Receive r)
      else match which with
      | None => if 0 <? eventfd r then Some (goto Receive (set_eventfd 0 (writing r) r)) else None
      | Some i =>
          match threads r !! i with
          | Some t => if nested t && (0 <? events t)%nat then Some (goto Receive (effect e (set_threads (take_event i (threads r)) r))) else None
          | None => None
          end
      end
  | Receive =>
      match rx r with
      | [] => Some (goto RunFutures r)
      | f :: l => Some (set_futures l (queue r ++ [f]) (done r) r)
      end
  | RunFutures =>
      match queue r with
      | [] => Some (if polling r then goto PollThreads r else begin_incoming r)
      | f :: l => Some (effect e (set_futures (rx r) l (done r ++ [f]) r))
      end
  | PollThreads =>
      match which with
      | None => Some (begin_incoming r)
      | Some i =>
          match threads r !! i with
          | Some t => if (0 <? events t)%nat then Some (effect e (set_threads (take_event i (threads r)) r)) else None
          | None => None
          end
      end
  | AddIncoming n failed =>
      match incoming r with
      | [] => Some (goto DestroyExited (if failed then leave_interrupt_mode r else r))
      | t :: l =>
          let r := set_incoming l r in
          if negb failed && n && has_fgrp t then
            if nest (tid t) then Some (set_threads (threads r ++ [set_nested true t]) r)
            else Some (goto (AddIncoming n true) (set_threads (threads r ++ [t]) r))
          else Some (set_threads (threads r ++ [t]) r)
      end
  | DestroyExited => Some (goto Loop (set_threads (List.filter (λ t, negb (exited t)) (threads r)) r))
  | Exited | Panic => None
  end.

(** What can happen to a reactor *)
Inductive Event :=
| Send (f : nat)
| Schedule (t : Thread)
| Wake
| Stop
| Arrive (i : nat)
| Exit (i : nat)
| Core (nest : nat → bool) (which : option nat) (e : Effect).

Definition step (ev : Event) (r : Reactor) : option Reactor :=
  match ev with
  | Send f => Some (send_future f r)
  | Schedule t => Some (schedule t r)
  | Wake => if (0 <? writing r)%nat then Some (wake r) else None
  | Stop => Some (shutdown r)
  | Arrive i => Some (set_threads (alter (λ t, set_events (S (events t)) t) i (threads r)) r)
  | Exit i => Some (set_threads (alter set_exited i (threads r)) r)
  | Core nest which e => core_step nest which e r
  end.

Fixpoint run (evs : list Event) (r : Reactor) : option Reactor :=
  match evs with [] => Some r | ev :: evs => step ev r ≫= run evs end.

(** ** The monitor *)

(** [REACTOR_HEARTBEAT_TIMEOUT] *)
Definition REACTOR_HEARTBEAT_TIMEOUT : Z := 3.

(** [ReactorRecord] with its counter, and the heartbeat futures it has not run *)
Record ReactorRecord := mkRecord { frozen : bool; reactor_tick : Z; unanswered : nat }.

Inductive Report := ReactorFreeze | ReactorUnfreeze.

(** The loop before the interval: a heartbeat is sent, or counted for a frozen
    reactor. *)
Definition heartbeat (x : ReactorRecord) : ReactorRecord :=
  if frozen x then mkRecord true (wrap64 (reactor_tick x + 1)) (unanswered x)
  else mkRecord false (reactor_tick x) (S (unanswered x)).

(** The reactor runs [n] of its heartbeats. *)
Definition answer (n : nat) (x : ReactorRecord) : ReactorRecord :=
  mkRecord (frozen x) (wrap64 (reactor_tick x + Z.of_nat (min n (unanswered x)))) (unanswered x - n)%nat.

(** The check after the interval *)
Definition check (timeout tick : Z) (x : ReactorRecord) : ReactorRecord * list Report :=
  let d := wrap64 (tick - reactor_tick x) in
  if frozen x then
    if d =? 0 then (mkRecord false (reactor_tick x) (unanswered x), [ReactorUnfreeze]) else (x, [])
  else
    if timeout <=? d then (mkRecord true (reactor_tick x) (unanswered x), [ReactorFreeze]) else (x, []).

(** A round of [reactor_monitor_loop] for a reactor that runs [n] heartbeats before
    the check *)
Definition round (timeout tick : Z) (n : nat) (x : ReactorRecord) : ReactorRecord * list Report :=
  check timeout tick (answer n (heartbeat x)).

Fixpoint monitor (timeout tick : Z) (ns : list nat) (x : ReactorRecord) : ReactorRecord * list Report :=
  match ns with
  | [] => (x, [])
  | n :: ns =>
      let tick := wrap64 (tick + 1) in
      let '(x, l) := round timeout tick n x in
      let '(x, l') := monitor timeout tick ns x in
      (x, l ++ l')
  end.

(** [reactor_monitor_loop] for one of the reactors *)
Definition reactor_monitor_loop (freeze_timeout : option Z) (ns : list nat) : ReactorRecord * list Report :=
  monitor (default REACTOR_HEARTBEAT_TIMEOUT freeze_timeout) 0 ns (mkRecord false 0 0).

End Reactor.

(** ** Theorems *)

Module ReactorProps.
Import Reactor.
Implicit Types (r : Reactor).

(** A write to the eventfd is there or on its way. *)
Definition signalled r : Prop := 0 < eventfd r ∨ (0 < writing r)%nat.

Definition all_nested (l : list Thread) : Prop := Forall (λ t, has_fgrp t = true → nested t = true) l.

(** The futures are looked at again before the reactor sleeps. *)
Definition before_receive (p : Pc) : bool := match p with Receive => true | _ => false end.
Definition before_incoming (p : Pc) : bool :=
  match p with Receive | RunFutures | PollThreads | AddIncoming _ _ => true | _ => false end.
Definition before_run (p : Pc) : bool := match p with Receive | RunFutures => true | _ => false end.
Definition not_polling (p : Pc) : bool := match p with Waiting | Start => true | _ => false end.
Definition falling_back (p : Pc) : bool := match p with AddIncoming _ true => true | _ => false end.

Record inv (sent : list nat) r : Prop := {
  inv_fd : 0 ≤ eventfd r;
  inv_mode : flags r = Interrupt → interrupt_enabled r = true ∧ pc r ≠ Start;
  inv_poll : pc r ≠ Start → polling r = true → flags r ≠ Interrupt;
  inv_threads_pc : pc r = PollThreads → polling r = true;
  inv_rx : interrupt_enabled r = true → before_receive (pc r) = false → rx r ≠ [] → signalled r;
  inv_incoming : interrupt_enabled r = true → before_incoming (pc r) = false → incoming r ≠ [] → signalled r;
  inv_queue : polling r = false → before_run (pc r) = false → queue r = [];
  inv_nested : flags r = Interrupt → falling_back (pc r) = false → all_nested (threads r);
  inv_adding : ∀ n f, pc r = AddIncoming n f → flags r = Interrupt → n = true;
  inv_sent : sent ⊆ rx r ++ queue r ++ done r;
  inv_waiting : not_polling (pc r) = true → polling r = false;
}.

Lemma alter_nested f i l : (∀ t, nested (f t) = nested t ∧ has_fgrp (f t) = has_fgrp t) → all_nested l → all_nested (alter f i l).
Proof.
  intros Hf H. unfold all_nested in *. rewrite Forall_lookup in *. intros j t Hj.
  destruct (decide (j = i)) as [->|Hne].
  - rewrite list_lookup_alter_eq in Hj. destruct (l !! i) as [t'|] eqn:E; cbn in Hj; simplify_eq.
    destruct (Hf t') as [-> ->]. by eapply H.
  - rewrite list_lookup_alter_ne in Hj by done. by eapply H.
Qed.

Lemma nest_all_nested nest l l' : nest_all nest l = Some l' → all_nested (set_interrupt true <$> l').
Proof.
  revert l'. induction l as [|t l IH]; intros l'; cbn; [intros [= <-]; constructor|].
  destruct (has_fgrp t) eqn:E; [destruct (nest (tid t)); [|done]|];
    destruct (nest_all nest l) as [l1|]; cbn; try done; intros [= <-]; apply Forall_cons; (split; [|by apply IH]); cbn; congruence.
Qed.

Lemma inv_new d i : inv [] (new d i).
Proof. by split; cbn; try done; intros; try lia. Qed.

(** What other cores do *)
Lemma inv_env ev sent r r' : inv sent r → step ev r = Some r' → (∀ n w e, ev ≠ Core n w e) →
  inv (sent ++ match ev with Send f => [f] | _ => [] end) r'.
Proof.
  intros [] Hs Hn. destruct ev as [f|t| | |i|i|n w e]; cbn in Hs; simplify_eq; rewrite ?app_nil_r.
  - split; cbn; auto; try (intros; right; cbn; lia). intros x. rewrite !elem_of_app, elem_of_cons, elem_of_nil.
    intros [Hx|[->|[]]]; [apply inv_sent0 in Hx; rewrite !elem_of_app in Hx|]; tauto.
  - split; cbn; auto; intros; right; cbn; lia.
  - destruct (writing r) eqn:E; [done|]. cbn in Hs. simplify_eq. unfold wake. split; cbn; auto.
    + destruct (interrupt_enabled r); lia.
    + intros Hi _ _. rewrite Hi. left. cbn. lia.
    + intros Hi _ _. rewrite Hi. left. cbn. lia.
  - split; cbn; auto; try done.
  - split; cbn; auto. intros. apply alter_nested; [done|auto].
  - split; cbn; auto. intros. apply alter_nested; [done|auto].
  - by destruct (Hn n w e).
Qed.

(** The parts of the invariant a step leaves alone *)
Ltac inv_step :=
  split; cbn in *; try (match goal with H : pc _ = _ |- _ => rewrite !H; cbn end); auto; try done; try congruence; try (intros ?; split; [tauto|done]).

Lemma incoming_inv nest n failed sent r r' w e : inv sent r → pc r = AddIncoming n failed → core_step nest w e r = Some r' → inv sent r'.
Proof.
  intros [] Hp. unfold core_step. rewrite Hp in *. destruct (incoming r) as [|t l] eqn:Hi.
  - intros [= <-]. destruct failed.
    + unfold leave_interrupt_mode. destruct (interrupt_enabled r) eqn:He; cbn [negb]; inv_step.
      all: intros Hf; by destruct (inv_mode0 Hf).
    + inv_step.
  - destruct (negb failed && n && has_fgrp t) eqn:E; [destruct (nest (tid t))|]; intros [= <-].
    + inv_step. intros Hf Hb. apply Forall_app. split; [by apply inv_nested0|by repeat constructor].
    + inv_step. intros n' f' [= <- _]. by apply (inv_adding0 n failed).
    + inv_step. intros Hf Hb. apply Forall_app. split; [by apply inv_nested0|]. apply Forall_singleton. intros Ht.
      rewrite (inv_adding0 n failed eq_refl Hf), Ht in E. by destruct failed.
Qed.

Lemma effect_inv sent r e : before_run (pc r) = true ∨ (pc r = PollThreads) → inv sent r → inv sent (effect e r).
Proof.
  intros Hp []. split; cbn; auto.
  - intros Hi Hb _. destruct Hp as [Hp|Hp]; destruct (pc r); done.
  - intros Hq Hb. destruct Hp as [Hp|Hp]; [congruence|]. rewrite inv_threads_pc0 in Hq; done.
  - intros x Hx. apply inv_sent0 in Hx. rewrite !elem_of_app in *. tauto.
Qed.

Lemma begin_incoming_inv sent r : pc r = RunFutures ∨ pc r = PollThreads → queue r = [] ∨ polling r = true → inv sent r → inv sent (begin_incoming r).
Proof.
  intros Hp Hq []. unfold begin_incoming. split; cbn; auto; try done.
  - intros Hf. split; [by apply inv_mode0|done].
  - intros _ Hpo. apply inv_poll0; [|done]. destruct Hp as [-> | ->]; done.
  - intros Hi _. apply inv_rx0; [done|]. destruct Hp as [-> | ->]; done.
  - intros Hpo _. destruct Hq as [?|?]; [done|congruence].
  - intros Hf _. apply inv_nested0; [done|]. destruct Hp as [-> | ->]; done.
  - intros n f [= <- _] Hf. rewrite bool_decide_eq_true_2 by done. by apply inv_mode0.
Qed.

Lemma inv_core nest w e sent r r' : inv sent r → core_step nest w e r = Some r' → inv sent r'.
Proof.
  intros H. unfold core_step. destruct (pc r) eqn:Hp.
  - intros [= <-]. destruct H. rewrite Hp in *. unfold enter_interrupt_mode, init_running. cbn [interrupt_enabled set_flags].
    assert (∀ f, f ≠ Interrupt → inv sent (goto Loop (set_flags f r))) as Hf.
    { intros f Hf. split; cbn in *; auto; try done. }
    destruct (interrupt_enabled r) eqn:Hi; cbn [negb]; [|apply Hf; by destruct (developer_delay r)].
    destruct (nest_all nest (threads _)) as [l|] eqn:Hn; [|apply Hf; by destruct (developer_delay r)].
    apply nest_all_nested in Hn. split; cbn in *; auto; try done; try (intros _; by rewrite inv_waiting0).
  - destruct H. rewrite Hp in *. destruct (flags r) eqn:Hf; intros [= <-].
    + inv_step.
    + inv_step.
    + unfold exit_interrupt_mode, leave_interrupt_mode. destruct (interrupt_enabled r) eqn:Hi; cbn [negb]; inv_step.
    + inv_step.
    + assert (polling r = false) as Hpo by (destruct (polling r); [by destruct inv_poll0|done]). inv_step.
  - destruct (interrupt_enabled r) eqn:Hi; cbn [negb].
    2: { intros [= <-]. destruct H. rewrite Hp in *. inv_step. }
    destruct w as [i|].
    + destruct (threads r !! i) as [t|]; [|done]. destruct (nested t && _); [|done]. intros [= <-].
      change (inv sent (effect e (goto Receive (set_threads (take_event i (threads r)) r)))).
      apply effect_inv; [by left|]. destruct H. rewrite Hp in *. inv_step. intros. apply alter_nested; [done|auto].
    + destruct (0 <? eventfd r); [|done]. intros [= <-]. destruct H. rewrite Hp in *. inv_step.
  - destruct (rx r) as [|f l] eqn:Hr; intros [= <-].
    + destruct H. rewrite Hp, Hr in *. inv_step. by rewrite Hr.
    + destruct H. rewrite Hp, Hr in *. inv_step. intros x Hx. apply inv_sent0 in Hx. rewrite elem_of_cons, !elem_of_app in Hx.
      rewrite !elem_of_app, elem_of_cons, elem_of_nil. tauto.
  - destruct (queue r) as [|f l] eqn:Hq; intros [= <-].
    + destruct (polling r) eqn:Hpo; [|by apply begin_incoming_inv; auto]. destruct H. rewrite Hp, Hpo in *. inv_step.
    + apply effect_inv; [left; cbn; by rewrite Hp|]. destruct H. rewrite Hp in *. inv_step.
      intros x Hx. apply inv_sent0 in Hx. rewrite Hq in Hx. rewrite !elem_of_app, elem_of_cons in Hx.
      rewrite !elem_of_app, elem_of_cons, elem_of_nil. tauto.
  - destruct w as [i|].
    + destruct (threads r !! i) as [t|]; [|done]. destruct (0 <? events t)%nat; [|done]. intros [= <-].
      apply effect_inv; [by right|]. destruct H. rewrite Hp in *. inv_step. intros. apply alter_nested; [done|auto].
    + intros [= <-]. apply begin_incoming_inv; [by right| |done]. right. by apply (inv_threads_pc _ _ H).
  - intros Hs. eapply (incoming_inv nest _ _ _ _ _ w e); [done|done|]. unfold core_step. by rewrite Hp.
  - intros [= <-]. destruct H. rewrite Hp in *. inv_step. intros Hf _. specialize (inv_nested0 Hf eq_refl).
    unfold all_nested in *. rewrite Forall_forall in *. intros t Ht. apply inv_nested0. apply list_elem_of_In, filter_In in Ht as [Ht _]. by apply list_elem_of_In.
  - done.
  - done.
Qed.

Definition sends (evs : list Event) : list nat := omap (λ ev, match ev with Send f => Some f | _ => None end) evs.

Lemma run_sends evs sent r r' : inv sent r → run evs r = Some r' → inv (sent ++ sends evs) r'.
Proof.
  revert sent r. induction evs as [|ev evs IH]; intros sent r H; cbn; [intros [= <-]; by rewrite app_nil_r|].
  destruct (step ev r) as [r1|] eqn:E; cbn; [|done]. intros Hr.
  assert (inv (sent ++ match ev with Send f => [f] | _ => [] end) r1) as H1.
  { assert ((∃ n w e, ev = Core n w e) ∨ ∀ n w e, ev ≠ Core n w e) as [(n & w & e & ->)|Hn]
      by (destruct ev; [right; intros; discriminate..|left; eauto]).
    - rewrite app_nil_r. by eapply inv_core.
    - by eapply inv_env. }
  specialize (IH _ _ H1 Hr). destruct ev; cbn; rewrite <- app_assoc in IH; done.
Qed.

(** C16. A reactor that sleeps has no work: whatever futures are sent to it, threads
    are scheduled on it, events its threads get and callbacks do, in any order with
    the steps of the loop, when it waits for events, none of which is there, and no
    sender is on its way to wake it, then its channel, its queue and its incoming
    threads are empty, every future that was sent has run, and each of its threads
    is nested, if it can be, without events. *)
Theorem sleeping_reactor_has_no_work delay interrupt evs r :
  run evs (new delay interrupt) = Some r → pc r = Waiting → flags r = Interrupt → writing r = 0%nat →
  (∀ nest which e, core_step nest which e r = None) →
  rx r = [] ∧ queue r = [] ∧ incoming r = [] ∧ (∀ f, f ∈ sends evs → f ∈ done r) ∧
  ∀ t, t ∈ threads r → has_fgrp t = true → nested t = true ∧ events t = 0%nat.
Proof.
  intros Hr Hp Hf Hw Hs. apply (run_sends _ []) in Hr; [|apply inv_new]. destruct Hr. cbn in *. rewrite Hp in *. cbn in *.
  destruct (inv_mode0 Hf) as [Hi _]. pose proof (Hs (λ _, true) None ([], [])) as H0. unfold core_step in H0. rewrite Hp, Hi in H0. cbn [negb] in H0.
  assert (¬ signalled r) as Hns by (unfold signalled; destruct (0 <? eventfd r) eqn:E; [done|]; lia).
  assert (rx r = []) as Hrx by (destruct (rx r); [done|]; destruct Hns; by apply inv_rx0).
  assert (queue r = []) as Hq by auto.
  split_and!; [done|done|destruct (incoming r); [done|]; destruct Hns; by apply inv_incoming0|..].
  - intros f Hin. apply inv_sent0 in Hin. by rewrite Hrx, Hq in Hin.
  - intros t Ht Hg. pose proof (inv_nested0 Hf eq_refl) as Hn. unfold all_nested in Hn. rewrite Forall_forall in Hn. specialize (Hn t Ht Hg).
    split; [done|]. apply list_elem_of_lookup in Ht as [i Ht]. specialize (Hs (λ _, true) (Some i) ([], [])). unfold core_step in Hs.
    rewrite Hp, Hi, Ht, Hn in Hs.
    by destruct (events t).
Qed.

(** ** The monitor *)

(** The monitor without counters: a reactor is frozen when it has [timeout] or more
    heartbeats to answer, until it has answered all of them; it gets no more of them
    in between. *)
Fixpoint watch (timeout : Z) (f : bool) (pending : nat) (ns : list nat) : bool * nat * list Report :=
  match ns with
  | [] => (f, pending, [])
  | n :: ns =>
      let p := ((if f then pending else S pending) - n)%nat in
      let f' := if f then (0 <? p)%nat else timeout <=? Z.of_nat p in
      let l := if eqb f f' then [] else [if f' then ReactorFreeze else ReactorUnfreeze] in
      let '(f, p, l') := watch timeout f' p ns in (f, p, l ++ l')
  end.

Lemma round_watch timeout tick n x : 0 ≤ reactor_tick x → reactor_tick x + Z.of_nat (unanswered x) = tick → tick + 1 < 2^64 →
  let p := ((if frozen x then unanswered x else S (unanswered x)) - n)%nat in
  let f' := if frozen x then (0 <? p)%nat else timeout <=? Z.of_nat p in
  round timeout (tick + 1) n x =
    (mkRecord f' (tick + 1 - Z.of_nat p) p, if eqb (frozen x) f' then [] else [if f' then ReactorFreeze else ReactorUnfreeze]).
Proof.
  intros H0 Ht Hb p f'. unfold round, check, answer, heartbeat. destruct x as [f rt u]. cbn [frozen reactor_tick unanswered] in *.
  assert (reactor_tick (answer n (heartbeat (mkRecord f rt u))) = tick + 1 - Z.of_nat p) as Hr.
  { unfold answer, heartbeat, p. destruct f; cbn; rewrite ?(wrap64_small (rt + 1)) by (unfold is_u64; lia); rewrite wrap64_small by (unfold is_u64; lia); lia. }
  unfold answer, heartbeat in Hr. destruct f; cbn [frozen reactor_tick unanswered] in *; rewrite Hr;
    (rewrite (wrap64_small (tick + 1 - (tick + 1 - Z.of_nat p))) by (unfold is_u64; lia));
    replace (tick + 1 - (tick + 1 - Z.of_nat p)) with (Z.of_nat p) by lia; fold p; unfold f'.
  - destruct (Z.eqb_spec (Z.of_nat p) 0) as [E|E].
    + assert (p = 0%nat) as -> by lia. done.
    + assert ((0 <? p)%nat = true) as -> by (apply Nat.ltb_lt; lia). done.
  - destruct (timeout <=? Z.of_nat p); done.
Qed.

Lemma monitor_watch timeout tick ns x : 0 ≤ reactor_tick x → reactor_tick x + Z.of_nat (unanswered x) = tick →
  tick + Z.of_nat (length ns) < 2^64 →
  let '(f, p, l) := watch timeout (frozen x) (unanswered x) ns in
  monitor timeout tick ns x = (mkRecord f (tick + Z.of_nat (length ns) - Z.of_nat p) p, l).
Proof.
  revert tick x. induction ns as [|n ns IH]; intros tick x H0 Ht Hb.
  - cbn in *. destruct x. cbn in *. do 2 f_equal. lia.
  - cbn [watch monitor length] in *. rewrite (wrap64_small (tick + 1)) by (unfold is_u64; lia). rewrite round_watch by lia. cbn zeta.
    set (p := ((if frozen x then unanswered x else S (unanswered x)) - n)%nat). set (f' := if frozen x then (0 <? p)%nat else timeout <=? Z.of_nat p).
    assert (Z.of_nat p ≤ tick + 1) by (unfold p; destruct (frozen x); lia).
    specialize (IH (tick + 1) (mkRecord f' (tick + 1 - Z.of_nat p) p)). cbn [reactor_tick unanswered frozen] in IH.
    destruct (watch timeout f' p ns) as [[f q] l]. rewrite IH by lia. do 2 f_equal. lia.
Qed.

(** The monitor of [reactor_monitor_loop] is the one without counters, for as long as
    the ticks fit 64 bits. *)
Lemma monitor_is_reference freeze_timeout ns : Z.of_nat (length ns) < 2^64 →
  let '(f, p, l) := watch (default REACTOR_HEARTBEAT_TIMEOUT freeze_timeout) false 0 ns in
  reactor_monitor_loop freeze_timeout ns = (mkRecord f (Z.of_nat (length ns) - Z.of_nat p) p, l).
Proof. intros H. exact (monitor_watch _ 0 ns (mkRecord false 0 0) (Z.le_refl 0) eq_refl H). Qed.

(** A reactor that answers within every interval is not reported. *)
Lemma lively_reactor_is_not_reported timeout ns : 1 ≤ timeout → Forall (λ n, (0 < n)%nat) ns → watch timeout false 0 ns = (false, 0%nat, []).
Proof.
  intros Ht. induction 1 as [|n ns Hn _ IH]; [done|]. cbn [watch]. assert ((1 - n)%nat = 0%nat) as -> by lia.
  assert (timeout <=? Z.of_nat 0 = false) as -> by (apply Z.leb_gt; lia). cbn. by rewrite IH.
Qed.

(** A reactor that answers nothing is reported, once. *)
Lemma silent_reactor_is_reported timeout k : 1 ≤ timeout → timeout ≤ Z.of_nat k →
  snd (watch timeout false 0 (replicate k 0%nat)) = [ReactorFreeze].
Proof.
  intros Ht. assert (∀ j p, (0 < p)%nat → snd (watch timeout true p (replicate j 0%nat)) = []) as Hf.
  { induction j as [|j IH]; intros p Hp; [done|]. cbn [replicate watch]. rewrite Nat.sub_0_r. assert ((0 <? p)%nat = true) as -> by (by apply Nat.ltb_lt).
    specialize (IH p Hp). destruct (watch timeout true p (replicate j 0%nat)) as [[? ?] ?]. by cbn in *. }
  assert (∀ j p, Z.of_nat p < timeout → timeout ≤ Z.of_nat (p + j) → snd (watch timeout false p (replicate j 0%nat)) = [ReactorFreeze]) as Hs.
  { induction j as [|j IH]; intros p Hp Hj; [lia|]. cbn [replicate watch]. rewrite Nat.sub_0_r. destruct (Z.leb_spec timeout (Z.of_nat (S p))).
    - specialize (Hf j (S p)). destruct (watch timeout true (S p) (replicate j 0%nat)) as [[? ?] ?]. cbn in *. by rewrite Hf by lia.
    - specialize (IH (S p)). destruct (watch timeout false (S p) (replicate j 0%nat)) as [[? ?] ?]. cbn in *. apply IH; lia. }
  intros Hk. apply (Hs k 0%nat); cbn; lia.
Qed.
End ReactorProps.

(** ** A reactor at work *)

Module ReactorSample.
Import Reactor ReactorProps.

Definition quiet : Event := Core (λ _, true) None ([], []).
Definition worker : Thread := mkThread 1 true false true 0 false.

(** A future and a thread arrive at a reactor in interrupt mode. *)
Definition busy : list Event :=
  [quiet; quiet; Send 7; Wake; quiet; Schedule worker; quiet; quiet; quiet; quiet; Wake; quiet; quiet; quiet; quiet; quiet; quiet;
   quiet; quiet; quiet; quiet].

Lemma sleeping_reactor_has_no_work_witness : ∃ r, run busy (new false true) = Some r ∧ rx r = [] ∧ queue r = [] ∧ incoming r = [] ∧
  7%nat ∈ done r ∧ threads r = [set_nested true worker].
Proof.
  destruct (run busy (new false true)) as [r|] eqn:E; [|exfalso; revert E; vm_compute; discriminate].
  exists r. split; [reflexivity|].
  assert (r = mkReactor true false Interrupt [set_nested true worker] [] [] [] [7%nat] 0 0 false Waiting) as Hr.
  { revert E. vm_compute. intros [= <-]. reflexivity. }
  destruct (sleeping_reactor_has_no_work false true busy r E) as (H1 & H2 & H3 & H4 & _).
  - by rewrite Hr.
  - by rewrite Hr.
  - by rewrite Hr.
  - intros nest which e. rewrite Hr. destruct which as [[|i]|]; reflexivity.
  - split; [exact H1|]. split; [exact H2|]. split; [exact H3|]. split; [|by rewrite Hr].
    apply H4. vm_compute. left.
Defined.

(** Nothing wakes a reactor that sleeps when it is to shut down. *)
Lemma shutdown_does_not_wake : ∃ r, run [quiet; quiet; Stop] (new false true) = Some r ∧ flags r = Shutdown ∧ writing r = 0%nat ∧
  ∀ nest which e, core_step nest which e r = None.
Proof. eexists. split; [vm_compute; reflexivity|]. split_and!; [done|done|]. intros nest [i|] e; [by destruct i|done]. Qed.

(** A request to shut down is lost when the reactor falls back to polling. *)
Lemma shutdown_is_lost : ∃ r, run [quiet; quiet; Schedule worker; Wake; quiet; quiet; quiet; Core (λ _, false) None ([], []); Stop; quiet; quiet; quiet]
    (new false true) = Some r ∧ flags r = Running ∧ pc r = Receive.
Proof. eexists. split; [vm_compute; reflexivity|]. done. Qed.

(** With a timeout of zero a reactor that answers is reported all the time. *)
Lemma zero_timeout_reports_lively_reactors : snd (reactor_monitor_loop (Some 0) [1%nat; 1%nat; 1%nat]) = [ReactorFreeze; ReactorUnfreeze; ReactorFreeze].
Proof. vm_compute. reflexivity. Qed.

End ReactorSample.
