(* ===== verification/SnapshotRebuild.v ===== *)
(** * Snapshot rebuilds

    Rebuild jobs between two bdevs ([rebuild/bdev_rebuild.rs]), and those from a
    snapshot to a replica ([rebuild/snapshot_rebuild.rs]) with the devices they
    create for remote ends, the list of jobs ([rebuild/rebuild_instances.rs]) and
    the service that creates and destroys them ([grpc/v1/snapshot_rebuild.rs]).
    Requests run side by side.  The devices a job has created are destroyed once it
    is gone, and devices of others are not. *)

From Stdlib Require Import Ascii String.
From S2P Require Import Prelude Errors NexusErrors SegmentMap RebuildCopy Rebuilders RebuildState.
Import Rebuild.

#[local] Open Scope Z_scope.

(** ** Rebuilds of bdevs *)

Module BdevRebuild.
Section Build.
Context {B : Type} `{!BitVec B}.

(** [BdevRebuildJobBuilder] *)
Record Builder := mkBuilder {
  range : option (Z * Z);
  options : RebuildJobOptions;
  rebuild_map : option (SegMap.SegmentMap B);
}.

Definition with_range (r : Z * Z) (b : Builder) : Builder := mkBuilder (Some r) (options b) (rebuild_map b).
Definition with_option (o : RebuildJobOptions) (b : Builder) : Builder := mkBuilder (range b) o (rebuild_map b).
Definition with_bitmap (m : SegMap.SegmentMap B) (b : Builder) : Builder := mkBuilder (range b) (options b) (Some m).

(** What a build finds: URIs, devices and handles as in [Desc.new], whether buffers
    can be allocated for the tasks, and the time *)
Record Env := mkEnv {
  bdev_get_name : string → outcome Bdev.Error string;
  device_open : string → bool → outcome CoreError Device;
  io_handle : string → outcome CoreError unit;
  tasks : outcome RebuildError unit;
  now : Z;
}.

(** [BdevRebuildJobBuilder::build]: the rebuilder of the job *)
Definition build (SEGMENT_SIZE : Z) (env : Env) (b : Builder) (src_uri dst_uri : string)
    : outcome RebuildError (Partial.PartialRebuild + Full.FullRebuild) :=
  d ← Desc.new SEGMENT_SIZE (bdev_get_name env) (device_open env) (io_handle env) src_uri dst_uri (range b) (options b) (now env);
  _ ← tasks env;
  match rebuild_map b with
  | Some m => _ ← Desc.validate_map d m; r ← Partial.new m; Ok (inl r)
  | None => r ← Full.new d; Ok (inr r)
  end.
End Build.
Arguments Builder : clear implicits.
End BdevRebuild.

Module SnapRebuild.

(** ** Devices *)

(** [device_create] and [device_destroy] for a URI, on the state of the devices, and
    the names of those there are *)
Class Devices := {
  dev : Type;
  names : dev → gset string;
  name_of : string → string;
  device_create : string → dev → dev * outcome Bdev.Error string;
  device_destroy : string → dev → dev * outcome Bdev.Error unit;
}.

(** [Uri] *)
Record Uri := mkUri { create : bool; delete : bool; uri : string }.

Definition uri_new (u : string) (create : bool) : Uri := mkUri create false u.

(** A bdev with a UUID: a logical volume, which may be a snapshot, or not *)
Inductive Local := Lvol (is_snapshot : bool) | NotLvol.

Section Jobs.
Context {B : Type} `{!BitVec B} {DV : Devices} (SEGMENT_SIZE : Z).

(** [SnapshotRebuildJobBuilder] *)
Record Builder := mkBuilder {
  bdev_builder : BdevRebuild.Builder B;
  b_uuid : option string;
  b_snapshot_uri : string;
  b_replica_uri : string;
  b_replica_uuid : string;
  b_snapshot_uuid : string;
}.

Definition with_snapshot_uuid (u : string) (b : Builder) : Builder :=
  mkBuilder (bdev_builder b) (b_uuid b) (b_snapshot_uri b) (b_replica_uri b) (b_replica_uuid b) u.
Definition with_replica_uuid (u : string) (b : Builder) : Builder :=
  mkBuilder (bdev_builder b) (match b_uuid b with None => Some u | x => x end) (b_snapshot_uri b) (b_replica_uri b) u (b_snapshot_uuid b).
Definition with_uuid (u : string) (b : Builder) : Builder :=
  mkBuilder (bdev_builder b) (Some u) (b_snapshot_uri b) (b_replica_uri b) (b_replica_uuid b) (b_snapshot_uuid b).
Definition with_replica_uri (u : string) (b : Builder) : Builder :=
  mkBuilder (bdev_builder b) (b_uuid b) (b_snapshot_uri b) u (b_replica_uuid b) (b_snapshot_uuid b).
Definition with_snapshot_uri (u : string) (b : Builder) : Builder :=
  mkBuilder (bdev_builder b) (b_uuid b) u (b_replica_uri b) (b_replica_uuid b) (b_snapshot_uuid b).

Definition with_option (o : RebuildJobOptions) (b : Builder) : Builder :=
  mkBuilder (BdevRebuild.with_option o (bdev_builder b)) (b_uuid b) (b_snapshot_uri b) (b_replica_uri b) (b_replica_uuid b) (b_snapshot_uuid b).
Definition with_bitmap (m : SegMap.SegmentMap B) (b : Builder) : Builder :=
  mkBuilder (BdevRebuild.with_bitmap m (bdev_builder b)) (b_uuid b) (b_snapshot_uri b) (b_replica_uri b) (b_replica_uuid b) (b_snapshot_uuid b).

(** [SnapshotRebuildJob::builder] *)
Definition builder : Builder :=
  with_option (mkOptions VerifyNone CurrentUnwrittenFail)
    (mkBuilder (BdevRebuild.mkBuilder None (mkOptions VerifyNone ReadNone) None) None "" "" "" "").

(** [SnapshotRebuildJob] *)
Record Job := mkJob {
  uuid : string;
  replica_uuid : string;
  snapshot_uuid : string;
  replica_uri : Uri;
  snapshot_uri : Uri;
}.

(** [CreateSnapshotRebuildRequest] *)
Record Request := mkRequest {
  req_uuid : string;
  req_replica_uuid : string;
  req_snapshot_uuid : string;
  req_replica_uri : string;
  req_snapshot_uri : string;
  bitmap : bool;
}.

(** The answer to a request *)
Inductive Answer := Replied | Listed (l : list string) | BitmapNotSupported | NoSuchJob | Errored (e : RebuildError).

(** Where a request is: the futures that are awaited in [build] and in the
    handlers.  Jobs that a handler holds go by number. *)
Inductive Flight :=
| OpenSnapshot (b : Builder) (snap rep : Uri)
| OpenReplica (b : Builder) (snap rep : Uri)
| CloseSnapshot (snap : Uri) (e : RebuildError)
| Building (b : Builder) (snap rep : Uri)
| CloseBoth (snap rep : Uri) (e : RebuildError)
| CloseReplica (rep : Uri) (e : RebuildError)
| Starting (id : nat)
| Reporting (id : nat)
| Listing (ids : list nat) (l : list string)
| Stopping (id : nat) (u : string)
| Answered (a : Answer).

(** The devices; bdevs with a UUID; the list of jobs, all jobs that are not dropped,
    the requests, the devices whose destruction was sent to the master reactor, and
    those whose destruction was logged as failed *)
Record World := mkWorld {
  devices : dev;
  locals : gmap string Local;
  instances : gmap string nat;
  jobs : gmap nat Job;
  flights : list Flight;
  pending : list string;
  failed : list string;
}.

Definition set_devices (d : dev) (w : World) : World := mkWorld d (locals w) (instances w) (jobs w) (flights w) (pending w) (failed w).
Definition set_flights (l : list Flight) (w : World) : World := mkWorld (devices w) (locals w) (instances w) (jobs w) l (pending w) (failed w).
Definition set_instances (m : gmap string nat) (w : World) : World := mkWorld (devices w) (locals w) m (jobs w) (flights w) (pending w) (failed w).
Definition set_jobs (m : gmap nat Job) (w : World) : World := mkWorld (devices w) (locals w) (instances w) m (flights w) (pending w) (failed w).
Definition set_pending (p : list string) (w : World) : World := mkWorld (devices w) (locals w) (instances w) (jobs w) (flights w) p (failed w).
Definition set_failed (p : list string) (w : World) : World := mkWorld (devices w) (locals w) (instances w) (jobs w) (flights w) (pending w) p.
Definition set_flight (i : nat) (f : Flight) (w : World) : World := set_flights (<[i := f]> (flights w)) w.

(** [Uri::open_create]; a run ends with a panic. *)
Definition open_create (u : Uri) (w : World) : option (World * (SnapshotRebuildError + Uri)) :=
  if create u then
    match device_create (uri u) (devices w) with
    | (d, Ok _) => Some (set_devices d w, inr (mkUri true true (uri u)))
    | (d, Err (Bdev.BdevExists _)) => Some (set_devices d w, inr (mkUri true false (uri u)))
    | (d, Err e) => Some (set_devices d w, inl (UriBdevOpen (uri u) e))
    | (_, Panicked) => None
    end
  else Some (w, inr u).

(** [Uri::destroy] *)
Definition destroy_uri (u : string) (w : World) : option World :=
  match device_destroy u (devices w) with
  | (d, Ok _) => Some (set_devices d w)
  | (d, Err _) => Some (set_failed (failed w ++ [u]) (set_devices d w))
  | (_, Panicked) => None
  end.

(** [Uri::close] *)
Definition close (u : Uri) (w : World) : option World := if delete u then destroy_uri (uri u) w else Some w.

(** [Drop for Uri] *)
Definition drop_uri (u : Uri) (w : World) : World := if delete u then set_pending (pending w ++ [uri u]) w else w.

(** The fields of a job are dropped in their order. *)
Definition drop_job (j : Job) (w : World) : World := drop_uri (snapshot_uri j) (drop_uri (replica_uri j) w).

(** ** Building *)

(** [lookup_lvol] *)
Definition lookup_lvol (w : World) (u : string) : RebuildError + bool :=
  match locals w !! u with
  | None => inl (SnapshotRebuild LocalBdevNotFound)
  | Some NotLvol => inl (SnapshotRebuild NotAReplica)
  | Some (Lvol s) => inr s
  end.

(** [SnapshotRebuildJobBuilder::snapshot_uri] and [replica_uri]: that the volume is a
    snapshot, or is not, makes no difference. *)
Definition find_uri (w : World) (u id : string) : RebuildError + Uri :=
  if negb (bool_decide (u = ""%string)) then inr (uri_new u true)
  else match lookup_lvol w id with
  | inl e => inl e
  | inr _ => inr (uri_new ("bdev:///" +:+ id) false)
  end.

(** The start of [build_uris] *)
Definition build_uris (w : World) (b : Builder) : RebuildError + Uri * Uri :=
  match find_uri w (b_snapshot_uri b) (b_snapshot_uuid b) with
  | inl e => inl e
  | inr snap =>
      match find_uri w (b_replica_uri b) (b_replica_uuid b) with
      | inl e => inl e
      | inr rep => inr (snap, rep)
      end
  end.

(** [store] of the list of jobs: a job that cannot be stored is dropped.  The handler
    then finds the one it has stored. *)
Definition store (i : nat) (j : Job) (w : World) : World :=
  match instances w !! uuid j with
  | Some _ => drop_job j (set_flight i (Answered (Errored (JobAlreadyExists (uri (replica_uri j))))) w)
  | None =>
      let id := fresh (dom (jobs w)) in
      set_flight i (Starting id) (set_instances (<[uuid j := id]> (instances w)) (set_jobs (<[id := j]> (jobs w)) w))
  end.

(** The jobs a request holds *)
Definition holds (f : Flight) : list nat :=
  match f with Starting id | Reporting id | Stopping id _ => [id] | Listing ids _ => ids | _ => [] end.

(** The references to jobs: from the list, and from requests *)
Definition references (w : World) : list nat := (map_to_list (instances w)).*2 ++ (flights w ≫= holds).

(** A reference to a job was dropped; the last one drops the job. *)
Definition release (id : nat) (w : World) : World :=
  if bool_decide (id ∈ references w) then w
  else match jobs w !! id with
  | Some j => drop_job j (set_jobs (base.delete id (jobs w)) w)
  | None => w
  end.

(** A request ends and gives up its job. *)
Definition finish (i : nat) (a : Answer) (id : nat) (w : World) : World := release id (set_flight i (Answered a) w).

(** [SnapshotRebuildJob::destroy]: the job is removed by its UUID, whichever job has it. *)
Definition remove (u : string) (w : World) : World :=
  match instances w !! u with
  | Some id => release id (set_instances (base.delete u (instances w)) w)
  | None => w
  end.

(** ** The service *)

(** [create_snapshot_rebuild], up to the first future that is awaited; the builder
    is given the UUID of the job before the one of the replica. *)
Definition create_snapshot_rebuild (r : Request) (w : World) : Flight :=
  if bitmap r then Answered BitmapNotSupported
  else match instances w !! req_uuid r with
  | Some id => Reporting id
  | None =>
      let b := with_snapshot_uri (req_snapshot_uri r) (with_replica_uri (req_replica_uri r)
                 (with_snapshot_uuid (req_snapshot_uuid r) (with_replica_uuid (req_replica_uuid r) (with_uuid (req_uuid r) builder)))) in
      match build_uris w b with
      | inr (snap, rep) => OpenSnapshot b snap rep
      | inl e => Answered (Errored e)
      end
  end.

(** [destroy_snapshot_rebuild], up to the end of the job *)
Definition destroy_snapshot_rebuild (u : string) (w : World) : Flight :=
  match instances w !! u with Some id => Stopping id u | None => Answered NoSuchJob end.

(** [list_snapshot_rebuild]: jobs are kept in no order. *)
Definition list_snapshot_rebuild (rep : option string) (w : World) : Flight :=
  match rep with
  | None => Listing (map_to_list (instances w)).*2 []
  | Some u =>
      match instances w !! u with
      | Some id => Listing [id] []
      | None => Answered (Errored (JobNotFound u))
      end
  end.

(** What a future that is awaited finds: the devices of the rebuild, how the job
    starts, and a new UUID *)
Record Outcome := mkOutcome { env : BdevRebuild.Env; started : option RebuildError; new_v4 : string }.

(** A request goes on. *)
Definition resume (o : Outcome) (i : nat) (f : Flight) (w : World) : option World :=
  match f with
  | OpenSnapshot b snap rep =>
      '(w, r) ← open_create snap w;
      Some match r with
      | inr snap => set_flight i (OpenReplica b snap rep) w
      | inl e => set_flight i (Answered (Errored (SnapshotRebuild e))) w
      end
  | OpenReplica b snap rep =>
      '(w, r) ← open_create rep w;
      Some match r with
      | inr rep => set_flight i (Building b snap rep) w
      | inl e => set_flight i (CloseSnapshot snap (SnapshotRebuild e)) w
      end
  | CloseSnapshot snap e => set_flight i (Answered (Errored e)) <$> close snap w
  | Building b snap rep =>
      match BdevRebuild.build SEGMENT_SIZE (env o) (bdev_builder b) (uri snap) (uri rep) with
      | Ok _ => Some (store i (mkJob (default (new_v4 o) (b_uuid b)) (b_replica_uuid b) (b_snapshot_uuid b) rep snap) w)
      | Err e => Some (set_flight i (CloseBoth snap rep e) w)
      | Panicked => None
      end
  | CloseBoth snap rep e => set_flight i (CloseReplica rep e) <$> close snap w
  | CloseReplica rep e => set_flight i (Answered (Errored e)) <$> close rep w
  | Starting id => Some (finish i (match started o with None => Replied | Some e => Errored e end) id w)
  | Reporting id => Some (finish i Replied id w)
  | Listing [] l => Some (set_flight i (Answered (Listed l)) w)
  | Listing (id :: ids) l =>
      let l := match jobs w !! id with Some j => l ++ [uuid j] | None => l end in
      Some (release id (set_flight i (Listing ids l) w))
  | Stopping id u => Some (finish i Replied id (remove u w))
  | Answered _ => Some w
  end.

(** What can happen: requests arrive and go on, and a device is destroyed on the
    master reactor. *)
Inductive Event := Create (r : Request) | Destroy (u : string) | List (u : option string) | Go (i : nat) (o : Outcome) | RunPending.

Definition step (w : World) (ev : Event) : option World :=
  match ev with
  | Create r => Some (set_flights (flights w ++ [create_snapshot_rebuild r w]) w)
  | Destroy u => Some (set_flights (flights w ++ [destroy_snapshot_rebuild u w]) w)
  | List u => Some (set_flights (flights w ++ [list_snapshot_rebuild u w]) w)
  | Go i o => match flights w !! i with Some f => resume o i f w | None => Some w end
  | RunPending => match pending w with [] => Some w | u :: l => destroy_uri u (set_pending l w) end
  end.

Definition run (evs : list Event) (w : World) : option World := foldl (λ r ev, w ← r; step w ev) (Some w) evs.

End Jobs.

(** ** Answers *)

Inductive RebuildStatus := StCreated | StRunning | StPaused | StSuccessful | StFailed.

Definition status_of (s : RS.RebuildState) : RebuildStatus :=
  match s with
  | RS.Init => StCreated | RS.Running => StRunning | RS.Stopped => StFailed
  | RS.Paused => StPaused | RS.Failed => StFailed | RS.Completed => StSuccessful
  end.

(** [From<RebuildError> for tonic::Status] *)
Definition code_of (e : RebuildError) : Code :=
  match e with
  | JobAlreadyExists _ => AlreadyExists
  | NoCopyBuffer _ => Internal
  | InvalidSrcDstRange | InvalidMapRange => OutOfRange
  | SameBdev _ => InvalidArgument
  | NoBdevHandle _ _ | BdevNotFound _ _ => FailedPrecondition
  | JobNotFound _ => NotFound
  | BdevInvalidUri _ _ => InvalidArgument
  | RebuildTasksChannel _ => ResourceExhausted
  | SnapshotRebuild LocalBdevNotFound => NotFound
  | SnapshotRebuild RemoteNoUri => Internal
  | SnapshotRebuild NotAReplica => InvalidArgument
  | SnapshotRebuild (UriBdevOpen _ _) => NotFound
  | _ => Internal
  end.

(** [From<SnapRebuild> for SnapshotRebuild]: sizes in bytes, as [u64] *)
Record Reply := mkReply {
  r_uuid : string; r_replica_uuid : string; r_snapshot_uuid : string; r_replica_uri : string; r_snapshot_uri : string;
  status : RebuildStatus; total : Z; rebuilt : Z; remaining : Z;
  persisted_checkpoint : Z; start_timestamp : Z; end_timestamp : option Z; target_remote : bool;
}.

Definition reply_of (j : Job) (s : RS.RebuildState) (t : RS.RebuildStats) : Reply :=
  mkReply (uuid j) (replica_uuid j) (snapshot_uuid j) (uri (replica_uri j)) (uri (snapshot_uri j)) (status_of s)
    (wrap64 (RS.blocks_total t * RS.block_size t)) (wrap64 (RS.blocks_transferred t * RS.block_size t)) (wrap64 (RS.blocks_remaining t * RS.block_size t))
    0 (RS.start_time t) (RS.end_time t) false.

End SnapRebuild.
