(* ===== verification/SnapshotRebuildProps.v ===== *)
(** * Snapshot rebuilds: what becomes of the devices

    Whatever the order in which requests for snapshot rebuilds go on, a device that was
    there before them stays, a device they have made has one owner, and when all jobs
    are gone so are the devices, but for those that could not be destroyed. *)

From Stdlib Require Import Ascii String.
From S2P Require Import Prelude Wp Errors SegmentMap RebuildCopy Rebuilders BdevUri BdevDevice BdevUriProps BdevUriSample SnapshotRebuild.
Import Rebuild.

Module SnapRebuildProps.
Import SnapRebuild.

(** What the service relies on, for the URIs that stand for a device of their own: a
    [bdev:///] URI is an alias, and one that asks for a resize takes an existing device.
    A destruction that fails may have gone through. *)
Class DeviceLaws {DV : Devices} (own : string → Prop) := {
  create_ok u d d' n : own u → device_create u d = (d', Ok n) → name_of u ∉ names d ∧ names d' = {[name_of u]} ∪ names d;
  create_err u d d' e : own u → device_create u d = (d', Err e) → names d' = names d;
  destroy_ok u d d' : own u → name_of u ∈ names d → device_destroy u d = (d', Ok tt) → names d' = names d ∖ {[name_of u]};
  destroy_err u d d' e : own u → name_of u ∈ names d → device_destroy u d = (d', Err e) →
    names d' = names d ∨ names d' = names d ∖ {[name_of u]};
}.

(** ** Lists *)

Section Lists.
Context {A C : Type} (g : A → list C).

Lemma bind_insert_perm l i x y : l !! i = Some x → (<[i := y]> l ≫= g) ++ g x ≡ₚ (l ≫= g) ++ g y.
Proof.
  intros Hi. rewrite <- (take_drop_middle l i x Hi) at 2. rewrite (insert_take_drop l i y) by (by eapply lookup_lt_Some).
  rewrite !bind_app, !bind_cons. solve_Permutation.
Qed.

Lemma bind_snoc l x : ((l ++ [x]) ≫= g) = (l ≫= g) ++ g x.
Proof. rewrite bind_app. cbn. by rewrite app_nil_r. Qed.

Lemma perm_frame_l (x x' a b r : list C) : x' ++ a ≡ₚ x ++ b → (x' ++ r) ++ a ≡ₚ (x ++ r) ++ b.
Proof. intros H. trans ((x' ++ a) ++ r); [solve_Permutation|rewrite H; solve_Permutation]. Qed.
End Lists.

(** ** Owners *)

Section Owners.
Context {B : Type} `{!BitVec B} {DV : Devices} (own : string → Prop) {DL : DeviceLaws own} (SEGMENT_SIZE : Z).
Implicit Types (w : @World B DV) (f : @Flight B).

Definition owned (u : Uri) : list string := if delete u then [uri u] else [].

Lemma owned_none u : delete u = false → owned u = [].
Proof. unfold owned. by intros ->. Qed.

Definition flight_uris f : list Uri :=
  match f with
  | OpenSnapshot _ s r | OpenReplica _ s r | Building _ s r | CloseBoth s r _ => [s; r]
  | CloseSnapshot u _ | CloseReplica u _ => [u]
  | _ => []
  end.

Definition flight_owns f : list string := flight_uris f ≫= owned.
Definition job_owns (j : Job) : list string := owned (snapshot_uri j) ++ owned (replica_uri j).

(** The URIs whose devices are to be destroyed, by whom they are kept *)
Definition owners w : list string := (flights w ≫= flight_owns) ++ ((map_to_list (jobs w)).*2 ≫= job_owns) ++ pending w.

(** The devices are those there were, [base], the ones named in [l], and maybe some
    of [x]. *)
Record held (base : gset string) (d : dev) (l x : list string) : Prop := {
  held_there : base ∪ list_to_set l ⊆ names d;
  held_names : names d ⊆ base ∪ list_to_set l ∪ list_to_set x;
  held_once : NoDup l;
  held_new : Forall (.∉ base) l;
}.

Lemma held_perm base d l l' x : l ≡ₚ l' → held base d l x → held base d l' x.
Proof.
  intros E [H1 H2 H3 H4]. assert (list_to_set l = list_to_set (C := gset string) l') as El by (by apply leibniz_equiv, list_to_set_perm).
  rewrite El in H1, H2. by split; [..|rewrite <- E|rewrite <- E].
Qed.

Lemma held_create base d d' n l x : n ∉ names d → names d' = {[n]} ∪ names d → held base d l x → held base d' (n :: l) x.
Proof. intros Hn E [H1 H2 H3 H4]. split; cbn; [set_solver|set_solver|constructor; set_solver|constructor; set_solver]. Qed.

Lemma held_destroy base d d' n l x : names d' = names d ∖ {[n]} → held base d (n :: l) x → held base d' l x.
Proof.
  intros E [H1 H2 H3 H4]. apply NoDup_cons in H3 as [? ?]. apply Forall_cons in H4 as [? ?].
  cbn in *. split; [set_solver|set_solver|done|done].
Qed.

Lemma held_give_up base d n l x : held base d (n :: l) x → held base d l (x ++ [n]).
Proof.
  intros [H1 H2 H3 H4]. apply NoDup_cons in H3 as [? ?]. apply Forall_cons in H4 as [? ?].
  split; [cbn in *; set_solver| |done|done]. rewrite list_to_set_app_L. cbn in *. set_solver.
Qed.

Lemma held_unchanged base d d' l x : names d' = names d → held base d l x → held base d' l x.
Proof. intros E [H1 H2 H3 H4]. by split; rewrite ?E. Qed.

Lemma held_more base d n l x : held base d l x → held base d l (x ++ [n]).
Proof. intros [H1 H2 H3 H4]. split; [done| |done|done]. rewrite list_to_set_app_L. set_solver. Qed.

(** ** How steps move what is owned *)

Lemma owners_flight i f f' w : flights w !! i = Some f → owners (set_flight i f' w) ++ flight_owns f ≡ₚ owners w ++ flight_owns f'.
Proof. intros Hi. apply perm_frame_l, (bind_insert_perm flight_owns _ _ _ f' Hi). Qed.

Lemma owners_drop_uri u w : owners (drop_uri u w) ≡ₚ owners w ++ owned u.
Proof. unfold owners, drop_uri, owned. destruct (delete u); cbn; [solve_Permutation|by rewrite app_nil_r]. Qed.

Lemma owners_drop_job j w : owners (drop_job j w) ≡ₚ owners w ++ job_owns j.
Proof. unfold drop_job, job_owns. rewrite !owners_drop_uri. solve_Permutation. Qed.

Lemma owners_new_job id j w : jobs w !! id = None → owners (set_jobs (<[id := j]> (jobs w)) w) ≡ₚ owners w ++ job_owns j.
Proof. intros H. unfold owners. cbn. rewrite (map_to_list_insert _ _ _ H). cbn. solve_Permutation. Qed.

Lemma owners_del_job id j w : jobs w !! id = Some j → owners w ≡ₚ owners (set_jobs (base.delete id (jobs w)) w) ++ job_owns j.
Proof. intros H. unfold owners. cbn. rewrite <- (map_to_list_delete _ _ _ H). cbn. solve_Permutation. Qed.

Lemma owners_release id w : owners (release id w) ≡ₚ owners w.
Proof.
  unfold release. case_bool_decide; [done|]. destruct (jobs w !! id) eqn:Hj; [|done].
  by rewrite owners_drop_job, <- (owners_del_job _ _ _ Hj).
Qed.

Lemma owners_remove u w : owners (remove u w) ≡ₚ owners w.
Proof. unfold remove. destruct (instances w !! u); [by rewrite owners_release|done]. Qed.

(** ** References to jobs *)

(** Jobs are kept for as long as there are references, or one of [l]. *)
Definition counted w (l : list nat) : Prop := ∀ id, is_Some (jobs w !! id) ↔ id ∈ references w ++ l.

Lemma references_flight i f f' w : flights w !! i = Some f → references (set_flight i f' w) ++ holds f ≡ₚ references w ++ holds f'.
Proof. intros Hi. unfold references. cbn. rewrite <- !app_assoc. by rewrite (bind_insert_perm holds _ _ _ f' Hi). Qed.

Lemma drop_job_same j w : references (drop_job j w) = references w ∧ jobs (drop_job j w) = jobs w.
Proof. unfold drop_job, drop_uri. by destruct (delete (snapshot_uri j)), (delete (replica_uri j)). Qed.

Lemma counted_perm w w' l l' : jobs w' = jobs w → references w' ++ l' ≡ₚ references w ++ l → counted w l → counted w' l'.
Proof. intros E P H id. rewrite E, P. apply H. Qed.

Lemma counted_release id w : counted w [id] → counted (release id w) [].
Proof.
  intros H id'. specialize (H id'). unfold release. rewrite elem_of_app, list_elem_of_singleton in H. rewrite app_nil_r.
  case_bool_decide as Hr; [destruct (decide (id' = id)) as [->|]; tauto|].
  destruct (jobs w !! id) as [j|] eqn:Hj.
  - destruct (drop_job_same j (set_jobs (base.delete id (jobs w)) w)) as [-> ->]. cbn. change (references (set_jobs _ w)) with (references w).
    destruct (decide (id' = id)) as [->|]; [rewrite lookup_delete_eq; split; [by intros []|done]|rewrite lookup_delete_ne by done; tauto].
  - destruct (decide (id' = id)) as [->|]; [|tauto]. rewrite Hj. split; [by intros []|done].
Qed.

(** ** The invariant *)

Definition flight_ok f : Prop :=
  Forall (λ u, create u = true → own (uri u)) (flight_uris f) ∧
  match f with
  | OpenSnapshot _ s r => delete s = false ∧ delete r = false
  | OpenReplica _ _ r => delete r = false
  | _ => True
  end.

Record inv (base : gset string) w : Prop := {
  inv_held : held base (devices w) (name_of <$> owners w) (name_of <$> failed w);
  inv_own : Forall own (owners w);
  inv_flights : Forall flight_ok (flights w);
  inv_counted : counted w [];
}.

(** A step that creates and destroys nothing *)
Lemma inv_moved base w w' :
  devices w' = devices w → failed w' = failed w → owners w' ≡ₚ owners w → Forall flight_ok (flights w') → counted w' [] →
  inv base w → inv base w'.
Proof.
  intros Ed Ef Eo Hf Hc [H1 H2 _ _]. split; [|by rewrite Eo|done|done].
  rewrite Ed, Ef. revert H1. apply held_perm. by rewrite Eo.
Qed.

Lemma open_create_held base u w w' r L x :
  delete u = false → (create u = true → own (uri u)) → open_create u w = Some (w', r) →
  held base (devices w) (name_of <$> L) x →
  ∃ d, w' = set_devices d w ∧
    match r with
    | inr u' => create u' = create u ∧ uri u' = uri u ∧ Forall own (owned u') ∧ held base d (name_of <$> owned u' ++ L) x
    | inl _ => held base d (name_of <$> L) x
    end.
Proof.
  intros Hd Ho. unfold open_create. destruct (create u) eqn:Hc.
  - destruct (device_create (uri u) (devices w)) as [d [n|e|]] eqn:E; [| |done].
    + intros [= <- <-] H. exists d. split; [done|]. cbn. specialize (Ho eq_refl).
      destruct (create_ok _ _ _ _ Ho E) as [Hn E']. split_and!; [done|done|by constructor|by eapply held_create].
    + intros H Hh. pose proof (held_unchanged base (devices w) d (name_of <$> L) x (create_err _ _ _ _ (Ho eq_refl) E) Hh) as Hh'.
      destruct e; injection H as <- <-; exists d; (split; [done|]); first [exact Hh' | split_and!; [done|done|constructor|exact Hh']].
  - intros [= <- <-] H. exists (devices w). split; [by destruct w|]. unfold owned. rewrite Hd. by split_and!.
Qed.

Lemma destroy_held base u w w' L :
  own u → destroy_uri u w = Some w' → held base (devices w) (name_of <$> u :: L) (name_of <$> failed w) →
  ∃ d x, w' = set_failed x (set_devices d w) ∧ held base d (name_of <$> L) (name_of <$> x).
Proof.
  intros Ho. unfold destroy_uri. destruct (device_destroy u (devices w)) as [d [[]|e|]] eqn:E; [| |done]; intros [= <-] H.
  all: assert (name_of u ∈ names (devices w)) as Hin by (pose proof (held_there _ _ _ _ H); cbn in *; set_solver).
  - exists d, (failed w). split; [done|]. eapply held_destroy; [by eapply destroy_ok|exact H].
  - exists d, (failed w ++ [u]). split; [done|]. rewrite fmap_app. destruct (destroy_err _ _ _ _ Ho Hin E) as [E'|E'].
    + eapply held_give_up, held_unchanged; [exact E'|exact H].
    + eapply held_more, held_destroy; [exact E'|exact H].
Qed.

Lemma close_held base u w w' L :
  Forall own (owned u) → close u w = Some w' → held base (devices w) (name_of <$> owned u ++ L) (name_of <$> failed w) →
  ∃ d x, w' = set_failed x (set_devices d w) ∧ held base d (name_of <$> L) (name_of <$> x).
Proof.
  unfold close, owned. destruct (delete u); [intros [Ho _]%Forall_cons; by apply destroy_held|].
  intros _ [= <-] H. exists (devices w), (failed w). split; [by destruct w|done].
Qed.

(** ** Steps keep it *)

Lemma release_same id w :
  devices (release id w) = devices w ∧ failed (release id w) = failed w ∧ flights (release id w) = flights w.
Proof.
  unfold release. case_bool_decide; [done|]. destruct (jobs w !! id) as [j|]; [|done].
  unfold drop_job, drop_uri. by destruct (delete (snapshot_uri j)), (delete (replica_uri j)).
Qed.

Lemma flights_ok_insert i f w : flight_ok f → Forall flight_ok (flights w) → Forall flight_ok (flights (set_flight i f w)).
Proof. intros. by apply Forall_insert. Qed.

Lemma no_uris_ok f : flight_uris f = [] → flight_ok f.
Proof. intros E. split; [by rewrite E|]. by destruct f. Qed.

(** A request without devices goes on and gives up a job. *)
Lemma inv_release base i f f' id w :
  flights w !! i = Some f → flight_uris f = [] → flight_uris f' = [] → holds f ≡ₚ id :: holds f' →
  inv base w → inv base (release id (set_flight i f' w)).
Proof.
  intros Hi E E' Hh H. destruct (release_same id (set_flight i f' w)) as (H1 & H2 & H3).
  assert (flight_owns f = [] ∧ flight_owns f' = []) as [F F'] by (unfold flight_owns; by rewrite E, E').
  apply (inv_moved base w); [exact H1|exact H2| | | |exact H].
  - rewrite owners_release. pose proof (owners_flight i f f' w Hi) as P. by rewrite F, F', !app_nil_r in P.
  - rewrite H3. apply flights_ok_insert; [by apply no_uris_ok|apply H].
  - apply counted_release. apply (counted_perm w _ []); [done| |apply H].
    pose proof (references_flight i f f' w Hi) as P. rewrite Hh in P. rewrite app_nil_r.
    apply (Permutation_app_inv_r (holds f')). rewrite <- P. solve_Permutation.
Qed.

Lemma remove_keeps_devices base u w : inv base w → inv base (remove u w).
Proof.
  intros H. pose proof (owners_remove u w) as P. unfold remove in *. destruct (instances w !! u) as [id|] eqn:Hu; [|done].
  destruct (release_same id (set_instances (base.delete u (instances w)) w)) as (H1 & H2 & H3).
  apply (inv_moved base w); [exact H1|exact H2|exact P|rewrite H3; apply H| |exact H].
  apply counted_release. apply (counted_perm w _ []); [done| |apply H].
  unfold references. cbn. rewrite <- (map_to_list_delete _ _ _ Hu). cbn. solve_Permutation.
Qed.

(** A request that has given up no device goes on. *)
Lemma inv_goes_on base i f f' w :
  flights w !! i = Some f → flight_ok f' → flight_owns f' ≡ₚ flight_owns f → holds f' ≡ₚ holds f →
  inv base w → inv base (set_flight i f' w).
Proof.
  intros Hi Hok Ho Hh H. apply (inv_moved base w); [done|done| | | |exact H].
  - apply (Permutation_app_inv_r (flight_owns f)). rewrite (owners_flight _ _ _ _ Hi). by rewrite Ho.
  - by apply flights_ok_insert, H.
  - apply (counted_perm w _ []); [done| |apply H]. rewrite !app_nil_r.
    apply (Permutation_app_inv_r (holds f)). rewrite (references_flight _ _ _ _ Hi). by rewrite Hh.
Qed.

(** A request has opened the device of one of its URIs. *)
Lemma inv_opened base i f f' u' d w :
  flights w !! i = Some f → flight_ok f' → flight_owns f' ≡ₚ owned u' ++ flight_owns f → holds f' = holds f →
  Forall own (owned u') → held base d (name_of <$> owned u' ++ owners w) (name_of <$> failed w) →
  inv base w → inv base (set_flight i f' (set_devices d w)).
Proof.
  intros Hi Hok Ho Hh Hown Hd H.
  assert (owners (set_flight i f' (set_devices d w)) ≡ₚ owned u' ++ owners w) as P.
  { apply (Permutation_app_inv_r (flight_owns f)). change (owners (set_flight i f' (set_devices d w))) with (owners (set_flight i f' w)).
    rewrite (owners_flight _ _ _ _ Hi), Ho. solve_Permutation. }
  split.
  - revert Hd. apply held_perm. by rewrite P.
  - rewrite P. apply Forall_app. split; [done|apply H].
  - by apply flights_ok_insert, H.
  - apply (counted_perm w _ []); [done| |apply H]. rewrite !app_nil_r.
    apply (Permutation_app_inv_r (holds f)). change (references (set_flight i f' (set_devices d w))) with (references (set_flight i f' w)).
    rewrite (references_flight _ _ _ _ Hi). by rewrite Hh.
Qed.

(** A request closes one of its URIs. *)
Lemma inv_closed base i f f' u w w1 :
  flights w !! i = Some f → flight_ok f' → flight_owns f ≡ₚ owned u ++ flight_owns f' → holds f' = holds f →
  close u w = Some w1 → inv base w → inv base (set_flight i f' w1).
Proof.
  intros Hi Hok Ho Hh Hcl H.
  assert (owners w ≡ₚ owned u ++ owners (set_flight i f' w)) as P.
  { apply (Permutation_app_inv_r (flight_owns f')). rewrite <- (owners_flight _ _ _ _ Hi), Ho. solve_Permutation. }
  pose proof (inv_own _ _ H) as Hown. rewrite P in Hown. apply Forall_app in Hown as [Hu Hown].
  destruct (close_held base u w w1 (owners (set_flight i f' w)) Hu Hcl) as (d & x & -> & Hd).
  { generalize (inv_held _ _ H). apply held_perm. by rewrite P. }
  split; [exact Hd|exact Hown|by apply (flights_ok_insert i f' w), H|].
  apply (counted_perm w _ []); [done| |apply H]. rewrite !app_nil_r.
  apply (Permutation_app_inv_r (holds f)). change (references (set_flight i f' _)) with (references (set_flight i f' w)).
  rewrite (references_flight _ _ _ _ Hi). by rewrite Hh.
Qed.

(** A job is stored, or dropped. *)
Lemma inv_store base i b snap rep x w :
  let j := mkJob x (b_replica_uuid b) (b_snapshot_uuid b) rep snap in
  flights w !! i = Some (Building b snap rep) → inv base w → inv base (store i j w).
Proof.
  intros j Hi H. unfold store.
  assert (flight_owns (Building b snap rep) = job_owns j) as E by (unfold flight_owns, job_owns; cbn; by rewrite app_nil_r).
  destruct (instances w !! uuid j) eqn:Hu.
  - set (f' := Answered _). destruct (drop_job_same j (set_flight i f' w)) as [Er Ej].
    apply (inv_moved base w); [| | | | |exact H].
    1,2: unfold drop_job, drop_uri; by destruct (delete (snapshot_uri j)), (delete (replica_uri j)).
    + rewrite owners_drop_job, <- E, (owners_flight _ _ f' _ Hi). cbn. by rewrite app_nil_r.
    + assert (flights (drop_job j (set_flight i f' w)) = flights (set_flight i f' w)) as ->
        by (unfold drop_job, drop_uri; by destruct (delete (snapshot_uri j)), (delete (replica_uri j))).
      by apply flights_ok_insert; [apply no_uris_ok|apply H].
    + apply (counted_perm w _ []); [exact Ej| |apply H]. rewrite Er, !app_nil_r.
      pose proof (references_flight _ _ f' _ Hi) as P. cbn in P. by rewrite !app_nil_r in P.
  - set (id := fresh _). assert (jobs w !! id = None) as Hid by (apply not_elem_of_dom, is_fresh).
    set (w1 := set_instances _ _). apply (inv_moved base w); [done|done| | | |exact H].
    + apply (Permutation_app_inv_r (flight_owns (Building b snap rep))). rewrite (owners_flight i _ (Starting id) w1 Hi), E.
      change (owners w1) with (owners (set_jobs (<[id := j]> (jobs w)) w)). rewrite (owners_new_job _ _ _ Hid). cbn. by rewrite app_nil_r.
    + by apply (flights_ok_insert i (Starting id) w); [apply no_uris_ok|apply H].
    + intros id'. pose proof (references_flight i _ (Starting id) w1 Hi) as P. cbn [holds] in P. rewrite app_nil_r in P. rewrite app_nil_r, P.
      unfold references, w1. cbn [instances flights jobs set_instances set_jobs set_flight set_flights].
      rewrite (map_to_list_insert _ _ _ Hu), fmap_cons. cbn [snd app].
      pose proof (inv_counted _ _ H id') as Hc. rewrite app_nil_r in Hc. unfold references in Hc.
      rewrite elem_of_cons, elem_of_app, list_elem_of_singleton.
      destruct (decide (id' = id)) as [->|]; [rewrite lookup_insert_eq; split; [by left|done]|rewrite lookup_insert_ne by done; tauto].
Qed.

(** Requests arrive with URIs of their own, or none. *)
Definition event_ok (ev : Event) : Prop :=
  match ev with
  | Create r => (req_replica_uri r ≠ ""%string → own (req_replica_uri r)) ∧ (req_snapshot_uri r ≠ ""%string → own (req_snapshot_uri r))
  | _ => True
  end.

Lemma find_uri_ok w u x v : (u ≠ ""%string → own u) → find_uri w u x = inr v → delete v = false ∧ (create v = true → own (uri v)).
Proof.
  intros H. unfold find_uri. case_bool_decide; cbn; [destruct (lookup_lvol w x); [done|]|]; intros [= <-]; cbn; split; auto; done.
Qed.

Lemma create_ok_flight r w : event_ok (Create r) → flight_ok (create_snapshot_rebuild r w) ∧ flight_owns (create_snapshot_rebuild r w) = [].
Proof.
  intros [Hr Hs]. unfold create_snapshot_rebuild. destruct (bitmap r); [split; [by apply no_uris_ok|done]|].
  destruct (instances w !! req_uuid r); [split; [by apply no_uris_ok|done]|].
  unfold build_uris. cbn [b_snapshot_uri b_replica_uri b_snapshot_uuid b_replica_uuid with_snapshot_uri with_replica_uri with_snapshot_uuid with_replica_uuid].
  destruct (find_uri w (req_snapshot_uri r) _) as [|s] eqn:E1; [split; [by apply no_uris_ok|done]|].
  destruct (find_uri w (req_replica_uri r) _) as [|p] eqn:E2; [split; [by apply no_uris_ok|done]|].
  destruct (find_uri_ok _ _ _ _ Hs E1) as [D1 O1], (find_uri_ok _ _ _ _ Hr E2) as [D2 O2].
  split; [split; [by repeat constructor|done]|]. unfold flight_owns, owned. cbn. by rewrite D1, D2.
Qed.

Lemma inv_arrives base f w :
  flight_ok f → flight_owns f = [] → (∀ id, id ∈ holds f → id ∈ (map_to_list (instances w)).*2) →
  inv base w → inv base (set_flights (flights w ++ [f]) w).
Proof.
  intros Hok Ho Hh H. apply (inv_moved base w); [done|done| | | |exact H].
  - unfold owners. cbn. by rewrite bind_snoc, Ho, app_nil_r.
  - cbn. apply Forall_app. split; [apply H|by constructor].
  - intros id. pose proof (inv_counted _ _ H id) as Hc. unfold references in *. cbn. rewrite bind_snoc. rewrite !elem_of_app in *.
    specialize (Hh id). tauto.
Qed.

Lemma holds_instance w u id : instances w !! u = Some id → ∀ id', id' ∈ [id] → id' ∈ (map_to_list (instances w)).*2.
Proof. intros Hu id' ->%list_elem_of_singleton. apply list_elem_of_fmap. exists (u, id). by rewrite elem_of_map_to_list. Qed.

Lemma arriving_holds ev f w :
  match ev with
  | Create r => f = create_snapshot_rebuild r w
  | Destroy u => f = destroy_snapshot_rebuild u w
  | List u => f = list_snapshot_rebuild u w
  | _ => False
  end → ∀ id, id ∈ holds f → id ∈ (map_to_list (instances w)).*2.
Proof.
  destruct ev as [r|u|[u|]| |]; [| | | |done..]; intros ->.
  - unfold create_snapshot_rebuild. destruct (bitmap r); [by intros ? ?%elem_of_nil|].
    destruct (instances w !! req_uuid r) eqn:E; [by eapply holds_instance|].
    destruct (build_uris w _) as [|[s p]]; by intros ? ?%elem_of_nil.
  - unfold destroy_snapshot_rebuild. destruct (instances w !! u) eqn:E; [by eapply holds_instance|by intros ? ?%elem_of_nil].
  - unfold list_snapshot_rebuild. destruct (instances w !! u) eqn:E; [by eapply holds_instance|by intros ? ?%elem_of_nil].
  - done.
Qed.

Lemma remove_flights u w : flights (remove u w) = flights w.
Proof. unfold remove. destruct (instances w !! u); [|done]. by destruct (release_same n (set_instances (base.delete u (instances w)) w)) as (_ & _ & ->). Qed.

Lemma inv_resume base o i f w w' :
  flights w !! i = Some f → resume SEGMENT_SIZE o i f w = Some w' → inv base w → inv base w'.
Proof.
  intros Hi Hr H. pose proof (proj1 (Forall_lookup _ _) (inv_flights _ _ H) _ _ Hi) as [Hu Hd].
  destruct f as [b s r|b s r|s e|b s r|s r e|r e|id|id|[|id ids] l|id u|a]; cbn [resume] in Hr; cbn in Hu, Hd.
  - apply Forall_cons in Hu as [Hs Hr']. destruct (open_create s w) as [[w1 x]|] eqn:E; [|done]. injection Hr as <-.
    destruct (open_create_held base s w w1 x (owners w) _ (proj1 Hd) Hs E (inv_held _ _ H)) as (d & -> & Hx).
    destruct x as [e|s'].
    + apply (inv_opened base i (OpenSnapshot b s r) _ (uri_new "" false)); [done|by apply no_uris_ok| |done|done|done|done].
      unfold flight_owns, owned. cbn. by rewrite (proj1 Hd), (proj2 Hd).
    + destruct Hx as (Ec & Eu & Ho & Hx). apply (inv_opened base i (OpenSnapshot b s r) _ s'); [done| | |done|done|done|done].
      * split; [constructor; [by rewrite Ec, Eu|done]|apply Hd].
      * unfold flight_owns. cbn. by rewrite (owned_none s) by apply Hd.
  - apply Forall_cons in Hu as [Hs [Hp _]%Forall_cons]. destruct (open_create r w) as [[w1 x]|] eqn:E; [|done]. injection Hr as <-.
    destruct (open_create_held base r w w1 x (owners w) _ Hd Hp E (inv_held _ _ H)) as (d & -> & Hx).
    destruct x as [e|r'].
    + apply (inv_opened base i (OpenReplica b s r) _ (uri_new "" false)); [done| | |done|done|done|done].
      * split; [by constructor|done].
      * unfold flight_owns. cbn. by rewrite (owned_none r).
    + destruct Hx as (Ec & Eu & Ho & Hx). apply (inv_opened base i (OpenReplica b s r) _ r'); [done| | |done|done|done|done].
      * split; [|done]. constructor; [done|]. constructor; [by rewrite Ec, Eu|done].
      * unfold flight_owns. cbn. rewrite (owned_none r), !app_nil_r by done. apply Permutation_app_comm.
  - apply fmap_Some in Hr as (w1 & E & ->). by apply (inv_closed base i (CloseSnapshot s e) _ s w w1 Hi); [apply no_uris_ok|..].
  - destruct (BdevRebuild.build _ _ _ _ _); [| |done]; injection Hr as <-; [by apply inv_store|].
    by apply (inv_goes_on base i (Building b s r)).
  - apply fmap_Some in Hr as (w1 & E & ->). apply Forall_cons in Hu as [_ Hu].
    by apply (inv_closed base i (CloseBoth s r e) _ s w w1 Hi).
  - apply fmap_Some in Hr as (w1 & E & ->). by apply (inv_closed base i (CloseReplica r e) _ r w w1 Hi); [apply no_uris_ok|..].
  - injection Hr as <-. by apply (inv_release base i (Starting id)).
  - injection Hr as <-. by apply (inv_release base i (Reporting id)).
  - injection Hr as <-. apply (inv_goes_on base i (Listing [] l)); [done|by apply no_uris_ok|done..].
  - injection Hr as <-. by apply (inv_release base i (Listing (id :: ids) l)).
  - injection Hr as <-. apply (inv_release base i (Stopping id u)); [by rewrite remove_flights|done..|by apply remove_keeps_devices].
  - by injection Hr as <-.
Qed.

Lemma step_keeps_devices base ev w w' : event_ok ev → step SEGMENT_SIZE w ev = Some w' → inv base w → inv base w'.
Proof.
  intros Hev Hs H. pose proof (arriving_holds ev) as Ha. destruct ev as [r|u|u|i o|]; cbn [step] in Hs.
  - injection Hs as <-. destruct (create_ok_flight r w Hev). by apply inv_arrives; [..|apply Ha|].
  - injection Hs as <-. apply inv_arrives; [| |by apply Ha|done]; unfold destroy_snapshot_rebuild; destruct (instances w !! u);
      first [by apply no_uris_ok|done].
  - injection Hs as <-. apply inv_arrives; [| |by apply Ha|done]; unfold list_snapshot_rebuild; destruct u as [u|]; try destruct (instances w !! u);
      first [by apply no_uris_ok|done].
  - destruct (flights w !! i) eqn:Hi; [by eapply inv_resume|by injection Hs as <-].
  - destruct (pending w) as [|u l] eqn:Hp; [by injection Hs as <-|].
    assert (owners w ≡ₚ u :: owners (set_pending l w)) as P by (unfold owners; rewrite Hp; cbn; solve_Permutation).
    pose proof (inv_own _ _ H) as Hown. rewrite P in Hown. apply Forall_cons in Hown as [Hu Hown].
    destruct (destroy_held base u (set_pending l w) w' (owners (set_pending l w)) Hu Hs) as (d & x & -> & Hd).
    { generalize (inv_held _ _ H). apply held_perm. by rewrite P. }
    split; [exact Hd|exact Hown|apply H|apply H].
Qed.

Lemma run_cons ev evs w : run SEGMENT_SIZE (ev :: evs) w = step SEGMENT_SIZE w ev ≫= run SEGMENT_SIZE evs.
Proof. unfold run. cbn. destruct (step SEGMENT_SIZE w ev); [done|]. cbn. by induction evs. Qed.

Lemma inv_run base evs w w' : Forall event_ok evs → run SEGMENT_SIZE evs w = Some w' → inv base w → inv base w'.
Proof.
  intros Hev. revert w. induction Hev as [|ev evs H1 _ IH]; intros w; [by intros [= <-]|].
  rewrite run_cons. destruct (step SEGMENT_SIZE w ev) eqn:E; [|done]. cbn. intros Hr H. eapply IH; [done|by eapply step_keeps_devices].
Qed.

Definition unused w : Prop := instances w = ∅ ∧ jobs w = ∅ ∧ flights w = [] ∧ pending w = [] ∧ failed w = [].

Definition idle w : Prop := instances w = ∅ ∧ pending w = [] ∧ Forall (λ f, ∃ a, f = Answered a) (flights w).

Lemma inv_unused w : unused w → inv (names (devices w)) w.
Proof.
  intros (E1 & E2 & E3 & E4 & E5). assert (owners w = []) as Eo by (unfold owners; by rewrite E2, E3, E4, map_to_list_empty).
  split; [|by rewrite Eo|by rewrite E3|].
  - rewrite Eo, E5. split; [cbn; set_solver|cbn; set_solver|constructor|constructor].
  - intros id. unfold references. rewrite E1, E2, E3, map_to_list_empty, lookup_empty. cbn. rewrite elem_of_nil. split; [by intros []|done].
Qed.

Lemma idle_owners base w : inv base w → idle w → owners w = [].
Proof.
  intros H (E1 & E2 & Hf).
  assert (∀ (C : Type) (g : Flight → list C), (∀ a, g (Answered a) = []) → (flights w ≫= g) = []) as Hg.
  { intros C g Ha. induction Hf as [|f l [a ->] _ IH]; [done|]. by rewrite bind_cons, Ha. }
  assert (jobs w = ∅) as Ej.
  { apply map_eq. intros id. rewrite lookup_empty. apply eq_None_not_Some. rewrite (inv_counted _ _ H id).
    unfold references. rewrite E1, Hg, map_to_list_empty by done. apply not_elem_of_nil. }
  unfold owners. by rewrite Hg, Ej, E2, map_to_list_empty.
Qed.

(** ** Requests are answered *)

(** How many more futures a request awaits at most *)
Definition awaits f : nat :=
  match f with
  | OpenSnapshot _ _ _ => 5 | OpenReplica _ _ _ => 4 | Building _ _ _ => 3 | CloseBoth _ _ _ => 2
  | CloseSnapshot _ _ | CloseReplica _ _ | Starting _ | Reporting _ | Stopping _ _ => 1
  | Listing ids _ => S (length ids)
  | Answered _ => 0
  end%nat.

Fixpoint goes (i : nat) (evs : list Event) : nat :=
  match evs with
  | [] => 0
  | Go k _ :: l => (if bool_decide (k = i) then 1 else 0) + goes i l
  | _ :: l => goes i l
  end.

Lemma drop_job_flights j w : flights (drop_job j w) = flights w.
Proof. unfold drop_job, drop_uri. by destruct (delete (snapshot_uri j)), (delete (replica_uri j)). Qed.

Lemma open_create_flights u w w' r : open_create u w = Some (w', r) → flights w' = flights w.
Proof.
  unfold open_create. destruct (create u); [|by intros [= <- <-]].
  destruct (device_create (uri u) (devices w)) as [d [n|e|]]; [by intros [= <- <-]| |done]. destruct e; by intros [= <- <-].
Qed.

Lemma destroy_flights u w w' : destroy_uri u w = Some w' → flights w' = flights w.
Proof. unfold destroy_uri. destruct (device_destroy u (devices w)) as [d [[]|e|]]; by intros [= <-]. Qed.

Lemma close_flights u w w' : close u w = Some w' → flights w' = flights w.
Proof. unfold close. destruct (delete u); [apply destroy_flights|by intros [= <-]]. Qed.

Lemma finish_flights i a id w : flights (finish i a id w) = <[i := Answered a]> (flights w).
Proof. unfold finish. by destruct (release_same id (set_flight i (Answered a) w)) as (_ & _ & ->). Qed.

(** A request that goes on awaits one future less, and others stay where they are. *)
Lemma resume_progress o i f w w' :
  flights w !! i = Some f → resume SEGMENT_SIZE o i f w = Some w' →
  ∃ f', flights w' = <[i := f']> (flights w) ∧ (awaits f' ≤ pred (awaits f))%nat.
Proof.
  intros Hi Hr. destruct f as [b s r|b s r|s e|b s r|s r e|r e|id|id|[|id ids] l|id u|a]; cbn [resume] in Hr.
  - destruct (open_create s w) as [[w1 x]|] eqn:E; [|done]. injection Hr as <-. apply open_create_flights in E.
    destruct x; eexists; cbn; (split; [by rewrite E|cbn; lia]).
  - destruct (open_create r w) as [[w1 x]|] eqn:E; [|done]. injection Hr as <-. apply open_create_flights in E.
    destruct x; eexists; cbn; (split; [by rewrite E|cbn; lia]).
  - apply fmap_Some in Hr as (w1 & E%close_flights & ->). eexists. cbn. split; [by rewrite E|cbn; lia].
  - destruct (BdevRebuild.build _ _ _ _ _); [| |done]; injection Hr as <-; [|eexists; split; [done|cbn; lia]].
    unfold store. destruct (instances w !! _); [rewrite drop_job_flights|]; eexists; (split; [done|cbn; lia]).
  - apply fmap_Some in Hr as (w1 & E%close_flights & ->). eexists. cbn. split; [by rewrite E|cbn; lia].
  - apply fmap_Some in Hr as (w1 & E%close_flights & ->). eexists. cbn. split; [by rewrite E|cbn; lia].
  - injection Hr as <-. rewrite finish_flights. eexists. split; [done|cbn; lia].
  - injection Hr as <-. rewrite finish_flights. eexists. split; [done|cbn; lia].
  - injection Hr as <-. eexists. split; [done|cbn; lia].
  - injection Hr as <-. destruct (release_same id (set_flight i (Listing ids (match jobs w !! id with Some j => l ++ [uuid j] | None => l end)) w)) as (_ & _ & ->).
    eexists. split; [done|cbn; lia].
  - injection Hr as <-. rewrite finish_flights, remove_flights. eexists. split; [done|cbn; lia].
  - injection Hr as <-. eexists. split; [by rewrite list_insert_id|cbn; lia].
Qed.

Lemma step_progress ev i f w w' :
  flights w !! i = Some f → step SEGMENT_SIZE w ev = Some w' →
  ∃ f', flights w' !! i = Some f' ∧ (awaits f' + goes i [ev] ≤ Nat.max (awaits f) (goes i [ev]))%nat.
Proof.
  intros Hi Hs. pose proof (lookup_lt_Some _ _ _ Hi) as Hlt. destruct ev as [r|u|u|k o|]; cbn [step] in Hs.
  1-3: injection Hs as <-; exists f; cbn; (split; [by rewrite lookup_app_l|cbn; lia]).
  - destruct (decide (k = i)) as [->|Hk].
    + rewrite Hi in Hs. destruct (resume_progress _ _ _ _ _ Hi Hs) as (f' & E & Hle). exists f'. rewrite E, list_lookup_insert_eq by done.
      split; [done|]. cbn. rewrite bool_decide_true by done. lia.
    + exists f. cbn. rewrite bool_decide_false by done. split; [|lia].
      destruct (flights w !! k) eqn:E; [|by injection Hs as <-].
      destruct (resume_progress _ _ _ _ _ E Hs) as (f' & -> & _). by rewrite list_lookup_insert_ne.
  - exists f. split; [|cbn; lia]. destruct (pending w); [by injection Hs as <-|]. by rewrite (destroy_flights _ _ _ Hs).
Qed.

Lemma requests_are_answered evs i f w w' :
  flights w !! i = Some f → run SEGMENT_SIZE evs w = Some w' → (awaits f ≤ goes i evs)%nat → ∃ a, flights w' !! i = Some (Answered a).
Proof.
  revert f w. induction evs as [|ev evs IH]; intros f w Hi Hr Hle.
  - injection Hr as <-. destruct f; cbn in Hle; try lia. by eexists.
  - rewrite run_cons in Hr. destruct (step SEGMENT_SIZE w ev) as [w1|] eqn:E; [|done].
    destruct (step_progress _ _ _ _ _ Hi E) as (f' & Hi' & Hle'). apply (IH f' w1 Hi' Hr).
    assert (goes i (ev :: evs) = goes i [ev] + goes i evs)%nat as Eg.
    { destruct ev; cbn; lia. }
    lia.
Qed.

Lemma accounted_for evs w0 w :
  unused w0 → Forall event_ok evs → run SEGMENT_SIZE evs w0 = Some w →
  held (names (devices w0)) (devices w) (name_of <$> owners w) (name_of <$> failed w) ∧ (idle w → owners w = []).
Proof.
  intros H0 Hev Hr. pose proof (inv_run _ evs w0 w Hev Hr (inv_unused w0 H0)) as H.
  split; [apply H|]. by eapply idle_owners.
Qed.
End Owners.

(** ** The devices of URIs *)

Section Uris.
Context {B : Type} `{!BitVec B} `{CL : UriProps.CrateLaws} {SP : Device.Spdk} {CO : Device.Components} {SL : UriProps.SpdkLaws}.
Context (host : Uri.Host) (fuel : nat) (SEGMENT_SIZE : Z).

(** [device_create] and [device_destroy] parse the URI and do as the device does
    ([bdev/dev.rs]); the devices are the bdevs of SPDK. *)
#[local] Instance uri_devices : Devices := {|
  dev := Device.World;
  names w := dom (Device.bdevs (Device.lib w));
  name_of u := if Uri.parse host u is Ok d then Uri.get_name d else ""%string;
  device_create := Device.bdev_create host (S fuel);
  device_destroy := Device.bdev_destroy host (S fuel);
|}.

(** A URI of a bdev that one of SPDK's modules makes, and that is not to be rescanned
    or resized if it exists *)
Definition own_uri (u : string) : Prop :=
  ∃ d k, Uri.parse host u = Ok d ∧ UriProps.kind_of d = Some k ∧ UriProps.grows d = false.

Lemma own_uri_create u d k w w' r :
  Uri.parse host u = Ok d → UriProps.kind_of d = Some k → Device.bdev_create host (S fuel) u w = (w', r) →
  ∃ u', UriProps.outcome_of d u' k w r w'.
Proof.
  intros Hp Hk E. assert (∃ u', Uri.parse_url host u' = Ok d) as [u' Hu].
  { unfold Uri.parse in Hp. destruct (Uri.url_parse u) as [|u']; [done|by exists u']. }
  exists u'. eapply wp_elim; [|exact E]. cbn. wp_step. wp_step. rewrite Hp. by eapply UriProps.create_local.
Qed.

Lemma own_uri_destroy u d k w w' r :
  Uri.parse host u = Ok d → UriProps.kind_of d = Some k → Uri.get_name d ∈ names w → device_destroy u w = (w', r) →
  names w' = names w ∖ {[Uri.get_name d]} ∨ r ≠ Ok tt ∧ names w' = names w.
Proof.
  intros Hp Hk Hin E.
  apply (wp_elim (device_destroy u) (λ r w', names w' = names w ∖ {[Uri.get_name d]} ∨ r ≠ Ok tt ∧ names w' = names w) w w' r); [|exact E]. cbn. wp_step. wp_step. rewrite Hp.
  rewrite (UriProps.destroy_local _ _ _ Hk). change (Uri.get_name d ∈ dom (Device.bdevs (Device.lib w))) in Hin. apply elem_of_dom in Hin as [i Hi].
  unfold Device.delete_by, Device.lookup_by_name. wp_step. wp_step. rewrite (UriProps.find_law _ _ _ Hi).
  wp_step. apply UriProps.wp_call. intros s a Hd. apply UriProps.delete_law in Hd; [|by destruct d; naive_solver].
  assert (∀ P : Prop, (dom (Device.bdevs s) = dom (Device.bdevs (Device.lib w)) ∖ {[Uri.get_name d]} → P) →
    (a ≠ Device.Done None → dom (Device.bdevs s) = dom (Device.bdevs (Device.lib w)) → P) → P) as Hc.
  { intros P HP1 HP2. destruct Hd as [Hd|[Ha Hd]]; [apply HP1; by rewrite Hd, dom_delete_L|by apply HP2; [|rewrite Hd]]. }
  unfold Device.await. destruct a as [|[e|]]; wp_step; cbn; apply Hc; intros; first [by left|right; split; [done|assumption]|exfalso; congruence].
Qed.

#[local] Instance uri_device_laws : DeviceLaws own_uri.
Proof.
  split.
  - intros u w w' n (d & k & Hp & Hk & Hg) E. destruct (own_uri_create _ _ _ _ _ _ Hp Hk E) as [u' [[Hn Hc]|[_ Hc]]].
    + cbn. rewrite Hp. destruct Hc as (-> & i & _ & _ & _ & i' & Hb & _). split; [|by rewrite Hb, dom_insert_L].
      apply not_elem_of_dom. by apply UriProps.find_none.
    + destruct Hc as (_ & Hg' & _). congruence.
  - intros u w w' e (d & k & Hp & Hk & Hg) E. destruct (own_uri_create _ _ _ _ _ _ Hp Hk E) as [u' [[_ Hc]|[_ Hc]]]; cbn in *.
    + by rewrite Hc.
    + rewrite Hg in Hc. by rewrite Hc.
  - intros u w w' (d & k & Hp & Hk & _). cbn [name_of uri_devices]. rewrite Hp. intros Hin E.
    by destruct (own_uri_destroy _ _ _ _ _ _ Hp Hk Hin E) as [|[? _]].
  - intros u w w' e (d & k & Hp & Hk & _). cbn [name_of uri_devices]. rewrite Hp. intros Hin E.
    destruct (own_uri_destroy _ _ _ _ _ _ Hp Hk Hin E) as [|[_ ?]]; auto.
Qed.

(** C18. Devices of snapshot rebuilds.  The URIs of the requests are those of [aio],
    [malloc], [null] and [uring] devices that do not ask for a rescan or resize, or
    are left out for local volumes; nothing else makes or destroys bdevs; the run does
    not end with a panic.  Then, whatever requests to create, list and destroy snapshot
    rebuilds arrive, in whatever order they go on, and whichever of them fail: a bdev
    that was there before is not destroyed; a bdev that was made for a rebuild is there
    and has exactly one owner, a request, a job or a destruction on its way, until its
    destruction succeeds or is logged as failed; and once all requests are answered, no
    job is left in the list and no destruction is on its way, the bdevs are those there
    were before and some of those whose destruction has failed.  A URI that asks for a
    resize takes over the bdev that is there ([resize_takes_over_a_device]). *)
Theorem snapshot_rebuild_devices evs w0 w :
  unused w0 → Forall (event_ok own_uri) evs → run (B := B) SEGMENT_SIZE evs w0 = Some w →
  let base := names (devices w0) in
  let made := name_of <$> owners w in
  let stuck := list_to_set (name_of <$> failed w) in
  base ∪ list_to_set made ⊆ names (devices w) ∧ NoDup made ∧ Forall (.∉ base) made ∧
  names (devices w) ⊆ base ∪ list_to_set made ∪ stuck ∧
  (idle w → base ⊆ names (devices w) ∧ names (devices w) ⊆ base ∪ stuck).
Proof.
  intros H0 Hev Hr base made stuck. destruct (accounted_for own_uri SEGMENT_SIZE evs w0 w H0 Hev Hr) as [[H1 H2 H3 H4] Hi].
  split_and!; [done..|]. intros Hid. unfold made in *. rewrite (Hi Hid) in *. set_solver.
Qed.
End Uris.
End SnapRebuildProps.

(** ** Samples *)

Module SnapRebuildSample.
Import SnapRebuild SnapRebuildProps.

#[local] Existing Instances UriSample.S0 UriSample.L0 UriSample.C0.
#[local] Instance sample_devices : Devices := uri_devices UriSample.host 0.

Definition uri_text : UriSample.sample_url → string := UriSample.text.

Definition sample_env : BdevRebuild.Env :=
  BdevRebuild.mkEnv Ok (λ n _, Ok (mkDevice n 512 2048 1048576)) (λ _, Ok tt) (Ok tt) 0.

Definition go (i : nat) : Event := Go i (mkOutcome sample_env None "new").

Definition world_with (d : Device.World) : @World (list bool) sample_devices :=
  mkWorld (d : dev) {[ "r1"%string := Lvol false ]} ∅ ∅ [] [] [].

(** A null device is there. *)
Definition sample_world : @World (list bool) sample_devices := world_with UriSample.null_disk.

(** Two jobs read the same snapshot, whose device the first has made; the second writes
    to a device that was there.  A third request finds one end of the copy twice. *)
Definition request_a : Request := mkRequest "a" "r1" "s" "" (uri_text UriSample.Disk) false.
Definition request_b : Request := mkRequest "b" "r2" "s" (uri_text UriSample.Zero) (uri_text UriSample.Disk) false.
Definition request_c : Request := mkRequest "c" "r3" "s" (uri_text UriSample.Huge) (uri_text UriSample.Huge) false.

Definition sample_events : list Event :=
  [Create request_a; Create request_b] ++ [go 0; go 1; go 0; go 1; go 0; go 1; go 0; go 1] ++
  [List None; go 2; Destroy "a"; go 3; go 2; go 2; RunPending; Destroy "b"; go 4] ++ [Create request_c] ++ repeat (go 5) 5.

Definition sample_end : World := default sample_world (run 65536 sample_events sample_world).

Lemma sample_runs : run 65536 sample_events sample_world = Some sample_end.
Proof.
  assert (bool_decide (is_Some (run 65536 sample_events sample_world)) = true) as [w E]%bool_decide_eq_true by by vm_compute.
  unfold sample_end. by rewrite E.
Qed.

Lemma sample_idle : idle sample_end.
Proof. split; [vm_compute; reflexivity|]. split; [vm_compute; reflexivity|]. vm_compute. repeat constructor; by eexists. Qed.

Lemma sample_own u k :
  match Uri.parse UriSample.host u with Ok d => Some (UriProps.kind_of d, UriProps.grows d) | _ => None end = Some (Some k, false) →
  own_uri UriSample.host u.
Proof. unfold own_uri. destruct (Uri.parse UriSample.host u) as [d| |]; [|done..]. intros [= Hk Hg]. eauto. Qed.

Lemma snapshot_rebuild_devices_witness :
  idle sample_end ∧ names (devices sample_end) = {["n0"%string]}.
Proof.
  split; [exact sample_idle|].
  assert (own_uri UriSample.host (uri_text UriSample.Disk)) as Hd by by apply (sample_own _ Device.KMalloc); vm_compute.
  assert (own_uri UriSample.host (uri_text UriSample.Huge)) as Hh by by apply (sample_own _ Device.KMalloc); vm_compute.
  assert (own_uri UriSample.host (uri_text UriSample.Zero)) as Hz by by apply (sample_own _ Device.KNull); vm_compute.
  destruct (snapshot_rebuild_devices (B := list bool) UriSample.host 0 65536 sample_events sample_world sample_end) as (_ & _ & _ & _ & H).
  - repeat split.
  - unfold sample_events. cbn [app repeat].
    repeat (apply Forall_cons; split; [first [exact I|split; intros Hne; first [exact Hd|exact Hh|exact Hz|by destruct (Hne eq_refl)]]|]).
    by apply Forall_nil.
  - exact sample_runs.
  - destruct (H sample_idle) as [H1 H2].
    assert (names (devices sample_world) = {["n0"%string]}) as E by by vm_compute.
    assert (failed sample_end = []) as E' by by vm_compute.
    apply (anti_symm (⊆)); [etrans; [exact H2|]|rewrite <- E; exact H1].
    change (names (devices sample_world) ∪ list_to_set (name_of <$> failed sample_end) ⊆ {["n0"%string]}).
    rewrite E, E'. set_solver.
Defined.

(** A device that two jobs use goes with the job that has made it, under the other one. *)
Example shared_device_goes_with_its_maker :
  let w := default sample_world (run 65536 (take 17 sample_events) sample_world) in
  (uuid <$> (map_to_list (jobs w)).*2) = ["b"%string] ∧ ("m0"%string ∉ names (devices w)).
Proof. split; [vm_compute; reflexivity|]. apply (bool_decide_unpack _). vm_compute. exact I. Qed.

(** A URI that asks for a resize takes over a device that was there, which is gone with
    the job. *)
Example resize_takes_over_a_device :
  let r := mkRequest "d" "r1" "s" "" (uri_text UriSample.Tiny) false in
  let w0 := world_with UriSample.made_disk in
  let w := default w0 (run 65536 ([Create r] ++ repeat (go 0) 4 ++ [Destroy "d"; go 1; RunPending]) w0) in
  flights w = [Answered Replied; Answered Replied] ∧ ("m0"%string ∈ names (devices w0)) ∧ ("m0"%string ∉ names (devices w)).
Proof. split; [vm_compute; reflexivity|]. split; apply (bool_decide_unpack _); vm_compute; exact I. Qed.

(** A list of the rebuilds of a replica looks for a job with the UUID of the replica. *)
Example replica_of_a_job_is_not_listed :
  let w := default sample_world (run 65536 (take 10 sample_events) sample_world) in
  (replica_uuid <$> (map_to_list (jobs w)).*2) = ["r2"; "r1"]%string ∧
  list_snapshot_rebuild (Some "r1"%string) w = Answered (Errored (JobNotFound "r1")).
Proof. split; vm_compute; reflexivity. Qed.

(** A job that could not be started stays in the list, and creating it again answers
    without starting it. *)
Example unstarted_job_is_kept :
  let fails := Go 0 (mkOutcome sample_env (Some BackendGone) "new") in
  let w := default sample_world (run 65536 [Create request_a; go 0; go 0; go 0; fails; Create request_a; go 1] sample_world) in
  flights w = [Answered (Errored BackendGone); Answered Replied] ∧ size (instances w) = 1%nat.
Proof. split; vm_compute; reflexivity. Qed.

End SnapRebuildSample.
