(* ===== verification/Codec.v ===== *)
(** * Binary encoding

    The part of the [bincode] crate that the partition table code uses, as an
    interface: unsigned integers of a fixed width, written one after the other.
    On top of it arrays of integers and the UTF-16 encoding of the standard
    library. *)

From S2P Require Import Prelude.

(** A byte is a [Z] in [0, 256). *)
Definition is_byte (z : Z) : Prop := 0 ≤ z < 2^8.

(** Unsigned integers of [n] bytes. *)
Definition fits (n : nat) (v : Z) : Prop := 0 ≤ v < 2^(8 * Z.of_nat n).

(** [bc_get] returns the value and the bytes that are left; [None] is an error
    of the reader. *)
Class Bincode := {
  bc_put : nat → Z → list Z;
  bc_get : nat → list Z → option (Z * list Z);
}.

(** An integer takes its width in bytes, is read back from what was written, is
    the only thing that is read as such, and zero is all zeroes. *)
Class BincodeLaws `{!Bincode} : Prop := {
  bc_length n v : length (bc_put n v) = n;
  bc_get_put n v rest : fits n v → bc_get n (bc_put n v ++ rest) = Some (v, rest);
  bc_zero n : bc_put n 0 = replicate n 0;
  bc_get_fits n bs v rest : Forall is_byte bs → bc_get n bs = Some (v, rest) →
    fits n v ∧ bs = bc_put n v ++ rest;
}.

(** ** Little endian, the default of the crate *)

Module LittleEndian.

Fixpoint le_put (n : nat) (v : Z) : list Z :=
  match n with
  | O => []
  | S n => v mod 2^8 :: le_put n (v / 2^8)
  end.

Fixpoint le_get (n : nat) (bs : list Z) : option (Z * list Z) :=
  match n with
  | O => Some (0, bs)
  | S n =>
      match bs with
      | [] => None
      | b :: bs => '(v, rest) ← le_get n bs; Some (b + 2^8 * v, rest)
      end
  end.

#[global] Instance le : Bincode := { bc_put := le_put; bc_get := le_get }.

Lemma fits_S n v : fits (S n) v → fits n (v / 2^8) ∧ 0 ≤ v.
Proof.
  unfold fits. replace (8 * Z.of_nat (S n)) with (8 + 8 * Z.of_nat n) by lia.
  rewrite Z.pow_add_r by lia. intros [H0 H1]. split; [|done].
  split; [apply Z.div_pos; lia|apply Z.div_lt_upper_bound; lia].
Qed.

Lemma le_get_put n v rest : fits n v → le_get n (le_put n v ++ rest) = Some (v, rest).
Proof.
  revert v. induction n as [|n IH]; intros v Hv; simpl.
  - unfold fits in Hv. simpl in Hv. do 2 f_equal. lia.
  - apply fits_S in Hv as [Hv _]. rewrite IH by done. simpl. do 2 f_equal.
    rewrite Z.add_comm, <- Z.div_mod by lia. done.
Qed.

Lemma le_get_fits n bs v rest :
  Forall is_byte bs → le_get n bs = Some (v, rest) → fits n v ∧ bs = le_put n v ++ rest.
Proof.
  revert bs v. induction n as [|n IH]; intros bs v Hb; simpl.
  - intros [= <- <-]. by split; [unfold fits; simpl; lia|].
  - destruct bs as [|b bs]; [done|]. apply Forall_cons in Hb as [Hb Hbs].
    destruct (le_get n bs) as [[u r]|] eqn:E; [|done]. simpl. intros [= <- <-].
    destruct (IH bs u Hbs E) as [Hu ->]. unfold is_byte in Hb.
    assert (Hd : (b + 2^8 * u) / 2^8 = u) by (symmetry; apply Z.div_unique with b; lia).
    assert (Hm : (b + 2^8 * u) mod 2^8 = b) by (symmetry; apply Z.mod_unique with u; lia).
    rewrite Hd, Hm. split; [|done]. unfold fits in *.
    replace (8 * Z.of_nat (S n)) with (8 + 8 * Z.of_nat n) by lia. rewrite Z.pow_add_r by lia. lia.
Qed.

#[global] Instance le_laws : BincodeLaws.
Proof.
  split.
  - intros n. induction n as [|n IH]; intros v; simpl; [done|]. f_equal. apply IH.
  - apply le_get_put.
  - intros n. simpl. induction n as [|n IH]; [done|]. simpl. by rewrite <- IH.
  - apply le_get_fits.
Qed.

End LittleEndian.

(** ** Arrays *)

Section Arrays.
Context `{!Bincode}.

Definition put_list (w : nat) (l : list Z) : list Z := l ≫= bc_put w.

(** [k] integers of [w] bytes. *)
Fixpoint get_list (w k : nat) (bs : list Z) : option (list Z * list Z) :=
  match k with
  | O => Some ([], bs)
  | S k =>
      '(v, bs) ← bc_get w bs;
      '(l, bs) ← get_list w k bs;
      Some (v :: l, bs)
  end.

Context `{!BincodeLaws}.

Lemma put_list_length w l : length (put_list w l) = (w * length l)%nat.
Proof.
  unfold put_list. induction l as [|v l IH]; csimpl; [lia|]. rewrite length_app, IH, bc_length. lia.
Qed.

Lemma put_list_app w l1 l2 : put_list w (l1 ++ l2) = put_list w l1 ++ put_list w l2.
Proof. apply bind_app. Qed.

Lemma put_list_zero w k : put_list w (replicate k 0) = replicate (w * k) 0.
Proof.
  unfold put_list. induction k as [|k IH]; csimpl; [by rewrite Nat.mul_0_r|].
  rewrite IH, bc_zero, <- replicate_add. f_equal. lia.
Qed.

Lemma get_put_list w l rest :
  Forall (fits w) l → get_list w (length l) (put_list w l ++ rest) = Some (l, rest).
Proof.
  unfold put_list. induction 1 as [|v l Hv _ IH]; csimpl; [done|].
  rewrite <- app_assoc, bc_get_put by done. simpl. by rewrite IH.
Qed.

Lemma get_list_fits w k bs l rest :
  Forall is_byte bs → get_list w k bs = Some (l, rest) →
  length l = k ∧ Forall (fits w) l ∧ bs = put_list w l ++ rest.
Proof.
  revert bs l. induction k as [|k IH]; intros bs l Hb; simpl; [by intros [= <- <-]|].
  destruct (bc_get w bs) as [[v bs1]|] eqn:E1; [|done]. simpl.
  destruct (bc_get_fits _ _ _ _ Hb E1) as [Hv ->]. apply Forall_app in Hb as [_ Hb1].
  destruct (get_list w k bs1) as [[l1 r]|] eqn:E2; [|done]. simpl. intros [= <- <-].
  destruct (IH bs1 l1 Hb1 E2) as (Hl & Hf & ->). split; [by simpl; rewrite Hl|]. split; [by constructor|].
  unfold put_list. csimpl. by rewrite app_assoc.
Qed.

End Arrays.

#[global] Arguments get_list : simpl never.
#[global] Arguments put_list : simpl never.

(** ** UTF-16

    A string is the list of its scalar values. *)

Module Utf16.

Definition is_scalar (c : Z) : Prop := 0 ≤ c < 0xD800 ∨ 0xE000 ≤ c < 0x110000.

Definition encode_char (c : Z) : list Z :=
  if c <? 0x10000 then [c]
  else let d := c - 0x10000 in [0xD800 + d / 0x400; 0xDC00 + d mod 0x400].

(** [str::encode_utf16] *)
Definition encode_utf16 (s : list Z) : list Z := s ≫= encode_char.

Definition is_high (u : Z) : bool := (0xD800 <=? u) && (u <? 0xDC00).
Definition is_low (u : Z) : bool := (0xDC00 <=? u) && (u <? 0xE000).

(** [String::from_utf16_lossy]: a surrogate without its partner becomes
    U+FFFD. *)
Fixpoint from_utf16_lossy (us : list Z) : list Z :=
  match us with
  | [] => []
  | u :: us =>
      if is_high u then
        match us with
        | v :: us' =>
            if is_low v then (0x10000 + (u - 0xD800) * 0x400 + (v - 0xDC00)) :: from_utf16_lossy us'
            else 0xFFFD :: from_utf16_lossy us
        | [] => [0xFFFD]
        end
      else if is_low u then 0xFFFD :: from_utf16_lossy us
      else u :: from_utf16_lossy us
  end.

Lemma encode_char_cases c :
  is_scalar c →
  (encode_char c = [c] ∧ is_high c = false ∧ is_low c = false ∧ fits 2 c) ∨
  ∃ u v, encode_char c = [u; v] ∧ is_high u = true ∧ is_low v = true ∧ fits 2 u ∧ fits 2 v ∧
    c = 0x10000 + (u - 0xD800) * 0x400 + (v - 0xDC00).
Proof.
  intros Hc. unfold encode_char, is_high, is_low, fits, is_scalar in *.
  destruct (Z.ltb_spec c 0x10000).
  - left. split; [done|]. rewrite !andb_false_iff, !Z.leb_gt, !Z.ltb_ge.
    change (8 * Z.of_nat 2) with 16. lia.
  - right. eexists _, _. split; [done|].
    pose proof (Z.div_mod (c - 0x10000) 0x400 ltac:(lia)).
    pose proof (Z.mod_pos_bound (c - 0x10000) 0x400 ltac:(lia)).
    assert (0 ≤ (c - 0x10000) / 0x400 < 0x400)
      by (split; [apply Z.div_pos; lia|apply Z.div_lt_upper_bound; lia]).
    rewrite !andb_true_iff, !Z.leb_le, !Z.ltb_lt. change (8 * Z.of_nat 2) with 16. lia.
Qed.

Lemma encode_utf16_fits s : Forall is_scalar s → Forall (fits 2) (encode_utf16 s).
Proof.
  unfold encode_utf16. induction 1 as [|c s Hc _ IH]; csimpl; [done|]. apply Forall_app. split; [|done].
  destruct (encode_char_cases c Hc) as [(-> & _ & _ & ?)|(u & v & -> & _ & _ & ? & ? & _)]; auto.
Qed.

(** Units are zero only for NUL. *)
Lemma encode_utf16_nonzero s :
  Forall is_scalar s → Forall (λ c, c ≠ 0) s → Forall (λ u, u ≠ 0) (encode_utf16 s).
Proof.
  unfold encode_utf16. induction 1 as [|c s Hc _ IH]; csimpl; [done|].
  intros [Hc0 Hs]%Forall_cons. apply Forall_app. split; [|auto].
  destruct (encode_char_cases c Hc) as [(-> & _)|(u & v & -> & Hu & Hv & _)]; [auto|].
  unfold is_high, is_low in *. rewrite andb_true_iff, Z.leb_le in Hu, Hv.
  repeat constructor; lia.
Qed.

Lemma utf16_roundtrip s : Forall is_scalar s → from_utf16_lossy (encode_utf16 s) = s.
Proof.
  unfold encode_utf16. induction 1 as [|c s Hc _ IH]; csimpl; [done|].
  destruct (encode_char_cases c Hc) as [(-> & Hh & Hl & _)|(u & v & -> & Hu & Hv & _ & _ & ->)]; simpl.
  - by rewrite Hh, Hl, IH.
  - by rewrite Hu, Hv, IH.
Qed.

End Utf16.
