(* ===== verification/Gpt.v ===== *)
(** * GUID partition tables

    Headers, partition entries and the protective MBR with their encoding
    ([core/gpt/primitives.rs]): building a label, the data to be written for it,
    probing a disk for one, and validation.  [bincode] is the interface of
    [Codec]; the CRC, the disk and its buffers are parameters. *)

From S2P Require Import Prelude Codec Errors.
Import Utf16.

Inductive DmaError := DmaAlloc.

Module Gpt.

Inductive ProbeError :=
| ChecksumSerializeError
| DeserializeError
| MbrSignature
| MbrSize
| GptSignature
| GptRevision
| GptHeaderSize (actual_size expected_size : Z)
| GptChecksum
| PartitionTableChecksum
| CompareDiskGuid
| CompareDiskSize
| ComparePartitionTableChecksum
| PartitionTableLocation
| MissingPartition (name : list Z)
| PrimaryLocation
| SecondaryLocation
| FirstUsableBlock
| LastUsableBlock
| PartitionTableSize
| PartitionTableSpace
| PartitionStart
| PartitionEnd
| NegativePartitionSize
| CompareHeaderLocation
| ComparePartitionEntryCount
| ComparePartitionEntrySize
| IncorrectPartitions
| LabelRedundancy.

Inductive LabelError :=
| SerializeError
| ReadAlloc (source : DmaError)
| WriteAlloc (source : DmaError)
| ReadError (source : CoreError)
| WriteError (source : CoreError)
| InvalidLabel (source : ProbeError)
| HandleError (source : CoreError)
| DeviceTooSmall (num_blocks block_size : Z)
| SeekError.

Record GptGuid := mkGuid { time_low : Z; time_mid : Z; time_high : Z; node : list Z }.

#[global] Instance GptGuid_eq_dec : EqDecision GptGuid.
Proof. solve_decision. Defined.

Definition guid_default : GptGuid := mkGuid 0 0 0 (replicate 8 0).

Record GptHeader := mkHeader {
  signature : list Z;
  revision : list Z;
  header_size : Z;
  self_checksum : Z;
  reserved : list Z;
  lba_self : Z;
  lba_alt : Z;
  lba_start : Z;
  lba_end : Z;
  guid : GptGuid;
  lba_table : Z;
  num_entries : Z;
  entry_size : Z;
  table_crc : Z;
}.

Record GptEntry := mkEntry {
  ent_type : GptGuid;
  ent_guid : GptGuid;
  ent_start : Z;
  ent_end : Z;
  ent_attr : Z;
  ent_name : list Z;
}.

#[global] Instance GptEntry_eq_dec : EqDecision GptEntry.
Proof. solve_decision. Defined.

Definition entry_default : GptEntry := mkEntry guid_default guid_default 0 0 0 [].

Record MbrEntry := mkMbrEntry {
  attributes : Z;
  chs_start : list Z;
  mbr_ent_type : Z;
  chs_last : list Z;
  mbr_lba_start : Z;
  num_sectors : Z;
}.

Definition mbr_entry_default : MbrEntry := mkMbrEntry 0 [0; 0; 0] 0 [0; 0; 0] 0 0.

Record Pmbr := mkPmbr {
  disk_signature : Z;
  mbr_reserved : Z;
  entries : list MbrEntry;
  mbr_signature : list Z;
}.

Definition PARTITION_TABLE_SIZE : Z := 128 * 128.
Definition DATA_OFFSET : Z := 1024 * 1024.
Definition HEADER_SIZE : Z := 92.
Definition HEADER_REVISION : list Z := [0; 0; 1; 0].
Definition HEADER_SIGNATURE : list Z := [0x45; 0x46; 0x49; 0x20; 0x50; 0x41; 0x52; 0x54].
Definition PMBR_SIGNATURE : list Z := [0x55; 0xaa].

Inductive LabelStatus := Both | Primary | Secondary | Neither.

Record GptLabel := mkLabel {
  status : LabelStatus;
  block_size : Z;
  mbr : Pmbr;
  primary : GptHeader;
  partitions : list GptEntry;
  secondary : GptHeader;
}.

Definition set_status (s : LabelStatus) (l : GptLabel) : GptLabel :=
  mkLabel s (block_size l) (mbr l) (primary l) (partitions l) (secondary l).

Definition set_self_checksum (c : Z) (h : GptHeader) : GptHeader :=
  mkHeader (signature h) (revision h) (header_size h) c (reserved h) (lba_self h) (lba_alt h)
    (lba_start h) (lba_end h) (guid h) (lba_table h) (num_entries h) (entry_size h) (table_crc h).

Definition set_table_crc (c : Z) (h : GptHeader) : GptHeader :=
  mkHeader (signature h) (revision h) (header_size h) (self_checksum h) (reserved h) (lba_self h)
    (lba_alt h) (lba_start h) (lba_end h) (guid h) (lba_table h) (num_entries h) (entry_size h) c.

Definition set_location (self alt table : Z) (h : GptHeader) : GptHeader :=
  mkHeader (signature h) (revision h) (header_size h) (self_checksum h) (reserved h) self alt
    (lba_start h) (lba_end h) (guid h) table (num_entries h) (entry_size h) (table_crc h).

(** [Aligned::get_blocks] on [u64] *)
Definition get_blocks {E} (size bs : Z) : outcome E Z :=
  if bs =? 0 then Panicked
  else let blocks := size / bs in
       Ok (if size mod bs =? 0 then blocks else wrap64 (blocks + 1)).

(** [&buf[from..to]] *)
Definition slice {E} (from to : nat) (buf : list Z) : outcome E (list Z) :=
  if bool_decide (from ≤ to ∧ to ≤ length buf)%nat then Ok (take (to - from) (drop from buf)) else Panicked.

(** Writing through a cursor over a slice: all of it fits or it is an error. *)
Definition write_at (pos : Z) (bs buf : list Z) : option (list Z) :=
  if (0 <=? pos) && (pos + Z.of_nat (length bs) <=? Z.of_nat (length buf)) then
    Some (take (Z.to_nat pos) buf ++ bs ++ drop (Z.to_nat pos + length bs) buf)
  else None.

Section Gpt.
Context `{!Bincode}.
(** [crc32::checksum_ieee]; the digest of the parts is that of the whole. *)
Variable crc32 : list Z → Z.

(** *** Encoding, field by field *)

Definition put_guid (g : GptGuid) : list Z :=
  bc_put 4 (time_low g) ++ bc_put 2 (time_mid g) ++ bc_put 2 (time_high g) ++ put_list 1 (node g).

Definition get_guid (bs : list Z) : option (GptGuid * list Z) :=
  '(a, bs) ← bc_get 4 bs;
  '(b, bs) ← bc_get 2 bs;
  '(c, bs) ← bc_get 2 bs;
  '(d, bs) ← get_list 1 8 bs;
  Some (mkGuid a b c d, bs).

Definition put_header (h : GptHeader) : list Z :=
  put_list 1 (signature h) ++ put_list 1 (revision h) ++ bc_put 4 (header_size h) ++
  bc_put 4 (self_checksum h) ++ put_list 1 (reserved h) ++ bc_put 8 (lba_self h) ++
  bc_put 8 (lba_alt h) ++ bc_put 8 (lba_start h) ++ bc_put 8 (lba_end h) ++ put_guid (guid h) ++
  bc_put 8 (lba_table h) ++ bc_put 4 (num_entries h) ++ bc_put 4 (entry_size h) ++
  bc_put 4 (table_crc h).

Definition get_header (bs : list Z) : option (GptHeader * list Z) :=
  '(sg, bs) ← get_list 1 8 bs;
  '(rv, bs) ← get_list 1 4 bs;
  '(hs, bs) ← bc_get 4 bs;
  '(sc, bs) ← bc_get 4 bs;
  '(rs, bs) ← get_list 1 4 bs;
  '(l1, bs) ← bc_get 8 bs;
  '(l2, bs) ← bc_get 8 bs;
  '(l3, bs) ← bc_get 8 bs;
  '(l4, bs) ← bc_get 8 bs;
  '(g, bs) ← get_guid bs;
  '(lt, bs) ← bc_get 8 bs;
  '(ne, bs) ← bc_get 4 bs;
  '(es, bs) ← bc_get 4 bs;
  '(tc, bs) ← bc_get 4 bs;
  Some (mkHeader sg rv hs sc rs l1 l2 l3 l4 g lt ne es tc, bs).

(** [GptName::serialize]: the first 36 units, padded with zeroes. *)
Definition name_units (name : list Z) : list Z :=
  let us := take 36 (encode_utf16 name) in us ++ replicate (36 - length us) 0.

Definition put_name (name : list Z) : list Z := put_list 2 (name_units name).

(** The loop of [GpEntryNameVisitor::visit_seq] over a sequence of [k] more
    units. *)
Fixpoint visit_seq (k : nat) (ended : bool) (out bs : list Z) : option (bool * list Z * list Z) :=
  match k with
  | O => Some (ended, out, bs)
  | S k =>
      '(e, bs) ← bc_get 2 bs;
      if e =? 0 then visit_seq k true out bs
      else if negb ended then visit_seq k ended (out ++ [e]) bs
      else Some (ended, out, bs)
  end.

Definition get_name (bs : list Z) : option (list Z * list Z) :=
  '(ended, out, bs) ← visit_seq 36 false [] bs;
  if (ended : bool) then Some (from_utf16_lossy out, bs) else None.

Definition put_entry (e : GptEntry) : list Z :=
  put_guid (ent_type e) ++ put_guid (ent_guid e) ++ bc_put 8 (ent_start e) ++
  bc_put 8 (ent_end e) ++ bc_put 8 (ent_attr e) ++ put_name (ent_name e).

Definition get_entry (bs : list Z) : option (GptEntry * list Z) :=
  '(ty, bs) ← get_guid bs;
  '(g, bs) ← get_guid bs;
  '(s, bs) ← bc_get 8 bs;
  '(en, bs) ← bc_get 8 bs;
  '(a, bs) ← bc_get 8 bs;
  '(n, bs) ← get_name bs;
  Some (mkEntry ty g s en a n, bs).

Definition put_mbr_entry (e : MbrEntry) : list Z :=
  bc_put 1 (attributes e) ++ put_list 1 (chs_start e) ++ bc_put 1 (mbr_ent_type e) ++
  put_list 1 (chs_last e) ++ bc_put 4 (mbr_lba_start e) ++ bc_put 4 (num_sectors e).

Definition get_mbr_entry (bs : list Z) : option (MbrEntry * list Z) :=
  '(a, bs) ← bc_get 1 bs;
  '(cs, bs) ← get_list 1 3 bs;
  '(t, bs) ← bc_get 1 bs;
  '(cl, bs) ← get_list 1 3 bs;
  '(l, bs) ← bc_get 4 bs;
  '(n, bs) ← bc_get 4 bs;
  Some (mkMbrEntry a cs t cl l n, bs).

Definition put_pmbr (m : Pmbr) : list Z :=
  bc_put 4 (disk_signature m) ++ bc_put 2 (mbr_reserved m) ++ (entries m ≫= put_mbr_entry) ++
  put_list 1 (mbr_signature m).

Definition get_pmbr (bs : list Z) : option (Pmbr * list Z) :=
  '(d, bs) ← bc_get 4 bs;
  '(r, bs) ← bc_get 2 bs;
  '(e0, bs) ← get_mbr_entry bs;
  '(e1, bs) ← get_mbr_entry bs;
  '(e2, bs) ← get_mbr_entry bs;
  '(e3, bs) ← get_mbr_entry bs;
  '(sg, bs) ← get_list 1 2 bs;
  Some (mkPmbr d r [e0; e1; e2; e3] sg, bs).

(** *** Headers *)

(** [GptHeader::checksum] *)
Definition checksum (h : GptHeader) : GptHeader :=
  set_self_checksum (crc32 (put_header (set_self_checksum 0 h))) h.

Definition header_from_slice (bs : list Z) : outcome ProbeError GptHeader :=
  match get_header bs with
  | None => Err DeserializeError
  | Some (h, _) =>
      if negb (header_size h =? HEADER_SIZE) then Err (GptHeaderSize (header_size h) HEADER_SIZE)
      else if negb (bool_decide (signature h = HEADER_SIGNATURE)) then Err GptSignature
      else if negb (bool_decide (revision h = HEADER_REVISION)) then Err GptRevision
      else if negb (self_checksum h =? self_checksum (checksum h)) then Err GptChecksum
      else Ok (checksum h)
  end.

Definition header_new {E} (g : GptGuid) (bs nb : Z) : outcome E GptHeader :=
  partition_blocks ← get_blocks PARTITION_TABLE_SIZE bs;
  data_start ← get_blocks DATA_OFFSET bs;
  Ok (mkHeader HEADER_SIGNATURE HEADER_REVISION HEADER_SIZE 0 [0; 0; 0; 0] 1 (wrap64 (nb - 1))
        data_start (wrap64 (nb - partition_blocks - 2)) g 2 128 128 0).

Definition as_secondary (h : GptHeader) : GptHeader :=
  checksum (set_location (lba_alt h) (lba_self h) (wrap64 (lba_end h + 1)) h).

Definition as_primary (h : GptHeader) : GptHeader :=
  checksum (set_location (lba_alt h) (lba_self h) (wrap64 (lba_alt h + 1)) h).

(** *** Entries *)

Fixpoint entries_from_slice (count : nat) (bs : list Z) : outcome ProbeError (list GptEntry) :=
  match count with
  | O => Ok []
  | S count =>
      match get_entry bs with
      | None => Err DeserializeError
      | Some (e, bs) => es ← entries_from_slice count bs; Ok (e :: es)
      end
  end.

Definition is_unused (e : GptEntry) : bool := bool_decide (ent_guid e = guid_default).

(** [GptEntry::checksum]; [size] is a [u32]. *)
Definition entries_checksum (es : list GptEntry) (size : Z) : Z :=
  let count := wrap32 (Z.of_nat (length es)) in
  crc32 ((es ≫= put_entry) ++
         (if count <? size then replicate (Z.to_nat (size - count)) (put_entry entry_default) ≫= id else [])).

Definition entry_size_blks (e : GptEntry) : Z := wrap64 (wrap64 (ent_end e - ent_start e) + 1).

Definition entry_is_multiple_of {E} (e : GptEntry) (blocks : Z) : outcome E bool :=
  if blocks =? 0 then Panicked else Ok (entry_size_blks e mod blocks =? 0).

(** *** Protective MBR *)

Definition protect (nb : Z) (e : MbrEntry) : MbrEntry :=
  mkMbrEntry 0 [0x00; 0x02; 0x00] 0xee [0xff; 0xff; 0xff] 1
    (if u32_max <? nb then u32_max else wrap32 (wrap64 (nb - 1))).

Definition pmbr_default : Pmbr := mkPmbr 0 0 (replicate 4 mbr_entry_default) PMBR_SIGNATURE.

Definition pmbr_from_slice (bs : list Z) : outcome ProbeError Pmbr :=
  match get_pmbr bs with
  | None => Err DeserializeError
  | Some (m, _) => if bool_decide (mbr_signature m = PMBR_SIGNATURE) then Ok m else Err MbrSignature
  end.

(** *** Validation *)

Definition validate_primary_header (h : GptHeader) (bs nb : Z) : outcome ProbeError unit :=
  if negb (lba_self h =? 1) then Err PrimaryLocation
  else if negb (wrap64 (lba_alt h + 1) =? nb) then Err SecondaryLocation
  else if lba_alt h <=? lba_end h then Err LastUsableBlock
  else if negb (lba_table h =? wrap64 (lba_self h + 1)) then Err PartitionTableLocation
  else if PARTITION_TABLE_SIZE <? wrap32 (num_entries h * entry_size h) then Err PartitionTableSize
  else
    table ← get_blocks PARTITION_TABLE_SIZE bs;
    if lba_start h <? wrap64 (lba_table h + table) then Err PartitionTableSpace else Ok tt.

Definition validate_secondary_header (h : GptHeader) (bs nb : Z) : outcome ProbeError unit :=
  if negb (lba_alt h =? 1) then Err PrimaryLocation
  else if negb (wrap64 (lba_self h + 1) =? nb) then Err SecondaryLocation
  else if lba_start h <=? lba_alt h then Err FirstUsableBlock
  else if negb (lba_table h =? wrap64 (lba_end h + 1)) then Err PartitionTableLocation
  else if PARTITION_TABLE_SIZE <? wrap32 (num_entries h * entry_size h) then Err PartitionTableSize
  else
    table ← get_blocks PARTITION_TABLE_SIZE bs;
    if lba_self h <? wrap64 (lba_table h + table) then Err PartitionTableSpace else Ok tt.

Definition validate_entry (h : GptHeader) (e : GptEntry) : outcome ProbeError unit :=
  if (0 <? ent_start e) && (ent_start e <? lba_start h) then Err PartitionStart
  else if ent_end e <? ent_start e then Err NegativePartitionSize
  else if lba_end h <? ent_end e then Err PartitionEnd
  else Ok tt.

Fixpoint validate_entries (h : GptHeader) (es : list GptEntry) : outcome ProbeError unit :=
  match es with
  | [] => Ok tt
  | e :: es => _ ← validate_entry h e; validate_entries h es
  end.

Definition validate_partitions (es : list GptEntry) (h : GptHeader) : outcome ProbeError unit :=
  _ ← validate_entries h es;
  if table_crc h =? entries_checksum es (num_entries h) then Ok tt else Err PartitionTableChecksum.

Definition consistency_check (p s : GptHeader) : outcome ProbeError unit :=
  if negb (lba_self p =? lba_alt s) then Err CompareHeaderLocation
  else if negb (lba_alt p =? lba_self s) then Err CompareHeaderLocation
  else if negb (lba_start p =? lba_start s) then Err FirstUsableBlock
  else if negb (lba_end p =? lba_end s) then Err LastUsableBlock
  else if negb (bool_decide (guid p = guid s)) then Err CompareDiskGuid
  else if negb (num_entries p =? num_entries s) then Err ComparePartitionEntryCount
  else if negb (entry_size p =? entry_size s) then Err ComparePartitionEntrySize
  else if negb (table_crc p =? table_crc s) then Err ComparePartitionTableChecksum
  else Ok tt.

Definition read_mbr (buf : list Z) : outcome ProbeError Pmbr :=
  s ← slice 440 512 buf; pmbr_from_slice s.

Definition read_primary_header (buf : list Z) (bs nb : Z) : outcome ProbeError GptHeader :=
  h ← header_from_slice buf;
  _ ← validate_primary_header h bs nb;
  Ok h.

Definition read_secondary_header (buf : list Z) (bs nb : Z) : outcome ProbeError GptHeader :=
  h ← header_from_slice buf;
  _ ← validate_secondary_header h bs nb;
  Ok h.

Definition read_partitions (buf : list Z) (h : GptHeader) : outcome ProbeError (list GptEntry) :=
  es ← entries_from_slice (Z.to_nat (num_entries h)) buf;
  _ ← validate_partitions es h;
  Ok es.

(** *** Labels *)

Definition label_new (g : GptGuid) (bs nb : Z) (es : list GptEntry) : outcome LabelError GptLabel :=
  let pmbr := mkPmbr 0 0 [protect nb mbr_entry_default; mbr_entry_default; mbr_entry_default;
                          mbr_entry_default] PMBR_SIGNATURE in
  h ← header_new g bs nb;
  let h := checksum (set_table_crc (entries_checksum es (num_entries h)) h) in
  Ok (mkLabel Neither bs pmbr h es (as_secondary h)).

Definition partition (name : list Z) (l : GptLabel) : option GptEntry :=
  snd <$> list_find (λ e, ent_name e = name) (partitions l).

Definition partition_offset (name : list Z) (l : GptLabel) : outcome ProbeError Z :=
  match partition name l with
  | Some e => Ok (wrap64 (ent_start e * block_size l))
  | None => Err (MissingPartition name)
  end.

Definition partition_size (name : list Z) (l : GptLabel) : outcome ProbeError Z :=
  match partition name l with
  | Some e => Ok (wrap64 (wrap64 (wrap64 (ent_end e - ent_start e) + 1) * block_size l))
  | None => Err (MissingPartition name)
  end.

(** *** The disk

    [buffer_alloc] gives a buffer of the given size; [read_at] fills a buffer
    from an offset. *)

Variable buffer_alloc : Z → outcome DmaError (list Z).
Variable read_at : Z → list Z → outcome CoreError (list Z).

(** The two headers of a disk, with the status and the table to use. *)
Definition read_headers (bs nb : Z) (buf : list Z)
    : outcome LabelError (LabelStatus * GptHeader * GptHeader * GptHeader) :=
  buf ← map_err ReadError (read_at bs buf);
  let offset := wrap64 (wrap64 (nb - 1) * bs) in
  match read_primary_header buf bs nb with
  | Ok p =>
      buf ← map_err ReadError (read_at offset buf);
      match read_secondary_header buf bs nb with
      | Ok s => _ ← map_err InvalidLabel (consistency_check p s); Ok (Both, p, s, p)
      | Err _ => Ok (Primary, p, as_secondary p, p)
      | Panicked => Panicked
      end
  | Err e =>
      buf ← map_err ReadError (read_at offset buf);
      match read_secondary_header buf bs nb with
      | Ok s => Ok (Secondary, as_primary s, s, s)
      | Err _ => Err (InvalidLabel e)
      | Panicked => Panicked
      end
  | Panicked => Panicked
  end.

Definition probe_label (bs nb : Z) : outcome LabelError GptLabel :=
  buf ← map_err ReadAlloc (buffer_alloc bs);
  buf ← map_err ReadError (read_at 0 buf);
  m ← map_err InvalidLabel (read_mbr buf);
  hs ← read_headers bs nb buf;
  let '(st, p, s, active) := (hs : LabelStatus * GptHeader * GptHeader * GptHeader) in
  let sectors := num_sectors (nth 0 (entries m) mbr_entry_default) in
  if negb (sectors =? 0xffffffff) && negb (sectors =? lba_alt p) then Err (InvalidLabel MbrSize)
  else
    blocks ← get_blocks (wrap32 (entry_size active * num_entries active)) bs;
    buf ← map_err ReadAlloc (buffer_alloc (wrap64 (blocks * bs)));
    buf ← map_err ReadError (read_at (wrap64 (lba_table active * bs)) buf);
    es ← map_err InvalidLabel (read_partitions buf active);
    Ok (mkLabel st bs m p (filter (λ e, 0 < ent_start e ∨ 0 < ent_end e) es) s).

(** Entries are written one after the other from [pos]. *)
Fixpoint write_entries (pos : Z) (es : list GptEntry) (buf : list Z) : option (list Z) :=
  match es with
  | [] => Some buf
  | e :: es => buf ← write_at pos (put_entry e) buf; write_entries (pos + Z.of_nat (length (put_entry e))) es buf
  end.

Definition ser (o : option (list Z)) : outcome LabelError (list Z) :=
  match o with Some b => Ok b | None => Err SerializeError end.

(** Offset and data. *)
Definition primary_data (l : GptLabel) : outcome LabelError (Z * list Z) :=
  buf ← map_err WriteAlloc (buffer_alloc (wrap64 (lba_start (primary l) * block_size l)));
  buf ← ser (write_at 440 (put_pmbr (mbr l)) buf);
  buf ← ser (write_at (wrap64 (lba_self (primary l) * block_size l)) (put_header (primary l)) buf);
  buf ← ser (write_entries (wrap64 (lba_table (primary l) * block_size l)) (partitions l) buf);
  Ok (0, buf).

Definition secondary_data (l : GptLabel) : outcome LabelError (Z * list Z) :=
  let s := secondary l in
  let gap := wrap64 (lba_self s - lba_table s) in
  buf ← map_err WriteAlloc (buffer_alloc (wrap64 (wrap64 (gap + 1) * block_size l)));
  buf ← ser (write_entries 0 (partitions l) buf);
  buf ← ser (write_at (wrap64 (gap * block_size l)) (put_header s) buf);
  Ok (wrap64 (lba_table s * block_size l), buf).

End Gpt.
End Gpt.
