(* ===== verification/GptFacts.v ===== *)
(** * Facts on partition tables

    Round trips of the encodings of [Gpt], what the cursor writes leave in a
    buffer, and what the probe of a disk that holds a label finds. *)

From S2P Require Import Prelude Codec Errors Gpt.
Import Utf16 Gpt.

Module GptFacts.

Section Encoding.
Context {bc : Bincode} {laws : BincodeLaws}.

(** Values that fit their fields. *)
Definition guid_ok (g : GptGuid) : Prop :=
  fits 4 (time_low g) ∧ fits 2 (time_mid g) ∧ fits 2 (time_high g) ∧ Forall (fits 1) (node g) ∧
  length (node g) = 8%nat.

Record header_ok (h : GptHeader) : Prop := {
  ho_signature : Forall (fits 1) (signature h) ∧ length (signature h) = 8%nat;
  ho_revision : Forall (fits 1) (revision h) ∧ length (revision h) = 4%nat;
  ho_reserved : Forall (fits 1) (reserved h) ∧ length (reserved h) = 4%nat;
  ho_u32 : fits 4 (header_size h) ∧ fits 4 (self_checksum h) ∧ fits 4 (num_entries h) ∧
           fits 4 (entry_size h) ∧ fits 4 (table_crc h);
  ho_u64 : fits 8 (lba_self h) ∧ fits 8 (lba_alt h) ∧ fits 8 (lba_start h) ∧ fits 8 (lba_end h) ∧
           fits 8 (lba_table h);
  ho_guid : guid_ok (guid h);
}.

(** Names of at most 35 units: the 36th must be zero. *)
Definition name_ok (n : list Z) : Prop :=
  Forall is_scalar n ∧ Forall (λ c, c ≠ 0) n ∧ (length (encode_utf16 n) ≤ 35)%nat.

Definition entry_ok (e : GptEntry) : Prop :=
  guid_ok (ent_type e) ∧ guid_ok (ent_guid e) ∧ fits 8 (ent_start e) ∧ fits 8 (ent_end e) ∧
  fits 8 (ent_attr e) ∧ name_ok (ent_name e).

Definition mbr_entry_ok (e : MbrEntry) : Prop :=
  fits 1 (attributes e) ∧ Forall (fits 1) (chs_start e) ∧ length (chs_start e) = 3%nat ∧
  fits 1 (mbr_ent_type e) ∧ Forall (fits 1) (chs_last e) ∧ length (chs_last e) = 3%nat ∧
  fits 4 (mbr_lba_start e) ∧ fits 4 (num_sectors e).

Definition pmbr_ok (m : Pmbr) : Prop :=
  fits 4 (disk_signature m) ∧ fits 2 (mbr_reserved m) ∧ Forall mbr_entry_ok (entries m) ∧
  length (entries m) = 4%nat ∧ Forall (fits 1) (mbr_signature m) ∧ length (mbr_signature m) = 2%nat.

(** An array of known length is read back. *)
Lemma get_put_array w k l rest :
  Forall (fits w) l → length l = k → get_list w k (put_list w l ++ rest) = Some (l, rest).
Proof. intros ? <-. by apply get_put_list. Qed.

(** Read one field after the other. *)
Ltac next_field lem := rewrite lem by done; cbn [mbind option_bind].
Ltac read_fields :=
  rewrite <- ?app_assoc; repeat first [next_field bc_get_put|next_field get_put_array].

Lemma get_put_guid g rest : guid_ok g → get_guid (put_guid g ++ rest) = Some (g, rest).
Proof.
  intros (? & ? & ? & ? & ?). unfold get_guid, put_guid. read_fields. by destruct g.
Qed.

Lemma put_guid_length g : length (node g) = 8%nat → length (put_guid g) = 16%nat.
Proof. intros Hg. unfold put_guid. by rewrite !length_app, !bc_length, put_list_length, Hg. Qed.

Lemma get_put_header h rest : header_ok h → get_header (put_header h ++ rest) = Some (h, rest).
Proof.
  intros [[? ?] [? ?] [? ?] (? & ? & ? & ? & ?) (? & ? & ? & ? & ?) Hg].
  unfold get_header, put_header. read_fields. next_field get_put_guid. read_fields.
  by destruct h.
Qed.

Lemma put_header_length h : header_ok h → length (put_header h) = 92%nat.
Proof.
  intros [[_ H1] [_ H2] [_ H3] _ _ (_ & _ & _ & _ & Hg)]. unfold put_header.
  by rewrite !length_app, !bc_length, !put_list_length, put_guid_length, H1, H2, H3 by done.
Qed.

Lemma visit_zeros k out rest :
  visit_seq k true out (put_list 2 (replicate k 0) ++ rest) = Some (true, out, rest).
Proof.
  induction k as [|k IH]; csimpl; [done|]. unfold put_list. csimpl. rewrite <- app_assoc.
  rewrite bc_get_put by (unfold fits; simpl; lia). simpl. apply IH.
Qed.

Lemma visit_units us k out rest :
  Forall (fits 2) us → Forall (λ u, u ≠ 0) us → (0 < k)%nat →
  visit_seq (length us + k) false out (put_list 2 (us ++ replicate k 0) ++ rest) = Some (true, out ++ us, rest).
Proof.
  intros Hf. revert out. induction Hf as [|u us Hu _ IH]; intros out Hn Hk; csimpl.
  - destruct k as [|k]; [lia|]. simpl. unfold put_list. csimpl. rewrite <- app_assoc.
    rewrite bc_get_put by (unfold fits; simpl; lia). simpl. rewrite app_nil_r. apply visit_zeros.
  - apply Forall_cons in Hn as [Hu0 Hn]. unfold put_list. csimpl. rewrite <- app_assoc.
    rewrite bc_get_put by done. simpl. destruct (Z.eqb_spec u 0); [done|]. simpl.
    etrans; [by apply IH|]. by rewrite <- app_assoc.
Qed.

Lemma get_put_name n rest : name_ok n → get_name (put_name n ++ rest) = Some (n, rest).
Proof.
  intros (Hs & Hz & Hl). unfold get_name, put_name, name_units. rewrite take_ge by lia.
  set (us := encode_utf16 n) in *.
  pose proof (visit_units us (36 - length us) [] rest (encode_utf16_fits n Hs)
    (encode_utf16_nonzero n Hs Hz) ltac:(lia)) as Hv.
  replace (length us + (36 - length us))%nat with 36%nat in Hv by lia.
  rewrite Hv. simpl. unfold us. by rewrite utf16_roundtrip.
Qed.

Lemma put_name_length n : length (put_name n) = 72%nat.
Proof.
  unfold put_name, name_units. rewrite put_list_length, length_app, length_replicate.
  pose proof (length_take_le (encode_utf16 n) 36). rewrite !length_take. lia.
Qed.

Lemma get_put_entry e rest : entry_ok e → get_entry (put_entry e ++ rest) = Some (e, rest).
Proof.
  intros (? & ? & ? & ? & ? & Hn). pose proof (get_put_name (ent_name e) rest Hn) as Hname.
  unfold get_entry, put_entry. revert Hname. generalize (@get_name bc) as gn. intros gn Hname.
  rewrite <- !app_assoc. do 2 next_field get_put_guid. read_fields. next_field Hname. by destruct e.
Qed.

Lemma put_entry_length e : entry_ok e → length (put_entry e) = 128%nat.
Proof.
  intros ((_ & _ & _ & _ & H1) & (_ & _ & _ & _ & H2) & _). unfold put_entry.
  by rewrite !length_app, !bc_length, !put_guid_length, put_name_length by done.
Qed.

Lemma entry_default_ok : entry_ok entry_default.
Proof.
  assert (Hz : guid_ok guid_default).
  { do 3 (split; [unfold fits; simpl; lia|]).
    split; [|done]. apply Forall_replicate. unfold fits. simpl. lia. }
  split; [done|]. split; [done|]. do 3 (split; [unfold fits; simpl; lia|]).
  split; [by constructor|]. split; [by constructor|]. simpl. lia.
Qed.

Lemma put_guid_default : put_guid guid_default = replicate 16 0.
Proof.
  unfold put_guid. change (node guid_default) with (replicate 8 0).
  rewrite put_list_zero. cbn [time_low time_mid time_high guid_default]. by rewrite !bc_zero.
Qed.

(** An unused entry is 128 zeroes. *)
Lemma put_entry_default : put_entry entry_default = replicate 128 0.
Proof.
  unfold put_entry, put_name. change (name_units (ent_name entry_default)) with (replicate 36 0).
  cbn [ent_type ent_guid ent_start ent_end ent_attr entry_default].
  by rewrite put_guid_default, put_list_zero, !bc_zero.
Qed.

Lemma get_put_mbr_entry e rest : mbr_entry_ok e → get_mbr_entry (put_mbr_entry e ++ rest) = Some (e, rest).
Proof.
  intros (? & ? & ? & ? & ? & ? & ? & ?). unfold get_mbr_entry, put_mbr_entry. read_fields. by destruct e.
Qed.

Lemma put_mbr_entry_length e : mbr_entry_ok e → length (put_mbr_entry e) = 16%nat.
Proof.
  intros (_ & _ & H1 & _ & _ & H2 & _). unfold put_mbr_entry.
  by rewrite !length_app, !bc_length, !put_list_length, H1, H2.
Qed.

Lemma get_put_pmbr m rest : pmbr_ok m → get_pmbr (put_pmbr m ++ rest) = Some (m, rest).
Proof.
  intros (? & ? & He & Hl & ? & ?). unfold get_pmbr, put_pmbr.
  destruct m as [d r es sg]. simpl in *.
  destruct es as [|e0 [|e1 [|e2 [|e3 [|]]]]]; try done. csimpl. rewrite app_nil_r.
  repeat (apply Forall_cons in He as [? He]). read_fields.
  do 4 next_field get_put_mbr_entry. read_fields. done.
Qed.

Lemma put_pmbr_length m : pmbr_ok m → length (put_pmbr m) = 72%nat.
Proof.
  intros (_ & _ & He & Hl & _ & Hs). unfold put_pmbr. rewrite !length_app, !bc_length, put_list_length, Hs.
  destruct m as [d r es sg]. simpl in *.
  destruct es as [|e0 [|e1 [|e2 [|e3 [|]]]]]; try done. csimpl. rewrite app_nil_r.
  repeat (apply Forall_cons in He as [? He]). by rewrite !length_app, !put_mbr_entry_length by done.
Qed.

End Encoding.

(** ** Buffers

    The bytes [bs] at position [p] of a buffer. *)

Definition region (buf : list Z) (p : nat) (bs : list Z) : Prop :=
  ∀ i b, bs !! i = Some b → buf !! (p + i)%nat = Some b.

Lemma region_app buf p xs ys : region buf p xs → region buf (p + length xs) ys → region buf p (xs ++ ys).
Proof.
  intros Hx Hy i b Hi. apply lookup_app_Some in Hi as [Hi|[Hle Hi]]; [by apply Hx|].
  apply Hy in Hi. rewrite <- Hi. f_equal. lia.
Qed.

Lemma region_zeros L p k : (p + k ≤ L)%nat → region (replicate L 0) p (replicate k 0).
Proof.
  intros Hle i b [-> Hi]%lookup_replicate. apply lookup_replicate. split; [done|lia].
Qed.

Lemma write_at_spec pos bs buf :
  0 ≤ pos → pos + Z.of_nat (length bs) ≤ Z.of_nat (length buf) →
  ∃ buf', write_at pos bs buf = Some buf' ∧ length buf' = length buf ∧
    region buf' (Z.to_nat pos) bs ∧
    ∀ p xs, (p + length xs ≤ Z.to_nat pos ∨ Z.to_nat pos + length bs ≤ p)%nat →
      region buf p xs → region buf' p xs.
Proof.
  intros H0 Hle. unfold write_at. rewrite (proj2 (Z.leb_le 0 pos)), (proj2 (Z.leb_le _ _)) by lia. simpl.
  eexists. split; [done|]. split_and!.
  - rewrite !length_app, length_take, length_drop. lia.
  - intros i b Hi. pose proof (lookup_lt_Some _ _ _ Hi).
    rewrite lookup_app_r; rewrite length_take; [|lia].
    rewrite lookup_app_l by lia. rewrite <- Hi. f_equal. lia.
  - intros p xs Hd Hr i b Hi. pose proof (lookup_lt_Some _ _ _ Hi). specialize (Hr i b Hi).
    pose proof (lookup_lt_Some _ _ _ Hr). destruct Hd as [Hd|Hd].
    + rewrite lookup_app_l by (rewrite length_take; lia). rewrite lookup_take_lt by lia. done.
    + rewrite lookup_app_r; rewrite length_take; [|lia]. rewrite lookup_app_r by lia.
      rewrite lookup_drop, <- Hr. f_equal. lia.
Qed.

(** ** Disks

    What a disk with the given content returns. *)

Definition holds (content : Z → Z) (off : Z) (buf : list Z) : Prop :=
  ∀ i b, buf !! i = Some b → content (off + Z.of_nat i) = b.

Lemma holds_region content off buf p bs :
  holds content off buf → region buf p bs → holds content (off + Z.of_nat p) bs.
Proof. intros Hh Hr i b Hi. rewrite <- (Hh _ _ (Hr i b Hi)). f_equal. lia. Qed.

Lemma holds_read content off bs n :
  holds content off bs → Z.of_nat (length bs) ≤ n →
  ∃ rest, content <$> seqZ off n = bs ++ rest.
Proof.
  intros Hh Hn. replace n with (Z.of_nat (length bs) + (n - Z.of_nat (length bs))) by lia.
  rewrite seqZ_app, fmap_app by lia. eexists. f_equal.
  apply list_eq. intros i. rewrite list_lookup_fmap. destruct (bs !! i) as [b|] eqn:E.
  - rewrite lookup_seqZ_lt by (pose proof (lookup_lt_Some _ _ _ E); lia). simpl. f_equal. by apply Hh.
  - rewrite lookup_seqZ_ge by (pose proof (lookup_ge_None_1 _ _ E); lia). done.
Qed.

(** The disk after a write. *)
Definition overlay (content : Z → Z) (off : Z) (buf : list Z) : Z → Z :=
  λ i, if (off <=? i) && (i <? off + Z.of_nat (length buf)) then nth (Z.to_nat (i - off)) buf 0 else content i.

Lemma overlay_holds content off buf : holds (overlay content off buf) off buf.
Proof.
  intros i b Hi. pose proof (lookup_lt_Some _ _ _ Hi). unfold overlay.
  rewrite (proj2 (Z.leb_le _ _)), (proj2 (Z.ltb_lt _ _)) by lia. simpl.
  replace (Z.to_nat (off + Z.of_nat i - off)) with i by lia. by apply nth_lookup_Some.
Qed.

Lemma overlay_outside content off buf i :
  ¬ (off ≤ i < off + Z.of_nat (length buf)) → overlay content off buf i = content i.
Proof.
  intros Hi. unfold overlay. destruct (Z.leb_spec off i), (Z.ltb_spec i (off + Z.of_nat (length buf))); simpl; done || lia.
Qed.

Lemma holds_ext content content' off bs :
  (∀ i, off ≤ i < off + Z.of_nat (length bs) → content' i = content i) → holds content off bs → holds content' off bs.
Proof. intros He Hh i b Hi. pose proof (lookup_lt_Some _ _ _ Hi). rewrite He by lia. by apply Hh. Qed.

(** ** Labels *)

Definition blocks (size bs : Z) : Z := if size mod bs =? 0 then size / bs else size / bs + 1.

Lemma blocks_bounds size bs :
  0 < bs → 0 ≤ size → 0 ≤ blocks size bs ∧ (blocks size bs - 1) * bs < size ≤ blocks size bs * bs.
Proof.
  intros Hb Hs. unfold blocks. pose proof (Z.div_mod size bs ltac:(lia)).
  pose proof (Z.mod_pos_bound size bs ltac:(lia)). pose proof (Z.div_pos size bs ltac:(lia) Hb).
  destruct (Z.eqb_spec (size mod bs) 0); nia.
Qed.

Lemma get_blocks_ok {E} size bs : 0 < bs → 0 ≤ size < 2^63 → @get_blocks E size bs = Ok (blocks size bs).
Proof.
  intros Hb Hs. unfold get_blocks, blocks. destruct (Z.eqb_spec bs 0); [lia|].
  destruct (size mod bs =? 0); [done|]. rewrite wrap64_small; [done|].
  assert (0 ≤ size / bs ≤ size) by (split; [apply Z.div_pos; lia|apply Z.div_le_upper_bound; nia]).
  unfold is_u64. lia.
Qed.

Section Label.
Context {bc : Bincode} {laws : BincodeLaws}.
Variable crc32 : list Z → Z.
Hypothesis crc_range : ∀ l, fits 4 (crc32 l).

Local Abbreviation checksum := (checksum crc32).

Lemma checksum_idem h : checksum (checksum h) = checksum h.
Proof. done. Qed.

Lemma header_reads h rest :
  header_ok h → header_size h = HEADER_SIZE → signature h = HEADER_SIGNATURE →
  revision h = HEADER_REVISION → checksum h = h → header_from_slice crc32 (put_header h ++ rest) = Ok h.
Proof.
  intros Ho Hs Hg Hr Hc. unfold header_from_slice. rewrite get_put_header by done.
  rewrite Hs, Z.eqb_refl, !bool_decide_true, Hc, Z.eqb_refl by done. done.
Qed.

(** *** The partition table *)

Definition table (es : list GptEntry) : list Z :=
  (es ++ replicate (128 - length es) entry_default) ≫= put_entry.

Lemma entries_length es : Forall entry_ok es → length (es ≫= put_entry) = (128 * length es)%nat.
Proof.
  induction 1 as [|e es He _ IH]; [done|]. csimpl. rewrite length_app, IH, put_entry_length by done. lia.
Qed.

Lemma defaults_ok k : Forall entry_ok (replicate k entry_default).
Proof. apply Forall_replicate, entry_default_ok. Qed.

Lemma defaults_zero k : replicate k entry_default ≫= put_entry = replicate (128 * k) 0.
Proof.
  induction k as [|k IH]; [done|]. rewrite Nat.mul_succ_r, Nat.add_comm, replicate_add, <- IH. csimpl.
  by rewrite put_entry_default.
Qed.

Lemma table_zeros es : table es = (es ≫= put_entry) ++ replicate (128 * (128 - length es)) 0.
Proof. unfold table. by rewrite bind_app, defaults_zero. Qed.

Lemma table_length es : Forall entry_ok es → (length es ≤ 128)%nat → Z.of_nat (length (table es)) = 16384.
Proof.
  intros He Hl. rewrite table_zeros, length_app, entries_length, length_replicate by done. lia.
Qed.

Lemma entries_read es rest :
  Forall entry_ok es → entries_from_slice (length es) ((es ≫= put_entry) ++ rest) = Ok es.
Proof.
  induction 1 as [|e es He _ IH]; [done|]. csimpl. rewrite <- app_assoc, get_put_entry by done.
  by rewrite IH.
Qed.

Lemma table_read es rest :
  Forall entry_ok es → (length es ≤ 128)%nat →
  entries_from_slice 128 (table es ++ rest) = Ok (es ++ replicate (128 - length es) entry_default).
Proof.
  intros He Hl. unfold table.
  replace 128%nat with (length (es ++ replicate (128 - length es) entry_default)) at 1
    by (rewrite length_app, length_replicate; lia).
  apply entries_read, Forall_app. split; [done|apply defaults_ok].
Qed.

Lemma table_checksum es :
  (length es ≤ 128)%nat → entries_checksum crc32 es 128 = crc32 (table es).
Proof.
  intros Hl. unfold entries_checksum. rewrite wrap32_small by lia. f_equal.
  unfold table. rewrite bind_app. f_equal. destruct (Z.ltb_spec (Z.of_nat (length es)) 128).
  - replace (Z.to_nat (128 - Z.of_nat (length es))) with (128 - length es)%nat by lia.
    induction (128 - length es)%nat as [|k IH]; [done|]. csimpl. by rewrite IH.
  - by replace (128 - length es)%nat with 0%nat by lia.
Qed.

Lemma table_checksum_padded es :
  (length es ≤ 128)%nat →
  entries_checksum crc32 (es ++ replicate (128 - length es) entry_default) 128 = crc32 (table es).
Proof.
  intros Hl. rewrite table_checksum by (rewrite length_app, length_replicate; lia).
  unfold table at 1. rewrite length_app, length_replicate.
  replace (128 - (length es + (128 - length es)))%nat with 0%nat by lia. by rewrite app_nil_r.
Qed.

(** Entries in the usable area. *)
Definition entry_valid (h : GptHeader) (e : GptEntry) : Prop :=
  0 < ent_start e ∧ lba_start h ≤ ent_start e ≤ ent_end e ∧ ent_end e ≤ lba_end h.

Lemma validate_entries_ok h es k :
  Forall (entry_valid h) es → 0 ≤ lba_end h →
  validate_entries h (es ++ replicate k entry_default) = Ok tt.
Proof.
  intros Hv He. induction Hv as [|e es (H1 & H2 & H3) _ IH]; simpl.
  - induction k as [|k IH]; [done|]. simpl. unfold validate_entry. simpl.
    destruct (Z.ltb_spec (lba_end h) 0); [lia|]. done.
  - unfold validate_entry. rewrite (proj2 (Z.ltb_ge (ent_start e) _)), andb_false_r by lia.
    rewrite (proj2 (Z.ltb_ge _ _)), (proj2 (Z.ltb_ge _ _)) by lia. done.
Qed.

Lemma retained es h k :
  Forall (entry_valid h) es →
  filter (λ e, 0 < ent_start e ∨ 0 < ent_end e) (es ++ replicate k entry_default) = es.
Proof.
  intros Hv. rewrite filter_app. assert (filter (λ e, 0 < ent_start e ∨ 0 < ent_end e) es = es) as ->.
  { induction Hv as [|e es (H1 & _) _ IH]; [done|]. rewrite filter_cons_True by (by left). by rewrite IH. }
  assert (filter (λ e, 0 < ent_start e ∨ 0 < ent_end e) (replicate k entry_default) = []) as ->.
  { induction k as [|k IH]; [done|]. simpl. rewrite filter_cons_False; [done|]. simpl. lia. }
  apply app_nil_r.
Qed.

Lemma read_partitions_ok es h rest :
  Forall entry_ok es → (length es ≤ 128)%nat → Forall (entry_valid h) es → 0 ≤ lba_end h →
  num_entries h = 128 → table_crc h = crc32 (table es) →
  read_partitions crc32 (table es ++ rest) h = Ok (es ++ replicate (128 - length es) entry_default).
Proof.
  intros He Hl Hv Hend Hn Ht. unfold read_partitions. rewrite Hn. change (Z.to_nat 128) with 128%nat.
  rewrite table_read by done. simpl. unfold validate_partitions.
  rewrite validate_entries_ok by done. simpl. rewrite Hn, Ht, table_checksum_padded, Z.eqb_refl by done. done.
Qed.

Lemma write_entries_spec es pos buf :
  Forall entry_ok es → 0 ≤ pos → pos + 128 * Z.of_nat (length es) ≤ Z.of_nat (length buf) →
  ∃ buf', write_entries pos es buf = Some buf' ∧ length buf' = length buf ∧
    region buf' (Z.to_nat pos) (es ≫= put_entry) ∧
    ∀ p xs, (p + length xs ≤ Z.to_nat pos ∨ Z.to_nat pos + 128 * length es ≤ p)%nat →
      region buf p xs → region buf' p xs.
Proof.
  intros He. revert pos buf. induction He as [|e es He _ IH]; intros pos buf H0 Hle.
  - exists buf. split_and!; [done|done| |done]. by intros i b.
  - simpl in Hle. csimpl. pose proof (put_entry_length e He) as Hpl.
    destruct (write_at_spec pos (put_entry e) buf) as (b1 & -> & Hl1 & Hr1 & Hk1); [lia|lia|]. simpl.
    destruct (IH (pos + Z.of_nat (length (put_entry e))) b1) as (b2 & -> & Hl2 & Hr2 & Hk2); [lia|lia|].
    exists b2. rewrite Hpl in *. split_and!; [done|lia| |].
    + apply region_app.
      * apply Hk2; [left; lia|done].
      * rewrite Hpl. intros i b Hi. rewrite <- (Hr2 i b Hi). f_equal. lia.
    + intros p xs Hd Hx. apply Hk2; [lia|]. apply Hk1; [lia|done].
Qed.

End Label.

End GptFacts.
