(* ===== verification/GptMaya.v ===== *)
(** * The versioned layout of nexus labels

    The two partitions every label has, their placement on a device, and the
    recognition of a label's version ([core/gpt/maya.rs], [core/gpt/label.rs]).
    Parsing of UUIDs is the interface [Uuids]. *)

From S2P Require Import Prelude Codec Errors Gpt GptFacts.
Import Utf16 Gpt GptFacts.

(** The [uuid] crate: the four fields of a UUID in its textual form. *)
Class Uuids := { uuid_from_str : string → option (Z * Z * Z * list Z) }.

Module Maya.

(** The characters of a literal. *)
Definition chars (s : string) : list Z := (λ a, Z.of_nat (Ascii.nat_of_ascii a)) <$> String.list_ascii_of_string s.

Definition guid_from_uuid (f : Z * Z * Z * list Z) : GptGuid :=
  let '(a, b, c, d) := f in mkGuid a b c d.

Definition guid_from_str {U : Uuids} (s : string) : option GptGuid := guid_from_uuid <$> uuid_from_str s.

(** *** Alignment *)

Definition align_down {E} (value align : Z) : outcome E Z :=
  if align =? 0 then Panicked else Ok (wrap64 (value - value mod align)).

Definition align_up {E} (value align : Z) : outcome E Z :=
  if align =? 0 then Panicked
  else Ok (if value mod align =? 0 then value else Z.min (value + (align - value mod align)) u64_max).

Definition META_TYPE_GUID : string := "27663382-e5e6-11e9-81b4-ca5ca5ca5ca5".
Definition DATA_TYPE_GUID : string := "6527994e-2c5a-4eec-9613-8f5944074e8b".
Definition META_NAME : list Z := Eval vm_compute in chars "MayaMeta".
Definition DATA_NAME : list Z := Eval vm_compute in chars "MayaData".

(** The fields have the widths of the RFC, and the hyphenated text gives them in
    hexadecimal: stated for the two constants. *)
Class UuidsLaws {U : Uuids} := {
  uuid_fields s a b c d :
    uuid_from_str s = Some (a, b, c, d) →
    fits 4 a ∧ fits 2 b ∧ fits 2 c ∧ Forall (fits 1) d ∧ length d = 8%nat;
  uuid_meta : uuid_from_str META_TYPE_GUID =
    Some (0x27663382, 0xe5e6, 0x11e9, [0x81; 0xb4; 0xca; 0x5c; 0xa5; 0xca; 0x5c; 0xa5]);
  uuid_data : uuid_from_str DATA_TYPE_GUID =
    Some (0x6527994e, 0x2c5a, 0x4eec, [0x96; 0x13; 0x8f; 0x59; 0x44; 0x07; 0x4e; 0x8b]);
}.

(** *** Versions *)

Inductive LabelVersion := V1 | V2.

#[global] Instance LabelVersion_eq_dec : EqDecision LabelVersion.
Proof. solve_decision. Defined.

Definition ALL : list LabelVersion := [V1; V2].

Record Layout := mkLayout {
  META_SIZE : Z;
  DATA_START_OFFSET : Z;
  DATA_ALIGN_SIZE : Z;
  TRAILING_VOID_SIZE : Z;
  VERSION : LabelVersion;
}.

Definition layout_v1 : Layout := mkLayout (4 * 1024 * 1024) (5 * 1024 * 1024) 0 0 V1.
Definition layout_v2 : Layout :=
  mkLayout (3 * 1024 * 1024) (4 * 1024 * 1024) (1024 * 1024) (4 * 1024 * 1024) V2.

(** The layout behind a version. *)
Definition variant (v : LabelVersion) : Layout :=
  match v with V1 => layout_v1 | V2 => layout_v2 end.

(** *** The data extent *)

Record DataExtent := mkExtent { start : Z; end_ : Z }.

Definition extent_size (x : DataExtent) : Z := wrap64 (wrap64 (end_ x - start x) + 1).

(** A remainder by zero panics. *)
Definition extent_is_multiple_of {E} (x : DataExtent) (blocks : Z) : outcome E bool :=
  if blocks =? 0 then Panicked else Ok (extent_size x mod blocks =? 0).

Definition METADATA_RESERVATION_OFFSET : Z := 1024 * 1024.

(** The last block the data may use. *)
Definition usable_end (L : Layout) (last_usable data_start nb bs : Z) : outcome LabelError Z :=
  trailing_blocks ← get_blocks (TRAILING_VOID_SIZE L) bs;
  if 0 <? trailing_blocks
  then if nb <=? wrap64 (trailing_blocks + data_start) then Err (DeviceTooSmall nb bs)
       else Ok (wrap64 (wrap64 (nb - trailing_blocks) - 1))
  else Ok last_usable.

(** The length of the data. *)
Definition data_blocks (L : Layout) (req_blocks max_blocks bs : Z) : outcome LabelError Z :=
  if 0 <? DATA_ALIGN_SIZE L
  then cluster_blocks ← get_blocks (DATA_ALIGN_SIZE L) bs;
       up ← align_up req_blocks cluster_blocks;
       down ← align_down max_blocks cluster_blocks;
       Ok (Z.min up down)
  else Ok (Z.min req_blocks max_blocks).

Definition data_extent (L : Layout) (req_size nb bs : Z) : outcome LabelError DataExtent :=
  table_blocks ← get_blocks PARTITION_TABLE_SIZE bs;
  header_blocks ← get_blocks HEADER_SIZE bs;
  let last_usable := wrap64 (nb - table_blocks - header_blocks - 1) in
  first_usable_block ← get_blocks DATA_OFFSET bs;
  lba_start ← get_blocks METADATA_RESERVATION_OFFSET bs;
  if lba_start <? first_usable_block then Panicked
  else
    meta_blocks ← get_blocks (META_SIZE L) bs;
    let data_start := wrap64 (lba_start + meta_blocks) in
    if last_usable <? data_start then Err (DeviceTooSmall nb bs)
    else
      usable ← usable_end L last_usable data_start nb bs;
      let max_blocks := wrap64 (wrap64 (usable - data_start) + 1) in
      req_blocks ← get_blocks req_size bs;
      data ← data_blocks L req_blocks max_blocks bs;
      if data =? 0 then Err (DeviceTooSmall nb bs)
      else
        let data_end := wrap64 (wrap64 (data_start + data) - 1) in
        if (usable <? data_end) || (data_end <? data_start) then Err (DeviceTooSmall nb bs)
        else Ok (mkExtent data_start data_end).

(** *** Labels *)

Record VersionedLabel := mkVersioned { version : LabelVersion; gpt : GptLabel }.

Section Labels.
Context {bc : Bincode} {U : Uuids}.
Variable crc32 : list Z → Z.

(** Fails when the constant is not a UUID. *)
Definition meta_guid {E} : outcome E GptGuid :=
  match guid_from_str META_TYPE_GUID with Some g => Ok g | None => Panicked end.

Definition data_guid {E} : outcome E GptGuid :=
  match guid_from_str DATA_TYPE_GUID with Some g => Ok g | None => Panicked end.

(** [random] is the UUID drawn for the metadata partition. *)
Definition build_partitions (L : Layout) (h : GptHeader) (bs req_size : Z) (random : GptGuid)
    : outcome LabelError (list GptEntry) :=
  ext ← data_extent L req_size (wrap64 (lba_alt h + 1)) bs;
  meta ← meta_guid;
  data ← data_guid;
  Ok [mkEntry meta random (lba_start h) (wrap64 (start ext - 1)) 0 META_NAME;
      mkEntry data (guid h) (start ext) (end_ ext) 0 DATA_NAME].

Definition generate (L : Layout) (g : GptGuid) (bs nb req_size : Z) (random : GptGuid)
    : outcome LabelError VersionedLabel :=
  h ← header_new g bs nb;
  partitions ← build_partitions L h bs req_size random;
  gpt ← label_new crc32 g bs nb partitions;
  Ok (mkVersioned (VERSION L) gpt).

Definition check (L : Layout) (l : GptLabel) : outcome LabelError bool :=
  meta_blocks ← get_blocks (META_SIZE L) (block_size l);
  match partition META_NAME l with
  | None => Ok false
  | Some meta =>
      mg ← meta_guid;
      if negb (bool_decide (ent_type meta = mg))
         || negb (wrap64 (wrap64 (ent_end meta - ent_start meta) + 1) =? meta_blocks)
      then Ok false
      else match partition DATA_NAME l with
           | Some data =>
               dg ← data_guid;
               Ok (bool_decide (ent_type data = dg) && (ent_start data =? wrap64 (ent_end meta + 1)))
           | None => Ok false
           end
  end.

(** [ALL.iter().find(..)] *)
Fixpoint find_version (vs : list LabelVersion) (l : GptLabel) : outcome LabelError (option LabelVersion) :=
  match vs with
  | [] => Ok None
  | v :: vs => b ← check (variant v) l; if (b : bool) then Ok (Some v) else find_version vs l
  end.

Definition detect (l : GptLabel) : outcome LabelError (option LabelVersion) := find_version ALL l.

Definition version_data_extent (v : LabelVersion) (req_size nb bs : Z) : outcome LabelError DataExtent :=
  data_extent (variant v) req_size nb bs.

Definition version_generate (v : LabelVersion) (g : GptGuid) (bs nb req_size : Z) (random : GptGuid)
    : outcome LabelError VersionedLabel :=
  match v with
  | V1 => generate layout_v1 g bs nb req_size random
  | V2 => generate layout_v2 g bs nb req_size random
  end.

Definition data_start_blks {E} (v : LabelVersion) (bs : Z) : outcome E Z :=
  if bs =? 0 then Panicked else Ok (DATA_START_OFFSET (variant v) / bs).

Definition versioned_check (l : VersionedLabel) : outcome LabelError bool :=
  check (variant (version l)) (gpt l).

Variable buffer_alloc : Z → outcome DmaError (list Z).
Variable read_at : Z → list Z → outcome CoreError (list Z).

Definition versioned_probe (bs nb : Z) : outcome LabelError VersionedLabel :=
  l ← probe_label crc32 buffer_alloc read_at bs nb;
  v ← detect l;
  match v with
  | Some v => Ok (mkVersioned v l)
  | None => Err (InvalidLabel IncorrectPartitions)
  end.
End Labels.

(** ** Facts *)

Lemma get_blocks_u64 {E} size bs : 2 ≤ bs → is_u64 size → @get_blocks E size bs = Ok (blocks size bs).
Proof.
  intros Hb Hs. unfold get_blocks, blocks. destruct (Z.eqb_spec bs 0); [lia|].
  destruct (size mod bs =? 0); [done|]. rewrite wrap64_small; [done|]. unfold is_u64 in *.
  assert (0 ≤ size / bs) by (apply Z.div_pos; lia).
  assert (size / bs < 2^63) by (apply Z.div_lt_upper_bound; nia). lia.
Qed.

Lemma blocks_mono a b bs : 0 < bs → 0 ≤ a ≤ b → blocks a bs ≤ blocks b bs.
Proof.
  intros Hb Hab. pose proof (blocks_bounds a bs Hb ltac:(lia)). pose proof (blocks_bounds b bs Hb ltac:(lia)). nia.
Qed.

Lemma blocks_zero bs : blocks 0 bs = 0.
Proof. unfold blocks. by rewrite Zmod_0_l, Zdiv_0_l. Qed.

(** Rounding to multiples of [c]. *)
Definition round_up (x c : Z) : Z := blocks x c * c.
Definition round_down (x c : Z) : Z := x / c * c.

Lemma align_down_ok {E} x c : 0 < c → 0 ≤ x < 2^64 → @align_down E x c = Ok (round_down x c).
Proof.
  intros Hc Hx. unfold align_down, round_down. destruct (Z.eqb_spec c 0); [lia|].
  pose proof (Z.mod_le x c ltac:(lia) Hc). pose proof (Z.mod_pos_bound x c Hc).
  rewrite wrap64_small by (unfold is_u64; lia). f_equal. pose proof (Z.div_mod x c). lia.
Qed.

(** Saturation is not seen below a bound. *)
Lemma align_up_ok x c m :
  0 < c → 0 ≤ x → 0 ≤ m ≤ u64_max →
  ∃ y, (∀ E, @align_up E x c = Ok y) ∧ Z.min y m = Z.min (round_up x c) m.
Proof.
  intros Hc Hx Hm. unfold align_up, round_up, blocks. destruct (Z.eqb_spec c 0); [lia|].
  pose proof (Z.div_mod x c ltac:(lia)) as Hd. pose proof (Z.mod_pos_bound x c Hc).
  eexists. split; [done|]. destruct (Z.eqb_spec (x mod c) 0); [f_equal; lia|]. lia.
Qed.

(** The placement in exact arithmetic. *)
Definition first_block (L : Layout) (bs : Z) : Z := blocks DATA_OFFSET bs + blocks (META_SIZE L) bs.

(** Blocks behind the start of the data that are neither void nor label. *)
Definition capacity (L : Layout) (nb bs : Z) : Z :=
  nb - Z.max (blocks PARTITION_TABLE_SIZE bs + 1) (blocks (TRAILING_VOID_SIZE L) bs) - first_block L bs.

Definition cluster (L : Layout) (bs : Z) : Z := Z.max 1 (blocks (DATA_ALIGN_SIZE L) bs).

Definition extent_ref (L : Layout) (req_size nb bs : Z) : option DataExtent :=
  let n := Z.min (round_up (blocks req_size bs) (cluster L bs)) (round_down (capacity L nb bs) (cluster L bs)) in
  if 0 <? n then Some (mkExtent (first_block L bs) (first_block L bs + n - 1)) else None.

(** A device whose tables fit. *)
Definition sane (nb bs : Z) : Prop :=
  512 ≤ bs ≤ 2^18 ∧ nb < 2^64 ∧ blocks PARTITION_TABLE_SIZE bs + 2 ≤ nb.

Lemma layout_facts v bs :
  512 ≤ bs ≤ 2^18 →
  let L := variant v in
  blocks HEADER_SIZE bs = 1 ∧ 0 < blocks PARTITION_TABLE_SIZE bs ≤ 32 ∧
  4 ≤ blocks DATA_OFFSET bs ≤ 2048 ∧ 12 ≤ blocks (META_SIZE L) bs ≤ 8192 ∧
  (0 < blocks (TRAILING_VOID_SIZE L) bs → blocks PARTITION_TABLE_SIZE bs + 1 ≤ blocks (TRAILING_VOID_SIZE L) bs) ∧
  0 ≤ blocks (TRAILING_VOID_SIZE L) bs ≤ 8192 ∧
  (DATA_ALIGN_SIZE L = 0 ∧ cluster L bs = 1 ∨
   0 < DATA_ALIGN_SIZE L ∧ cluster L bs = blocks (DATA_ALIGN_SIZE L) bs).
Proof.
  intros Hb. assert (Hbb : ∀ s, 0 ≤ s → _) by (intros s Hs; exact (blocks_bounds s bs ltac:(lia) Hs)).
  pose proof (Hbb HEADER_SIZE ltac:(done)) as H1. pose proof (Hbb PARTITION_TABLE_SIZE ltac:(done)) as H2.
  pose proof (Hbb DATA_OFFSET ltac:(done)) as H3. unfold HEADER_SIZE, PARTITION_TABLE_SIZE, DATA_OFFSET in *.
  assert (blocks 92 bs = 1) by nia. assert (0 < blocks (128 * 128) bs ≤ 32) by nia.
  assert (4 ≤ blocks (1024 * 1024) bs ≤ 2048) by nia. assert (blocks (128 * 128) bs ≤ blocks (1024 * 1024) bs - 2) by nia.
  destruct v; simpl; unfold cluster; simpl; rewrite ?blocks_zero.
  - pose proof (Hbb (4 * 1024 * 1024) ltac:(done)). do 5 (split; [done || nia|]). split; [lia|]. by left.
  - pose proof (Hbb (3 * 1024 * 1024) ltac:(done)). pose proof (Hbb (4 * 1024 * 1024) ltac:(done)).
    do 4 (split; [done || nia|]). split; [nia|]. split; [nia|]. right. lia.
Qed.

Lemma usable_end_ok v nb bs :
  sane nb bs → first_block (variant v) bs ≤ nb - blocks PARTITION_TABLE_SIZE bs - 2 →
  usable_end (variant v) (nb - blocks PARTITION_TABLE_SIZE bs - 2) (first_block (variant v) bs) nb bs =
  if 0 <? capacity (variant v) nb bs
  then Ok (first_block (variant v) bs + capacity (variant v) nb bs - 1) else Err (DeviceTooSmall nb bs).
Proof.
  intros (Hb & Hn & Ht) Hl.
  destruct (layout_facts v bs Hb) as (H1 & H2 & H3 & H4 & H5 & H6 & _). unfold capacity, first_block, usable_end in *.
  set (L := variant v) in *. rewrite get_blocks_ok by (destruct v; simpl; lia). simpl.
  set (t := blocks (TRAILING_VOID_SIZE L) bs) in *. set (p := blocks PARTITION_TABLE_SIZE bs) in *.
  assert (Hq : 16 ≤ blocks DATA_OFFSET bs + blocks (META_SIZE L) bs ≤ 10240) by lia.
  set (q := blocks DATA_OFFSET bs + blocks (META_SIZE L) bs) in *.
  destruct (Z.ltb_spec 0 t).
  - rewrite !(Z.max_r (p + 1) t) by lia. rewrite (wrap64_small (t + q)) by (unfold is_u64; lia).
    destruct (Z.leb_spec nb (t + q)), (Z.ltb_spec 0 (nb - t - q)); try lia; [done|].
    rewrite (wrap64_small (nb - t)) by (unfold is_u64; lia).
    rewrite wrap64_small by (unfold is_u64; lia). f_equal. lia.
  - rewrite !(Z.max_l (p + 1) t) by lia. destruct (Z.ltb_spec 0 (nb - (p + 1) - q)); [f_equal; lia|lia].
Qed.

Lemma round_down_bounds x c : 0 < c → 0 ≤ x → 0 ≤ round_down x c ≤ x.
Proof.
  intros Hc Hx. unfold round_down. pose proof (Z.div_mod x c ltac:(lia)).
  pose proof (Z.mod_pos_bound x c Hc). pose proof (Z.div_pos x c Hx Hc). nia.
Qed.

Lemma round_down_nonpos x c : 0 < c → x ≤ 0 → round_down x c ≤ 0.
Proof. intros Hc Hx. unfold round_down. pose proof (Z.div_le_mono x 0 c Hc Hx). rewrite Z.div_0_l in *; nia. Qed.

Lemma data_blocks_ok v req nb bs :
  sane nb bs → is_u64 req → 0 < capacity (variant v) nb bs →
  data_blocks (variant v) (blocks req bs) (capacity (variant v) nb bs) bs =
  Ok (Z.min (round_up (blocks req bs) (cluster (variant v) bs))
            (round_down (capacity (variant v) nb bs) (cluster (variant v) bs))).
Proof.
  intros (Hb & Hn & Ht) Hr Hc.
  destruct (layout_facts v bs Hb) as (H1 & H2 & H3 & H4 & _ & H6 & H7). unfold data_blocks.
  assert (capacity (variant v) nb bs < nb) by (unfold capacity, first_block; lia).
  pose proof (blocks_bounds req bs ltac:(lia) (proj1 Hr)) as [Hr0 _].
  destruct H7 as [[-> ->]|[Ha E]].
  - simpl. unfold round_up, round_down, blocks. by rewrite !Z.mod_1_r, !Z.div_1_r, !Z.mul_1_r.
  - rewrite (proj2 (Z.ltb_lt _ _) Ha). rewrite get_blocks_ok by (destruct v; simpl in *; lia). simpl.
    assert (0 < cluster (variant v) bs) by (unfold cluster; lia). rewrite <- E.
    pose proof (round_down_bounds (capacity (variant v) nb bs) (cluster (variant v) bs) ltac:(done) ltac:(lia)).
    destruct (align_up_ok (blocks req bs) (cluster (variant v) bs)
      (round_down (capacity (variant v) nb bs) (cluster (variant v) bs))) as (y & Hy & Hm); [done|done|unfold u64_max; lia|].
    rewrite Hy. simpl. rewrite align_down_ok by lia. simpl. by rewrite Hm.
Qed.

(** The placement is the exact one: nothing wraps. *)
Lemma data_extent_ref v req nb bs :
  sane nb bs → is_u64 req →
  data_extent (variant v) req nb bs =
  match extent_ref (variant v) req nb bs with Some x => Ok x | None => Err (DeviceTooSmall nb bs) end.
Proof.
  intros Hs Hr. pose proof Hs as (Hb & Hn & Ht).
  destruct (layout_facts v bs Hb) as (H1 & H2 & H3 & H4 & H5 & H6 & _).
  unfold data_extent, extent_ref, METADATA_RESERVATION_OFFSET.
  rewrite (get_blocks_u64 req) by (lia || done).
  rewrite !get_blocks_ok by (unfold PARTITION_TABLE_SIZE, HEADER_SIZE, DATA_OFFSET; destruct v; simpl; lia).
  cbn [mbind outcome_bind]. change (1024 * 1024) with DATA_OFFSET. rewrite H1, Z.ltb_irrefl.
  assert (Hf : 0 < first_block (variant v) bs) by (unfold first_block; lia).
  rewrite (wrap64_small (blocks DATA_OFFSET bs + _)) by (unfold is_u64; lia). fold (first_block (variant v) bs).
  replace (nb - blocks PARTITION_TABLE_SIZE bs - 1 - 1) with (nb - blocks PARTITION_TABLE_SIZE bs - 2) by lia.
  rewrite (wrap64_small (nb - _ - 2)) by (unfold is_u64; lia).
  assert (Hcl : 0 < cluster (variant v) bs) by (unfold cluster; lia).
  assert (Hcap : capacity (variant v) nb bs ≤ nb - blocks PARTITION_TABLE_SIZE bs - 1 - first_block (variant v) bs)
    by (unfold capacity; lia).
  destruct (Z.ltb_spec 0 (capacity (variant v) nb bs)) as [Hp|Hp].
  2:{ pose proof (round_down_nonpos _ _ Hcl Hp). rewrite (proj2 (Z.ltb_ge 0 (Z.min _ _))) by lia.
      destruct (Z.ltb_spec (nb - blocks PARTITION_TABLE_SIZE bs - 2) (first_block (variant v) bs)); [done|].
      rewrite usable_end_ok by done. by rewrite (proj2 (Z.ltb_ge 0 _)). }
  rewrite (proj2 (Z.ltb_ge _ _)) by lia. rewrite usable_end_ok, (proj2 (Z.ltb_lt 0 _)) by (done || lia).
  cbn [mbind outcome_bind].
  replace (first_block (variant v) bs + capacity (variant v) nb bs - 1 - first_block (variant v) bs)
    with (capacity (variant v) nb bs - 1) by lia.
  rewrite (wrap64_small (capacity (variant v) nb bs - 1)) by (unfold is_u64; lia).
  replace (capacity (variant v) nb bs - 1 + 1) with (capacity (variant v) nb bs) by lia.
  rewrite (wrap64_small (capacity (variant v) nb bs)) by (unfold is_u64; lia).
  rewrite data_blocks_ok by done. cbn [mbind outcome_bind].
  pose proof (round_down_bounds _ _ Hcl (Z.lt_le_incl _ _ Hp)) as Hrd.
  pose proof (blocks_bounds req bs ltac:(lia) (proj1 Hr)) as [Hr0 _].
  pose proof (blocks_bounds (blocks req bs) _ Hcl Hr0) as [Hr1 _].
  assert (0 ≤ round_up (blocks req bs) (cluster (variant v) bs)) by (unfold round_up; nia).
  set (n := Z.min _ _) in *. assert (0 ≤ n ≤ capacity (variant v) nb bs) by lia.
  destruct (Z.eqb_spec n 0) as [->|]; [done|]. rewrite (proj2 (Z.ltb_lt 0 n)) by lia.
  rewrite (wrap64_small (first_block (variant v) bs + n)) by (unfold is_u64; lia).
  rewrite wrap64_small by (unfold is_u64; lia).
  by rewrite !(proj2 (Z.ltb_ge _ _)) by lia.
Qed.

End Maya.
