(* ===== verification/GptTool.v ===== *)
(** * The label tool

    Reading and writing the label of a disk file or block device
    ([bin/gpt.rs]).  The URL's path, the file system and sysfs are parameters;
    what the tool relies on of files is the interface [Files]. *)

From S2P Require Import Prelude Codec Errors Gpt GptFacts GptMaya.
Import Utf16 Gpt GptFacts Maya.

(** Files opened for positioned reads and writes. *)
Class Files := {
  file : Type;
  (** Whether it is a block device, and the length in its metadata. *)
  metadata : file → option (bool * Z);
  (** The error number when the system gives one. *)
  read_exact_at : file → Z → Z → outcome (option Errno) (list Z);
  write_all_at : file → list Z → Z → option file;
}.

(** [size] bytes can be read and written. *)
Class FilesLaws {F : Files} := {
  size : file → Z;
  byte : file → Z → Z;
  read_inside f off n :
    0 ≤ off → 0 ≤ n → off + n ≤ size f → read_exact_at f off n = Ok (byte f <$> seqZ off n);
  write_inside f buf off :
    0 ≤ off → off + Z.of_nat (length buf) ≤ size f →
    ∃ f', write_all_at f buf off = Some f' ∧ size f' = size f ∧ metadata f' = metadata f ∧
      holds (byte f') off buf ∧
      ∀ i, ¬ (off ≤ i < off + Z.of_nat (length buf)) → byte f' i = byte f i;
}.

Module GptTool.

(** ** Parsing of sysfs attributes *)

Definition is_whitespace (c : Z) : bool :=
  ((9 <=? c) && (c <=? 13)) || (c =? 32) || (c =? 0x85) || (c =? 0xa0) || (c =? 0x1680)
  || ((0x2000 <=? c) && (c <=? 0x200a)) || (c =? 0x2028) || (c =? 0x2029) || (c =? 0x202f)
  || (c =? 0x205f) || (c =? 0x3000).

Fixpoint trim_start (l : list Z) : list Z :=
  match l with
  | c :: l' => if is_whitespace c then trim_start l' else l
  | [] => []
  end.

Definition trim (l : list Z) : list Z := reverse (trim_start (reverse (trim_start l))).

Fixpoint parse_digits (acc : Z) (l : list Z) : option Z :=
  match l with
  | [] => Some acc
  | c :: l =>
      if (48 <=? c) && (c <=? 57)
      then let acc := acc * 10 + (c - 48) in if u64_max <? acc then None else parse_digits acc l
      else None
  end.

(** [str::parse::<u64>] *)
Definition parse_u64 (l : list Z) : option Z :=
  match l with
  | [] => None
  | c :: l' => if c =? 43 then match l' with [] => None | _ => parse_digits 0 l' end else parse_digits 0 l
  end.

(** ** The disk *)

Inductive Error :=
| Label (source : LabelError)
| Probe (source : ProbeError)
| InvalidUri
| OpenDisk
| Write
| ReadFile (path : string)
| ParseSysfs (path : string) (value : list Z)
| DiskMeta
| DiskDev
| BadBlockSize (block_size : Z)
| UnalignedDiskSize (block_size disk_size : Z)
| InvalidUuid.

Record GptDiskProps := mkProps { props_block_size : Z; num_blocks : Z }.

(** Power of two in the sense of [u64::is_power_of_two]. *)
Definition is_power_of_two (n : Z) : bool := (0 <? n) && (Z.land n (n - 1) =? 0).

Definition ok_or {E A} (e : E) (o : option A) : outcome E A :=
  match o with Some a => Ok a | None => Err e end.

Definition strip_prefix (p s : string) : option string :=
  if String.prefix p s then Some (String.substring (String.length p) (String.length s - String.length p) s)
  else None.

Section Tool.
Context {F : Files} {bc : Bincode} {U : Uuids}.
Variable crc32 : list Z → Z.
Variable read_to_string : string → option (list Z).

Definition read_block_sysfs (dev attr : string) : outcome Error Z :=
  let path := ("/sys/block/" +:+ dev +:+ "/" +:+ attr)%string in
  value ← ok_or (ReadFile path) (read_to_string path);
  ok_or (ParseSysfs path value) (parse_u64 (trim value)).

(** Block size and length in bytes as found on the disk. *)
Definition detect_disk (disk : string) (f : file) : outcome Error (Z * Z) :=
  m ← ok_or DiskMeta (metadata f);
  let '(is_block_device, file_len) := (m : bool * Z) in
  if is_block_device
  then dev ← ok_or DiskDev (strip_prefix "/dev/" disk);
       detected_block_size ← read_block_sysfs dev "queue/logical_block_size";
       sectors ← read_block_sysfs dev "size";
       Ok (detected_block_size, wrap64 (sectors * 512))
  else Ok (512, file_len).

Definition disk_props (disk : string) (f : file) (block_size_override : option Z) : outcome Error GptDiskProps :=
  d ← detect_disk disk f;
  let '(detected_block_size, disk_bytes) := (d : Z * Z) in
  let block_size := default detected_block_size block_size_override in
  if negb (is_power_of_two block_size) then Err (BadBlockSize block_size)
  else if negb (disk_bytes mod block_size =? 0) then Err (UnalignedDiskSize block_size disk_bytes)
  else Ok (mkProps block_size (disk_bytes / block_size)).

(** [path] is the path of the disk's URL; [open] opens it for reading or writing. *)
Record CliArgs := mkArgs { path : option string; block_size_arg : option Z }.

Definition disk_new (open : string → bool → bool → option file) (read write : bool) (cli : CliArgs)
    : outcome Error (file * GptDiskProps) :=
  disk ← ok_or InvalidUri (path cli);
  f ← ok_or OpenDisk (open disk read write);
  props ← disk_props disk f (block_size_arg cli);
  Ok (f, props).

Definition buffer_alloc (n : Z) : outcome DmaError (list Z) := Ok (replicate (Z.to_nat n) 0).

Definition read_at (f : file) (offset : Z) (buf : list Z) : outcome CoreError (list Z) :=
  let len := Z.of_nat (length buf) in
  map_err (λ e, ReadDispatch (default EIO e) offset len) (read_exact_at f offset len).

Definition write_at (f : file) (buf : list Z) (offset : Z) : outcome Error file :=
  ok_or Write (write_all_at f buf offset).

Definition CLI_GUID : string := "978D2F99-AA7C-4F24-AE22-1BF99137D7B1".

(** The file after a new label is written, and the label. *)
Definition write (open : string → bool → bool → option file) (cli : CliArgs) (v : LabelVersion)
    (random : GptGuid) : outcome Error (file * VersionedLabel) :=
  g ← ok_or InvalidUuid (guid_from_str CLI_GUID);
  d ← disk_new open false true cli;
  let '(f, props) := (d : file * GptDiskProps) in
  label ← map_err Label (version_generate crc32 v g (props_block_size props) (num_blocks props) u64_max random);
  primary ← map_err Label (primary_data buffer_alloc (gpt label));
  secondary ← map_err Label (secondary_data buffer_alloc (gpt label));
  f ← write_at f (snd primary) (fst primary);
  f ← write_at f (snd secondary) (fst secondary);
  Ok (f, label).

(** Fails when the label found does not match its version. *)
Definition read (open : string → bool → bool → option file) (cli : CliArgs) : outcome Error VersionedLabel :=
  d ← disk_new open true false cli;
  let '(f, props) := (d : file * GptDiskProps) in
  label ← map_err Label (versioned_probe crc32 buffer_alloc (read_at f) (props_block_size props) (num_blocks props));
  c ← map_err Label (versioned_check label);
  if (c : bool) then Ok label else Panicked.

End Tool.
End GptTool.
