(* ===== verification/GptProps.v ===== *)
(** * Properties of partition tables

    A label that is written is found again, also when one of its two headers is
    damaged. *)

From S2P Require Import Prelude Codec Errors Gpt GptFacts.
Import Utf16 Gpt GptFacts.

Module GptProps.

(** Disks with blocks of 512 bytes to 256 KiB and room for the tables. *)
Definition geometry (bs nb : Z) : Prop :=
  512 ≤ bs ≤ 2^18 ∧ nb * bs < 2^64 ∧
  blocks DATA_OFFSET bs + blocks PARTITION_TABLE_SIZE bs + 2 ≤ nb.

Section GptProps.
Context {bc : Bincode} {laws : BincodeLaws}.
Variable crc32 : list Z → Z.
Hypothesis crc_range : ∀ l, fits 4 (crc32 l).

Local Abbreviation pb bs := (blocks PARTITION_TABLE_SIZE bs).
Local Abbreviation ds bs := (blocks DATA_OFFSET bs).

Lemma geometry_facts bs nb :
  geometry bs nb →
  0 < pb bs ∧ 2 + pb bs ≤ ds bs ∧ 16384 ≤ pb bs * bs ∧ ds bs * bs < 2^64 ∧ 4 < nb < 2^64 ∧
  (pb bs + 1) * bs < 2^64.
Proof.
  intros (Hb & Hn & Hr). destruct (blocks_bounds PARTITION_TABLE_SIZE bs) as (H1 & H2 & H3); [lia|done|].
  destruct (blocks_bounds DATA_OFFSET bs) as (H4 & H5 & H6); [lia|done|].
  unfold PARTITION_TABLE_SIZE, DATA_OFFSET in *.
  set (p := blocks (128 * 128) bs) in *. set (q := blocks (1024 * 1024) bs) in *.
  assert (0 < p) by nia. assert (4 ≤ q) by nia. assert (p * bs < 16384 + bs) by nia.
  assert (2 + p ≤ q). { destruct (decide (p = 1)) as [->|]; [lia|]. assert (bs < 16384) by nia. nia. }
  assert (q * bs ≤ nb * bs) by nia. assert ((p + 1) * bs ≤ nb * bs) by nia. nia.
Qed.

(** *** The label *)

Definition the_mbr (nb : Z) : Pmbr :=
  mkPmbr 0 0 [protect nb mbr_entry_default; mbr_entry_default; mbr_entry_default; mbr_entry_default]
    PMBR_SIGNATURE.

Definition the_primary (g : GptGuid) (bs nb : Z) (es : list GptEntry) : GptHeader :=
  checksum crc32 (mkHeader HEADER_SIGNATURE HEADER_REVISION HEADER_SIZE 0 [0; 0; 0; 0] 1 (nb - 1)
    (ds bs) (nb - pb bs - 2) g 2 128 128 (crc32 (table es))).

Definition the_secondary (g : GptGuid) (bs nb : Z) (es : list GptEntry) : GptHeader :=
  checksum crc32 (mkHeader HEADER_SIGNATURE HEADER_REVISION HEADER_SIZE 0 [0; 0; 0; 0] (nb - 1) 1
    (ds bs) (nb - pb bs - 2) g (nb - pb bs - 1) 128 128 (crc32 (table es))).

Definition the_label g bs nb es : GptLabel :=
  mkLabel Neither bs (the_mbr nb) (the_primary g bs nb es) es (the_secondary g bs nb es).

Lemma the_secondary_eq g bs nb es :
  geometry bs nb → as_secondary crc32 (the_primary g bs nb es) = the_secondary g bs nb es.
Proof.
  intros Hg. destruct (geometry_facts _ _ Hg) as (? & ? & _ & _ & ? & _). destruct Hg as (_ & _ & Hr).
  unfold as_secondary, the_primary, the_secondary, set_location, checksum, set_self_checksum. simpl.
  rewrite wrap64_small by (unfold is_u64; lia). by replace (nb - pb bs - 2 + 1) with (nb - pb bs - 1) by lia.
Qed.

Lemma the_primary_eq g bs nb es :
  as_primary crc32 (the_secondary g bs nb es) = the_primary g bs nb es.
Proof. done. Qed.

Lemma label_new_eq g bs nb es :
  geometry bs nb → (length es ≤ 128)%nat → label_new crc32 g bs nb es = Ok (the_label g bs nb es).
Proof.
  intros Hg Hl. destruct (geometry_facts _ _ Hg) as (? & ? & _ & _ & ? & _). pose proof Hg as (? & _ & ?).
  unfold label_new, header_new. rewrite !get_blocks_ok by (unfold PARTITION_TABLE_SIZE, DATA_OFFSET; lia).
  simpl. rewrite table_checksum by done. rewrite !wrap64_small by (unfold is_u64; lia).
  unfold the_label. by rewrite <- the_secondary_eq.
Qed.

Lemma the_mbr_ok nb : 4 < nb → pmbr_ok (the_mbr nb).
Proof.
  intros Hn. assert (Hd : mbr_entry_ok mbr_entry_default)
    by (unfold mbr_entry_ok, fits; simpl; repeat split; try lia; repeat constructor; lia).
  assert (Hp : mbr_entry_ok (protect nb mbr_entry_default)).
  { unfold mbr_entry_ok, protect, fits, u32_max, wrap32, wrap64; simpl.
    repeat split; try lia; try (repeat constructor; lia); case_match; try lia; apply Z.mod_pos_bound; lia. }
  do 2 (split; [unfold fits; simpl; lia|]). split; [by repeat apply Forall_cons_2; auto|].
  split; [done|]. split; [|done]. unfold fits. repeat constructor; simpl; lia.
Qed.

Lemma bytes_fit l : Forall (λ x, 0 ≤ x < 2^8) l → Forall (fits 1) l.
Proof. by unfold fits. Qed.

Lemma headers_ok g bs nb es :
  guid_ok g → geometry bs nb →
  header_ok (the_primary g bs nb es) ∧ header_ok (the_secondary g bs nb es).
Proof.
  intros Hg Hgeo. destruct (geometry_facts _ _ Hgeo) as (? & ? & _ & ? & ? & _). pose proof Hgeo as (? & _ & ?).
  assert (Hsig : Forall (fits 1) HEADER_SIGNATURE) by (unfold fits; repeat constructor; lia).
  assert (Hrev : Forall (fits 1) HEADER_REVISION) by (unfold fits; repeat constructor; lia).
  assert (Hres : Forall (fits 1) [0; 0; 0; 0]) by (unfold fits; repeat constructor; lia).
  assert (H64 : ∀ x, 0 ≤ x < 2^64 → fits 8 x) by done.
  assert (H32 : fits 4 HEADER_SIZE ∧ fits 4 128) by (unfold fits, HEADER_SIZE; simpl; lia).
  assert (ds bs < 2^64) by nia.
  split; split; simpl; try done; repeat split; try apply H32; try apply crc_range; try apply H64; lia.
Qed.

(** *** The data that is written *)

Section Disk.
Variables (g : GptGuid) (bs nb : Z) (es : list GptEntry).
Hypothesis geo : geometry bs nb.
Hypothesis guid_fits : guid_ok g.
Hypothesis entries_fit : Forall entry_ok es.
Hypothesis entries_count : (length es ≤ 128)%nat.

Variable buffer_alloc : Z → outcome DmaError (list Z).
(** Buffers come zeroed. *)
Hypothesis alloc_zeroed : ∀ n, buffer_alloc n = Ok (replicate (Z.to_nat n) 0).

Local Abbreviation P := (the_primary g bs nb es).
Local Abbreviation S := (the_secondary g bs nb es).

(** A table in a zeroed buffer. *)
Lemma table_region buf buf' p :
  region buf' (Z.to_nat p) (es ≫= put_entry) →
  (∀ q xs, (Z.to_nat p + 128 * length es ≤ q)%nat → region buf q xs → region buf' q xs) →
  region buf (Z.to_nat p + 128 * length es) (replicate (128 * (128 - length es)) 0) →
  region buf' (Z.to_nat p) (table es).
Proof.
  intros He Hk Hz. rewrite table_zeros. apply region_app; [done|].
  rewrite entries_length by done. by apply Hk.
Qed.

Lemma primary_data_ok :
  ∃ buf, primary_data buffer_alloc (the_label g bs nb es) = Ok (0, buf) ∧
    Z.of_nat (length buf) = ds bs * bs ∧
    region buf 440 (put_pmbr (the_mbr nb)) ∧ region buf (Z.to_nat bs) (put_header P) ∧
    region buf (Z.to_nat (2 * bs)) (table es).
Proof.
  destruct (geometry_facts _ _ geo) as (H1 & H2 & H3 & H4 & H5 & _). pose proof geo as (Hb & _ & _).
  pose proof (put_pmbr_length _ (the_mbr_ok nb ltac:(lia))) as Hlm.
  pose proof (put_header_length _ (proj1 (headers_ok g bs nb es guid_fits geo))) as Hlp.
  unfold primary_data. cbn [primary block_size lba_start lba_self lba_table partitions mbr the_label
    the_primary checksum set_self_checksum]. fold P. rewrite alloc_zeroed. simpl.
  assert (2 * bs + 16384 ≤ ds bs * bs) by nia.
  rewrite !wrap64_small by (unfold is_u64; nia).
  set (b0 := replicate (Z.to_nat (ds bs * bs)) 0).
  assert (Hl0 : Z.of_nat (length b0) = ds bs * bs) by (unfold b0; rewrite length_replicate; lia).
  destruct (write_at_spec 440 (put_pmbr (the_mbr nb)) b0) as (b1 & -> & L1 & R1 & K1); [lia|lia|]. simpl.
  destruct (write_at_spec (1 * bs) (put_header P) b1) as (b2 & -> & L2 & R2 & K2); [lia|lia|]. simpl.
  destruct (write_entries_spec es (2 * bs) b2 entries_fit) as (b3 & -> & L3 & R3 & K3); [lia|lia|]. simpl.
  rewrite Hlm, Hlp in *. replace (1 * bs) with bs in * by lia.
  exists b3. split; [done|]. split; [lia|]. split; [apply K3; [lia|]; apply K2; [lia|done]|].
  split; [apply K3; [lia|done]|]. eapply table_region; [done|intros; apply K3; [by right|done]|].
  apply K2; [lia|]. apply K1; [lia|]. apply region_zeros. lia.
Qed.

Lemma secondary_data_ok :
  ∃ buf, secondary_data buffer_alloc (the_label g bs nb es) = Ok ((nb - pb bs - 1) * bs, buf) ∧
    Z.of_nat (length buf) = (pb bs + 1) * bs ∧
    region buf 0 (table es) ∧ region buf (Z.to_nat (pb bs * bs)) (put_header S).
Proof.
  destruct (geometry_facts _ _ geo) as (H1 & H2 & H3 & H4 & H5 & H6). pose proof geo as (Hb & Hs & Hr).
  pose proof (put_header_length _ (proj2 (headers_ok g bs nb es guid_fits geo))) as Hlp.
  unfold secondary_data. cbn [secondary block_size lba_self lba_table partitions the_label
    the_secondary checksum set_self_checksum]. fold S. rewrite alloc_zeroed. simpl.
  replace (nb - 1 - (nb - pb bs - 1)) with (pb bs) by lia.
  rewrite !(wrap64_small (pb bs)) by (unfold is_u64; lia).
  rewrite !(wrap64_small (pb bs + 1)) by (unfold is_u64; nia).
  rewrite !wrap64_small by (unfold is_u64; nia).
  set (b0 := replicate (Z.to_nat ((pb bs + 1) * bs)) 0).
  assert (Hl0 : Z.of_nat (length b0) = (pb bs + 1) * bs) by (unfold b0; rewrite length_replicate; nia).
  destruct (write_entries_spec es 0 b0 entries_fit) as (b1 & -> & L1 & R1 & K1); [lia|nia|]. simpl.
  destruct (write_at_spec (pb bs * bs) (put_header S) b1) as (b2 & -> & L2 & R2 & K2); [nia|nia|]. simpl.
  exists b2. split; [done|]. split; [lia|]. split; [|done]. apply K2.
  - left. pose proof (table_length es entries_fit entries_count). lia.
  - apply (table_region b0 b1 0); [done|intros; apply K1; [by right|done]|]. apply region_zeros. nia.
Qed.

(** *** Probing *)

Lemma read_primary_ok rest : read_primary_header crc32 (put_header P ++ rest) bs nb = Ok P.
Proof.
  destruct (geometry_facts _ _ geo) as (H1 & H2 & H3 & H4 & H5 & _). pose proof geo as (Hb & _ & Hr).
  unfold read_primary_header.
  rewrite header_reads by first [apply headers_ok; done|done]. simpl.
  unfold validate_primary_header. simpl. rewrite !wrap64_small by (unfold is_u64; lia).
  replace (nb - 1 + 1) with nb by lia. rewrite Z.eqb_refl. simpl.
  rewrite (proj2 (Z.leb_gt _ _)) by lia. rewrite get_blocks_ok by (unfold PARTITION_TABLE_SIZE; lia). simpl.
  rewrite !wrap64_small by (unfold is_u64; nia). by rewrite (proj2 (Z.ltb_ge _ _)) by lia.
Qed.

Lemma read_secondary_ok rest : read_secondary_header crc32 (put_header S ++ rest) bs nb = Ok S.
Proof.
  destruct (geometry_facts _ _ geo) as (H1 & H2 & H3 & H4 & H5 & _). pose proof geo as (Hb & _ & Hr).
  unfold read_secondary_header.
  rewrite header_reads by first [apply headers_ok; done|done]. simpl.
  unfold validate_secondary_header. simpl. rewrite !wrap64_small by (unfold is_u64; lia).
  replace (nb - 1 + 1) with nb by lia. rewrite Z.eqb_refl. simpl.
  rewrite (proj2 (Z.leb_gt _ _)) by lia. replace (nb - pb bs - 2 + 1) with (nb - pb bs - 1) by lia.
  rewrite Z.eqb_refl. simpl. rewrite get_blocks_ok by (unfold PARTITION_TABLE_SIZE; lia). simpl.
  rewrite !wrap64_small by (unfold is_u64; lia). by rewrite (proj2 (Z.ltb_ge _ _)) by lia.
Qed.

Lemma consistent : consistency_check P S = Ok tt.
Proof. unfold consistency_check. simpl. by rewrite !Z.eqb_refl, bool_decide_true by done. Qed.

Variable content : Z → Z.
Variable read_at : Z → list Z → outcome CoreError (list Z).
(** Reads inside the disk work. *)
Hypothesis reads : ∀ off buf, 0 ≤ off → off + Z.of_nat (length buf) ≤ nb * bs →
  read_at off buf = Ok (content <$> seqZ off (Z.of_nat (length buf))).

(** The block that starts at an offset. *)
Definition block_at (off : Z) : list Z := content <$> seqZ off bs.

Lemma read_block off buf :
  0 ≤ off → off + bs ≤ nb * bs → Z.of_nat (length buf) = bs →
  read_at off buf = Ok (block_at off) ∧ Z.of_nat (length (block_at off)) = bs.
Proof.
  pose proof geo as (Hb & _). intros H1 H2 H3. rewrite reads by lia. unfold block_at. rewrite H3.
  split; [done|]. rewrite length_fmap, length_seqZ. lia.
Qed.

Lemma holds_block off bs' :
  holds content off bs' → Z.of_nat (length bs') ≤ bs → ∃ rest, block_at off = bs' ++ rest.
Proof. apply holds_read. Qed.

Lemma read_headers_ok buf :
  Z.of_nat (length buf) = bs →
  (holds content bs (put_header P) → holds content ((nb - 1) * bs) (put_header S) →
     read_headers crc32 read_at bs nb buf = Ok (Both, P, S, P)) ∧
  (∀ e, holds content bs (put_header P) →
     read_secondary_header crc32 (block_at ((nb - 1) * bs)) bs nb = Err e →
     read_headers crc32 read_at bs nb buf = Ok (Primary, P, S, P)) ∧
  (∀ e, read_primary_header crc32 (block_at bs) bs nb = Err e →
     holds content ((nb - 1) * bs) (put_header S) →
     read_headers crc32 read_at bs nb buf = Ok (Secondary, P, S, S)).
Proof.
  intros Hl. destruct (geometry_facts _ _ geo) as (H1 & H2 & H3 & H4 & H5 & _). pose proof geo as (Hb & ? & Hr).
  destruct (headers_ok g bs nb es guid_fits geo) as [HP HS].
  unfold read_headers. rewrite (wrap64_small (nb - 1)) by (unfold is_u64; lia).
  rewrite (wrap64_small ((nb - 1) * bs)) by (unfold is_u64; nia).
  destruct (read_block bs buf) as [-> Hl1]; [lia|nia|lia|]. simpl.
  destruct (read_block ((nb - 1) * bs) (block_at bs)) as [-> _]; [nia|nia|lia|]. simpl.
  pose proof (put_header_length _ HP). pose proof (put_header_length _ HS).
  split; [|split].
  - intros [r1 ->]%holds_block [r2 ->]%holds_block; [|lia|lia].
    rewrite read_primary_ok, read_secondary_ok. simpl. by rewrite consistent.
  - intros e [r1 ->]%holds_block ->; [|lia]. rewrite read_primary_ok. simpl. by rewrite the_secondary_eq.
  - intros e -> [r2 ->]%holds_block; [|lia]. simpl. by rewrite read_secondary_ok.
Qed.

Hypothesis entries_usable : Forall (entry_valid P) es.

(** What is read after the headers. *)
Lemma probe_ok st (active : GptHeader) :
  holds content 440 (put_pmbr (the_mbr nb)) →
  (∀ buf, Z.of_nat (length buf) = bs → read_headers crc32 read_at bs nb buf = Ok (st, P, S, active)) →
  (active = P ∧ holds content (2 * bs) (table es) ∨
   active = S ∧ holds content ((nb - pb bs - 1) * bs) (table es)) →
  probe_label crc32 buffer_alloc read_at bs nb = Ok (set_status st (the_label g bs nb es)).
Proof.
  destruct (geometry_facts _ _ geo) as (H1 & H2 & H3 & H4 & H5 & H6). pose proof geo as (Hb & ? & Hr).
  intros Hm Hh Ht. unfold probe_label. rewrite alloc_zeroed. cbn [map_err mbind outcome_bind].
  destruct (read_block 0 (replicate (Z.to_nat bs) 0)) as [-> Hl]; [lia|nia|rewrite length_replicate; lia|].
  cbn [map_err mbind outcome_bind].
  assert (read_mbr (block_at 0) = Ok (the_mbr nb)) as ->.
  { unfold read_mbr, slice. rewrite bool_decide_true by lia. simpl.
    assert (drop 440 (block_at 0) = content <$> seqZ 440 (bs - 440)) as ->.
    { unfold block_at. replace bs with (440 + (bs - 440)) at 1 by lia.
      rewrite seqZ_app, fmap_app, drop_app_length' by (try rewrite length_fmap, length_seqZ; lia). done. }
    pose proof (put_pmbr_length _ (the_mbr_ok nb ltac:(lia))) as Hlm.
    destruct (holds_read content 440 (put_pmbr (the_mbr nb)) (bs - 440) Hm) as [r ->]; [lia|].
    rewrite take_app_length' by done. unfold pmbr_from_slice.
    pose proof (get_put_pmbr (the_mbr nb) [] (the_mbr_ok nb ltac:(lia))) as E. rewrite app_nil_r in E.
    rewrite E. by rewrite bool_decide_true. }
  cbn [map_err mbind outcome_bind]. rewrite Hh by done. cbn [map_err mbind outcome_bind].
  replace (negb _ && negb _) with false.
  2:{ simpl. unfold u32_max, wrap32, wrap64. destruct (Z.ltb_spec (2^32 - 1) nb); [done|].
      rewrite (Z.mod_small (nb - 1)) by lia. rewrite Z.mod_small by lia. by rewrite Z.eqb_refl, andb_false_r. }
  assert (Hact : entry_size active = 128 ∧ num_entries active = 128 ∧ lba_start active = ds bs ∧
    lba_end active = nb - pb bs - 2 ∧ table_crc active = crc32 (table es)) by (by destruct Ht as [[-> _]|[-> _]]).
  destruct Hact as (Ha1 & Ha2 & Ha3 & Ha4 & Ha5). rewrite Ha1, Ha2. change (wrap32 (128 * 128)) with PARTITION_TABLE_SIZE.
  rewrite get_blocks_ok by (unfold PARTITION_TABLE_SIZE; lia). cbn [map_err mbind outcome_bind].
  rewrite alloc_zeroed. cbn [map_err mbind outcome_bind]. rewrite (wrap64_small (pb bs * bs)) by (unfold is_u64; nia).
  assert (Hload : 0 ≤ lba_table active * bs ∧ lba_table active * bs + pb bs * bs ≤ nb * bs ∧
    holds content (lba_table active * bs) (table es)).
  { destruct Ht as [[-> Ht]|[-> Ht]]; simpl; (split; [nia|]); split; try done; nia. }
  destruct Hload as (L1 & L2 & L3). rewrite (wrap64_small (lba_table active * bs)) by (unfold is_u64; nia).
  rewrite reads by (rewrite ?length_replicate; lia). cbn [map_err mbind outcome_bind].
  pose proof (table_length es entries_fit entries_count) as Htl.
  destruct (holds_read content _ (table es) (Z.of_nat (length (replicate (Z.to_nat (pb bs * bs)) 0))) L3) as [r ->];
    [rewrite length_replicate; lia|].
  rewrite read_partitions_ok; [|done|done| |lia|done|done].
  2:{ eapply Forall_impl; [exact entries_usable|]. intros e (? & ? & ?). simpl in *. unfold entry_valid. lia. }
  cbn [map_err mbind outcome_bind]. by rewrite (retained es P).
Qed.

(** *** Probing what was written *)

Lemma regions_held pd sd :
  holds content 0 pd → holds content ((nb - pb bs - 1) * bs) sd →
  region pd 440 (put_pmbr (the_mbr nb)) → region pd (Z.to_nat bs) (put_header P) →
  region pd (Z.to_nat (2 * bs)) (table es) →
  region sd 0 (table es) → region sd (Z.to_nat (pb bs * bs)) (put_header S) →
  holds content 440 (put_pmbr (the_mbr nb)) ∧
  (holds content bs (put_header P) ∧ holds content (2 * bs) (table es)) ∧
  holds content ((nb - 1) * bs) (put_header S) ∧ holds content ((nb - pb bs - 1) * bs) (table es).
Proof.
  destruct (geometry_facts _ _ geo) as (H1 & _). pose proof geo as (Hb & _).
  intros Hp Hs R1 R2 R3 R4 R5.
  pose proof (holds_region _ _ _ _ _ Hp R1) as A1. pose proof (holds_region _ _ _ _ _ Hp R2) as A2.
  pose proof (holds_region _ _ _ _ _ Hp R3) as A3. pose proof (holds_region _ _ _ _ _ Hs R4) as A4.
  pose proof (holds_region _ _ _ _ _ Hs R5) as A5.
  rewrite Z2Nat.id in A2 by lia. rewrite Z2Nat.id in A3 by lia. rewrite Z2Nat.id in A5 by nia.
  replace ((nb - pb bs - 1) * bs + pb bs * bs) with ((nb - 1) * bs) in A5 by lia.
  replace ((nb - pb bs - 1) * bs + Z.of_nat 0) with ((nb - pb bs - 1) * bs) in A4 by lia. auto.
Qed.

Lemma probe_both :
  holds content 440 (put_pmbr (the_mbr nb)) →
  holds content bs (put_header P) → holds content (2 * bs) (table es) →
  holds content ((nb - 1) * bs) (put_header S) →
  probe_label crc32 buffer_alloc read_at bs nb = Ok (set_status Both (the_label g bs nb es)).
Proof.
  intros Hm Hp Ht Hs. apply (probe_ok Both P Hm); [|by left].
  intros buf Hl. by apply (proj1 (read_headers_ok buf Hl)).
Qed.

Lemma probe_primary e :
  holds content 440 (put_pmbr (the_mbr nb)) →
  holds content bs (put_header P) → holds content (2 * bs) (table es) →
  read_secondary_header crc32 (block_at ((nb - 1) * bs)) bs nb = Err e →
  probe_label crc32 buffer_alloc read_at bs nb = Ok (set_status Primary (the_label g bs nb es)).
Proof.
  intros Hm Hp Ht Hs. apply (probe_ok Primary P Hm); [|by left].
  intros buf Hl. by apply (proj1 (proj2 (read_headers_ok buf Hl)) e).
Qed.

Lemma probe_secondary e :
  holds content 440 (put_pmbr (the_mbr nb)) →
  read_primary_header crc32 (block_at bs) bs nb = Err e →
  holds content ((nb - 1) * bs) (put_header S) → holds content ((nb - pb bs - 1) * bs) (table es) →
  probe_label crc32 buffer_alloc read_at bs nb = Ok (set_status Secondary (the_label g bs nb es)).
Proof.
  intros Hm Hp Hs Ht. apply (probe_ok Secondary S Hm); [|by right].
  intros buf Hl. by apply (proj2 (proj2 (read_headers_ok buf Hl)) e).
Qed.

(** A label whose partitions lie in the usable area is found again after its data
    was written: as it was with both headers; with the primary when the backup
    header is damaged; and with the backup when the first header is damaged and
    whatever the first partition table holds. *)
Theorem written_label_is_found :
  ∃ l pd off sd,
    label_new crc32 g bs nb es = Ok l ∧
    primary_data buffer_alloc l = Ok (0, pd) ∧ secondary_data buffer_alloc l = Ok (off, sd) ∧
    (holds content 0 pd → holds content off sd →
       probe_label crc32 buffer_alloc read_at bs nb = Ok (set_status Both l)) ∧
    (∀ e, holds content 0 pd →
       read_secondary_header crc32 (block_at ((nb - 1) * bs)) bs nb = Err e →
       probe_label crc32 buffer_alloc read_at bs nb = Ok (set_status Primary l)) ∧
    (∀ e, holds content 440 (put_pmbr (mbr l)) →
       read_primary_header crc32 (block_at bs) bs nb = Err e → holds content off sd →
       probe_label crc32 buffer_alloc read_at bs nb = Ok (set_status Secondary l)).
Proof.
  destruct primary_data_ok as (pd & Hpd & _ & R1 & R2 & R3). destruct secondary_data_ok as (sd & Hsd & _ & R4 & R5).
  destruct (geometry_facts _ _ geo) as (H1 & _). pose proof geo as (Hb & _).
  exists (the_label g bs nb es), pd, ((nb - pb bs - 1) * bs), sd.
  split; [by apply label_new_eq|]. split; [done|]. split; [done|]. split; [|split].
  - intros Hp Hs. destruct (regions_held pd sd) as (? & [? ?] & ? & _); [done..|]. by apply probe_both.
  - intros e Hp He. pose proof (holds_region _ _ _ _ _ Hp R1) as A1. pose proof (holds_region _ _ _ _ _ Hp R2) as A2.
    pose proof (holds_region _ _ _ _ _ Hp R3) as A3.
    rewrite Z2Nat.id in A2 by lia. rewrite Z2Nat.id in A3 by lia. by eapply probe_primary.
  - intros e Hm He Hs. pose proof (holds_region _ _ _ _ _ Hs R4) as A4. pose proof (holds_region _ _ _ _ _ Hs R5) as A5.
    rewrite Z2Nat.id in A5 by nia. replace ((nb - pb bs - 1) * bs + pb bs * bs) with ((nb - 1) * bs) in A5 by lia.
    rewrite Z.add_0_r in A4. by eapply probe_secondary.
Qed.

End Disk.

End GptProps.

(** *** A sample disk *)

Module Sample.
(** CRC-32, bit by bit. *)
Fixpoint crc_bits (n : nat) (c : Z) : Z :=
  match n with
  | 0%nat => c
  | S n => crc_bits n (if Z.testbit c 0 then Z.lxor (Z.shiftr c 1) 0xedb88320 else Z.shiftr c 1)
  end.

Definition crc (l : list Z) : Z :=
  Z.land (Z.lxor (fold_left (λ c b, crc_bits 8 (Z.lxor c b)) l 0xffffffff) 0xffffffff) (Z.ones 32).

Lemma crc_fits l : fits 4 (crc l).
Proof. unfold crc, fits. rewrite Z.land_ones by lia. apply Z.mod_pos_bound. lia. Qed.

Definition alloc (n : Z) : outcome DmaError (list Z) := Ok (replicate (Z.to_nat n) 0).

Definition the_entries : list GptEntry := [mkEntry guid_default guid_default 256 506 0 [97; 98]].

Lemma the_entries_ok : Forall entry_ok the_entries.
Proof.
  repeat constructor; simpl; try (unfold fits; simpl; lia); try (unfold is_scalar; lia); try lia.
Qed.

Lemma sample_geometry : geometry 4096 512.
Proof. unfold geometry. vm_compute. intuition discriminate. Qed.

(** The label, the data written for it, and a disk whose first header was zeroed
    after that. *)
Definition label : GptLabel := the_label crc guid_default 4096 512 the_entries.
Definition data (o : outcome LabelError (Z * list Z)) : Z * list Z := match o with Ok d => d | _ => (0, []) end.
Definition pd := data (primary_data alloc label).
Definition sd := data (secondary_data alloc label).
Definition written : Z → Z := overlay (overlay (λ _, 0) (fst pd) (snd pd)) (fst sd) (snd sd).
Definition damaged : Z → Z := overlay written 4096 (replicate (Z.to_nat 4096) 0).
Definition read (content : Z → Z) (off : Z) (buf : list Z) : outcome CoreError (list Z) :=
  Ok (content <$> seqZ off (Z.of_nat (length buf))).

Lemma damaged_block : damaged <$> seqZ 4096 4096 = replicate (Z.to_nat 4096) 0.
Proof.
  destruct (holds_read damaged 4096 (replicate (Z.to_nat 4096) 0) 4096) as [r E].
  - apply overlay_holds.
  - rewrite length_replicate. lia.
  - assert (r = []) as ->; [|by rewrite app_nil_r in E].
    apply (f_equal length) in E.
    rewrite length_app, length_fmap, length_seqZ, length_replicate in E. apply nil_length_inv. lia.
Qed.

Lemma damaged_parts :
  holds damaged 440 (put_pmbr (mbr label)) ∧
  ∃ off d, secondary_data alloc label = Ok (off, d) ∧ holds damaged off d.
Proof.
  assert (Hg : guid_ok guid_default) by (repeat constructor; simpl; lia).
  assert (Hb : blocks DATA_OFFSET 4096 = 256 ∧ blocks PARTITION_TABLE_SIZE 4096 = 4) by done. destruct Hb as [Hb1 Hb2].
  destruct (primary_data_ok crc crc_fits guid_default 4096 512 the_entries sample_geometry Hg the_entries_ok
    ltac:(simpl; lia) alloc ltac:(done)) as (p & Ep & Lp & R & _).
  destruct (secondary_data_ok crc crc_fits guid_default 4096 512 the_entries sample_geometry Hg the_entries_ok
    ltac:(simpl; lia) alloc ltac:(done)) as (s & Es & Ls & _).
  rewrite Hb2 in *. rewrite Hb1 in *. fold label in Ep, Es.
  assert (Ed : damaged = overlay (overlay (overlay (λ _, 0) 0 p) ((512 - 4 - 1) * 4096) s) 4096 (replicate (Z.to_nat 4096) 0)).
  { unfold damaged, written, pd, sd. by rewrite Ep, Es. }
  rewrite Ed. clear Ed. pose proof (put_pmbr_length _ (the_mbr_ok 512 ltac:(lia))) as Lm.
  assert (Lz : Z.of_nat (length (replicate (Z.to_nat 4096) 0)) = 4096) by (rewrite length_replicate; lia).
  split.
  - change (mbr label) with (the_mbr 512).
    eapply holds_ext; [intros i Hi; rewrite overlay_outside by lia; rewrite overlay_outside by lia; done|].
    exact (holds_region _ 0 p 440 _ (overlay_holds _ _ _) R).
  - eexists _, s. split; [exact Es|].
    eapply holds_ext; [intros i Hi; rewrite overlay_outside by lia; done|]. apply overlay_holds.
Qed.
End Sample.

Lemma written_label_is_found_witness :
  probe_label Sample.crc Sample.alloc (Sample.read Sample.damaged) 4096 512 = Ok (set_status Secondary Sample.label).
Proof.
  destruct (written_label_is_found Sample.crc Sample.crc_fits guid_default 4096 512 Sample.the_entries
    Sample.sample_geometry (ltac:(repeat constructor; simpl; lia)) Sample.the_entries_ok (ltac:(simpl; lia)) Sample.alloc
    (ltac:(done)) Sample.damaged (Sample.read Sample.damaged) (ltac:(done))
    (ltac:(repeat constructor; vm_compute; intuition discriminate)))
    as (l & pd & off & sd & Hl & Hpd & Hsd & _ & _ & Hsec).
  rewrite label_new_eq in Hl by (apply Sample.sample_geometry || (simpl; lia)). injection Hl as <-.
  fold Sample.label in *. destruct Sample.damaged_parts as (Hm & off' & d & Hd & Hh).
  rewrite Hd in Hsd. injection Hsd as <- <-. eapply Hsec; [exact Hm| |exact Hh].
  unfold block_at. rewrite Sample.damaged_block. vm_compute. reflexivity.
Defined.
(** A name that fills its field has no terminator and cannot be read back. *)
Lemma name_of_36_units_is_unreadable :
  @get_name LittleEndian.le (@put_name LittleEndian.le (replicate 36 97)) = None.
Proof. by vm_compute. Qed.

End GptProps.
