(* ===== verification/LabelProps.v ===== *)
(** * Properties of versioned labels

    Where the data partition lies, that a generated label is recognised, and that
    the tool reads what it wrote. *)

From S2P Require Import Prelude Codec Errors Gpt GptFacts GptMaya GptTool GptProps.
Import Utf16 Gpt GptFacts Maya GptProps.

Module LabelProps.

(** ** An instance of the UUID interface: the hyphenated form *)

Module Hyphenated.
Definition hex_digit (c : Z) : option Z :=
  if (48 <=? c) && (c <=? 57) then Some (c - 48)
  else if (65 <=? c) && (c <=? 70) then Some (c - 55)
  else if (97 <=? c) && (c <=? 102) then Some (c - 87)
  else None.

Fixpoint hex_bytes (n : nat) (l : list Z) : option (list Z * list Z) :=
  match n, l with
  | 0%nat, _ => Some ([], l)
  | S n, a :: b :: l =>
      x ← hex_digit a; y ← hex_digit b;
      '(bs, rest) ← hex_bytes n l;
      Some (16 * x + y :: bs, rest)
  | _, _ => None
  end.

Definition hyphen (l : list Z) : option (list Z) :=
  match l with c :: l => if c =? 45 then Some l else None | [] => None end.

Definition big_endian (l : list Z) : Z := fold_left (λ a b, 256 * a + b) l 0.

Definition parse (s : string) : option (Z * Z * Z * list Z) :=
  '(a, l) ← hex_bytes 4 (chars s); l ← hyphen l;
  '(b, l) ← hex_bytes 2 l; l ← hyphen l;
  '(c, l) ← hex_bytes 2 l; l ← hyphen l;
  '(d, l) ← hex_bytes 2 l; l ← hyphen l;
  '(e, l) ← hex_bytes 6 l;
  match l with
  | [] => Some (big_endian a, big_endian b, big_endian c, d ++ e)
  | _ => None
  end.

#[global] Instance hyphenated : Uuids := { uuid_from_str := parse }.

Lemma hex_digit_range c x : hex_digit c = Some x → 0 ≤ x < 16.
Proof. unfold hex_digit. repeat case_match; intros; simplify_eq; lia. Qed.

Lemma hex_bytes_fit n l bs rest :
  hex_bytes n l = Some (bs, rest) → Forall (fits 1) bs ∧ length bs = n.
Proof.
  revert l bs rest. induction n as [|n IH]; intros l bs rest H; simpl in H; [by simplify_eq|].
  destruct l as [|a [|b l]]; try done.
  destruct (hex_digit a) as [x|] eqn:Ex; [|done]. destruct (hex_digit b) as [y|] eqn:Ey; [|done].
  simpl in H. destruct (hex_bytes n l) as [[bs' rest']|] eqn:E; [|done]. simplify_eq/=.
  apply IH in E as [E1 E2]. apply hex_digit_range in Ex, Ey.
  split; [constructor; [unfold fits; simpl; lia|done]|by f_equal].
Qed.

Lemma big_endian_fits l : Forall (fits 1) l → fits (length l) (big_endian l).
Proof.
  unfold big_endian. assert (H : ∀ a k, fits k a → Forall (fits 1) l →
    fits (k + length l) (fold_left (λ a b, 256 * a + b) l a)).
  2:{ intros Hl. exact (H 0 0%nat ltac:(unfold fits; simpl; lia) Hl). }
  induction l as [|b l IH]; intros a k Ha Hl; simpl; [by rewrite Nat.add_0_r|].
  apply Forall_cons in Hl as [Hb Hl]. replace (k + S (length l))%nat with (S k + length l)%nat by lia.
  apply IH; [|done]. unfold fits in *. replace (8 * Z.of_nat (S k)) with (8 + 8 * Z.of_nat k) by lia.
  rewrite Z.pow_add_r by lia. change (8 * Z.of_nat 1) with 8 in Hb. lia.
Qed.

#[global] Instance hyphenated_laws : UuidsLaws.
Proof.
  split; [|by vm_compute|by vm_compute].
  intros s a b c d H. unfold uuid_from_str, hyphenated, parse in H.
  destruct (hex_bytes 4 (chars s)) as [[a' l1]|] eqn:E1; [|done]. cbn [mbind option_bind] in H.
  destruct (hyphen l1) as [l2|]; [|done]. cbn [mbind option_bind] in H.
  destruct (hex_bytes 2 l2) as [[b' l3]|] eqn:E2; [|done]. cbn [mbind option_bind] in H.
  destruct (hyphen l3) as [l4|]; [|done]. cbn [mbind option_bind] in H.
  destruct (hex_bytes 2 l4) as [[c' l5]|] eqn:E3; [|done]. cbn [mbind option_bind] in H.
  destruct (hyphen l5) as [l6|]; [|done]. cbn [mbind option_bind] in H.
  destruct (hex_bytes 2 l6) as [[d' l7]|] eqn:E4; [|done]. cbn [mbind option_bind] in H.
  destruct (hyphen l7) as [l8|]; [|done]. cbn [mbind option_bind] in H.
  destruct (hex_bytes 6 l8) as [[e' l9]|] eqn:E5; [|done]. cbn [mbind option_bind] in H.
  destruct l9; [|done]. simplify_eq.
  apply hex_bytes_fit in E1 as [A1 A2], E2 as [B1 B2], E3 as [C1 C2], E4 as [D1 D2], E5 as [F1 F2].
  apply big_endian_fits in A1, B1, C1. rewrite A2 in A1. rewrite B2 in B1. rewrite C2 in C1.
  repeat split; try apply A1; try apply B1; try apply C1; [by apply Forall_app|by rewrite length_app, D2, F2].
Qed.
End Hyphenated.

(** ** The extent *)

Lemma extent_ref_bounds v req nb bs x :
  sane nb bs → is_u64 req → extent_ref (variant v) req nb bs = Some x →
  ∃ n, x = mkExtent (first_block (variant v) bs) (first_block (variant v) bs + n - 1) ∧
    0 < n ≤ capacity (variant v) nb bs ∧ (cluster (variant v) bs | n) ∧
    (blocks req bs ≤ n ∨ capacity (variant v) nb bs < n + cluster (variant v) bs).
Proof.
  intros Hs Hr H. unfold extent_ref in H. set (n := Z.min _ _) in H.
  destruct (Z.ltb_spec 0 n) as [Hn|]; [|done]. simplify_eq. exists n. split; [done|].
  assert (Hc : 0 < cluster (variant v) bs) by (unfold cluster; lia). destruct Hs as (Hb & _).
  pose proof (blocks_bounds req bs ltac:(lia) (proj1 Hr)) as [Hr0 _].
  pose proof (blocks_bounds (blocks req bs) _ Hc Hr0) as (_ & _ & Hup).
  destruct (decide (capacity (variant v) nb bs < 0)) as [Hneg|Hpos].
  { pose proof (round_down_nonpos (capacity (variant v) nb bs) _ Hc ltac:(lia)). lia. }
  pose proof (round_down_bounds (capacity (variant v) nb bs) _ Hc ltac:(lia)) as Hd.
  split; [lia|]. split.
  - unfold n. destruct (Z.min_spec (round_up (blocks req bs) (cluster (variant v) bs))
      (round_down (capacity (variant v) nb bs) (cluster (variant v) bs))) as [[_ ->]|[_ ->]]; apply Z.divide_factor_r.
  - unfold n, round_up, round_down in *. pose proof (Z.div_mod (capacity (variant v) nb bs) (cluster (variant v) bs) ltac:(lia)).
    pose proof (Z.mod_pos_bound (capacity (variant v) nb bs) _ Hc). lia.
Qed.

(** On a device whose tables fit, the data partition is placed as the exact
    arithmetic says, and devices without room are refused: no computation wraps
    and nothing panics. *)
Theorem data_extent_is_reference v req nb bs :
  sane nb bs → is_u64 req →
  version_data_extent v req nb bs =
  match extent_ref (variant v) req nb bs with Some x => Ok x | None => Err (DeviceTooSmall nb bs) end.
Proof. apply data_extent_ref. Qed.

Lemma sane_sample : sane 24576 512.
Proof. unfold sane. vm_compute. intuition discriminate. Qed.

Lemma data_extent_is_reference_witness :
  version_data_extent V2 (5 * 1024 * 1024) 24576 512 = Ok (mkExtent 8192 16383).
Proof. rewrite (data_extent_is_reference V2 (5 * 1024 * 1024) 24576 512 sane_sample ltac:(by vm_compute)). by vm_compute. Defined.

(** The data partition starts behind the metadata, ends before the copy of the
    partition table and before the trailing void, is a whole number of clusters,
    and has the requested size unless the device has no room for another
    cluster. *)
Theorem data_extent_bounds v req nb bs x :
  sane nb bs → is_u64 req → version_data_extent v req nb bs = Ok x →
  start x = blocks DATA_OFFSET bs + blocks (META_SIZE (variant v)) bs ∧
  start x ≤ end_ x ∧
  end_ x < nb - blocks PARTITION_TABLE_SIZE bs - 1 ∧
  end_ x < nb - blocks (TRAILING_VOID_SIZE (variant v)) bs ∧
  extent_size x = end_ x - start x + 1 ∧
  (cluster (variant v) bs | extent_size x) ∧
  (req ≤ extent_size x * bs ∨ capacity (variant v) nb bs < extent_size x + cluster (variant v) bs).
Proof.
  intros Hs Hr. unfold version_data_extent. rewrite data_extent_ref by done.
  destruct (extent_ref _ _ _ _) as [y|] eqn:E; [|done]. intros [= ->].
  apply extent_ref_bounds in E as (n & -> & Hn & Hd & Hq); [|done|done].
  pose proof Hs as (Hb & Hnb & Ht). pose proof (layout_facts v bs Hb) as (_ & H2 & H3 & H4 & _ & H6 & _).
  pose proof (blocks_bounds req bs ltac:(lia) (proj1 Hr)).
  assert (Hsz : extent_size (mkExtent (first_block (variant v) bs) (first_block (variant v) bs + n - 1)) = n).
  { unfold extent_size. cbn [start end_]. unfold capacity, first_block in *.
    rewrite (wrap64_small (_ - _)) by (unfold is_u64; lia). rewrite wrap64_small by (unfold is_u64; lia). lia. }
  rewrite Hsz. cbn [start end_]. unfold capacity, first_block in *.
  repeat split; try done; try lia. destruct Hq; [left; nia|right; lia].
Qed.

Lemma data_extent_bounds_witness :
  end_ (mkExtent 10240 24542) < 24576 - 32 - 1.
Proof.
  apply (data_extent_bounds V1 u64_max 24576 512 (mkExtent 10240 24542) sane_sample); by vm_compute.
Defined.

(** ** Generated labels *)

Section Labels.
Context {bc : Bincode} {laws : BincodeLaws} {U : Uuids} {ulaws : UuidsLaws}.
Variable crc32 : list Z → Z.

Definition meta_type : GptGuid := default guid_default (guid_from_str META_TYPE_GUID).
Definition data_type : GptGuid := default guid_default (guid_from_str DATA_TYPE_GUID).

Lemma meta_guid_ok {E} : @meta_guid U E = Ok meta_type ∧ guid_ok meta_type.
Proof.
  unfold meta_guid, meta_type, guid_from_str. pose proof uuid_meta as H. rewrite H.
  split; [done|exact (uuid_fields _ _ _ _ _ H)].
Qed.

Lemma data_guid_ok {E} : @data_guid U E = Ok data_type ∧ guid_ok data_type.
Proof.
  unfold data_guid, data_type, guid_from_str. pose proof uuid_data as H. rewrite H.
  split; [done|exact (uuid_fields _ _ _ _ _ H)].
Qed.

Definition maya_entries (v : LabelVersion) (g random : GptGuid) (bs : Z) (x : DataExtent) : list GptEntry :=
  [mkEntry meta_type random (blocks DATA_OFFSET bs) (first_block (variant v) bs - 1) 0 META_NAME;
   mkEntry data_type g (start x) (end_ x) 0 DATA_NAME].

Lemma extent_geometry v req nb bs x :
  sane nb bs → is_u64 req → nb * bs < 2^64 → extent_ref (variant v) req nb bs = Some x → geometry bs nb.
Proof.
  intros Hs Hr Hn (n & _ & Hc & _)%extent_ref_bounds; [|done|done]. destruct Hs as (Hb & _ & Ht).
  destruct (layout_facts v bs Hb) as (_ & H2 & H3 & H4 & _). unfold capacity, first_block in Hc.
  split; [done|]. split; [done|]. lia.
Qed.

Lemma maya_entries_ok v g random req nb bs x :
  guid_ok g → guid_ok random → sane nb bs → is_u64 req → extent_ref (variant v) req nb bs = Some x →
  Forall entry_ok (maya_entries v g random bs x) ∧
  Forall (entry_valid (the_primary crc32 g bs nb (maya_entries v g random bs x))) (maya_entries v g random bs x).
Proof.
  intros Hg Hran Hs Hr (n & -> & Hc & _)%extent_ref_bounds; [|done|done]. destruct Hs as (Hb & Hn & Ht).
  destruct (layout_facts v bs Hb) as (_ & H2 & H3 & H4 & _).
  assert (Hfb : first_block (variant v) bs = blocks DATA_OFFSET bs + blocks (META_SIZE (variant v)) bs) by done.
  unfold capacity in Hc. set (fb := first_block (variant v) bs) in *.
  assert (Hname : name_ok META_NAME ∧ name_ok DATA_NAME).
  { unfold name_ok, is_scalar. repeat split; try (repeat constructor; vm_compute; intuition discriminate); vm_compute; lia. }
  assert (Hf : ∀ z, 0 ≤ z < 2^64 → fits 8 z) by done.
  split; repeat apply Forall_cons_2; try apply Forall_nil_2.
  - unfold entry_ok. cbn [ent_type ent_guid ent_start ent_end ent_attr ent_name].
    split_and!; [apply (@meta_guid_ok unit)|done|apply Hf; lia|apply Hf; lia|done|apply Hname].
  - unfold entry_ok. cbn [ent_type ent_guid ent_start ent_end ent_attr ent_name start end_].
    split_and!; [apply (@data_guid_ok unit)|done|apply Hf; lia|apply Hf; lia|done|apply Hname].
  - unfold entry_valid. simpl. lia.
  - unfold entry_valid. simpl. lia.
Qed.

Lemma generate_ok v g random req nb bs x :
  sane nb bs → is_u64 req → nb * bs < 2^64 → extent_ref (variant v) req nb bs = Some x →
  version_generate crc32 v g bs nb req random =
  Ok (mkVersioned v (the_label crc32 g bs nb (maya_entries v g random bs x))).
Proof.
  intros Hs Hr Hn Hx. pose proof (extent_geometry _ _ _ _ _ Hs Hr Hn Hx) as Hgeo.
  destruct (geometry_facts _ _ Hgeo) as (G1 & G2 & _ & _ & G5 & _). pose proof Hs as (Hb & _).
  assert (H : ∀ L, L = variant v → generate crc32 L g bs nb req random =
    Ok (mkVersioned (VERSION L) (the_label crc32 g bs nb (maya_entries v g random bs x)))).
  { intros L ->. unfold generate, build_partitions, header_new.
    rewrite !get_blocks_ok by (unfold PARTITION_TABLE_SIZE, DATA_OFFSET; lia). cbn [mbind outcome_bind lba_alt lba_start guid].
    rewrite (wrap64_small (nb - 1)) by (unfold is_u64; lia). replace (nb - 1 + 1) with nb by lia.
    rewrite (wrap64_small nb) by (unfold is_u64; lia). rewrite data_extent_ref, Hx by done. cbn [mbind outcome_bind].
    rewrite (proj1 meta_guid_ok), (proj1 data_guid_ok). cbn [mbind outcome_bind].
    rewrite label_new_eq by (done || (simpl; lia)). cbn [mbind outcome_bind]. unfold maya_entries.
    apply extent_ref_bounds in Hx as (n & -> & _); [|done|done]. cbn [start end_].
    pose proof (layout_facts v bs Hb) as (_ & _ & H3 & H4 & _).
    rewrite wrap64_small by (unfold is_u64, first_block; lia). done. }
  destruct v; [exact (H layout_v1 eq_refl)|exact (H layout_v2 eq_refl)].
Qed.

(** A generated label is recognised as its version, and as no earlier one. *)
Lemma check_generated w v g random req nb bs x st :
  sane nb bs → is_u64 req → nb * bs < 2^64 → extent_ref (variant v) req nb bs = Some x →
  check (variant w) (set_status st (the_label crc32 g bs nb (maya_entries v g random bs x))) =
  Ok (bool_decide (w = v)).
Proof.
  intros Hs Hr Hn Hx. pose proof Hs as (Hb & Hnb & _).
  pose proof (layout_facts v bs Hb) as (_ & _ & H3 & H4 & _).
  unfold check. cbn [block_size set_status the_label]. rewrite get_blocks_ok by (destruct w; simpl; lia).
  cbn [mbind outcome_bind]. unfold partition. cbn [partitions set_status the_label maya_entries list_find ent_name].
  rewrite (proj1 meta_guid_ok), (proj1 data_guid_ok).
  rewrite decide_True by done. cbn [fmap option_fmap option_map snd mbind outcome_bind ent_type ent_end ent_start].
  rewrite decide_False by done. cbn [list_find ent_name]. rewrite decide_True by done.
  cbn [fmap option_fmap option_map snd mbind outcome_bind ent_type ent_end ent_start prod_map fst].
  rewrite !bool_decide_true by done.
  assert (Hfb : first_block (variant v) bs = blocks DATA_OFFSET bs + blocks (META_SIZE (variant v)) bs) by done.
  rewrite (wrap64_small (first_block (variant v) bs - 1 - blocks DATA_OFFSET bs)) by (unfold is_u64; lia).
  rewrite (wrap64_small (_ + 1)) by (unfold is_u64; lia).
  rewrite (wrap64_small (first_block (variant v) bs - 1 + 1)) by (unfold is_u64; lia).
  apply extent_ref_bounds in Hx as (n & -> & _); [|done|done]. cbn [start].
  replace (first_block (variant v) bs - 1 + 1) with (first_block (variant v) bs) by lia. rewrite Z.eqb_refl.
  replace (first_block (variant v) bs - 1 - blocks DATA_OFFSET bs + 1) with (blocks (META_SIZE (variant v)) bs) by lia.
  assert (Hneq : blocks (3 * 1024 * 1024) bs < blocks (4 * 1024 * 1024) bs).
  { pose proof (blocks_bounds (3 * 1024 * 1024) bs ltac:(lia) ltac:(done)).
    pose proof (blocks_bounds (4 * 1024 * 1024) bs ltac:(lia) ltac:(done)). nia. }
  destruct w, v; cbn [variant META_SIZE layout_v1 layout_v2]; try by rewrite Z.eqb_refl.
  - by rewrite (proj2 (Z.eqb_neq _ _)) by lia.
  - by rewrite (proj2 (Z.eqb_neq _ _)) by lia.
Qed.

Lemma detect_generated v g random req nb bs x st :
  sane nb bs → is_u64 req → nb * bs < 2^64 → extent_ref (variant v) req nb bs = Some x →
  detect (set_status st (the_label crc32 g bs nb (maya_entries v g random bs x))) = Ok (Some v).
Proof.
  intros Hs Hr Hn Hx. unfold detect, ALL. cbn [find_version].
  rewrite (check_generated V1 v g random req nb bs x st), (check_generated V2 v g random req nb bs x st) by done.
  by destruct v.
Qed.

End Labels.

(** ** The tool *)

Section Tool.
Context {F : Files} {flaws : FilesLaws}.
Context {bc : Bincode} {laws : BincodeLaws} {U : Uuids} {ulaws : UuidsLaws}.
Variable crc32 : list Z → Z.
Hypothesis crc_range : ∀ l, fits 4 (crc32 l).
Variable read_to_string : string → option (list Z).

Lemma disk_props_metadata disk f f' o :
  metadata f' = metadata f →
  GptTool.disk_props read_to_string disk f' o = GptTool.disk_props read_to_string disk f o.
Proof. intros H. unfold GptTool.disk_props, GptTool.detect_disk. by rewrite H. Qed.

Lemma cli_guid_ok g : guid_from_str GptTool.CLI_GUID = Some g → guid_ok g.
Proof.
  unfold guid_from_str. destruct (uuid_from_str _) as [[[[a b] c] d]|] eqn:E; [|done].
  intros [= <-]. exact (uuid_fields _ _ _ _ _ E).
Qed.

Lemma disk_new_ok open cli disk f props read write :
  GptTool.path cli = Some disk → open disk read write = Some f →
  GptTool.disk_props read_to_string disk f (GptTool.block_size_arg cli) = Ok props →
  GptTool.disk_new read_to_string open read write cli = Ok (f, props).
Proof. intros Hp Ho Hd. unfold GptTool.disk_new. rewrite Hp. simpl. rewrite Ho. simpl. by rewrite Hd. Qed.

Lemma tool_reads f off buf :
  0 ≤ off → off + Z.of_nat (length buf) ≤ size f →
  GptTool.read_at f off buf = Ok (byte f <$> seqZ off (Z.of_nat (length buf))).
Proof. intros H1 H2. unfold GptTool.read_at. by rewrite read_inside by lia. Qed.

(** The two writes leave both parts on the disk and the rest alone. *)
Lemma two_writes f a pd b sd :
  0 ≤ a → a + Z.of_nat (length pd) ≤ b → b + Z.of_nat (length sd) ≤ size f →
  ∃ f1 f2, GptTool.write_at f pd a = Ok f1 ∧ GptTool.write_at f1 sd b = Ok f2 ∧
    size f2 = size f ∧ metadata f2 = metadata f ∧ holds (byte f2) a pd ∧ holds (byte f2) b sd ∧
    ∀ i, a + Z.of_nat (length pd) ≤ i < b → byte f2 i = byte f i.
Proof.
  intros Ha Hb Hs. destruct (write_inside f pd a) as (f1 & E1 & S1 & M1 & W1 & O1); [lia|lia|].
  destruct (write_inside f1 sd b) as (f2 & E2 & S2 & M2 & W2 & O2); [lia|lia|].
  exists f1, f2. unfold GptTool.write_at. rewrite E1, E2. do 2 (split; [done|]).
  split; [congruence|]. split; [congruence|]. split; [|split; [done|]].
  - eapply holds_ext; [|exact W1]. intros i Hi. apply O2. lia.
  - intros i Hi. rewrite O2, O1 by lia. done.
Qed.

Lemma tool_probe v g random nb bs x f :
  guid_ok g → guid_ok random → sane nb bs → nb * bs ≤ size f < 2^64 →
  extent_ref (variant v) u64_max nb bs = Some x →
  let es := maya_entries v g random bs x in
  holds (byte f) 440 (put_pmbr (the_mbr nb)) →
  holds (byte f) bs (put_header (the_primary crc32 g bs nb es)) → holds (byte f) (2 * bs) (table es) →
  holds (byte f) ((nb - 1) * bs) (put_header (the_secondary crc32 g bs nb es)) →
  versioned_probe crc32 GptTool.buffer_alloc (GptTool.read_at f) bs nb =
  Ok (mkVersioned v (set_status Both (the_label crc32 g bs nb es))).
Proof.
  intros Hg Hran Hs Hsize Hx es H1 H2 H3 H4. assert (Hm : is_u64 u64_max) by done.
  assert (Hn : nb * bs < 2^64) by lia. pose proof (extent_geometry _ _ _ _ _ Hs Hm Hn Hx) as Hgeo.
  destruct (maya_entries_ok crc32 v g random u64_max nb bs x Hg Hran Hs Hm Hx) as [Heok Hev].
  assert (Hlen : (length es ≤ 128)%nat) by (simpl; lia). unfold versioned_probe.
  rewrite (probe_both crc32 crc_range g bs nb es Hgeo Hg Heok Hlen GptTool.buffer_alloc ltac:(done) (byte f)
    (GptTool.read_at f)); [|intros; apply tool_reads; lia|done..].
  cbn [mbind outcome_bind]. unfold es. by rewrite (detect_generated crc32 v g random u64_max nb bs x Both).
Qed.

(** C31. The label the tool writes is the one it reads: on a disk with room for the
    data partition, [gpt write] succeeds and leaves every byte between the two
    copies of the label alone, and [gpt read] then finds the label with its version
    and both headers. *)
Theorem gpt_write_then_read open cli v random disk f props g x :
  guid_from_str GptTool.CLI_GUID = Some g → guid_ok random →
  GptTool.path cli = Some disk → open disk false true = Some f →
  GptTool.disk_props read_to_string disk f (GptTool.block_size_arg cli) = Ok props →
  let bs := GptTool.props_block_size props in
  let nb := GptTool.num_blocks props in
  sane nb bs → nb * bs ≤ size f < 2^64 → version_data_extent v u64_max nb bs = Ok x →
  ∃ f' l, GptTool.write crc32 read_to_string open cli v random = Ok (f', l) ∧ version l = v ∧
    (∀ i, blocks DATA_OFFSET bs * bs ≤ i < (nb - blocks PARTITION_TABLE_SIZE bs - 1) * bs → byte f' i = byte f i) ∧
    ∀ open', open' disk true false = Some f' →
      GptTool.read crc32 read_to_string open' cli = Ok (mkVersioned v (set_status Both (gpt l))).
Proof.
  intros Hg Hran Hpath Ho Hprops bs nb Hs Hsize Hx. pose proof (cli_guid_ok _ Hg) as Hgo.
  assert (Hm : is_u64 u64_max) by done. unfold version_data_extent in Hx. rewrite data_extent_ref in Hx by done.
  destruct (extent_ref (variant v) u64_max nb bs) as [y|] eqn:Ey; [|done]. injection Hx as ->.
  assert (Hn : nb * bs < 2^64) by lia.
  pose proof (extent_geometry _ _ _ _ _ Hs Hm Hn Ey) as Hgeo.
  destruct (maya_entries_ok crc32 v g random u64_max nb bs x Hgo Hran Hs Hm Ey) as [Heok Hev].
  set (es := maya_entries v g random bs x) in *. assert (Hlen : (length es ≤ 128)%nat) by (simpl; lia).
  set (L := the_label crc32 g bs nb es).
  destruct (primary_data_ok crc32 crc_range g bs nb es Hgeo Hgo Heok Hlen GptTool.buffer_alloc ltac:(done))
    as (pd & Hpd & Lpd & R1 & R2 & R3).
  destruct (secondary_data_ok crc32 crc_range g bs nb es Hgeo Hgo Heok Hlen GptTool.buffer_alloc ltac:(done))
    as (sd & Hsd & Lsd & R4 & R5).
  destruct (geometry_facts _ _ Hgeo) as (G1 & G2 & G3 & G4 & G5 & G6). pose proof Hgeo as (Hb & _ & Hroom).
  destruct (two_writes f 0 pd ((nb - blocks PARTITION_TABLE_SIZE bs - 1) * bs) sd) as (f1 & f2 & W1 & W2 & S2 & M2 & P1 & P2 & Hrest);
    [lia|nia|nia|].
  exists f2, (mkVersioned v L). split; [|split; [done|split]].
  - unfold GptTool.write. rewrite Hg. simpl. rewrite (disk_new_ok open cli disk f props) by done. simpl. fold bs nb.
    rewrite (generate_ok crc32 v g random u64_max nb bs x) by done. simpl. fold es. rewrite Hpd. simpl. rewrite Hsd. simpl.
    rewrite W1. simpl. by rewrite W2.
  - intros i Hi. apply Hrest. lia.
  - intros open' Ho'. unfold GptTool.read.
    rewrite (disk_new_ok open' cli disk f2 props); [|done|done|by rewrite (disk_props_metadata disk f f2)]. simpl. fold bs nb.
    destruct (regions_held crc32 g bs nb es Hgeo Hlen (byte f2) pd sd) as (? & [? ?] & ? & _); [done..|].
    rewrite (tool_probe v g random nb bs x f2) by (done || lia). simpl. unfold versioned_check. cbn [version gpt].
    unfold L, es. rewrite (check_generated crc32 v v g random u64_max nb bs x Both) by done. by rewrite bool_decide_true.
Qed.

End Tool.

(** ** Files in memory *)

Module MemFile.
Record memfile := mkFile { contents : Z → Z; flen : Z }.

Definition mem_read (f : memfile) (off n : Z) : outcome (option Errno) (list Z) :=
  if off + n <=? flen f then Ok (contents f <$> seqZ off n) else Err None.

Definition mem_write (f : memfile) (buf : list Z) (off : Z) : option memfile :=
  Some (mkFile (overlay (contents f) off buf) (Z.max (flen f) (off + Z.of_nat (length buf)))).

#[global] Instance mem_files : Files := {
  file := memfile;
  metadata f := Some (false, flen f);
  read_exact_at := mem_read;
  write_all_at := mem_write;
}.

#[global] Instance mem_laws : FilesLaws.
Proof.
  refine {| size := (flen : file → Z); byte := (contents : file → Z → Z) |}.
  - intros f off n H1 H2 H3. simpl. unfold mem_read. by rewrite (proj2 (Z.leb_le _ _)) by done.
  - intros f buf off H1 H2. eexists. split; [done|]. simpl. rewrite Z.max_l by done. split; [done|].
    split; [done|]. split; [apply overlay_holds|]. intros i Hi. by apply overlay_outside.
Defined.

Definition disk : memfile := mkFile (λ i, i mod 251) (16 * 1024 * 1024).
Definition cli : GptTool.CliArgs := GptTool.mkArgs (Some "/tmp/disk"%string) None.
Definition open (_ : string) (_ _ : bool) : option (@file mem_files) := Some disk.
Definition cli_guid : GptGuid :=
  mkGuid 0x978D2F99 0xAA7C 0x4F24 [0xAE; 0x22; 0x1B; 0xF9; 0x91; 0x37; 0xD7; 0xB1].

Lemma sane_disk : sane 32768 512.
Proof. unfold sane. vm_compute. intuition discriminate. Qed.
End MemFile.

Lemma gpt_write_then_read_witness :
  ∃ (f' : @file MemFile.mem_files) l,
    GptTool.write Sample.crc (λ _, None) MemFile.open MemFile.cli V2 guid_default = Ok (f', l) ∧
    GptTool.read Sample.crc (λ _, None) (λ _ _ _, Some f') MemFile.cli = Ok (mkVersioned V2 (set_status Both (gpt l))) ∧
    MemFile.contents f' 2000000 = 2000000 mod 251.
Proof.
  destruct (gpt_write_then_read Sample.crc Sample.crc_fits (λ _, None) MemFile.open MemFile.cli V2 guid_default "/tmp/disk"
    MemFile.disk (GptTool.mkProps 512 32768) MemFile.cli_guid (mkExtent 8192 24575)
    (ltac:(by vm_compute)) (ltac:(repeat constructor; simpl; lia)) (ltac:(done)) (ltac:(done)) (ltac:(by vm_compute))
    MemFile.sane_disk (ltac:(by vm_compute)) (ltac:(by vm_compute))) as (f' & l & Hw & _ & Hk & Hr).
  exists f', l. split; [exact Hw|]. split; [by apply Hr|]. apply Hk. vm_compute. intuition discriminate.
Defined.

(** ** Devices too small for the tables

    The number of usable blocks wraps, and the partition is placed outside the
    device. *)
Lemma tiny_device_extent_is_outside :
  version_data_extent V1 (1024 * 1024) 20 512 = Ok (mkExtent 10240 12287).
Proof. by vm_compute. Qed.

End LabelProps.
