(* ===== verification/NexusLifecycle.v ===== *)
(** * The life of a nexus

    Creating, opening, resizing, shutting down and destroying a nexus
    ([bdev/nexus/nexus_bdev.rs], [bdev/nexus/nexus_bdev_children.rs]), the
    retirement of a child's device, and the device monitor
    ([core/device_monitor.rs]).  Devices, the store and SPDK's bdev layer give
    the results in [Env]. *)

From S2P Require Import Prelude Errors DeviceEvents SegmentMap IoLog RebuildState NexusChild NexusIo IoSubsystem NexusErrors NexusReservations NexusControl Gpt GptFacts GptMaya.
Import Child NexusErr Control.

Module Lifecycle.

(** The results of the calls a nexus makes. *)
Record Env := mkEnv {
  device_create : string → outcome Bdev.Error string;
  device_lookup : string → option BlockDevice;
  device_open : string → outcome CoreError unit;
  device_destroy : string → outcome Bdev.Error unit;
  device_alignment : string → Z;
  acquire : string → outcome ChildError unit;
  register_bdev : option Errno;
  persisted : outcome Error unit;
  (** [spdk_bdev_notify_blockcnt_change] *)
  notify : option Errno;
  (** What the bdev layer gives as alignment for a required alignment. *)
  alignment_of : Z → Z;
  store_enabled : bool;
  uuid_of : string → option (option string);
  now : Z;
}.

Section Lifecycle.
Context {L : Type} `{!IoLogOps L}.
Variable env : Env.
Local Abbreviation Ch := (NexusChild L).
Local Abbreviation W := (Nx.World L).

Record Nexus := mkNexus {
  nx_name : string;
  nx_uuid : string;
  req_size : Z;
  req_size_exact : bool;
  nx_state : NexusState;
  data_ent_offset : Z;
  label_version : Maya.LabelVersion;
  block_len : Z;
  num_blocks : Z;
  required_alignment : Z;
  has_io_device : bool;
  (** The devices [device_destroy] was called for, by URI. *)
  nx_destroyed : list string;
  world : W;
}.

Local Abbreviation M := (ST Nexus Error).

Definition set_nx_state (s : NexusState) (n : Nexus) : Nexus :=
  mkNexus (nx_name n) (nx_uuid n) (req_size n) (req_size_exact n) s (data_ent_offset n) (label_version n)
    (block_len n) (num_blocks n) (required_alignment n) (has_io_device n) (nx_destroyed n) (world n).
Definition set_req_size (v : Z) (n : Nexus) : Nexus :=
  mkNexus (nx_name n) (nx_uuid n) v (req_size_exact n) (nx_state n) (data_ent_offset n) (label_version n)
    (block_len n) (num_blocks n) (required_alignment n) (has_io_device n) (nx_destroyed n) (world n).
Definition set_geometry (offset len : Z) (n : Nexus) : Nexus :=
  mkNexus (nx_name n) (nx_uuid n) (req_size n) (req_size_exact n) (nx_state n) offset (label_version n)
    len (num_blocks n) (required_alignment n) (has_io_device n) (nx_destroyed n) (world n).
Definition set_num_blocks (v : Z) (n : Nexus) : Nexus :=
  mkNexus (nx_name n) (nx_uuid n) (req_size n) (req_size_exact n) (nx_state n) (data_ent_offset n) (label_version n)
    (block_len n) v (required_alignment n) (has_io_device n) (nx_destroyed n) (world n).
Definition set_required_alignment (v : Z) (n : Nexus) : Nexus :=
  mkNexus (nx_name n) (nx_uuid n) (req_size n) (req_size_exact n) (nx_state n) (data_ent_offset n) (label_version n)
    (block_len n) (num_blocks n) v (has_io_device n) (nx_destroyed n) (world n).
Definition set_has_io_device (b : bool) (n : Nexus) : Nexus :=
  mkNexus (nx_name n) (nx_uuid n) (req_size n) (req_size_exact n) (nx_state n) (data_ent_offset n) (label_version n)
    (block_len n) (num_blocks n) (required_alignment n) b (nx_destroyed n) (world n).
Definition set_world (w : W) (n : Nexus) : Nexus :=
  mkNexus (nx_name n) (nx_uuid n) (req_size n) (req_size_exact n) (nx_state n) (data_ent_offset n) (label_version n)
    (block_len n) (num_blocks n) (required_alignment n) (has_io_device n) (nx_destroyed n) w.

Definition log_destroyed (uris : list string) (n : Nexus) : Nexus :=
  mkNexus (nx_name n) (nx_uuid n) (req_size n) (req_size_exact n) (nx_state n) (data_ent_offset n) (label_version n)
    (block_len n) (num_blocks n) (required_alignment n) (has_io_device n) (nx_destroyed n ++ uris) (world n).

(** [try_self_shutdown]: the future that shuts the nexus down is sent. *)
Definition request_shutdown (n : Nexus) : Nexus := set_world (Nx.set_shutdown true (world n)) n.

Definition children (n : Nexus) : list Ch := Nx.children (world n).
Definition set_children (cs : list Ch) (n : Nexus) : Nexus := set_world (Nx.set_children cs (world n)) n.

(** *** Geometry *)

Record Geometry := mkGeometry { start_blk : Z; end_blk : Z; blk_size : Z }.

Definition scan_child (resizing : bool) (n : Nexus) (a : Geometry) (c : Ch) : outcome Error Geometry :=
  match device c with
  | None => Err NexusIncomplete
  | Some dev =>
      let nb := bd_num_blocks dev in
      let bs := bd_block_len dev in
      if negb (blk_size a =? 0) && negb (bs =? blk_size a) then Err MixedBlockSizes
      else
        match Maya.version_data_extent (label_version n) (req_size n) nb bs with
        | Panicked => Panicked
        | Err _ => req_blocks ← u64_div (req_size n) bs; Err (ChildTooSmall (name c) nb bs req_blocks)
        | Ok x =>
            req_blocks ← u64_div (req_size n) bs;
            if resizing && (Maya.end_ x <=? wrap64 (Maya.start x + num_blocks n))
            then Err (ChildTooSmall (name c) nb bs req_blocks)
            else if start_blk a =? 0 then Ok (mkGeometry (Maya.start x) (Maya.end_ x) bs)
            else if negb (start_blk a =? Maya.start x) then Err (ChildGeometry (name c))
            else Ok (mkGeometry (start_blk a) (Z.min (end_blk a) (Maya.end_ x)) bs)
        end
  end.

Fixpoint scan_children (resizing : bool) (n : Nexus) (a : Geometry) (cs : list Ch) : outcome Error Geometry :=
  match cs with
  | [] => Ok a
  | c :: cs => a ← scan_child resizing n a c; scan_children resizing n a cs
  end.

(** The geometry and the size in blocks. *)
Definition determine_size (resizing : bool) (n : Nexus) : outcome Error (Geometry * Z) :=
  match children n with
  | [] => Err NexusIncomplete
  | cs =>
      a ← scan_children resizing n (mkGeometry 0 0 0) cs;
      let size_blks := wrap64 (wrap64 (end_blk a - start_blk a) + 1) in
      req_size_blks ← u64_div (req_size n) (blk_size a);
      if req_size_exact n && negb (req_size_blks =? size_blks)
      then Err (NexusSizeUnmatched (req_size n) (wrap64 (size_blks * blk_size a)))
      else Ok (a, size_blks)
  end.

Definition setup_nexus_bdev (resizing : bool) : M unit := λ n,
  match determine_size resizing n with
  | Ok (a, size_blks) =>
      let n := set_geometry (start_blk a) (wrap32 (blk_size a)) n in
      if negb resizing then (set_num_blocks size_blks n, Ok tt)
      else match notify env with
           | Some e => (n, Err (NexusResize e))
           | None => (set_num_blocks size_blks n, Ok tt)
           end
  | Err e => (n, Err e)
  | Panicked => (n, Panicked)
  end.

(** [pause]: the pause state of the I/O subsystem. *)
Definition resize (pause : option IoSub.NexusPauseState) (resize_to : Z) : M unit := λ n,
  match check_nexus_operation (nx_state n) pause with
  | Ok _ =>
      let current_size := req_size n in
      if current_size =? resize_to then (n, Ok tt)
      else
        match setup_nexus_bdev true (set_req_size resize_to n) with
        | (n, Ok _) => (n, Ok tt)
        | (n, Err e) => (set_req_size current_size n, Err e)
        | (n, Panicked) => (n, Panicked)
        end
  | Err e => (n, Err e)
  | Panicked => (n, Panicked)
  end.

(** *** Children *)

Definition new_child (uri : string) : ST Nexus Bdev.Error unit := λ n,
  match nx_state n with
  | Control.Init =>
      match device_create env uri with
      | Ok device_name =>
          match new (E := Bdev.Error) (store_enabled env) (uuid_of env) uri (nx_name n) (device_lookup env device_name) with
          | Ok c => (set_children (children n ++ [c]) n, Ok tt)
          | Err e => (n, Err e)
          | Panicked => (n, Panicked)
          end
      | Err e => (n, Err e)
      | Panicked => (n, Panicked)
      end
  | _ => (n, Panicked)
  end.

(** [NexusChild::close]: the device's removal event arrives while it waits, and
    its messages are received in order. *)
Fixpoint await_removal (fuel : nat) (c : Ch) (k : Closing) : Ch * outcome Bdev.Error unit :=
  match fuel with
  | 0%nat => (c, Ok tt)
  | S fuel =>
      match k with
      | CloseDone r => (c, r)
      | AwaitDestroy => (c, Ok tt)
      | AwaitRemoval =>
          match remove_channel c with
          | [] => (c, Ok tt)
          | destroyed :: rest => let '(c, k) := close_received 0 destroyed rest c in await_removal fuel c k
          end
      | PollRemoval tries => let '(c, k) := close_poll tries c in await_removal fuel c k
      end
  end.

Definition close_child_run (c : Ch) : Ch * outcome Bdev.Error unit :=
  let '(c, k) := close_begin c in
  match k with
  | AwaitDestroy =>
      let '(c, k) := close_destroyed (device_destroy env (name c)) c in
      match k with
      | AwaitRemoval =>
          let c := fst (unplug c) in
          await_removal (length (remove_channel c) + 22) c AwaitRemoval
      | CloseDone r => (c, r)
      | _ => (c, Ok tt)
      end
  | CloseDone r => (c, r)
  | _ => (c, Ok tt)
  end.

(** The device that closing a child destroys. *)
Definition to_destroy (c : Ch) : option string :=
  match destroy_state c, device c with DestroyNone, Some _ => Some (name c) | _, _ => None end.

Definition close_children (n : Nexus) : Nexus :=
  log_destroyed (omap to_destroy (children n)) (set_children ((fst ∘ close_child_run) <$> children n) n).

Definition close_opened (n : Nexus) : Nexus :=
  log_destroyed (omap (λ c, if is_opened c then to_destroy c else None) (children n))
    (set_children ((λ c, if is_opened c then fst (close_child_run c) else c) <$> children n) n).

(** Every child is tried; the last error is kept. *)
Fixpoint open_all (size : Z) (cs : list Ch) : list Ch * outcome Error (option ChildError) :=
  match cs with
  | [] => ([], Ok None)
  | c :: cs =>
      match open (now env) (device_open env (name c)) size Synced c with
      | (c, Panicked) => (c :: cs, Panicked)
      | (c, r) =>
          let '(cs, e) := open_all size cs in
          (c :: cs, e ← e; Ok (match e, r with Some e, _ => Some e | None, Err e => Some e | None, _ => None end))
      end
  end.

(** Until the first failure. *)
Fixpoint acquire_all (cs : list Ch) : outcome Error unit :=
  match cs with
  | [] => Ok tt
  | c :: cs =>
      match acquire env (name c) with
      | Ok _ => acquire_all cs
      | Err e => Err (ChildWriteExclusiveResvFailed e (name c))
      | Panicked => Panicked
      end
  end.

Definition max_alignment (cs : list Ch) (a : Z) : Z :=
  foldl (λ a c, let d := device_alignment env (name c) in if a <? d then d else a) a cs.

(** A child without a device panics here. *)
Definition align_to_children (n : Nexus) : Nexus * outcome Error unit :=
  if forallb (λ c : Ch, match device c with Some _ => true | None => false end) (children n) then
    let current := alignment_of env (required_alignment n) in
    let new_alignment := max_alignment (children n) current in
    (if current =? new_alignment then n else set_required_alignment (wrap8 new_alignment) n, Ok tt)
  else (n, Panicked).

Definition try_open_children : M unit := λ n,
  match open_all (req_size n) (children n) with
  | (cs, Ok None) =>
      let n := set_children cs n in
      match acquire_all (children n) with
      | Ok _ => align_to_children n
      | Err e => (close_children n, Err e)
      | Panicked => (n, Panicked)
      end
  | (cs, Ok (Some _)) => (close_opened (set_children cs n), Err NexusIncomplete)
  | (cs, Err e) => (set_children cs n, Err e)
  | (cs, Panicked) => (set_children cs n, Panicked)
  end.

(** *** Opening *)

(** [BdevOps::destruct], which the bdev layer calls when the bdev is
    unregistered. *)
Definition destruct (n : Nexus) : Nexus :=
  match nx_state n with
  | Control.Closed => n
  | _ =>
      let n := if existsb is_opened (children n) then set_children [] (close_opened n) else n in
      set_nx_state Control.Closed (set_has_io_device false n)
  end.

Definition register_instance : M unit := λ n,
  match nx_state n with
  | Control.Init =>
      match setup_nexus_bdev false n with
      | (n, Ok _) =>
          match register_bdev env with
          | Some e => (n, Err (RegisterNexus e))
          | None =>
              match try_open_children (set_has_io_device true n) with
              | (n, Ok _) =>
                  match persisted env with
                  | Ok _ => (set_nx_state NxOpen n, Ok tt)
                  | Err e => (destruct (request_shutdown n), Err e)
                  | Panicked => (n, Panicked)
                  end
              | (n, Err e) => (destruct n, Err e)
              | r => r
              end
          end
      | r => r
      end
  | _ => (n, Panicked)
  end.

(** [Nexus::new] *)
Definition nexus_new (nm uuid : string) (size : Z) (size_exact : bool) (version : Maya.LabelVersion) : Nexus :=
  mkNexus nm uuid size size_exact Control.Init 0 version 0 0 9 false [] (Nx.mkWorld [] [] Success false [] [] [] [] [] 0 Nx.Normal [] ∅ [] [] [] []).

Fixpoint new_children (uris : list string) : M unit := λ n,
  match uris with
  | [] => (n, Ok tt)
  | uri :: uris =>
      match new_child uri n with
      | (n, Ok _) => new_children uris n
      | (n, Err e) => (close_children n, Err (CreateChild e))
      | (n, Panicked) => (n, Panicked)
      end
  end.

(** The nexus that is left, and the result.  The devices of an incomplete nexus
    are destroyed by URI, whatever the outcome. *)
Definition create_nexus (uris : list string) (n : Nexus) : Nexus * outcome Error unit :=
  match new_children uris n with
  | (n, Ok _) =>
      match register_instance n with
      | (n, Err NexusIncomplete) => (log_destroyed (name <$> children n) n, Err NexusCreate)
      | (n, Err e) => (close_children n, Err e)
      | r => r
      end
  | r => r
  end.

(** *** Lookup and creation *)

Definition nexus_lookup (nm : string) (ns : list Nexus) : option Nexus :=
  snd <$> list_find (λ n, nx_name n = nm) ns.

Definition nexus_lookup_name_uuid (nm : string) (uuid : option string) (ns : list Nexus) : option Nexus :=
  snd <$> list_find (λ n, nx_name n = nm ∨ Some (nx_uuid n) = uuid) ns.

(** [generated]: the UUID of the bdev, used when none is given. *)
Definition nexus_create_internal (nm : string) (size : Z) (size_exact : bool) (nexus_uuid : option string)
    (generated : string) (uris : list string) (version : Maya.LabelVersion) : ST (list Nexus) Error unit := λ ns,
  match nexus_lookup_name_uuid nm nexus_uuid ns with
  | Some n =>
      (ns,
       match nx_state n with
       | Control.Init => Err NexusInitialising
       | _ =>
           if negb (bool_decide (nx_name n = nm))
              || (match nexus_uuid with Some _ => true | None => false end
                  && negb (bool_decide (Some (nx_uuid n) = nexus_uuid)))
           then Err (UuidExists (nx_uuid n)) else Ok tt
       end)
  | None =>
      match create_nexus uris (nexus_new nm (default generated nexus_uuid) size size_exact version) with
      | (n, Ok _) => (ns ++ [n], Ok tt)
      | (_, r) => (ns, r)
      end
  end.

(** *** Adding a child *)

(** The device layer's checks of a new child. *)
Definition check_new_child (n : Nexus) (dev_name : string) : outcome Error BlockDevice :=
  _ ← assert (0 <? num_blocks n);
  _ ← assert (0 <? block_len n);
  match device_lookup env dev_name with
  | None => Err (ChildMissing dev_name)
  | Some dev =>
      if negb (bd_block_len dev =? block_len n) then Err (ChildGeometry dev_name)
      else
        m ← min_num_blocks (world n);
        if match m with None => true | Some k => bd_num_blocks dev <? k end then Err (ChildGeometry dev_name)
        else
          match Nx.lookup_child_by_device (world n) dev_name with
          | Some _ => Err (ChildAlreadyExists dev_name)
          | None => Ok dev
          end
  end.

(** A new child, opened out of sync and reserved. *)
Definition open_new_child (n : Nexus) (uri : string) (dev : BlockDevice) : outcome Error Ch :=
  c ← new (store_enabled env) (uuid_of env) uri (nx_name n) (Some dev);
  match open (now env) (device_open env uri) (req_size n) OutOfSync c with
  | (c, Ok _) => map_err (λ e, NexusErr.OpenChild e uri) (_ ← acquire env uri; Ok c)
  | (_, Err e) => Err (NexusErr.OpenChild e uri)
  | (_, Panicked) => Panicked
  end.

(** A child whose addition cannot be saved is taken off again, and the nexus is
    shut down. *)
Definition add_child_only (pause : option IoSub.NexusPauseState) (uri : string) : M NexusStatus := λ n,
  match (_ ← check_nexus_operation (nx_state n) pause; map_err CreateChild (device_create env uri)) with
  | Ok dev_name =>
      match check_new_child n dev_name with
      | Ok dev =>
          match open_new_child n uri dev with
          | Ok c =>
              let n := set_children (children n ++ [c]) n in
              match persisted env with
              | Ok _ => (n, Ok (status (nx_state n) (world n)))
              | Err e => (set_children (filter (λ c, name c ≠ uri) (children n)) (request_shutdown n), Err e)
              | Panicked => (n, Panicked)
              end
          | Err e => (log_destroyed [uri] n, Err e)
          | Panicked => (n, Panicked)
          end
      | Err (ChildGeometry d) => (log_destroyed [uri] n, Err (ChildGeometry d))
      | Err e => (n, Err e)
      | Panicked => (n, Panicked)
      end
  | Err e => (n, Err e)
  | Panicked => (n, Panicked)
  end.

Section Running.
Context {Map : Type}.
Variable finalize : L → Map.
Variable src_of : string → string.

Definition on_world {A} (m : ST W Error A) : M A := λ n,
  let '(w, r) := m (world n) in (set_world w n, r).

(** [job_created] is the result of creating a rebuild job, [h] that of opening
    handles. *)
Definition add_child (pause : option IoSub.NexusPauseState) (job_created : string → JobResult)
    (h : string → bool) (uri : string) (norebuild : bool) : M NexusStatus := λ n,
  match check_nexus_operation (nx_state n) pause with
  | Ok _ =>
      match add_child_only pause uri n with
      | (n, Ok st) =>
          if norebuild then (n, Ok st)
          else
            match start_rebuild (now env) finalize job_created h uri (world n) with
            | (w, Ok _) => (set_world w n, Ok st)
            | (w, Err _) =>
                (log_destroyed (option_list ('(_, c) ← lookup_child uri w; to_destroy c))
                   (set_world (update_child uri (λ c, close_faulted_end (now env) RebuildFailed (fst (close_child_run c))) w) n),
                 Ok st)
            | (w, Panicked) => (set_world w n, Panicked)
            end
      | r => r
      end
  | Err e => (n, Err e)
  | Panicked => (n, Panicked)
  end.

(** *** Shutting down *)

(** The rebuild jobs of every child are cancelled; [gone] says which have left
    the table. *)
Definition cancel_all (gone : string → bool) (n : Nexus) : Nexus :=
  set_world (foldl (λ w uri, fst (cancel_rebuild_jobs src_of gone uri w)) (world n) (name <$> children n)) n.

(** Up to the first await: the state to go back to. *)
Definition shutdown_begin (n : Nexus) : Nexus * outcome Error (option NexusState) :=
  match nx_state n with
  | NxShutdown => (n, Ok None)
  | NxShuttingDown => (n, Err OperationNotAllowed)
  | t => (set_nx_state NxShuttingDown n, Ok (Some t))
  end.

Definition shutdown_end (gone : string → bool) (n : Nexus) : Nexus :=
  set_nx_state NxShutdown (close_children (cancel_all gone n)).

(** [paused]: the result of pausing the I/O subsystem. *)
Definition shutdown (paused : outcome Error unit) (gone : string → bool) : M unit := λ n,
  match shutdown_begin n with
  | (n, Ok None) => (n, Ok tt)
  | (n, Ok (Some prev)) =>
      match paused with
      | Ok _ => (shutdown_end gone n, Ok tt)
      | Err e => (set_nx_state prev n, Err e)
      | Panicked => (n, Panicked)
      end
  | (n, Err e) => (n, Err e)
  | (n, Panicked) => (n, Panicked)
  end.

(** [unshared] and [unregistered]: the results of unsharing and of unregistering
    the bdev, upon which it is destructed. *)
Definition destroy_ext (unshared : outcome Error unit) (unregistered : bool) (gone : string → bool) : M unit := λ n,
  match unshared with
  | Ok _ =>
      let n := close_children (cancel_all gone n) in
      if unregistered then (destruct n, Ok tt) else (n, Err NexusDestroy)
  | Err e => (n, Err e)
  | Panicked => (n, Panicked)
  end.

(** *** Retiring a device *)

Definition detach_device (dev : string) (n : Nexus) : Nexus :=
  if has_io_device n then set_world (Nx.detach_device dev (world n)) n else n.

Definition disconnect_detached (p : string → bool) (n : Nexus) : Nexus :=
  set_world (Nx.disconnect_detached_devices p (world n)) n.

(** The device monitor's queue: devices to be retired. *)
Definition Queue : Type := list (string * string).

(** What is sent elsewhere: to the device monitor, and to the rebuild jobs that
    are told to fail. *)
Record Effects := mkEffects { queue : Queue; failing : list string }.

(** [force_fail] of the child's rebuild job, if it has one, before its device is
    queued. *)
Definition child_retire_destroy_device (dev : string) (n : Nexus) (fx : Effects) : Effects :=
  match Nx.lookup_child_by_device (world n) dev with
  | Some (_, c) =>
      mkEffects (queue fx ++ [(nx_name n, dev)]) (failing fx ++ (if Nx.has_job (world n) c then [name c] else []))
  | None => fx
  end.

(** [saved]: the result of persisting; [persist] shuts the nexus down when it
    fails. *)
Definition child_retire_persist (saved : outcome Error unit) (dev : string) : M unit := λ n,
  match Nx.lookup_child_by_device (world n) dev with
  | None => (n, Ok tt)
  | Some _ => (match saved with Err _ => request_shutdown n | _ => n end, saved)
  end.

(** [failed]: the devices whose controller failed; [paused] and [resumed]: of the
    I/O subsystem. *)
Definition do_child_retire (saved : outcome Error unit) (failed : string → bool) (paused resumed : outcome Error unit)
    (dev : string) : ST (Nexus * Effects) Error unit := λ '(n, fx),
  match child_retire_persist saved dev n with
  | (n, Err _) => ((n, fx), Ok tt)
  | (n, Panicked) => ((n, fx), Panicked)
  | (n, Ok _) =>
      let n := disconnect_detached failed (detach_device dev n) in
      let n := disconnect_detached (λ _, true) n in
      match paused with
      | Ok _ => ((n, child_retire_destroy_device dev n fx), resumed)
      | Err e => ((n, fx), Err e)
      | Panicked => ((n, fx), Panicked)
      end
  end.

(** [close_child] *)
Definition close_child (dev : string) : M unit := λ n,
  match Nx.lookup_child_by_device (world n) dev with
  | Some (i, c) =>
      let '(c', r) := close_child_run c in
      (log_destroyed (option_list (to_destroy c)) (set_children (<[i := c']> (children n)) n),
       map_err (λ e, CloseChild e dev) r)
  | None => (n, Err (ChildNotFound dev))
  end.

(** A turn of the device monitor. *)
Definition monitor_step (ns : list Nexus) (q : Queue) : list Nexus * Queue :=
  match q with
  | [] => (ns, [])
  | (nm, dev) :: q =>
      (match list_find (λ n, nx_name n = nm) ns with
       | Some (i, n) => <[i := fst (close_child dev n)]> ns
       | None => ns
       end, q)
  end.

(** [try_self_shutdown], as run on the primary core: up to its first await, and
    the rest. *)
Definition self_shutdown_begin (n : Nexus) : Nexus * bool :=
  match nx_state n with
  | NxShutdown | NxShuttingDown => (n, false)
  | _ => (set_nx_state NxShuttingDown n, true)
  end.

Definition self_shutdown_end (gone : string → bool) (n : Nexus) (q : Queue) : Nexus * Queue :=
  let devs := omap get_device_name (children n) in
  let n := foldl (λ n dev, disconnect_detached (λ _, true) (detach_device dev n)) n devs in
  let n := set_world (fst (Nx.abort_frozen (world n))) n in
  (set_nx_state NxShutdown (close_children (cancel_all gone n)), q ++ ((λ d, (nx_name n, d)) <$> devs)).

(** *** Reset *)

Definition set_reset_state (n : Nexus) : Nexus * bool :=
  match nx_state n with NxOpen => (set_nx_state Reconfiguring n, true) | _ => (n, false) end.

Definition set_open_state (n : Nexus) : Nexus * bool :=
  match nx_state n with Reconfiguring | Control.Init => (set_nx_state NxOpen n, true) | _ => (n, false) end.

(** *** Events of devices *)

Definition retire_device (partial_rebuild : bool) (dev : string) (reason : FaultReason) (n : Nexus) : Nexus :=
  set_world (fst (Nx.retire_child_device partial_rebuild (now env) dev reason false (world n))) n.

(** [unplug] reconfigures the channels unless the child had failed; [h] is that
    of [Nx.reconnect_all]. *)
Definition child_remove_routine (partial_rebuild : bool) (h : string → bool) (dev : string) (n : Nexus) : Nexus :=
  match Nx.lookup_child_by_device (world n) dev with
  | Some (i, c) =>
      if hot_removed c then retire_device partial_rebuild dev HotRemove n
      else
        let '(c, reconfigure) := unplug c in
        let n := set_children (<[i := c]> (children n)) n in
        if reconfigure then set_world (Nx.reconnect_all (now env) h (world n)) n else n
  | None => n
  end.

(** [failed]: the devices whose controller failed. *)
Definition disconnect_failed_child (pause : option IoSub.NexusPauseState) (failed : string → bool) (dev : string)
    (ctrl_failed : bool) (n : Nexus) : Nexus :=
  match Nx.lookup_child_by_device (world n) dev with
  | Some (_, c) =>
      if negb (is_faulted c) then n
      else if negb (bool_decide (pause = Some IoSub.Pausing)) then n
      else disconnect_detached (λ d, bool_decide (d = dev) && (failed d || negb ctrl_failed)) n
  | None => n
  end.

Definition handle_device_event (partial_rebuild : bool) (h failed : string → bool) (pause : option IoSub.NexusPauseState)
    (evt : DeviceEventType) (dev : string) (n : Nexus) : Nexus :=
  match evt with
  | DeviceRemoved | LoopbackRemoved => child_remove_routine partial_rebuild h dev n
  | AdminCommandCompletionFailed => retire_device partial_rebuild dev AdminCommandFailed n
  | AdminQNoticeCtrlFailed => disconnect_failed_child pause failed dev true n
  | AdminQBroken => disconnect_failed_child pause failed dev false n
  | _ => n
  end.

(** *** Queries *)

(** [supports]: whether a device supports an I/O type. *)
Definition io_is_supported (supports : string → IoType → bool) (t : IoType) (n : Nexus) : bool :=
  negb (existsb (λ d : BlockDevice, negb (supports (bd_name d) t)) (omap device (children n))).

Definition io_type_supported (supports : string → IoType → bool) (t : IoType) (n : Nexus) : bool :=
  match t with
  | IoNvmeAdmin => false
  | IoRead | IoWrite => true
  | IoFlush | IoReset | IoUnmap | IoWriteZeros => io_is_supported supports t n
  | _ => false
  end.

(** *** Validation of creation requests *)

Definition NVME_MIN_CNTLID : Z := 1.
Definition NVME_MAX_CNTLID : Z := 0xffef.

Definition validate_params (p : Resv.NexusNvmeParams) : outcome Error unit :=
  if (Resv.min_cntlid p <? NVME_MIN_CNTLID) || (Resv.max_cntlid p <? Resv.min_cntlid p)
     || (NVME_MAX_CNTLID <? Resv.max_cntlid p)
  then Err InvalidArguments
  else if negb (Resv.reservations_enabled p) then Ok tt
  else if negb (Resv.reservations_valid p) then Err InvalidArguments
  else Ok tt.

(** [parse_uuid] gives the canonical text of a UUID.  A nexus whose name is a UUID
    has its own UUID besides that of its bdev. *)
Definition nexus_create_v2 (parse_uuid : string → option string) (nm : string) (size : Z) (size_exact : bool)
    (uuid generated : string) (p : Resv.NexusNvmeParams) (uris : list string) (version : Maya.LabelVersion)
    : ST (list Nexus) Error unit := λ ns,
  match validate_params p with
  | Ok _ =>
      match parse_uuid nm with
      | Some _ =>
          match parse_uuid uuid with
          | Some u => nexus_create_internal nm size size_exact (Some u) generated uris version ns
          | None => (ns, Err (NexusErr.InvalidUuid uuid))
          end
      | None => nexus_create_internal nm size size_exact None (default generated (parse_uuid uuid)) uris version ns
      end
  | Err e => (ns, Err e)
  | Panicked => (ns, Panicked)
  end.

Inductive NvmeAnaState :=
| InvalidState | OptimizedState | NonOptimizedState | InaccessibleState | PersistentLossState | ChangeState.

Definition ana_from_i32 (value : Z) : outcome Error NvmeAnaState :=
  match value with
  | 0 => Ok InvalidState
  | 1 => Ok OptimizedState
  | 2 => Ok NonOptimizedState
  | 3 => Ok InaccessibleState
  | 4 => Ok PersistentLossState
  | 15 => Ok ChangeState
  | _ => Err (InvalidNvmeAnaState value)
  end.

(** *** Interleaving

    Shutdowns that wait, and the steps that run between. *)

Inductive task := TShutdown (prev : NexusState) | TSelf.

Inductive step_event :=
| EvShutdown
| EvPaused (i : nat) (gone : string → bool)
| EvPauseFailed (i : nat)
| EvSelf
| EvSelfDone (i : nat) (gone : string → bool)
| EvReset
| EvOpened.

Definition exec_step (ev : step_event) (n : Nexus) (ts : list task) : option (Nexus * list task) :=
  match ev with
  | EvShutdown =>
      match shutdown_begin n with
      | (n, Ok (Some prev)) => Some (n, ts ++ [TShutdown prev])
      | (n, _) => Some (n, ts)
      end
  | EvPaused i gone =>
      match ts !! i with Some (TShutdown _) => Some (shutdown_end gone n, delete i ts) | _ => None end
  | EvPauseFailed i =>
      match ts !! i with Some (TShutdown prev) => Some (set_nx_state prev n, delete i ts) | _ => None end
  | EvSelf => let '(n, b) := self_shutdown_begin n in Some (n, if b then ts ++ [TSelf] else ts)
  | EvSelfDone i gone =>
      match ts !! i with Some TSelf => Some (fst (self_shutdown_end gone n []), delete i ts) | _ => None end
  | EvReset => Some (fst (set_reset_state n), ts)
  | EvOpened => Some (fst (set_open_state n), ts)
  end.

Fixpoint run_steps (evs : list step_event) (n : Nexus) (ts : list task) : option (Nexus * list task) :=
  match evs with
  | [] => Some (n, ts)
  | ev :: evs => '(n, ts) ← exec_step ev n ts; run_steps evs n ts
  end.

End Running.
End Lifecycle.
End Lifecycle.
