(* ===== verification/LifecycleProps.v ===== *)
(** * Properties of a nexus' life

    The nexus lies inside the data partition of every child; resizing,
    creation and shutdown. *)

From S2P Require Import Prelude Errors SegmentMap IoLog RebuildState NexusChild NexusIo NexusIoFacts NexusIoProps IoSubsystem NexusErrors NexusReservations NexusControl Gpt GptFacts GptMaya LabelProps NexusLifecycle.
Import Child NexusErr Control Lifecycle.

Module LifecycleProps.

Section LifecycleProps.
Context {L : Type} `{!IoLogOps L}.
Variable env : Env.
Local Abbreviation Ch := (NexusChild L).
Local Abbreviation Nexus := (Lifecycle.Nexus (L := L)).
Implicit Types (n : Nexus) (c : Ch) (a : Geometry).

(** ** Geometry *)

(** The devices have a size at which the labels are exact. *)
Definition sane_devices (cs : list Ch) : Prop :=
  Forall (λ c, ∀ dev, device c = Some dev → Maya.sane (bd_num_blocks dev) (bd_block_len dev)) cs.

(** The area is inside the data partition of the child. *)
Definition inside (v : Maya.LabelVersion) (offset size bs : Z) (c : Ch) : Prop :=
  ∃ dev, device c = Some dev ∧ bd_block_len dev = bs ∧
    offset = Maya.first_block (Maya.variant v) bs ∧
    offset + size ≤ bd_num_blocks dev - GptFacts.blocks Gpt.PARTITION_TABLE_SIZE bs - 1 ∧
    offset + size ≤ bd_num_blocks dev - GptFacts.blocks (Maya.TRAILING_VOID_SIZE (Maya.variant v)) bs.

(** What a scan has found so far. *)
Definition scanned (resizing : bool) n a : Prop :=
  512 ≤ blk_size a ≤ 2^18 ∧ start_blk a = Maya.first_block (Maya.variant (label_version n)) (blk_size a) ∧
  start_blk a ≤ end_blk a < 2^64 ∧ (resizing = true → start_blk a + num_blocks n < end_blk a).

Definition area n a c : Prop := inside (label_version n) (start_blk a) (end_blk a - start_blk a + 1) (blk_size a) c.

Lemma first_block_bounds v bs : 512 ≤ bs ≤ 2^18 → 16 ≤ Maya.first_block (Maya.variant v) bs ≤ 10240.
Proof.
  intros Hb. destruct (Maya.layout_facts v bs Hb) as (_ & _ & H3 & H4 & _). unfold Maya.first_block. lia.
Qed.

Lemma area_smaller n a a' c :
  start_blk a' = start_blk a → blk_size a' = blk_size a → end_blk a' ≤ end_blk a → area n a c → area n a' c.
Proof.
  intros H1 H2 H3 (dev & Hd & Hb & Ho & He & Hv). exists dev. rewrite H1, H2. split_and!; try done; lia.
Qed.

Lemma scan_child_ok resizing n a a' c :
  is_u64 (req_size n) → 0 ≤ num_blocks n < 2^63 →
  (∀ dev, device c = Some dev → Maya.sane (bd_num_blocks dev) (bd_block_len dev)) →
  (a = mkGeometry 0 0 0 ∨ scanned resizing n a) →
  scan_child resizing n a c = Ok a' →
  scanned resizing n a' ∧ area n a' c ∧
  (a = mkGeometry 0 0 0 ∨ start_blk a' = start_blk a ∧ blk_size a' = blk_size a ∧ end_blk a' ≤ end_blk a).
Proof.
  intros Hr Hnb Hs Ha. unfold scan_child. destruct (device c) as [dev|] eqn:Hd; [|done].
  specialize (Hs _ eq_refl). pose proof Hs as (Hb & Hn & Ht).
  destruct (negb (blk_size a =? 0) && negb (bd_block_len dev =? blk_size a)) eqn:Hmix; [done|].
  unfold Maya.version_data_extent. rewrite Maya.data_extent_ref by done.
  destruct (Maya.extent_ref _ _ _ _) as [x|] eqn:Ex.
  2:{ unfold u64_div. case_match; done. }
  apply LabelProps.extent_ref_bounds in Ex as (k & -> & Hk & _); [|done|done].
  set (fb := Maya.first_block (Maya.variant (label_version n)) (bd_block_len dev)) in *.
  pose proof (first_block_bounds (label_version n) (bd_block_len dev) Hb) as Hfb. fold fb in Hfb.
  assert (Hcap : fb + k ≤ bd_num_blocks dev - GptFacts.blocks Gpt.PARTITION_TABLE_SIZE (bd_block_len dev) - 1 ∧
    fb + k ≤ bd_num_blocks dev - GptFacts.blocks (Maya.TRAILING_VOID_SIZE (Maya.variant (label_version n))) (bd_block_len dev)).
  { unfold Maya.capacity in Hk. fold fb in Hk. lia. }
  pose proof (GptFacts.blocks_bounds Gpt.PARTITION_TABLE_SIZE (bd_block_len dev) ltac:(lia) ltac:(done)) as [Hpb _].
  unfold u64_div. rewrite (proj2 (Z.eqb_neq (bd_block_len dev) 0)) by lia. cbn [mbind outcome_bind Maya.start Maya.end_].
  rewrite (wrap64_small (fb + num_blocks n)) by (unfold is_u64; lia).
  destruct (resizing && _) eqn:Hre; [done|].
  assert (Hgrow : resizing = true → fb + num_blocks n < fb + k - 1).
  { intros ->. simpl in Hre. apply Z.leb_gt in Hre. lia. }
  destruct Ha as [->|(A1 & A2 & A3 & A4)].
  - simpl. intros [= <-]. simpl. split; [by split_and!; simpl; try lia|]. split; [|by left].
    exists dev. simpl. split_and!; try done; lia.
  - pose proof (first_block_bounds (label_version n) (blk_size a) A1).
    assert (Hbs : bd_block_len dev = blk_size a).
    { destruct (Z.eqb_spec (blk_size a) 0), (Z.eqb_spec (bd_block_len dev) (blk_size a)); simpl in Hmix; done || lia. }
    rewrite (proj2 (Z.eqb_neq (start_blk a) 0)) by lia.
    assert (Hsb : start_blk a = fb) by (unfold fb; by rewrite Hbs). rewrite Hsb, Z.eqb_refl. cbn [negb]. intros [= <-]. cbn [start_blk end_blk blk_size].
    split; [|split; [|right; split_and!; [done|cbn; lia|lia]]].
    + split; [cbn; lia|]. split; [done|]. split; [cbn; lia|]. cbn. intros ->. specialize (A4 eq_refl). specialize (Hgrow eq_refl). lia.
    + exists dev. cbn [start_blk end_blk blk_size]. split_and!; try done; lia.
Qed.

Lemma scan_children_ok resizing n a a' cs :
  is_u64 (req_size n) → 0 ≤ num_blocks n < 2^63 → sane_devices cs →
  scanned resizing n a → scan_children resizing n a cs = Ok a' →
  scanned resizing n a' ∧ Forall (area n a') cs ∧
  start_blk a' = start_blk a ∧ blk_size a' = blk_size a ∧ end_blk a' ≤ end_blk a.
Proof.
  intros Hr Hn Hs. revert a. induction Hs as [|c cs Hc Hs IH]; intros a Ha; simpl.
  { intros [= ->]. split_and!; try done. }
  destruct (scan_child resizing n a c) as [a1| |] eqn:E; [|done|done]. simpl. intros H.
  destruct (scan_child_ok resizing n a a1 c Hr Hn Hc (or_intror Ha) E) as (Ha1 & Hc1 & [->|(K1 & K2 & K3)]).
  { destruct Ha as ([? _] & _). simpl in *. lia. }
  destruct (IH a1 Ha1 H) as (Ha' & Hcs & J1 & J2 & J3).
  split; [done|]. split; [constructor; [by eapply area_smaller|done]|]. split_and!; [congruence|congruence|lia].
Qed.

Lemma determine_size_ok resizing n a size :
  is_u64 (req_size n) → 0 ≤ num_blocks n < 2^63 → sane_devices (children n) →
  determine_size resizing n = Ok (a, size) →
  scanned resizing n a ∧ size = end_blk a - start_blk a + 1 ∧ Forall (area n a) (children n) ∧ children n ≠ [].
Proof.
  intros Hr Hn Hs. unfold determine_size. destruct (children n) as [|c cs] eqn:Ec; [done|].
  apply Forall_cons in Hs as [Hc Hs]. cbn [scan_children].
  destruct (scan_child resizing n (mkGeometry 0 0 0) c) as [a1| |] eqn:E; [|done|done]. cbn [mbind outcome_bind].
  destruct (scan_child_ok resizing n _ a1 c Hr Hn Hc (or_introl eq_refl) E) as (Ha1 & Hc1 & _).
  destruct (scan_children resizing n a1 cs) as [a2| |] eqn:E2; [|done|done]. cbn [mbind outcome_bind].
  destruct (scan_children_ok resizing n a1 a2 cs Hr Hn Hs Ha1 E2) as (Ha2 & Hcs & J1 & J2 & J3).
  destruct (u64_div (req_size n) (blk_size a2)); [|done|done]. cbn [mbind outcome_bind].
  assert (Hw : wrap64 (wrap64 (end_blk a2 - start_blk a2) + 1) = end_blk a2 - start_blk a2 + 1).
  { destruct Ha2 as (A1 & A2 & A3 & _). pose proof (first_block_bounds (label_version n) (blk_size a2) A1).
    rewrite (wrap64_small (_ - _)) by (unfold is_u64; lia). rewrite wrap64_small by (unfold is_u64; lia). done. }
  rewrite Hw. case_match; [done|]. intros [= <- <-]. split; [done|]. split; [done|].
  split; [constructor; [by eapply area_smaller|done]|done].
Qed.

Lemma scan_children_no_panic resizing n a cs :
  is_u64 (req_size n) → sane_devices cs → scan_children resizing n a cs ≠ Panicked.
Proof.
  intros Hr Hs. revert a. induction Hs as [|c cs Hc Hs IH]; intros a; simpl; [done|].
  assert (Hsc : scan_child resizing n a c ≠ Panicked).
  { unfold scan_child. destruct (device c) as [dev|]; [|done]. specialize (Hc _ eq_refl). pose proof Hc as (Hb & _).
    case_match; [done|]. unfold Maya.version_data_extent. rewrite Maya.data_extent_ref by done.
    unfold u64_div. rewrite (proj2 (Z.eqb_neq (bd_block_len dev) 0)) by lia.
    destruct (Maya.extent_ref _ _ _ _); simpl; repeat case_match; done. }
  destruct (scan_child resizing n a c); [apply IH|done|done].
Qed.

Lemma determine_size_no_panic resizing n :
  is_u64 (req_size n) → 0 ≤ num_blocks n < 2^63 → sane_devices (children n) → determine_size resizing n ≠ Panicked.
Proof.
  intros Hr Hn Hs. unfold determine_size. destruct (children n) as [|c cs] eqn:Ec; [done|].
  pose proof (scan_children_no_panic resizing n (mkGeometry 0 0 0) (c :: cs) Hr Hs) as Hp.
  apply Forall_cons in Hs as [Hc Hs]. cbn [scan_children] in *.
  destruct (scan_child resizing n (mkGeometry 0 0 0) c) as [a1| |] eqn:E; [|done|done]. cbn [mbind outcome_bind] in *.
  destruct (scan_child_ok resizing n _ a1 c Hr Hn Hc (or_introl eq_refl) E) as (Ha1 & _).
  destruct (scan_children resizing n a1 cs) as [a2| |] eqn:E2; [|done|done]. cbn [mbind outcome_bind].
  destruct (scan_children_ok resizing n a1 a2 cs Hr Hn Hs Ha1 E2) as (([? _] & _) & _).
  unfold u64_div. rewrite (proj2 (Z.eqb_neq (blk_size a2) 0)) by lia. simpl. by case_match.
Qed.

(** The nexus lies in the data partition of every child. *)
Definition configured n : Prop :=
  512 ≤ block_len n ≤ 2^18 ∧ 0 < num_blocks n < 2^63 ∧ children n ≠ [] ∧
  Forall (inside (label_version n) (data_ent_offset n) (num_blocks n) (block_len n)) (children n).

(** Devices hold less than 2^63 blocks. *)
Definition bounded_devices (cs : list Ch) : Prop :=
  Forall (λ c, ∀ dev, device c = Some dev → bd_num_blocks dev < 2^63) cs.

Lemma setup_configured resizing n n' :
  is_u64 (req_size n) → 0 ≤ num_blocks n < 2^63 → sane_devices (children n) → bounded_devices (children n) →
  setup_nexus_bdev env resizing n = (n', Ok tt) →
  configured n' ∧ children n' = children n ∧ (resizing = true → num_blocks n < num_blocks n').
Proof.
  intros Hr Hn Hs Hbd. unfold setup_nexus_bdev.
  destruct (determine_size resizing n) as [[a size]| |] eqn:E; [|done|done].
  apply determine_size_ok in E as ((A1 & A2 & A3 & A4) & -> & Harea & Hne); [|done..].
  assert (Hw : wrap32 (blk_size a) = blk_size a) by (apply wrap32_small; lia). rewrite Hw.
  assert (Hlt : end_blk a - start_blk a + 1 < 2^63).
  { destruct (children n) as [|c cs]; [done|]. apply Forall_cons in Harea as [(dev & Hd & _ & _ & He & _) _].
    apply Forall_cons in Hbd as [Hb _]. specialize (Hb _ Hd). pose proof (first_block_bounds (label_version n) (blk_size a) A1).
    pose proof (GptFacts.blocks_bounds Gpt.PARTITION_TABLE_SIZE (blk_size a) ltac:(lia) ltac:(done)) as [? _]. lia. }
  assert (Hend : ∀ n1, n1 = set_num_blocks (end_blk a - start_blk a + 1) (set_geometry (start_blk a) (blk_size a) n) →
    configured n1 ∧ children n1 = children n ∧ (resizing = true → num_blocks n < num_blocks n1)).
  { intros n1 ->. split; [|split; [done|]].
    - split; [done|]. split; [simpl; lia|]. split; [done|]. exact Harea.
    - intros ->. specialize (A4 eq_refl). simpl. lia. }
  destruct resizing; simpl; [destruct (notify env); [done|]|]; intros [= <-]; by apply Hend.
Qed.

(** C7. A nexus that was set up for the first time lies inside the data partition of
    every child, for children whose devices have blocks of 512 bytes to 256 KiB,
    two blocks more than a partition table takes ([sane_devices]), and fewer than 2^63
    blocks ([bounded_devices]): each has the block size of the nexus,
    and the nexus' blocks start where the label places the data and end before the copy
    of the partition table and the trailing void.  On a smaller device the
    [u64] extent wraps around, and the nexus lies outside
    ([tiny_device_extent_is_outside]). *)
Theorem nexus_fits_every_child n n' :
  is_u64 (req_size n) → num_blocks n = 0 → sane_devices (children n) → bounded_devices (children n) →
  setup_nexus_bdev env false n = (n', Ok tt) →
  0 < num_blocks n' ∧
  ∀ c, c ∈ children n' →
    ∃ dev, device c = Some dev ∧ bd_block_len dev = block_len n' ∧
      data_ent_offset n' = GptFacts.blocks Gpt.DATA_OFFSET (block_len n') +
        GptFacts.blocks (Maya.META_SIZE (Maya.variant (label_version n'))) (block_len n') ∧
      data_ent_offset n' + num_blocks n' ≤ bd_num_blocks dev - GptFacts.blocks Gpt.PARTITION_TABLE_SIZE (block_len n') - 1 ∧
      data_ent_offset n' + num_blocks n' ≤
        bd_num_blocks dev - GptFacts.blocks (Maya.TRAILING_VOID_SIZE (Maya.variant (label_version n'))) (block_len n').
Proof.
  intros Hr Hn Hs Hb H. apply setup_configured in H as ((_ & Hpos & _ & Hf) & _ & _); [|done|lia|done|done].
  split; [lia|]. intros c Hc. rewrite Forall_forall in Hf. exact (Hf c Hc).
Qed.

(** Resizing a nexus that is set up: when it fails nothing has changed; when it
    succeeds the nexus has grown and still lies inside every child's data
    partition. *)
Theorem resize_grows_or_keeps n n' pause to r :
  is_u64 to → configured n → sane_devices (children n) → bounded_devices (children n) → to ≠ req_size n →
  resize env pause to n = (n', r) →
  match r with
  | Ok _ => req_size n' = to ∧ num_blocks n < num_blocks n' ∧ children n' = children n ∧ configured n'
  | Err _ => n' = n
  | Panicked => False
  end.
Proof.
  intros Hto Hcf Hs Hb Hne. unfold resize.
  destruct (check_nexus_operation (nx_state n) pause) as [u|e|] eqn:Ech;
    [|by intros [= <- <-]|by unfold check_nexus_operation in Ech; destruct (nx_state n), pause as [[]|]].
  rewrite (proj2 (Z.eqb_neq _ _)) by done. pose proof Hcf as (C1 & C2 & C3 & C4).
  destruct (setup_nexus_bdev env true (set_req_size to n)) as [n1 [u1|e|]] eqn:E.
  - intros [= <- <-]. destruct u1. pose proof E as E'.
    apply setup_configured in E' as (Hc & Hk & Hg); [|done|simpl; lia|done|done].
    split; [|split; [by apply Hg|by split]].
    unfold setup_nexus_bdev in E. case_all; done.
  - intros [= <- <-]. unfold setup_nexus_bdev in E.
    destruct (determine_size true (set_req_size to n)) as [[a size]|e1|] eqn:Ed; [|by simplify_eq; destruct n|done].
    simpl in E. destruct (notify env) as [e1|]; [|done]. simplify_eq.
    apply determine_size_ok in Ed as ((A1 & A2 & _) & -> & Harea & _); [|done|simpl; lia|done].
    change (children (set_req_size to n)) with (children n) in Harea.
    destruct (children n) as [|c cs]; [done|].
    apply Forall_cons in Harea as [(dev & Hd & Hbs & Ho & _) _]. apply Forall_cons in C4 as [(dev' & Hd' & Hbs' & Ho' & _) _].
    rewrite Hd' in Hd. injection Hd as ->. simpl in Ho. rewrite wrap32_small by lia.
    assert (start_blk a = data_ent_offset n) as -> by congruence. assert (blk_size a = block_len n) as -> by congruence.
    by destruct n.
  - unfold setup_nexus_bdev in E. destruct (determine_size true (set_req_size to n)) as [[a size]|e1|] eqn:Ed.
    { simpl in E. destruct (notify env); done. }
    { done. }
    by apply (determine_size_no_panic true (set_req_size to n)) in Ed; [|done|simpl; lia|done].
Qed.

(** ** Creation *)

(** A child as it is between operations. *)
Definition quiet c : Prop :=
  destroy_state c = DestroyNone ∧ remove_channel c = [] ∧ (is_opened c = true → is_Some (device c)).





Definition closed c : Prop := is_opened c = false.






































(** ** Shutdown *)

Section Shutdown.
Variable src_of : string → string.
Hypothesis destroys : ∀ uri, device_destroy env uri = Ok tt.

Lemma close_run_not_open c : quiet c → closed (fst (close_child_run env c)).
Proof.
  destruct c as [pa st sy de fa rc nm [dev|] dd il]; intros (Hd & Hr & Ho); simpl in Hd, Hr, Ho; subst;
    unfold close_child_run; simpl.
  - unfold close_destroyed. simpl. rewrite destroys. destruct (decide (st = Child.Init)) as [->|Hi]; [by repeat split|].
    rewrite bool_decide_false by done. destruct (decide (st = Open)) as [->|Ho']; [by repeat split|].
    unfold unplug. simpl. rewrite (bool_decide_false (st = Open)) by done. simpl. unfold closed, is_opened. simpl.
    by rewrite bool_decide_false.
  - unfold closed, is_opened in *. simpl in *. case_bool_decide as E; [|by repeat split].
    by destruct (Ho eq_refl).
Qed.

Lemma close_children_not_open n : Forall quiet (children n) → Forall closed (children (close_children env n)).
Proof. intros Hq. apply Forall_fmap. eapply Forall_impl; [exact Hq|]. intros c. apply close_run_not_open. Qed.

Lemma cancel_all_children gone n : children (cancel_all src_of gone n) = children n.
Proof.
  unfold cancel_all, children. simpl. assert (H : ∀ l (w : Nx.World L),
    Nx.children (foldl (λ w uri, fst (cancel_rebuild_jobs src_of gone uri w)) w l) = Nx.children w); [|apply H].
  intros l. induction l as [|u l IH]; intros w; [done|]. simpl. by rewrite IH.
Qed.

(** Shutting down: a nexus that is shut down stays as it is; while a shutdown is in
    progress, or when the I/O subsystem cannot be paused, the nexus is left as it
    was; otherwise no child is left open and every further control operation is
    refused. *)
Theorem shutdown_outcome paused gone n n' r :
  Forall quiet (children n) → shutdown env src_of paused gone n = (n', r) →
  match r with
  | Ok _ => nx_state n' = NxShutdown ∧
      (n' = n ∨ Forall (λ c, is_opened c = false) (children n')) ∧
      ∀ pause, check_nexus_operation (nx_state n') pause = Err OperationNotAllowed
  | Err _ => n' = n
  | Panicked => paused = Panicked
  end.
Proof.
  intros Hq. unfold shutdown, shutdown_begin.
  assert (Hend : ∀ s, Forall (λ c, is_opened c = false) (children (shutdown_end env src_of gone (set_nx_state s n)))).
  { intros s. unfold shutdown_end. apply close_children_not_open. by rewrite cancel_all_children. }
  destruct (nx_state n) eqn:Es.
  1-4: destruct paused; intros [= <- <-]; [split; [done|split; [right; apply Hend|done]]|by destruct n; simpl in *; subst|done].
  - by intros [= <- <-].
  - intros [= <- <-]. split; [done|]. rewrite Es. split; [by left|done].
Qed.

Definition settled n (ts : list task) : Prop :=
  ts = [] ∧ nx_state n ≠ NxShuttingDown ∨
  ∃ t, ts = [t] ∧ nx_state n = NxShuttingDown ∧ ∀ prev, t = TShutdown prev → prev ≠ NxShuttingDown ∧ prev ≠ NxShutdown.

Lemma exec_settled ev n ts n' ts' :
  settled n ts → exec_step env src_of ev n ts = Some (n', ts') → settled n' ts'.
Proof.
  intros Hs. destruct ev; simpl.
  - unfold shutdown_begin. destruct Hs as [[-> Hs]|(t & -> & Hs & Hp)]; [|rewrite Hs; intros [= <- <-]; right; by exists t].
    destruct (nx_state n) eqn:E; try done; intros [= <- <-];
      try (right; eexists; split; [reflexivity|]; split; [done|]; by intros prev [= <-]). left. by rewrite E.
  - destruct Hs as [[-> Hs]|(t & -> & Hs & Hp)]; [done|]. destruct i as [|i]; simpl; [|done].
    destruct t; [|done]. intros [= <- <-]. by left.
  - destruct Hs as [[-> Hs]|(t & -> & Hs & Hp)]; [done|]. destruct i as [|i]; simpl; [|done].
    destruct t as [prev|]; [|done]. intros [= <- <-]. left. split; [done|]. simpl. by apply (Hp prev).
  - unfold self_shutdown_begin. destruct Hs as [[-> Hs]|(t & -> & Hs & Hp)]; [|rewrite Hs; intros [= <- <-]; right; by exists t].
    destruct (nx_state n) eqn:E; try done; intros [= <- <-];
      try (right; eexists; split; [reflexivity|]; split; [done|]; by intros prev [=]). left. by rewrite E.
  - destruct Hs as [[-> Hs]|(t & -> & Hs & Hp)]; [done|]. destruct i as [|i]; simpl; [|done].
    destruct t; [done|]. intros [= <- <-]. by left.
  - unfold set_reset_state. intros [= <- <-]. destruct Hs as [[-> Hs]|(t & -> & Hs & Hp)].
    + left. split; [done|]. by destruct (nx_state n) eqn:E; simpl; rewrite ?E.
    + right. exists t. by rewrite Hs.
  - unfold set_open_state. intros [= <- <-]. destruct Hs as [[-> Hs]|(t & -> & Hs & Hp)].
    + left. split; [done|]. by destruct (nx_state n) eqn:E; simpl; rewrite ?E.
    + right. exists t. by rewrite Hs.
Qed.

Lemma exec_final ev n n' ts' :
  nx_state n = NxShutdown → exec_step env src_of ev n [] = Some (n', ts') → nx_state n' = NxShutdown ∧ ts' = [].
Proof.
  intros Hs. destruct ev; simpl; unfold shutdown_begin, self_shutdown_begin, set_reset_state, set_open_state;
    rewrite ?Hs; try done; by intros [= <- <-].
Qed.

(** In every interleaving of shutdown requests, shutdowns from the I/O path, their
    completions and resets, at most one shutdown is in progress, and it is exactly
    when the nexus says so; once shut down, the nexus stays so. *)
Theorem one_shutdown_at_a_time evs n n' ts' :
  nx_state n ≠ NxShuttingDown → run_steps env src_of evs n [] = Some (n', ts') →
  (length ts' ≤ 1)%nat ∧ (ts' = [] ↔ nx_state n' ≠ NxShuttingDown) ∧
  (nx_state n = NxShutdown → nx_state n' = NxShutdown).
Proof.
  intros Hn Hrun. assert (Hs : settled n' ts').
  { assert (H0 : settled n []) by by left. revert H0 Hrun. generalize (@nil task) as ts. clear Hn.
    revert n. induction evs as [|ev evs IH]; intros n ts Hs; simpl; [by intros [= <- <-]|].
    destruct (exec_step env src_of ev n ts) as [[n1 ts1]|] eqn:E; [|done]. simpl. apply IH. by eapply exec_settled. }
  split; [|split].
  - destruct Hs as [[-> _]|(t & -> & _)]; simpl; lia.
  - destruct Hs as [[-> H]|(t & -> & H & _)]; [done|]. by rewrite H.
  - intros Hsd. clear Hn Hs. revert n Hsd Hrun. induction evs as [|ev evs IH]; intros n Hsd; simpl; [by intros [= <- <-]|].
    destruct (exec_step env src_of ev n []) as [[n1 ts1]|] eqn:E; [|done]. simpl.
    destruct (exec_final _ _ _ _ Hsd E) as [? ->]. by apply IH.
Qed.

End Shutdown.

(** ** Retirement *)

Lemma remove_first_gone dev l :
  NoDup l → dev ∉ default l (Nx.remove_first dev l) ∧ ∀ d, d ≠ dev → d ∈ default l (Nx.remove_first dev l) ↔ d ∈ l.
Proof.
  induction l as [|x l IH]; simpl; intros Hd; [split; [apply not_elem_of_nil|done]|].
  apply NoDup_cons in Hd as [Hx Hd]. destruct (IH Hd) as [H1 H2]. case_bool_decide as E; simpl.
  - subst. split; [done|]. intros d Hne. rewrite elem_of_cons. naive_solver.
  - destruct (Nx.remove_first dev l); simpl in *; (split; [rewrite elem_of_cons; naive_solver|]);
      intros d Hne; rewrite !elem_of_cons; specialize (H2 d Hne); naive_solver.
Qed.

Lemma detach_gone dev (w : Nx.World L) :
  NoDup (Nx.writers w) → NoDup (Nx.readers w) →
  let w' := Nx.detach_device dev w in
  dev ∉ Nx.writers w' ∧ dev ∉ Nx.readers w' ∧
  (∀ d, d ≠ dev → (d ∈ Nx.writers w' ↔ d ∈ Nx.writers w) ∧ (d ∈ Nx.readers w' ↔ d ∈ Nx.readers w)) ∧
  Nx.children w' = Nx.children w.
Proof.
  intros Hw Hr. destruct (remove_first_gone dev _ Hw) as [W1 W2]. destruct (remove_first_gone dev _ Hr) as [R1 R2].
  unfold Nx.detach_device. simpl.
  destruct (Nx.remove_first dev (Nx.readers w)), (Nx.remove_first dev (Nx.writers w)); simpl in *;
    (split; [done|]); (split; [done|]); (split; [|done]); intros d Hd; (split; [by apply W2|by apply R2]).
Qed.

Lemma close_run_spec c dev r :
  quiet c → device c = Some dev → state c = Child.Faulted r →
  ∃ c' o, close_child_run env c = (c', o) ∧
    match device_destroy env (name c) with
    | Ok _ => o = Ok tt ∧ device c' = None ∧ device_descriptor c' = false ∧ state c' = Child.Faulted r ∧ io_log c' = io_log c
    | Err e => o = Err e ∧ c' = c
    | Panicked => o = Panicked
    end.
Proof.
  destruct c as [pa st sy de fa rc nm dv dd il]; intros (Hd & Hr & _) Hdev Hst; simpl in *; subst.
  unfold close_child_run. simpl. unfold close_destroyed. simpl. destruct (device_destroy env nm); do 2 eexists; by split_and!.
Qed.

Lemma detach_io_device dev n : has_io_device n = true → detach_device dev n = set_world (Nx.detach_device dev (world n)) n.
Proof. unfold detach_device. by intros ->. Qed.

Lemma remove_first_nodup dev l : NoDup l → NoDup (default l (Nx.remove_first dev l)).
Proof.
  induction l as [|x l IH]; simpl; intros Hd; [done|]. pose proof Hd as [Hx Hd']%NoDup_cons. specialize (IH Hd').
  destruct (remove_first_gone dev l Hd') as [H1 H2]. case_bool_decide as E; simpl; [done|].
  destruct (Nx.remove_first dev l); simpl in *; [|done]. apply NoDup_cons. split; [|done].
  intros Hin. by apply (H2 x E) in Hin.
Qed.

Lemma detach_nodup dev (w : Nx.World L) :
  NoDup (Nx.writers w) → NoDup (Nx.readers w) →
  NoDup (Nx.writers (Nx.detach_device dev w)) ∧ NoDup (Nx.readers (Nx.detach_device dev w)).
Proof.
  intros Hw%(remove_first_nodup dev) Hr%(remove_first_nodup dev). unfold Nx.detach_device. simpl.
  by destruct (Nx.remove_first dev (Nx.readers w)), (Nx.remove_first dev (Nx.writers w)).
Qed.

(** The devices of a list are detached and dropped one after the other. *)
Definition detach_all (devs : list string) n : Nexus :=
  foldl (λ n dev, disconnect_detached (λ _, true) (detach_device dev n)) n devs.

Lemma detach_all_gone devs n :
  has_io_device n = true → NoDup (Nx.writers (world n)) → NoDup (Nx.readers (world n)) →
  let n' := detach_all devs n in
  (∀ d, d ∈ Nx.writers (world n') → d ∈ Nx.writers (world n) ∧ d ∉ devs) ∧
  (∀ d, d ∈ Nx.readers (world n') → d ∈ Nx.readers (world n) ∧ d ∉ devs).
Proof.
  revert n. induction devs as [|dev devs IH]; intros n Hio Hw Hr; simpl; [split; intros d Hd; split; try done; apply not_elem_of_nil|].
  destruct (detach_gone dev (world n) Hw Hr) as (D1 & D2 & D3 & _). destruct (detach_nodup dev (world n) Hw Hr) as [Hw' Hr'].
  rewrite (detach_io_device dev n Hio).
  destruct (IH (disconnect_detached (λ _, true) (set_world (Nx.detach_device dev (world n)) n))) as [I1 I2]; [done..|].
  assert (Hne : ∀ d, d ∈ Nx.writers (Nx.detach_device dev (world n)) → d ≠ dev) by (intros d Hd ->; done).
  assert (Hne' : ∀ d, d ∈ Nx.readers (Nx.detach_device dev (world n)) → d ≠ dev) by (intros d Hd ->; done).
  split; intros d Hd; [apply I1 in Hd as [Hd ?]; pose proof (Hne d Hd)|apply I2 in Hd as [Hd ?]; pose proof (Hne' d Hd)];
    (split; [by apply (D3 d)|by apply not_elem_of_cons]).
Qed.

Lemma detach_all_name devs n : nx_name (detach_all devs n) = nx_name n.
Proof.
  revert n. induction devs as [|dev devs IH]; intros n; [done|]. simpl. rewrite IH. unfold detach_device. by destruct (has_io_device n).
Qed.

Lemma abort_keeps ids (w : Nx.World L) :
  Nx.writers (fst (Nx.abort_list ids w)) = Nx.writers w ∧ Nx.readers (fst (Nx.abort_list ids w)) = Nx.readers w ∧
  Nx.children (fst (Nx.abort_list ids w)) = Nx.children w ∧ Nx.frozen_ios (fst (Nx.abort_list ids w)) = Nx.frozen_ios w.
Proof.
  revert w. induction ids as [|id ids IH]; intros w; [done|]. cbn [Nx.abort_list]. unfold mbind, ST_bind.
  assert (Hf : Nx.writers (fst (Nx.fail id w)) = Nx.writers w ∧ Nx.readers (fst (Nx.fail id w)) = Nx.readers w ∧
    Nx.children (fst (Nx.fail id w)) = Nx.children w ∧ Nx.frozen_ios (fst (Nx.fail id w)) = Nx.frozen_ios w)
    by by (unfold Nx.fail; repeat case_match).
  destruct (Nx.fail id w) as [w1 [u|e|]]; simpl in Hf; [|done..]. destruct (IH w1) as (-> & -> & -> & ->). done.
Qed.

Lemma cancel_all_channel (src_of : string → string) gone n :
  Nx.writers (world (cancel_all src_of gone n)) = Nx.writers (world n) ∧
  Nx.readers (world (cancel_all src_of gone n)) = Nx.readers (world n) ∧
  Nx.frozen_ios (world (cancel_all src_of gone n)) = Nx.frozen_ios (world n).
Proof.
  unfold cancel_all. simpl. generalize (name <$> children n) as l. generalize (world n) as w.
  intros w l. revert w. induction l as [|u l IH]; intros w; [done|]. simpl. by rewrite !(proj1 (IH _)), !(proj1 (proj2 (IH _))), !(proj2 (proj2 (IH _))).
Qed.

(** The shutdown that a store error causes. *)
Lemma self_shutdown_cuts (src_of : string → string) gone q n c dev :
  has_io_device n = true → NoDup (Nx.writers (world n)) → NoDup (Nx.readers (world n)) →
  c ∈ children n → get_device_name c = Some dev →
  let '(n', q') := self_shutdown_end env src_of gone n q in
  nx_state n' = NxShutdown ∧ dev ∉ Nx.writers (world n') ∧ dev ∉ Nx.readers (world n') ∧ Nx.frozen_ios (world n') = [] ∧
  (nx_name n, dev) ∈ q'.
Proof.
  intros Hio Hw Hr Hc Hd. unfold self_shutdown_end. fold (detach_all (omap get_device_name (children n)) n).
  assert (Hin : dev ∈ omap get_device_name (children n)) by (apply list_elem_of_omap; by exists c).
  destruct (detach_all_gone (omap get_device_name (children n)) n Hio Hw Hr) as [D1 D2].
  pose proof (detach_all_name (omap get_device_name (children n)) n) as Hn.
  set (n1 := detach_all _ n) in *. clearbody n1.
  set (n2 := set_world (fst (Nx.abort_frozen (world n1))) n1).
  destruct (abort_keeps (Nx.frozen_ios (world n1)) (Nx.set_frozen [] (world n1))) as (A1 & A2 & A3 & A4).
  destruct (cancel_all_channel src_of gone n2) as (C1 & C2 & C3).
  assert (HW : Nx.writers (world n2) = Nx.writers (world n1)) by exact A1.
  assert (HR : Nx.readers (world n2) = Nx.readers (world n1)) by exact A2.
  assert (HF : Nx.frozen_ios (world n2) = []) by exact A4.
  rewrite <- C1 in HW. rewrite <- C2 in HR. rewrite <- C3 in HF. set (n3 := cancel_all src_of gone n2) in *. clearbody n3.
  change (nx_state (set_nx_state NxShutdown (close_children env n3)) = NxShutdown ∧
    dev ∉ Nx.writers (world n3) ∧ dev ∉ Nx.readers (world n3) ∧ Nx.frozen_ios (world n3) = [] ∧
    (nx_name n, dev) ∈ q ++ ((λ d, (nx_name n1, d)) <$> omap get_device_name (children n))).
  rewrite HW, HR, HF. split; [done|]. split; [intros H; by apply D1 in H as [_ ?]|].
  split; [intros H; by apply D2 in H as [_ ?]|]. split; [done|]. apply elem_of_app. right. rewrite Hn.
  by apply (list_elem_of_fmap_2 (λ d, (nx_name n, d))).
Qed.

(** C9. The retirement of a faulted child's device.  If the store cannot be
    updated nothing is detached; the nexus is told to shut itself down instead, and
    that shutdown, unless one is under way, detaches the device, aborts the frozen
    I/Os, queues the device and ends in [Shutdown].  Otherwise no channel reads from
    or writes to the device any more and every other device stays connected,
    whether or not I/O can be paused then; if it cannot, the error is returned and
    nothing is queued.  If it can, the rebuild job of the child, if there is one, is
    told to fail and the device is queued, whether or not I/O can be resumed; the
    device monitor then closes the child, which keeps its fault and its I/O log and
    has lost its device and descriptor.  If the device cannot be destroyed the child
    stays as it is: the error is only logged. *)
Theorem retired_device_is_gone n dev i c bd r failed fx :
  has_io_device n = true → NoDup (Nx.writers (world n)) → NoDup (Nx.readers (world n)) →
  Nx.lookup_child_by_device (world n) dev = Some (i, c) →
  quiet c → device c = Some bd → state c = Child.Faulted r →
  (∀ e paused resumed,
     do_child_retire (Err e) failed paused resumed dev (n, fx) = ((request_shutdown n, fx), Ok tt)) ∧
  (nx_state n ≠ NxShuttingDown → nx_state n ≠ NxShutdown → ∀ src_of gone q, ∃ n1,
     self_shutdown_begin (request_shutdown n) = (n1, true) ∧
     let '(n2, q2) := self_shutdown_end env src_of gone n1 q in
     nx_state n2 = NxShutdown ∧ dev ∉ Nx.writers (world n2) ∧ dev ∉ Nx.readers (world n2) ∧
     Nx.frozen_ios (world n2) = [] ∧ (nx_name n, dev) ∈ q2) ∧
  ∃ n',
    dev ∉ Nx.writers (world n') ∧ dev ∉ Nx.readers (world n') ∧ Nx.detached (world n') = [] ∧
    (∀ d, d ≠ dev → (d ∈ Nx.writers (world n') ↔ d ∈ Nx.writers (world n)) ∧
                    (d ∈ Nx.readers (world n') ↔ d ∈ Nx.readers (world n))) ∧
    (∀ e resumed, do_child_retire (Ok tt) failed (Err e) resumed dev (n, fx) = ((n', fx), Err e)) ∧
    (∀ resumed, do_child_retire (Ok tt) failed (Ok tt) resumed dev (n, fx) =
       ((n', mkEffects (queue fx ++ [(nx_name n, dev)]) (failing fx ++ (if Nx.has_job (world n) c then [name c] else []))),
        resumed)) ∧
    ∃ n'' c', monitor_step env [n'] [(nx_name n, dev)] = ([n''], []) ∧ children n'' = <[i := c']> (children n) ∧
      match device_destroy env (name c) with
      | Ok _ => device c' = None ∧ device_descriptor c' = false ∧ state c' = Child.Faulted r ∧ io_log c' = io_log c
      | Err _ => c' = c
      | Panicked => True
      end.
Proof.
  intros Hio Hw Hr Hl Hq Hd Hst.
  assert (Hdn : c ∈ children n ∧ get_device_name c = Some dev).
  { destruct (NxFacts.lookup_child_spec _ _ _ _ Hl) as [Hi Hx]. split; [by eapply list_elem_of_lookup_2|done]. }
  split; [intros e paused resumed; unfold do_child_retire, child_retire_persist; by rewrite Hl|].
  split.
  { intros Hs1 Hs2 src_of gone q. exists (set_nx_state NxShuttingDown (request_shutdown n)).
    split; [unfold self_shutdown_begin; simpl; by destruct (nx_state n)|].
    exact (self_shutdown_cuts src_of gone q (set_nx_state NxShuttingDown (request_shutdown n)) c dev
      Hio Hw Hr (proj1 Hdn) (proj2 Hdn)). }
  destruct (detach_gone dev (world n) Hw Hr) as (D1 & D2 & D3 & D4).
  destruct (close_run_spec c bd r Hq Hd Hst) as (c' & o & Hc & Hprops).
  set (n' := disconnect_detached (λ _, true) (disconnect_detached failed (detach_device dev n))).
  assert (Hch : Nx.children (world n') = children n ∧ nx_name n' = nx_name n ∧ Nx.rebuild_jobs (world n') = Nx.rebuild_jobs (world n) ∧
    Nx.writers (world n') = Nx.writers (Nx.detach_device dev (world n)) ∧ Nx.readers (world n') = Nx.readers (Nx.detach_device dev (world n))).
  { unfold n'. rewrite (detach_io_device dev n Hio). simpl. unfold Nx.detach_device. simpl.
    by destruct (Nx.remove_first dev (Nx.readers (world n))), (Nx.remove_first dev (Nx.writers (world n))). }
  destruct Hch as (Hch & Hnm & Hjobs & HW & HR).
  assert (Hl' : Nx.lookup_child_by_device (world n') dev = Some (i, c)) by (unfold Nx.lookup_child_by_device in *; by rewrite Hch).
  exists n'. rewrite HW, HR. split; [done|]. split; [done|].
  split; [apply elem_of_nil_inv; by intros x [Hx _]%list_elem_of_filter|]. split; [done|].
  split; [intros e resumed; unfold do_child_retire, child_retire_persist; by rewrite Hl|].
  split.
  { intros resumed. unfold do_child_retire, child_retire_persist. rewrite Hl. fold n'. unfold child_retire_destroy_device.
    rewrite Hl', Hnm. unfold Nx.has_job. by rewrite Hjobs. }
  exists (log_destroyed (option_list (to_destroy c)) (set_children (<[i := c']> (children n')) n')), c'.
  split; [|split; [exact (f_equal (insert i c') Hch)|]].
  - unfold monitor_step. simpl. rewrite decide_True by done. simpl. unfold close_child. by rewrite Hl', Hc.
  - destruct (device_destroy env (name c)); [|by destruct Hprops|done]. by destruct Hprops as (_ & ?).
Qed.

(** ** Adding a child *)

Lemma min_num_blocks_spec (w : Nx.World L) k :
  min_num_blocks w = Ok (Some k) →
  ∃ c d, c ∈ Nx.children w ∧ is_healthy c = true ∧ device c = Some d ∧ bd_num_blocks d = k.
Proof.
  unfold min_num_blocks. set (cs := filter _ _).
  assert (Hin : ∀ c, c ∈ cs → c ∈ Nx.children w ∧ is_healthy c = true) by (intros c [??]%list_elem_of_filter; done).
  assert (H : ∀ cs0 (acc : outcome Error (option Z)), (∀ c, c ∈ cs0 → c ∈ cs) →
    (∀ k, acc = Ok (Some k) → ∃ c d, c ∈ cs ∧ device c = Some d ∧ bd_num_blocks d = k) →
    foldl (λ acc c, acc ← acc; d ← of_option (device c);
      Ok (Some (match acc with None => bd_num_blocks d | Some n => Z.min n (bd_num_blocks d) end))) acc cs0
      = Ok (Some k) → ∃ c d, c ∈ cs ∧ device c = Some d ∧ bd_num_blocks d = k).
  { intros cs0. induction cs0 as [|c cs0 IH]; intros acc Hsub Hacc; simpl; [apply Hacc|].
    apply IH; [intros c' Hc'; apply Hsub; by right|]. intros k'.
    destruct acc as [[k0|]| |]; simpl; [| |done|done]; (destruct (device c) as [d|] eqn:Ed; simpl; [|done]); intros [= <-].
    - destruct (Z.min_spec k0 (bd_num_blocks d)) as [[_ ->]|[_ ->]]; [by apply Hacc|]. exists c, d. split; [apply Hsub; left|done].
    - exists c, d. split; [apply Hsub; left|done]. }
  intros Hk. destruct (H cs (Ok None) ltac:(done) ltac:(done) Hk) as (c & d & Hc & ?). destruct (Hin c Hc). by exists c, d.
Qed.

Lemma open_new_child_spec n uri dev c :
  open_new_child env n uri dev = Ok c → name c = uri ∧ device c = Some dev ∧ is_opened_unsync c = true.
Proof.
  unfold open_new_child. intros H.
  assert (Hnew : ∀ c0, @new L Error (store_enabled env) (uuid_of env) uri (nx_name n) (Some dev) = Ok c0 →
    c0 = mkChild (nx_name n) Child.Init Synced DestroyNone None [] uri (Some dev) false None).
  { unfold new. intros c0. destruct (store_enabled env); [|by intros [= <-]].
    destruct (uuid_of env uri) as [[u|]|]; simpl; by intros [=]. }
  destruct (new _ _ _ _ _) as [c0|e|]; [|done|done]. rewrite (Hnew c0 eq_refl) in H. cbn [mbind outcome_bind] in H.
  unfold open in H. simpl in H. destruct (_ <? _); [done|]. destruct (device_open env uri); [|done|done].
  destruct (acquire env uri); simpl in H; by simplify_eq.
Qed.

Lemma added_removed n c uri :
  name c = uri → uri ∉ name <$> children n →
  children (set_children (filter (λ c, name c ≠ uri) (children (set_children (children n ++ [c]) n)))
    (request_shutdown (set_children (children n ++ [c]) n))) = children n.
Proof.
  intros Hc Hn. change (filter (λ c, name c ≠ uri) (children n ++ [c]) = children n).
  rewrite filter_app, filter_cons_False by (by intros ?). rewrite app_nil_r. revert Hn.
  induction (children n) as [|x cs IH]; [done|]. rewrite fmap_cons, not_elem_of_cons. intros [Hx Hn].
  by rewrite filter_cons_True, IH by done.
Qed.

Lemma added_configured n nm c dev :
  configured n → check_new_child env n nm = Ok dev → device c = Some dev → configured (set_children (children n ++ [c]) n).
Proof.
  intros (C1 & C2 & C3 & C4) Hck Hd. split; [done|]. split; [done|].
  change (children (set_children (children n ++ [c]) n)) with (children n ++ [c]).
  split; [by destruct (children n)|]. apply Forall_app. split; [done|]. constructor; [|constructor].
  unfold check_new_child in Hck. destruct (0 <? num_blocks n), (0 <? block_len n); try done. simpl in Hck.
  destruct (device_lookup env nm) as [d|]; [|done]. destruct (Z.eqb_spec (bd_block_len d) (block_len n)) as [Eb|]; [|done].
  simpl in Hck. destruct (min_num_blocks (world n)) as [[k|]| |] eqn:Em; [|done|done|done]. simpl in Hck.
  destruct (Z.ltb_spec (bd_num_blocks d) k) as [|Hk]; [done|].
  destruct (Nx.lookup_child_by_device (world n) nm); [done|]. simplify_eq.
  apply min_num_blocks_spec in Em as (c0 & d0 & Hin & _ & Hd0 & <-). rewrite Forall_forall in C4.
  destruct (C4 c0 Hin) as (d0' & Hd0' & Hb & Ho & He & Hv). simplify_eq. exists dev. simpl.
  split_and!; try done; lia.
Qed.

Lemma added_not_online n c :
  is_opened_unsync c = true → status NxOpen (world (set_children (children n ++ [c]) n)) ≠ Online.
Proof.
  intros Hu. unfold status. change (Nx.children (world (set_children (children n ++ [c]) n))) with (children n ++ [c]).
  rewrite forallb_app. simpl. assert (is_healthy c = false) as ->.
  { unfold is_opened_unsync, is_healthy in *. apply andb_true_iff in Hu as [_ Hu]. apply bool_decide_eq_true in Hu.
    rewrite Hu. by rewrite andb_false_r. }
  rewrite andb_false_r. by case_match.
Qed.

(** A child that was added is the last of the list, open but out of sync; the other
    children and the channel are as before, the nexus does not claim to be online,
    and it lies inside the new child's data partition too.  When adding fails the
    children are those there were. *)
Theorem added_child_is_out_of_sync n n' pause uri r :
  configured n → uri ∉ name <$> children n → nx_state n = NxOpen →
  add_child_only env pause uri n = (n', r) →
  match r with
  | Ok st => ∃ c, n' = set_children (children n ++ [c]) n ∧ name c = uri ∧ is_opened_unsync c = true ∧
      configured n' ∧ st ≠ Online
  | Err _ => children n' = children n
  | Panicked => True
  end.
Proof.
  intros Hcf Huri Hst. unfold add_child_only. destruct (check_nexus_operation _ _); [|by intros [= <- <-]|by intros [= <- <-]].
  cbn [mbind outcome_bind]. destruct (device_create env uri) as [nm|e|]; [|by intros [= <- <-]|by intros [= <- <-]].
  cbn [map_err mbind outcome_bind].
  destruct (check_new_child env n nm) as [dev|e|] eqn:Ech; [|destruct e; by intros [= <- <-]|by intros [= <- <-]].
  destruct (open_new_child env n uri dev) as [c|e|] eqn:Eop; [|by intros [= <- <-]|by intros [= <- <-]].
  assert (Hc : name c = uri ∧ device c = Some dev ∧ is_opened_unsync c = true) by by eapply open_new_child_spec.
  destruct Hc as (Hn & Hd & Hu).
  destruct (persisted env); intros [= <- <-]; [|by apply added_removed|done].
  exists c. split; [done|]. split; [done|]. split; [done|]. split; [by eapply added_configured|].
  change (nx_state (set_children (children n ++ [c]) n)) with (nx_state n). rewrite Hst. simpl.
  by apply added_not_online.
Qed.

End LifecycleProps.

(** ** A sample *)

Module Sample.
(** A log that records nothing. *)
Definition log_ops : IoLogOps unit := {| il_new _ _ _ := Ok tt; il_log l _ _ _ _ := Ok l |}.
#[export] Existing Instance log_ops.

Definition dev (nm : string) : BlockDevice := mkBlockDevice nm "nvme" (32768 * 512) 32768 512.

Definition env : Env := {|
  device_create uri := Ok uri;
  device_lookup nm := Some (dev nm);
  device_open _ := Ok tt;
  device_destroy _ := Ok tt;
  device_alignment _ := 512;
  acquire _ := Ok tt;
  register_bdev := None;
  persisted := Ok tt;
  notify := None;
  alignment_of k := 2^k;
  store_enabled := false;
  uuid_of _ := None;
  now := 0;
|}.

Definition empty : Lifecycle.Nexus (L := unit) := nexus_new "nexus" "uuid" (4 * 1024 * 1024) false Maya.V1.
Definition with_children := fst (new_children env ["a"; "b"]%string empty).
Definition created := fst (create_nexus env ["a"; "b"]%string empty).


Definition the_child (nm : string) : NexusChild unit :=
  mkChild "nexus" Open Synced DestroyNone None [] nm (Some (dev nm)) true None.

Lemma created_children : children created = [the_child "a"; the_child "b"].
Proof. by vm_compute. Qed.

Lemma sane_children : sane_devices (children created) ∧ bounded_devices (children created).
Proof.
  assert (Hs : Maya.sane 32768 512) by (unfold Maya.sane; vm_compute; intuition discriminate).
  rewrite created_children. split; repeat apply Forall_cons_2; try apply Forall_nil_2; by intros d [= <-].
Qed.

Lemma sane_with_children : sane_devices (children with_children) ∧ bounded_devices (children with_children).
Proof.
  assert (Hs : Maya.sane 32768 512) by (unfold Maya.sane; vm_compute; intuition discriminate).
  assert (E : children with_children =
    (λ nm, mkChild "nexus" Child.Init Synced DestroyNone None [] nm (Some (dev nm)) false None) <$> ["a"; "b"]%string) by by vm_compute.
  rewrite E. split; repeat apply Forall_cons_2; try apply Forall_nil_2; by intros d [= <-].
Qed.

Lemma created_configured : configured created.
Proof.
  assert (Hi : ∀ nm, inside Maya.V1 10240 8192 512 (the_child nm)).
  { intros nm. exists (dev nm). split; [done|]. split; [done|]. split; [by vm_compute|]. split; vm_compute; discriminate. }
  unfold configured. rewrite created_children.
  change (block_len created) with 512. change (num_blocks created) with 8192. change (data_ent_offset created) with 10240.
  split; [lia|]. split; [lia|]. split; [done|]. by repeat apply Forall_cons_2; try apply Forall_nil_2.
Qed.

Lemma quiet_sample : Forall quiet (children created).
Proof.
  rewrite created_children. repeat apply Forall_cons_2; try apply Forall_nil_2; split_and!; try done; by eexists.
Qed.
End Sample.
Import Sample.

Lemma nexus_fits_every_child_witness :
  0 < num_blocks created ∧ ∀ c, c ∈ children (fst (setup_nexus_bdev env false with_children)) → is_Some (device c).
Proof.
  destruct (nexus_fits_every_child env with_children (fst (setup_nexus_bdev env false with_children))) as [H1 H2];
    [by vm_compute|done|apply Sample.sane_with_children|apply Sample.sane_with_children|by vm_compute|].
  split; [exact H1|]. intros c Hc. destruct (H2 c Hc) as (d & Hd & _). by exists d.
Defined.

Lemma resize_grows_or_keeps_witness :
  num_blocks created < num_blocks (fst (resize env None (8 * 1024 * 1024) created)).
Proof.
  apply (resize_grows_or_keeps env created (fst (resize env None (8 * 1024 * 1024) created)) None (8 * 1024 * 1024) (Ok tt));
    [by vm_compute|exact Sample.created_configured|apply Sample.sane_children|apply Sample.sane_children|by vm_compute|by vm_compute].
Defined.


Lemma shutdown_outcome_witness :
  nx_state (fst (shutdown env (λ d, d) (Ok tt) (λ _, true) created)) = NxShutdown.
Proof.
  apply (shutdown_outcome env (λ d, d) (λ _, eq_refl) (Ok tt) (λ _, true) created
    (fst (shutdown env (λ d, d) (Ok tt) (λ _, true) created)) (Ok tt)); [exact Sample.quiet_sample|by vm_compute].
Defined.

Definition sample_steps : list step_event := [EvReset; EvShutdown; EvSelf; EvShutdown; EvOpened].
Definition after_steps := default (created, []) (run_steps env (λ d, d) sample_steps created []).

Lemma one_shutdown_at_a_time_witness : (length (snd after_steps) ≤ 1)%nat.
Proof.
  apply (one_shutdown_at_a_time env (λ d, d) sample_steps created (fst after_steps) (snd after_steps)); by vm_compute.
Defined.

Lemma added_child_is_out_of_sync_witness :
  ∃ c, children (fst (add_child_only env None "c" created)) = children created ++ [c] ∧ is_opened_unsync c = true.
Proof.
  destruct (added_child_is_out_of_sync env created (fst (add_child_only env None "c" created)) None "c" (Ok Degraded))
    as (c & Hc & _ & Hu & _); [exact Sample.created_configured|apply (bool_decide_unpack _); by vm_compute|done|by vm_compute|].
  exists c. split; [by rewrite Hc|done].
Defined.

(** The nexus with its channel connected, after child a was faulted. *)
Definition faulted : Lifecycle.Nexus (L := unit) :=
  let n := set_world (Nx.reconnect_all 0 (λ _, true) (world created)) created in
  set_world (fst (Nx.retire_child_device true 0 "a" IoError false (world n))) n.
Definition child_a : NexusChild unit := default (mkChild "" Child.Init Synced DestroyNone None [] "" None false None) (children faulted !! 0%nat).

Lemma retired_device_is_gone_witness :
  ∃ n' n'', fst (do_child_retire (Ok tt) (λ _, false) (Ok tt) (Ok tt) "a" (faulted, mkEffects [] [])) =
      (n', mkEffects [("nexus", "a")]%string []) ∧ "a"%string ∉ Nx.writers (world n') ∧
    monitor_step env [n'] [("nexus", "a")]%string = ([n''], []).
Proof.
  destruct (retired_device_is_gone env faulted "a" 0 child_a (dev "a") IoError (λ _, false) (mkEffects [] []))
    as (_ & _ & n' & H1 & _ & _ & _ & _ & H2 & n'' & c' & H3 & _);
    [done|apply (bool_decide_unpack _); by vm_compute|apply (bool_decide_unpack _); by vm_compute|by vm_compute| |by vm_compute|by vm_compute|].
  - split; [done|]. split; [done|]. intros _. by exists (dev "a").
  - exists n', n''. split; [|split; [exact H1|exact H3]]. rewrite H2. by vm_compute.
Defined.

(** A growth by a single block is refused: the comparison is with one block past
    the current end. *)
Lemma growth_by_one_block_is_refused :
  snd (resize env None (4 * 1024 * 1024 + 512) created) = Err (ChildTooSmall "a" 32768 512 8193).
Proof. by vm_compute. Qed.

End LifecycleProps.
