(* ===== verification/Nvmx.v ===== *)
(** * NVMe controllers

    The NVMe-oF initiator of the engine: [bdev/nvmx/controller_state.rs],
    [channel.rs], [controller_inner.rs], [controller.rs], [mod.rs], [device.rs]
    and the creation of a controller in [uri.rs].  The controllers live in an
    arena of reference counted cells; the I/O channels of a device are visited
    one by one by the traversals in progress, so that a reset and a shutdown of
    the same controller interleave as they do on the reactors.  What SPDK
    answers is an argument of the operation that asks. *)

From stdpp Require Import pretty.
From S2P Require Import Prelude Errors IoLog DeviceEvents.
#[local] Open Scope Z_scope.

(** ** State machine: [controller_state.rs] *)
Module CtrlState.

Inductive ControllerFailureReason := Reset | Shutdown | NamespaceInit.

Inductive NvmeControllerState :=
| New | Initializing | Running | Faulted (r : ControllerFailureReason) | Unconfiguring | Unconfigured.

#[global] Instance ControllerFailureReason_eq_dec : EqDecision ControllerFailureReason.
Proof. solve_decision. Defined.
#[global] Instance NvmeControllerState_eq_dec : EqDecision NvmeControllerState.
Proof. solve_decision. Defined.

Inductive ControllerFlag := ResetActive.

Record ControllerStateMachine := mkSm { current_state : NvmeControllerState; flag : bool }.

Inductive ControllerStateMachineError :=
| ControllerStateTransitionError (current_state new_state : NvmeControllerState)
| ControllerFlagUpdateError (f : ControllerFlag) (current_value new_value : bool).

Definition check_transition (from to : NvmeControllerState) : bool :=
  match from, to with
  | New, Initializing => true
  | Initializing, (Running | Faulted _) => true
  | Running, (Unconfiguring | Faulted _) => true
  | Unconfiguring, (Unconfigured | Faulted _) => true
  | Faulted _, (Running | Unconfiguring | Faulted _) => true
  | _, _ => false
  end.

Definition sm_new : ControllerStateMachine := mkSm New false.

Definition transition (to : NvmeControllerState) : ST ControllerStateMachine ControllerStateMachineError unit :=
  λ m, if check_transition (current_state m) to then (mkSm to (flag m), Ok tt)
       else (m, Err (ControllerStateTransitionError (current_state m) to)).

(** The error names the state that was asked for, not the one found. *)
Definition transition_checked (cur to : NvmeControllerState) : ST ControllerStateMachine ControllerStateMachineError unit :=
  λ m, if bool_decide (current_state m = cur) then transition to m
       else (m, Err (ControllerStateTransitionError cur to)).

Definition set_flag_exclusively (f : ControllerFlag) : ST ControllerStateMachine ControllerStateMachineError unit :=
  λ m, if flag m then (m, Err (ControllerFlagUpdateError f true true))
       else (mkSm (current_state m) true, Ok tt).

Definition clear_flag_exclusively (f : ControllerFlag) : ST ControllerStateMachine ControllerStateMachineError unit :=
  λ m, if flag m then (mkSm (current_state m) false, Ok tt)
       else (m, Err (ControllerFlagUpdateError f false false)).

End CtrlState.

(** ** I/O channels: [channel.rs] *)
Module Channel.

(** The counters of [BlockDeviceIoStats] that an NVMe channel keeps. *)
Record IoStats := mkStats {
  num_read_ops : Z; num_write_ops : Z; num_unmap_ops : Z;
  bytes_read : Z; bytes_written : Z; bytes_unmapped : Z;
}.

Definition stats_default : IoStats := mkStats 0 0 0 0 0 0.

(** [merge::num::saturating_add] on each counter. *)
Definition sat_add (a b : Z) : Z := Z.min (a + b) u64_max.
Definition merge (a b : IoStats) : IoStats :=
  mkStats (sat_add (num_read_ops a) (num_read_ops b)) (sat_add (num_write_ops a) (num_write_ops b))
    (sat_add (num_unmap_ops a) (num_unmap_ops b)) (sat_add (bytes_read a) (bytes_read b))
    (sat_add (bytes_written a) (bytes_written b)) (sat_add (bytes_unmapped a) (bytes_unmapped b)).

(** The byte counters of the controller count blocks. *)
Record IoStatsController := mkStatsController { io_stats : IoStats; block_size : Z }.

Definition stats_new (bs : Z) : IoStatsController := mkStatsController stats_default bs.

Definition account_block_io (op : IoType) (num_ops num_blocks : Z) (s : IoStatsController) : IoStatsController :=
  let a := io_stats s in
  mkStatsController
    (match op with
     | IoRead => mkStats (wrap64 (num_read_ops a + num_ops)) (num_write_ops a) (num_unmap_ops a)
                   (wrap64 (bytes_read a + num_blocks)) (bytes_written a) (bytes_unmapped a)
     | IoWrite => mkStats (num_read_ops a) (wrap64 (num_write_ops a + num_ops)) (num_unmap_ops a)
                    (bytes_read a) (wrap64 (bytes_written a + num_blocks)) (bytes_unmapped a)
     | IoUnmap => mkStats (num_read_ops a) (num_write_ops a) (wrap64 (num_unmap_ops a + num_ops))
                    (bytes_read a) (bytes_written a) (wrap64 (bytes_unmapped a + num_blocks))
     | _ => a
     end) (block_size s).

Definition get_io_stats (s : IoStatsController) : IoStats :=
  let a := io_stats s in
  mkStats (num_read_ops a) (num_write_ops a) (num_unmap_ops a) (wrap64 (bytes_read a * block_size s))
    (wrap64 (bytes_written a * block_size s)) (wrap64 (bytes_unmapped a * block_size s)).

(** [qpair.rs] *)
Inductive QPairState := Disconnected | Connecting | Connected | Dropped.

#[global] Instance QPairState_eq_dec : EqDecision QPairState.
Proof. solve_decision. Defined.

(** The answers of SPDK to the allocation of a qpair, its addition to the poll
    group and its connection. *)
Record QpairRc := mkRc { alloc_ok : bool; add_rc : Z; connect_rc : Z }.

(** [ctrl]: the cell of the controller the channel keeps alive. *)
Record NvmeIoChannelInner := mkInner {
  dev : Z;
  qpair : option QPairState;
  stats : IoStatsController;
  ctrl : option nat;
  num_pending_ios : Z;
  is_shutdown : bool;
}.

Definition set_qpair (q : option QPairState) (c : NvmeIoChannelInner) : NvmeIoChannelInner :=
  mkInner (dev c) q (stats c) (ctrl c) (num_pending_ios c) (is_shutdown c).
Definition set_stats (s : IoStatsController) (c : NvmeIoChannelInner) : NvmeIoChannelInner :=
  mkInner (dev c) (qpair c) s (ctrl c) (num_pending_ios c) (is_shutdown c).
Definition set_pending (n : Z) (c : NvmeIoChannelInner) : NvmeIoChannelInner :=
  mkInner (dev c) (qpair c) (stats c) (ctrl c) n (is_shutdown c).

Definition ENODEV_rc : Z := 19.
Definition ENOMEM_rc : Z := 12.

Definition reset (c : NvmeIoChannelInner) : NvmeIoChannelInner * Z := (set_qpair None c, 0).

Definition shutdown (c : NvmeIoChannelInner) : NvmeIoChannelInner * Z :=
  if is_shutdown c then (c, 0)
  else let '(c, rc) := reset c in
       if rc =? 0 then (mkInner (dev c) (qpair c) (stats c) None (num_pending_ios c) true, rc)
       else (c, rc).

Definition account_io (c : NvmeIoChannelInner) : NvmeIoChannelInner :=
  set_pending (wrap64 (num_pending_ios c + 1)) c.

Definition discard_io (c : NvmeIoChannelInner) : NvmeIoChannelInner :=
  if num_pending_ios c =? 0 then c else set_pending (num_pending_ios c - 1) c.

(** [QPair::connect] on a new qpair, which is disconnected. *)
Definition reinitialize (e : QpairRc) (c : NvmeIoChannelInner) : NvmeIoChannelInner * Z :=
  if is_shutdown c then (c, - ENODEV_rc)
  else
    let c := set_qpair None c in
    if negb (alloc_ok e) then (c, - ENOMEM_rc)
    else if negb (add_rc e =? 0) then (c, add_rc e)
    else if negb (connect_rc e =? 0) then (c, connect_rc e)
    else (set_qpair (Some Connected) c, 0).

(** [NvmeDeviceHandle::connect_sync] and [QPair::connect]. *)
Definition connect_sync {E} (rc : Z) (c : NvmeIoChannelInner) : outcome E NvmeIoChannelInner :=
  match qpair c with
  | Some Connected | None => Ok c
  | Some Disconnected => Ok (set_qpair (Some (if rc =? 0 then Connected else Disconnected)) c)
  | Some _ => Panicked
  end.

End Channel.

(** ** Timeouts: [controller_inner.rs]

    Instants and durations are in microseconds. *)
Module Timeout.

Inductive DeviceTimeoutAction := Abort | ResetDevice | Ignore | HotRemove.

#[global] Instance DeviceTimeoutAction_eq_dec : EqDecision DeviceTimeoutAction.
Proof. solve_decision. Defined.

(** [SPDK_BDEV_NVME_TIMEOUT_ACTION_{NONE,RESET,ABORT}] are 0, 1 and 2. *)
Definition try_from (action : Z) : option DeviceTimeoutAction :=
  if action =? 0 then Some Ignore
  else if action =? 1 then Some ResetDevice
  else if action =? 2 then Some Abort
  else if action =? 4 then Some HotRemove
  else None.

Definition MAX_RESET_ATTEMPTS : Z := 1.
Definition RESET_COOLDOWN_INTERVAL : Z := 3_000_000.

Record TimeoutConfig := mkTc {
  timeout_action : DeviceTimeoutAction;
  reset_in_progress : bool;
  reset_attempts : Z;
  next_reset_time : Z;
  destroy_in_progress : bool;
  report_failed_once : bool;
  adminq_broken_report : bool;
  adminq_broken_ts : option Z;
  adminq_tmo : Z;
}.

Definition tc_new (now timeout_admin_us : Z) : TimeoutConfig :=
  mkTc Ignore false MAX_RESET_ATTEMPTS now false true true None timeout_admin_us.

Definition set_timeout_action (a : DeviceTimeoutAction) (t : TimeoutConfig) : TimeoutConfig :=
  mkTc a (reset_in_progress t) (reset_attempts t) (next_reset_time t) (destroy_in_progress t)
    (report_failed_once t) (adminq_broken_report t) (adminq_broken_ts t) (adminq_tmo t).
Definition set_reset (in_progress : bool) (attempts next : Z) (t : TimeoutConfig) : TimeoutConfig :=
  mkTc (timeout_action t) in_progress attempts next (destroy_in_progress t)
    (report_failed_once t) (adminq_broken_report t) (adminq_broken_ts t) (adminq_tmo t).
Definition set_reports (destroy report broken : bool) (ts : option Z) (t : TimeoutConfig) : TimeoutConfig :=
  mkTc (timeout_action t) (reset_in_progress t) (reset_attempts t) (next_reset_time t) destroy
    report broken ts (adminq_tmo t).

(** [compare_exchange(false, true).is_ok()] *)
Definition start_device_destroy (t : TimeoutConfig) : TimeoutConfig * bool :=
  if destroy_in_progress t then (t, false)
  else (set_reports true (report_failed_once t) (adminq_broken_report t) (adminq_broken_ts t) t, true).

Definition report_failed (is_failed : bool) (t : TimeoutConfig) : TimeoutConfig * bool :=
  if negb is_failed then (t, false)
  else if report_failed_once t
  then (set_reports (destroy_in_progress t) false (adminq_broken_report t) (adminq_broken_ts t) t, true)
  else (t, false).

Definition ENXIO_rc : Z := 6.

Definition adminq_broken_tmo (now error : Z) (t : TimeoutConfig) : TimeoutConfig * bool :=
  if negb (error =? ENXIO_rc) then (t, false)
  else
    match adminq_broken_ts t with
    | None =>
        (set_reports (destroy_in_progress t) (report_failed_once t) (adminq_broken_report t) (Some now) t, false)
    | Some start_ts =>
        if now - start_ts <=? adminq_tmo t then (t, false)
        else if adminq_broken_report t
        then (set_reports (destroy_in_progress t) (report_failed_once t) false (adminq_broken_ts t) t, true)
        else (t, false)
    end.

(** [TimeoutConfig::reset_cb]: the assertion is that of the exclusive owner. *)
Definition reset_cb {E} (now : Z) (success : bool) (t : TimeoutConfig) : outcome E TimeoutConfig :=
  let t :=
    if success then set_reset (reset_in_progress t) MAX_RESET_ATTEMPTS (next_reset_time t) t
    else if reset_attempts t =? 0
    then set_reset (reset_in_progress t) (reset_attempts t) (now + RESET_COOLDOWN_INTERVAL) t
    else t in
  if reset_in_progress t then Ok (set_reset false (reset_attempts t) (next_reset_time t) t) else Panicked.

End Timeout.
