(* ===== verification/NvmxController.v ===== *)
(** * The life of an NVMe controller

    [bdev/nvmx/controller.rs], [controller_inner.rs], [mod.rs], [device.rs],
    [uri.rs] and [core/io_device.rs]: the table of controllers, the creation of
    a controller, its reset, its shutdown and its destruction, the handling of
    timeouts and of admin queue errors, over the traversals of the I/O channels
    that are in progress. *)

From stdpp Require Import pretty.
From S2P Require Import Prelude Errors IoLog DeviceEvents Nvmx.
#[local] Open Scope Z_scope.

Module Nvme.
Import CtrlState Channel Timeout.

(** What SPDK reports of a namespace. *)
Record NvmeNamespace := mkNs {
  ns_size : Z; ns_block_len : Z; ns_num_blocks : Z; ns_md_size : Z;
  ns_compare : bool; ns_deallocate : bool; ns_write_zeroes : bool;
}.

(** [ctrlr]: the address of the SPDK controller, which is also that of the I/O
    device. *)
Record NvmeControllerInner := mkCtrlInner { namespaces : list NvmeNamespace; ctrlr : Z }.

Record NvmeController := mkController {
  name : string;
  id : Z;
  prchk_flags : Z;
  inner : option NvmeControllerInner;
  state_machine : ControllerStateMachine;
  timeout_config : TimeoutConfig;
}.

Definition controller_new (n : string) (prchk now timeout_admin_us : Z) : NvmeController :=
  mkController n 0 prchk None sm_new (tc_new now timeout_admin_us).

Definition get_state (c : NvmeController) : NvmeControllerState := current_state (state_machine c).
Definition reset_active (c : NvmeController) : bool := flag (state_machine c).

Definition set_id_inner (i : Z) (inn : option NvmeControllerInner) (c : NvmeController) : NvmeController :=
  mkController (name c) i (prchk_flags c) inn (state_machine c) (timeout_config c).
Definition set_sm (m : ControllerStateMachine) (c : NvmeController) : NvmeController :=
  mkController (name c) (id c) (prchk_flags c) (inner c) m (timeout_config c).
Definition set_tc (t : TimeoutConfig) (c : NvmeController) : NvmeController :=
  mkController (name c) (id c) (prchk_flags c) (inner c) (state_machine c) t.

(** Completion callbacks with their arguments: [TimeoutConfig::reset_cb] and
    [hot_remove_cb] with a raw pointer to the configuration of a controller,
    [reset_callback] of a device handle, and the sender [destroy_device] waits
    for. *)
Inductive OpCallback :=
| CbTimeout (cell : nat)
| CbHotRemove (cell : nat)
| CbHandle (k : nat)
| CbDestroy (k : nat).

#[global] Instance OpCallback_eq_dec : EqDecision OpCallback.
Proof. solve_decision. Defined.

Record ResetCtx := mkResetCtx { r_name : string; r_cb : OpCallback; r_dev : Z; shutdown_in_progress : bool }.
Record ShutdownCtx := mkShutdownCtx { s_name : string; s_cb : OpCallback }.

Inductive TraverseOp :=
| ResetDestroy (ctx : ResetCtx)
| ResetCreate (ctx : ResetCtx)
| HotRemoval (ctx : ResetCtx)
| ShutdownChannels (ctx : ShutdownCtx)
| IoStatsOf (k : nat) (acc : IoStats).

(** A call of [spdk_for_each_channel] in progress: the channels that are left,
    in the order they are visited, and the status of the last visit. *)
Record Traversal := mkTraversal { t_dev : Z; t_rest : list nat; t_status : Z; t_op : TraverseOp }.

(** [destroy_device] waits for the shutdown, has been told its result, waits to
    be the only owner of the controller, or is finished. *)
Inductive DestroyPc := AwaitShutdown | ShutdownDone (success : bool) | AwaitUnwrap | Finished.

#[global] Instance DestroyPc_eq_dec : EqDecision DestroyPc.
Proof. solve_decision. Defined.

Record DestroyTask := mkDestroy { d_name : string; d_cell : nat; d_pc : DestroyPc }.

(** [NvmeControllerContext]: [None] while the attach handler has not run. *)
Record CreateTask := mkCreate { c_name : string; c_status : option (outcome Errno unit) }.

(** The options of the NVMe bdevs that are used. *)
Record NvmeBdevOpts := mkOpts { timeout_us : Z; timeout_admin_us : Z; action_on_timeout : Z }.

Record World := mkWorld {
  opts : NvmeBdevOpts;
  ctrls : gmap nat NvmeController;
  created : list string;
  entries : gmap string nat;
  channels : gmap nat NvmeIoChannelInner;
  traversals : list Traversal;
  creates : gmap nat CreateTask;
  destroys : gmap nat DestroyTask;
  failed : gset Z;
  notified : list (DeviceEventType * string);
  calls : list (OpCallback * bool);
  replies : list (nat * outcome CoreError IoStats);
}.

Definition set_ctrls (x : gmap nat NvmeController) (w : World) : World :=
  mkWorld (opts w) x (created w) (entries w) (channels w) (traversals w) (creates w) (destroys w) (failed w)
    (notified w) (calls w) (replies w).
Definition set_created (x : list string) (w : World) : World :=
  mkWorld (opts w) (ctrls w) x (entries w) (channels w) (traversals w) (creates w) (destroys w) (failed w)
    (notified w) (calls w) (replies w).
Definition set_entries (x : gmap string nat) (w : World) : World :=
  mkWorld (opts w) (ctrls w) (created w) x (channels w) (traversals w) (creates w) (destroys w) (failed w)
    (notified w) (calls w) (replies w).
Definition set_channels (x : gmap nat NvmeIoChannelInner) (w : World) : World :=
  mkWorld (opts w) (ctrls w) (created w) (entries w) x (traversals w) (creates w) (destroys w) (failed w)
    (notified w) (calls w) (replies w).
Definition set_traversals (x : list Traversal) (w : World) : World :=
  mkWorld (opts w) (ctrls w) (created w) (entries w) (channels w) x (creates w) (destroys w) (failed w)
    (notified w) (calls w) (replies w).
Definition set_creates (x : gmap nat CreateTask) (w : World) : World :=
  mkWorld (opts w) (ctrls w) (created w) (entries w) (channels w) (traversals w) x (destroys w) (failed w)
    (notified w) (calls w) (replies w).
Definition set_destroys (x : gmap nat DestroyTask) (w : World) : World :=
  mkWorld (opts w) (ctrls w) (created w) (entries w) (channels w) (traversals w) (creates w) x (failed w)
    (notified w) (calls w) (replies w).
Definition set_failed (x : gset Z) (w : World) : World :=
  mkWorld (opts w) (ctrls w) (created w) (entries w) (channels w) (traversals w) (creates w) (destroys w) x
    (notified w) (calls w) (replies w).
Definition add_notified (x : DeviceEventType * string) (w : World) : World :=
  mkWorld (opts w) (ctrls w) (created w) (entries w) (channels w) (traversals w) (creates w) (destroys w) (failed w)
    (notified w ++ [x]) (calls w) (replies w).
Definition add_call (x : OpCallback * bool) (w : World) : World :=
  mkWorld (opts w) (ctrls w) (created w) (entries w) (channels w) (traversals w) (creates w) (destroys w) (failed w)
    (notified w) (calls w ++ [x]) (replies w).
Definition add_reply (x : nat * outcome CoreError IoStats) (w : World) : World :=
  mkWorld (opts w) (ctrls w) (created w) (entries w) (channels w) (traversals w) (creates w) (destroys w) (failed w)
    (notified w) (calls w) (replies w ++ [x]).

Definition empty (o : NvmeBdevOpts) : World := mkWorld o ∅ [] ∅ ∅ [] ∅ ∅ ∅ [] [] [].

(** The cells are numbered in the order of their creation; [created] has the
    names of the controllers. *)
Definition next_cell (w : World) : nat := length (created w).

(** A raw pointer to something that was freed. *)
Inductive Fault := UseAfterFree.

(** *** Cells *)

Definition set_ctrl (i : nat) (c : NvmeController) (w : World) : World := set_ctrls (<[i := c]> (ctrls w)) w.

(** A cell that is referenced exists. *)
Definition get_ctrl {E} (i : nat) : ST World E NvmeController := λ w,
  match ctrls w !! i with Some c => (w, Ok c) | None => (w, Panicked) end.

Definition put_ctrl {E} (i : nat) (c : NvmeController) : ST World E unit := ST.modify (set_ctrl i c).

(** Run an operation of the state machine of a controller. *)
Definition on_sm {E} (i : nat) (op : ST ControllerStateMachine ControllerStateMachineError unit) :
    ST World E (outcome ControllerStateMachineError unit) :=
  c ← get_ctrl i;
  let '(m, r) := op (state_machine c) in
  put_ctrl i (set_sm m c);; mret r.

(** [.expect(..)] *)
Definition expect {E E' A} (m : ST World E (outcome E' A)) : ST World E A :=
  r ← m; match r with Ok a => mret a | _ => ST.panic end.

(** *** The table of controllers: [NVMeCtlrList] *)

Definition lookup_by_name {E} (n : string) : ST World E (option nat) := λ w, (w, Ok (entries w !! n)).

Definition insert_controller {E} (n : string) (i : nat) : ST World E unit :=
  ST.modify (λ w, set_entries (<[n := i]> (entries w)) w).

(** [NvmeController::id] *)
Definition get_id {E} (c : NvmeController) : ST World E Z :=
  if bool_decide (get_state c ≠ New) && (id c =? 0) then ST.panic else mret (id c).

Definition remove_by_name (n : string) : ST World CoreError string := λ w,
  match entries w !! n with
  | None => (w, Err (BdevNotFound n))
  | Some i =>
      let w := set_entries (delete n (entries w)) w in
      (c ← get_ctrl i; k ← get_id c;
       ST.modify (λ w, set_entries (delete (pretty k) (entries w)) w);; mret n) w
  end.

(** The names contain the NQN of the target. *)
Fixpoint contains (pat s : string) : bool :=
  String.prefix pat s || match s with EmptyString => false | String _ s => contains pat s end.

Definition controllers (w : World) : list string :=
  List.filter (contains "nqn") (map_to_list (entries w)).*1.

(** *** I/O devices: [IoDevice::traverse_io_channels] *)

Definition channels_of (d : Z) (w : World) : list nat :=
  (List.filter (λ kc, dev (snd kc) =? d) (map_to_list (channels w))).*1.

Definition traverse_io_channels {E} (d : Z) (op : TraverseOp) : ST World E unit :=
  ST.modify (λ w, set_traversals (traversals w ++ [mkTraversal d (channels_of d w) 0 op]) w).

Definition notify_listeners {E} (evt : DeviceEventType) (n : string) : ST World E unit :=
  ST.modify (add_notified (evt, n)).

(** *** Namespaces *)

(** [NvmeController::namespace] *)
Definition namespace {E} (c : NvmeController) : ST World E (option NvmeNamespace) :=
  match inner c with None => ST.panic | Some inn => mret (head (namespaces inn)) end.

(** [ns] is what [spdk_nvme_ctrlr_get_ns] returns, [ns_active] what
    [spdk_nvme_ctrlr_is_active_ns] returns. *)
Definition populate_namespaces {E} (ns : option NvmeNamespace) (ns_active : bool) (i : nat) : ST World E bool :=
  c ← get_ctrl i;
  match inner c with
  | None => ST.panic
  | Some inn =>
      let notify := negb ns_active && negb (bool_decide (namespaces inn = [])) in
      let nss := match ns with Some n => if ns_active then [n] else [] | None => [] end in
      put_ctrl i (set_id_inner (id c) (Some (mkCtrlInner nss (ctrlr inn))) c);;
      (if negb ns_active then expect (on_sm i (transition (Faulted NamespaceInit))) else mret tt);;
      (if notify then notify_listeners DeviceRemoved (name c) else mret tt);;
      mret ns_active
  end.

Definition clear_namespaces {E} (i : nat) : ST World E unit :=
  c ← get_ctrl i;
  match inner c with
  | None => ST.panic
  | Some inn => put_ctrl i (set_id_inner (id c) (Some (mkCtrlInner [] (ctrlr inn))) c)
  end.

(** [aer_cb]: the controller is found by its address. *)
Definition aer_cb {E} (ctx : Z) (succeeded : bool) (event_type event_info : Z)
    (ns : option NvmeNamespace) (ns_active : bool) : ST World E unit :=
  if negb succeeded then mret tt
  else if (event_type =? 2) && (event_info =? 0) then
    o ← lookup_by_name (pretty ctx);
    match o with
    | Some i => populate_namespaces ns ns_active i;; mret tt
    | None => mret tt
    end
  else mret tt.

(** *** Reset *)

Definition start_traversal {E} (i : nat) (op : Z → TraverseOp) : ST World E unit :=
  c ← get_ctrl i;
  match inner c with
  | None => ST.panic
  | Some inn => traverse_io_channels (ctrlr inn) (op (ctrlr inn))
  end.

(** [failover] is not supported and only logged. *)
Definition reset (cb : OpCallback) (i : nat) : ST World CoreError unit :=
  c ← get_ctrl i;
  match get_state c with
  | Running | Faulted _ =>
      r ← on_sm i (set_flag_exclusively ResetActive);
      match r with
      | Ok _ => start_traversal i (λ d, ResetDestroy (mkResetCtx (name c) cb d false))
      | _ => ST.fail (ResetDispatch EBUSY)
      end
  | _ => ST.fail (ResetDispatch EBUSY)
  end.

(** [NvmeDeviceHandle::reset] *)
Definition handle_reset (n : string) (k : nat) : ST World CoreError unit :=
  o ← lookup_by_name n;
  match o with
  | None => ST.fail (BdevNotFound n)
  | Some i => reset (CbHandle k) i
  end.

Definition _reset_destroy_channels (c : NvmeIoChannelInner) (ctx : ResetCtx) : NvmeIoChannelInner * ResetCtx * Z :=
  if shutdown_in_progress ctx then (c, ctx, 0)
  else if is_shutdown c then (c, mkResetCtx (r_name ctx) (r_cb ctx) (r_dev ctx) true, 0)
  else let '(c, rc) := Channel.reset c in (c, ctx, rc).

Definition _reset_create_channels (e : QpairRc) (c : NvmeIoChannelInner) : NvmeIoChannelInner * Z :=
  if is_shutdown c then (c, 0) else reinitialize e c.

(** Invoke a completion callback.  A timeout configuration is freed with its
    controller. *)
Definition invoke (now : Z) (cb : OpCallback) (success : bool) : ST World Fault unit := λ w,
  match cb with
  | CbTimeout i =>
      match ctrls w !! i with
      | None => (w, Err UseAfterFree)
      | Some c =>
          match reset_cb now success (timeout_config c) with
          | Ok t => (add_call (cb, success) (set_ctrl i (set_tc t c) w), Ok tt)
          | Err e => (w, Err e)
          | Panicked => (w, Panicked)
          end
      end
  | CbHotRemove i =>
      match ctrls w !! i with
      | None => (w, Err UseAfterFree)
      | Some _ => (add_call (cb, success) w, Ok tt)
      end
  | CbHandle _ => (add_call (cb, success) w, Ok tt)
  | CbDestroy k =>
      match destroys w !! k with
      | None => (w, Panicked)
      | Some d =>
          (add_call (cb, success)
             (set_destroys (<[k := mkDestroy (d_name d) (d_cell d) (ShutdownDone success)]> (destroys w)) w), Ok tt)
      end
  end.

(** The flag of the controller that has the name now is cleared; the controller
    may be gone. *)
Definition _complete_reset (now : Z) (ctx : ResetCtx) (status : Z) : ST World Fault unit :=
  o ← lookup_by_name (r_name ctx);
  match o with
  | Some i =>
      expect (on_sm i (clear_flag_exclusively ResetActive));;
      (if negb (status =? 0)
       then on_sm i (transition_checked Running (Faulted Reset));; mret tt
       else mret tt)
  | None => mret tt
  end;;
  invoke now (r_cb ctx) (status =? 0).

Definition _reset_destroy_channels_done (now status : Z) (ctx : ResetCtx) : ST World Fault unit :=
  if negb (status =? 0) then _complete_reset now ctx status
  else if shutdown_in_progress ctx then mret tt
  else traverse_io_channels (r_dev ctx) (ResetCreate ctx).

Definition _reset_create_channels_done (now status : Z) (ctx : ResetCtx) : ST World Fault unit :=
  _complete_reset now ctx status.

(** *** Hot removal *)

Definition fail_ctrlr {E} (d : Z) : ST World E unit := ST.modify (λ w, set_failed ({[d]} ∪ failed w) w).

Definition hot_remove (cb : OpCallback) (i : nat) : ST World CoreError unit :=
  c ← get_ctrl i;
  match inner c with
  | None => ST.panic
  | Some inn =>
      fail_ctrlr (ctrlr inn);;
      traverse_io_channels (ctrlr inn) (HotRemoval (mkResetCtx (name c) cb (ctrlr inn) false))
  end.

(** *** Shutdown *)

Definition on_tc {E A} (i : nat) (f : TimeoutConfig → TimeoutConfig * A) : ST World E A :=
  c ← get_ctrl i;
  let '(t, a) := f (timeout_config c) in
  put_ctrl i (set_tc t c);; mret a.

Definition shutdown (cb : OpCallback) (i : nat) : ST World CoreError unit :=
  r ← on_sm i (transition Unconfiguring);
  match r with
  | Ok _ =>
      on_tc i start_device_destroy;;
      c ← get_ctrl i;
      start_traversal i (λ _, ShutdownChannels (mkShutdownCtx (name c) cb))
  | _ => ST.fail (ResetDispatch EBUSY)
  end.

Definition _shutdown_channels (c : NvmeIoChannelInner) : NvmeIoChannelInner * Z := Channel.shutdown c.

(** On failure the callback is not invoked. *)
Definition _shutdown_channels_done (now result : Z) (ctx : ShutdownCtx) : ST World Fault unit :=
  o ← lookup_by_name (s_name ctx);
  match o with
  | None => ST.panic
  | Some i =>
      if negb (result =? 0) then expect (on_sm i (transition (Faulted Shutdown)))
      else
        c ← get_ctrl i;
        (match inner c with Some inn => fail_ctrlr (ctrlr inn) | None => mret tt end);;
        clear_namespaces i;;
        expect (on_sm i (transition Unconfigured));;
        invoke now (s_cb ctx) (result =? 0)
  end.

(** *** I/O statistics *)

Definition get_io_stats (k : nat) (i : nat) : ST World CoreError unit :=
  c ← get_ctrl i;
  if bool_decide (get_state c ≠ Running) then ST.fail (DeviceStatisticsFailed EAGAIN)
  else start_traversal i (λ _, IoStatsOf k stats_default).

Definition account_channel_stats_done {E} (result : Z) (k : nat) (acc : IoStats) : ST World E unit :=
  ST.modify (add_reply (k, if result =? 0 then Ok acc else Err (DeviceStatisticsFailed EAGAIN))).

(** *** Progress of the traversals *)

(** Visit one channel: the channel, the operation with its context, the status. *)
Definition visit_channel (e : QpairRc) (op : TraverseOp) (c : NvmeIoChannelInner) :
    NvmeIoChannelInner * TraverseOp * Z :=
  match op with
  | ResetDestroy ctx => let '(c, ctx, rc) := _reset_destroy_channels c ctx in (c, ResetDestroy ctx, rc)
  | ResetCreate ctx => let '(c, rc) := _reset_create_channels e c in (c, ResetCreate ctx, rc)
  | HotRemoval ctx => let '(c, ctx, rc) := _reset_destroy_channels c ctx in (c, HotRemoval ctx, rc)
  | ShutdownChannels ctx => let '(c, rc) := _shutdown_channels c in (c, ShutdownChannels ctx, rc)
  | IoStatsOf k acc => (c, IoStatsOf k (merge acc (Channel.get_io_stats (stats c))), 0)
  end.

Definition visit_done (now status : Z) (op : TraverseOp) : ST World Fault unit :=
  match op with
  | ResetDestroy ctx => _reset_destroy_channels_done now status ctx
  | ResetCreate ctx => _reset_create_channels_done now status ctx
  | HotRemoval _ => mret tt
  | ShutdownChannels ctx => _shutdown_channels_done now status ctx
  | IoStatsOf k acc => account_channel_stats_done status k acc
  end.

(** One step of the [t]-th traversal: the next channel is visited on its
    thread; a status other than 0 ends the traversal; a channel that has gone
    is skipped; after the last one the completion runs. *)
Definition advance (now : Z) (e : QpairRc) (t : nat) : ST World Fault unit := λ w,
  match traversals w !! t with
  | None => (w, Ok tt)
  | Some tr =>
      match t_rest tr with
      | k :: rest =>
          match channels w !! k with
          | None =>
              (set_traversals (<[t := mkTraversal (t_dev tr) rest 0 (t_op tr)]> (traversals w)) w, Ok tt)
          | Some c =>
              let '(c, op, rc) := visit_channel e (t_op tr) c in
              (set_channels (<[k := c]> (channels w))
                 (set_traversals
                    (<[t := mkTraversal (t_dev tr) (if rc =? 0 then rest else []) rc op]> (traversals w)) w), Ok tt)
          end
      | [] => visit_done now (t_status tr) (t_op tr) (set_traversals (delete t (traversals w)) w)
      end
  end.

(** *** Timeouts *)

(** The first [compare_exchange] sets the flag and returns when it succeeds. *)
Definition reset_controller (now : Z) (i : nat) : ST World Fault unit :=
  c ← get_ctrl i;
  let t := timeout_config c in
  if negb (reset_in_progress t)
  then put_ctrl i (set_tc (set_reset true (reset_attempts t) (next_reset_time t) t) c)
  else
    let attempts :=
      if (reset_attempts t =? 0) && (next_reset_time t <=? now) then MAX_RESET_ATTEMPTS else reset_attempts t in
    let release := 
      c ← get_ctrl i;
      let t := timeout_config c in
      if reset_in_progress t
      then put_ctrl i (set_tc (set_reset false (reset_attempts t) (next_reset_time t) t) c)
      else ST.panic in
    if 0 <? attempts then
      put_ctrl i (set_tc (set_reset true (attempts - 1) (next_reset_time t) t) c);;
      o ← lookup_by_name (name c);
      match o with
      | Some j =>
          r ← ST.try (reset (CbTimeout i) j);
          match r with Ok _ => mret tt | _ => release end
      | None => release
      end
    else release.

(** [TimeoutConfig::hot_remove] *)
Definition timeout_hot_remove (i : nat) : ST World Fault unit :=
  c ← get_ctrl i;
  o ← lookup_by_name (name c);
  match o with
  | Some j => ST.try (hot_remove (CbHotRemove i) j);; mret tt
  | None => mret tt
  end.

Definition command_abort_handler (now : Z) (succeeded : bool) (i : nat) : ST World Fault unit :=
  if succeeded then mret tt else reset_controller now i.

(** [io_qpair]: the timeout is that of an I/O command.  [abort_rc] is the answer
    of [spdk_nvme_ctrlr_cmd_abort]. *)
Definition io_timeout_handler (now : Z) (io_qpair : bool) (abort_rc : Z) (i : nat) : ST World Fault unit :=
  c ← get_ctrl i;
  let a := timeout_action (timeout_config c) in
  let a := if io_qpair && bool_decide (a ≠ Ignore) && bool_decide (a ≠ HotRemove) then ResetDevice else a in
  match a with
  | Abort =>
      if io_qpair && (abort_rc =? 0) then mret tt else reset_controller now i
  | ResetDevice => reset_controller now i
  | Ignore => mret tt
  | HotRemove => timeout_hot_remove i
  end.

Definition set_action {E} (a : DeviceTimeoutAction) (i : nat) : ST World E unit :=
  on_tc i (λ t, (set_timeout_action a t, tt)).

Definition configure_timeout {E} (i : nat) : ST World E unit :=
  o ← ST.gets opts;
  if timeout_us o =? 0 then set_action Ignore i
  else set_action (default Ignore (try_from (action_on_timeout o))) i.

(** *** Admin queue

    [result] is what [spdk_nvme_ctrlr_process_admin_completions] returns. *)
Definition nvme_poll_adminq (now result : Z) (is_failed : bool) (i : nat) : ST World Fault Z :=
  if result <? 0 then
    c ← get_ctrl i;
    started ← on_tc i start_device_destroy;
    (if (started : bool) then
       o ← lookup_by_name (name c);
       match o with
       | None => ST.panic
       | Some _ => notify_listeners AdminCommandCompletionFailed (name c)
       end
     else
       reported ← on_tc i (report_failed is_failed);
       if (reported : bool) then
         o ← lookup_by_name (name c);
         match o with Some _ => notify_listeners AdminQNoticeCtrlFailed (name c) | None => mret tt end
       else
         broken ← on_tc i (adminq_broken_tmo now (Z.abs result));
         if (broken : bool) then
           o ← lookup_by_name (name c);
           match o with Some _ => notify_listeners AdminQBroken (name c) | None => mret tt end
         else mret tt);;
    mret 1
  else mret (if result =? 0 then 0 else 1).

(** *** Destruction *)

Definition is_cell (i : nat) (o : option nat) : bool := bool_decide (o = Some i).

(** The cell is referenced by the table, by a channel or by another call of
    [destroy_device]. *)
Definition referenced (i k : nat) (w : World) : bool :=
  existsb (λ e, bool_decide (snd e = i)) (map_to_list (entries w))
  || existsb (λ kc, is_cell i (ctrl (snd kc))) (map_to_list (channels w))
  || existsb (λ kd, negb (bool_decide (fst kd = k)) && bool_decide (d_cell (snd kd) = i)
                    && negb (bool_decide (d_pc (snd kd) = Finished))) (map_to_list (destroys w)).

(** [impl Drop for NvmeController]; [spdk_nvme_detach] succeeds. *)
Definition drop_controller {E} (i : nat) : ST World E unit :=
  c ← get_ctrl i;
  match get_state c with
  | New | Unconfigured => ST.modify (λ w, set_ctrls (delete i (ctrls w)) w)
  | _ => ST.panic
  end.

Definition set_destroy {E} (k : nat) (d : DestroyTask) : ST World E unit :=
  ST.modify (λ w, set_destroys (<[k := d]> (destroys w)) w).

(** Remove the controller from the table and notify the listeners. *)
Definition destroy_remove {E} (k : nat) (d : DestroyTask) : ST World E unit :=
  ST.try (remove_by_name (d_name d));;
  c ← get_ctrl (d_cell d);
  notify_listeners DeviceRemoved (name c);;
  set_destroy k (mkDestroy (d_name d) (d_cell d) AwaitUnwrap).

(** [destroy_device], up to the wait for the shutdown. *)
Definition destroy_begin (n : string) (k : nat) : ST World Bdev.Error unit :=
  o ← lookup_by_name n;
  match o with
  | None => ST.fail (Bdev.NotFound n)
  | Some i =>
      c ← get_ctrl i;
      if bool_decide (get_state c ≠ New) then
        ST.with_err (λ _, Bdev.DestroyBdevFailed EAGAIN n) (shutdown (CbDestroy k) i);;
        set_destroy k (mkDestroy n i AwaitShutdown)
      else destroy_remove k (mkDestroy n i AwaitShutdown)
  end.

(** The rest of [destroy_device], from one suspension to the next. *)
Definition destroy_resume (k : nat) : ST World Bdev.Error unit :=
  ds ← ST.gets destroys;
  match ds !! k with
  | None => mret tt
  | Some d =>
      match d_pc d with
      | AwaitShutdown | Finished => mret tt
      | ShutdownDone false =>
          set_destroy k (mkDestroy (d_name d) (d_cell d) Finished);;
          ST.fail (Bdev.DestroyBdevFailed EAGAIN (d_name d))
      | ShutdownDone true => destroy_remove k d
      | AwaitUnwrap =>
          b ← ST.gets (referenced (d_cell d) k);
          if (b : bool) then mret tt
          else drop_controller (d_cell d);; set_destroy k (mkDestroy (d_name d) (d_cell d) Finished)
      end
  end.

(** *** Creation *)

(** [NvmfDeviceTemplate::get_name] *)
Definition get_name (base : string) : string := (base +:+ "n1")%string.

Definition set_create {E} (k : nat) (c : CreateTask) : ST World E unit :=
  ST.modify (λ w, set_creates (<[k := c]> (creates w)) w).

(** [NvmfDeviceTemplate::create], up to the wait for the attach handler;
    [connecting]: [spdk_nvme_connect_async] returns a probe context. *)
Definition create_begin (now : Z) (base : string) (prchk : Z) (connecting : bool) (k : nat) : ST World Bdev.Error unit :=
  let cname := get_name base in
  o ← lookup_by_name cname;
  match o with
  | Some _ => ST.fail (Bdev.BdevExists cname)
  | None =>
      ops ← ST.gets opts;
      i ← ST.gets next_cell;
      ST.modify (λ w, set_created (created w ++ [cname]) w);;
      put_ctrl i (controller_new cname prchk now (timeout_admin_us ops));;
      insert_controller cname i;;
      if (connecting : bool) then set_create k (mkCreate cname None)
      else
        r ← ST.try (remove_by_name cname);
        match r with
        | Ok _ => drop_controller i;; ST.fail (Bdev.CreateBdevFailed ENODEV cname)
        | _ => ST.panic
        end
  end.

(** [connected_attached_cb]; the status sent to the caller of [create]. *)
Definition connected_attached_cb {E} (n : string) (cid : Z) (ns : option NvmeNamespace) (ns_active : bool) :
    ST World E (outcome Errno unit) :=
  o ← lookup_by_name n;
  match o with
  | None => ST.panic
  | Some i =>
      expect (on_sm i (transition Initializing));;
      c ← get_ctrl i;
      if cid =? 0 then ST.panic
      else
        put_ctrl i (set_id_inner cid (Some (mkCtrlInner [] cid)) c);;
        configure_timeout i;;
        ok ← populate_namespaces ns ns_active i;
        if negb (ok : bool) then mret (Err ENXIO)
        else
          insert_controller (pretty cid) i;;
          expect (on_sm i (transition Running));;
          mret (Ok tt)
  end.

(** [connect_attach_cb]: [at_] is the controller, with what it reports of its
    namespace, or nothing when the attachment failed. *)
Definition connect_attach_cb {E} (k : nat) (at_ : option (Z * option NvmeNamespace * bool)) : ST World E unit :=
  cs ← ST.gets creates;
  match cs !! k with
  | Some (mkCreate n None) =>
      match at_ with
      | None => set_create k (mkCreate n (Some (Err ENXIO)))
      | Some (cid, ns, ns_active) =>
          r ← connected_attached_cb n cid ns ns_active;
          set_create k (mkCreate n (Some r))
      end
  | Some (mkCreate _ (Some _)) => ST.panic
  | None => mret tt
  end.

(** The rest of [create]: after a failure the controller is destroyed by the
    task [kd]. *)
Definition create_end (k kd : nat) : ST World Bdev.Error unit :=
  cs ← ST.gets creates;
  match cs !! k with
  | Some (mkCreate n (Some r)) =>
      ST.modify (λ w, set_creates (delete k (creates w)) w);;
      match r with
      | Ok _ =>
          o ← lookup_by_name n;
          match o with
          | None => ST.panic
          | Some i =>
              c ← get_ctrl i;
              if bool_decide (get_state c = Running) then mret tt else ST.panic
          end
      | _ => destroy_begin n kd
      end
  | _ => mret tt
  end.

(** *** Channels and devices *)

(** [lookup_by_name] of [device.rs]: the namespace of a running controller. *)
Definition device_lookup {E} (n : string) : ST World E (option NvmeNamespace) :=
  o ← lookup_by_name n;
  match o with
  | None => mret None
  | Some i =>
      c ← get_ctrl i;
      if bool_decide (get_state c = Running) then
        ns ← namespace c;
        match ns with None => ST.panic | Some _ => mret ns end
      else mret None
  end.

(** [NvmeBlockDevice::open_by_name]: the name, the I/O device and the namespace. *)
Definition open_by_name (n : string) : ST World CoreError (string * Z * NvmeNamespace) :=
  o ← lookup_by_name n;
  match o with
  | None => ST.fail (BdevNotFound n)
  | Some i =>
      c ← get_ctrl i;
      if bool_decide (get_state c = Running) then
        ns ← namespace c;
        match ns with
        | None => ST.fail (OpenBdev ENODEV)
        | Some ns => d ← get_id c; mret (name c, d, ns)
        end
      else ST.fail (BdevNotFound n)
  end.

(** [NvmeBlockDevice::io_type_supported] *)
Definition io_type_supported (ns : NvmeNamespace) (t : IoType) : bool :=
  match t with
  | IoRead | IoWrite | IoReset | IoFlush | IoNvmeAdmin | IoNvmeIo | IoAbort => true
  | IoCompare => ns_compare ns
  | IoNvmeIoMd => 0 <? ns_md_size ns
  | IoUnmap => ns_deallocate ns
  | IoWriteZeros => ns_write_zeroes ns
  | IoCompareAndWrite | IoOther _ => false
  end.

(** [NvmeControllerIoChannel::create] for the channel [k] of the device [d];
    [group_ok]: the poll group is created. *)
Definition channel_create {E} (d : Z) (e : QpairRc) (group_ok : bool) (k : nat) : ST World E Z :=
  o ← lookup_by_name (pretty d);
  match o with
  | None => mret 1
  | Some i =>
      c ← get_ctrl i;
      if bool_decide (get_state c ≠ Running) then mret 1
      else
        ns ← namespace c;
        match ns, inner c with
        | Some ns, Some _ =>
            dv ← device_lookup (name c);
            match dv with
            | None => mret 1
            | Some _ =>
                if negb (alloc_ok e) || negb group_ok || negb (add_rc e =? 0) then mret 1
                else
                  ST.modify (λ w, set_channels
                    (<[k := mkInner d (Some Disconnected) (stats_new (ns_block_len ns)) (Some i) 0 false]>
                       (channels w)) w);;
                  mret 0
            end
        | _, _ => ST.panic
        end
  end.

(** [NvmeControllerIoChannel::destroy] *)
Definition channel_destroy {E} (k : nat) : ST World E unit :=
  ST.modify (λ w, set_channels (delete k (channels w)) w).

Definition on_channel {E} (k : nat) (f : NvmeIoChannelInner → outcome E NvmeIoChannelInner) : ST World E unit := λ w,
  match channels w !! k with
  | None => (w, Ok tt)
  | Some c =>
      match f c with
      | Ok c => (set_channels (<[k := c]> (channels w)) w, Ok tt)
      | Err e => (w, Err e)
      | Panicked => (w, Panicked)
      end
  end.

(** *** Events

    The interleaving of the calls of the control plane, of SPDK and of the
    reactors.  The arguments are those of the operations. *)
Inductive event :=
| EvCreate (now : Z) (base : string) (prchk : Z) (connecting : bool) (k : nat)
| EvAttach (k : nat) (at_ : option (Z * option NvmeNamespace * bool))
| EvCreateEnd (k kd : nat)
| EvDestroy (n : string) (k : nat)
| EvDestroyResume (k : nat)
| EvReset (n : string) (k : nat)
| EvTimeout (now : Z) (io_qpair : bool) (abort_rc : Z) (i : nat)
| EvAborted (now : Z) (succeeded : bool) (i : nat)
| EvSetAction (a : DeviceTimeoutAction) (i : nat)
| EvAer (d : Z) (succeeded : bool) (event_type event_info : Z) (ns : option NvmeNamespace) (ns_active : bool)
| EvPoll (now result : Z) (is_failed : bool) (i : nat)
| EvIoStats (i k : nat)
| EvAdvance (now : Z) (e : QpairRc) (t : nat)
| EvChannelCreate (d : Z) (e : QpairRc) (group_ok : bool) (k : nat)
| EvChannelDestroy (k : nat)
| EvConnect (rc : Z) (k : nat)
| EvAccount (k : nat)
| EvDiscard (k : nat).

(** The answer of an operation to its caller does not end the run. *)
Definition answered {E A} (m : ST World E A) : ST World Fault unit := ST.try m;; mret tt.

(** An event of a controller that has gone does not happen: its timeout
    callback and its poller are removed when it is detached. *)
Definition if_alive (i : nat) (m : ST World Fault unit) : ST World Fault unit := λ w,
  match ctrls w !! i with Some _ => m w | None => (w, Ok tt) end.

Definition exec (ev : event) : ST World Fault unit :=
  match ev with
  | EvCreate now base prchk connecting k => answered (create_begin now base prchk connecting k)
  | EvAttach k at_ => connect_attach_cb k at_
  | EvCreateEnd k kd => answered (create_end k kd)
  | EvDestroy n k => answered (destroy_begin n k)
  | EvDestroyResume k => answered (destroy_resume k)
  | EvReset n k => answered (handle_reset n k)
  | EvTimeout now io_qpair abort_rc i => if_alive i (io_timeout_handler now io_qpair abort_rc i)
  | EvAborted now succeeded i => if_alive i (command_abort_handler now succeeded i)
  | EvSetAction a i => if_alive i (set_action a i)
  | EvAer d succeeded event_type event_info ns ns_active => aer_cb d succeeded event_type event_info ns ns_active
  | EvPoll now result is_failed i => if_alive i (nvme_poll_adminq now result is_failed i;; mret tt)
  | EvIoStats i k => if_alive i (answered (get_io_stats k i))
  | EvAdvance now e t => advance now e t
  | EvChannelCreate d e group_ok k => channel_create d e group_ok k;; mret tt
  | EvChannelDestroy k => channel_destroy k
  | EvConnect rc k => on_channel k (connect_sync rc)
  | EvAccount k => on_channel k (λ c, Ok (account_io c))
  | EvDiscard k => on_channel k (λ c, Ok (discard_io c))
  end.

Definition op_name (op : TraverseOp) : option string :=
  match op with
  | ResetDestroy ctx | ResetCreate ctx => Some (r_name ctx)
  | ShutdownChannels ctx => Some (s_name ctx)
  | _ => None
  end.

Definition ctrlr_of (c : NvmeController) : option Z := ctrlr <$> inner c.

(** The name of a device ends in [n1]. *)
Definition device_name (n : string) : bool :=
  match String.length n with
  | S (S l) => bool_decide (n = get_name (String.substring 0 l n))
  | _ => false
  end.

(** What the environment guarantees: devices are called by their names, the
    numbers of new tasks and channels are not in use, and neither is the address
    of a new controller. *)
Definition admissible (w : World) (ev : event) : Prop :=
  match ev with
  | EvCreate _ _ _ _ k => creates w !! k = None
  | EvCreateEnd _ kd => destroys w !! kd = None
  | EvDestroy n k => device_name n = true ∧ destroys w !! k = None
  | EvReset n _ => device_name n = true
  | EvAttach _ (Some (cid, _, _)) =>
      map_Forall (λ _ c, ctrlr_of c ≠ Some cid) (ctrls w)
      ∧ map_Forall (λ _ ch, dev ch ≠ cid) (channels w)
      ∧ Forall (λ t, t_dev t ≠ cid) (traversals w)
  | EvChannelCreate _ _ _ k => channels w !! k = None
  | _ => True
  end.

(** A name is not used again while a reset or a shutdown of a controller that
    had it is in progress. *)
Definition quiet (w : World) (ev : event) : Prop :=
  match ev with
  | EvCreate _ base _ _ _ => Forall (λ t, op_name (t_op t) ≠ Some (get_name base)) (traversals w)
  | _ => True
  end.

#[global] Instance is_none_dec {A} (o : option A) : Decision (o = None).
Proof. destruct o; [by right|by left]. Defined.
#[global] Instance admissible_dec w ev : Decision (admissible w ev).
Proof. destruct ev as [| ? [[[]]|] | | | | | | | | | | | | | | | |]; simpl; apply _. Defined.
#[global] Instance quiet_dec w ev : Decision (quiet w ev).
Proof. destruct ev; simpl; apply _. Defined.

(** Run events as long as none of them ends the process. *)
Fixpoint run (evs : list event) : ST World Fault unit :=
  match evs with [] => mret tt | ev :: evs => exec ev;; run evs end.

(** The world after a run of admissible, quiet events that does not end the
    process. *)
Fixpoint calm_run (w : World) (evs : list event) : option World :=
  match evs with
  | [] => Some w
  | ev :: evs =>
      if bool_decide (admissible w ev) && bool_decide (quiet w ev) then
        match exec ev w with (w', Ok _) => calm_run w' evs | _ => None end
      else None
  end.

End Nvme.
