(* ===== verification/NvmxFacts.v ===== *)
(** * NVMe controllers: the moves

    Every event of [Nvme.exec] that ends well is a sequence of moves, each of
    which says when a part of the state changes and how.  The invariants are
    proved of the moves. *)

From stdpp Require Import pretty.
From S2P Require Import Prelude Errors IoLog DeviceEvents Nvmx NvmxController.
#[local] Open Scope Z_scope.

Module NvmeFacts.
Import CtrlState Channel Timeout Nvme.

(** An event that is reported once is still to be reported. *)
Definition armed (evt : DeviceEventType) (t : TimeoutConfig) : bool :=
  match evt with
  | AdminCommandCompletionFailed => negb (destroy_in_progress t)
  | AdminQNoticeCtrlFailed => report_failed_once t
  | AdminQBroken => adminq_broken_report t
  | _ => false
  end.

Definition is_admin (evt : DeviceEventType) : bool :=
  match evt with
  | AdminCommandCompletionFailed | AdminQNoticeCtrlFailed | AdminQBroken => true
  | _ => false
  end.

Definition tc_le (t t' : TimeoutConfig) : Prop := ∀ evt, armed evt t' = true → armed evt t = true.

(** The channel keeps its device and whether it is shut down; a channel that
    has no qpair gets none. *)
Definition chan_le (c c' : NvmeIoChannelInner) : Prop :=
  dev c' = dev c ∧ is_shutdown c' = is_shutdown c ∧ ctrl c' = ctrl c ∧ (qpair c = None → qpair c' = None).

(** The name of a device, or one that is in use. *)
Definition is_name (n : string) : Prop := ∃ b, n = get_name b.
Definition named (w : World) (n : string) : Prop :=
  is_name n ∨ (∃ i c, ctrls w !! i = Some c ∧ n = name c) ∨ ∃ k st, creates w !! k = Some (mkCreate n st).

(** Only the part of the world that the invariants do not look at changes. *)
Definition aux_eq (w w' : World) : Prop :=
  ctrls w' = ctrls w ∧ created w' = created w ∧ entries w' = entries w ∧ channels w' = channels w
  ∧ traversals w' = traversals w ∧ List.filter (λ e, is_admin (fst e)) (notified w')
                                   = List.filter (λ e, is_admin (fst e)) (notified w)
  ∧ (∀ k n st, creates w' !! k = Some (mkCreate n st) → named w n).

(** The context of a reset in progress. *)
Definition reset_ctx (op : TraverseOp) : option ResetCtx :=
  match op with ResetDestroy ctx | ResetCreate ctx => Some ctx | _ => None end.

Definition can_shut (s : NvmeControllerState) : bool :=
  match s with Running | Faulted _ => true | _ => false end.

Definition start (d : Z) (op : TraverseOp) (w : World) : list Traversal :=
  traversals w ++ [mkTraversal d (channels_of d w) 0 op].

Inductive move (w w' : World) : Prop :=
| MvAux : aux_eq w w' → move w w'
| MvTc i c t :
    ctrls w !! i = Some c → tc_le (timeout_config c) t → w' = set_ctrl i (set_tc t c) w → move w w'
| MvPoll i c t evt :
    ctrls w !! i = Some c → tc_le (timeout_config c) t →
    armed evt (timeout_config c) = true → armed evt t = false →
    w' = add_notified (evt, name c) (set_ctrl i (set_tc t c) w) → move w w'
| MvFault i c r :
    ctrls w !! i = Some c → check_transition (get_state c) (Faulted r) = true →
    w' = set_ctrl i (set_sm (mkSm (Faulted r) (reset_active c)) c) w → move w w'
| MvNs i c inn nss :
    ctrls w !! i = Some c → inner c = Some inn →
    w' = set_ctrl i (set_id_inner (id c) (Some (mkCtrlInner nss (ctrlr inn))) c) w → move w w'
| MvResetBegin i c inn n cb :
    named w n → entries w !! n = Some i → ctrls w !! i = Some c → can_shut (get_state c) = true →
    reset_active c = false → inner c = Some inn →
    w' = set_traversals (start (ctrlr inn) (ResetDestroy (mkResetCtx (name c) cb (ctrlr inn) false)) w)
           (set_ctrl i (set_sm (mkSm (get_state c) true) c) w) → move w w'
| MvShutdownBegin i c inn n t cb :
    named w n → entries w !! n = Some i → ctrls w !! i = Some c → can_shut (get_state c) = true → inner c = Some inn →
    tc_le (timeout_config c) t →
    w' = set_traversals (start (ctrlr inn) (ShutdownChannels (mkShutdownCtx (name c) cb)) w)
           (set_ctrl i (set_tc t (set_sm (mkSm Unconfiguring (reset_active c)) c)) w) → move w w'
| MvStart d op :
    op_name op = None → w' = set_traversals (start d op w) w → move w w'
| MvSkip t d k rest st op :
    traversals w !! t = Some (mkTraversal d (k :: rest) st op) → channels w !! k = None →
    w' = set_traversals (<[t := mkTraversal d rest 0 op]> (traversals w)) w → move w w'
| MvVisit t d k rest st op e c c' op' rc :
    traversals w !! t = Some (mkTraversal d (k :: rest) st op) → channels w !! k = Some c →
    visit_channel e op c = (c', op', rc) →
    w' = set_channels (<[k := c']> (channels w))
           (set_traversals (<[t := mkTraversal d (if rc =? 0 then rest else []) rc op']> (traversals w)) w) →
    move w w'
| MvEnd t tr :
    traversals w !! t = Some tr → w' = set_traversals (delete t (traversals w)) w → move w w'
| MvResetMid t d ctx :
    traversals w !! t = Some (mkTraversal d [] 0 (ResetDestroy ctx)) →
    w' = (let w := set_traversals (delete t (traversals w)) w in
          set_traversals (start (r_dev ctx) (ResetCreate ctx) w) w) → move w w'
| MvResetEnd t tr ctx i c m :
    traversals w !! t = Some tr → reset_ctx (t_op tr) = Some ctx →
    entries w !! (r_name ctx) = Some i → ctrls w !! i = Some c → reset_active c = true → flag m = false →
    (current_state m = get_state c ∨ (get_state c = Running ∧ ∃ r, current_state m = Faulted r)) →
    w' = set_traversals (delete t (traversals w)) (set_ctrl i (set_sm m c) w) → move w w'
| MvShutdownEnd t d ctx i c inn :
    traversals w !! t = Some (mkTraversal d [] 0 (ShutdownChannels ctx)) →
    entries w !! (s_name ctx) = Some i → ctrls w !! i = Some c → get_state c = Unconfiguring → inner c = Some inn →
    w' = set_traversals (delete t (traversals w))
           (set_ctrl i (set_sm (mkSm Unconfigured (reset_active c))
                          (set_id_inner (id c) (Some (mkCtrlInner [] (ctrlr inn))) c)) w) → move w w'
| MvCreate base prchk now tmo :
    entries w !! get_name base = None →
    (∀ t, t ∈ traversals w → op_name (t_op t) ≠ Some (get_name base)) →
    w' = set_created (created w ++ [get_name base]) (set_entries (<[get_name base := next_cell w]> (entries w))
           (set_ctrl (next_cell w) (controller_new (get_name base) prchk now tmo) w)) → move w w'
| MvRemove n i c :
    entries w !! n = Some i → ctrls w !! i = Some c →
    w' = set_entries (delete (pretty (id c)) (delete n (entries w))) w → move w w'
| MvDrop i c :
    ctrls w !! i = Some c → (get_state c = New ∨ get_state c = Unconfigured) →
    (∀ n, entries w !! n ≠ Some i) → w' = set_ctrls (delete i (ctrls w)) w → move w w'
| MvAttach n i c cid inn t s :
    entries w !! n = Some i → ctrls w !! i = Some c → get_state c = New → cid ≠ 0 →
    (∀ j c', ctrls w !! j = Some c' → ctrlr_of c' ≠ Some cid) → (∀ t, t ∈ traversals w → t_dev t ≠ cid) → tc_le (timeout_config c) t → ctrlr inn = cid →
    (s = Running ∧ w' = set_entries (<[pretty cid := i]> (entries w))
       (set_ctrl i (set_sm (mkSm s (reset_active c)) (set_tc t (set_id_inner cid (Some inn) c))) w)
     ∨ s = Faulted NamespaceInit ∧
       w' = set_ctrl i (set_sm (mkSm s (reset_active c)) (set_tc t (set_id_inner cid (Some inn) c))) w) → move w w'
| MvChanCreate d k i c ch :
    channels w !! k = None → entries w !! (pretty d) = Some i → ctrls w !! i = Some c → get_state c = Running →
    dev ch = d → is_shutdown ch = false → ctrl ch = Some i → 
    w' = set_channels (<[k := ch]> (channels w)) w → move w w'
| MvChanDestroy k : w' = set_channels (delete k (channels w)) w → move w w'
| MvChan k c c' :
    channels w !! k = Some c → chan_le c c' → w' = set_channels (<[k := c']> (channels w)) w → move w w'.

(** ** From the events to the moves *)

Ltac unst := unfold mbind, ST_bind, mret, ST_ret in *; simpl in *.

(** Case analysis along an operation that has ended well. *)
Ltac inv_st H :=
  repeat match type of H with
  | context [match ?x with _ => _ end] =>
      lazymatch x with
      | context [match _ with _ => _ end] => fail
      | _ => destruct x eqn:?; simplify_eq/=; try discriminate
      end
  end.

Lemma tc_le_refl t : tc_le t t.
Proof. by intros evt. Qed.

Lemma set_ctrl_twice i c c' w : set_ctrl i c (set_ctrl i c' w) = set_ctrl i c w.
Proof. unfold set_ctrl, set_ctrls. simpl. by rewrite insert_insert_eq. Qed.

Lemma set_ctrl_lookup i c w : ctrls (set_ctrl i c w) !! i = Some c.
Proof. simpl. by rewrite lookup_insert_eq. Qed.

Lemma get_ctrl_ok {E} i w w' c : get_ctrl (E:=E) i w = (w', Ok c) → w' = w ∧ ctrls w !! i = Some c.
Proof. unfold get_ctrl. intros H. inv_st H; done. Qed.

Lemma get_ctrl_some {E} i w c : ctrls w !! i = Some c → get_ctrl (E:=E) i w = (w, Ok c).
Proof. unfold get_ctrl. by intros ->. Qed.

Lemma put_ok {E} i c w w' u : put_ctrl (E:=E) i c w = (w', Ok u) → w' = set_ctrl i c w.
Proof. unfold put_ctrl, ST.modify. intros. by simplify_eq. Qed.

Lemma modify_ok {E} (f : World → World) w w' u : ST.modify (E:=E) f w = (w', Ok u) → w' = f w.
Proof. unfold ST.modify. intros. by simplify_eq. Qed.

Lemma bind_ok {E A B} (m : ST World E A) (f : A → ST World E B) w w' b :
  (m ≫= f) w = (w', Ok b) → ∃ w1 a, m w = (w1, Ok a) ∧ f a w1 = (w', Ok b).
Proof. unst. destruct (m w) as [w1 [a|e|]] eqn:?; intros; simplify_eq; eauto. Qed.

Lemma bind_step {E A B} (m : ST World E A) (f : A → ST World E B) w w1 a :
  m w = (w1, Ok a) → (m ≫= f) w = f a w1.
Proof. unst. by intros ->. Qed.

Lemma on_sm_run {E} i op w c :
  ctrls w !! i = Some c →
  on_sm (E:=E) i op w = (set_ctrl i (set_sm (fst (op (state_machine c))) c) w, Ok (snd (op (state_machine c)))).
Proof.
  intros Hc. unfold on_sm. rewrite (bind_step _ _ _ _ _ (get_ctrl_some i w c Hc)).
  by destruct (op (state_machine c)).
Qed.

Lemma on_sm_ok {E} i op w w' r :
  on_sm (E:=E) i op w = (w', Ok r) →
  ∃ c m, ctrls w !! i = Some c ∧ op (state_machine c) = (m, r) ∧ w' = set_ctrl i (set_sm m c) w.
Proof.
  unfold on_sm. intros (w1 & c & (-> & Hc)%get_ctrl_ok & H)%bind_ok.
  destruct (op (state_machine c)) as [m r'] eqn:?. unst. simplify_eq. eauto.
Qed.

Lemma expect_sm_ok {E} i op w w' :
  expect (E:=E) (on_sm i op) w = (w', Ok tt) →
  ∃ c m, ctrls w !! i = Some c ∧ op (state_machine c) = (m, Ok tt) ∧ w' = set_ctrl i (set_sm m c) w.
Proof.
  unfold expect. intros (w1 & r & (c & m & Hc & Hop & ->)%on_sm_ok & H)%bind_ok.
  destruct r as [[]|e|]; unfold ST.panic in H; unst; simplify_eq. eauto.
Qed.

Lemma transition_ok to m m' r :
  transition to m = (m', Ok r) → check_transition (current_state m) to = true ∧ m' = mkSm to (flag m).
Proof. unfold transition. intros H. inv_st H; done. Qed.

Lemma transition_err to m m' e : transition to m = (m', Err e) → m' = m.
Proof. unfold transition. intros H. inv_st H; done. Qed.

Lemma set_sm_same c : set_sm (state_machine c) c = c.
Proof. by destruct c. Qed.

Lemma set_ctrl_same i c w : ctrls w !! i = Some c → set_ctrl i c w = w.
Proof. intros H. unfold set_ctrl, set_ctrls. rewrite insert_id by done. by destruct w. Qed.

Lemma lookup_ok {E} n w w' o : lookup_by_name (E:=E) n w = (w', Ok o) → w' = w ∧ o = entries w !! n.
Proof. unfold lookup_by_name. intros. by simplify_eq. Qed.

Lemma mv w w' : move w w' → rtc move w w'.
Proof. apply rtc_once. Qed.

Lemma aux_refl w : aux_eq w w.
Proof. unfold aux_eq. split_and!; try done. intros k n st H. right. right. eauto. Qed.

Lemma notify_aux evt n w : is_admin evt = false → move w (add_notified (evt, n) w).
Proof.
  intros H. apply MvAux. unfold aux_eq. simpl. split_and!; try done.
  - rewrite List.filter_app. simpl. rewrite H. by rewrite app_nil_r.
  - intros k m st Hk. right. right. eauto.
Qed.

Lemma fault_moves {E} i r w w' :
  expect (E:=E) (on_sm i (transition (Faulted r))) w = (w', Ok tt) → rtc move w w'.
Proof.
  intros (c & m & Hc & (Ht & ->)%transition_ok & ->)%expect_sm_ok. apply mv. by eapply MvFault.
Qed.

Lemma populate_moves {E} ns a i w w' b :
  populate_namespaces (E:=E) ns a i w = (w', Ok b) → rtc move w w'.
Proof.
  unfold populate_namespaces. intros (w1 & c & (-> & Hc)%get_ctrl_ok & H)%bind_ok.
  destruct (inner c) as [inn|] eqn:Hi; [|done].
  apply bind_ok in H as (w1 & [] & Hw1%put_ok & H).
  apply (rtc_l _ _ w1); [by eapply MvNs|].
  apply bind_ok in H as (w2 & [] & Hf & H). transitivity w2.
  { destruct a; cbn [negb] in Hf; [by unst; simplify_eq|by eapply fault_moves]. }
  apply bind_ok in H as (w3 & [] & Hn & H). unst. simplify_eq.
  destruct (negb b && _); [|by simplify_eq].
  unfold notify_listeners, ST.modify in Hn. simplify_eq. apply mv. by apply notify_aux.
Qed.

Lemma aer_moves {E} d s et ei ns a w w' :
  aer_cb (E:=E) d s et ei ns a w = (w', Ok tt) → rtc move w w'.
Proof.
  unfold aer_cb. intros H. destruct (negb s); [by unst; simplify_eq|].
  destruct (_ && _); [|by unst; simplify_eq].
  apply bind_ok in H as (w1 & o & (-> & ->)%lookup_ok & H).
  destruct (entries w !! _) as [i|]; [|by unst; simplify_eq].
  apply bind_ok in H as (w1 & b & Hp & H). unst. simplify_eq. by eapply populate_moves.
Qed.

Lemma on_tc_ok {E A} i (f : TimeoutConfig → TimeoutConfig * A) w w' a :
  on_tc (E:=E) i f w = (w', Ok a) →
  ∃ c t, ctrls w !! i = Some c ∧ f (timeout_config c) = (t, a) ∧ w' = set_ctrl i (set_tc t c) w.
Proof.
  unfold on_tc. intros (w1 & c & (-> & Hc)%get_ctrl_ok & H)%bind_ok.
  destruct (f (timeout_config c)) as [t b] eqn:?. unst. simplify_eq. eauto.
Qed.

Lemma destroy_tc_le t : tc_le t (fst (start_device_destroy t)).
Proof. unfold start_device_destroy. destruct (destroy_in_progress t) eqn:?; intros []; simpl; auto; congruence. Qed.

Lemma reset_moves cb n i w w' :
  named w n → entries w !! n = Some i → reset cb i w = (w', Ok tt) → rtc move w w'.
Proof.
  unfold reset. intros Hn He (w1 & c & (-> & Hc)%get_ctrl_ok & H)%bind_ok.
  destruct (can_shut (get_state c)) eqn:Hs; [|by destruct (get_state c)].
  assert (H' : (r ← on_sm i (set_flag_exclusively ResetActive);
      match r with
      | Ok _ => start_traversal i (λ d, ResetDestroy (mkResetCtx (name c) cb d false))
      | _ => ST.fail (ResetDispatch EBUSY)
      end) w = (w', Ok tt)) by (by destruct (get_state c)). clear H.
  apply bind_ok in H' as (w1 & r & (c' & m & Hc' & Hop & ->)%on_sm_ok & H). simplify_eq.
  unfold set_flag_exclusively in Hop. destruct (flag (state_machine c)) eqn:Hf; simplify_eq; try done.
  unfold start_traversal in H.
  apply bind_ok in H as (w2 & c2 & (-> & Hc2)%get_ctrl_ok & H). rewrite set_ctrl_lookup in Hc2. simplify_eq/=.
  destruct (inner c) as [inn|] eqn:Hi; [|done].
  unfold traverse_io_channels, ST.modify in H. simplify_eq. apply mv. by eapply MvResetBegin.
Qed.

(** A reset that is refused changes nothing. *)
Lemma reset_refused cb i w w' e : reset cb i w = (w', Err e) → w' = w ∧ e = ResetDispatch EBUSY.
Proof.
  unfold reset. destruct (ctrls w !! i) as [c|] eqn:Hc.
  2:{ unfold get_ctrl. unst. by rewrite Hc. }
  rewrite (bind_step _ _ _ _ _ (get_ctrl_some i w c Hc)).
  destruct (can_shut (get_state c)) eqn:Hs.
  2:{ intros H. by destruct (get_state c); unfold ST.fail in H; simplify_eq. }
  intros H. assert (H' : (r ← on_sm i (set_flag_exclusively ResetActive);
      match r with
      | Ok _ => start_traversal i (λ d, ResetDestroy (mkResetCtx (name c) cb d false))
      | _ => ST.fail (ResetDispatch EBUSY)
      end) w = (w', Err e)) by (by destruct (get_state c)). clear H.
  rewrite (bind_step _ _ _ _ _ (on_sm_run i _ w c Hc)) in H'. unfold set_flag_exclusively in H'.
  destruct (flag (state_machine c)); simpl in H'.
  - unfold ST.fail in H'. simplify_eq. by rewrite set_sm_same, set_ctrl_same.
  - unfold start_traversal in H'.
    rewrite (bind_step _ _ _ _ _ (get_ctrl_some i _ _ (set_ctrl_lookup i _ w))) in H'.
    simpl in H'. by destruct (inner c).
Qed.

Lemma can_shut_transition s : check_transition s Unconfiguring = can_shut s.
Proof. by destruct s. Qed.

Lemma shutdown_moves cb n i w w' :
  named w n → entries w !! n = Some i → shutdown cb i w = (w', Ok tt) → rtc move w w'.
Proof.
  unfold shutdown. intros Hn He (w1 & r & (c & m & Hc & Hop & ->)%on_sm_ok & H)%bind_ok.
  destruct r as [[]|e|]; [|done..].
  apply transition_ok in Hop as [Ht ->]. rewrite can_shut_transition in Ht.
  apply bind_ok in H as (w1 & b & (c1 & t & Hc1 & Hd & ->)%on_tc_ok & H).
  rewrite set_ctrl_lookup in Hc1. simplify_eq/=.
  apply bind_ok in H as (w1 & c2 & (-> & Hc2)%get_ctrl_ok & H).
  rewrite set_ctrl_lookup in Hc2. simplify_eq/=.
  unfold start_traversal in H. apply bind_ok in H as (w1 & c3 & (-> & Hc3)%get_ctrl_ok & H).
  rewrite set_ctrl_lookup in Hc3. simplify_eq/=.
  destruct (inner c) as [inn|] eqn:Hi; [|done].
  apply modify_ok in H as ->. apply mv. rewrite set_ctrl_twice.
  eapply (MvShutdownBegin _ _ i c inn n t cb); try done.
  pose proof (destroy_tc_le (timeout_config c)) as Hle. by rewrite Hd in Hle.
Qed.

Lemma shutdown_refused cb i w w' e : shutdown cb i w = (w', Err e) → w' = w.
Proof.
  unfold shutdown. destruct (ctrls w !! i) as [c|] eqn:Hc.
  2:{ unfold on_sm, get_ctrl. unst. by rewrite Hc. }
  rewrite (bind_step _ _ _ _ _ (on_sm_run i _ w c Hc)). unfold transition.
  destruct (check_transition _ _); simpl.
  - pose proof (set_ctrl_lookup i (set_sm (mkSm Unconfiguring (flag (state_machine c))) c) w) as Hc1.
    generalize dependent (set_ctrl i (set_sm (mkSm Unconfiguring (flag (state_machine c))) c) w). intros w1 Hc1.
    unfold on_tc, start_traversal. unst. unfold get_ctrl at 1. rewrite Hc1. simpl.
    destruct (start_device_destroy _) as [t b]. unfold put_ctrl, ST.modify, get_ctrl, traverse_io_channels, ST.modify.
    simpl. do 2 (rewrite lookup_insert_eq; simpl). destruct (inner c); unfold ST.panic; intros; simplify_eq.
  - unfold ST.fail. intros. simplify_eq. by rewrite set_sm_same, set_ctrl_same.
Qed.

Lemma start_moves {E} d op w w' u :
  op_name op = None → traverse_io_channels (E:=E) d op w = (w', Ok u) → rtc move w w'.
Proof. intros Hop H%modify_ok. apply mv. by eapply (MvStart _ _ d op). Qed.

Lemma aux_moves w w' :
  ctrls w' = ctrls w → created w' = created w → entries w' = entries w → channels w' = channels w →
  traversals w' = traversals w → notified w' = notified w → creates w' = creates w → move w w'.
Proof.
  intros ????? Hn Hc. apply MvAux. unfold aux_eq. split_and!; try done; [by rewrite Hn|].
  rewrite Hc. intros k n st Hk. right. right. eauto.
Qed.

Lemma hot_remove_moves cb i w w' : hot_remove cb i w = (w', Ok tt) → rtc move w w'.
Proof.
  unfold hot_remove. intros (w1 & c & (-> & Hc)%get_ctrl_ok & H)%bind_ok.
  destruct (inner c) as [inn|]; [|done].
  apply bind_ok in H as (w1 & [] & Hf%modify_ok & H). subst w1.
  eapply rtc_l; [|by eapply start_moves, H]. by apply aux_moves.
Qed.

Lemma hot_remove_fine cb i w w' e : hot_remove cb i w ≠ (w', Err e).
Proof.
  unfold hot_remove, get_ctrl. unst. destruct (ctrls w !! i) as [c|]; [|done]. by destruct (inner c).
Qed.

Lemma io_stats_moves k i w w' r : get_io_stats k i w = (w', r) → r ≠ Panicked → rtc move w w'.
Proof.
  unfold get_io_stats, get_ctrl, ST.fail. unst. destruct (ctrls w !! i) as [c|] eqn:Hc; [|by intros; simplify_eq].
  case_bool_decide; [by intros; simplify_eq|].
  unfold start_traversal, get_ctrl, ST.panic. unst. rewrite Hc. destruct (inner c) as [inn|]; [|by intros; simplify_eq].
  intros Hs ?. destruct r as [[]|e|]; [|by unfold traverse_io_channels, ST.modify in Hs..].
  by eapply start_moves, Hs.
Qed.

Lemma reset_cb_tc_le {E} now b t t' : reset_cb (E:=E) now b t = Ok t' → tc_le t t'.
Proof.
  unfold reset_cb. destruct b; [|destruct (reset_attempts t =? 0)]; simpl;
    destruct (reset_in_progress t); intros; simplify_eq; by intros [].
Qed.

Lemma invoke_moves now cb b w w' : invoke now cb b w = (w', Ok tt) → rtc move w w'.
Proof.
  unfold invoke. intros H. destruct cb as [i|i|k|k].
  - destruct (ctrls w !! i) as [c|] eqn:Hc; [|done].
    destruct (reset_cb now b (timeout_config c)) as [t|e|] eqn:Hr; simplify_eq.
    apply (rtc_l _ _ (set_ctrl i (set_tc t c) w)); [|by apply mv, aux_moves].
    eapply MvTc; [exact Hc|by eapply reset_cb_tc_le|done].
  - destruct (ctrls w !! i) as [c|] eqn:Hc; simplify_eq. apply mv. by apply aux_moves.
  - simplify_eq. apply mv. by apply aux_moves.
  - destruct (destroys w !! k) as [d|] eqn:Hc; simplify_eq. apply mv. by apply aux_moves.
Qed.

Lemma complete_reset_moves now ctx st t tr w w' :
  traversals w !! t = Some tr → reset_ctx (t_op tr) = Some ctx →
  _complete_reset now ctx st (set_traversals (delete t (traversals w)) w) = (w', Ok tt) → rtc move w w'.
Proof.
  intros Ht Hctx. unfold _complete_reset. intros (w1 & o & (-> & ->)%lookup_ok & H)%bind_ok. simpl in H.
  destruct (entries w !! r_name ctx) as [i|] eqn:He.
  - apply bind_ok in H as (w1 & [] & H1 & H).
    transitivity w1; [|by eapply invoke_moves].
    apply bind_ok in H1 as (w2 & [] & (c & m & Hc & Hop & ->)%expect_sm_ok & H1). simpl in Hc.
    unfold clear_flag_exclusively in Hop. destruct (flag (state_machine c)) eqn:Hf; simplify_eq.
    destruct (negb (st =? 0)).
    + apply bind_ok in H1 as (w2 & r & (c' & m & Hc' & Hop & ->)%on_sm_ok & H1). unst. simplify_eq.
      rewrite lookup_insert_eq in Hc'. simplify_eq/=. rewrite set_ctrl_twice. apply mv.
      unfold transition_checked, transition in Hop. simpl in Hop.
      destruct (decide (current_state (state_machine c) = Running)) as [Hr|Hr];
        [rewrite bool_decide_true in Hop by done; rewrite Hr in Hop|rewrite bool_decide_false in Hop by done];
        simpl in Hop; simplify_eq;
        (eapply (MvResetEnd _ _ t tr ctx i c _); try done); [done|right; by eauto|done|by left].
    + unst. simplify_eq. apply mv. eapply (MvResetEnd _ _ t tr ctx i c); try done; [done|by left].
  - apply bind_ok in H as (w1 & [] & H1 & H). unst. simplify_eq.
    eapply rtc_l; [by eapply MvEnd|]. by eapply invoke_moves.
Qed.

Lemma shutdown_done_moves now st d ctx t w w' :
  traversals w !! t = Some (mkTraversal d [] st (ShutdownChannels ctx)) →
  _shutdown_channels_done now st ctx (set_traversals (delete t (traversals w)) w) = (w', Ok tt) → rtc move w w'.
Proof.
  intros Ht. unfold _shutdown_channels_done. intros (w1 & o & (-> & ->)%lookup_ok & H)%bind_ok. simpl in H.
  destruct (entries w !! s_name ctx) as [i|] eqn:He; [|done].
  destruct (Z.eqb_spec st 0) as [->|Hst]; simpl in H.
  2:{ eapply rtc_l; [by eapply MvEnd|]. by eapply fault_moves. }
  apply bind_ok in H as (w1 & c & (-> & Hc)%get_ctrl_ok & H). simpl in Hc.
  destruct (inner c) as [inn|] eqn:Hi; cycle 1.
  { unfold clear_namespaces, get_ctrl in H. unst. rewrite Hc in H. simpl in H. by rewrite Hi in H. }
  apply bind_ok in H as (w1 & [] & ->%modify_ok & H).
  apply bind_ok in H as (w1 & [] & Hcl & H). unfold clear_namespaces in Hcl.
  apply bind_ok in Hcl as (w2 & c' & (-> & Hc')%get_ctrl_ok & Hcl). simpl in Hc'. simplify_eq.
  rewrite Hi in Hcl. apply put_ok in Hcl as ->.
  apply bind_ok in H as (w1 & [] & (c1 & m & Hc1 & (Htr & ->)%transition_ok & ->)%expect_sm_ok & H).
  rewrite set_ctrl_lookup in Hc1. simplify_eq/=. rewrite set_ctrl_twice in H.
  assert (Hs : get_state c = Unconfiguring) by (unfold get_state; by destruct (current_state (state_machine c))).
  eapply rtc_l; [by eapply MvShutdownEnd|].
  eapply rtc_l; [|by eapply invoke_moves, H]. by apply aux_moves.
Qed.

Lemma advance_moves now e t w w' : advance now e t w = (w', Ok tt) → rtc move w w'.
Proof.
  unfold advance. destruct (traversals w !! t) as [[d rest st op]|] eqn:Ht; [|intros; by simplify_eq]. simpl.
  destruct rest as [|k rest].
  - destruct op as [ctx|ctx|ctx|ctx|k acc]; simpl.
    + unfold _reset_destroy_channels_done. destruct (Z.eqb_spec st 0) as [->|]; simpl.
      * destruct (shutdown_in_progress ctx); [intros; unst; simplify_eq; apply mv; by eapply MvEnd|].
        intros ->%modify_ok. apply mv. by eapply MvResetMid.
      * by eapply complete_reset_moves.
    + by eapply complete_reset_moves.
    + intros. unst. simplify_eq. apply mv. by eapply MvEnd.
    + by eapply shutdown_done_moves.
    + unfold account_channel_stats_done. intros ->%modify_ok.
      eapply rtc_l; [by eapply MvEnd|]. apply mv. by apply aux_moves.
  - destruct (channels w !! k) as [c|] eqn:Hk.
    + destruct (visit_channel e op c) as [[c' op'] rc] eqn:Hv. intros. simplify_eq. apply mv. by eapply MvVisit.
    + intros. simplify_eq. apply mv. by eapply MvSkip.
Qed.

Lemma set_reset_tc_le a b d t : tc_le t (set_reset a b d t).
Proof. by intros []. Qed.

Lemma try_ok {E E' A} (m : ST World E A) w w' r :
  ST.try (E':=E') m w = (w', Ok r) → m w = (w', r) ∧ r ≠ Panicked.
Proof. unfold ST.try. destruct (m w) as [w1 [a|e|]]; intros; by simplify_eq. Qed.

Lemma release_moves i w w' :
  (c ← get_ctrl i;
   let t := timeout_config c in
   if reset_in_progress t
   then put_ctrl i (set_tc (set_reset false (reset_attempts t) (next_reset_time t) t) c)
   else ST.panic) w = ((w', Ok tt) : World * outcome Fault unit) → rtc move w w'.
Proof.
  intros (w1 & c & (-> & Hc)%get_ctrl_ok & H)%bind_ok. simpl in H.
  destruct (reset_in_progress _); [|done]. apply put_ok in H as ->. apply mv.
  eapply MvTc; [done|apply set_reset_tc_le|done].
Qed.

Lemma reset_controller_moves now i w w' : reset_controller now i w = (w', Ok tt) → rtc move w w'.
Proof.
  unfold reset_controller. intros (w1 & c & (-> & Hc)%get_ctrl_ok & H)%bind_ok. cbv zeta in H.
  destruct (negb _).
  { apply put_ok in H as ->. apply mv. eapply MvTc; [done|apply set_reset_tc_le|done]. }
  destruct (0 <? _); [|by eapply release_moves].
  apply bind_ok in H as (w1 & [] & Hw1%put_ok & H).
  apply (rtc_l _ _ w1); [eapply MvTc; [done|apply set_reset_tc_le|done]|].
  apply bind_ok in H as (w2 & o & (-> & ->)%lookup_ok & H).
  destruct (entries w1 !! name c) as [j|] eqn:He; [|by eapply release_moves].
  apply bind_ok in H as (w2 & r & (Hr & Hp)%try_ok & H).
  destruct r as [[]|e|]; [|apply reset_refused in Hr as [-> _]; by eapply release_moves|done].
  unst. simplify_eq. eapply reset_moves; [|done..].
  right. left. eexists i, _. simpl. rewrite lookup_insert_eq. split; [done|]. done.
Qed.

Lemma timeout_moves now q rc i w w' : io_timeout_handler now q rc i w = (w', Ok tt) → rtc move w w'.
Proof.
  unfold io_timeout_handler. intros (w1 & c & (-> & Hc)%get_ctrl_ok & H)%bind_ok. cbv zeta in H.
  match type of H with (match ?x with _ => _ end) _ = _ => destruct x end.
  - destruct (q && _); [by unst; simplify_eq|by eapply reset_controller_moves].
  - by eapply reset_controller_moves.
  - by unst; simplify_eq.
  - unfold timeout_hot_remove in H. apply bind_ok in H as (w1 & c1 & (-> & Hc1)%get_ctrl_ok & H).
    apply bind_ok in H as (w2 & o & (-> & ->)%lookup_ok & H).
    destruct (entries w !! _) as [j|]; [|by unst; simplify_eq].
    apply bind_ok in H as (w2 & r & (Hr & Hp)%try_ok & H). unst. simplify_eq.
    destruct r as [[]|e|]; [by eapply hot_remove_moves|by apply hot_remove_fine in Hr|done].
Qed.

Lemma set_action_moves {E} a i w w' u : set_action (E:=E) a i w = (w', Ok u) → rtc move w w'.
Proof.
  unfold set_action. intros (c & t & Hc & Ht & ->)%on_tc_ok. simplify_eq. apply mv.
  eapply MvTc; [done| |done]. by intros [].
Qed.

(** One way of polling the admin queue: the flag of the event is cleared and
    the event is sent, or nothing is sent. *)
Lemma poll_event_moves evt (f : TimeoutConfig → TimeoutConfig * bool) i w w1 b w' c :
  (∀ t, tc_le t (fst (f t)) ∧ (snd (f t) = true → armed evt t = true ∧ armed evt (fst (f t)) = false)) →
  on_tc (E:=Fault) i f w = (w1, Ok b) → ctrls w !! i = Some c →
  (if b then notify_listeners (E:=Fault) evt (name c) w1 = (w', Ok tt) else w' = w1) → rtc move w w'.
Proof.
  intros Hf (c' & t & Hc' & Ht & ->)%on_tc_ok Hc H. simplify_eq.
  destruct (Hf (timeout_config c')) as [Hle Hsnd]. rewrite Ht in Hle, Hsnd. simpl in Hle, Hsnd. apply mv.
  destruct b.
  - destruct Hsnd; [done|]. apply modify_ok in H as ->. by eapply MvPoll.
  - subst w'. by eapply MvTc.
Qed.

Lemma destroy_reports t : 
  tc_le t (fst (start_device_destroy t)) ∧
  (snd (start_device_destroy t) = true → armed AdminCommandCompletionFailed t = true
     ∧ armed AdminCommandCompletionFailed (fst (start_device_destroy t)) = false).
Proof. split; [apply destroy_tc_le|]. unfold start_device_destroy. by destruct (destroy_in_progress t) eqn:E; simpl; rewrite ?E. Qed.

Lemma failed_reports b t : 
  tc_le t (fst (report_failed b t)) ∧
  (snd (report_failed b t) = true → armed AdminQNoticeCtrlFailed t = true
     ∧ armed AdminQNoticeCtrlFailed (fst (report_failed b t)) = false).
Proof.
  unfold report_failed. destruct b, (report_failed_once t) eqn:E; simpl; split; try done; intros []; simpl; auto.
Qed.

Lemma broken_reports now e t : 
  tc_le t (fst (adminq_broken_tmo now e t)) ∧
  (snd (adminq_broken_tmo now e t) = true → armed AdminQBroken t = true
     ∧ armed AdminQBroken (fst (adminq_broken_tmo now e t)) = false).
Proof.
  unfold adminq_broken_tmo. destruct (negb _); simpl; [by split; [apply tc_le_refl|]|].
  destruct (adminq_broken_ts t) eqn:?; simpl; [|by split; [intros []|]].
  destruct (_ <=? _); simpl; [by split; [apply tc_le_refl|]|].
  destruct (adminq_broken_report t) eqn:E; simpl; [|by split; [apply tc_le_refl|]].
  split; [|done]. by intros []; simpl; auto.
Qed.

Lemma poll_moves now r f i w w' a : nvme_poll_adminq now r f i w = (w', Ok a) → rtc move w w'.
Proof.
  unfold nvme_poll_adminq. destruct (r <? 0); [|intros; unst; by simplify_eq].
  intros (w0 & c & (-> & Hc)%get_ctrl_ok & H)%bind_ok.
  apply bind_ok in H as (w1 & b & H1 & H). apply bind_ok in H as (w2 & [] & H & H2).
  unfold mret, ST_ret in H2. simplify_eq.
  destruct b.
  { apply bind_ok in H as (w2 & o & (-> & ->)%lookup_ok & H). destruct (entries w1 !! _); [|done].
    eapply poll_event_moves; [apply destroy_reports|exact H1|done|]. done. }
  transitivity w1.
  { eapply (poll_event_moves AdminCommandCompletionFailed); [apply destroy_reports|exact H1|done|]. done. }
  assert (Hc1 : ∃ c1, ctrls w1 !! i = Some c1 ∧ name c1 = name c).
  { apply on_tc_ok in H1 as (c' & t & Hc' & _ & ->). simplify_eq. eexists. rewrite set_ctrl_lookup. by split. }
  destruct Hc1 as (c1 & Hc1 & Hn). rewrite <- Hn in H. clear H1 Hc Hn c w.
  apply bind_ok in H as (w2 & b & H1 & H). destruct b.
  { apply bind_ok in H as (w3 & o & (-> & ->)%lookup_ok & H). destruct (entries w2 !! _).
    - eapply poll_event_moves; [apply failed_reports|exact H1|done|]. done.
    - unfold mret, ST_ret in H. simplify_eq. apply on_tc_ok in H1 as (c' & t & Hc' & Ht & ->). simplify_eq.
      apply mv. eapply MvTc; [done| |done]. pose proof (failed_reports f (timeout_config c')) as [Hle _]. by rewrite Ht in Hle. }
  transitivity w2.
  { eapply (poll_event_moves AdminQNoticeCtrlFailed); [apply failed_reports|exact H1|done|]. done. }
  assert (Hc2 : ∃ c2, ctrls w2 !! i = Some c2 ∧ name c2 = name c1).
  { apply on_tc_ok in H1 as (c' & t & Hc' & _ & ->). simplify_eq. eexists. rewrite set_ctrl_lookup. by split. }
  destruct Hc2 as (c2 & Hc2 & Hn). rewrite <- Hn in H. clear H1 Hc1 Hn c1 w1.
  apply bind_ok in H as (w3 & b & H1 & H).
  destruct b; [|unfold mret, ST_ret in H; simplify_eq; by eapply (poll_event_moves AdminQBroken); [apply broken_reports|exact H1|done|]].
  apply bind_ok in H as (w4 & o & (-> & ->)%lookup_ok & H). destruct (entries w3 !! _).
  - eapply poll_event_moves; [apply broken_reports|exact H1|done|]. done.
  - unfold mret, ST_ret in H. simplify_eq. apply on_tc_ok in H1 as (c' & t & Hc' & Ht & ->). simplify_eq.
    apply mv. eapply MvTc; [done| |done]. pose proof (broken_reports now (Z.abs r) (timeout_config c')) as [Hle _]. by rewrite Ht in Hle.
Qed.

Lemma remove_moves n w w' r : remove_by_name n w = (w', r) → r ≠ Panicked → rtc move w w'.
Proof.
  unfold remove_by_name. destruct (entries w !! n) as [i|] eqn:He; [|by intros; simplify_eq].
  unfold get_ctrl. unst. destruct (ctrls w !! i) as [c|] eqn:Hc; [|by intros; simplify_eq].
  unfold get_id. destruct (_ && _); unfold ST.panic, ST.modify; unst; intros; simplify_eq.
  apply mv. by eapply MvRemove.
Qed.

Lemma destroy_remove_moves {E} k d w w' u : destroy_remove (E:=E) k d w = (w', Ok u) → rtc move w w'.
Proof.
  unfold destroy_remove. intros (w1 & r & (Hr & Hp)%try_ok & H)%bind_ok.
  transitivity w1; [by eapply remove_moves|].
  apply bind_ok in H as (w2 & c & (-> & Hc)%get_ctrl_ok & H).
  apply bind_ok in H as (w2 & [] & Hn%modify_ok & H). subst w2.
  apply (rtc_l _ _ (add_notified (DeviceRemoved, name c) w1)); [by apply notify_aux|].
  apply modify_ok in H as ->. apply mv. by apply aux_moves.
Qed.

Lemma destroy_begin_moves n k w w' r :
  named w n → destroy_begin n k w = (w', r) → r ≠ Panicked → rtc move w w'.
Proof.
  intros Hn. unfold destroy_begin. unfold lookup_by_name. unst.
  destruct (entries w !! n) as [i|] eqn:He; [|unfold ST.fail; by intros; simplify_eq].
  unfold get_ctrl at 1. destruct (ctrls w !! i) as [c|] eqn:Hc; [|by intros; simplify_eq].
  case_bool_decide.
  - unfold ST.with_err. destruct (shutdown (CbDestroy k) i w) as [w1 [[]|e|]] eqn:Hs; simpl; intros Heq ?.
    + unfold set_destroy, ST.modify in Heq. simplify_eq. eapply rtc_r; [by eapply shutdown_moves|by apply aux_moves].
    + simplify_eq. by apply shutdown_refused in Hs as ->.
    + by simplify_eq.
  - intros Hd ?. destruct r as [u|e|]; [by eapply destroy_remove_moves| |done].
    exfalso. revert Hd. unfold destroy_remove. unst. unfold ST.try.
    destruct (remove_by_name n w) as [w1 [x|x|]]; simpl; try done;
      unfold get_ctrl; destruct (ctrls w1 !! i); try done.
Qed.

Lemma not_referenced i k w n : referenced i k w = false → entries w !! n ≠ Some i.
Proof.
  unfold referenced. intros [[H _]%orb_false_iff _]%orb_false_iff Hn.
  apply elem_of_map_to_list, list_elem_of_In in Hn.
  assert (existsb (λ e : string * nat, bool_decide (snd e = i)) (map_to_list (entries w)) = true) as H'; [|congruence].
  apply existsb_exists. exists (n, i). split; [done|]. by apply bool_decide_eq_true.
Qed.

Lemma drop_moves {E} i w w' u :
  (∀ n, entries w !! n ≠ Some i) → drop_controller (E:=E) i w = (w', Ok u) → rtc move w w'.
Proof.
  intros Hr. unfold drop_controller. intros (w1 & c & (-> & Hc)%get_ctrl_ok & H)%bind_ok.
  destruct (get_state c) eqn:Hs; try done; apply modify_ok in H as ->; apply mv; eapply MvDrop; eauto.
Qed.

Lemma drop_fine {E} i w w' e : drop_controller (E:=E) i w ≠ (w', Err e).
Proof.
  unfold drop_controller, get_ctrl. unst. destruct (ctrls w !! i) as [c|]; [|done]. by destruct (get_state c).
Qed.

Lemma destroy_remove_fine {E} k d w w' e : destroy_remove (E:=E) k d w ≠ (w', Err e).
Proof.
  unfold destroy_remove, ST.try. unst. destruct (remove_by_name (d_name d) w) as [w1 [a|e'|]]; try done;
    unfold get_ctrl; by destruct (ctrls w1 !! d_cell d).
Qed.

Lemma destroy_resume_moves k w w' r : destroy_resume k w = (w', r) → r ≠ Panicked → rtc move w w'.
Proof.
  unfold destroy_resume, ST.gets. unst. destruct (destroys w !! k) as [d|] eqn:Hd; [|by intros; simplify_eq].
  destruct (d_pc d) as [|[]| |] eqn:Hpc; try by intros; simplify_eq.
  - intros H Hp. destruct r as [u|e|]; [by eapply destroy_remove_moves|by apply destroy_remove_fine in H|done].
  - unfold set_destroy, ST.modify, ST.fail. intros. simplify_eq. apply mv. by apply aux_moves.
  - destruct (referenced (d_cell d) k w) eqn:Href; [by intros; simplify_eq|].
    destruct (drop_controller (d_cell d) w) as [w1 [u|e|]] eqn:Hdr.
    + unfold set_destroy, ST.modify. intros. simplify_eq.
      eapply rtc_r; [eapply drop_moves; [|done]; by intros n; eapply not_referenced|by apply aux_moves].
    + by apply drop_fine in Hdr.
    + by intros; simplify_eq.
Qed.

(** No entry refers to the next cell. *)
Definition fresh_cell (w : World) : Prop := ∀ n, entries w !! n ≠ Some (next_cell w).

Lemma set_create_moves k cr w :
  named w (c_name cr) → move w (set_creates (<[k := cr]> (creates w)) w).
Proof.
  intros Hn. apply MvAux. unfold aux_eq. simpl. split_and!; try done.
  intros j n st [[-> ->]|[? Hj]]%lookup_insert_Some; [done|]. right. right. eauto.
Qed.

Lemma create_begin_moves now base prchk b k w w' r :
  quiet w (EvCreate now base prchk b k) → fresh_cell w →
  create_begin now base prchk b k w = (w', r) → r ≠ Panicked → rtc move w w'.
Proof.
  intros Hq Hf. simpl in Hq. rewrite Forall_forall in Hq. unfold create_begin, lookup_by_name, ST.gets, put_ctrl, insert_controller, ST.modify. unst.
  destruct (entries w !! get_name base) as [i|] eqn:He; [unfold ST.fail; by intros; simplify_eq|].
  set (c := controller_new _ _ _ _).
  match goal with |- (if b then _ else _) ?w2 = _ → _ => set (w1 := w2) end.
  intros H Hp. apply (rtc_l _ _ w1); [by eapply MvCreate|].
  destruct b.
  - unfold set_create, ST.modify in H. simplify_eq. apply mv, set_create_moves. left. by exists base.
  - unfold ST.try in H. destruct (remove_by_name (get_name base) w1) as [w2 [n|e|]] eqn:Hr;
      [|unfold ST.panic in H; by simplify_eq..].
    transitivity w2; [by eapply remove_moves|].
    assert (Hw2 : ∀ n, entries w2 !! n ≠ Some (next_cell w)).
    { intros m Hm. revert Hr. unfold remove_by_name. simpl. rewrite lookup_insert_eq. unfold get_ctrl. unst.
      rewrite lookup_insert_eq. unfold get_id, ST.modify. unst. intros. simplify_eq. simpl in Hm.
      rewrite !lookup_delete_Some, lookup_insert_Some in Hm. destruct Hm as (_ & ? & [[]|[_ ?]]); [done|].
      by eapply Hf. }
    destruct (drop_controller (next_cell w) w2) as [w3 [u|e|]] eqn:Hd; [|by apply drop_fine in Hd|by simplify_eq].
    unfold ST.fail in H. simplify_eq. by eapply drop_moves.
Qed.

Lemma configure_ok {E} i w w' :
  configure_timeout (E:=E) i w = (w', Ok tt) →
  ∃ c t, ctrls w !! i = Some c ∧ tc_le (timeout_config c) t ∧ w' = set_ctrl i (set_tc t c) w.
Proof.
  unfold configure_timeout. intros (w1 & o & Ho & H)%bind_ok. unfold ST.gets in Ho. simplify_eq.
  destruct (timeout_us _ =? 0); unfold set_action in H; apply on_tc_ok in H as (c & t & Hc & Ht & ->);
    simplify_eq; eexists _, _; (split_and!; [done| |done]); by intros [].
Qed.

(** Populating the namespaces of a controller that is being initialized. *)
Lemma populate_init_ok {E} ns a i c inn w w' b :
  ctrls w !! i = Some c → inner c = Some inn → namespaces inn = [] →
  populate_namespaces (E:=E) ns a i w = (w', Ok b) →
  b = a ∧ ∃ nss, w' = set_ctrl i ((if a then λ c, c else set_sm (mkSm (Faulted NamespaceInit) (reset_active c)))
                        (set_id_inner (id c) (Some (mkCtrlInner nss (ctrlr inn))) c)) w.
Proof.
  intros Hc Hi Hns. unfold populate_namespaces. intros (w1 & c' & (-> & Hc')%get_ctrl_ok & H)%bind_ok. simplify_eq.
  rewrite Hi, Hns in H. rewrite bool_decide_true in H by done.
  apply bind_ok in H as (w1 & [] & ->%put_ok & H). apply bind_ok in H as (w2 & [] & Hf & H).
  apply bind_ok in H as (w3 & [] & Hn & H). rewrite andb_false_r in Hn. unfold mret, ST_ret in H, Hn. simplify_eq.
  split; [done|]. destruct b; cbn [negb] in Hf.
  - unfold mret, ST_ret in Hf. simplify_eq. by eexists.
  - apply expect_sm_ok in Hf as (c1 & m & Hc1 & (_ & ->)%transition_ok & ->).
    rewrite set_ctrl_lookup in Hc1. simplify_eq. rewrite set_ctrl_twice. by eexists.
Qed.

Lemma attached_moves {E} n cid ns a w w' r :
  admissible w (EvAttach 0 (Some (cid, ns, a))) →
  connected_attached_cb (E:=E) n cid ns a w = (w', Ok r) → rtc move w w'.
Proof.
  intros (Ha1 & _ & Ha2). rewrite Forall_forall in Ha2. unfold connected_attached_cb. intros (w1 & o & (-> & ->)%lookup_ok & H)%bind_ok.
  destruct (entries w !! n) as [i|] eqn:He; [|done].
  apply bind_ok in H as (w1 & [] & (c & m & Hc & (Ht & ->)%transition_ok & ->)%expect_sm_ok & H).
  assert (Hs : get_state c = New) by (unfold get_state; by destruct (current_state (state_machine c))).
  apply bind_ok in H as (w1 & c1 & (-> & Hc1)%get_ctrl_ok & H). rewrite set_ctrl_lookup in Hc1. simplify_eq.
  destruct (Z.eqb_spec cid 0) as [->|Hcid]; [done|].
  apply bind_ok in H as (w1 & [] & ->%put_ok & H). rewrite set_ctrl_twice in H.
  apply bind_ok in H as (w1 & [] & (c1 & t & Hc1 & Htc & ->)%configure_ok & H).
  rewrite set_ctrl_lookup in Hc1. simplify_eq. rewrite set_ctrl_twice in H.
  apply bind_ok in H as (w1 & b & Hp & H).
  destruct (populate_init_ok ns a i _ (mkCtrlInner [] cid) _ _ _ (set_ctrl_lookup i (set_tc t (set_id_inner cid
    (Some (mkCtrlInner [] cid)) (set_sm (mkSm Initializing (flag (state_machine c))) c))) w) eq_refl eq_refl Hp)
    as (-> & nss & ->).
  rewrite set_ctrl_twice in H. cbn [timeout_config set_id_inner set_sm] in Htc. destruct a; cbn [negb] in H.
  - apply bind_ok in H as (w1 & [] & ->%modify_ok & H).
    apply bind_ok in H as (w1 & [] & (c1 & m & Hc1 & (_ & ->)%transition_ok & ->)%expect_sm_ok & H).
    cbn [ctrls set_entries set_ctrl set_ctrls] in Hc1. rewrite lookup_insert_eq in Hc1.
    unfold mret, ST_ret in H. simplify_eq.
    apply mv. eapply (MvAttach _ _ n i c cid (mkCtrlInner nss cid) t Running); try done. left. split; [done|].
    unfold set_ctrl, set_ctrls, set_entries. simpl. by rewrite insert_insert_eq.
  - unfold mret, ST_ret in H. simplify_eq.
    apply mv. eapply (MvAttach _ _ n i c cid (mkCtrlInner nss cid) t (Faulted NamespaceInit)); try done. by right.
Qed.

Lemma attached_creates {E} n cid ns a w w' r :
  connected_attached_cb (E:=E) n cid ns a w = (w', Ok r) → creates w' = creates w.
Proof.
  unfold connected_attached_cb, configure_timeout, set_action, on_tc, populate_namespaces, expect, on_sm, put_ctrl,
    insert_controller, notify_listeners, lookup_by_name, get_ctrl, ST.gets, ST.modify, ST.panic.
  unst. intros H. inv_st H; done.
Qed.

Lemma attach_cb_moves {E} k o w w' :
  admissible w (EvAttach k o) → connect_attach_cb (E:=E) k o w = (w', Ok tt) → rtc move w w'.
Proof.
  intros Ha. unfold connect_attach_cb. intros (w1 & cs & Hcs & H)%bind_ok. unfold ST.gets in Hcs. simplify_eq.
  destruct (creates w1 !! k) as [[n [st|]]|] eqn:Hk; [done| |by unst; simplify_eq].
  assert (Hn : named w1 n) by (right; right; eauto).
  destruct o as [[[cid ns] a]|].
  - apply bind_ok in H as (w2 & r & Hr & ->%modify_ok).
    eapply rtc_r; [by eapply attached_moves|]. apply set_create_moves. simpl.
    enough (creates w2 = creates w1) as Hc by (rewrite <- Hc in Hk; right; right; eauto).
    by eapply attached_creates.
  - apply modify_ok in H as ->. by apply mv, set_create_moves.
Qed.

Definition creates_named (w : World) : Prop := ∀ k n st, creates w !! k = Some (mkCreate n st) → is_name n.

Lemma create_end_moves k kd w w' r :
  creates_named w → create_end k kd w = (w', r) → r ≠ Panicked → rtc move w w'.
Proof.
  intros Hn. unfold create_end, ST.gets, ST.modify. unst.
  destruct (creates w !! k) as [[n [st|]]|] eqn:Hk; [|by intros; simplify_eq..].
  intros H Hp. eapply (rtc_l _ _ (set_creates (delete k (creates w)) w)).
  { apply MvAux. unfold aux_eq. simpl. split_and!; try done.
    intros j m st' [_ Hj]%lookup_delete_Some. right. right. eauto. }
  destruct st as [u|e|]; [|eapply destroy_begin_moves; [left; by eapply Hn|exact H|done]..].
  unfold lookup_by_name in H. simpl in H. unfold ST.panic, get_ctrl in H. unst.
  destruct (entries w !! n) as [i|]; [|by simplify_eq].
  simpl in H. destruct (ctrls w !! i) as [c|]; [|by simplify_eq].
  case_bool_decide; by simplify_eq.
Qed.

Lemma device_lookup_same {E} n w w' o : device_lookup (E:=E) n w = (w', Ok o) → w' = w.
Proof.
  unfold device_lookup, lookup_by_name, get_ctrl, namespace, ST.panic. unst. intros H. inv_st H; done.
Qed.

Lemma channel_create_moves {E} d e g k w w' r :
  channels w !! k = None → channel_create (E:=E) d e g k w = (w', Ok r) → rtc move w w'.
Proof.
  intros Hk. unfold channel_create. intros (w1 & o & (-> & ->)%lookup_ok & H)%bind_ok.
  destruct (entries w !! pretty d) as [i|] eqn:He; [|by unst; simplify_eq].
  apply bind_ok in H as (w1 & c & (-> & Hc)%get_ctrl_ok & H).
  case_bool_decide as Hs; [by unst; simplify_eq|].
  apply bind_ok in H as (w1 & ns & Hns & H). unfold namespace in Hns.
  destruct (inner c) as [inn|] eqn:Hi; [|done]. unfold mret, ST_ret in Hns. simplify_eq.
  destruct (head (namespaces inn)) as [ns|]; [|done].
  apply bind_ok in H as (w2 & o & Ho%device_lookup_same & H). subst w2.
  destruct o; [|by unst; simplify_eq]. destruct (_ || _); [by unst; simplify_eq|].
  apply bind_ok in H as (w2 & [] & Hm%modify_ok & H). unfold mret, ST_ret in H. simplify_eq. apply mv.
  eapply (MvChanCreate _ _ d k i c (mkInner d (Some Disconnected) (stats_new (ns_block_len ns)) (Some i) 0 false));
    try done.
Qed.

Lemma on_channel_moves {E} k f w w' u :
  (∀ c c', f c = Ok c' → chan_le c c') → on_channel (E:=E) k f w = (w', Ok u) → rtc move w w'.
Proof.
  intros Hf. unfold on_channel. destruct (channels w !! k) as [c|] eqn:Hk; [|by intros; simplify_eq].
  destruct (f c) as [c'|e|] eqn:Hfc; intros; simplify_eq. apply mv. eapply MvChan; eauto.
Qed.

Lemma answered_moves {E A} (m : ST World E A) w w' :
  (∀ w' r, m w = (w', r) → r ≠ Panicked → rtc move w w') →
  answered m w = (w', Ok tt) → rtc move w w'.
Proof.
  intros Hm. unfold answered. intros (w1 & r & (Hr & Hp)%try_ok & H)%bind_ok.
  unfold mret, ST_ret in H. simplify_eq. eauto.
Qed.

Lemma if_alive_moves i m w w' :
  (∀ w', m w = (w', Ok tt) → rtc move w w') → if_alive i m w = (w', Ok tt) → rtc move w w'.
Proof. unfold if_alive. destruct (ctrls w !! i); intros; by simplify_eq; eauto. Qed.

Lemma device_name_spec n : device_name n = true → is_name n.
Proof.
  unfold device_name. destruct (String.length n) as [|[|l]]; [done..|]. intros ?%bool_decide_eq_true. by eexists.
Qed.

(** The refinement: an event that ends well is a sequence of moves. *)
Lemma exec_moves ev w w' :
  admissible w ev → quiet w ev → fresh_cell w → creates_named w →
  exec ev w = (w', Ok tt) → rtc move w w'.
Proof.
  intros Ha Hq Hf Hn. destruct ev; simpl.
  - apply answered_moves. intros. by eapply create_begin_moves.
  - by apply attach_cb_moves.
  - apply answered_moves. intros. by eapply create_end_moves.
  - apply answered_moves. intros. destruct Ha. eapply destroy_begin_moves; [left; by apply device_name_spec|done..].
  - apply answered_moves. intros. by eapply destroy_resume_moves.
  - apply answered_moves. intros w1 r H ?. unfold handle_reset, lookup_by_name in H. unst.
    destruct (entries w !! n) as [i|] eqn:He; [|unfold ST.fail in H; by simplify_eq].
    destruct r as [[]|e|]; [|by apply reset_refused in H as [-> _]|done].
    eapply reset_moves; [left; by apply device_name_spec|done..].
  - apply if_alive_moves. intros. by eapply timeout_moves.
  - apply if_alive_moves. unfold command_abort_handler. destruct succeeded; intros; [by unst; simplify_eq|].
    by eapply reset_controller_moves.
  - apply if_alive_moves. intros. by eapply set_action_moves.
  - by apply aer_moves.
  - apply if_alive_moves. intros w1 (w2 & z & Hp & H)%bind_ok. unfold mret, ST_ret in H. simplify_eq.
    by eapply poll_moves.
  - apply if_alive_moves. intros w1. apply answered_moves. intros. by eapply io_stats_moves.
  - by apply advance_moves.
  - intros (w2 & z & Hp & H)%bind_ok. unfold mret, ST_ret in H. simplify_eq. by eapply channel_create_moves.
  - intros ->%modify_ok. apply mv. by eapply MvChanDestroy.
  - apply on_channel_moves. intros c c'. unfold connect_sync, chan_le.
    destruct (qpair c) as [[]|] eqn:Hqp; intros; simplify_eq; simpl; by rewrite ?Hqp.
  - apply on_channel_moves. intros. by simplify_eq.
  - apply on_channel_moves. intros c c' ?. simplify_eq. unfold discard_io. by destruct (_ =? 0).
Qed.

End NvmeFacts.
