(* ===== verification/NvmxProps.v ===== *)
(** * NVMe controllers: properties

    What the traversals of resets and shutdowns that run at the same time leave
    of the channels, and how often the errors of the admin queue are reported. *)

From stdpp Require Import pretty.
From S2P Require Import Prelude Errors IoLog DeviceEvents Nvmx NvmxController NvmxFacts.
#[local] Open Scope Z_scope.

Module NvmeProps.
Import CtrlState Channel Timeout Nvme NvmeFacts.

(** ** The invariant *)

Definition shutting (s : NvmeControllerState) : bool :=
  match s with Unconfiguring | Unconfigured | Faulted _ => true | _ => false end.

(** A cell has a device exactly when it has left the state [New]. *)
Definition cell_ok (w : World) (i : nat) (c : NvmeController) : Prop :=
  (i < next_cell w)%nat ∧ is_name (name c) ∧
  (id c = 0 ∧ inner c = None ∧ get_state c = New ∧ reset_active c = false
   ∨ id c ≠ 0 ∧ get_state c ≠ New ∧ ∃ inn, inner c = Some inn ∧ ctrlr inn = id c).

Definition entry_ok (w : World) (n : string) (i : nat) : Prop :=
  ∃ c, ctrls w !! i = Some c ∧ (name c = n ∨ n = pretty (id c) ∧ id c ≠ 0).

Definition chan_ok (ch : NvmeIoChannelInner) : Prop :=
  is_shutdown ch = true → qpair ch = None ∧ ctrl ch = None.

(** A shutdown in progress: what it has visited is shut down, and nothing is
    added because its controller is not running. *)
Definition shutdown_ok (w : World) (t : Traversal) (ctx : ShutdownCtx) : Prop :=
  is_name (s_name ctx) ∧ t_dev t ≠ 0 ∧
  (∀ k ch, channels w !! k = Some ch → dev ch = t_dev t → is_shutdown ch = true ∨ k ∈ t_rest t) ∧
  (∀ i c, ctrls w !! i = Some c → id c = t_dev t → shutting (get_state c) = true) ∧
  (∀ i c, entries w !! s_name ctx = Some i → ctrls w !! i = Some c → id c = t_dev t).

Definition reset_name (t : Traversal) : option string := r_name <$> reset_ctx (t_op t).

(** The names of the resets in progress. *)
Definition resets (w : World) : list string := omap reset_name (traversals w).

Record inv (w : World) : Prop := {
  inv_cells : ∀ i c, ctrls w !! i = Some c → cell_ok w i c;
  inv_entries : ∀ n i, entries w !! n = Some i → entry_ok w n i;
  inv_ids : ∀ i j c c', ctrls w !! i = Some c → ctrls w !! j = Some c' → id c = id c' → id c ≠ 0 → i = j;
  inv_creates : creates_named w;
  inv_chans : ∀ k ch, channels w !! k = Some ch → chan_ok ch;
  inv_down : ∀ i c k ch, ctrls w !! i = Some c → get_state c = Unconfigured →
    channels w !! k = Some ch → dev ch = id c → is_shutdown ch = true;
  inv_shutdowns : ∀ t ctx, t ∈ traversals w → t_op t = ShutdownChannels ctx → shutdown_ok w t ctx;
  inv_once : NoDup (resets w);
  inv_names : ∀ n, n ∈ resets w → is_name n;
  inv_flag : ∀ n i c, n ∈ resets w → entries w !! n = Some i → ctrls w !! i = Some c → reset_active c = true;
}.

(** *** Names *)

Definition is_digit (a : Ascii.ascii) : bool :=
  let n := Ascii.N_of_ascii a in (48 <=? n)%N && (n <=? 57)%N.

Fixpoint all_chars (p : Ascii.ascii → bool) (s : string) : bool :=
  match s with EmptyString => true | String a s => p a && all_chars p s end.

Lemma all_chars_app p s t : all_chars p (s +:+ t) = all_chars p s && all_chars p t.
Proof. induction s as [|a s IH]; simpl; [done|]. by rewrite IH, andb_assoc. Qed.

(** The decimal digits and the sign are no letters. *)
Definition is_numeral (a : Ascii.ascii) : bool := is_digit a || Ascii.eqb a (Ascii.ascii_of_N 45).

Lemma pretty_N_char_numeral x : is_numeral (pretty_N_char x) = true.
Proof. by destruct x as [|[[[[]|[]|]|[[]|[]|]|]|[[[]|[]|]|[[]|[]|]|]|]]. Qed.

Lemma pretty_N_go_numeral x s : all_chars is_numeral s = true → all_chars is_numeral (pretty_N_go x s) = true.
Proof.
  revert s. induction (N.lt_wf_0 x) as [x _ IH]; intros s Hs.
  destruct (decide (x = 0)%N) as [->|Hx]; [by rewrite pretty_N_go_0|].
  rewrite pretty_N_go_step by lia. apply IH; [by apply N.div_lt; lia|].
  simpl. by rewrite pretty_N_char_numeral.
Qed.

Lemma pretty_Z_numeral (z : Z) : all_chars is_numeral (pretty z) = true.
Proof.
  destruct z as [|p|p]; [done| |].
  - change (pretty (Z.pos p)) with (pretty (N.pos p)). unfold pretty, pretty_N. case_decide; [done|]. by apply pretty_N_go_numeral.
  - change (pretty (Z.neg p)) with ("-" +:+ pretty (N.pos p))%string. rewrite all_chars_app. simpl.
    unfold pretty, pretty_N. case_decide; [done|]. by apply pretty_N_go_numeral.
Qed.

Lemma name_not_pretty n (z : Z) : is_name n → n ≠ pretty z.
Proof.
  intros [b ->] H. pose proof (pretty_Z_numeral z) as Hz. rewrite <- H in Hz.
  unfold get_name in Hz. rewrite all_chars_app in Hz. by apply andb_true_iff in Hz as [_ ?].
Qed.

(** The cell a name refers to has that name. *)
Lemma entry_name w n i : inv w → is_name n → entries w !! n = Some i → ∃ c, ctrls w !! i = Some c ∧ name c = n.
Proof.
  intros Hi Hn (c & Hc & [?|[-> ?]])%(inv_entries w Hi); [eauto|].
  by apply (name_not_pretty _ (id c)) in Hn.
Qed.

Lemma named_name w n : inv w → named w n → is_name n.
Proof.
  intros Hi [?|[(i & c & Hc & ->)|(k & st & Hk)]]; [done| |by eapply inv_creates].
  by destruct (inv_cells w Hi i c Hc) as (_ & ? & _).
Qed.

(** The cell an address refers to has that address. *)
Lemma entry_id w (d : Z) i :
  inv w → entries w !! pretty d = Some i → ∃ c, ctrls w !! i = Some c ∧ id c = d ∧ id c ≠ 0.
Proof.
  intros Hi (c & Hc & [Hn|[Hp ?]])%(inv_entries w Hi).
  - destruct (inv_cells w Hi i c Hc) as (_ & Hname & _). rewrite Hn in Hname. by apply (name_not_pretty _ d) in Hname.
  - exists c. by apply (inj pretty) in Hp as ->.
Qed.

Lemma inv_fresh w : inv w → fresh_cell w.
Proof.
  intros Hi n (c & Hc & _)%(inv_entries w Hi). destruct (inv_cells w Hi _ c Hc) as [? _]. lia.
Qed.

(** *** Changes that keep the invariant *)

Lemma inv_same w w' :
  inv w → ctrls w' = ctrls w → created w' = created w → entries w' = entries w → channels w' = channels w →
  traversals w' = traversals w → creates_named w' → inv w'.
Proof.
  intros [] H1 H2 H3 H4 H5 H6. unfold cell_ok, entry_ok, shutdown_ok, resets, next_cell in *.
  constructor; unfold cell_ok, entry_ok, shutdown_ok, resets, next_cell; rewrite ?H1, ?H2, ?H3, ?H4, ?H5; auto.
Qed.

Lemma inv_set_ctrl w i c c' :
  inv w → ctrls w !! i = Some c → name c' = name c → id c' = id c → cell_ok w i c' →
  (shutting (get_state c) = true → shutting (get_state c') = true) →
  (get_state c' = Unconfigured → get_state c = Unconfigured
     ∨ ∀ k ch, channels w !! k = Some ch → dev ch = id c → is_shutdown ch = true) →
  (∀ n, n ∈ resets w → entries w !! n = Some i → reset_active c' = true) →
  inv (set_ctrl i c' w).
Proof.
  intros Hinv Hc Hn Hid Hok Hsh Hun Hra.
  assert (Hl : ∀ j d, <[i := c']> (ctrls w) !! j = Some d → j = i ∧ d = c' ∨ j ≠ i ∧ ctrls w !! j = Some d).
  { intros j d [[-> ->]|[? ?]]%lookup_insert_Some; auto. }
  constructor; simpl.
  - intros j d [[-> ->]|[? Hd]]%Hl; [done|]. by apply (inv_cells w Hinv).
  - intros n j (d & Hd & Hor)%(inv_entries w Hinv). destruct (decide (j = i)) as [->|].
    + exists c'. simpl. rewrite lookup_insert_eq. simplify_eq. by rewrite Hn, Hid.
    + exists d. simpl. by rewrite lookup_insert_ne.
  - intros j j' d d' [[-> ->]|[? Hd]]%Hl [[-> ->]|[? Hd']]%Hl; rewrite ?Hid; intros; [done|..];
      by eapply (inv_ids w Hinv); eauto; congruence.
  - apply (inv_creates w Hinv).
  - apply (inv_chans w Hinv).
  - intros j d k ch [[-> ->]|[? Hd]]%Hl Hs Hk Hdev; [|by eapply (inv_down w Hinv)].
    rewrite Hid in Hdev. destruct (Hun Hs) as [?|Hall]; [by eapply (inv_down w Hinv)|eauto].
  - intros t ctx Ht Hop. destruct (inv_shutdowns w Hinv t ctx Ht Hop) as (H1 & H2 & H3 & H4 & H5).
    split_and!; try done; simpl.
    + intros j d [[-> ->]|[? Hd]]%Hl; [|by eauto]. rewrite Hid. intros. eauto.
    + intros j d He [[-> ->]|[? Hd]]%Hl; [|by eauto]. rewrite Hid. eauto.
  - apply (inv_once w Hinv).
  - apply (inv_names w Hinv).
  - intros n j d Hr He [[-> ->]|[? Hd]]%Hl; [by eauto|]. by eapply (inv_flag w Hinv).
Qed.

Lemma inv_set_traversals w l :
  inv w →
  (∀ t ctx, t ∈ l → t_op t = ShutdownChannels ctx → shutdown_ok w t ctx) →
  NoDup (omap reset_name l) →
  (∀ n, n ∈ omap reset_name l → is_name n) →
  (∀ n i c, n ∈ omap reset_name l → entries w !! n = Some i → ctrls w !! i = Some c → reset_active c = true) →
  inv (set_traversals l w).
Proof.
  intros [] Hs Hn Hnm Hf. constructor; try done.
Qed.

Lemma resets_delete l t tr :
  l !! t = Some tr → NoDup (omap reset_name l) →
  NoDup (omap reset_name (delete t l)) ∧
  (∀ n, n ∈ omap reset_name (delete t l) → n ∈ omap reset_name l) ∧
  (∀ n, reset_name tr = Some n → n ∉ omap reset_name (delete t l)).
Proof.
  intros Ht. pose proof (take_drop_middle l t tr Ht) as Hl. clear Ht. rewrite delete_take_drop.
  revert Hl. generalize (take t l), (drop (S t) l). intros a b <-.
  rewrite !omap_app. simpl. destruct (reset_name tr) as [m|].
  - rewrite !NoDup_app, NoDup_cons. intros (H1 & H2 & H3 & H4). split_and!; try done.
    + intros x Hx Hx'. apply (H2 x Hx). by right.
    + intros n. rewrite !elem_of_app, elem_of_cons. tauto.
    + intros n [= ->]. rewrite elem_of_app. intros [Hx|Hx]; [|done]. apply (H2 n Hx). by left.
  - intros H. split_and!; try done. 
Qed.

Lemma inv_delete w t tr : inv w → traversals w !! t = Some tr → inv (set_traversals (delete t (traversals w)) w).
Proof.
  intros Hinv Ht. destruct (resets_delete _ t tr Ht (inv_once w Hinv)) as (H1 & H2 & _).
  apply inv_set_traversals; try done.
  - intros t' ctx Hin%list_elem_of_In Hop. apply (inv_shutdowns w Hinv); [|done].
    rewrite delete_take_drop in Hin. apply list_elem_of_In in Hin.
    rewrite <- (take_drop_middle _ _ _ Ht). set_solver.
  - intros n Hn. by apply (inv_names w Hinv), H2.
  - intros n i c Hn. apply (inv_flag w Hinv). by apply H2.
Qed.

Lemma channels_of_spec d w k ch : channels w !! k = Some ch → dev ch = d → k ∈ channels_of d w.
Proof.
  intros Hk Hd. unfold channels_of. apply list_elem_of_fmap. exists (k, ch). split; [done|].
  apply list_elem_of_In, List.filter_In. split; [by apply list_elem_of_In, elem_of_map_to_list|].
  simpl. by apply Z.eqb_eq.
Qed.

Lemma inv_start w d op : inv w → op_name op = None → inv (set_traversals (start d op w) w).
Proof.
  intros Hinv Hop. unfold start.
  assert (Hr : omap reset_name (traversals w ++ [mkTraversal d (channels_of d w) 0 op]) = resets w).
  { rewrite omap_app. unfold reset_name at 2. simpl. destruct op; simpl in *; try done; by rewrite app_nil_r. }
  apply inv_set_traversals; rewrite ?Hr; try by apply Hinv.
  intros t ctx [Ht| ->%list_elem_of_singleton]%elem_of_app Ht'; [by apply (inv_shutdowns w Hinv)|].
  simpl in Ht'. by subst op.
Qed.

(** A traversal goes on with the same operation. *)
Lemma inv_insert w t tr tr' :
  inv w → traversals w !! t = Some tr → reset_name tr' = reset_name tr →
  (∀ ctx, t_op tr' = ShutdownChannels ctx → shutdown_ok w tr' ctx) →
  inv (set_traversals (<[t := tr']> (traversals w)) w).
Proof.
  intros Hinv Ht Hn Hs.
  assert (Hr : omap reset_name (<[t := tr']> (traversals w)) = resets w).
  { pose proof (take_drop_middle _ _ _ Ht) as Hl. unfold resets. apply lookup_lt_Some in Ht.
    rewrite insert_take_drop by done. rewrite <- Hl at 3.
    rewrite !omap_app. simpl. by rewrite Hn. }
  apply inv_set_traversals; rewrite ?Hr; try by apply Hinv.
  intros t' ctx Hin Hop. apply list_elem_of_lookup in Hin as [j Hj].
  apply list_lookup_insert_Some in Hj as [(-> & <- & _)|[_ Hj]]; [by apply Hs|].
  apply (inv_shutdowns w Hinv); [by eapply list_elem_of_lookup_2|done].
Qed.

(** The channels change one at a time. *)
Lemma inv_set_channel w k ch ch' :
  inv w → channels w !! k = Some ch → dev ch' = dev ch → (is_shutdown ch = true → is_shutdown ch' = true) →
  chan_ok ch' → inv (set_channels (<[k := ch']> (channels w)) w).
Proof.
  intros Hinv Hk Hd Hs Hok.
  assert (Hl : ∀ j c, <[k := ch']> (channels w) !! j = Some c →
            ∃ c0, channels w !! j = Some c0 ∧ dev c = dev c0 ∧ (is_shutdown c0 = true → is_shutdown c = true)).
  { intros j c [[-> ->]|[? ?]]%lookup_insert_Some; eauto. }
  destruct Hinv. constructor; try done; simpl.
  - intros j c [[-> ->]|[? ?]]%lookup_insert_Some; eauto.
  - intros i c j c' Hc Hu (c0 & Hj & Hdj & Hsj)%Hl Hid. apply Hsj. eapply inv_down0; eauto. congruence.
  - intros t ctx Ht Hop. destruct (inv_shutdowns0 t ctx Ht Hop) as (H1 & H2 & H3 & H4 & H5).
    split_and!; try done. intros j c (c0 & Hj & Hdj & Hsj)%Hl Hdev. destruct (H3 j c0 Hj) as [?|?]; [congruence|auto|auto].
Qed.

Lemma visit_channel_spec e op c c' op' rc :
  visit_channel e op c = (c', op', rc) → chan_ok c →
  dev c' = dev c ∧ (is_shutdown c = true → is_shutdown c' = true) ∧ chan_ok c' ∧
  r_name <$> reset_ctx op' = r_name <$> reset_ctx op ∧
  (∀ ctx, op' = ShutdownChannels ctx → op = ShutdownChannels ctx ∧ rc = 0 ∧ is_shutdown c' = true).
Proof.
  unfold chan_ok. intros Hv Hok. destruct op; simpl in Hv.
  - unfold _reset_destroy_channels, Channel.reset in Hv. destruct (shutdown_in_progress ctx), (is_shutdown c) eqn:Hs;
      simplify_eq; split_and!; try done; simpl; rewrite ?Hs; auto; done.
  - unfold _reset_create_channels, reinitialize in Hv. destruct (is_shutdown c) eqn:Hs; simplify_eq.
    + split_and!; try done; simpl; rewrite ?Hs; auto; done.
    + repeat case_match; simplify_eq; simpl; rewrite ?Hs; split_and!; done.
  - unfold _reset_destroy_channels, Channel.reset in Hv. destruct (shutdown_in_progress ctx), (is_shutdown c) eqn:Hs;
      simplify_eq; split_and!; try done; simpl; rewrite ?Hs; auto; done.
  - unfold _shutdown_channels, Channel.shutdown, Channel.reset in Hv. simpl in Hv.
    destruct (is_shutdown c) eqn:Hs; simpl in Hv; simplify_eq; split_and!; try done; rewrite ?Hs; auto;
      intros; by simplify_eq.
  - simplify_eq. split_and!; try done.
Qed.

(** Changes of a cell that leave its device and its readiness alone. *)
Lemma inv_set_tc w i c t : inv w → ctrls w !! i = Some c → inv (set_ctrl i (set_tc t c) w).
Proof.
  intros Hinv Hc. eapply inv_set_ctrl; try done.
  - by apply (inv_cells w Hinv i c).
  - by left.
  - intros n Hn He. by apply (inv_flag w Hinv n i c).
Qed.

Lemma inv_sm w i c m :
  inv w → ctrls w !! i = Some c → current_state m ≠ New → (get_state c ≠ New) →
  (shutting (get_state c) = true → shutting (current_state m) = true) →
  (current_state m = Unconfigured → get_state c = Unconfigured
     ∨ ∀ k ch, channels w !! k = Some ch → dev ch = id c → is_shutdown ch = true) →
  (∀ n, n ∈ resets w → entries w !! n = Some i → flag m = true) →
  inv (set_ctrl i (set_sm m c) w).
Proof.
  intros Hinv Hc Hm Hnew Hs Hu Hf. eapply inv_set_ctrl; try done.
  destruct (inv_cells w Hinv i c Hc) as (H1 & H2 & [(_ & _ & ? & _)|(H3 & H4 & H5)]); [done|].
  split_and!; try done. right. by split_and!.
Qed.

Lemma inv_ns w i c inn nss :
  inv w → ctrls w !! i = Some c → inner c = Some inn →
  inv (set_ctrl i (set_id_inner (id c) (Some (mkCtrlInner nss (ctrlr inn))) c) w).
Proof.
  intros Hinv Hc Hi. eapply inv_set_ctrl; try done.
  - destruct (inv_cells w Hinv i c Hc) as (H1 & H2 & [(? & ? & ? & ?)|(H3 & H4 & inn' & ? & ?)]); [congruence|].
    split_and!; try done. right. split_and!; try done. simplify_eq. eauto.
  - by left.
  - intros n Hn He. by apply (inv_flag w Hinv n i c).
Qed.

Lemma can_shut_not_new s : can_shut s = true → s ≠ New.
Proof. by destruct s. Qed.

Lemma inv_reset_begin w i c inn n cb :
  inv w → named w n → entries w !! n = Some i → ctrls w !! i = Some c → can_shut (get_state c) = true →
  reset_active c = false → inner c = Some inn →
  inv (set_traversals (start (ctrlr inn) (ResetDestroy (mkResetCtx (name c) cb (ctrlr inn) false)) w)
         (set_ctrl i (set_sm (mkSm (get_state c) true) c) w)).
Proof.
  intros Hinv Hn He Hc Hs Hra Hi. apply named_name in Hn; [|done].
  destruct (entry_name w n i Hinv Hn He) as (c' & Hc' & Hname). assert (c' = c) as -> by congruence. subst n.
  assert (Hin : name c ∉ resets w).
  { intros Hr. pose proof (inv_flag w Hinv _ _ _ Hr He Hc). congruence. }
  assert (Hinv1 : inv (set_ctrl i (set_sm (mkSm (get_state c) true) c) w)).
  { apply inv_sm; try done; [by apply can_shut_not_new..|by left]. }
  assert (Hrs : omap reset_name (start (ctrlr inn) (ResetDestroy (mkResetCtx (name c) cb (ctrlr inn) false)) w)
                = resets w ++ [name c]) by (unfold start; by rewrite omap_app).
  apply inv_set_traversals; rewrite ?Hrs; try done.
  - intros t ctx [Ht| ->%list_elem_of_singleton]%elem_of_app Hop; [|done].
    by apply (inv_shutdowns _ Hinv1 t).
  - apply NoDup_app. split_and!; [apply Hinv|by intros x Hx ->%list_elem_of_singleton|apply NoDup_singleton].
  - intros m [Hm| ->%list_elem_of_singleton]%elem_of_app; [by apply (inv_names w Hinv)|done].
  - intros m j d [Hm| ->%list_elem_of_singleton]%elem_of_app He' Hd; [by apply (inv_flag _ Hinv1 m j d)|].
    simpl in He', Hd. simplify_eq. rewrite lookup_insert_eq in Hd. by simplify_eq.
Qed.

Lemma inv_shutdown_begin w i c inn n t cb :
  inv w → named w n → entries w !! n = Some i → ctrls w !! i = Some c → can_shut (get_state c) = true →
  inner c = Some inn →
  inv (set_traversals (start (ctrlr inn) (ShutdownChannels (mkShutdownCtx (name c) cb)) w)
         (set_ctrl i (set_tc t (set_sm (mkSm Unconfiguring (reset_active c)) c)) w)).
Proof.
  intros Hinv Hn He Hc Hs Hi. apply named_name in Hn; [|done].
  destruct (entry_name w n i Hinv Hn He) as (c' & Hc' & Hname). assert (c' = c) as -> by congruence. subst n.
  destruct (inv_cells w Hinv i c Hc) as (_ & _ & [(? & ? & ? & ?)|(Hid & _ & inn' & ? & Hd)]); [congruence|]. simplify_eq.
  set (c1 := set_tc t (set_sm (mkSm Unconfiguring (reset_active c)) c)).
  assert (Hinv1 : inv (set_ctrl i c1 w)).
  { unfold c1. rewrite <- (set_ctrl_twice i _ (set_sm (mkSm Unconfiguring (reset_active c)) c)).
    apply inv_set_tc; [|by rewrite set_ctrl_lookup].
    apply inv_sm; try done; [by apply can_shut_not_new|]. intros m Hm Hme. by apply (inv_flag w Hinv m i c). }
  assert (Hrs : omap reset_name (start (ctrlr inn) (ShutdownChannels (mkShutdownCtx (name c) cb)) w)
                = resets w) by (unfold start; rewrite omap_app; simpl; by rewrite app_nil_r).
  apply inv_set_traversals; rewrite ?Hrs; try done; try apply Hinv1.
  intros tr ctx [Ht| ->%list_elem_of_singleton]%elem_of_app Hop; [by apply (inv_shutdowns _ Hinv1 tr)|].
  simpl in Hop. simplify_eq. split_and!; simpl; try done; try congruence.
  - intros k ch Hk Hdev. right. by eapply channels_of_spec.
  - intros j d [[-> <-]|[? Hj]]%lookup_insert_Some Hidj; [done|].
    destruct (decide (j = i)) as [->|]; [done|]. exfalso. apply (inv_ids w Hinv i j c d) in Hc; try done; congruence.
  - intros j d He' Hd'. simplify_eq. rewrite lookup_insert_eq in Hd'. simplify_eq. by simpl.
Qed.

Lemma inv_visit w t d k rest st op e c c' op' rc :
  inv w → traversals w !! t = Some (mkTraversal d (k :: rest) st op) → channels w !! k = Some c →
  visit_channel e op c = (c', op', rc) →
  inv (set_channels (<[k := c']> (channels w))
         (set_traversals (<[t := mkTraversal d (if rc =? 0 then rest else []) rc op']> (traversals w)) w)).
Proof.
  intros Hinv Ht Hk Hv.
  destruct (visit_channel_spec _ _ _ _ _ _ Hv (inv_chans w Hinv k c Hk)) as (Hd & Hs & Hok & Hn & Hop).
  assert (Hinv1 : inv (set_channels (<[k := c']> (channels w)) w)) by by eapply inv_set_channel.
  eapply (inv_insert _ t _ (mkTraversal d (if rc =? 0 then rest else []) rc op')) in Hinv1; [done|done|done|].
  intros ctx Hctx. simpl in Hctx. destruct (Hop ctx Hctx) as (-> & -> & Hsd).
  assert (Hin : mkTraversal d (k :: rest) st (ShutdownChannels ctx) ∈ traversals w) by by eapply list_elem_of_lookup_2.
  destruct (inv_shutdowns _ Hinv1 _ ctx Hin eq_refl) as (H1 & H2 & H3 & H4 & H5).
  split_and!; try done. simpl in *. intros j ch Hj Hdev. destruct (H3 j ch Hj Hdev) as [?|[->|?]%elem_of_cons]; auto.
  rewrite lookup_insert_eq in Hj. simplify_eq. auto.
Qed.

Lemma inv_skip w t d k rest st op :
  inv w → traversals w !! t = Some (mkTraversal d (k :: rest) st op) → channels w !! k = None →
  inv (set_traversals (<[t := mkTraversal d rest 0 op]> (traversals w)) w).
Proof.
  intros Hinv Ht Hk. eapply inv_insert; try done. intros ctx Hop. simpl in Hop. subst op.
  assert (Hin : mkTraversal d (k :: rest) st (ShutdownChannels ctx) ∈ traversals w) by by eapply list_elem_of_lookup_2.
  destruct (inv_shutdowns _ Hinv _ ctx Hin eq_refl) as (H1 & H2 & H3 & H4 & H5).
  split_and!; try done. simpl in *. intros j ch Hj Hdev. destruct (H3 j ch Hj Hdev) as [?|[->|?]%elem_of_cons]; auto.
  congruence.
Qed.

Lemma inv_reset_mid w t d ctx :
  inv w → traversals w !! t = Some (mkTraversal d [] 0 (ResetDestroy ctx)) →
  inv (let w := set_traversals (delete t (traversals w)) w in
       set_traversals (start (r_dev ctx) (ResetCreate ctx) w) w).
Proof.
  intros Hinv Ht. cbv zeta. pose proof (inv_delete w t _ Hinv Ht) as Hinv1.
  destruct (resets_delete _ t _ Ht (inv_once w Hinv)) as (_ & Hsub & Hnot). specialize (Hnot (r_name ctx) eq_refl).
  assert (Hctx : r_name ctx ∈ resets w).
  { apply list_elem_of_omap. eexists. split; [by eapply list_elem_of_lookup_2|done]. }
  revert Hinv1 Hnot Hsub. set (w1 := set_traversals _ w). intros Hinv1 Hnot Hsub.
  assert (Hrs : omap reset_name (start (r_dev ctx) (ResetCreate ctx) w1) = resets w1 ++ [r_name ctx])
    by (unfold start; by rewrite omap_app).
  apply inv_set_traversals; rewrite ?Hrs; try done.
  - intros t' c [Hin| ->%list_elem_of_singleton]%elem_of_app Hop; [by apply (inv_shutdowns _ Hinv1 t')|done].
  - apply NoDup_app. split_and!; [apply Hinv1|by intros x Hx ->%list_elem_of_singleton|apply NoDup_singleton].
  - intros n [Hin| ->%list_elem_of_singleton]%elem_of_app; [by apply (inv_names _ Hinv1)|].
    apply (inv_names w Hinv). by apply Hctx.
  - intros n i c [Hin| ->%list_elem_of_singleton]%elem_of_app; [by apply (inv_flag _ Hinv1)|].
    by apply (inv_flag w Hinv), Hctx.
Qed.

Lemma inv_reset_end w t tr ctx i c m :
  inv w → traversals w !! t = Some tr → reset_ctx (t_op tr) = Some ctx →
  entries w !! r_name ctx = Some i → ctrls w !! i = Some c → flag m = false →
  (current_state m = get_state c ∨ (get_state c = Running ∧ ∃ r, current_state m = Faulted r)) →
  reset_active c = true →
  inv (set_traversals (delete t (traversals w)) (set_ctrl i (set_sm m c) w)).
Proof.
  intros Hinv Ht Hctx He Hc Hf Hm Hra.
  assert (Hname : is_name (r_name ctx)).
  { apply (inv_names w Hinv), list_elem_of_omap. exists tr. unfold reset_name. rewrite Hctx.
    split; [by eapply list_elem_of_lookup_2|done]. }
  assert (Hnew : get_state c ≠ New).
  { by destruct (inv_cells w Hinv i c Hc) as (_ & _ & [(_ & _ & _ & ?)|(_ & ? & _)]); [congruence|]. }
  pose proof (inv_delete w t _ Hinv Ht) as Hinv1.
  destruct (resets_delete _ t _ Ht (inv_once w Hinv)) as (_ & Hsub & Hnot).
  specialize (Hnot (r_name ctx)). unfold reset_name in Hnot at 1. rewrite Hctx in Hnot. specialize (Hnot eq_refl).
  apply (inv_sm _ i c m Hinv1); try done.
  - by destruct Hm as [->|[_ [r ->]]].
  - by destruct Hm as [->|[-> [r ->]]].
  - destruct Hm as [->|[-> [r ->]]]; [by left|done].
  - intros n Hn He'. exfalso. simpl in He'.
    assert (is_name n) as Hnn by by apply (inv_names w Hinv), Hsub.
    destruct (entry_name w n i Hinv Hnn He') as (c1 & Hc1 & Hn1).
    destruct (entry_name w _ i Hinv Hname He) as (c2 & Hc2 & Hn2). apply Hnot.
    replace (r_name ctx) with n by congruence. done.
Qed.

Lemma inv_shutdown_end w t d ctx i c inn :
  inv w → traversals w !! t = Some (mkTraversal d [] 0 (ShutdownChannels ctx)) →
  entries w !! s_name ctx = Some i → ctrls w !! i = Some c → get_state c = Unconfiguring → inner c = Some inn →
  inv (set_traversals (delete t (traversals w))
         (set_ctrl i (set_sm (mkSm Unconfigured (reset_active c))
                        (set_id_inner (id c) (Some (mkCtrlInner [] (ctrlr inn))) c)) w)).
Proof.
  intros Hinv Ht He Hc Hs Hi.
  destruct (inv_shutdowns w Hinv _ ctx (list_elem_of_lookup_2 _ _ _ Ht) eq_refl) as (_ & _ & Hch & _ & Hid).
  simpl in *. specialize (Hid i c He Hc).
  pose proof (inv_ns _ i c inn [] (inv_delete w t _ Hinv Ht) Hc Hi) as Hinv1.
  set (c1 := set_id_inner (id c) (Some (mkCtrlInner [] (ctrlr inn))) c) in *.
  change (inv (set_ctrl i (set_sm (mkSm Unconfigured (reset_active c)) c1) (set_traversals (delete t (traversals w)) w))).
  rewrite <- (set_ctrl_twice i _ c1). apply inv_sm; try done.
  - apply set_ctrl_lookup.
  - change (get_state c1) with (get_state c). congruence.
  - intros _. right. intros k ch Hk Hdev. destruct (Hch k ch Hk) as [?|[]%not_elem_of_nil]; [|done].
    unfold c1 in Hdev. simpl in Hdev. congruence.
  - intros n Hn He'. apply (inv_flag _ Hinv1 n i c1); [done..|apply set_ctrl_lookup].
Qed.

Lemma inv_create w base prchk now tmo :
  inv w → entries w !! get_name base = None →
  (∀ t, t ∈ traversals w → op_name (t_op t) ≠ Some (get_name base)) →
  inv (set_created (created w ++ [get_name base]) (set_entries (<[get_name base := next_cell w]> (entries w))
         (set_ctrl (next_cell w) (controller_new (get_name base) prchk now tmo) w))).
Proof.
  intros Hinv He Hq. set (c0 := controller_new _ _ _ _).
  assert (Hfr : ∀ i c, ctrls w !! i = Some c → i ≠ next_cell w).
  { intros i c Hc. destruct (inv_cells w Hinv i c Hc). lia. }
  constructor; simpl.
  - intros i c [[<- <-]|[? Hc]]%lookup_insert_Some.
    + split_and!; [unfold next_cell; simpl; rewrite length_app; simpl; lia|by exists base|by left].
    + destruct (inv_cells w Hinv i c Hc) as (? & ? & ?). split_and!; try done.
      unfold next_cell in *. simpl. rewrite length_app. lia.
  - intros n i [[<- <-]|[? Hn]]%lookup_insert_Some.
    + exists c0. simpl. rewrite lookup_insert_eq. auto.
    + destruct (inv_entries w Hinv n i Hn) as (c & Hc & ?). exists c. simpl.
      rewrite lookup_insert_ne by (symmetry; by eapply Hfr). auto.
  - intros i j c c' [[<- <-]|[? Hc]]%lookup_insert_Some [[<- <-]|[? Hc']]%lookup_insert_Some Hids Hnz; try done.
    by eapply (inv_ids w Hinv).
  - apply (inv_creates w Hinv).
  - apply (inv_chans w Hinv).
  - intros i c k ch [[<- <-]|[? Hc]]%lookup_insert_Some; [done|]. by apply (inv_down w Hinv i).
  - intros t ctx Ht Hop. destruct (inv_shutdowns w Hinv t ctx Ht Hop) as (H1 & H2 & H3 & H4 & H5).
    split_and!; try done; simpl.
    + intros i c [[<- <-]|[? Hc]]%lookup_insert_Some; [intros Hz; by destruct H2; rewrite <- Hz|by apply (H4 i)].
    + intros i c [[Hn <-]|[? Hc]]%lookup_insert_Some.
      * exfalso. apply (Hq t Ht). by rewrite Hop, Hn.
      * rewrite lookup_insert_ne; [by apply (H5 i)|]. destruct (inv_entries w Hinv _ _ Hc) as (c' & Hc' & _).
        symmetry. by eapply Hfr.
  - apply (inv_once w Hinv).
  - apply (inv_names w Hinv).
  - intros n i c Hn [[<- <-]|[? Hi]]%lookup_insert_Some.
    + exfalso. apply list_elem_of_omap in Hn as (t & Ht & Hr). apply (Hq t Ht). revert Hr. unfold reset_name.
      by destruct (t_op t).
    + rewrite lookup_insert_ne; [by apply (inv_flag w Hinv n i)|].
      destruct (inv_entries w Hinv _ _ Hi) as (c' & Hc' & _). symmetry. by eapply Hfr.
Qed.

Lemma inv_remove w n i c :
  inv w → entries w !! n = Some i → ctrls w !! i = Some c →
  inv (set_entries (delete (pretty (id c)) (delete n (entries w))) w).
Proof.
  intros Hinv He Hc.
  assert (Hl : ∀ m j, delete (pretty (id c)) (delete n (entries w)) !! m = Some j → entries w !! m = Some j).
  { intros m j Hm. rewrite !lookup_delete_Some in Hm. tauto. }
  destruct Hinv. constructor; try done; simpl.
  - intros m j Hm%Hl. by apply inv_entries0.
  - intros t ctx Ht Hop. destruct (inv_shutdowns0 t ctx Ht Hop) as (H1 & H2 & H3 & H4 & H5).
    split_and!; try done; simpl. intros j d Hj%Hl. by apply (H5 j).
  - intros m j d Hm Hj%Hl. by apply (inv_flag0 m j).
Qed.

Lemma inv_drop w i : inv w → (∀ n, entries w !! n ≠ Some i) → inv (set_ctrls (delete i (ctrls w)) w).
Proof.
  intros Hinv Hn.
  assert (Hl : ∀ j d, delete i (ctrls w) !! j = Some d → ctrls w !! j = Some d).
  { intros j d Hj. rewrite lookup_delete_Some in Hj. tauto. }
  destruct Hinv. constructor; try done; simpl.
  - intros j d Hj%Hl. by apply inv_cells0.
  - intros m j Hm. destruct (inv_entries0 m j Hm) as (c & Hc & ?). exists c. simpl. split; [|done].
    apply lookup_delete_Some. split; [|done]. intros ->. by apply (Hn m).
  - intros j j' d d' Hj%Hl Hj'%Hl Heq Hne. by apply (inv_ids0 j j' d d').
  - intros j d k ch Hj%Hl. by apply (inv_down0 j).
  - intros t ctx Ht Hop. destruct (inv_shutdowns0 t ctx Ht Hop) as (H1 & H2 & H3 & H4 & H5).
    split_and!; try done; simpl; intros j d; [intros Hj%Hl; by apply (H4 j)|intros Hm Hj%Hl; by apply (H5 j)].
  - intros m j d Hm Hj Hd%Hl. by apply (inv_flag0 m j).
Qed.

Lemma inv_attach w n i c cid inn t s w' :
  inv w → entries w !! n = Some i → ctrls w !! i = Some c → get_state c = New → cid ≠ 0 →
  (∀ j c', ctrls w !! j = Some c' → ctrlr_of c' ≠ Some cid) → (∀ t, t ∈ traversals w → t_dev t ≠ cid) → ctrlr inn = cid → shutting s = true ∨ s = Running →
  s ≠ Unconfigured →
  w' = set_ctrl i (set_sm (mkSm s (reset_active c)) (set_tc t (set_id_inner cid (Some inn) c))) w → inv w'.
Proof.
  intros Hinv He Hc Hnew Hcid Ha1 Ha3 Hinn Hs Hnu ->.
  set (c1 := set_sm _ _).
  destruct (inv_cells w Hinv i c Hc) as (Hlt & Hname & [(Hid & Hin & _ & Hra)|(_ & ? & _)]); [|done].
  assert (Hids : ∀ j d, ctrls w !! j = Some d → id d ≠ cid).
  { intros j d Hd Heq. destruct (inv_cells w Hinv j d Hd) as (_ & _ & [(? & _)|(_ & _ & inn' & ? & Hinn')]); [congruence|].
    apply (Ha1 j d Hd). unfold ctrlr_of. rewrite H. simpl. congruence. }
  assert (Hl : ∀ j d, <[i := c1]> (ctrls w) !! j = Some d → j = i ∧ d = c1 ∨ j ≠ i ∧ ctrls w !! j = Some d).
  { intros j d [[-> <-]|[? ?]]%lookup_insert_Some; auto. }
  constructor; simpl.
  - intros j d [[-> ->]|[? Hd]]%Hl; [|by apply (inv_cells w Hinv)]. split_and!; try done. right.
    split_and!; [done| |by exists inn]. intros Hbad. change (s = New) in Hbad. by destruct Hs; subst s.
  - intros m j (d & Hd & Hor)%(inv_entries w Hinv). destruct (decide (j = i)) as [->|].
    + exists c1. simpl. rewrite lookup_insert_eq. simplify_eq. destruct Hor as [?|[_ ?]]; [by auto|done].
    + exists d. simpl. by rewrite lookup_insert_ne.
  - intros j j' d d' [[-> ->]|[? Hd]]%Hl [[-> ->]|[? Hd']]%Hl Heq Hne; try done.
    + by destruct (Hids j' d' Hd').
    + by destruct (Hids j d Hd).
    + by eapply (inv_ids w Hinv).
  - apply (inv_creates w Hinv).
  - apply (inv_chans w Hinv).
  - intros j d k ch [[-> ->]|[? Hd]]%Hl Hu; [by destruct Hnu|by apply (inv_down w Hinv j)].
  - intros tr ctx Htr Hop. destruct (inv_shutdowns w Hinv tr ctx Htr Hop) as (H1 & H2 & H3 & H4 & H5).
    split_and!; try done; simpl.
    + intros j d [[-> ->]|[? Hd]]%Hl Hdid; [|by eauto]. by destruct (Ha3 tr Htr).
    + intros j d Hj [[-> ->]|[? Hd]]%Hl; [|by eauto]. simpl. specialize (H5 i c Hj Hc). congruence.
  - apply (inv_once w Hinv).
  - apply (inv_names w Hinv).
  - intros m j d Hm Hj [[-> ->]|[? Hd]]%Hl; [|by apply (inv_flag w Hinv m j)]. by apply (inv_flag w Hinv m i c).
Qed.

Lemma inv_add_entry w i c cid :
  inv w → ctrls w !! i = Some c → id c = cid → cid ≠ 0 → inv (set_entries (<[pretty cid := i]> (entries w)) w).
Proof.
  intros Hinv Hc Hid Hcid.
  assert (Hl : ∀ m j, is_name m → <[pretty cid := i]> (entries w) !! m = Some j → entries w !! m = Some j).
  { intros m j Hm [[<- _]|[_ ?]]%lookup_insert_Some; [by apply (name_not_pretty _ cid) in Hm|done]. }
  pose proof (inv_names w Hinv) as Hnames. destruct Hinv. constructor; try done; simpl.
  - intros m j [[<- <-]|[_ ?]]%lookup_insert_Some; [|by apply inv_entries0]. exists c. subst cid. auto.
  - intros t ctx Ht Hop. destruct (inv_shutdowns0 t ctx Ht Hop) as (H1 & H2 & H3 & H4 & H5).
    split_and!; try done; simpl. intros j d Hj. apply (H5 j). by apply Hl.
  - intros m j d Hm Hj. apply (inv_flag0 m j); [done|]. by apply Hl; [apply Hnames|].
Qed.

Lemma inv_chan_create w d k i c ch :
  inv w → entries w !! pretty d = Some i → ctrls w !! i = Some c → get_state c = Running →
  dev ch = d → is_shutdown ch = false → inv (set_channels (<[k := ch]> (channels w)) w).
Proof.
  intros Hinv He Hc Hs Hd Hsd. destruct (entry_id w d i Hinv He) as (c' & Hc' & Hid & Hnz).
  assert (c' = c) as -> by congruence. pose proof (inv_ids w Hinv) as Hids. destruct Hinv. constructor; try done; simpl.
  - intros j ch' [[<- <-]|[_ ?]]%lookup_insert_Some; [by intros ?; congruence|by eapply inv_chans0].
  - intros j c1 k' ch' Hj Hu [[<- <-]|[_ ?]]%lookup_insert_Some Hdev; [|by eapply inv_down0].
    assert (i = j) as -> by (eapply Hids; eauto; congruence). congruence.
  - intros t ctx Ht Hop. destruct (inv_shutdowns0 t ctx Ht Hop) as (H1 & H2 & H3 & H4 & H5).
    split_and!; try done; simpl. intros j ch' [[<- <-]|[_ ?]]%lookup_insert_Some Hdev; [|by eauto].
    exfalso. specialize (H4 i _ Hc' ltac:(congruence)). by rewrite Hs in H4.
Qed.

Lemma inv_chan_destroy w k : inv w → inv (set_channels (delete k (channels w)) w).
Proof.
  intros Hinv. assert (Hl : ∀ j c, delete k (channels w) !! j = Some c → channels w !! j = Some c).
  { intros j d Hj. rewrite lookup_delete_Some in Hj. tauto. }
  destruct Hinv. constructor; try done; simpl.
  - intros j c Hj%Hl. by eapply inv_chans0.
  - intros i c j ch Hi Hu Hj%Hl. by apply (inv_down0 i c j).
  - intros t ctx Ht Hop. destruct (inv_shutdowns0 t ctx Ht Hop) as (H1 & H2 & H3 & H4 & H5).
    split_and!; try done; simpl. intros j ch Hj%Hl. by apply H3.
Qed.

Lemma move_inv w w' : move w w' → inv w → inv w'.
Proof.
  intros Hm Hinv. destruct Hm.
  - destruct H as (? & ? & ? & ? & ? & _ & Hn). eapply inv_same; try done. intros k n st Hk. eapply named_name; eauto.
  - subst. by apply inv_set_tc.
  - subst. eapply inv_same; [by eapply (inv_set_tc w i c t)|done..|]. apply (inv_creates w Hinv).
  - subst. apply inv_sm; try done; [by intros Hbad; rewrite Hbad in H0|].
    intros n Hn He. by apply (inv_flag w Hinv n i c).
  - subst. by apply inv_ns.
  - subst. by eapply inv_reset_begin.
  - subst. by eapply inv_shutdown_begin.
  - subst. by apply inv_start.
  - subst. by eapply inv_skip.
  - subst. by eapply inv_visit.
  - subst. by eapply inv_delete.
  - subst. by eapply inv_reset_mid.
  - subst. by eapply inv_reset_end.
  - subst. by eapply inv_shutdown_end.
  - subst. by apply inv_create.
  - subst. by eapply inv_remove.
  - subst. by apply inv_drop.
  - destruct H7 as [[-> ->]|[-> ->]].
    + eapply (inv_add_entry (set_ctrl i _ w) i); [|apply set_ctrl_lookup|done|done].
      eapply (inv_attach w n i c cid inn t Running); eauto.
    + eapply (inv_attach w n i c cid inn t (Faulted NamespaceInit)); eauto.
  - subst. by eapply inv_chan_create.
  - subst. by apply inv_chan_destroy.
  - subst. destruct H0 as (Hd & Hs & Hc & Hq). eapply inv_set_channel; try done; [by rewrite Hs|].
    intros Hsd. rewrite Hs in Hsd. destruct (inv_chans w Hinv k c H Hsd) as [? ?]. rewrite Hc. auto.
Qed.

(** ** Runs *)

Lemma inv_empty o : inv (empty o).
Proof.
  constructor; unfold creates_named, resets; simpl; intros *; rewrite ?lookup_empty; try done;
    try apply NoDup_nil_2; by intros ?%elem_of_nil.
Qed.

Lemma exec_rtc ev w w' :
  inv w → admissible w ev → quiet w ev → exec ev w = (w', Ok tt) → rtc move w w'.
Proof. intros Hinv Ha Hq. apply exec_moves; try done; [by apply inv_fresh|by apply inv_creates]. Qed.

Lemma rtc_inv w w' : rtc move w w' → inv w → inv w'.
Proof. intros Hr. eapply rtc_invariant; [|done]. intros. by eapply move_inv. Qed.

(** Induction on a calm run, with the invariant at hand. *)
Lemma calm_run_moves evs w w' : inv w → calm_run w evs = Some w' → rtc move w w' ∧ inv w'.
Proof.
  revert w. induction evs as [|ev evs IH]; intros w Hinv H; simpl in H; [by simplify_eq|].
  destruct (_ && _) eqn:Hg; [|done]. apply andb_true_iff in Hg as [Ha%bool_decide_eq_true Hq%bool_decide_eq_true].
  destruct (exec ev w) as [w1 [[]|e|]] eqn:He; [|done..].
  pose proof (exec_rtc ev w w1 Hinv Ha Hq He) as Hm. destruct (IH w1) as [Hr ?]; [by eapply rtc_inv|done|].
  split; [by etrans|done].
Qed.

(** [Unconfigured] is final, and a cell keeps its device. *)
Lemma move_final w w' i c c' :
  inv w → move w w' → ctrls w !! i = Some c → get_state c = Unconfigured → ctrls w' !! i = Some c' →
  get_state c' = Unconfigured ∧ id c' = id c.
Proof.
  intros Hinv Hm Hc Hs Hc'.
  assert (Hsame : ctrls w !! i = Some c' → get_state c' = Unconfigured ∧ id c' = id c) by (intros; by simplify_eq).
  assert (Hset : ∀ j d d', ctrls w !! j = Some d → <[j := d']> (ctrls w) !! i = Some c' →
            (get_state d = Unconfigured → get_state d' = Unconfigured ∧ id d' = id d) →
            get_state c' = Unconfigured ∧ id c' = id c).
  { intros j d d' Hd [[-> ->]|[_ ?]]%lookup_insert_Some Hk; [simplify_eq; auto|auto]. }
  destruct Hm as [(Heq & _)|j d t Hd _ ->|j d t evt Hd _ _ _ ->|j d r Hd Ht ->|j d inn nss Hd _ ->
    |j d inn n cb _ _ Hd Hsh _ _ ->|j d inn n t cb _ _ Hd Hsh _ _ ->|d op _ ->|t d k rest st op _ _ ->
    |t d k rest st op e ch ch' op' rc _ _ _ ->|t tr _ ->|t d ctx _ ->|t tr ctx j d m _ _ _ Hd _ _ Hm ->
    |t d ctx j e inn _ _ He Hst _ ->|base prchk now tmo _ _ ->|n j d _ _ ->|j d Hd _ _ ->
    |n j d cid inn t s _ Hd Hnew _ _ _ _ _ Hw|d k j e ch _ _ _ _ _ _ _ ->|k ->|k ch ch' _ _ ->];
    simpl in Hc'; try (by apply Hsame); try (by eapply Hset; [|exact Hc'|]).
  - rewrite Heq in Hc'. auto.
  - eapply Hset; [exact Hd|exact Hc'|]. intros Hu. by rewrite Hu in Ht.
  - eapply Hset; [exact Hd|exact Hc'|]. intros Hu. by rewrite Hu in Hsh.
  - eapply Hset; [exact Hd|exact Hc'|]. intros Hu. destruct Hm as [Hm|[? _]]; [|congruence].
    split; [|done]. by rewrite <- Hu.
  - apply lookup_insert_Some in Hc' as [[<- _]|[_ ?]]; [|auto]. destruct (inv_cells w Hinv _ c Hc) as [? _]. lia.
  - apply lookup_delete_Some in Hc' as [_ ?]. auto.
  - destruct Hw as [[-> ->]|[-> ->]]; simpl in Hc'; eapply Hset; try exact Hc'; try exact Hd; congruence.
Qed.

(** Cells are not used again. *)
Lemma move_gone w w' i :
  move w w' → (i < next_cell w)%nat → ctrls w !! i = None → ctrls w' !! i = None ∧ (i < next_cell w')%nat.
Proof.
  intros Hm Hlt Hc.
  assert (Hset : ∀ j d d', ctrls w !! j = Some d → <[j := d']> (ctrls w) !! i = None ∧ (i < next_cell w)%nat).
  { intros j d d' Hd. split; [|done]. apply lookup_insert_None. split; [done|]. intros ->. congruence. }
  destruct Hm as [(H1 & H2 & _)|j d t Hd _ ->|j d t e Hd _ _ _ ->|j d r Hd _ ->|j d inn nss Hd _ ->
    |j d inn m cb _ _ Hd _ _ _ ->|j d inn m t cb _ _ Hd _ _ _ ->|d op _ ->|t d k rest st op _ _ ->
    |t d k rest st op e ch ch' op' rc _ _ _ ->|t tr _ ->|t d ctx _ ->|t tr ctx j d m _ _ _ Hd _ _ _ ->
    |t d ctx j e inn _ _ He _ _ ->|base prchk now tmo _ _ ->|m j d _ _ ->|j d Hd _ _ ->
    |m j d cid inn t s _ Hd _ _ _ _ _ _ Hw|d k j e ch _ _ _ _ _ _ _ ->|k ->|k ch ch' _ _ ->];
    simpl; try done; try (by eapply Hset).
  - unfold next_cell. by rewrite H1, H2.
  - unfold next_cell in *. simpl. rewrite length_app. split; [|lia]. apply lookup_insert_None. split; [done|lia].
  - split; [|done]. apply lookup_delete_None. auto.
  - destruct Hw as [[-> ->]|[-> ->]]; simpl; by eapply Hset.
Qed.

Lemma move_next_cell w w' i : move w w' → (i < next_cell w)%nat → (i < next_cell w')%nat.
Proof.
  intros Hm Hlt.
  destruct Hm as [(H1 & H2 & _)| | | | | | | | | | | | | |base prchk now tmo _ _ ->| | |m j d cid inn t s _ _ _ _ _ _ _ _ Hw| | |];
    subst; try done.
  - unfold next_cell. by rewrite H2.
  - unfold next_cell in *. simpl. rewrite length_app. lia.
  - by destruct Hw as [[-> ->]|[-> ->]].
Qed.

Lemma gone_stays_gone w w' i :
  rtc move w w' → (i < next_cell w)%nat → ctrls w !! i = None → ctrls w' !! i = None.
Proof.
  induction 1 as [|x y z Hxy _ IH]; intros Hlt Hc; [done|]. destruct (move_gone x y i Hxy Hlt Hc). auto.
Qed.

(** ** How often an error of the admin queue is reported *)

Definition reported (evt : DeviceEventType) (n : string) (w : World) : nat :=
  length (List.filter (λ e, bool_decide (e = (evt, n))) (notified w)).

Definition births (n : string) (w : World) : nat := length (List.filter (λ m, bool_decide (m = n)) (created w)).

Section Reports.
Context (evt : DeviceEventType) (n : string) (Hadmin : is_admin evt = true).

#[local] Abbreviation armed_cell := (λ ic : nat * NvmeController, name ic.2 = n ∧ armed evt (timeout_config ic.2) = true).

Definition armed_cells (m : gmap nat NvmeController) : nat := size (filter armed_cell m).

Definition budget (w : World) : Prop := (reported evt n w + armed_cells (ctrls w) ≤ births n w)%nat.

Lemma armed_insert m i c c' :
  m !! i = Some c → (armed_cell (i, c') → armed_cell (i, c)) →
  (armed_cells (<[i := c']> m) ≤ armed_cells m)%nat
  ∧ (armed_cell (i, c) → ¬ armed_cell (i, c') → S (armed_cells (<[i := c']> m)) ≤ armed_cells m)%nat.
Proof.
  intros Hc Himp. unfold armed_cells. rewrite map_filter_insert. case_decide as Hp.
  - split; [|done]. assert (filter armed_cell m !! i = Some c) as Hf by (apply map_lookup_filter_Some; auto).
    rewrite map_size_insert_Some by eauto. lia.
  - rewrite map_filter_delete. split; [rewrite map_size_delete; case_match; unfold Datatypes.id; lia|].
    intros Hpc _. assert (filter armed_cell m !! i = Some c) as Hf by (apply map_lookup_filter_Some; auto).
    rewrite map_size_delete_Some by eauto.
    assert (size (filter armed_cell m) ≠ 0)%nat; [|lia].
    intros Hz%map_size_empty_inv. by rewrite Hz in Hf.
Qed.

Lemma armed_fresh m i c : m !! i = None → (armed_cells (<[i := c]> m) ≤ S (armed_cells m))%nat.
Proof.
  intros Hi. unfold armed_cells. rewrite map_filter_insert. case_decide.
  - rewrite map_size_insert. case_match; unfold Datatypes.id; lia.
  - rewrite delete_id by done. lia.
Qed.

Lemma armed_delete m i : (armed_cells (delete i m) ≤ armed_cells m)%nat.
Proof. unfold armed_cells. rewrite map_filter_delete, map_size_delete. case_match; unfold Datatypes.id; lia. Qed.

Lemma reported_admin l :
  List.filter (λ e, bool_decide (e = (evt, n))) (List.filter (λ e, is_admin (fst e)) l)
  = List.filter (λ e, bool_decide (e = (evt, n))) l.
Proof.
  induction l as [|[e m] l IH]; simpl; [done|]. destruct (is_admin e) eqn:He; simpl; rewrite IH; [done|].
  rewrite bool_decide_false; [done|]. intros [= -> ->]. congruence.
Qed.

Lemma budget_set_ctrl w i c c' :
  budget w → ctrls w !! i = Some c → name c' = name c → tc_le (timeout_config c) (timeout_config c') →
  budget (set_ctrl i c' w).
Proof.
  unfold budget. intros Hb Hc Hn Hle. destruct (armed_insert (ctrls w) i c c' Hc) as [H _].
  - simpl. rewrite Hn. intros [? ?]. auto.
  - simpl. unfold reported, births in *. simpl. lia.
Qed.

(** The moves keep within the budget. *)
Lemma move_budget w w' : inv w → move w w' → budget w → budget w'.
Proof.
  intros Hinv Hm Hb.
  destruct Hm as [(H1 & H2 & _ & _ & _ & H3 & _)|j d t Hd Hle ->|j d t e Hd Hle Ha Hna ->|j d r Hd _ ->|j d inn nss Hd _ ->
    |j d inn m cb _ _ Hd _ _ _ ->|j d inn m t cb _ _ Hd _ _ Hle ->|d op _ ->|t d k rest st op _ _ ->
    |t d k rest st op e ch ch' op' rc _ _ _ ->|t tr _ ->|t d ctx _ ->|t tr ctx j d m _ _ _ Hd _ _ _ ->
    |t d ctx j e inn _ _ He _ _ ->|base prchk now tmo _ _ ->|m j d _ _ ->|j d Hd _ _ ->
    |m j d cid inn t s _ Hd _ _ _ _ Hle _ Hw|d k j e ch _ _ _ _ _ _ _ ->|k ->|k ch ch' _ _ ->]; try exact Hb.
  - unfold budget, reported, births in *. rewrite H1, H2. rewrite <- reported_admin, H3, reported_admin. done.
  - eapply budget_set_ctrl; done.
  - unfold budget in *. unfold reported, births in *. simpl in *. rewrite List.filter_app, length_app. simpl.
    destruct (armed_insert (ctrls w) j d (set_tc t d) Hd) as [Hw Hs]; [simpl; intros []; auto|].
    case_bool_decide; simplify_eq; simpl in *; [|lia].
    specialize (Hs ltac:(done)). assert (¬ (name d = n ∧ armed evt t = true)) as Hno by (intros [_ ?]; congruence).
    specialize (Hs Hno). lia.
  - eapply budget_set_ctrl; try done. apply tc_le_refl.
  - eapply budget_set_ctrl; try done. apply tc_le_refl.
  - eapply (budget_set_ctrl w); try done. apply tc_le_refl.
  - eapply (budget_set_ctrl w); done.
  - eapply (budget_set_ctrl w); try done. apply tc_le_refl.
  - eapply (budget_set_ctrl w); try done. apply tc_le_refl.
  - unfold budget, reported, births in *. simpl. rewrite List.filter_app, length_app. simpl.
    assert (ctrls w !! next_cell w = None) as Hno.
    { destruct (ctrls w !! next_cell w) as [c|] eqn:Hc; [|done]. destruct (inv_cells w Hinv _ c Hc). lia. }
    case_bool_decide as Hn; simpl.
    + pose proof (armed_fresh (ctrls w) (next_cell w) (controller_new (get_name base) prchk now tmo) Hno). lia.
    + unfold armed_cells in *. rewrite map_filter_insert. rewrite decide_False by (by intros [? _]).
      rewrite delete_id by done. lia.
  - unfold budget in *. simpl. pose proof (armed_delete (ctrls w) j). unfold reported, births in *. simpl. lia.
  - destruct Hw as [[-> ->]|[-> ->]]; eapply (budget_set_ctrl w); done.
Qed.

Lemma rtc_budget w w' : rtc move w w' → inv w → budget w → budget w'.
Proof.
  intros Hr Hinv Hb. enough (inv w' ∧ budget w') by tauto. revert Hinv Hb.
  induction Hr as [|x y z Hxy _ IH]; [done|]. intros. apply IH; [by eapply move_inv|by eapply move_budget].
Qed.

End Reports.

(** ** Completion of resets *)

(** A visit of a reset always ends well. *)
Lemma advance_visit now e t tr k rest w :
  traversals w !! t = Some tr → t_rest tr = k :: rest →
  ∃ w', advance now e t w = (w', Ok tt) ∧ calls w' = calls w.
Proof.
  intros Ht Hr. unfold advance. rewrite Ht, Hr. destruct (channels w !! k) as [c|]; [|by eexists].
  destruct (visit_channel e (t_op tr) c) as [[c' op'] rc]. by eexists.
Qed.

(** The mark of a reset is cleared. *)
Lemma clear_reset st i c w :
  ctrls w !! i = Some c → reset_active c = true →
  ∃ m, (expect (on_sm (E:=Fault) i (clear_flag_exclusively ResetActive));;
        (if negb (st =? 0) then on_sm i (transition_checked Running (Faulted Reset));; mret tt else mret tt)) w
       = (set_ctrl i (set_sm m c) w, Ok tt) ∧ flag m = false.
Proof.
  unfold reset_active. intros Hc Hf.
  set (c1 := set_sm (mkSm (current_state (state_machine c)) false) c).
  rewrite (bind_step _ _ w (set_ctrl i c1 w) tt).
  2:{ unfold expect. rewrite (bind_step _ _ _ _ _ (on_sm_run i _ w c Hc)). unfold clear_flag_exclusively. by rewrite Hf. }
  destruct (negb (st =? 0)); [|by eexists].
  rewrite (bind_step _ _ _ _ _ (on_sm_run i _ _ c1 (set_ctrl_lookup i c1 w))). rewrite set_ctrl_twice.
  exists (fst (transition_checked Running (Faulted Reset) (state_machine c1))). split; [done|].
  unfold transition_checked, transition. case_bool_decide; simpl; [|done]. by case_match.
Qed.

(** A reset that completes tells its caller and clears its mark. *)
Lemma complete_reset_fine now ctx st w k :
  inv w → r_cb ctx = CbHandle k →
  (∀ i c, entries w !! r_name ctx = Some i → ctrls w !! i = Some c → reset_active c = true) →
  ∃ w', _complete_reset now ctx st w = (w', Ok tt) ∧ calls w' = calls w ++ [(CbHandle k, st =? 0)]
    ∧ traversals w' = traversals w
    ∧ ∀ i c, entries w !! r_name ctx = Some i → ctrls w' !! i = Some c → reset_active c = false.
Proof.
  intros Hinv Hcb Hf. unfold _complete_reset.
  rewrite (bind_step _ _ w w (entries w !! r_name ctx)) by done. rewrite Hcb.
  destruct (entries w !! r_name ctx) as [i|] eqn:He.
  2:{ rewrite (bind_step _ _ w w tt) by done. simpl. eexists. split_and!; try done. }
  destruct (inv_entries w Hinv _ _ He) as (c & Hc & _).
  destruct (clear_reset st i c w Hc (Hf i c eq_refl Hc)) as (m & Hrun & Hm).
  rewrite (bind_step _ _ _ _ _ Hrun). simpl. eexists. split_and!; try done.
  intros j d [= <-] Hd. simpl in Hd. rewrite lookup_insert_eq in Hd. by simplify_eq.
Qed.

Lemma advance_reset now e t tr ctx k w :
  inv w → traversals w !! t = Some tr → reset_ctx (t_op tr) = Some ctx → r_cb ctx = CbHandle k →
  ∃ w', advance now e t w = (w', Ok tt) ∧
    (t_rest tr = [] → t_op tr = ResetCreate ctx →
     calls w' = calls w ++ [(CbHandle k, t_status tr =? 0)] ∧ r_name ctx ∉ resets w' ∧
     ∀ i c, entries w !! r_name ctx = Some i → ctrls w' !! i = Some c → reset_active c = false).
Proof.
  intros Hinv Ht Hctx Hcb.
  destruct (t_rest tr) as [|j rest] eqn:Hrest.
  2:{ destruct (advance_visit now e t tr j rest w Ht Hrest) as (w' & Hw & _). by exists w'. }
  assert (Hname : reset_name tr = Some (r_name ctx)) by (unfold reset_name; by rewrite Hctx).
  destruct (resets_delete _ t tr Ht (inv_once w Hinv)) as (_ & _ & Hnot). specialize (Hnot _ Hname).
  assert (Hin : r_name ctx ∈ resets w).
  { apply list_elem_of_omap. exists tr. split; [by eapply list_elem_of_lookup_2|done]. }
  pose proof (inv_delete w t tr Hinv Ht) as Hinv1. unfold advance. rewrite Ht, Hrest.
  destruct (complete_reset_fine now ctx (t_status tr) _ k Hinv1 Hcb) as (w' & Hw & Hcalls & Htr & Hflag).
  { intros i c. apply (inv_flag w Hinv). done. }
  destruct (t_op tr) as [ctx'|ctx'|ctx'|ctx'|k' acc]; simplify_eq/=.
  - unfold _reset_destroy_channels_done. destruct (negb (t_status tr =? 0)); [by exists w'|].
    destruct (shutdown_in_progress ctx); by eexists.
  - exists w'. unfold _reset_create_channels_done. split; [done|]. intros _ _. split_and!; try done.
    unfold resets. by rewrite Htr.
Qed.

(** ** Theorems *)

(** C20.  However resets, hot removals, shutdowns, timeouts and the creation
    and destruction of channels interleave, when a controller has been shut down
    all the channels of its device are shut down: they have no qpair, keep no
    controller alive, and no reset in progress gives them a qpair again, because
    the controller stays shut down for the rest of the run.  In the runs no name is
    used for another controller while channels are being traversed for it. *)
Theorem shutdown_silences_channels o evs evs' w w' i c c' k ch :
  calm_run (empty o) evs = Some w → calm_run w evs' = Some w' →
  ctrls w !! i = Some c → get_state c = Unconfigured → ctrls w' !! i = Some c' →
  channels w' !! k = Some ch → dev ch = id c →
  get_state c' = Unconfigured ∧ is_shutdown ch = true ∧ qpair ch = None ∧ ctrl ch = None.
Proof.
  intros Hrun Hrun' Hc Hs Hc' Hk Hd. apply calm_run_moves in Hrun as [_ Hinv]; [|apply inv_empty].
  apply calm_run_moves in Hrun' as [Hm Hinv']; [|done].
  assert (Hfin : get_state c' = Unconfigured ∧ id c' = id c).
  { clear Hinv' Hk. revert c Hinv Hc Hs Hd. induction Hm as [x|x y z Hxy Hyz IH]; intros; [by simplify_eq|].
    destruct (ctrls y !! i) as [c1|] eqn:Hy.
    - destruct (move_final x y i c c1 Hinv Hxy Hc Hs Hy) as [? Heq]. rewrite <- Heq in Hd |- *.
      by apply IH; [|by eapply move_inv|..].
    - assert (Hz : ctrls z !! i = None); [|congruence]. eapply gone_stays_gone; [done| |done].
      destruct (inv_cells x Hinv i c Hc) as [Hlt _]. by eapply move_next_cell. }
  destruct Hfin as [Hs' Hid]. rewrite <- Hid in Hd.
  pose proof (inv_down w' Hinv' i c' k ch Hc' Hs' Hk Hd) as Hsd.
  destruct (inv_chans w' Hinv' k ch Hk Hsd). done.
Qed.

(** C21.  In every such run, in which no name is used for another controller
    while channels are being traversed for it, at most one reset of a controller is
    in progress, and while one is the flag of the controller registered under the
    name is set: a second reset is refused with [EBUSY] and changes nothing.  (The
    converse fails: a shutdown that overtakes a reset leaves the flag set.)  The
    visits and the completion of a reset that was asked for through a device handle
    never panic; the completion tells the caller whether the channels were
    recreated, ends the reset and clears its mark. *)
Theorem reset_runs_alone o evs w :
  calm_run (empty o) evs = Some w →
  NoDup (resets w) ∧
  (∀ n i c, n ∈ resets w → entries w !! n = Some i → ctrls w !! i = Some c → reset_active c = true) ∧
  (∀ n k, n ∈ resets w →
     handle_reset n k w = (w, Err (if decide (entries w !! n = None) then BdevNotFound n else ResetDispatch EBUSY))) ∧
  (∀ now e t tr ctx k,
     traversals w !! t = Some tr → reset_ctx (t_op tr) = Some ctx → r_cb ctx = CbHandle k →
     ∃ w', advance now e t w = (w', Ok tt) ∧
       (t_rest tr = [] → t_op tr = ResetCreate ctx →
        calls w' = calls w ++ [(CbHandle k, t_status tr =? 0)] ∧ r_name ctx ∉ resets w' ∧
        ∀ i c, entries w !! r_name ctx = Some i → ctrls w' !! i = Some c → reset_active c = false)).
Proof.
  intros Hrun. apply calm_run_moves in Hrun as [_ Hinv]; [|apply inv_empty].
  split_and!; [apply Hinv|apply Hinv| |intros; by eapply advance_reset].
  intros n k Hn. unfold handle_reset. rewrite (bind_step _ _ w w (entries w !! n)) by done.
  destruct (entries w !! n) as [i|] eqn:He; [|done]. rewrite decide_False by done.
  destruct (inv_entries w Hinv n i He) as (c & Hc & _). pose proof (inv_flag w Hinv n i c Hn He Hc) as Hf.
  destruct (reset (CbHandle k) i w) as [w' r] eqn:Hr.
  assert (∃ e, r = Err e) as [e ->].
  { revert Hr. unfold reset. rewrite (bind_step _ _ _ _ _ (get_ctrl_some i w c Hc)).
    unfold reset_active in Hf. unfold set_flag_exclusively.
    destruct (get_state c); try (rewrite (bind_step _ _ _ _ _ (on_sm_run i _ w c Hc)), Hf);
      simpl; unfold ST.fail; intros; simplify_eq; eauto. }
  by apply reset_refused in Hr as [-> ->].
Qed.

(** Each of the errors of the admin queue is reported to the listeners
    of a controller at most once: the number of reports under a name never
    exceeds the number of controllers that were created with that name, however
    often the queue is polled. *)
Theorem admin_errors_reported_once o evs w evt n :
  calm_run (empty o) evs = Some w → is_admin evt = true → (reported evt n w ≤ births n w)%nat.
Proof.
  intros Hrun Hadmin. apply calm_run_moves in Hrun as [Hm _]; [|apply inv_empty].
  pose proof (rtc_budget evt n Hadmin _ _ Hm (inv_empty o)) as Hb. unfold budget at 2 in Hb.
  enough (budget evt n (empty o)) as H0 by (specialize (Hb H0); lia).
  unfold budget, armed_cells. simpl. by rewrite map_filter_empty.
Qed.

(** ** Examples *)

Module Sample.

Definition o : NvmeBdevOpts := mkOpts 5_000_000 5_000_000 1.
Definition base : string := "10.0.0.1:8420/nqn.2019-05.io.openebs:a".
Definition dname : string := get_name base.
Definition ns : NvmeNamespace := mkNs 4194304 512 8192 0 true true true.
Definition rc0 : QpairRc := mkRc true 0 0.

(** A running controller, with a channel. *)
Definition attach : list event :=
  [EvCreate 0 base 0 true 0; EvAttach 0 (Some (4096, Some ns, true)); EvCreateEnd 0 0].
Definition with_channel : list event := attach ++ [EvChannelCreate 4096 rc0 true 0].

(** A reset has reset the channel when the controller is shut down. *)
Definition reset_then_shutdown : list event :=
  with_channel ++ [EvReset dname 7; EvAdvance 0 rc0 0; EvDestroy dname 1; EvAdvance 0 rc0 1; EvAdvance 0 rc0 1].
Definition rest_of_reset : list event := [EvAdvance 0 rc0 0; EvAdvance 0 rc0 0].

Definition after (evs : list event) : World := default (empty o) (calm_run (empty o) evs).

End Sample.

Lemma shutdown_silences_channels_witness :
  ∃ ch, channels (Sample.after (Sample.reset_then_shutdown ++ Sample.rest_of_reset)) !! 0%nat = Some ch
        ∧ qpair ch = None.
Proof.
  destruct (calm_run (empty Sample.o) Sample.reset_then_shutdown) as [w|] eqn:Hw; [|by vm_compute in Hw].
  destruct (calm_run w Sample.rest_of_reset) as [w'|] eqn:Hw'; [|vm_compute in Hw; simplify_eq; by vm_compute in Hw'].
  assert (Hc : ∃ c c' ch, ctrls w !! 0%nat = Some c ∧ get_state c = Unconfigured ∧ ctrls w' !! 0%nat = Some c'
     ∧ channels w' !! 0%nat = Some ch ∧ dev ch = id c
     ∧ channels (Sample.after (Sample.reset_then_shutdown ++ Sample.rest_of_reset)) !! 0%nat = Some ch).
  { pose proof Hw as H1. pose proof Hw' as H2. vm_compute in H1. injection H1 as <-. vm_compute in H2. injection H2 as <-.
    do 3 eexists. split_and!; vm_compute; reflexivity. }
  destruct Hc as (c & c' & ch & Hc & Hs & Hc' & Hk & Hd & Ha). exists ch. split; [exact Ha|].
  apply (shutdown_silences_channels Sample.o Sample.reset_then_shutdown Sample.rest_of_reset w w' 0 c c' 0 ch
           Hw Hw' Hc Hs Hc' Hk Hd).
Defined.

Lemma reset_runs_alone_witness :
  resets (Sample.after (Sample.with_channel ++ [EvReset Sample.dname 7])) = [Sample.dname] ∧
  NoDup (resets (Sample.after (Sample.with_channel ++ [EvReset Sample.dname 7]))).
Proof.
  split; [by vm_compute|].
  apply (reset_runs_alone Sample.o (Sample.with_channel ++ [EvReset Sample.dname 7])
           (Sample.after (Sample.with_channel ++ [EvReset Sample.dname 7]))).
  vm_compute. reflexivity.
Defined.

Lemma admin_errors_reported_once_witness :
  let evs := Sample.attach ++ [EvPoll 0 (-6) false 0; EvPoll 0 (-6) false 0; EvPoll 9_000_000 (-6) true 0] in
  reported AdminCommandCompletionFailed Sample.dname (Sample.after evs) = 1%nat ∧
  (reported AdminCommandCompletionFailed Sample.dname (Sample.after evs) ≤ births Sample.dname (Sample.after evs))%nat.
Proof.
  cbv zeta. split; [by vm_compute|].
  apply (admin_errors_reported_once Sample.o
    (Sample.attach ++ [EvPoll 0 (-6) false 0; EvPoll 0 (-6) false 0; EvPoll 9_000_000 (-6) true 0])
    (Sample.after (Sample.attach ++ [EvPoll 0 (-6) false 0; EvPoll 0 (-6) false 0; EvPoll 9_000_000 (-6) true 0]))
    AdminCommandCompletionFailed Sample.dname); [vm_compute; reflexivity|reflexivity].
Defined.

(** ** Failures *)

(** The test that guards the reset after a timeout is inverted.  A
    timeout that finds no reset in progress only sets the flag and starts
    nothing; the second one starts the reset; a third one while it runs clears
    the flag, so that the completion of the reset fails its assertion. *)
Theorem timeout_reset_is_inverted :
  (∀ now q rc i c w,
     ctrls w !! i = Some c → timeout_action (timeout_config c) = ResetDevice →
     reset_in_progress (timeout_config c) = false →
     let t := timeout_config c in
     io_timeout_handler now q rc i w
     = (set_ctrl i (set_tc (set_reset true (reset_attempts t) (next_reset_time t) t) c) w, Ok tt)) ∧
  snd (run (Sample.attach ++ [EvTimeout 1 true 0 0; EvTimeout 2 true 0 0; EvTimeout 3 true 0 0;
                              EvAdvance 4 Sample.rc0 0; EvAdvance 5 Sample.rc0 0]) (empty Sample.o)) = Panicked.
Proof.
  split; [|by vm_compute]. intros now q rc i c w Hc Ha Hp. cbv zeta. unfold io_timeout_handler.
  rewrite (bind_step _ _ _ _ _ (get_ctrl_some i w c Hc)). rewrite Ha. cbv zeta.
  assert ((if q && bool_decide (ResetDevice ≠ Ignore) && bool_decide (ResetDevice ≠ HotRemove) then ResetDevice else ResetDevice)
          = ResetDevice) as -> by (by destruct (_ && _)).
  unfold reset_controller. rewrite (bind_step _ _ _ _ _ (get_ctrl_some i w c Hc)). cbv zeta. by rewrite Hp.
Qed.

(** A controller is destroyed while a reset that a timeout started is waiting
    for its channels: the completion of the reset uses the freed configuration. *)
Theorem reset_completes_after_free :
  snd (run (Sample.with_channel ++
    [EvTimeout 1 true 0 0; EvTimeout 2 true 0 0; EvAdvance 0 Sample.rc0 0; EvDestroy Sample.dname 1;
     EvAdvance 0 Sample.rc0 1; EvAdvance 0 Sample.rc0 1; EvDestroyResume 1; EvAdvance 0 Sample.rc0 0;
     EvDestroyResume 1; EvAdvance 0 Sample.rc0 0; EvAdvance 0 Sample.rc0 0]) (empty Sample.o)) = Err UseAfterFree.
Proof. by vm_compute. Qed.

(** A reset that meets a shutdown is given up without a word to its caller:
    nothing is in progress any more and the handle has not been called. *)
Theorem shutdown_drops_reset_callback :
  let w := Sample.after (Sample.with_channel ++
    [EvReset Sample.dname 7; EvDestroy Sample.dname 1; EvAdvance 0 Sample.rc0 1; EvAdvance 0 Sample.rc0 1;
     EvAdvance 0 Sample.rc0 0; EvAdvance 0 Sample.rc0 0]) in
  traversals w = [] ∧ calls w = [(CbDestroy 1, true)].
Proof. by vm_compute. Qed.

(** The namespace disappears while the controller is being shut down: the end
    of the shutdown panics. *)
Theorem namespace_loss_during_shutdown_panics :
  snd (run (Sample.attach ++ [EvDestroy Sample.dname 1; EvAer 4096 true 2 0 None false; EvAdvance 0 Sample.rc0 0])
         (empty Sample.o)) = Panicked.
Proof. by vm_compute. Qed.

(** A controller with the same name is attached while the last step of a reset
    of its predecessor is still to come: the reset clears a mark that is not set
    and panics. *)
Theorem stale_reset_panics_on_new_controller :
  snd (run (Sample.attach ++
    [EvReset Sample.dname 7; EvAdvance 0 Sample.rc0 0; EvDestroy Sample.dname 1; EvAdvance 0 Sample.rc0 1;
     EvDestroyResume 1; EvCreate 0 Sample.base 0 true 1; EvAdvance 0 Sample.rc0 0]) (empty Sample.o)) = Panicked.
Proof. by vm_compute. Qed.

End NvmeProps.
