(* ===== verification/NvmxHandle.v ===== *)
(** * I/O on NVMe devices

    The I/O handle of an NVMe device, [bdev/nvmx/handle.rs]: the submission of
    reads, writes, compares, flushes, unmaps and write-zeroes with the pool of
    I/O contexts, their completion, the walk through the I/O vectors, the
    ranges of an unmap command and the transfers that are awaited.  The answers
    of SPDK to a submission are arguments. *)

From S2P Require Import Prelude Errors IoLog Nvmx.

Module Handle.
Import Channel.

(** ** Scatter-gather lists *)

Record IoVec := mkIoVec { iov_base : Z; iov_len : Z }.

(** The part of [NvmeIoCtx] that walks through the vectors. *)
Record SglCtx := mkSgl { iov : list IoVec; iovpos : Z; iov_offset : Z }.

(** The loop of [nvme_queued_reset_sgl] over the vectors that are left. *)
Fixpoint skip_iovs (l : list IoVec) (pos off : Z) : Z * Z :=
  match l with
  | [] => (pos, off)
  | v :: l => if off <? iov_len v then (pos, off) else skip_iovs l (pos + 1) (wrap64 (off - iov_len v))
  end.

Definition nvme_queued_reset_sgl (sgl_offset : Z) (c : SglCtx) : SglCtx :=
  let '(pos, off) := skip_iovs (iov c) 0 sgl_offset in mkSgl (iov c) pos off.

(** The address and the length of the next piece; the length is 32 bits wide. *)
Definition nvme_queued_next_sge {E} (c : SglCtx) : outcome E (SglCtx * (Z * Z)) :=
  match iov c !! Z.to_nat (iovpos c) with
  | None => Panicked
  | Some v =>
      let len := wrap32 (iov_len v) in
      if (0 <? iov_offset c) && negb (iov_offset c <=? iov_len v) then Panicked
      else
        let a := if 0 <? iov_offset c then wrap64 (iov_base v + iov_offset c) else iov_base v in
        let len := if 0 <? iov_offset c then wrap32 (len - wrap32 (iov_offset c)) else len in
        let off := wrap64 (iov_offset c + len) in
        Ok (if off =? iov_len v then mkSgl (iov c) (iovpos c + 1) 0 else mkSgl (iov c) (iovpos c) off, (a, len))
  end.

(** SPDK asks for pieces until the vectors are used up. *)
Fixpoint walk {E} (fuel : nat) (c : SglCtx) : outcome E (list (Z * Z)) :=
  match fuel with
  | O => Ok []
  | S fuel =>
      if iovpos c <? Z.of_nat (length (iov c)) then
        '(c, p) ← nvme_queued_next_sge c; l ← walk fuel c; mret (p :: l)
      else Ok []
  end.

(** ** Unmap *)

Definition SPDK_NVME_DATASET_MANAGEMENT_MAX_RANGES : Z := 256.
Definition SPDK_NVME_DATASET_MANAGEMENT_RANGE_MAX_BLOCKS : Z := 0xFFFFFFFF.

Record DsmRange := mkRange { starting_lba : Z; length_blks : Z }.

(** The loop of [unmap_blocks] that fills the ranges, and the range of the
    remaining blocks behind it.  There is room for 256 ranges, which is also the
    most that is accepted. *)
Fixpoint fill_ranges (fuel : nat) (offset remaining : Z) : list DsmRange :=
  match fuel with
  | O => []
  | S fuel =>
      if SPDK_NVME_DATASET_MANAGEMENT_RANGE_MAX_BLOCKS <? remaining
      then mkRange offset (wrap32 SPDK_NVME_DATASET_MANAGEMENT_RANGE_MAX_BLOCKS)
           :: fill_ranges fuel (wrap64 (offset + SPDK_NVME_DATASET_MANAGEMENT_RANGE_MAX_BLOCKS))
                (remaining - SPDK_NVME_DATASET_MANAGEMENT_RANGE_MAX_BLOCKS)
      else [mkRange offset (wrap32 remaining)]
  end.

(** ** Commands *)

(** What is handed to SPDK: the first block and the number of blocks, which is
    32 bits wide, or the ranges of an unmap with their number, 16 bits wide. *)
Inductive Cmd :=
| CmdRead (lba blocks flags : Z)
| CmdWrite (lba blocks flags : Z)
| CmdCompare (lba blocks flags : Z)
| CmdWriteZeroes (lba blocks flags : Z)
| CmdFlush
| CmdDsm (ranges : list DsmRange) (num : Z).

(** The context of an I/O that was submitted. *)
Record NvmeIoCtx := mkIoCtx { op : IoType; num_blocks : Z; cb : nat }.

(** [pool]: the contexts left in [NVME_IOCTX_POOL]; [bios]: those SPDK holds. *)
Record State := mkState {
  channel : NvmeIoChannelInner;
  pool : nat;
  bios : gmap nat NvmeIoCtx;
  submitted : list Cmd;
  completed : list (nat * IoCompletionStatus);
}.

Definition set_channel (c : NvmeIoChannelInner) (s : State) : State :=
  mkState c (pool s) (bios s) (submitted s) (completed s).
Definition set_pool (n : nat) (s : State) : State :=
  mkState (channel s) n (bios s) (submitted s) (completed s).
Definition set_bios (b : gmap nat NvmeIoCtx) (s : State) : State :=
  mkState (channel s) (pool s) b (submitted s) (completed s).
Definition add_submitted (c : Cmd) (s : State) : State :=
  mkState (channel s) (pool s) (bios s) (submitted s ++ [c]) (completed s).
Definition add_completed (x : nat * IoCompletionStatus) (s : State) : State :=
  mkState (channel s) (pool s) (bios s) (submitted s) (completed s ++ [x]).

(** The handle: the flags of the controller and the size of the device. *)
Record Handle := mkHandle { prchk_flags : Z; dev_blocks : Z; block_len : Z }.

(** [Errno::from_raw] for the numbers the code distinguishes. *)
Definition from_raw (n : Z) : Errno :=
  if n =? 5 then EIO else if n =? 6 then ENXIO else if n =? 11 then EAGAIN else if n =? 12 then ENOMEM
  else if n =? 19 then ENODEV else if n =? 22 then EINVAL else EOTHER n.

(** The error code is positive at every call. *)
Definition io_type_to_err (t : IoType) (source : Errno) (offset len : Z) : CoreError :=
  match t with
  | IoRead => ReadDispatch source offset len
  | IoWrite => WriteDispatch source offset len
  | IoCompare => CompareDispatch source offset len
  | IoUnmap => UnmapDispatch source offset len
  | IoNvmeIo => NvmeIoPassthruDispatch source 0xff
  | _ => NotSupported source
  end.

Definition check_io_args (t : IoType) (iovs : list IoVec) (offset len : Z) : outcome CoreError unit :=
  match iovs with
  | [] => Err (io_type_to_err t EINVAL offset len)
  | v :: _ => if iov_base v =? 0 then Err (io_type_to_err t EINVAL offset len) else Ok tt
  end.

Definition check_channel_for_io (t : IoType) (offset len : Z) (c : NvmeIoChannelInner) : outcome CoreError unit :=
  match qpair c with
  | None => Err (io_type_to_err t ENODEV offset len)
  | Some _ => Ok tt
  end.

Definition alloc_nvme_io_ctx (t : IoType) (offset len : Z) : ST State CoreError unit := λ s,
  match pool s with
  | O => (s, Err (io_type_to_err t ENOMEM offset len))
  | S n => (set_pool n s, Ok tt)
  end.

(** Take a context, hand the command to SPDK and account for the I/O.  A
    command that is refused leaves the context behind. *)
Definition submit (t : IoType) (offset len : Z) (k : nat) (cmd : Cmd) (account : bool) (rc : Z)
    (dispatch : Errno → CoreError) : ST State CoreError unit :=
  s ← ST.get;
  ST.lift (check_channel_for_io t offset len (channel s));;
  alloc_nvme_io_ctx t offset len;;
  if rc <? 0 then ST.fail (dispatch (from_raw (- rc)))
  else
    ST.modify (λ s, set_bios (<[k := mkIoCtx t len k]> (bios s)) (add_submitted cmd s));;
    (if account then ST.modify (λ s, set_channel (account_io (channel s)) s) else mret tt).

(** [flags]: [u32::from] of the read options. *)
Definition readv_blocks (h : Handle) (iovs : list IoVec) (offset len flags : Z) (k : nat) (rc : Z) :
    ST State CoreError unit :=
  ST.lift (check_io_args IoRead iovs offset len);;
  submit IoRead offset len k (CmdRead offset (wrap32 len) (Z.lor (prchk_flags h) flags)) true rc
    (λ e, ReadDispatch e offset len).

Definition writev_blocks (h : Handle) (iovs : list IoVec) (offset len : Z) (k : nat) (rc : Z) :
    ST State CoreError unit :=
  ST.lift (check_io_args IoWrite iovs offset len);;
  submit IoWrite offset len k (CmdWrite offset (wrap32 len) (prchk_flags h)) true rc
    (λ e, WriteDispatch e offset len).

Definition comparev_blocks (h : Handle) (iovs : list IoVec) (offset len : Z) (k : nat) (rc : Z) :
    ST State CoreError unit :=
  ST.lift (check_io_args IoCompare iovs offset len);;
  submit IoCompare offset len k (CmdCompare offset (wrap32 len) (prchk_flags h)) true rc
    (λ e, CompareDispatch e offset len).

Definition flush_io (h : Handle) (k : nat) (rc : Z) : ST State CoreError unit :=
  submit IoFlush 0 (dev_blocks h) k CmdFlush false rc FlushDispatch.

Definition write_zeroes (h : Handle) (offset len : Z) (k : nat) (rc : Z) : ST State CoreError unit :=
  submit IoWriteZeros offset len k (CmdWriteZeroes offset (wrap32 len) (prchk_flags h)) true rc
    (λ e, WriteZeroesDispatch e offset len).

Definition unmap_blocks (h : Handle) (offset len : Z) (k : nat) (rc : Z) : ST State CoreError unit :=
  num_ranges ← ST.lift (u64_div_ceil len SPDK_NVME_DATASET_MANAGEMENT_RANGE_MAX_BLOCKS);
  if SPDK_NVME_DATASET_MANAGEMENT_MAX_RANGES <? num_ranges then ST.fail (UnmapDispatch EINVAL offset len)
  else
    submit IoUnmap offset len k
      (CmdDsm (fill_ranges (Z.to_nat SPDK_NVME_DATASET_MANAGEMENT_MAX_RANGES) offset len) (num_ranges mod 2^16)) true rc
      (λ e, UnmapDispatch e offset len).

(** [complete_nvme_command]: [None] is success. *)
Definition complete_nvme_command (k : nat) (status : option NvmeStatus) (s : State) : State :=
  match bios s !! k with
  | None => s
  | Some b =>
      let c := channel s in
      let c := match status with None => set_stats (account_block_io (op b) 1 (num_blocks b) (stats c)) c | Some _ => c end in
      let c := match op b with IoFlush => c | _ => discard_io c end in
      add_completed (cb b, match status with None => Success | Some st => io_completion_from st end)
        (set_pool (S (pool s)) (set_bios (delete k (bios s)) (set_channel c s)))
  end.

(** ** Transfers that are awaited *)

Definition bytes_to_blocks (h : Handle) (offset_bytes num_bytes : Z) : outcome CoreError (bool * Z * Z) :=
  if block_len h =? 0 then Panicked
  else Ok (Z.lor (offset_bytes mod block_len h) (num_bytes mod block_len h) =? 0,
           offset_bytes / block_len h, num_bytes / block_len h).

(** [read_at] and [write_at], up to the wait for the completion: an answer of
    [-ENOMEM] is taken for a command that was accepted. *)
Definition transfer_begin (h : Handle) (t : IoType) (cmd : Z → Z → Cmd) (dispatch : Errno → CoreError)
    (offset len rc : Z) : ST State CoreError unit :=
  '(valid, offset_blocks, num) ← ST.lift (bytes_to_blocks h offset len);
  if negb (valid : bool) then ST.fail (InvalidOffset offset)
  else
    s ← ST.get;
    ST.lift (check_channel_for_io t offset_blocks num (channel s));;
    (if negb (rc =? 0) && negb (rc =? - ENOMEM_rc) then ST.fail (dispatch (from_raw (- rc)))
     else mret tt);;
    (if rc =? 0 then ST.modify (add_submitted (cmd offset_blocks (wrap32 num))) else mret tt);;
    ST.modify (λ s, set_channel (account_io (channel s)) s).

Definition read_at_begin (h : Handle) (offset len rc : Z) : ST State CoreError unit :=
  transfer_begin h IoRead (λ b n, CmdRead b n (prchk_flags h)) (λ e, ReadDispatch e offset len) offset len rc.

Definition write_at_begin (h : Handle) (offset len rc : Z) : ST State CoreError unit :=
  transfer_begin h IoWrite (λ b n, CmdWrite b n (prchk_flags h)) (λ e, WriteDispatch e offset len) offset len rc.

(** The rest, when the completion has come. *)
Definition transfer_end (h : Handle) (t : IoType) (offset len : Z) (status : option NvmeStatus)
    (failed : NvmeStatus → CoreError) : ST State CoreError Z := λ s,
  let c := channel s in
  match status with
  | None =>
      (set_channel (discard_io (set_stats (account_block_io t 1 (len / block_len h) (stats c)) c)) s, Ok len)
  | Some st => (set_channel (discard_io c) s, Err (failed st))
  end.

Definition read_at_end (h : Handle) (offset len : Z) (status : option NvmeStatus) : ST State CoreError Z :=
  transfer_end h IoRead offset len status
    (λ st, if bool_decide (st = UNWRITTEN_BLOCK) then ReadingUnallocatedBlock offset len
           else ReadFailed (NvmeError st) offset len).

Definition write_at_end (h : Handle) (offset len : Z) (status : option NvmeStatus) : ST State CoreError Z :=
  transfer_end h IoWrite offset len status (λ st, WriteFailed (NvmeError st) offset len).

(** [nvme_admin_passthru_done]: the status of a failed admin command is in
    [cdw0], or [EIO]. *)
Definition nvme_admin_passthru_done (succeeded : bool) (cdw0 : Z) : Z :=
  if succeeded then 0 else if cdw0 =? 0 then 5 else cdw0.

Definition nvme_admin_begin (opcode rc : Z) : ST State CoreError unit :=
  s ← ST.get;
  match qpair (channel s) with
  | None => ST.fail (NvmeAdminDispatch ENODEV opcode)
  | Some _ =>
      if negb (rc =? 0) then ST.fail (NvmeAdminDispatch (from_raw (Z.abs rc)) opcode)
      else ST.modify (λ s, set_channel (account_io (channel s)) s)
  end.

Definition nvme_admin_end (opcode : Z) (succeeded : bool) (cdw0 : Z) : ST State CoreError unit :=
  ST.modify (λ s, set_channel (discard_io (channel s)) s);;
  let status := nvme_admin_passthru_done succeeded cdw0 in
  if status =? 0 then mret tt else ST.fail (NvmeAdminFailed (from_raw status) opcode).

Definition io_passthru_begin (opcode rc : Z) : ST State CoreError unit :=
  s ← ST.get;
  match qpair (channel s) with
  | None => ST.fail (NvmeIoPassthruDispatch ENODEV opcode)
  | Some _ =>
      if negb (rc =? 0) then ST.fail (NvmeIoPassthruDispatch (from_raw (Z.abs rc)) opcode)
      else ST.modify (λ s, set_channel (account_io (channel s)) s)
  end.

Definition io_passthru_end (opcode : Z) (succeeded : bool) : ST State CoreError unit :=
  ST.modify (λ s, set_channel (discard_io (channel s)) s);;
  if succeeded then mret tt else ST.fail (NvmeIoPassthruFailed opcode).

End Handle.

Module HandleProps.
Import Channel Handle.

(** ** Scatter-gather lists *)

Definition sum_len (l : list IoVec) : Z := fold_right (λ v n, iov_len v + n) 0 l.

(** The addresses of the bytes of a piece of memory, in order. *)
Definition bytes (p : Z * Z) : list Z := seqZ (fst p) (snd p).
Definition iov_bytes (l : list IoVec) : list Z := l ≫= λ v, bytes (iov_base v, iov_len v).

(** A vector that the 32 bits of a piece can hold and that does not wrap. *)
Definition iov_ok (v : IoVec) : Prop :=
  0 ≤ iov_base v ∧ 0 ≤ iov_len v < 2^32 ∧ iov_base v + iov_len v ≤ 2^64.

Lemma iov_bytes_cons v l : iov_bytes (v :: l) = seqZ (iov_base v) (iov_len v) ++ iov_bytes l.
Proof. done. Qed.

Lemma skip_iovs_spec l pos off :
  Forall iov_ok l → 0 ≤ off < 2^32 → off < sum_len l →
  ∃ v l1 l2 off', l = l1 ++ v :: l2 ∧ skip_iovs l pos off = (pos + Z.of_nat (length l1), off') ∧
    0 ≤ off' < iov_len v ∧ drop (Z.to_nat off) (iov_bytes l) = drop (Z.to_nat off') (iov_bytes (v :: l2)).
Proof.
  revert pos off. induction l as [|v l IH]; intros pos off Hok Hoff Hsum; simpl in Hsum; [lia|].
  apply Forall_cons in Hok as [Hv Hok]. cbn [skip_iovs].
  destruct (Z.ltb_spec off (iov_len v)) as [Hlt|Hge].
  - exists v, [], l, off. split_and!; try done; [|lia]. simpl. f_equal. lia.
  - unfold iov_ok in Hv. rewrite wrap64_small by (unfold is_u64; lia).
    destruct (IH (pos + 1) (off - iov_len v)) as (u & l1 & l2 & off' & -> & Hs & Ho & Hd); [done|lia..|].
    exists u, (v :: l1), l2, off'. split_and!; try done; [|lia|lia|].
    + rewrite Hs. f_equal. simpl. lia.
    + rewrite iov_bytes_cons, drop_app_ge; rewrite length_seqZ; [|lia]. rewrite <- Hd. f_equal. lia.
Qed.

(** One piece: the rest of the vector it is in. *)
Lemma next_sge_ok {E} l1 v l2 off :
  iov_ok v → 0 ≤ off → (off < iov_len v ∨ off = 0) →
  @nvme_queued_next_sge E (mkSgl (l1 ++ v :: l2) (Z.of_nat (length l1)) off)
  = Ok (mkSgl (l1 ++ v :: l2) (Z.of_nat (length l1) + 1) 0, (iov_base v + off, iov_len v - off)).
Proof.
  intros (Hb & Hl & Hw) Ho Hlt. unfold nvme_queued_next_sge. simpl. rewrite Nat2Z.id.
  rewrite list_lookup_middle by done.
  rewrite !(wrap32_small (iov_len v)), !(wrap32_small off) by lia.
  destruct (Z.ltb_spec 0 off); simpl.
  - destruct (Z.leb_spec off (iov_len v)); [|lia]. simpl.
    rewrite (wrap32_small (iov_len v - off)) by lia.
    rewrite (wrap64_small (off + (iov_len v - off))) by (unfold is_u64; lia).
    rewrite wrap64_small by (unfold is_u64; lia).
    replace (off + (iov_len v - off)) with (iov_len v) by lia. by rewrite Z.eqb_refl.
  - assert (off = 0) as -> by lia. rewrite !Z.add_0_l, wrap64_small by (unfold is_u64; lia).
    rewrite Z.eqb_refl, Z.add_0_r, Z.sub_0_r. done.
Qed.

Lemma walk_all {E} fuel l1 l2 :
  Forall iov_ok l2 → (length l2 ≤ fuel)%nat →
  @walk E fuel (mkSgl (l1 ++ l2) (Z.of_nat (length l1)) 0) = Ok (map (λ v, (iov_base v, iov_len v)) l2).
Proof.
  revert l1 fuel. induction l2 as [|v l2 IH]; intros l1 fuel Hok Hf.
  { destruct fuel; [done|]. simpl. rewrite app_nil_r, Z.ltb_irrefl. done. }
  apply Forall_cons in Hok as [Hv Hok]. simpl in Hf. destruct fuel as [|fuel]; [lia|]. simpl.
  rewrite length_app. simpl. destruct (Z.ltb_spec (Z.of_nat (length l1)) (Z.of_nat (length l1 + S (length l2)))); [|lia].
  unfold mbind, outcome_bind. rewrite next_sge_ok by (done || lia || auto).
  specialize (IH (l1 ++ [v]) fuel Hok ltac:(lia)). rewrite <- app_assoc in IH. simpl in IH.
  rewrite length_app in IH. simpl in IH. replace (Z.of_nat (length l1 + 1)) with (Z.of_nat (length l1) + 1) in IH by lia.
  rewrite IH. unfold mret, outcome_ret. by rewrite Z.add_0_r, Z.sub_0_r.
Qed.

Lemma drop_seqZ b n k rest :
  0 ≤ k ≤ n → drop (Z.to_nat k) (seqZ b n ++ rest) = seqZ (b + k) (n - k) ++ rest.
Proof.
  intros Hk. replace n with (k + (n - k)) at 1 by lia. rewrite seqZ_app by lia. rewrite <- app_assoc.
  rewrite drop_app_ge; rewrite length_seqZ; [|lia]. by rewrite Nat.sub_diag.
Qed.

Lemma bytes_of_iovs l : map (λ v, (iov_base v, iov_len v)) l ≫= bytes = iov_bytes l.
Proof. induction l as [|v l IH]; [done|]. cbn [map]. by rewrite bind_cons, IH. Qed.

(** From whatever position the walk through the I/O vectors is
    restarted at an offset, the pieces that SPDK is then given cover, in order
    and each byte once, exactly the bytes of the vectors from that offset on,
    and no assertion fails.  The vectors are smaller than 4 GiB each. *)
Theorem sgl_walk_covers l off pos0 off0 :
  Forall iov_ok l → 0 ≤ off < 2^32 → off < sum_len l →
  ∃ ps, @walk unit (length l) (nvme_queued_reset_sgl off (mkSgl l pos0 off0)) = Ok ps
        ∧ ps ≫= bytes = drop (Z.to_nat off) (iov_bytes l).
Proof.
  intros Hok Hoff Hsum. destruct (skip_iovs_spec l 0 off Hok Hoff Hsum) as (v & l1 & l2 & off' & -> & Hs & Ho & Hd).
  unfold nvme_queued_reset_sgl. cbn [iov]. rewrite Hs, Z.add_0_l. rewrite length_app. cbn [length].
  apply Forall_app in Hok as [_ Hok]. apply Forall_cons in Hok as [Hv Hok].
  replace (length l1 + S (length l2))%nat with (S (length l1 + length l2)) by lia. cbn [walk iovpos iov].
  rewrite length_app. cbn [length]. destruct (Z.ltb_spec (Z.of_nat (length l1)) (Z.of_nat (length l1 + S (length l2)))); [|lia].
  unfold mbind, outcome_bind. rewrite next_sge_ok by (done || lia || auto).
  pose proof (@walk_all unit (length l1 + length l2) (l1 ++ [v]) l2 Hok ltac:(lia)) as Hw.
  rewrite <- app_assoc, length_app in Hw. cbn [length app] in Hw.
  replace (Z.of_nat (length l1 + 1)) with (Z.of_nat (length l1) + 1) in Hw by lia. rewrite Hw.
  eexists. split; [done|]. rewrite Hd, iov_bytes_cons, drop_seqZ by lia. by rewrite bind_cons, bytes_of_iovs.
Qed.

Lemma sgl_walk_covers_witness :
  ∃ ps, @walk unit 3 (nvme_queued_reset_sgl 5 (mkSgl [mkIoVec 100 4; mkIoVec 200 3; mkIoVec 300 2] 2 1)) = Ok ps
        ∧ ps ≫= bytes = [201; 202; 300; 301].
Proof.
  apply (sgl_walk_covers [mkIoVec 100 4; mkIoVec 200 3; mkIoVec 300 2] 5 2 1).
  - repeat constructor; simpl; lia.
  - lia.
  - simpl. lia.
Defined.

(** ** Unmap *)

(** The ranges follow each other from [start] to [stop]. *)
Fixpoint tiles (start stop : Z) (rs : list DsmRange) : Prop :=
  match rs with
  | [] => start = stop
  | r :: rs =>
      starting_lba r = start ∧ 0 < length_blks r ≤ SPDK_NVME_DATASET_MANAGEMENT_RANGE_MAX_BLOCKS
      ∧ tiles (start + length_blks r) stop rs
  end.

Lemma fill_ranges_tiles fuel n off :
  0 < n ≤ Z.of_nat fuel * SPDK_NVME_DATASET_MANAGEMENT_RANGE_MAX_BLOCKS → 0 ≤ off → off + n ≤ 2^64 →
  tiles off (off + n) (fill_ranges fuel off n)
  ∧ (Z.of_nat (length (fill_ranges fuel off n)) - 1) * SPDK_NVME_DATASET_MANAGEMENT_RANGE_MAX_BLOCKS < n
    ≤ Z.of_nat (length (fill_ranges fuel off n)) * SPDK_NVME_DATASET_MANAGEMENT_RANGE_MAX_BLOCKS.
Proof.
  revert n off. induction fuel as [|fuel IH]; intros n off Hn Ho Hs; [lia|]. cbn [fill_ranges].
  unfold SPDK_NVME_DATASET_MANAGEMENT_RANGE_MAX_BLOCKS in *. destruct (Z.ltb_spec 0xFFFFFFFF n) as [Hlt|Hge].
  - rewrite wrap64_small by (unfold is_u64; lia).
    destruct (IH (n - 0xFFFFFFFF) (off + 0xFFFFFFFF)) as [Ht Hl]; [lia..|].
    replace (off + 0xFFFFFFFF + (n - 0xFFFFFFFF)) with (off + n) in Ht by lia.
    rewrite (wrap32_small 0xFFFFFFFF) by lia. cbn [tiles length starting_lba length_blks].
    split; [|lia]. split_and!; try done. 
  - cbn [tiles length starting_lba length_blks]. rewrite wrap32_small by lia. 
    unfold SPDK_NVME_DATASET_MANAGEMENT_RANGE_MAX_BLOCKS. split; [|lia]. split_and!; try done; lia.
Qed.

(** An unmap that is accepted is one command whose ranges follow each
    other without gap or overlap from the first to the last of the blocks, each
    of at least one and at most 2^32 - 1 blocks, and whose number of ranges is
    the one announced.  More blocks than 256 ranges can hold are refused and
    nothing changes. *)
Theorem unmap_covers_range h off len k rc s :
  0 ≤ off → 0 < len < 2^64 → off + len ≤ 2^64 → 0 ≤ rc → qpair (channel s) ≠ None → pool s ≠ 0%nat →
  (len ≤ 256 * 0xFFFFFFFF →
   ∃ s' rs, unmap_blocks h off len k rc s = (s', Ok tt)
     ∧ submitted s' = submitted s ++ [CmdDsm rs (Z.of_nat (length rs))]
     ∧ tiles off (off + len) rs ∧ (length rs ≤ 256)%nat) ∧
  (256 * 0xFFFFFFFF < len → unmap_blocks h off len k rc s = (s, Err (UnmapDispatch EINVAL off len))).
Proof.
  intros Ho Hl Hs Hrc Hq Hp. unfold unmap_blocks.
  destruct (@div_ceil_spec CoreError len 0xFFFFFFFF) as (q & Hdiv & Hq0 & Hqb); [unfold is_u64; lia..|].
  unfold mbind, ST_bind, ST.lift. change 0xFFFFFFFF with SPDK_NVME_DATASET_MANAGEMENT_RANGE_MAX_BLOCKS in Hdiv. rewrite Hdiv.
  unfold SPDK_NVME_DATASET_MANAGEMENT_MAX_RANGES. split; intros Hc.
  - destruct (Z.ltb_spec 256 q); [nia|].
    destruct (fill_ranges_tiles 256 len off) as [Ht Hn];
      [unfold SPDK_NVME_DATASET_MANAGEMENT_RANGE_MAX_BLOCKS; lia|done|done|].
    unfold SPDK_NVME_DATASET_MANAGEMENT_RANGE_MAX_BLOCKS in Hn.
    replace (Z.to_nat 256) with 256%nat by lia. revert Ht Hn. generalize (fill_ranges 256 off len). intros rs Ht Hn.
    assert (q = Z.of_nat (length rs)) as -> by nia.
    rewrite (Z.mod_small (Z.of_nat _)) by lia.
    unfold submit, alloc_nvme_io_ctx, check_channel_for_io, ST.get, ST.lift. unfold mbind, ST_bind.
    destruct (qpair (channel s)); [|done]. destruct (pool s) as [|n]; [done|].
    destruct (Z.ltb_spec rc 0); [lia|]. eexists _, rs. split; [done|]. split_and!; try done. lia.
  - destruct (Z.ltb_spec 256 q); [reflexivity|nia].
Qed.

Definition sample_channel : NvmeIoChannelInner := mkInner 4096 (Some Connected) (stats_new 512) (Some 0%nat) 0 false.
Definition sample_state (n : nat) : State := mkState sample_channel n ∅ [] [].

Lemma unmap_covers_range_witness :
  ∃ s' rs, unmap_blocks (mkHandle 0 (2^40) 512) 5 (2^33) 1 0 (sample_state 4) = (s', Ok tt)
    ∧ submitted s' = [CmdDsm rs (Z.of_nat (length rs))] ∧ tiles 5 (5 + 2^33) rs ∧ (length rs ≤ 256)%nat.
Proof.
  apply (unmap_covers_range (mkHandle 0 (2^40) 512) 5 (2^33) 1 0 (sample_state 4)); try lia; done.
Defined.

(** ** Accounting *)

Inductive event :=
| HRead (iovs : list IoVec) (offset len flags : Z) (k : nat) (rc : Z)
| HWrite (iovs : list IoVec) (offset len : Z) (k : nat) (rc : Z)
| HCompare (iovs : list IoVec) (offset len : Z) (k : nat) (rc : Z)
| HFlush (k : nat) (rc : Z)
| HWriteZeroes (offset len : Z) (k : nat) (rc : Z)
| HUnmap (offset len : Z) (k : nat) (rc : Z)
| HComplete (k : nat) (status : option NvmeStatus)
| HReadAt (offset len rc : Z)
| HWriteAt (offset len rc : Z)
| HReadAtEnd (offset len : Z) (status : option NvmeStatus)
| HWriteAtEnd (offset len : Z) (status : option NvmeStatus)
| HAdmin (opcode rc : Z)
| HAdminEnd (opcode : Z) (succeeded : bool) (cdw0 : Z)
| HPassthru (opcode rc : Z)
| HPassthruEnd (opcode : Z) (succeeded : bool).

(** A submission uses a number that is not in use. *)
Definition fresh_bio (s : State) (ev : event) : bool :=
  match ev with
  | HRead _ _ _ _ k _ | HWrite _ _ _ k _ | HCompare _ _ _ k _ | HFlush k _ | HWriteZeroes _ _ k _ | HUnmap _ _ k _ =>
      bool_decide (bios s !! k = None)
  | _ => true
  end.

(** The state and the number of transfers that are awaited: it grows when one
    begins, and one ends only while there is one. *)
Definition begin (waiting : nat) (r : State * outcome CoreError unit) : option (State * nat) :=
  match r with
  | (s, Ok _) => Some (s, S waiting)
  | (s, Err _) => Some (s, waiting)
  | (_, Panicked) => None
  end.
Definition finish {A} (waiting : nat) (r : State * outcome CoreError A) : option (State * nat) :=
  match waiting, r with
  | S n, (s, (Ok _ | Err _)) => Some (s, n)
  | _, _ => None
  end.
Definition answer (waiting : nat) (r : State * outcome CoreError unit) : option (State * nat) :=
  match r with
  | (s, (Ok _ | Err _)) => Some (s, waiting)
  | (_, Panicked) => None
  end.

Definition exec (h : Handle) (ev : event) (s : State) (n : nat) : option (State * nat) :=
  if negb (fresh_bio s ev) then None
  else
    match ev with
    | HRead iovs offset len flags k rc => answer n (readv_blocks h iovs offset len flags k rc s)
    | HWrite iovs offset len k rc => answer n (writev_blocks h iovs offset len k rc s)
    | HCompare iovs offset len k rc => answer n (comparev_blocks h iovs offset len k rc s)
    | HFlush k rc => answer n (flush_io h k rc s)
    | HWriteZeroes offset len k rc => answer n (write_zeroes h offset len k rc s)
    | HUnmap offset len k rc => answer n (unmap_blocks h offset len k rc s)
    | HComplete k status => Some (complete_nvme_command k status s, n)
    | HReadAt offset len rc => begin n (read_at_begin h offset len rc s)
    | HWriteAt offset len rc => begin n (write_at_begin h offset len rc s)
    | HReadAtEnd offset len status => finish n (read_at_end h offset len status s)
    | HWriteAtEnd offset len status => finish n (write_at_end h offset len status s)
    | HAdmin opcode rc => begin n (nvme_admin_begin opcode rc s)
    | HAdminEnd opcode succeeded cdw0 => finish n (nvme_admin_end opcode succeeded cdw0 s)
    | HPassthru opcode rc => begin n (io_passthru_begin opcode rc s)
    | HPassthruEnd opcode succeeded => finish n (io_passthru_end opcode succeeded s)
    end.

Fixpoint run (h : Handle) (evs : list event) (s : State) (n : nat) : option (State * nat) :=
  match evs with
  | [] => Some (s, n)
  | ev :: evs => match exec h ev s n with Some (s, n) => run h evs s n | None => None end
  end.

(** The I/Os that SPDK holds, flushes excepted. *)
#[local] Abbreviation accountable := (λ kb : nat * NvmeIoCtx, op kb.2 ≠ IoFlush).

Definition outstanding (s : State) : nat := size (filter accountable (bios s)).

(** No submission was refused by SPDK. *)
Definition accepted (ev : event) : bool :=
  match ev with
  | HRead _ _ _ _ _ rc | HWrite _ _ _ _ rc | HCompare _ _ _ _ rc | HFlush _ rc | HWriteZeroes _ _ _ rc | HUnmap _ _ _ rc =>
      0 <=? rc
  | _ => true
  end.

(** The pending I/Os are counted, and so are the contexts, of which [lost] have
    been left behind. *)
Record acct (N lost : nat) (s : State) (n : nat) : Prop := {
  acct_pending : num_pending_ios (channel s) = Z.of_nat (outstanding s + n);
  acct_pool : (pool s + size (bios s) + lost = N)%nat;
}.

Lemma outstanding_le s : (outstanding s ≤ size (bios s))%nat.
Proof. unfold outstanding. apply map_size_filter. Qed.

Lemma submit_cases t offset len k cmd account rc d s :
  (∃ e, submit t offset len k cmd account rc d s = (s, Err e)) ∨
  (∃ p e, pool s = S p ∧ rc < 0 ∧ submit t offset len k cmd account rc d s = (set_pool p s, Err e)) ∨
  (∃ p, pool s = S p ∧ 0 ≤ rc ∧
     submit t offset len k cmd account rc d s
     = ((if account then λ s, set_channel (account_io (channel s)) s else λ s, s)
          (set_bios (<[k := mkIoCtx t len k]> (bios s)) (add_submitted cmd (set_pool p s))), Ok tt)).
Proof.
  unfold submit, check_channel_for_io, alloc_nvme_io_ctx, ST.get, ST.lift, ST.modify, ST.fail. unfold mbind, ST_bind.
  destruct (qpair (channel s)); [|left; by eexists]. destruct (pool s) as [|p]; [left; by eexists|].
  destruct (Z.ltb_spec rc 0); right; [left; by eexists p, _|right; exists p; by destruct account].
Qed.

Lemma acct_submit N lost s n t offset len k cmd account rc d :
  acct N lost s n → bios s !! k = None → Z.of_nat (N + n) < 2^64 - 1 → account = negb (bool_decide (t = IoFlush)) →
  ∃ s' r, submit t offset len k cmd account rc d s = (s', r) ∧ r ≠ Panicked ∧
    ∃ lost', acct N lost' s' n ∧ (0 ≤ rc → lost' = lost).
Proof.
  intros [Hp Hn] Hk Hb Ha. pose proof (outstanding_le s) as Hle.
  destruct (submit_cases t offset len k cmd account rc d s)
    as [(e & ->)|[(p & e & Hpool & Hrc & ->)|(p & Hpool & Hrc & ->)]].
  - eexists _, _. split_and!; try done. exists lost. by split; [constructor|].
  - eexists _, _. split_and!; try done. exists (S lost). split; [|lia]. constructor; [done|]. simpl. lia.
  - eexists _, _. split_and!; try done. exists lost. split; [|done]. subst account.
    assert (Hs : size (<[k := mkIoCtx t len k]> (bios s)) = S (size (bios s))) by (by apply map_size_insert_None).
    assert (Ho : size (filter accountable (<[k := mkIoCtx t len k]> (bios s)))
                 = if bool_decide (t = IoFlush) then outstanding s else S (outstanding s)).
    { rewrite map_filter_insert. unfold outstanding. case_bool_decide as Ht; simpl.
      - rewrite decide_False by tauto. by rewrite delete_id.
      - rewrite decide_True by done. apply map_size_insert_None. apply map_lookup_filter_None. by left. }
    constructor; case_bool_decide as Ht; simpl; rewrite ?Hs, ?Ho; try lia.
    + unfold outstanding. simpl. rewrite Ho. lia.
    + unfold outstanding. simpl. rewrite Ho, Hp. rewrite wrap64_small by (unfold is_u64; lia). lia.
Qed.

Lemma acct_complete N lost s n k st : acct N lost s n → acct N lost (complete_nvme_command k st s) n.
Proof.
  intros [Hp Hn]. unfold complete_nvme_command. destruct (bios s !! k) as [b|] eqn:Hk; [|done].
  assert (Hs : S (size (delete k (bios s))) = size (bios s)).
  { rewrite map_size_delete_Some by eauto. assert (size (bios s) ≠ 0)%nat; [|lia].
    intros Hz%map_size_empty_inv. by rewrite Hz in Hk. }
  assert (Ho : ((if bool_decide (op b = IoFlush) then 0 else 1) + size (filter accountable (delete k (bios s)))
                = outstanding s)%nat).
  { rewrite map_filter_delete. unfold outstanding. case_bool_decide as Hb.
    - rewrite delete_id; [done|]. apply map_lookup_filter_None. right. intros x ? . simplify_eq. simpl. tauto.
    - assert (filter accountable (bios s) !! k = Some b) as Hf by (by apply map_lookup_filter_Some).
      rewrite map_size_delete_Some by eauto. assert (size (filter accountable (bios s)) ≠ 0)%nat; [|lia].
      intros Hz%map_size_empty_inv. by rewrite Hz in Hf. }
  constructor; simpl; [|lia]. unfold outstanding. simpl.
  set (c := match st with Some _ => channel s | None => _ end).
  assert (Hc : num_pending_ios c = num_pending_ios (channel s)) by (unfold c; by destruct st).
  case_bool_decide as Hb.
  - rewrite Hb, Hc. lia.
  - assert (num_pending_ios (discard_io c) = Z.of_nat (size (filter accountable (delete k (bios s))) + n)) as Hd.
    { unfold discard_io. rewrite Hc. destruct (Z.eqb_spec (num_pending_ios (channel s)) 0); simpl; rewrite ?Hc; lia. }
    by destruct (op b).
Qed.

(** A transfer that begins is counted, or nothing changes. *)
Definition counts (m : ST State CoreError unit) : Prop :=
  ∀ s, (∃ e, m s = (s, Err e)) ∨ m s = (s, Panicked) ∨
       ∃ s', m s = (set_channel (account_io (channel s)) s', Ok tt) ∧ channel s' = channel s
             ∧ bios s' = bios s ∧ pool s' = pool s.

(** A transfer that ends takes one off. *)
Definition uncounts {A} (m : ST State CoreError A) : Prop :=
  ∀ s, ∃ c r, m s = (set_channel (discard_io c) s, r) ∧ num_pending_ios c = num_pending_ios (channel s).

Lemma transfer_counts h t cmd d offset len rc : counts (transfer_begin h t cmd d offset len rc).
Proof.
  intros s. unfold transfer_begin, ST.lift, ST.get, ST.fail, ST.modify, bytes_to_blocks, check_channel_for_io.
  unfold mbind, ST_bind. destruct (block_len h =? 0); [auto|]. simpl.
  destruct (negb _); [left; by eexists|]. destruct (qpair (channel s)); [|left; by eexists].
  destruct (_ && _); [left; by eexists|]. right. right. destruct (rc =? 0); by eexists.
Qed.

Lemma admin_counts opcode rc : counts (nvme_admin_begin opcode rc).
Proof.
  intros s. unfold nvme_admin_begin, ST.get, ST.fail, ST.modify, mbind, ST_bind.
  destruct (qpair (channel s)); [|left; by eexists]. destruct (negb _); [left; by eexists|]. right. right. by exists s.
Qed.

Lemma passthru_counts opcode rc : counts (io_passthru_begin opcode rc).
Proof.
  intros s. unfold io_passthru_begin, ST.get, ST.fail, ST.modify, mbind, ST_bind.
  destruct (qpair (channel s)); [|left; by eexists]. destruct (negb _); [left; by eexists|]. right. right. by exists s.
Qed.

Lemma acct_begin N lost s n s' n' m :
  counts m → acct N lost s n → Z.of_nat (N + n) < 2^64 - 1 → begin n (m s) = Some (s', n') → acct N lost s' n' ∧ (n' ≤ S n)%nat.
Proof.
  intros Hm [Hp Hn] Hb. pose proof (outstanding_le s) as Hle.
  destruct (Hm s) as [(e & ->)|[->|(s1 & -> & Hc & Hbi & Hpo)]]; simpl; intros; simplify_eq; [split; [done|lia]|].
  split; [|lia]. constructor; simpl; [|by rewrite Hbi, Hpo]. unfold outstanding. simpl. rewrite Hbi.
  unfold outstanding in Hp, Hle. rewrite Hp, wrap64_small by (unfold is_u64; lia). lia.
Qed.

Lemma acct_finish {A} N lost s n s' n' (m : ST State CoreError A) :
  uncounts m → acct N lost s n → finish n (m s) = Some (s', n') → acct N lost s' n' ∧ (n' ≤ n)%nat.
Proof.
  intros Hm [Hp Hn]. destruct (Hm s) as (c & r & -> & Hc). unfold finish. destruct n as [|n]; [done|].
  intros H. assert (s' = set_channel (discard_io c) s ∧ n' = n) as [-> ->] by (by destruct r; simplify_eq).
  split; [|lia]. constructor; simpl; [|done]. unfold outstanding in *. simpl. unfold discard_io. rewrite Hc.
  destruct (Z.eqb_spec (num_pending_ios (channel s)) 0); simpl; lia.
Qed.

Lemma acct_answer N lost n (m : ST State CoreError unit) s s' n' (ok : Prop) :
  (∃ s' r, m s = (s', r) ∧ r ≠ Panicked ∧ ∃ lost', acct N lost' s' n ∧ (ok → lost' = lost)) →
  answer n (m s) = Some (s', n') → (∃ lost', acct N lost' s' n' ∧ (ok → lost' = lost)) ∧ n' = n.
Proof.
  intros (s1 & r & -> & Hr & lost' & Ha & Hl). unfold answer. destruct r; [| |done]; intros; simplify_eq; eauto.
Qed.

Lemma acct_checked N lost s n t iovs offset len ok (m : ST State CoreError unit) :
  acct N lost s n →
  (∃ s' r, m s = (s', r) ∧ r ≠ Panicked ∧ ∃ lost', acct N lost' s' n ∧ (ok → lost' = lost)) →
  ∃ s' r, (ST.lift (check_io_args t iovs offset len);; m) s = (s', r) ∧ r ≠ Panicked
    ∧ ∃ lost', acct N lost' s' n ∧ (ok → lost' = lost).
Proof.
  intros Ha Hm. unfold ST.lift, check_io_args, mbind, ST_bind.
  destruct iovs as [|v l]; [eexists _, _; split_and!; eauto; done|].
  destruct (iov_base v =? 0); [eexists _, _; split_and!; eauto; done|done].
Qed.

Lemma acct_exec h N lost s n ev s' n' :
  acct N lost s n → Z.of_nat (N + n) < 2^64 - 1 → exec h ev s n = Some (s', n') →
  (∃ lost', acct N lost' s' n' ∧ (accepted ev = true → lost' = lost)) ∧ (n' ≤ S n)%nat.
Proof.
  intros Ha Hb. unfold exec. destruct (fresh_bio s ev) eqn:Hf; [|done]. cbn [negb].
  assert (Hans : ∀ (m : ST State CoreError unit),
    (∃ s' r, m s = (s', r) ∧ r ≠ Panicked ∧ ∃ lost', acct N lost' s' n ∧ (accepted ev = true → lost' = lost)) →
    answer n (m s) = Some (s', n') →
    (∃ lost', acct N lost' s' n' ∧ (accepted ev = true → lost' = lost)) ∧ (n' ≤ S n)%nat).
  { intros m Hm H. destruct (acct_answer N lost n m s s' n' _ Hm H) as [? ->]. split; [done|lia]. }
  assert (Hbeg : ∀ m, counts m → begin n (m s) = Some (s', n') →
    (∃ lost', acct N lost' s' n' ∧ (accepted ev = true → lost' = lost)) ∧ (n' ≤ S n)%nat).
  { intros m Hm H. destruct (acct_begin N lost s n s' n' m Hm Ha Hb H). eauto. }
  assert (Hfin : ∀ A (m : ST State CoreError A), uncounts m → finish n (m s) = Some (s', n') →
    (∃ lost', acct N lost' s' n' ∧ (accepted ev = true → lost' = lost)) ∧ (n' ≤ S n)%nat).
  { intros A m Hm H. destruct (acct_finish N lost s n s' n' m Hm Ha H). split; [eauto|lia]. }
  assert (Hsub : ∀ t offset len k cmd account rc d, bios s !! k = None → account = negb (bool_decide (t = IoFlush)) →
     ∃ s' r, submit t offset len k cmd account rc d s = (s', r) ∧ r ≠ Panicked ∧
       ∃ lost', acct N lost' s' n ∧ ((0 <=? rc) = true → lost' = lost)).
  { intros t offset len k cmd account rc d Hk Hac.
    destruct (acct_submit N lost s n t offset len k cmd account rc d Ha Hk Hb Hac) as (s1 & r & -> & Hr & lost' & Ha' & Hl).
    eexists _, _. split_and!; try done. exists lost'. split; [done|]. intros ?%Z.leb_le. auto. }
  destruct ev; simpl in Hf; try apply bool_decide_eq_true in Hf.
  1-3: apply Hans, acct_checked; [done|]; by apply Hsub.
  1-2: apply Hans; by apply Hsub.
  - apply Hans. unfold unmap_blocks, ST.lift, mbind, ST_bind.
    destruct (u64_div_ceil len SPDK_NVME_DATASET_MANAGEMENT_RANGE_MAX_BLOCKS) as [q|e|] eqn:Hq.
    + destruct (_ <? q); [eexists _, _; split_and!; eauto; done|]. by apply Hsub.
    + eexists _, _; split_and!; eauto; done.
    + unfold u64_div_ceil in Hq. simpl in Hq. by destruct (_ <? _) in Hq.
  - intros. simplify_eq. split; [|lia]. exists lost. split; [by apply acct_complete|done].
  - apply Hbeg, transfer_counts.
  - apply Hbeg, transfer_counts.
  - apply Hfin. intros st. unfold read_at_end, transfer_end. by destruct status; eexists _, _.
  - apply Hfin. intros st. unfold write_at_end, transfer_end. by destruct status; eexists _, _.
  - apply Hbeg, admin_counts.
  - apply Hfin. intros st. unfold nvme_admin_end, ST.modify, ST.fail, mbind, ST_bind. destruct (_ =? 0); by eexists _, _.
  - apply Hbeg, passthru_counts.
  - apply Hfin. intros st. unfold io_passthru_end, ST.modify, ST.fail, mbind, ST_bind. destruct succeeded; by eexists _, _.
Qed.

Lemma acct_run h N lost s n evs s' n' :
  acct N lost s n → Z.of_nat (N + n + length evs) < 2^64 - 1 → run h evs s n = Some (s', n') →
  ∃ lost', acct N lost' s' n' ∧ (forallb accepted evs = true → lost' = lost).
Proof.
  revert lost s n. induction evs as [|ev evs IH]; intros lost s n Ha Hb; simpl in *; [intros; simplify_eq; eauto|].
  destruct (exec h ev s n) as [[s1 n1]|] eqn:He; [|done].
  destruct (acct_exec h N lost s n ev s1 n1 Ha ltac:(lia) He) as [(lost1 & Ha1 & Hl1) Hn]. intros Hr.
  destruct (IH lost1 s1 n1 Ha1 ltac:(lia) Hr) as (lost' & Ha' & Hl'). exists lost'. split; [done|].
  intros [H1 H2]%andb_true_iff. rewrite Hl', Hl1; done.
Qed.

(** C22.  In every run of fewer than 2^64 events (less the contexts), whatever is
    submitted, refused, completed and awaited on a channel, its counter of pending
    I/Os is the number of I/Os SPDK holds, flushes excepted, plus the number of
    transfers that are awaited, among them a [read_at] or [write_at] that SPDK
    answered with [-ENOMEM], which is awaited although nothing was submitted.  No
    context is made up, and none is lost as long as SPDK refuses no submission: the
    contexts in the pool and those SPDK holds are all there are. *)
Theorem pending_ios_exact h N evs s n :
  run h evs (sample_state N) 0 = Some (s, n) → Z.of_nat (N + length evs) < 2^64 - 1 →
  num_pending_ios (channel s) = Z.of_nat (outstanding s + n) ∧
  (pool s + size (bios s) ≤ N)%nat ∧
  (forallb accepted evs = true → (pool s + size (bios s) = N)%nat).
Proof.
  intros Hr Hb. destruct (acct_run h N 0 (sample_state N) 0 evs s n) as (lost & [Hp Hn] & Hl); try done.
  - constructor; [done|]. simpl. rewrite map_size_empty. lia.
  - lia.
  - split_and!; [done|lia|]. intros Hall. specialize (Hl Hall). lia.
Qed.

Definition sample_io : list event :=
  [HRead [mkIoVec 4096 512] 0 1 0 1 0; HWrite [mkIoVec 4096 512] 1 1 2 (-6); HFlush 3 0; HReadAt 512 1024 0;
   HComplete 1 None; HUnmap 0 100 4 0].

Lemma pending_ios_exact_witness :
  ∃ s n, run (mkHandle 0 8192 512) sample_io (sample_state 8) 0 = Some (s, n) ∧
    num_pending_ios (channel s) = Z.of_nat (outstanding s + n) ∧ num_pending_ios (channel s) = 2.
Proof.
  destruct (run (mkHandle 0 8192 512) sample_io (sample_state 8) 0) as [[s n]|] eqn:Hr; [|by vm_compute in Hr].
  exists s, n. split; [done|]. split; [|vm_compute in Hr; by simplify_eq].
  apply (pending_ios_exact (mkHandle 0 8192 512) 8 sample_io s n Hr). simpl. lia.
Defined.

(** ** Failures *)

(** A submission that SPDK refuses does not give its context back: as many
    refusals as there are contexts, and no I/O is possible any more. *)
Theorem refused_submissions_exhaust_pool h N :
  ∃ s, run h (replicate N (HRead [mkIoVec 4096 512] 0 1 0 0 (-6))) (sample_state N) 0 = Some (s, 0%nat) ∧
    bios s = ∅ ∧ ∀ iovs offset len flags k rc, check_io_args IoRead iovs offset len = Ok tt →
      readv_blocks h iovs offset len flags k rc s = (s, Err (ReadDispatch ENOMEM offset len)).
Proof.
  exists (sample_state 0). split; [|split; [done|]].
  - induction N as [|N IH]; [done|]. exact IH.
  - intros iovs offset len flags k rc H. unfold readv_blocks, ST.lift, mbind, ST_bind. by rewrite H.
Qed.

(** [read_at] takes the answer [-ENOMEM] of SPDK for a command under way: it
    waits, although nothing was submitted that could complete. *)
Theorem read_at_waits_for_nothing h N :
  0 < block_len h → snd (read_at_begin h 0 (block_len h) (- ENOMEM_rc) (sample_state N)) = Ok tt
    ∧ submitted (fst (read_at_begin h 0 (block_len h) (- ENOMEM_rc) (sample_state N))) = [].
Proof.
  intros Hb. unfold read_at_begin, transfer_begin, bytes_to_blocks, ST.lift, ST.get, ST.modify, mbind, ST_bind.
  destruct (Z.eqb_spec (block_len h) 0); [lia|]. rewrite Z.mod_same, Z.mod_0_l by lia. done.
Qed.

End HandleProps.
