(* ===== verification/NvmxQpair.v ===== *)
(** * Connecting a qpair

    The connection of an I/O qpair, which several callers may ask for at the
    same time: [bdev/nvmx/qpair.rs] with the asynchronous connection that is
    compiled in by default.  The callers hold the receiving ends of channels;
    [answers] is what has been sent on them. *)

From S2P Require Import Prelude Errors Nvmx.

Module Qpair.
Import Channel.

Definition ConnectResult : Type := outcome CoreError unit.

(** [conn]: the sender of the [Connection] in progress. *)
Record QPair := mkQPair {
  state : QPairState;
  waiters : list nat;
  conn : option nat;
  answers : list (nat * ConnectResult);
}.

Definition create : QPair := mkQPair Disconnected [] None [].

Definition answer (c : nat) (r : ConnectResult) (q : QPair) : QPair :=
  mkQPair (state q) (waiters q) (conn q) (answers q ++ [(c, r)]).

(** [QPair::start_new_async] and [Connection::create]; [started]: SPDK accepts
    to connect. *)
Definition start_new_async (c : nat) (started : bool) (q : QPair) : QPair :=
  let q := mkQPair Connecting (waiters q) (conn q) (answers q) in
  if started then mkQPair (state q) (waiters q) (Some c) (answers q)
  else answer c (Err (OpenBdev ENXIO)) q.

Definition waiting_async (c : nat) (q : QPair) : QPair :=
  mkQPair (state q) (waiters q ++ [c]) (conn q) (answers q).

(** [QPair::connect_async] of the caller [c]. *)
Definition connect_async (c : nat) (started : bool) (q : QPair) : outcome unit QPair :=
  match state q with
  | Disconnected => Ok (start_new_async c started q)
  | Connecting => Ok (waiting_async c q)
  | Connected => Ok (answer c (Ok tt) q)
  | Dropped => Panicked
  end.

(** [QPair::connect] *)
Definition connect (status : Z) (q : QPair) : outcome unit (QPair * Z) :=
  match state q with
  | Connected => Ok (q, 0)
  | Disconnected =>
      Ok (mkQPair (if status =? 0 then Connected else Disconnected) (waiters q) (conn q) (answers q), status)
  | _ => Panicked
  end.

(** [Connection::complete] *)
Definition complete (r : ConnectResult) (q : QPair) : outcome unit QPair :=
  match conn q with
  | None => Panicked
  | Some c =>
      let st :=
        match state q with
        | Connecting => match r with Ok _ => Connected | _ => Disconnected end
        | st => st
        end in
      Ok (mkQPair st [] None (answers q ++ (c, r) :: map (λ w, (w, r)) (waiters q)))
  end.

(** [Connection::poll_cb] with the answer of SPDK: 0 comes with the callback
    [qpair_connect_cb], 1 means that the connection is still under way. *)
Definition poll (res : Z) (q : QPair) : outcome unit QPair :=
  match conn q with
  | None => Ok q
  | Some _ =>
      if bool_decide (state q = Dropped) then complete (Err (OpenBdev ECANCELED)) q
      else if res =? 0 then complete (Ok tt) q
      else if res =? 1 then Ok q
      else complete (Err (OpenBdev (EOTHER (Z.abs res)))) q
  end.

(** [impl Drop for QPair]: without a connection the senders go with it. *)
Definition drop (q : QPair) : QPair :=
  match conn q with
  | Some _ => mkQPair Dropped (waiters q) (conn q) (answers q)
  | None => mkQPair Dropped [] None (answers q ++ map (λ w, (w, Err (OpenBdev ECANCELED))) (waiters q))
  end.

Inductive event :=
| EvConnectAsync (c : nat) (started : bool)
| EvConnect (status : Z)
| EvPoll (res : Z)
| EvDrop.

Definition exec (ev : event) (q : QPair) : outcome unit QPair :=
  match ev with
  | EvConnectAsync c started => connect_async c started q
  | EvConnect status => r ← connect status q; Ok (fst r)
  | EvPoll res => poll res q
  | EvDrop => Ok (drop q)
  end.

Fixpoint run (evs : list event) (q : QPair) : outcome unit QPair :=
  match evs with
  | [] => Ok q
  | ev :: evs => q ← exec ev q; run evs q
  end.

(** The callers in the order of their calls. *)
Definition callers (evs : list event) : list nat :=
  evs ≫= λ ev, match ev with EvConnectAsync c _ => [c] | _ => [] end.

(** The callers that have got no answer yet. *)
Definition pending (q : QPair) : list nat := from_option (λ c, [c]) [] (conn q) ++ waiters q.

Definition starts (evs : list event) : bool :=
  forallb (λ ev, match ev with EvConnectAsync _ started => started | _ => true end) evs.

End Qpair.

Module QpairProps.
Import Channel Qpair.

(** A qpair that is not connecting has no connection under way. *)
Definition settled (q : QPair) : Prop := state q = Disconnected ∨ state q = Connected → conn q = None.

(** Nobody waits without a connection under way. *)
Definition no_orphans (q : QPair) : Prop :=
  (conn q = None → waiters q = []) ∧ (state q = Connecting → conn q ≠ None).

Definition accounted (cs : list nat) (q : QPair) : Prop := pending q ++ (answers q).*1 ≡ₚ cs.

Lemma complete_ok r q c :
  conn q = Some c →
  ∃ st, complete r q = Ok (mkQPair st [] None (answers q ++ (c, r) :: map (λ w, (w, r)) (waiters q))) ∧
    st ≠ Connecting.
Proof.
  intros Hc. unfold complete. rewrite Hc. eexists. split; [done|]. by destruct (state q), r.
Qed.

Lemma map_fst_answers (r : ConnectResult) l : (map (λ w : nat, (w, r)) l).*1 = l.
Proof. induction l as [|w l IH]; [done|]. simpl. by f_equal. Qed.

Lemma complete_accounted r q q' cs :
  accounted cs q → complete r q = Ok q' → accounted cs q' ∧ settled q' ∧ no_orphans q'.
Proof.
  unfold accounted, pending, settled, no_orphans. intros Ha Hc.
  destruct (conn q) as [c|] eqn:Hq; [|unfold complete in Hc; by rewrite Hq in Hc].
  destruct (complete_ok r q c Hq) as (st & Hc' & Hst). rewrite Hc' in Hc. simplify_eq. simpl in *.
  split; [|split; [done|]]; [|done].
  rewrite fmap_app, fmap_cons, map_fst_answers, <- Ha. simpl. rewrite (Permutation_app_comm (answers q).*1). done.
Qed.

Lemma poll_accounted res q q' cs :
  accounted cs q → settled q → poll res q = Ok q' → accounted cs q' ∧ settled q' ∧ (no_orphans q → no_orphans q').
Proof.
  intros Ha Hs. unfold poll. destruct (conn q) as [c|] eqn:Hq; [|intros; by simplify_eq].
  case_bool_decide; [|destruct (res =? 0); [|destruct (res =? 1); [intros; by simplify_eq|]]];
    intros Hc; destruct (complete_accounted _ q q' cs Ha Hc) as (? & ? & ?); auto.
Qed.

Lemma exec_accounted ev q q' cs :
  accounted cs q → settled q → exec ev q = Ok q' →
  accounted (cs ++ callers [ev]) q' ∧ settled q' ∧ (no_orphans q → starts [ev] = true → no_orphans q').
Proof.
  intros Ha Hs He. destruct ev as [c started|status|res|]; cbn [exec] in He.
  - change (callers [EvConnectAsync c started]) with [c].
    unfold connect_async in He. unfold accounted, pending, settled, no_orphans in *.
    destruct (state q) eqn:Hst; simplify_eq.
    + specialize (Hs (or_introl eq_refl)). unfold start_new_async. rewrite Hs in *. destruct started; simpl in *.
      * split_and!; [|by intros []|]; [|intros [? ?] _; split; done].
        rewrite Ha. by rewrite <- Permutation_cons_append.
      * split_and!; [|by intros []|]; [|by intros [? ?] ?]. rewrite fmap_app. simpl. by rewrite app_assoc, Ha.
    + simpl in *. rewrite Hst. split_and!; [|by intros []|].
      * rewrite <- Ha, <- !app_assoc. by rewrite (Permutation_app_comm (answers q).*1 [c]).
      * intros [? ?] _. split; [|done]. intros Hn. by destruct H0.
    + simpl in *. rewrite Hst. split_and!; [|done|].
      * rewrite fmap_app. simpl. by rewrite app_assoc, Ha.
      * intros [? ?] _. split; done.
  - change (callers [EvConnect status]) with (@nil nat). rewrite app_nil_r.
    unfold connect in He. destruct (state q) eqn:Hst; simpl in He; simplify_eq; [|done].
    unfold accounted, pending, settled, no_orphans in *. simpl in *. rewrite (Hs (or_introl Hst)) in *.
    split_and!; [done|done|]. intros [H _] _. split; [done|]. by destruct (status =? 0).
  - change (callers [EvPoll res]) with (@nil nat). rewrite app_nil_r.
    destruct (poll_accounted res q q' cs Ha Hs He) as (? & ? & ?). auto.
  - change (callers [EvDrop]) with (@nil nat). rewrite app_nil_r. simplify_eq. unfold drop.
    unfold accounted, pending, settled, no_orphans in *. destruct (conn q) as [c|] eqn:Hq; simpl in *.
    + split_and!; [done|by intros []|by intros [? ?]].
    + split_and!; [|done|done]. rewrite fmap_app, map_fst_answers, <- Ha. by rewrite Permutation_app_comm.
Qed.

Lemma run_accounted evs q q' cs :
  accounted cs q → settled q → run evs q = Ok q' →
  accounted (cs ++ callers evs) q' ∧ settled q' ∧ (no_orphans q → starts evs = true → no_orphans q').
Proof.
  revert q cs. induction evs as [|ev evs IH]; intros q cs Ha Hs Hr; cbn [run] in Hr.
  { simplify_eq. by rewrite app_nil_r. }
  destruct (exec ev q) as [q1|e|] eqn:He; [|done..].
  destruct (exec_accounted ev q q1 cs Ha Hs He) as (Ha1 & Hs1 & Hl1).
  destruct (IH q1 _ Ha1 Hs1 Hr) as (Ha2 & Hs2 & Hl2). split_and!; [|done|].
  - rewrite <- app_assoc in Ha2. replace (callers (ev :: evs)) with (callers [ev] ++ callers evs); [done|].
    unfold callers. rewrite !bind_cons. simpl. by rewrite app_nil_r.
  - intros Ho [H1 H2]%andb_true_iff. apply Hl2; [|done]. apply Hl1; [done|]. unfold starts. simpl. by rewrite H1.
Qed.

(** However calls, polls and the drop of the qpair follow each other,
    every caller that asked for a connection has been answered exactly once or
    is still pending.  If SPDK accepts every connection that is started, a
    caller is pending only while a connection is under way, and when that is
    polled to its end, successfully or not, all of them get the same answer and
    nobody is left. *)
Theorem every_caller_is_answered_once evs q :
  run evs create = Ok q →
  pending q ++ (answers q).*1 ≡ₚ callers evs ∧
  (starts evs = true → conn q = None → pending q = []) ∧
  (conn q ≠ None → ∀ res, res ≠ 1 ∨ state q = Dropped →
     ∃ q' r, poll res q = Ok q' ∧ pending q' = [] ∧ answers q' = answers q ++ map (λ c, (c, r)) (pending q)).
Proof.
  intros Hr. destruct (run_accounted evs create q []) as (Ha & Hs & Ho); [unfold accounted; reflexivity|by intros _|done|].
  split; [done|]. split.
  - intros Hst Hc. unfold pending. rewrite Hc. simpl. by apply Ho.
  - intros Hc res Hres. destruct (conn q) as [c|] eqn:Hq; [|done].
    assert (∃ r, poll res q = complete r q) as [r ->].
    { unfold poll. rewrite Hq. case_bool_decide; [by eexists|]. destruct (res =? 0); [by eexists|].
      destruct (Z.eqb_spec res 1); [by destruct Hres|by eexists]. }
    destruct (complete_ok r q c Hq) as (st & -> & _). eexists _, r. split_and!; try done.
    unfold pending. by rewrite Hq.
Qed.

Lemma every_caller_is_answered_once_witness :
  ∃ q, run [EvConnectAsync 1 true; EvConnectAsync 2 true; EvPoll 1; EvConnectAsync 3 true; EvPoll (-5)] create = Ok q
       ∧ pending q ++ (answers q).*1 ≡ₚ [1; 2; 3]%nat.
Proof.
  eexists. split; [reflexivity|].
  apply (every_caller_is_answered_once
           [EvConnectAsync 1 true; EvConnectAsync 2 true; EvPoll 1; EvConnectAsync 3 true; EvPoll (-5)]).
  reflexivity.
Defined.

(** When SPDK refuses to start a connection the qpair stays in the state
    [Connecting] without a connection: whoever asks next waits, and no poll ends
    the wait. *)
Theorem refused_start_blocks_callers c d res :
  ∃ q, run [EvConnectAsync c false; EvConnectAsync d true; EvPoll res] create = Ok q
       ∧ answers q = [(c, Err (OpenBdev ENXIO))] ∧ pending q = [d] ∧ conn q = None.
Proof. eexists. split_and!; [reflexivity|done..]. Qed.

(** A synchronous connection of a qpair that is being connected panics. *)
Theorem connect_while_connecting_panics c status :
  run [EvConnectAsync c true; EvConnect status] create = Panicked.
Proof. done. Qed.

End QpairProps.
